(* ===== verification/_CoqProject ===== *)
-Q . S2P
Prelude.v
GoStrings.v
GoHeap.v
NetIP.v
Bpf.v
State.v
Exposure.v
FlowLife.v
Metadata.v
Neutron.v
Attribution.v
Resolve.v
Trie.v
Lookup.v
KernelMap.v
KernelWriter.v
Unresolved.v
Scraper.v
Classify.v
Collector.v
Gc.v
Pressure.v
Sync.v
Reconcile.v
GoJson.v
FileSys.v
Wal.v
WalCrash.v
WalFlush.v
GoArgs.v
Config.v
Runtime.v
Boot.v
ColdStart.v
Kick.v
TcAttach.v
Link.v
Debug.v
Topology.v
OpenStack.v
Pins.v
Assembly.v
Builder.v
Scenario.v
Cloud.v
Recorded.v
Realize.v
RealizeSpec.v
Down.v
FakeCloud.v
Assert.v
StepEnv.v
Drive.v
AgentCtl.v
StepActs.v
StepAsserts.v
Steps.v
Runner.v
StepCalm.v
StepLedger.v
RunnerSpec.v
ScenZones.v
ScenRoutes.v
ScenLife.v
Registry.v
Cli.v
CliSpec.v
AgentMetrics.v
GoFloat.v
Verdict.v
CloudClient.v
CloudContract.v
