(* ===== verification/Prelude.v ===== *)
(** * Lachesis: a verification library for the traffic-accounting agent

    Lachesis runs on every compute node of an OpenStack cloud.  A BPF program on
    the VM taps counts bytes per flow and destination zone; the agent drains the
    kernel counters, attributes them to tenants, servers and external networks,
    and exposes cumulative series a billing system reads.  The property everything
    else serves: no byte is lost, counted twice or moved between series, across
    attribution changes, map evictions, restarts and crashes.

    ** How the parts fit

    Packets: bpf/telemetry.c classifies a packet (Classify), looking the remote
    address up in a trie whose rows the agent computes from Neutron (Trie, Resolve)
    and writes through fallible calls (KernelMap, KernelWriter).
    Counters: the scraper drains the flow map (Scraper, FlowLife); the classifier
    credits the readings to the cumulative counters (State, Exposure) or holds them
    until their MAC is known (Unresolved); the collector aggregates counters and
    settled accumulators into the families (Collector).
    Attribution: a sync of Neutron (Neutron, Attribution, Sync) yields the MAC to
    tenant map and the router labels (Metadata); the cold start puts the first sync
    in force (ColdStart), the reconciler every later one (Reconcile), when its loop
    is kicked by Kafka or ticks (Kick).
    Housekeeping: the ghost sweep and the pressure relief bound the maps (Gc,
    Pressure); the flusher and the restore keep the counters across restarts
    (Wal, WalCrash, WalFlush over FileSys and GoJson).
    Control: configuration, hot reload and boot order (Config, Runtime, Boot); the
    netlink watcher keeps the programs attached (Link, TcAttach); the debug pages show
    what all of these hold (Debug, Topology).  The boot adopts the pinned kernel maps
    (Pins) and assembles the agent out of all of these (Assembly).
    The scenario harness: a topology is declared in a DSL (Builder), stood up on a
    cloud with a record of every resource on disk (Scenario, Cloud, Realize), and torn
    down from that record (Down); the double it is tested against is FakeCloud.  A scripted
    run (Runner) checks that the cluster is ready, realizes the topology, executes the
    steps of the script (Steps), judges what the agents counted (Assert, StepAsserts) and
    tears down on every exit path; the command line (Cli) runs the registered scenarios
    (Registry) one by one or as a suite.  The harness reads the agents' own metrics
    (AgentMetrics), which closes the circle: what a verdict says of the agents' ledgers
    is Verdict.

    ** The files, in dependency order

    - Prelude: 64-bit arithmetic, iteration, generic lemmas, tactics, hints.
    - GoStrings, GoHeap, NetIP, GoArgs, GoJson: the standard-library functions the
      program uses (strings, sort, container/heap, net/netip, strconv, flag, time,
      encoding/json on documents).
    - Bpf: internal/bpf, the key and value types shared with the kernel, labels, key
      encodings, map-size checks, the statistics reader.
    - State, Exposure: internal/state.  GlobalState is the Record of the same name;
      [ApplyDelta], [Add], [Settle], the prunes, snapshots and restores are its
      methods.  Exposure adds histories of operations and what they expose.
    - FlowLife: one flow's life between kernel entry and counter row.
    - Metadata: internal/metadata, the sharded store behind a class [MetaStore], the
      resolver, the router map, the interner.
    - Neutron, Attribution, Resolve, Trie, Lookup, Sync: internal/neutron: types and
      port classes; external networks, router labels and Amphora owners; the static
      route resolver; the trie builder; the debug lookups; the fetch and anomalies.
    - KernelMap, KernelWriter: internal/kernelwriter over maps whose calls may fail.
    - Unresolved, Scraper: internal/unresolved, internal/scraper and the batched
      reader of internal/agent/reader_linux.go, over a class [FlowSink].
    - Classify: bpf/telemetry.c, the packet path.
    - Collector: internal/metrics.
    - Gc, Pressure: internal/gc and the evictors of internal/agent/bootstrap_linux.go.
    - Reconcile, Kick: internal/reconcile (the pass; the loop) and internal/kafka.
    - FileSys: a POSIX file system with a journal: what a crash may keep.
    - Wal, WalCrash, WalFlush: internal/wal and internal/agent/walflush.go.
    - Config: internal/config, internal/tunables.  Runtime: internal/runtime,
      internal/logging.
    - Boot: internal/boot, worker.go, retry.go and [bootstrapper.run].
    - ColdStart: internal/agent/coldstart_linux.go and [wireReconcile].
    - TcAttach: internal/tcattach, internal/zombie.  Link: internal/netlink, over the
      class [Attacher], which TcAttach discharges.
    - Debug, Topology: internal/debug, the view models of the pages.
    - OpenStack: internal/osclient and the client half of internal/neutron.
    - Pins, Assembly: internal/agent: the load of the collection over the pin
      directory; every boot step, the agent's construction and its run.
    - Builder: internal/testenv/scenario, and programs of the DSL.
    - Scenario, Cloud: the data and the decisions of internal/scenariotest; its
      interfaces as classes [Cloud], [MetricsSource], [StateFile] with laws, and a
      monad of states and errors.  Recorded: what a run-state accounts for.
    - Realize, RealizeSpec: internal/scenariotest/realize.  Down: its teardown.
      FakeCloud: internal/scenariotest/fake, an instance of the laws.
    - Assert: internal/scenariotest/assert, preflight and the report.  StepEnv: what
      steps share (step.go, exec.go, gate).  Drive, AgentCtl: internal/scenariotest/drive
      and agentctl.
    - StepActs, StepAsserts, Steps: internal/scenariotest/steps, one program per step
      over a monad of calls, and one type with a constructor per step.
    - Runner: internal/scenariotest/run.  StepCalm, StepLedger, RunnerSpec: which steps
      make or take nothing, the ledger of those that do, and the whole run against it.
    - ScenZones, ScenRoutes, ScenLife, Registry: cmd/scenariotest/scenarios, the forty
      scenarios as programs of the DSL, and their registry.
    - Cli, CliSpec: cmd/scenariotest, the subcommands over the class [Process].
    - AgentMetrics: internal/scenariotest/agentmetrics, over the class [AgentHTTP].
    - GoFloat: float64 arithmetic of whole numbers below 2^53.  Verdict: an assertion
      over the collectors of the agents.
    - CloudClient, CloudContract: internal/scenariotest/openstack and
      internal/osclient/auth.go over the class [Gophercloud]: an instance of the laws.

    ** What the theorems show

    - Ledgers (Exposure, Gc, Reconcile, Unresolved, WalFlush): for any history of
      drains, settlements, attribution changes, sweeps, prunes and restarts, a total
      series shows what was credited to it, and what changes of owner of rows not
      settled yet moved in and out of it, modulo 2^64; where rows are settled before
      they change owner, nothing moves, and it never decreases; a reconcile pass settles
      first and moves no byte, a prune only ends the series of names that are gone, and
      sweeping and restarting move no byte.
    - Refinement (Collector, Classify, Metadata, ColdStart, Link): the metrics sent are
      the ledger's buckets; the kernel's verdict is the longest-prefix reading of the
      trie the agent computed; the sharded store is a finite map; after the cold start
      and any passes userspace stands for the last snapshot put in force, and so does
      each kernel map as far as its calls succeeded; after an attach sweep the registry
      is what the kernel carries.
    - Crash safety (WalCrash): a load after any interleaving of saves, failures and
      crashes yields the last completed save or a later one begun, never a mixture.
    - Boot (Boot, Pins, Assembly): an await answers nil only for a phase that is
      reached, always for one reached when it is called, and whatever wakes it leaves it
      one answer; stale pins cost the counters and never the boot; a boot
      fails at a named step and releases what it opened, or returns the agent wired
      as configured, with the first snapshot in force before a filter is attached.
    - The harness (Builder, Scenario, RealizeSpec, Down): declared topologies are
      closed; a run killed at any call leaves a record that accounts for all it made
      but at most one resource; torn down, the cloud is what it was before.
    - Scripted runs (RunnerSpec, CliSpec): whatever fails in a run or a suite, the cloud
      keeps what it had before, and a teardown that succeeds leaves at most the resource
      being made when the error struck; the record of a topology that is up is not
      started over, nor acted on by a command that names another scenario.  The
      OpenStack client satisfies the laws these theorems ask of a cloud (CloudContract).
    - The harness against the agent (AgentMetrics, Verdict): the samples the harness
      sums are the agent's ledger; a row passes exactly when the ledgers of the cluster
      grew by its minimum.
    - Exactness (Trie, KernelWriter, Reconcile, Gc, FlowLife, Attribution, Sync,
      TcAttach): each pass ends in the state its specification names on every branch,
      errors included; the incremental trie write never leaves an address without a
      row both tries give it.
    - Agreement (Topology, OpenStack): the topology pages count the same edges; the
      optional services never decide whether a sync succeeds.
    - Bounds, liveness (Config, Link, Kick, Pressure): validated settings are within
      their limits; waits follow their schedule; a kick is answered within a pass's
      length and the maximal wait, for a loop that takes what is ready; relief converges.
    - Examples named in the manifest's findings exhibit the places where the code
      and its documentation part.

    ** Choices

    Integers are Z with the wrap-around written out ([u64], [i64], ...) wherever the
    code can reach the boundary.  Maps are gmap, sets gset; where Go's iteration
    order is unspecified, it is a parameter of
    the model (class [GoRange]): the theorems hold for every order.  Locks are not
    modelled: each method body is one atomic step, but for an await of a boot phase,
    whose two selects are two, and what can interleave between two steps is an explicit
    sequence of steps (the boot's phases, the kick loop's events in time, the file
    system's crashes, the netlink sessions).  Recursion is structural almost
    everywhere; fuel appears only where the code itself bounds the
    work (the resolver's hop limit; Resolve.resolver_hop_limit shows it exact) or
    where it is shown or plain to be enough: sifts of a heap and evictions of the
    buffer are bounded by the number of entries (the heap property and the buffer's
    bound hold after them), parts of a duration by the length of its text.

    Parameters stand for code outside the repository, with documented behaviour as
    hypotheses, and concrete instances in the witnesses: the kernel's LPM lookup
    (longest matching row wins), system calls on BPF maps and files (a call acts or
    fails without effect), the library that loads and pins BPF objects, the netlink
    library (class [TcKernel]), YAML and JSON text decoding, the answers of the
    OpenStack API, the cloud the scenarios run on (class [CloudLaws]: a create adds
    one resource under a fresh id, a failing call may have acted all the same; derived,
    for the OpenStack client, from the laws [GopherLaws] of single API calls).  Of the
    harness also: commands run on machines and hosts ([VMExec], [AgentExec]), the clock
    ([Clock]), the report's file ([ReportFile]), the agent's HTTP answers and their
    decoders ([AgentHTTP]), the process around a command ([Process]); the laws
    [HostLaws], [ProcessLaws] and [HTTPLaws] say that none of them touches the cloud's
    resources, and [exposes] what a scrape shows of the samples a collector sent.  A
    deadline of a polling loop is the number of polls that fit before it; an
    interrupt or an expired context is a pause or a call that fails.

    ** Not modelled

    HTTP and token handling towards OpenStack, the HTTP server and the Prometheus
    registry, the Kafka broker client: calls into third-party libraries around the
    modelled parts.  The templates of the
    debug pages and lookups of IPv6 addresses.  Log lines, and metrics counters except where a component's
    state is its counters (Link, Runtime).  Of the
    scenario harness: the SSH client behind its interfaces; the rendering of reports, the
    tracing and the descriptions of the scenarios; whether the zones the scenarios
    expect are those the agent computes for their traffic; the parsing of flags by cobra; the
    goroutine of the two-stage interrupt; and IPv6 in the step that configures a NIC.
    Error texts are constructors, or abbreviated.  The load test, the benchmark and the
    drivers of the kernel under test hold no logic of the agent.  The entry point and
    the packaging. *)
From Corelib Require Export ssreflect.
From stdpp Require Export base tactics gmap list strings sorting numbers pretty.
From Stdlib Require Export ZArith Lia.

#[global] Open Scope general_if_scope.
#[global] Open Scope Z_scope.

Declare Scope go_scope.
Delimit Scope go_scope with go.
Create HintDb go.

(** ** Machine integers *)

Definition u64 (z : Z) : Z := z `mod` 2 ^ 64.
Definition u64_add (a b : Z) : Z := u64 (a + b).
Definition u64_sub (a b : Z) : Z := u64 (a - b).
Definition u32 (z : Z) : Z := z `mod` 2 ^ 32.

Infix "+ᵤ" := u64_add (at level 50, left associativity) : go_scope.
Infix "-ᵤ" := u64_sub (at level 50, left associativity) : go_scope.
#[global] Open Scope go_scope.

Definition u64_range (z : Z) : Prop := 0 ≤ z < 2 ^ 64.

Lemma u64_id z : u64_range z → u64 z = z.
Proof. apply Z.mod_small. Qed.
Lemma u64_in_range z : u64_range (u64 z).
Proof. apply Z.mod_pos_bound. lia. Qed.
#[export] Hint Resolve u64_in_range : go.
Lemma u64_idem z : u64 (u64 z) = u64 z.
Proof. apply u64_id, u64_in_range. Qed.
Lemma u64_eqm a b : (∃ k, a = b + k * 2 ^ 64) → u64 a = u64 b.
Proof. move=> [k ->]. rw /u64. by rw Z_mod_plus_full. Qed.
Lemma u64_split z : z = u64 z + (z / 2 ^ 64) * 2 ^ 64.
Proof. rw /u64. pose proof (Z_div_mod_eq_full z (2 ^ 64)). lia. Qed.

(** [u64_solve] proves equalities of 64-bit wrapped sums by exposing every
    inner wrap as the value minus a multiple of 2^64. *)
Ltac u64_expose :=
  repeat match goal with
  | |- context [u64 (?a + u64 ?b)] =>
      rw (u64_eqm (a + u64 b) (a + b));
      [exists (- (b / 2 ^ 64)); pose proof (u64_split b); lia|]
  | |- context [u64 (u64 ?a + ?b)] =>
      rw (u64_eqm (u64 a + b) (a + b));
      [exists (- (a / 2 ^ 64)); pose proof (u64_split a); lia|]
  | |- context [u64 (?a - u64 ?b)] =>
      rw (u64_eqm (a - u64 b) (a - b));
      [exists (b / 2 ^ 64); pose proof (u64_split b); lia|]
  | |- context [u64 (u64 ?a - ?b)] =>
      rw (u64_eqm (u64 a - b) (a - b));
      [exists (- (a / 2 ^ 64)); pose proof (u64_split a); lia|]
  | |- context [u64 (u64 ?a)] => rw (u64_idem a)
  end.
Ltac u64_solve := rw /u64_add /u64_sub; u64_expose; apply (f_equal u64); lia.

#[export] Instance u64_add_comm : Comm (=) u64_add.
Proof. intros a b. u64_solve. Qed.
#[export] Instance u64_add_assoc : Assoc (=) u64_add.
Proof. intros a b c. u64_solve. Qed.
Lemma u64_add_zero a b : (0 +ᵤ a) +ᵤ b = a +ᵤ b.
Proof. u64_solve. Qed.
Lemma u64_add_small a b : u64_range (a + b) → a +ᵤ b = a + b.
Proof. apply u64_id. Qed.

(** Componentwise unbounded sums of (bytes, packets). *)
Definition pair_add (a b : Z * Z) : Z * Z := (a.1 + b.1, a.2 + b.2).

(** ** Iterating over a Go map

    [range] over a Go map visits every entry once, in an order the language
    leaves open.  A model that iterates takes the order from this class, so a
    theorem proved for every instance holds for every order. *)

Class GoRange := {
  go_range : ∀ {K} `{Countable K} {V}, gmap K V → list (K * V);
  go_range_perm : ∀ {K} `{Countable K} {V} (m : gmap K V),
    go_range m ≡ₚ map_to_list m
}.
#[export] Hint Resolve go_range_perm : go.

(** The instance the witnesses evaluate: stdpp's own enumeration. *)
Definition list_range : GoRange := {|
  go_range := λ K _ _ V m, map_to_list m;
  go_range_perm := λ K _ _ V m, Permutation_refl _ |}.

Section go_range.
Context `{GoRange} `{Countable K} {V : Type}.
Implicit Types m : gmap K V.

Lemma elem_of_go_range m k v : (k, v) ∈ go_range m ↔ m !! k = Some v.
Proof. rw (go_range_perm m). apply elem_of_map_to_list. Qed.
Lemma NoDup_go_range m : NoDup (go_range m).*1.
Proof. rw (go_range_perm m). apply NoDup_fst_map_to_list. Qed.
Lemma length_go_range m : length (go_range m) = size m.
Proof. by rw (go_range_perm m) length_map_to_list. Qed.
Lemma go_range_empty : go_range (∅ : gmap K V) = [].
Proof.
  apply Permutation_nil_r. by rw go_range_perm map_to_list_empty.
Qed.
End go_range.

Lemma map_to_list_disj_union `{Countable K} {V} (m1 m2 : gmap K V) :
  m1 ##ₘ m2 → map_to_list (m1 ∪ m2) ≡ₚ map_to_list m1 ++ map_to_list m2.
Proof.
  intros Hd. apply NoDup_Permutation; first apply NoDup_map_to_list.
  - apply NoDup_app. split_and!; try apply NoDup_map_to_list.
    intros [k v] H1%elem_of_map_to_list H2%elem_of_map_to_list.
    by eapply map_disjoint_spec.
  - intros [k v]. rw elem_of_app !elem_of_map_to_list. by apply lookup_union_Some.
Qed.
Lemma bind_perm_ext {A B} (f g : A → list B) l :
  (∀ x, f x ≡ₚ g x) → l ≫= f ≡ₚ l ≫= g.
Proof. intros E. induction l as [|x l IH]; csimpl; [done|by rw E IH]. Qed.

(** ** Accumulators

    The counters of the program are sums that wrap at 64 bits; a map of such
    sums is built by crediting one bucket at a time, a missing bucket starting
    from zero.  [tally_perm] says the order of the credits is irrelevant, and
    [tally_credit] and [tally_fuse] that a sum can be taken in two stages. *)

Class Accumulator (A : Type) := {
  acc_zero : A;
  acc_add : A → A → A;
  #[global] acc_comm :: Comm (=) acc_add;
  #[global] acc_assoc :: Assoc (=) acc_add;
  acc_zero_add : ∀ a b, acc_add (acc_add acc_zero a) b = acc_add a b;
  acc_zero_zero : acc_add acc_zero acc_zero = acc_zero
}.

Section tally.
Context `{Accumulator A} `{Countable K}.
Implicit Types (m : gmap K A) (l : list (K * A)) (a b : A).

Definition credit (k : K) (a : A) m : gmap K A :=
  <[k := acc_add (default acc_zero (m !! k)) a]> m.
Definition tally_from m l : gmap K A :=
  foldl (λ m kv, credit kv.1 kv.2 m) m l.
Definition tally l : gmap K A := tally_from ∅ l.

Lemma acc_add_zero_r a b : acc_add (acc_add a b) acc_zero = acc_add a b.
Proof.
  rw -(assoc_L acc_add) (comm_L acc_add b) (comm_L acc_add a).
  rw acc_zero_add. apply (comm_L acc_add).
Qed.

Lemma lookup_credit k a m : credit k a m !! k = Some (acc_add (default acc_zero (m !! k)) a).
Proof. apply lookup_insert_eq. Qed.
Lemma lookup_credit_ne k k' a m : k ≠ k' → credit k a m !! k' = m !! k'.
Proof. apply lookup_insert_ne. Qed.
Lemma dom_credit k a m : dom (credit k a m) = {[k]} ∪ dom m.
Proof. apply dom_insert_L. Qed.

Lemma credit_comm k1 a1 k2 a2 m :
  credit k1 a1 (credit k2 a2 m) = credit k2 a2 (credit k1 a1 m).
Proof.
  destruct (decide (k1 = k2)) as [<-|Hne].
  - rw /credit !lookup_insert_eq !insert_insert_eq /=. f_equal.
    rw -!(assoc_L acc_add). f_equal. apply (comm_L acc_add).
  - rw {1 3}/credit !lookup_credit_ne //.
    by apply insert_insert_ne.
Qed.

Lemma credit_twice k a b m :
  credit k b (credit k a m) =
  <[k := acc_add (default acc_zero (m !! k)) (acc_add a b)]> m.
Proof.
  by rw /credit lookup_insert_eq insert_insert_eq /= -(assoc_L acc_add).
Qed.
Lemma credit_sum k a b m : credit k b (credit k a m) = credit k (acc_add a b) m.
Proof. apply credit_twice. Qed.
(** Crediting zero to a bucket that was just credited changes nothing. *)
Lemma credit_zero k a m : credit k acc_zero (credit k a m) = credit k a m.
Proof. by rw credit_twice /credit (assoc_L acc_add) acc_add_zero_r. Qed.
(** A bucket created by a first credit holds [acc_add acc_zero a]; moving
    that bucket's value on credits the same amount as [a] itself. *)
Lemma credit_first k a b m : credit k (acc_add acc_zero a) m = credit k a m.
Proof.
  rw /credit. f_equal.
  by rw (comm_L acc_add _ (acc_add _ _)) acc_zero_add (comm_L acc_add).
Qed.

Lemma tally_from_cons m k a l :
  tally_from m ((k, a) :: l) = tally_from (credit k a m) l.
Proof. done. Qed.
Lemma tally_from_app m l1 l2 :
  tally_from m (l1 ++ l2) = tally_from (tally_from m l1) l2.
Proof. apply foldl_app. Qed.

Lemma tally_from_credit k a m l :
  tally_from (credit k a m) l = credit k a (tally_from m l).
Proof.
  elim: l m => [|[k' a'] l IH] m //=. by rw credit_comm IH.
Qed.

Lemma tally_from_perm m l1 l2 : l1 ≡ₚ l2 → tally_from m l1 = tally_from m l2.
Proof.
  move=> Hp. elim: Hp m => {l1 l2}.
  - done.
  - move=> [k a] l1 l2 _ IH m /=. apply IH.
  - move=> [k1 a1] [k2 a2] l m /=. by rw credit_comm.
  - move=> l1 l2 l3 _ IH1 _ IH2 m. by rw IH1.
Qed.

#[global] Instance tally_from_proper m :
  Proper ((≡ₚ) ==> (=)) (tally_from m).
Proof. move=> l1 l2. apply tally_from_perm. Qed.
#[global] Instance tally_proper : Proper ((≡ₚ) ==> (=)) tally.
Proof. move=> l1 l2. apply tally_from_perm. Qed.

Lemma dom_tally_from m l : dom (tally_from m l) = dom m ∪ list_to_set l.*1.
Proof.
  induction l as [|[k a] l IH] in m |- *; simpl; first set_solver.
  rw IH dom_credit. set_solver.
Qed.
Lemma lookup_tally_from_notin m l k :
  k ∉ l.*1 → tally_from m l !! k = m !! k.
Proof.
  elim: l m => [|[k' a] l IH] m //=.
  move=> /not_elem_of_cons [Hne Hl].
  by rw IH // lookup_credit_ne.
Qed.

Lemma lookup_tally_from_in m l k :
  k ∈ l.*1 → ∃ a b, tally_from m l !! k = Some (acc_add a b).
Proof.
  elim: l m => [|[k' a] l IH] m /=; first by move=> /elem_of_nil.
  destruct (decide (k ∈ l.*1)) as [Hl|Hl]; first by move=> _; apply IH.
  move=> /elem_of_cons [?|//]; subst.
  rw lookup_tally_from_notin // lookup_credit. by do 2 eexists.
Qed.

Lemma tally_dom l k : is_Some (tally l !! k) → k ∈ l.*1.
Proof.
  intros Hk%elem_of_dom. rw /tally dom_tally_from in Hk. set_solver.
Qed.

(** A zero credit to a bucket that some earlier credit created is idle. *)
Lemma tally_from_zero m l1 l2 k :
  k ∈ l1.*1 → tally_from m (l1 ++ (k, acc_zero) :: l2) = tally_from m (l1 ++ l2).
Proof.
  move=> Hk. rw !tally_from_app /= /credit.
  destruct (lookup_tally_from_in m l1 k Hk) as (a & b & E).
  by rw E /= acc_add_zero_r insert_id.
Qed.

Lemma tally_app l1 l2 : tally (l1 ++ l2) = tally_from (tally l1) l2.
Proof. apply tally_from_app. Qed.
End tally.

(** The reading of a bucket: a missing one holds zero. *)
Definition value `{Accumulator A} `{Countable K} (k : K) (m : gmap K A) : A :=
  default acc_zero (m !! k).

Section value.
Context `{Accumulator A} `{Countable K}.
Implicit Types (m : gmap K A) (l : list (K * A)) (a b : A).

Lemma value_empty k : value k (∅ : gmap K A) = acc_zero.
Proof. done. Qed.
Lemma value_credit k a m : value k (credit k a m) = acc_add (value k m) a.
Proof. by rw /value lookup_credit. Qed.
Lemma value_credit_ne k k' a m : k ≠ k' → value k' (credit k a m) = value k' m.
Proof. intros. by rw /value lookup_credit_ne. Qed.

(** [idle a]: adding zero to [a] does nothing (a value already wrapped). *)
Definition idle (a : A) : Prop := acc_add a acc_zero = a.
Lemma idle_zero : idle acc_zero.
Proof. apply acc_zero_zero. Qed.
Lemma idle_add a b : idle (acc_add a b).
Proof. apply acc_add_zero_r. Qed.

Definition same_values m1 m2 : Prop := ∀ k, value k m1 = value k m2.
#[global] Instance same_values_equiv : Equivalence same_values.
Proof. split; [by intros ?|by intros ?? E k|].
  intros ??? E1 E2 k. by rw (E1 k) (E2 k). Qed.
#[global] Instance credit_same k a : Proper (same_values ==> same_values) (credit k a).
Proof.
  intros m1 m2 E k'. destruct (decide (k = k')) as [->|].
  - by rw !value_credit E.
  - by rw !value_credit_ne.
Qed.

Definition idle_map m : Prop := ∀ k, idle (value k m).
Lemma idle_credit k a m : idle_map m → idle_map (credit k a m).
Proof.
  intros Hm k'. destruct (decide (k = k')) as [->|].
  - rw value_credit. apply idle_add.
  - by rw value_credit_ne.
Qed.
Lemma idle_tally_from m l : idle_map m → idle_map (tally_from m l).
Proof.
  induction l as [|[k a] l IH] in m |- *; first done.
  intros Hm. apply IH, idle_credit, Hm.
Qed.
Lemma idle_tally l : idle_map (tally l).
Proof. apply idle_tally_from. intros k. apply idle_zero. Qed.
Lemma credit_zero_same k m : idle_map m → same_values (credit k acc_zero m) m.
Proof.
  intros Hm k'. destruct (decide (k = k')) as [->|].
  - by rw value_credit Hm.
  - by rw value_credit_ne.
Qed.

#[global] Instance tally_from_same : Proper (same_values ==> eq ==> same_values) tally_from.
Proof.
  intros m1 m2 E l ? <-. induction l as [|[k a] l IH] in m1, m2, E |- *; first done.
  apply IH. by rw E.
Qed.

Definition all_zero l : Prop := Forall (λ kv, kv.2 = acc_zero) l.
Lemma tally_from_all_zero m l : idle_map m → all_zero l → same_values (tally_from m l) m.
Proof.
  intros Hm Hl. induction Hl as [|[k a] l Ha Hl IH] in m, Hm |- *; first done.
  simpl in Ha. subst a. etrans; first by apply IH, idle_credit.
  by apply credit_zero_same.
Qed.

Lemma value_credit_cong k k' a m1 m2 :
  value k m1 = value k m2 → value k (credit k' a m1) = value k (credit k' a m2).
Proof.
  intros E. destruct (decide (k' = k)) as [->|].
  - by rw !value_credit E.
  - by rw !value_credit_ne.
Qed.
Lemma value_tally_from_cong k m1 m2 l :
  value k m1 = value k m2 → value k (tally_from m1 l) = value k (tally_from m2 l).
Proof.
  induction l as [|[k' a] l IH] in m1, m2 |- *; first done.
  intros E. by apply IH, value_credit_cong.
Qed.
Lemma value_tally_rows k m :
  value k (tally (map_to_list m)) = from_option (acc_add acc_zero) acc_zero (m !! k).
Proof.
  rw /value /tally. destruct (m !! k) as [a|] eqn:E.
  - rw -(map_to_list_delete m k a E) tally_from_cons lookup_tally_from_notin.
    { intros ([? b] & ? & Hb%elem_of_map_to_list)%list_elem_of_fmap. simplify_eq/=.
      by rw lookup_delete_eq in Hb. }
    by rw lookup_credit.
  - rw lookup_tally_from_notin //.
    intros ([? b] & ? & Hb%elem_of_map_to_list)%list_elem_of_fmap. by simplify_eq/=.
Qed.

(** Rows whose value is zero may be attributed to any bucket. *)
Lemma tally_bind_same {R} (f1 f2 : R → list (K * A)) (rows : list R) m :
  idle_map m →
  (∀ r, r ∈ rows → f1 r = f2 r ∨ (all_zero (f1 r) ∧ all_zero (f2 r))) →
  same_values (tally_from m (rows ≫= f1)) (tally_from m (rows ≫= f2)).
Proof.
  induction rows as [|r rows IH] in m |- *; first done.
  intros Hm Hr. csimpl. rw !tally_from_app.
  rw {1}(IH (tally_from m (f1 r))); first by apply idle_tally_from.
  { intros r' ?. apply Hr. by right. }
  destruct (Hr r) as [->|[H1 H2]]; [by left|done|].
  apply tally_from_same; [|done]. etrans; first by apply tally_from_all_zero.
  symmetry. by apply tally_from_all_zero.
Qed.
End value.

(** Two-stage sums: [rekey f l] renames the buckets of [l]. *)
Section rekey.
Context `{Accumulator A} `{Countable K1} `{Countable K2}.
Variable f : K1 → K2.
Implicit Types (n : gmap K1 A) (m : gmap K2 A).

Definition rekey (l : list (K1 * A)) : list (K2 * A) := prod_map f id <$> l.

Lemma rekey_app l1 l2 : rekey (l1 ++ l2) = rekey l1 ++ rekey l2.
Proof. apply fmap_app. Qed.
Lemma foldl_credit_rekey m l :
  foldl (λ m kv, credit (f kv.1) kv.2 m) m l = tally_from m (rekey l).
Proof. induction l as [|[k a] l IH] in m |- *; csimpl; [done|apply IH]. Qed.
#[global] Instance rekey_proper : Proper ((≡ₚ) ==> (≡ₚ)) rekey.
Proof. solve_proper. Qed.

Lemma rekey_bind {R} (g : R → list (K1 * A)) l : rekey (l ≫= g) = l ≫= (rekey ∘ g).
Proof. induction l as [|r l IH]; csimpl; first done. by rw rekey_app IH. Qed.
Lemma rekey_all_zero l : all_zero l → all_zero (rekey l).
Proof. rw /all_zero /rekey Forall_fmap. intros Hl. eapply Forall_impl; first exact Hl. by intros []. Qed.

Lemma tally_credit m n k a :
  tally_from m (rekey (map_to_list (credit k a n))) =
  tally_from m (rekey ((k, a) :: map_to_list n)).
Proof.
  destruct (n !! k) as [c|] eqn:E.
  - rw -{2}(insert_delete_id n k c E) /credit E.
    rw -insert_delete_eq !map_to_list_insert ?lookup_delete_eq //=.
    by rw credit_sum (comm_L acc_add).
  - rw /credit E map_to_list_insert //=.
    by rw credit_first.
Qed.

Lemma tally_fuse m n l :
  tally_from m (rekey (map_to_list (tally_from n l))) =
  tally_from m (rekey (map_to_list n ++ l)).
Proof.
  elim: l n => [|[k a] l IH] n /=; first by rw app_nil_r.
  by rw IH !rekey_app !tally_from_app tally_credit /= !tally_from_credit.
Qed.
End rekey.

(** ** Loops over the rows of a map held in a larger state

    [rows_ind] is the induction principle of a Go loop [for k, v := range m]
    whose body touches no other row of [m]. *)
Section rows.
Context `{GoRange} `{Countable K} {V A : Type}.
Variable look : A → gmap K V.
Variable step : A → K * V → A.
Hypothesis step_local : ∀ a k v k',
  look a !! k = Some v → k' ≠ k → look (step a (k, v)) !! k' = look a !! k'.

Lemma rows_fold_local l a k :
  NoDup l.*1 → (∀ k v, (k, v) ∈ l → look a !! k = Some v) →
  k ∉ l.*1 → look (foldl step a l) !! k = look a !! k.
Proof.
  induction l as [|[k1 v1] l IH] in a |- *; csimpl; first done.
  intros [Hk1 Hnd]%NoDup_cons Hl [Hne Hk]%not_elem_of_cons.
  rw IH // ?step_local //; try (apply Hl; left).
  intros k2 v2 Hin. rw step_local; first by apply Hl; left.
  - intros ->. apply Hk1. by apply (list_elem_of_fmap_2 fst) in Hin.
  - apply Hl. by right.
Qed.

Lemma rows_fold_ind (P : A → Prop) l a :
  (∀ a k v, look a !! k = Some v → P a → P (step a (k, v))) →
  NoDup l.*1 → (∀ k v, (k, v) ∈ l → look a !! k = Some v) →
  P a → P (foldl step a l).
Proof.
  intros Hstep. induction l as [|[k1 v1] l IH] in a |- *; csimpl; first done.
  intros [Hk1 Hnd]%NoDup_cons Hl HP.
  apply IH; [done| |by apply Hstep; [apply Hl; left|]].
  intros k2 v2 Hin. rw step_local; first by apply Hl; left.
  - intros ->. apply Hk1. by apply (list_elem_of_fmap_2 fst) in Hin.
  - apply Hl. by right.
Qed.

Lemma rows_ind (P : A → Prop) a :
  (∀ a k v, look a !! k = Some v → P a → P (step a (k, v))) →
  P a → P (foldl step a (go_range (look a))).
Proof.
  intros Hstep. apply rows_fold_ind; [done|apply NoDup_go_range|].
  by intros k v ?%elem_of_go_range.
Qed.

(** The final contents of the table, when a step rewrites its own row to
    [f k v]. *)
Lemma rows_lookup (f : K → V → option V) a k :
  (∀ a k v, look a !! k = Some v → look (step a (k, v)) !! k = f k v) →
  look (foldl step a (go_range (look a))) !! k = look a !! k ≫= f k.
Proof.
  intros Hf.
  assert (∀ l a, NoDup l.*1 → (∀ k v, (k, v) ∈ l → look a !! k = Some v) →
    k ∈ l.*1 → look (foldl step a l) !! k = look a !! k ≫= f k) as Hin.
  { clear a. intros l. induction l as [|[k1 v1] l IH]; intros a; csimpl.
    { by intros _ _ []%elem_of_nil. }
    intros [Hk1 Hnd]%NoDup_cons Hl Hk.
    assert (look a !! k1 = Some v1) as Ha by (apply Hl; left).
    assert (∀ k v, (k, v) ∈ l → look (step a (k1, v1)) !! k = Some v) as Hl'.
    { intros k2 v2 Hin. rw step_local //; last by apply Hl; right.
      intros ->. apply Hk1. by apply (list_elem_of_fmap_2 fst) in Hin. }
    destruct (decide (k = k1)) as [->|Hne].
    - by rw rows_fold_local // Ha /= Hf.
    - apply elem_of_cons in Hk as [->|Hk]; first done.
      by rw IH // step_local. }
  assert (∀ k v, (k, v) ∈ go_range (look a) → look a !! k = Some v) as Hr
    by (by intros ? ? ?%elem_of_go_range).
  pose proof (NoDup_go_range (look a)) as Hnd.
  destruct (look a !! k) as [v|] eqn:E.
  - rw Hin // ?E //. apply elem_of_go_range in E.
    by apply (list_elem_of_fmap_2 fst) in E.
  - rw rows_fold_local //. intros ([? v] & -> & Hv)%list_elem_of_fmap.
    apply Hr in Hv. simpl in E. congruence.
Qed.
End rows.

(** ** Seeding a map record by record *)

Definition insertAll `{Countable K} {V} (l : list (K * V)) (m : gmap K V) : gmap K V :=
  foldl (λ m kv, <[kv.1 := kv.2]> m) m l.

Section insertAll.
Context `{Countable K} {V : Type}.
Implicit Types (m : gmap K V) (l : list (K * V)).

Lemma insertAll_notin l m k : k ∉ l.*1 → insertAll l m !! k = m !! k.
Proof.
  induction l as [|[k1 v1] l IH] in m |- *; csimpl; first done.
  intros [? ?]%not_elem_of_cons. by rw IH // lookup_insert_ne.
Qed.
Lemma insertAll_lookup l m k v :
  NoDup l.*1 → (k, v) ∈ l → insertAll l m !! k = Some v.
Proof.
  induction l as [|[k1 v1] l IH] in m |- *; csimpl; first by intros _ []%elem_of_nil.
  intros [Hk1 Hnd]%NoDup_cons [[= -> ->]|Hin]%elem_of_cons; last by apply IH.
  by rw insertAll_notin // lookup_insert_eq.
Qed.
Lemma insertAll_range `{GoRange} m : insertAll (go_range m) ∅ = m.
Proof.
  apply map_eq. intros k. destruct (m !! k) as [v|] eqn:E.
  - apply insertAll_lookup; [apply NoDup_go_range|by apply elem_of_go_range].
  - rw insertAll_notin //. intros ([? v] & -> & Hv%elem_of_go_range)%list_elem_of_fmap.
    by simpl in E; congruence.
Qed.
End insertAll.

(** ** Multi-maps: [m[k] = append(m[k], v)] *)
Definition append_at `{Countable K} {V} (k : K) (v : V) (m : gmap K (list V)) : gmap K (list V) :=
  <[k := default [] (m !! k) ++ [v]]> m.
Definition get_all `{Countable K} {V} (m : gmap K (list V)) (k : K) : list V := default [] (m !! k).

Lemma elem_of_append_at `{Countable K} {V} (k k' : K) (v x : V) m :
  x ∈ get_all (append_at k v m) k' ↔ x ∈ get_all m k' ∨ (k' = k ∧ x = v).
Proof.
  rw /get_all /append_at. destruct (decide (k' = k)) as [->|Hne].
  - rw lookup_insert_eq /= elem_of_app list_elem_of_singleton. naive_solver.
  - rw lookup_insert_ne //. naive_solver.
Qed.

(** Membership after a loop that only ever appends. *)
Lemma elem_of_foldl {A B X} (get : A → X → Prop) (step : A → B → A) (adds : B → X → Prop) :
  (∀ a b x, get (step a b) x ↔ get a x ∨ adds b x) →
  ∀ l a x, get (foldl step a l) x ↔ get a x ∨ ∃ b, b ∈ l ∧ adds b x.
Proof.
  intros Hs l. induction l as [|b l IH]; intros a x; simpl.
  - split; [by left|intros [?|(b & []%elem_of_nil & _)]; done].
  - rw IH Hs. split.
    + intros [[?|?]|(b' & ? & ?)]; [by left|right; exists b; split; [by left|done]|].
      right. exists b'. split; [by right|done].
    + intros [?|(b' & [->|?]%elem_of_cons & ?)]; [by left; left|by left; right|].
      right. by exists b'.
Qed.

(** Seeding with distinct keys does not depend on the order. *)
Lemma insertAll_perm `{Countable K} {V} (l1 l2 : list (K * V)) m :
  NoDup l1.*1 → l1 ≡ₚ l2 → insertAll l1 m = insertAll l2 m.
Proof.
  intros Hnd Hp. apply map_eq. intros k.
  assert (NoDup l2.*1) as Hnd2 by (by rw -Hp).
  destruct (decide (k ∈ l1.*1)) as [([? v] & -> & Hin)%list_elem_of_fmap|Hk].
  - rw (insertAll_lookup l1 _ _ v) // (insertAll_lookup l2 _ _ v) //. by rw -Hp.
  - rw !insertAll_notin //. by rw -Hp.
Qed.
Lemma insertAll_Some `{Countable K} {V} (l : list (K * V)) m k v :
  insertAll l m !! k = Some v → (k, v) ∈ l ∨ m !! k = Some v.
Proof.
  induction l as [|[k1 v1] l IH] in m |- *; csimpl; first by right.
  intros [Hin|Hm]%IH; first by left; right.
  apply lookup_insert_Some in Hm as [[<- <-]|[_ ?]]; [by left; left|by right].
Qed.

Lemma insertAll_in `{Countable K} {V} (l : list (K * V)) m k :
  k ∈ l.*1 → ∃ v, (k, v) ∈ l ∧ insertAll l m !! k = Some v.
Proof.
  induction l as [|[k1 v1] l IH] in m |- *; csimpl; first by intros []%elem_of_nil.
  intros Hk. destruct (decide (k ∈ l.*1)) as [Hl|Hl].
  - destruct (IH (<[k1 := v1]> m) Hl) as (v & ? & ?). exists v. split; [by right|done].
  - apply elem_of_cons in Hk as [->|?]; last done. exists v1.
    split; first by left. by rw insertAll_notin // lookup_insert_eq.
Qed.

Lemma NoDup_fmap_eq {A B} (f : A → B) (l : list A) x y :
  NoDup (f <$> l) → x ∈ l → y ∈ l → f x = f y → x = y.
Proof.
  induction l as [|a l IH]; csimpl; first by intros _ []%elem_of_nil.
  intros [Hn Hnd]%NoDup_cons [->|Hx]%elem_of_cons [->|Hy]%elem_of_cons E; [done| | |by apply IH].
  - destruct Hn. apply list_elem_of_fmap. by exists y.
  - destruct Hn. apply list_elem_of_fmap. by exists x.
Qed.

(** Loops that insert what a function answers for each element. *)
Section insert_loop.
Context `{Countable K} {V X : Type}.
Variable f : X → option (K * V).

Lemma foldl_insertAll (step : gmap K V → X → gmap K V) :
  (∀ m x, step m x = match f x with Some kv => <[kv.1 := kv.2]> m | None => m end) →
  ∀ l m, foldl step m l = insertAll (omap f l) m.
Proof.
  intros Hs l. induction l as [|x l IH]; intros m; csimpl; first done.
  rw IH Hs. by destruct (f x).
Qed.
Lemma NoDup_omap_keys (key : X → K) l :
  (∀ x kv, f x = Some kv → kv.1 = key x) → NoDup (key <$> l) → NoDup (omap f l).*1.
Proof.
  intros Hf. induction l as [|x l IH]; csimpl; first (intros; apply NoDup_nil_2).
  intros [Hx Hnd]%NoDup_cons. destruct (f x) as [kv|] eqn:E; csimpl; last by apply IH.
  apply NoDup_cons. split; last by apply IH.
  rw (Hf x kv E). intros ([k v] & Hk & Hin)%list_elem_of_fmap. simpl in Hk. subst k.
  apply list_elem_of_omap in Hin as (y & Hy & Hfy). apply Hx. apply list_elem_of_fmap.
  exists y. split; last done. by rw -(Hf y _ Hfy).
Qed.
Lemma insert_loop_Some l m k v :
  insertAll (omap f l) m !! k = Some v → (∃ x, x ∈ l ∧ f x = Some (k, v)) ∨ m !! k = Some v.
Proof.
  intros [(x & ? & ?)%list_elem_of_omap|?]%insertAll_Some; [left; by exists x|by right].
Qed.
(** A key some element inserts, all of whose insertions agree. *)
Lemma insert_loop_agree l m k v :
  (∃ x, x ∈ l ∧ f x = Some (k, v)) → (∀ x w, x ∈ l → f x = Some (k, w) → w = v) →
  insertAll (omap f l) m !! k = Some v.
Proof.
  intros (x & Hx & Hf) Hall. destruct (insertAll_in (omap f l) m k) as (w & Hin & ->).
  { apply list_elem_of_fmap. exists (k, v). split; first done. apply list_elem_of_omap. by exists x. }
  apply list_elem_of_omap in Hin as (y & Hy & Hfy). by rw (Hall y w Hy Hfy).
Qed.
(** A loop none of whose insertions conflict holds exactly what it inserted. *)
Lemma insert_loop_iff l k v :
  (∀ x y kv kw, x ∈ l → y ∈ l → f x = Some kv → f y = Some kw → kv.1 = kw.1 → kv = kw) →
  insertAll (omap f l) ∅ !! k = Some v ↔ ∃ x, x ∈ l ∧ f x = Some (k, v).
Proof.
  intros Hu. split.
  - intros [?|Hl]%insert_loop_Some; [done|by rw lookup_empty in Hl].
  - intros (x & Hx & E). apply insert_loop_agree; first by exists x.
    intros y w Hy Ey. specialize (Hu y x _ _ Hy Hx Ey E eq_refl). congruence.
Qed.
(** A loop over rows with distinct keys answers each row's own value. *)
Lemma insert_loop_row (key : X → K) l x :
  (∀ x kv, f x = Some kv → kv.1 = key x) → NoDup (key <$> l) → x ∈ l →
  insertAll (omap f l) ∅ !! key x = snd <$> f x.
Proof.
  intros Hf Hnd Hx. destruct (f x) as [[k v]|] eqn:E; simpl.
  - specialize (Hf _ _ E) as Hk. simpl in Hk. subst k. apply insertAll_lookup.
    + by apply (NoDup_omap_keys key).
    + apply list_elem_of_omap. by exists x.
  - apply eq_None_not_Some. intros [v [(y & Hy & Ey)|Hl]%insert_loop_Some].
    + specialize (Hf _ _ Ey) as Hk. simpl in Hk.
      assert (x = y) by (by eapply NoDup_fmap_eq). congruence.
    + by rw lookup_empty in Hl.
Qed.
Lemma insert_loop_lookup (key : X → K) l m x k v :
  (∀ x kv, f x = Some kv → kv.1 = key x) → NoDup (key <$> l) →
  x ∈ l → f x = Some (k, v) → insertAll (omap f l) m !! k = Some v.
Proof.
  intros Hf Hnd Hx E. apply insertAll_lookup; first by eapply NoDup_omap_keys.
  apply list_elem_of_omap. by exists x.
Qed.
End insert_loop.

Lemma size_list_to_set_le `{Countable K} (l : list K) :
  (size (list_to_set l : gset K) ≤ length l)%nat.
Proof.
  induction l as [|k l IH]; first by rw list_to_set_nil size_empty.
  rw list_to_set_cons size_union_alt size_singleton /=.
  assert (size (list_to_set l ∖ {[k]} : gset K) ≤ size (list_to_set l : gset K))%nat
    by (apply subseteq_size; set_solver).
  lia.
Qed.

(** An invariant of a loop over a list. *)
Lemma foldl_inv {A B} (P : A → Prop) (step : A → B → A) (l : list B) a :
  P a → (∀ a b, b ∈ l → P a → P (step a b)) → P (foldl step a l).
Proof.
  induction l as [|b l IH] in a |- *; simpl; first done. intros Ha Hs. apply IH.
  - apply Hs; [left|done].
  - intros a' b' ?. apply Hs. by right.
Qed.

Lemma list_bind_fmap {A B C} (f : B → C) (g : A → list B) (l : list A) :
  f <$> (l ≫= g) = l ≫= λ x, f <$> g x.
Proof. induction l as [|x l IH]; simpl; [done|by rw fmap_app IH]. Qed.
Lemma list_bind_bind {A B C} (g : A → list B) (h : B → list C) (l : list A) :
  (l ≫= g) ≫= h = l ≫= λ x, g x ≫= h.
Proof. induction l as [|x l IH]; simpl; [done|by rw bind_app IH]. Qed.
Lemma bind_nil {A B} (l : list A) : l ≫= (λ _, [] : list B) = [].
Proof. by induction l. Qed.

(** ** The loops that keep the first of the highest-scored elements *)

Section best.
Context {A : Type} (score : A → option Z).

Definition bestStep (best : option A * Z) (a : A) : option A * Z :=
  match score a with
  | None => best
  | Some s => if decide (best.2 < s) then (Some a, s) else best
  end.
Definition best (l : list A) : option A := (foldl bestStep (None, -1) l).1.

(** [a] scores highest in [l], and every equal comes after it. *)
Definition first_best (l : list A) (a : A) : Prop :=
  ∃ pre suf s, l = pre ++ a :: suf ∧ score a = Some s ∧
    (∀ b t, b ∈ pre → score b = Some t → t < s) ∧ (∀ b t, b ∈ suf → score b = Some t → t ≤ s).

Lemma best_spec l :
  (∀ a s, a ∈ l → score a = Some s → 0 ≤ s) →
  match best l with
  | None => ∀ a, a ∈ l → score a = None
  | Some a => first_best l a
  end.
Proof.
  intros Hpos. rw /best.
  assert (match foldl bestStep (None, -1) l with
    | (None, bits) => bits = -1 ∧ ∀ a, a ∈ l → score a = None
    | (Some a, bits) => score a = Some bits ∧ first_best l a
    end) as Hf.
  { induction l as [|x l IH] using rev_ind; first by split; [|intros a []%elem_of_nil].
    rw foldl_app /=. setoid_rewrite elem_of_app in Hpos. setoid_rewrite elem_of_cons in Hpos.
    specialize (IH (λ a s Ha, Hpos a s (or_introl Ha))).
    destruct (foldl bestStep (None, -1) l) as [[a|] bits]; rw /bestStep /=.
    - destruct IH as [Ea (pre & suf & s & -> & Es & Hpre & Hsuf)]. rw Ea in Es. injection Es as <-.
      destruct (score x) as [t|] eqn:Ex; first case_decide.
      + split; first done. exists (pre ++ a :: suf), [], t. split_and!; [done|done| |by intros ? ? []%elem_of_nil].
        intros b u [Hb|[->|Hb]%elem_of_cons]%elem_of_app Eb; [|rw Ea in Eb; injection Eb; lia|].
        * specialize (Hpre b u Hb Eb). lia.
        * specialize (Hsuf b u Hb Eb). lia.
      + split; first done. exists pre, (suf ++ [x]), bits. rw -app_assoc. split_and!; try done.
        intros b u [Hb| ->%list_elem_of_singleton]%elem_of_app Eb; [by eapply Hsuf|].
        rw Ex in Eb. injection Eb as <-. lia.
      + split; first done. exists pre, (suf ++ [x]), bits. rw -app_assoc. split_and!; try done.
        intros b u [Hb| ->%list_elem_of_singleton]%elem_of_app Eb; [by eapply Hsuf|congruence].
    - destruct IH as [-> IH]. destruct (score x) as [t|] eqn:Ex; first rw decide_True.
      + pose proof (Hpos x t) as Hp. assert (0 ≤ t) by (apply Hp; [right; left; done|done]). lia.
      + split; first done. exists l, [], t. split_and!; [done|done| |by intros ? ? []%elem_of_nil].
        intros b u Hb Eb. rw (IH b Hb) in Eb. done.
      + split; first done. intros b [Hb| ->%list_elem_of_singleton]%elem_of_app; [by apply IH|done]. }
  destruct (foldl bestStep (None, -1) l) as [[a|] bits]; simpl; by destruct Hf.
Qed.
Lemma first_best_in l a : first_best l a →
  a ∈ l ∧ ∃ s, score a = Some s ∧ ∀ b t, b ∈ l → score b = Some t → t ≤ s.
Proof.
  intros (pre & suf & s & -> & Es & Hpre & Hsuf). split; first by apply elem_of_app; right; left.
  exists s. split; first done. intros b t [Hb|[->|Hb]%elem_of_cons]%elem_of_app Eb.
  - specialize (Hpre _ _ Hb Eb). lia.
  - rw Es in Eb. injection Eb. lia.
  - by eapply Hsuf.
Qed.
End best.

Lemma NoDup_omap_inj {A B} (f : A → option B) (l : list A) :
  NoDup l → (∀ x y b, x ∈ l → y ∈ l → f x = Some b → f y = Some b → x = y) → NoDup (omap f l).
Proof.
  induction l as [|x l IH]; csimpl; first (intros; apply NoDup_nil_2).
  intros [Hx Hnd]%NoDup_cons Hf.
  assert (NoDup (omap f l)) as Hl by (apply IH; [done|intros y z b ? ?; apply Hf; by right]).
  destruct (f x) as [b|] eqn:E; last done. apply NoDup_cons. split; last done.
  intros (y & Hy & Ey)%list_elem_of_omap. destruct Hx.
  rw (Hf x y b) //; [left|by right].
Qed.
