(* ===== verification/GoStrings.v ===== *)
(** * Go strings

    The operations of packages strings, strconv and sort the program uses, on
    byte strings. *)
From S2P Require Import Prelude.
From Stdlib Require Import Ascii.
From Stdlib Require String.

(** ** Order: the byte-wise lexicographic [<] of Go *)

Definition string_leb (a b : string) : bool := String.leb a b.
Definition string_le (a b : string) : Prop := string_leb a b = true.
#[export] Instance string_le_dec : RelDecision string_le.
Proof. intros a b. rw /string_le; apply _. Defined.

Lemma string_leb_compare a b : string_leb a b = true ↔ String.compare a b ≠ Gt.
Proof. rw /string_leb /String.leb. by destruct (String.compare a b). Qed.
Lemma ascii_compare_N a b : Ascii.compare a b = (N_of_ascii a ?= N_of_ascii b)%N.
Proof. done. Qed.
Lemma ascii_compare_eq a b : Ascii.compare a b = Eq ↔ a = b.
Proof.
  rw ascii_compare_N N.compare_eq_iff. split; last by intros ->.
  intros E. by rw -(ascii_N_embedding a) -(ascii_N_embedding b) E.
Qed.
Lemma string_compare_eq a b : String.compare a b = Eq ↔ a = b.
Proof.
  split; first apply String.compare_eq_iff. intros ->.
  induction b as [|x b IH]; simpl; first done. by rw (proj2 (ascii_compare_eq x x)).
Qed.

#[export] Instance string_le_refl : Reflexive string_le.
Proof. intros a. apply string_leb_compare. by rw (proj2 (string_compare_eq a a) eq_refl). Qed.
#[export] Instance string_le_total : Total string_le.
Proof.
  intros a b. rw /string_le !string_leb_compare String.compare_antisym.
  destruct (String.compare b a); simpl; by [left|right].
Qed.
#[export] Instance string_le_anti : AntiSymm (=) string_le.
Proof.
  intros a b. rw /string_le !string_leb_compare (String.compare_antisym a b).
  destruct (String.compare b a) eqn:E; simpl; try done.
  intros _ _. by apply string_compare_eq in E.
Qed.
#[export] Instance string_le_trans : Transitive string_le.
Proof.
  intros a. induction a as [|x a IH]; intros b c; rw /string_le !string_leb_compare.
  { destruct b, c; simpl; done. }
  destruct b as [|y b], c as [|z c]; simpl; try done.
  rw !ascii_compare_N.
  destruct (N.compare_spec (N_of_ascii x) (N_of_ascii y)) as [E1|E1|E1],
    (N.compare_spec (N_of_ascii y) (N_of_ascii z)) as [E2|E2|E2],
    (N.compare_spec (N_of_ascii x) (N_of_ascii z)) as [E3|E3|E3]; try done; try lia.
  intros H1 H2. apply string_leb_compare, (IH b c); by apply string_leb_compare.
Qed.

(** [sort.Strings]. *)
Definition sort_strings (l : list string) : list string := merge_sort string_le l.
Lemma sort_strings_perm l : sort_strings l ≡ₚ l.
Proof. apply merge_sort_Permutation. Qed.
Lemma sort_strings_sorted l : StronglySorted string_le (sort_strings l).
Proof. apply (StronglySorted_merge_sort string_le). Qed.
(** A sorted arrangement of the same strings is unique. *)
Lemma sort_strings_unique l1 l2 : l1 ≡ₚ l2 → sort_strings l1 = sort_strings l2.
Proof.
  intros Hp. apply (StronglySorted_unique string_le); try apply sort_strings_sorted.
  by rw !sort_strings_perm.
Qed.

(** ** Prefixes, case and separators *)

Definition HasPrefix (s p : string) : bool := String.prefix p s.

Definition lowerASCII (a : ascii) : ascii :=
  let n := N_of_ascii a in
  if decide (65 ≤ n ∧ n ≤ 90)%N then ascii_of_N (n + 32) else a.
Fixpoint lower (s : string) : string :=
  match s with EmptyString => EmptyString | String a s => String (lowerASCII a) (lower s) end.
(** [strings.EqualFold] against a literal without k or s, the two ASCII letters
    some other code point folds to. *)
Definition EqualFold (a b : string) : bool := bool_decide (lower a = lower b).

(** The fields of [s] between occurrences of [c]; one more than there are
    occurrences. *)
Fixpoint split_on (c : ascii) (s : string) : list string :=
  match s with
  | EmptyString => [EmptyString]
  | String a s =>
      if decide (a = c) then EmptyString :: split_on c s
      else match split_on c s with
           | [] => [String a EmptyString]
           | f :: fs => String a f :: fs
           end
  end.
Fixpoint join_with (sep : string) (l : list string) : string :=
  match l with
  | [] => EmptyString
  | [s] => s
  | s :: l => s +:+ sep +:+ join_with sep l
  end.

Fixpoint has_char (c : ascii) (s : string) : bool :=
  match s with EmptyString => false | String a s => bool_decide (a = c) || has_char c s end.

Lemma split_on_nochar c s : has_char c s = false → split_on c s = [s].
Proof.
  induction s as [|a s IH]; simpl; first done.
  rw orb_false_iff => -[/bool_decide_eq_false Ha Hs]. by rw decide_False // IH.
Qed.
Lemma split_on_app c s1 s2 :
  has_char c s1 = false → split_on c (s1 +:+ String c s2) = s1 :: split_on c s2.
Proof.
  induction s1 as [|a s1 IH]; simpl; first by rw decide_True.
  rw orb_false_iff => -[/bool_decide_eq_false Ha Hs]. by rw decide_False // IH.
Qed.

(** ** Decimal numbers *)

Definition digit_value (a : ascii) : option Z :=
  let n := N_of_ascii a in
  if decide (48 ≤ n ∧ n ≤ 57)%N then Some (Z.of_N (n - 48)) else None.
Fixpoint digits_value (acc : Z) (s : string) : option Z :=
  match s with
  | EmptyString => Some acc
  | String a s => match digit_value a with Some d => digits_value (10 * acc + d) s | None => None end
  end.
(** Decimal digits without a sign or a superfluous leading zero. *)
Definition parse_plain (s : string) : option Z :=
  match s with
  | EmptyString => None
  | String a EmptyString => digit_value a
  | String a s' =>
      match digit_value a with
      | Some d => if decide (d = 0) then None else digits_value d s'
      | None => None
      end
  end.
Definition print_dec (z : Z) : string := pretty (Z.to_N z).
