(* ===== verification/GoHeap.v ===== *)
(** * container/heap of the Go standard library

    The two entry points the program uses, [heap.Push] and [heap.Fix], over a
    slice as a list, with the sift loops [up] and [down] as the library writes
    them.  The loops halve or double an index, so the slice's length is enough
    fuel. *)
From S2P Require Import Prelude.
From Stdlib Require Import ZifyNat.

Ltac Zify.zify_post_hook ::= Z.div_mod_to_equations.

Definition parent (j : nat) : nat := ((j - 1) / 2)%nat.

Section heap.
Context {A : Type} (Less : A → A → bool).

Definition Swap (i j : nat) (h : list A) : list A :=
  match h !! i, h !! j with
  | Some a, Some b => <[j := a]> (<[i := b]> h)
  | _, _ => h
  end.
Definition lessAt (h : list A) (i j : nat) : bool :=
  match h !! i, h !! j with Some a, Some b => Less a b | _, _ => false end.

Fixpoint up (fuel j : nat) (h : list A) : list A :=
  match fuel with
  | O => h
  | S fuel =>
      let i := parent j in
      if decide (i = j) then h
      else if lessAt h j i then up fuel i (Swap i j h) else h
  end.
(** The child that [down] compares with its parent [i]. *)
Definition smallerChild (h : list A) (i : nat) : nat :=
  let j1 := (2 * i + 1)%nat in
  let j2 := (j1 + 1)%nat in
  if decide (j2 < length h)%nat then (if lessAt h j2 j1 then j2 else j1) else j1.
Fixpoint down (fuel i0 i : nat) (h : list A) : list A * bool :=
  match fuel with
  | O => (h, bool_decide (i0 < i)%nat)
  | S fuel =>
      if decide (length h ≤ 2 * i + 1)%nat then (h, bool_decide (i0 < i)%nat)
      else let j := smallerChild h i in
           if lessAt h j i then down fuel i0 j (Swap i j h)
           else (h, bool_decide (i0 < i)%nat)
  end.

Definition Push (x : A) (h : list A) : list A :=
  let h := h ++ [x] in up (length h) (length h - 1) h.
Definition Fix (i : nat) (h : list A) : list A :=
  let '(h', moved) := down (length h) i i h in
  if moved then h' else up (length h) i h'.

(** ** The heap order *)

Variable rank : A → Z.
Hypothesis Less_rank : ∀ a b, Less a b = bool_decide (rank a < rank b).

Definition rk (h : list A) (i : nat) : Z := default 0 (rank <$> h !! i).
Definition heap (h : list A) : Prop :=
  ∀ k, (0 < k < length h)%nat → rk h (parent k) ≤ rk h k.

Lemma lessAt_rk h i j : (i < length h)%nat → (j < length h)%nat →
  lessAt h i j = bool_decide (rk h i < rk h j).
Proof.
  intros [a Ha]%lookup_lt_is_Some_2 [b Hb]%lookup_lt_is_Some_2.
  by rw /lessAt /rk Ha Hb /= Less_rank.
Qed.
Lemma Swap_perm i j h : Swap i j h ≡ₚ h.
Proof.
  rw /Swap. destruct (h !! i) as [a|] eqn:Hi, (h !! j) as [b|] eqn:Hj; try done.
  destruct (decide (i = j)) as [->|Hne].
  { rewrite list_insert_insert_eq. by rewrite list_insert_id. }
  apply Permutation_inj. split; first by rw !length_insert.
  exists (λ k, if decide (k = i) then j else if decide (k = j) then i else k). split.
  { intros x y. repeat case_decide; congruence. }
  intros k. destruct (decide (k = i)) as [->|].
  - rewrite list_lookup_insert_ne // list_lookup_insert_eq //. by eapply lookup_lt_Some.
  - destruct (decide (k = j)) as [->|].
    + rewrite list_lookup_insert_eq //. rewrite length_insert. by eapply lookup_lt_Some.
    + by rewrite !list_lookup_insert_ne.
Qed.
Lemma Swap_length i j h : length (Swap i j h) = length h.
Proof. by rewrite (Permutation_length (Swap_perm i j h)). Qed.
Lemma Swap_rk i j h k : (i < length h)%nat → (j < length h)%nat →
  rk (Swap i j h) k = if decide (k = j) then rk h i else if decide (k = i) then rk h j else rk h k.
Proof.
  intros Hi Hj. destruct (lookup_lt_is_Some_2 h i Hi) as [a Ha], (lookup_lt_is_Some_2 h j Hj) as [b Hb].
  rw /rk /Swap Ha Hb. destruct (decide (k = j)) as [->|].
  { rewrite list_lookup_insert_eq //. by rewrite length_insert. }
  rewrite list_lookup_insert_ne //. destruct (decide (k = i)) as [->|].
  - by rewrite list_lookup_insert_eq.
  - by rewrite list_lookup_insert_ne.
Qed.

(** The order everywhere but between [j] and its parent, or but between [i] and
    its children; the neighbours across the gap are ordered. *)
Definition heap_above (j : nat) (h : list A) : Prop :=
  ∀ k, (0 < k < length h)%nat → (k ≠ j → rk h (parent k) ≤ rk h k) ∧
    (parent k = j → rk h (parent j) ≤ rk h k).
Definition heap_below (i : nat) (h : list A) : Prop :=
  ∀ k, (0 < k < length h)%nat → (parent k ≠ i → rk h (parent k) ≤ rk h k) ∧
    (parent k = i → (0 < i)%nat → rk h (parent i) ≤ rk h k).

Lemma up_perm fuel j h : up fuel j h ≡ₚ h.
Proof.
  induction fuel as [|fuel IH] in j, h |- *; simpl; first done.
  case_decide; first done. destruct (lessAt _ _ _); last done.
  by rewrite IH Swap_perm.
Qed.
Lemma up_heap fuel j h : (j < fuel)%nat → (j < length h)%nat →
  heap_above j h → heap (up fuel j h).
Proof.
  induction fuel as [|fuel IH] in j, h |- *; simpl; first lia. intros Hf Hj Hh.
  assert (parent j ≤ j)%nat as Hp by (rw /parent; lia).
  destruct (decide (parent j = j)) as [E|E].
  { intros k Hk. apply Hh; [done|]. rw /parent in E. lia. }
  assert (parent j < j)%nat as Hpj by (rw /parent in E |- *; lia).
  rewrite lessAt_rk; [lia..|]. destruct (bool_decide_reflect (rk h j < rk h (parent j))) as [Hl|Hl].
  - apply IH; [lia|rewrite Swap_length; lia|].
    intros k. rewrite Swap_length => Hk. rewrite !Swap_rk; [lia..|].
    pose proof (Hh k Hk) as [H1 H2].
    assert (rk h (parent (parent j)) ≤ rk h (parent j)) as Hpp.
    { destruct (decide (parent j = 0%nat)) as [->|]; first done. apply Hh; lia. }
    assert (parent k = parent j → k ≠ j → rk h (parent j) ≤ rk h k) as H3.
    { intros <- ?. by apply H1. }
    assert (parent k = parent j → k ≠ parent j) as H4.
    { rw /parent in Hpj |- *. lia. }
    split; intros Hc; repeat case_decide; simplify_eq; try lia;
      repeat match goal with E : parent k = _ |- _ => rewrite ?E in H1, H2, H3, H4 end; lia.
  - intros k Hk. destruct (decide (k = j)) as [->|]; first lia. by apply Hh.
Qed.

Lemma down_perm fuel i0 i h : (down fuel i0 i h).1 ≡ₚ h.
Proof.
  induction fuel as [|fuel IH] in i, h |- *; simpl; first done.
  case_decide; first done. destruct (lessAt _ _ _); last done.
  by rewrite IH Swap_perm.
Qed.
Lemma smallerChild_spec h i : (2 * i + 1 < length h)%nat →
  let j := smallerChild h i in
  (j < length h)%nat ∧ parent j = i ∧ (i < j)%nat ∧
  ∀ k, (0 < k < length h)%nat → parent k = i → rk h j ≤ rk h k.
Proof.
  intros Hl. rw /smallerChild /parent. case_decide.
  - rewrite lessAt_rk; [lia..|]. case_bool_decide; (split_and!; [lia..|]);
      intros k Hk E; assert (k = 2 * i + 1 ∨ k = 2 * i + 1 + 1)%nat as [->| ->] by lia; lia.
  - split_and!; [lia..|]. intros k Hk E. assert (k = 2 * i + 1)%nat as -> by lia. lia.
Qed.
Lemma down_heap fuel i0 i h : (length h ≤ fuel + i)%nat →
  heap_below i h → heap (down fuel i0 i h).1.
Proof.
  induction fuel as [|fuel IH] in i, h |- *; intros Hf Hh.
  { intros k Hk. apply Hh; [done|]. simpl in Hk. rw /parent. lia. }
  cbn [down]. destruct (decide (length h ≤ 2 * i + 1)%nat) as [E|E].
  { intros k Hk. apply Hh; [done|]. simpl in Hk. rw /parent. lia. }
  destruct (smallerChild_spec h i) as (Hj & Hp & Hij & Hmin); first lia.
  generalize dependent (smallerChild h i). intros j Hj Hp Hij Hmin.
  rewrite lessAt_rk; [lia..|]. destruct (bool_decide_reflect (rk h j < rk h i)) as [Hl|Hl].
  - apply IH; first (rewrite Swap_length; lia).
    intros k. rewrite Swap_length => Hk. rewrite !Swap_rk; [lia..|].
    pose proof (Hh k Hk) as [H1 _]. pose proof (Hmin k Hk) as H3.
    pose proof (Hh j ltac:(lia)) as [_ H4]. specialize (H4 Hp).
    assert (parent k < k)%nat as Hpk by (rw /parent; lia).
    split; intros Hc; repeat case_decide; simplify_eq; try lia.
    all: try (replace (parent k) with i in * by congruence); try lia.
  - intros k Hk. destruct (decide (parent k = i)) as [E'|E']; last by apply Hh.
    pose proof (Hmin k Hk E'). rewrite E'. simpl. lia.
Qed.

(** ** The entry points *)

Lemma heap_root h k : heap h → (k < length h)%nat → rk h 0 ≤ rk h k.
Proof.
  intros Hh. induction k as [[|k] IH] using lt_wf_ind; first done. intros Hk.
  assert (parent (S k) < S k)%nat as Hp by (rw /parent; lia).
  pose proof (IH _ Hp ltac:(lia)). pose proof (Hh (S k) ltac:(lia)). lia.
Qed.
Lemma Push_perm x h : Push x h ≡ₚ x :: h.
Proof. by rewrite /Push up_perm Permutation_app_comm. Qed.
Lemma Push_heap x h : heap h → heap (Push x h).
Proof.
  intros Hh. apply up_heap; rewrite length_app /=; [lia..|].
  intros k. rewrite length_app /= => Hk.
  assert (parent k < k)%nat as Hp by (rw /parent; lia).
  split; intros; last lia.
  rewrite /rk !lookup_app_l; [lia..|]. apply Hh. lia.
Qed.
Lemma Fix_root_perm x h : Fix 0 (x :: h) ≡ₚ x :: h.
Proof.
  rewrite /Fix. pose proof (down_perm (length (x :: h)) 0 0 (x :: h)) as Hp.
  destruct (down _ _ _ _) as [h' []]; simpl in Hp; [done|]. by rewrite up_perm.
Qed.
Lemma Fix_root_heap x y h : heap (y :: h) → heap (Fix 0 (x :: h)).
Proof.
  intros Hh. rewrite /Fix.
  assert (heap (down (length (x :: h)) 0 0 (x :: h)).1) as Hd.
  { apply down_heap; first lia. intros k Hk. split; [|lia]. intros Hpk.
    pose proof (Hh k Hk) as H1. destruct k as [|k]; first lia.
    rewrite /rk in H1 |- *. by destruct (parent (S k)). }
  destruct (down _ _ _ _) as [h' []]; simpl in Hd; first done.
  by simpl.
Qed.
End heap.
