(* ===== verification/NetIP.v ===== *)
(** * IPv4 addresses and prefixes (the part of net/netip the program uses)

    [netip] is the standard library's; what the program relies on is the IPv4
    half: parsing and printing of dotted quads and of CIDR prefixes, masking,
    containment and ordering.  Every call site of the program treats an
    unparsable string and an IPv6 one alike, so [ParseAddr4] and
    [ParsePrefix4] answer [None] for both. *)
From S2P Require Import Prelude GoStrings.
From Stdlib Require Import Ascii.
From Stdlib Require String.

(** [netip.Addr]: the program only ever distinguishes the IPv4 form. *)
Inductive Addr := Addr4 (ip : Z) | Addr6 (ip : Z).
Record Prefix := mkPrefix { prefixAddr : Addr; prefixBits : Z }.

#[export] Instance Addr_eq_dec : EqDecision Addr.
Proof. solve_decision. Defined.
#[export] Instance Prefix_eq_dec : EqDecision Prefix.
Proof. solve_decision. Defined.

Definition Is4 (a : Addr) : bool := if a is Addr4 _ then true else false.

(** The four bytes of an address, most significant first ([Addr.As4]). *)
Definition As4 (ip : Z) : list Z :=
  [Z.land (Z.shiftr ip 24) 255; Z.land (Z.shiftr ip 16) 255;
   Z.land (Z.shiftr ip 8) 255; Z.land ip 255].

(** [binary.NativeEndian]: the byte order of the machine. *)
Inductive Endian := LittleEndian | BigEndian.
Definition native_uint32 (e : Endian) (bs : list Z) : Z :=
  let le := foldr (λ b acc, b + 256 * acc) 0 in
  match e with LittleEndian => le bs | BigEndian => le (reverse bs) end.

Definition ip4_range (z : Z) : Prop := 0 ≤ z < 2 ^ 32.

Lemma native_uint32_As4_inj e a b :
  ip4_range a → ip4_range b →
  native_uint32 e (As4 a) = native_uint32 e (As4 b) → a = b.
Proof.
  rw /ip4_range /As4 /native_uint32 => Ha Hb.
  have Hand x : Z.land x 255 = x `mod` 256 by apply (Z.land_ones x 8); lia.
  rw !Hand !Z.shiftr_div_pow2 //.
  have Hs x n : 0 < n → 0 ≤ x `mod` n < n by apply Z.mod_pos_bound.
  destruct e; cbn [reverse rev_append foldr]; rw /reverse /=; intros E;
    change (2 ^ 24) with (256 * (256 * 256)) in *;
    change (2 ^ 16) with (256 * 256) in *; change (2 ^ 8) with 256 in *;
    rw -!Z.div_div // in E;
    assert (∀ x, 0 ≤ x < 2 ^ 32 → 0 ≤ x / 256 / 256 / 256 < 256) as H3
      by (intros x Hx; repeat rw Z.div_div //; split;
          [apply Z.div_pos; lia|apply Z.div_lt_upper_bound; lia]);
    specialize (H3 a Ha) as Ha3; specialize (H3 b Hb) as Hb3; clear H3;
    rw !(Z.mod_small (_ / 256 / 256 / 256)) // in E;
    pose proof (Z_div_mod_eq_full a 256); pose proof (Z_div_mod_eq_full b 256);
    pose proof (Z_div_mod_eq_full (a / 256) 256); pose proof (Z_div_mod_eq_full (b / 256) 256);
    pose proof (Z_div_mod_eq_full (a / 256 / 256) 256); pose proof (Z_div_mod_eq_full (b / 256 / 256) 256);
    pose proof (Hs a 256); pose proof (Hs b 256);
    pose proof (Hs (a / 256) 256); pose proof (Hs (b / 256) 256);
    pose proof (Hs (a / 256 / 256) 256); pose proof (Hs (b / 256 / 256) 256); lia.
Qed.

(** ** Parsing and printing *)

Definition dot : ascii := "."%char.
Definition slash : ascii := "/"%char.

Definition parse_octet (s : string) : option Z :=
  z ← parse_plain s; if decide (z ≤ 255) then Some z else None.

(** [netip.ParseAddr], answering [Some] for a well-formed IPv4 address only. *)
Definition ParseAddr4 (s : string) : option Z :=
  match split_on dot s with
  | [a; b; c; d] =>
      a ← parse_octet a; b ← parse_octet b; c ← parse_octet c; d ← parse_octet d;
      Some (((a * 256 + b) * 256 + c) * 256 + d)
  | _ => None
  end.

(** A prefix as the program holds it after the [Is4] test. *)
Record Prefix4 := mkPrefix4 { p4_ip : Z; p4_bits : Z }.
#[export] Instance Prefix4_eq_dec : EqDecision Prefix4.
Proof. solve_decision. Defined.
#[export] Instance Prefix4_countable : Countable Prefix4.
Proof.
  refine (inj_countable' (λ p, (p4_ip p, p4_bits p)) (λ '(a, b), mkPrefix4 a b) _). by intros [].
Defined.
Definition to_Prefix (p : Prefix4) : Prefix := mkPrefix (Addr4 (p4_ip p)) (p4_bits p).

(** [netip.ParsePrefix], answering [Some] for an IPv4 prefix only.  The slash
    is the last one of the string; an address has none. *)
Definition ParsePrefix4 (s : string) : option Prefix4 :=
  match split_on slash s with
  | [a; b] =>
      ip ← ParseAddr4 a; bits ← parse_plain b;
      if decide (bits ≤ 32) then Some (mkPrefix4 ip bits) else None
  | _ => None
  end.

Definition Addr_String (ip : Z) : string :=
  join_with "." (print_dec <$> As4 ip).
Definition Prefix_String (p : Prefix4) : string :=
  Addr_String (p4_ip p) +:+ String slash (print_dec (p4_bits p)).

(** [Prefix.Masked] and [Prefix.Contains] on IPv4 operands. *)
Definition mask_host (bits ip : Z) : Z := Z.shiftl (Z.shiftr ip (32 - bits)) (32 - bits).
Definition Masked (p : Prefix4) : Prefix4 := mkPrefix4 (mask_host (p4_bits p) (p4_ip p)) (p4_bits p).
Definition Contains (p : Prefix4) (ip : Z) : bool :=
  bool_decide (Z.shiftr (Z.lxor (p4_ip p) ip) (32 - p4_bits p) = 0).

Definition prefix4_ok (p : Prefix4) : Prop := ip4_range (p4_ip p) ∧ 0 ≤ p4_bits p ≤ 32.
Definition masked (p : Prefix4) : Prop := Masked p = p.

Lemma As4_octets ip : ip4_range ip →
  ∃ a b c d, As4 ip = [a; b; c; d] ∧ ip = ((a * 256 + b) * 256 + c) * 256 + d ∧
    0 ≤ a < 256 ∧ 0 ≤ b < 256 ∧ 0 ≤ c < 256 ∧ 0 ≤ d < 256.
Proof.
  rw /ip4_range /As4 => Hip.
  have Hand x : Z.land x 255 = x `mod` 256 by apply (Z.land_ones x 8); lia.
  rw !Hand !Z.shiftr_div_pow2 //. do 4 eexists. split; first done.
  have Hs x n : 0 < n → 0 ≤ x `mod` n < n by apply Z.mod_pos_bound.
  change (2 ^ 24) with (256 * (256 * 256)). change (2 ^ 16) with (256 * 256). change (2 ^ 8) with 256.
  rw -!Z.div_div //.
  assert (0 ≤ ip / 256 / 256 / 256 < 256) as H3
    by (repeat rw Z.div_div //; split; [apply Z.div_pos; lia|apply Z.div_lt_upper_bound; lia]).
  rw !(Z.mod_small (_ / 256 / 256 / 256)) //.
  pose proof (Z_div_mod_eq_full ip 256). pose proof (Z_div_mod_eq_full (ip / 256) 256).
  pose proof (Z_div_mod_eq_full (ip / 256 / 256) 256).
  pose proof (Hs ip 256). pose proof (Hs (ip / 256) 256). pose proof (Hs (ip / 256 / 256) 256).
  split_and!; lia.
Qed.

Definition octets : list Z := Z.of_nat <$> seq 0 256.
Lemma octet_checks :
  Forall (λ z, parse_octet (print_dec z) = Some z ∧ has_char dot (print_dec z) = false ∧
               has_char slash (print_dec z) = false) octets.
Proof. apply (bool_decide_unpack _). by vm_compute. Qed.
Lemma octet_round z : 0 ≤ z < 256 →
  parse_octet (print_dec z) = Some z ∧ has_char dot (print_dec z) = false ∧
  has_char slash (print_dec z) = false.
Proof.
  intros Hz. pose proof octet_checks as Hc. rw Forall_forall in Hc. apply Hc.
  apply list_elem_of_fmap. exists (Z.to_nat z). rw elem_of_seq. lia.
Qed.
Lemma bits_round z : 0 ≤ z ≤ 32 → parse_plain (print_dec z) = Some z.
Proof.
  intros Hz. destruct (octet_round z) as (H & _); first lia.
  rw /parse_octet in H. destruct (parse_plain (print_dec z)) as [w|]; simpl in H; last done.
  by case_decide; simplify_eq.
Qed.

Lemma has_char_app c s1 s2 : has_char c (s1 +:+ s2) = has_char c s1 || has_char c s2.
Proof. induction s1 as [|a s1 IH]; simpl; [done|by rw IH orb_assoc]. Qed.

Lemma ParseAddr4_String ip : ip4_range ip →
  ParseAddr4 (Addr_String ip) = Some ip ∧ has_char slash (Addr_String ip) = false.
Proof.
  intros Hip. destruct (As4_octets ip Hip) as (a & b & c & d & E & Ev & Ha & Hb & Hc & Hd).
  destruct (octet_round a Ha) as (Pa & Da & Sa), (octet_round b Hb) as (Pb & Db & Sb),
    (octet_round c Hc) as (Pc & Dc & Sc), (octet_round d Hd) as (Pd & Dd & Sd).
  rw /ParseAddr4 /Addr_String E. cbn [fmap list_fmap join_with]. split.
  - change ("." +:+ ?s) with (String dot s).
    rw (split_on_app dot (print_dec a)) // (split_on_app dot (print_dec b)) //.
    rw (split_on_app dot (print_dec c)) // (split_on_nochar dot (print_dec d)) //.
    rw Pa Pb Pc Pd /=. by rw Ev.
  - by rw !has_char_app Sa Sb Sc Sd.
Qed.

Lemma ParsePrefix4_String p : prefix4_ok p → ParsePrefix4 (Prefix_String p) = Some p.
Proof.
  destruct p as [ip bits]. intros [Hip Hb]; simpl in *.
  destruct (ParseAddr4_String ip Hip) as [Pa Sa]. destruct (octet_round bits) as (_ & _ & Sb); first lia.
  rw /ParsePrefix4 /Prefix_String. cbn [p4_ip p4_bits].
  rw split_on_app; first exact Sa. rw split_on_nochar; first exact Sb.
  rw Pa bits_round; first lia. cbn [mbind option_bind].
  by rw decide_True; first lia.
Qed.
Lemma Prefix_String_inj p q :
  prefix4_ok p → prefix4_ok q → Prefix_String p = Prefix_String q → p = q.
Proof. intros Hp Hq E. apply ParsePrefix4_String in Hp. apply ParsePrefix4_String in Hq. congruence. Qed.

(** ** What parsing answers is well formed *)

Lemma digit_value_nonneg a z : digit_value a = Some z → 0 ≤ z.
Proof. rw /digit_value. case_decide; [|done]. intros [= <-]. lia. Qed.
Lemma digits_value_nonneg s acc z : 0 ≤ acc → digits_value acc s = Some z → 0 ≤ z.
Proof.
  induction s as [|a s IH] in acc |- *; simpl; first (intros ? [= <-]; done).
  intros Hacc. destruct (digit_value a) as [x|] eqn:E; last done. apply digit_value_nonneg in E.
  apply IH. lia.
Qed.
Lemma parse_plain_nonneg s z : parse_plain s = Some z → 0 ≤ z.
Proof.
  destruct s as [|a [|b s]]; try done; first apply digit_value_nonneg. cbn [parse_plain].
  destruct (digit_value a) as [x|] eqn:E; last done. apply digit_value_nonneg in E.
  case_decide; [done|]. by apply digits_value_nonneg.
Qed.
Lemma parse_octet_range s z : parse_octet s = Some z → 0 ≤ z < 256.
Proof.
  rw /parse_octet. destruct (parse_plain s) as [x|] eqn:E; simpl; last done.
  apply parse_plain_nonneg in E. case_decide; last done. intros [= <-]. lia.
Qed.
Lemma ParseAddr4_range s ip : ParseAddr4 s = Some ip → ip4_range ip.
Proof.
  rw /ParseAddr4 /ip4_range. destruct (split_on dot s) as [|a [|b [|c [|d []]]]]; try done.
  destruct (parse_octet a) as [x|] eqn:Ea; simpl; last done. apply parse_octet_range in Ea.
  destruct (parse_octet b) as [y|] eqn:Eb; simpl; last done. apply parse_octet_range in Eb.
  destruct (parse_octet c) as [z|] eqn:Ec; simpl; last done. apply parse_octet_range in Ec.
  destruct (parse_octet d) as [w|] eqn:Ed; simpl; last done. apply parse_octet_range in Ed.
  intros [= <-]. lia.
Qed.
Lemma ParsePrefix4_ok s p : ParsePrefix4 s = Some p → prefix4_ok p.
Proof.
  rw /ParsePrefix4. destruct (split_on slash s) as [|a [|b []]]; try done.
  destruct (ParseAddr4 a) as [ip|] eqn:Ei; simpl; last done. apply ParseAddr4_range in Ei.
  destruct (parse_plain b) as [bits|] eqn:Eb; simpl; last done. apply parse_plain_nonneg in Eb.
  case_decide; last done. intros [= <-]. split; [done|simpl; lia].
Qed.
Lemma mask_host_div bits ip : 0 ≤ bits ≤ 32 →
  mask_host bits ip = ip / 2 ^ (32 - bits) * 2 ^ (32 - bits).
Proof. intros Hb. rw /mask_host Z.shiftl_mul_pow2; first lia. rw Z.shiftr_div_pow2 //. lia. Qed.
Lemma Masked_ok p : prefix4_ok p → prefix4_ok (Masked p).
Proof.
  destruct p as [ip bits]. rw /prefix4_ok /ip4_range /Masked /=. intros [Hip Hb]. split; last done.
  rw mask_host_div //. assert (0 < 2 ^ (32 - bits)) by (apply Z.pow_pos_nonneg; lia).
  pose proof (Z.mul_div_le ip (2 ^ (32 - bits))). pose proof (Z.div_pos ip (2 ^ (32 - bits))). nia.
Qed.
Lemma Masked_masked p : prefix4_ok p → masked (Masked p).
Proof.
  destruct p as [ip bits]. rw /prefix4_ok /masked /Masked /=. intros [_ Hb]. f_equal.
  rw !mask_host_div // Z.div_mul //. assert (0 < 2 ^ (32 - bits)) by (apply Z.pow_pos_nonneg; lia). lia.
Qed.
Lemma masked_32 ip : masked (mkPrefix4 ip 32).
Proof. rw /masked /Masked /= mask_host_div //. f_equal. by rw Z.div_1_r Z.mul_1_r. Qed.

(** A masked prefix contains exactly the addresses that mask to it. *)
Lemma Contains_masked p ip : prefix4_ok p → masked p → ip4_range ip →
  Contains p ip = true ↔ mask_host (p4_bits p) ip = p4_ip p.
Proof.
  destruct p as [a bits]. rw /prefix4_ok /masked /Masked /Contains /= => -[Ha Hb] [Em] Hip.
  rw bool_decide_eq_true Z.shiftr_lxor Z.lxor_eq_0_iff.
  rw /mask_host in Em *. split.
  - intros <-. exact Em.
  - intros E. rw -E. rw -Z.shiftl_mul_pow2 || idtac.
    rw Z.shiftr_shiftl_l; first lia. by rw Z.sub_diag Z.shiftl_0_r.
Qed.
Lemma catchall_contains ip : ip4_range ip → Contains (mkPrefix4 0 0) ip = true.
Proof.
  rw /ip4_range /Contains. cbn [p4_ip p4_bits]. intros Hip. apply bool_decide_eq_true. rw Z.lxor_0_l.
  change (32 - 0) with 32.
  rw Z.shiftr_div_pow2; first lia. by apply Z.div_small.
Qed.
