(* ===== verification/Bpf.v ===== *)
(** * The kernel/userspace ABI (internal/bpf)

    The key and value types that cross the kernel boundary, the enumerations
    with their label vocabulary, the key encodings of the kernel maps, the
    reader of the kernel's statistics array and the start-up check of the
    compiled map sizes. *)
From S2P Require Import Prelude NetIP.

(** ** Types: abi.go, schema.go and the C declarations they mirror *)

(** [[6]uint8]. *)
Record MacAddr := mkMac { mb0 : Z; mb1 : Z; mb2 : Z; mb3 : Z; mb4 : Z; mb5 : Z }.
Definition zeroMac : MacAddr := mkMac 0 0 0 0 0 0.


Record FlowKey := mkFlowKey {
  SrcMac : MacAddr; DstMac : MacAddr; EthProto : Z;
  Direction_ : Z; DstZone : Z; L4Proto_ : Z; Pad : Z }.

Record FlowMetrics := mkFlowMetrics {
  Bytes : Z; Packets : Z; LastSeenNs : Z; CreatedNs : Z }.
Definition zeroMetrics : FlowMetrics := mkFlowMetrics 0 0 0 0.

#[export] Instance MacAddr_eq_dec : EqDecision MacAddr.
Proof. solve_decision. Defined.
#[export] Instance MacAddr_countable : Countable MacAddr.
Proof.
  refine (inj_countable' (λ m, (mb0 m, mb1 m, mb2 m, mb3 m, mb4 m, mb5 m))
    (λ '(a, b, c, d, e, f), mkMac a b c d e f) _). by intros [].
Defined.
#[export] Instance FlowKey_eq_dec : EqDecision FlowKey.
Proof. solve_decision. Defined.
#[export] Instance FlowKey_countable : Countable FlowKey.
Proof.
  refine (inj_countable'
    (λ k, (SrcMac k, DstMac k, EthProto k, Direction_ k, DstZone k, L4Proto_ k, Pad k))
    (λ '(a, b, c, d, e, f, g), mkFlowKey a b c d e f g) _). by intros [].
Defined.
#[export] Instance FlowMetrics_eq_dec : EqDecision FlowMetrics.
Proof. solve_decision. Defined.

Definition u8_range (z : Z) : Prop := 0 ≤ z < 256.
Definition mac_ok (m : MacAddr) : Prop :=
  u8_range (mb0 m) ∧ u8_range (mb1 m) ∧ u8_range (mb2 m) ∧
  u8_range (mb3 m) ∧ u8_range (mb4 m) ∧ u8_range (mb5 m).
Definition metrics_ok (m : FlowMetrics) : Prop :=
  u64_range (Bytes m) ∧ u64_range (Packets m) ∧
  u64_range (LastSeenNs m) ∧ u64_range (CreatedNs m).

(** ** Enumerations *)

Definition ZoneExternal : Z := 0.
Definition ZoneSameTenant : Z := 1.
Definition ZoneOtherTenant : Z := 2.
Definition ZoneInfra : Z := 3.
Definition ZoneMiss : Z := 4.
Definition ZoneShared : Z := 5.
Definition ZoneMulticast : Z := 6.
Definition L4ProtoUnknown : Z := 0.
Definition L4ProtoTCP : Z := 1.
Definition L4ProtoUDP : Z := 2.
Definition L4ProtoICMP : Z := 3.
Definition L4ProtoOther : Z := 4.
Definition DirectionIngress : Z := 0.
Definition DirectionEgress : Z := 1.

(** The three [String] methods; an unknown code renders as its number. *)
Definition FormatUint (z : Z) : string := pretty (Z.to_N z).

Definition ZoneCode_String (z : Z) : string :=
  if decide (z = ZoneExternal) then "external"
  else if decide (z = ZoneSameTenant) then "same_tenant"
  else if decide (z = ZoneOtherTenant) then "other_tenant"
  else if decide (z = ZoneInfra) then "infra"
  else if decide (z = ZoneMiss) then "miss"
  else if decide (z = ZoneShared) then "shared"
  else if decide (z = ZoneMulticast) then "multicast"
  else FormatUint z.
Definition L4Proto_String (p : Z) : string :=
  if decide (p = L4ProtoUnknown) then "unknown"
  else if decide (p = L4ProtoTCP) then "tcp"
  else if decide (p = L4ProtoUDP) then "udp"
  else if decide (p = L4ProtoICMP) then "icmp"
  else if decide (p = L4ProtoOther) then "other"
  else FormatUint p.
Definition Direction_String (d : Z) : string :=
  if decide (d = DirectionIngress) then "tx"
  else if decide (d = DirectionEgress) then "rx"
  else FormatUint d.

(** The values of a [uint8] code. *)
Definition u8_all : list Z := Z.of_nat <$> seq 0 256.

Lemma elem_of_u8_all z : u8_range z → z ∈ u8_all.
Proof.
  rw /u8_range /u8_all list_elem_of_fmap => Hz.
  exists (Z.to_nat z). rw elem_of_seq. lia.
Qed.

(** A label function without duplicates on [u8_all] is injective on bytes. *)
Lemma u8_label_inj (f : Z → string) :
  NoDup (f <$> u8_all) → ∀ a b, u8_range a → u8_range b → f a = f b → a = b.
Proof.
  intros Hnd a b [i Hi]%elem_of_u8_all%list_elem_of_lookup_1
    [j Hj]%elem_of_u8_all%list_elem_of_lookup_1 E.
  assert (i = j) as ->; last congruence.
  apply (NoDup_lookup (f <$> u8_all) i j (f a)); [done| |];
    by rw list_lookup_fmap ?Hi ?Hj /= ?E.
Qed.

Lemma zone_String_inj a b :
  u8_range a → u8_range b → ZoneCode_String a = ZoneCode_String b → a = b.
Proof. apply u8_label_inj. apply (bool_decide_unpack _). by vm_compute. Qed.
Lemma dir_String_inj a b :
  u8_range a → u8_range b → Direction_String a = Direction_String b → a = b.
Proof. apply u8_label_inj. apply (bool_decide_unpack _). by vm_compute. Qed.
Lemma proto_String_inj a b :
  u8_range a → u8_range b → L4Proto_String a = L4Proto_String b → a = b.
Proof. apply u8_label_inj. apply (bool_decide_unpack _). by vm_compute. Qed.

(** ** Key encodings (abi.go) *)

Definition MACKey (mac : MacAddr) : Z :=
  Z.lor (Z.lor (Z.lor (Z.lor (Z.lor
    (Z.shiftl (mb0 mac) 40) (Z.shiftl (mb1 mac) 32)) (Z.shiftl (mb2 mac) 24))
    (Z.shiftl (mb3 mac) 16)) (Z.shiftl (mb4 mac) 8)) (mb5 mac).

Definition TenantAmphoraFlag : Z := 0x80000000.
Definition TenantIDMask : Z := 0x7fffffff.
Definition LpmKeyTenantBits : Z := 32.

(** The packing of a [mac_tenant_map] value. *)
Definition TenantValue (tenantID : Z) (isAmphora : bool) : Z :=
  if isAmphora then Z.lor tenantID TenantAmphoraFlag else tenantID.

Record LpmKey := mkLpmKey { Prefixlen : Z; LpmTenantId : Z; LpmIp : Z }.
Record AmphoraKey := mkAmphoraKey { AmphoraTenantId : Z; AmphoraIp : Z }.
#[export] Instance LpmKey_eq_dec : EqDecision LpmKey.
Proof. solve_decision. Defined.
#[export] Instance LpmKey_countable : Countable LpmKey.
Proof.
  refine (inj_countable' (λ k, (Prefixlen k, LpmTenantId k, LpmIp k))
    (λ '(a, b, c), mkLpmKey a b c) _). by intros [].
Defined.
#[export] Instance AmphoraKey_eq_dec : EqDecision AmphoraKey.
Proof. solve_decision. Defined.
#[export] Instance AmphoraKey_countable : Countable AmphoraKey.
Proof.
  refine (inj_countable' (λ k, (AmphoraTenantId k, AmphoraIp k))
    (λ '(a, b), mkAmphoraKey a b) _). by intros [].
Defined.

(** [None] is the panic on an IPv6 argument. *)
Definition LpmKeyForPrefix (e : Endian) (tenantID : Z) (prefix : Prefix) : option LpmKey :=
  match prefixAddr prefix with
  | Addr6 _ => None
  | Addr4 ip => Some (mkLpmKey (u32 (LpmKeyTenantBits + u32 (prefixBits prefix)))
                               tenantID (native_uint32 e (As4 ip)))
  end.
Definition AmphoraKeyForIP (e : Endian) (tenantID : Z) (addr : Addr) : option AmphoraKey :=
  match addr with
  | Addr6 _ => None
  | Addr4 ip => Some (mkAmphoraKey tenantID (native_uint32 e (As4 ip)))
  end.

(** A disjoint [|] is an addition. *)
Lemma lor_disjoint_add k a b : 0 ≤ k → 0 ≤ b < 2 ^ k → Z.lor (a * 2 ^ k) b = a * 2 ^ k + b.
Proof.
  move=> Hk Hb.
  have Hl : Z.land (a * 2 ^ k) b = 0.
  { rw -Z.shiftl_mul_pow2 //. apply Z.bits_inj' => n Hn.
    rw Z.land_spec Z.bits_0. destruct (decide (n < k)).
    - by rw Z.shiftl_spec_low.
    - destruct (decide (b = 0)) as [->|]; first by rw Z.bits_0 andb_false_r.
      rw (Z.bits_above_log2 b n) ?andb_false_r //; first lia.
      apply Z.lt_le_trans with k; last lia. apply Z.log2_lt_pow2; lia. }
  pose proof (Z.add_lor_land (a * 2 ^ k) b). lia.
Qed.

Lemma MACKey_sum m : mac_ok m →
  MACKey m = mb0 m * 2 ^ 40 + mb1 m * 2 ^ 32 + mb2 m * 2 ^ 24 +
             mb3 m * 2 ^ 16 + mb4 m * 2 ^ 8 + mb5 m.
Proof.
  destruct m as [a b c d e f]; rw /mac_ok /u8_range /MACKey /= => Hm.
  rw !Z.shiftl_mul_pow2 //.
  rw (lor_disjoint_add 40 a (b * 2 ^ 32)); [lia|lia|].
  rw (_ : a * 2 ^ 40 + b * 2 ^ 32 = (a * 2 ^ 8 + b) * 2 ^ 32); first lia.
  rw (lor_disjoint_add 32 _ (c * 2 ^ 24)); [lia|lia|].
  rw (_ : (a * 2 ^ 8 + b) * 2 ^ 32 + c * 2 ^ 24 = ((a * 2 ^ 8 + b) * 2 ^ 8 + c) * 2 ^ 24);
    first lia.
  rw (lor_disjoint_add 24 _ (d * 2 ^ 16)); [lia|lia|].
  rw (_ : ((a * 2 ^ 8 + b) * 2 ^ 8 + c) * 2 ^ 24 + d * 2 ^ 16 =
          (((a * 2 ^ 8 + b) * 2 ^ 8 + c) * 2 ^ 8 + d) * 2 ^ 16); first lia.
  rw (lor_disjoint_add 16 _ (e * 2 ^ 8)); [lia|lia|].
  rw (_ : (((a * 2 ^ 8 + b) * 2 ^ 8 + c) * 2 ^ 8 + d) * 2 ^ 16 + e * 2 ^ 8 =
          ((((a * 2 ^ 8 + b) * 2 ^ 8 + c) * 2 ^ 8 + d) * 2 ^ 8 + e) * 2 ^ 8); first lia.
  rw (lor_disjoint_add 8 _ f); lia.
Qed.

Lemma MACKey_inj m1 m2 : mac_ok m1 → mac_ok m2 → MACKey m1 = MACKey m2 → m1 = m2.
Proof.
  move=> H1 H2. rw !MACKey_sum //.
  destruct m1, m2; rw /mac_ok /u8_range /= in H1 H2 *. move=> E. f_equal; lia.
Qed.

Lemma MACKey_range m : mac_ok m → 0 ≤ MACKey m < 2 ^ 48.
Proof. move=> Hm. rw MACKey_sum //. destruct m; rw /mac_ok /u8_range /= in Hm *. lia. Qed.

Lemma TenantValue_add t b :
  0 ≤ t < 2 ^ 31 → TenantValue t b = t + (if b then 2 ^ 31 else 0).
Proof.
  move=> Ht. destruct b => /=; last lia.
  rw Z.lor_comm (_ : TenantAmphoraFlag = 1 * 2 ^ 31) // lor_disjoint_add; lia.
Qed.
(** What the kernel recovers from the packed value: the masked id and the flag. *)
Lemma TenantValue_unpack t b :
  0 ≤ t < 2 ^ 31 →
  Z.land (TenantValue t b) TenantIDMask = t ∧
  (Z.land (TenantValue t b) TenantAmphoraFlag ≠ 0 ↔ b = true).
Proof.
  move=> Ht. rw (_ : TenantIDMask = Z.ones 31) // Z.land_ones //.
  rw TenantValue_add //. split.
  - destruct b; [|rw Z.add_0_r]; last by apply Z.mod_small.
    rw (_ : t + 2 ^ 31 = t + 1 * 2 ^ 31); first lia.
    rw Z_mod_plus_full. by apply Z.mod_small.
  - rw -TenantValue_add // /TenantValue. destruct b.
    + split => // _ E.
      have : Z.testbit (Z.land (Z.lor t TenantAmphoraFlag) TenantAmphoraFlag) 31 = true.
      { by rw Z.land_spec Z.lor_spec orb_true_r. }
      by rw E Z.bits_0.
    + split => // E. exfalso. apply E. apply Z.bits_inj' => n Hn.
      rw Z.land_spec Z.bits_0 (_ : TenantAmphoraFlag = 2 ^ 31) //.
      destruct (decide (n = 31)) as [->|].
      * rw -(Z.mod_small t (2 ^ 31)) // Z.mod_pow2_bits_high //.
      * by rw Z.pow2_bits_false ?andb_false_r.
Qed.

Lemma LpmKeyForPrefix_inj e t1 a1 b1 t2 a2 b2 k :
  ip4_range a1 → ip4_range a2 → 0 ≤ b1 ≤ 32 → 0 ≤ b2 ≤ 32 →
  LpmKeyForPrefix e t1 (mkPrefix (Addr4 a1) b1) = Some k →
  LpmKeyForPrefix e t2 (mkPrefix (Addr4 a2) b2) = Some k →
  t1 = t2 ∧ a1 = a2 ∧ b1 = b2.
Proof.
  rw /LpmKeyForPrefix /= => Ha1 Ha2 Hb1 Hb2 [<-] [Ep -> Ei].
  rw /u32 /LpmKeyTenantBits !(Z.mod_small b1) ?(Z.mod_small b2) in Ep; try lia.
  rw (Z.mod_small (32 + b1)) ?(Z.mod_small (32 + b2)) in Ep; try lia.
  split_and! => //; last lia. symmetry. eapply native_uint32_As4_inj => //.
Qed.

(** ** The start-up check of the compiled map sizes *)

Definition MapTelemetry : string := "telemetry_map".
Definition MapSubnetZoneTrie : string := "subnet_zone_trie".
Definition MapMacTenant : string := "mac_tenant_map".
Definition MapTelemetryStats : string := "telemetry_stats".
Definition MapAmphoraBaseIP : string := "amphora_base_ip".
Definition statReasonCount : Z := 2.
Definition MapTelemetryMaxEntries : Z := 65536.
Definition MapSubnetZoneTrieMaxEntries : Z := 16384.
Definition MapMacTenantMaxEntries : Z := 8192.
Definition MapTelemetryStatsMaxEntries : Z := statReasonCount.
Definition MapAmphoraBaseIPMaxEntries : Z := 1024.

Definition mapSizeChecks : list (string * Z) :=
  [(MapTelemetry, MapTelemetryMaxEntries);
   (MapMacTenant, MapMacTenantMaxEntries);
   (MapSubnetZoneTrie, MapSubnetZoneTrieMaxEntries);
   (MapTelemetryStats, MapTelemetryStatsMaxEntries);
   (MapAmphoraBaseIP, MapAmphoraBaseIPMaxEntries)].

Inductive MapSizeProblem :=
  | NotPresent (name : string)
  | WrongSize (name : string) (got want : Z).
Inductive MapSizeError := NilSpec | SizeDrift (problems : list MapSizeProblem).

Definition checkMapSize (spec : gmap string Z) (c : string * Z) : list MapSizeProblem :=
  match spec !! c.1 with
  | None => [NotPresent c.1]
  | Some m => if decide (m = c.2) then [] else [WrongSize c.1 m c.2]
  end.

(** [spec.Maps] as the [MaxEntries] of each map by name; [None] is a nil spec
    and the answer [None] a nil error. *)
Definition ValidateMapSizes (spec : option (gmap string Z)) : option MapSizeError :=
  match spec with
  | None => Some NilSpec
  | Some maps =>
      match mapSizeChecks ≫= checkMapSize maps with
      | [] => None
      | problems => Some (SizeDrift problems)
      end
  end.

Lemma checkMapSize_nil maps c : checkMapSize maps c = [] ↔ maps !! c.1 = Some c.2.
Proof.
  rw /checkMapSize. destruct (maps !! c.1) as [m|]; last done.
  destruct (decide _); naive_solver.
Qed.
Lemma ValidateMapSizes_ok maps :
  ValidateMapSizes (Some maps) = None ↔
  Forall (λ c, maps !! c.1 = Some c.2) mapSizeChecks.
Proof.
  rw /ValidateMapSizes.
  have Hbind l : l ≫= checkMapSize maps = [] ↔ Forall (λ c, maps !! c.1 = Some c.2) l.
  { induction l as [|c l IH]; simpl; first by split.
    rw Forall_cons -IH -checkMapSize_nil. apply app_nil. }
  rw -Hbind. by destruct (_ ≫= _).
Qed.

(** ** The kernel's statistics array (stats.go)

    [lookup] is the PERCPU_ARRAY lookup of a slot: the per-CPU values, or the
    error of the call. *)
Section stats.
Context {Err : Type} (lookup : Z → Err + list Z).

Definition sumCPUs (buf : list Z) : Z := foldl u64_add 0 buf.

Definition readSlot (acc : (Z * Err) + list Z) (reason : Z) : (Z * Err) + list Z :=
  match acc with
  | inl e => inl e
  | inr counts =>
      match lookup reason with
      | inl err => inl (reason, err)
      | inr buf => inr (counts ++ [sumCPUs buf])
      end
  end.
Definition StatsReader_Read : (Z * Err) + list Z :=
  foldl readSlot (inr []) (Z.of_nat <$> seq 0 (Z.to_nat statReasonCount)).

Lemma sumCPUs_spec buf : sumCPUs buf = u64 (foldr Z.add 0 buf).
Proof.
  rw /sumCPUs.
  have Hg a : foldl u64_add (u64 a) buf = u64 (a + foldr Z.add 0 buf).
  { induction buf as [|b buf IH] in a |- *; simpl; first by rw Z.add_0_r.
    rw (_ : u64 a +ᵤ b = u64 (a + b)); first u64_solve.
    rw IH. apply (f_equal u64). lia. }
  apply (Hg 0).
Qed.

Lemma StatsReader_Read_ok counts :
  StatsReader_Read = inr counts ↔
  ∃ b0 b1, lookup 0 = inr b0 ∧ lookup 1 = inr b1 ∧ counts = [sumCPUs b0; sumCPUs b1].
Proof.
  rw /StatsReader_Read /= /readSlot /=.
  change (Z.of_nat 0) with 0. change (Z.of_nat 1) with 1.
  split.
  - destruct (lookup 0) as [e0|b0] => //. destruct (lookup 1) as [e1|b1] => //=.
    intros [= <-]. by exists b0, b1.
  - by intros (b0 & b1 & -> & -> & ->).
Qed.
End stats.
