(* ===== verification/State.v ===== *)
(** * The cumulative counters (internal/state)

    [GlobalState] keeps one counter per flow key and three "settled"
    accumulators into which a row's history is folded when its attribution is
    about to change or die.  A Go method is one function of the whole state:
    each runs under one mutex, so it is atomic for every other goroutine. *)
From S2P Require Import Prelude Bpf.

(** ** Data (schema.go) *)

Record Counter := mkCounter { Total : FlowMetrics; LastEbpfRaw : FlowMetrics }.
Record Owner := mkOwner { Owner_Tenant : string; Owner_ExtNet : string; Owner_Server : string }.
Record TenantSettledKey := mkTenantSettledKey {
  TS_Tenant : string; TS_ExtNet : string; TS_Zone : Z; TS_Dir : Z }.
Record ServerSettledKey := mkServerSettledKey {
  SS_ServerID : string; SS_Tenant : string; SS_ExtNet : string; SS_Zone : Z; SS_Dir : Z }.
Record TotalSettledKey := mkTotalSettledKey { TT_ExtNet : string; TT_Zone : Z; TT_Dir : Z }.
Record settledTotal := mkSettled { bytes : Z; packets : Z }.
Record FlowRecord := mkRecord { Rec_Key : FlowKey; Rec_Counter : Counter; Rec_Owner : Owner }.
Inductive SettleMode := SettleEvict | SettleRebase.

#[export] Instance Counter_eq_dec : EqDecision Counter.
Proof. solve_decision. Defined.
#[export] Instance Owner_eq_dec : EqDecision Owner.
Proof. solve_decision. Defined.
#[export] Instance settledTotal_eq_dec : EqDecision settledTotal.
Proof. solve_decision. Defined.
#[export] Instance TenantSettledKey_eq_dec : EqDecision TenantSettledKey.
Proof. solve_decision. Defined.
#[export] Instance TenantSettledKey_countable : Countable TenantSettledKey.
Proof.
  refine (inj_countable' (λ k, (TS_Tenant k, TS_ExtNet k, TS_Zone k, TS_Dir k))
    (λ '(a, b, c, d), mkTenantSettledKey a b c d) _). by intros [].
Defined.
#[export] Instance ServerSettledKey_eq_dec : EqDecision ServerSettledKey.
Proof. solve_decision. Defined.
#[export] Instance ServerSettledKey_countable : Countable ServerSettledKey.
Proof.
  refine (inj_countable' (λ k, (SS_ServerID k, SS_Tenant k, SS_ExtNet k, SS_Zone k, SS_Dir k))
    (λ '(a, b, c, d, e), mkServerSettledKey a b c d e) _). by intros [].
Defined.
#[export] Instance TotalSettledKey_eq_dec : EqDecision TotalSettledKey.
Proof. solve_decision. Defined.
#[export] Instance TotalSettledKey_countable : Countable TotalSettledKey.
Proof.
  refine (inj_countable' (λ k, (TT_ExtNet k, TT_Zone k, TT_Dir k))
    (λ '(a, b, c), mkTotalSettledKey a b c) _). by intros [].
Defined.

Definition settled_add (a b : settledTotal) : settledTotal :=
  mkSettled (bytes a +ᵤ bytes b) (packets a +ᵤ packets b).
#[export, refine] Instance settled_acc : Accumulator settledTotal := {|
  acc_zero := mkSettled 0 0; acc_add := settled_add |}.
Proof.
  - intros a b. by rw /settled_add (comm_L u64_add (bytes a)) (comm_L u64_add (packets a)).
  - intros a b c. by rw /settled_add /= !(assoc_L u64_add).
  - intros a b. by rw /settled_add /= !u64_add_zero.
  - done.
Defined.

Definition of_metrics (m : FlowMetrics) : settledTotal := mkSettled (Bytes m) (Packets m).

Record GlobalState := mkState {
  counts : gmap FlowKey Counter;
  tenantSettled : gmap TenantSettledKey settledTotal;
  serverSettled : gmap ServerSettledKey settledTotal;
  totalSettled : gmap TotalSettledKey settledTotal }.

Definition New : GlobalState := mkState ∅ ∅ ∅ ∅.

(** ** Delta mathematics *)

(** [*total] and [*lastRaw] after the call. *)
Definition AddDelta (total lastRaw current : Z) : Z * Z :=
  (if decide (lastRaw ≤ current) then total +ᵤ (current -ᵤ lastRaw) else total +ᵤ current,
   current).

(** The effect of [ApplyDelta] on an existing row. *)
Definition applyDeltaRow (c : Counter) (raw : FlowMetrics) : Counter :=
  let tot := Total c in
  let last := LastEbpfRaw c in
  let delta :=
    (AddDelta (Bytes tot) (Bytes last) (Bytes raw),
     AddDelta (Packets tot) (Packets last) (Packets raw)) in
  let '((tb, lb), (tp, lp)) :=
    if decide (CreatedNs last = 0) then delta
    else if decide (CreatedNs raw ≠ CreatedNs last) then
      ((Bytes tot +ᵤ Bytes raw, Bytes raw), (Packets tot +ᵤ Packets raw, Packets raw))
    else delta in
  mkCounter
    (mkFlowMetrics tb tp
      (if decide (LastSeenNs tot < LastSeenNs raw) then LastSeenNs raw else LastSeenNs tot)
      (CreatedNs tot))
    (mkFlowMetrics lb lp (LastSeenNs raw) (CreatedNs raw)).

Definition ApplyDelta (key : FlowKey) (raw : FlowMetrics) (g : GlobalState) : GlobalState :=
  let c := match counts g !! key with
           | None => mkCounter raw raw
           | Some c => applyDeltaRow c raw
           end in
  mkState (<[key := c]> (counts g)) (tenantSettled g) (serverSettled g) (totalSettled g).

(** [c.Total] with [m] added and the newer of the two time stamps. *)
Definition addTotals (tot m : FlowMetrics) : FlowMetrics :=
  mkFlowMetrics (Bytes tot +ᵤ Bytes m) (Packets tot +ᵤ Packets m)
    (if decide (LastSeenNs tot < LastSeenNs m) then LastSeenNs m else LastSeenNs tot)
    (CreatedNs tot).

Definition Add (key : FlowKey) (m : FlowMetrics) (g : GlobalState) : GlobalState :=
  let c := match counts g !! key with
           | None => mkCounter m zeroMetrics
           | Some c => mkCounter (addTotals (Total c) m) (LastEbpfRaw c)
           end in
  mkState (<[key := c]> (counts g)) (tenantSettled g) (serverSettled g) (totalSettled g).

Definition Resolve (key : FlowKey) (total lastRaw : FlowMetrics) (g : GlobalState) : GlobalState :=
  let c := match counts g !! key with
           | None => mkCounter total lastRaw
           | Some c => mkCounter (addTotals (Total c) total) lastRaw
           end in
  mkState (<[key := c]> (counts g)) (tenantSettled g) (serverSettled g) (totalSettled g).

(** ** Settling *)

Definition tenantKey (o : Owner) (k : FlowKey) : TenantSettledKey :=
  mkTenantSettledKey (Owner_Tenant o) (Owner_ExtNet o) (DstZone k) (Direction_ k).
Definition serverKey (o : Owner) (k : FlowKey) : ServerSettledKey :=
  mkServerSettledKey (Owner_Server o) (Owner_Tenant o) (Owner_ExtNet o) (DstZone k) (Direction_ k).
Definition totalKey (k : TenantSettledKey) : TotalSettledKey :=
  mkTotalSettledKey (TS_ExtNet k) (TS_Zone k) (TS_Dir k).

Definition rebased (c : Counter) : Counter :=
  mkCounter (mkFlowMetrics 0 0 (LastSeenNs (Total c)) (CreatedNs (Total c))) (LastEbpfRaw c).

Section settle.
Context `{GoRange}.

(** One iteration of the loop of [Settle]. *)
Definition settleRow (mode : SettleMode) (resolve : FlowKey → option Owner)
    (acc : GlobalState * Z) (row : FlowKey * Counter) : GlobalState * Z :=
  let '(g, folded) := acc in
  let '(k, c) := row in
  match resolve k with
  | None => (g, folded)
  | Some o =>
      let v := of_metrics (Total c) in
      (mkState
        (match mode with
         | SettleEvict => delete k (counts g)
         | SettleRebase => <[k := rebased c]> (counts g)
         end)
        (credit (tenantKey o k) v (tenantSettled g))
        (if decide (Owner_Server o = "") then serverSettled g
         else credit (serverKey o k) v (serverSettled g))
        (totalSettled g),
       folded + 1)
  end.

Definition Settle (mode : SettleMode) (resolve : FlowKey → option Owner)
    (g : GlobalState) : GlobalState * Z :=
  foldl (settleRow mode resolve) (g, 0) (go_range (counts g)).

(** ** Pruning the settled accumulators; [alive] as a set of names *)

Definition pruneServerRow (alive : gset string) (acc : GlobalState * Z)
    (row : ServerSettledKey * settledTotal) : GlobalState * Z :=
  let '(g, dropped) := acc in
  if decide (SS_ServerID row.1 ∈ alive) then (g, dropped)
  else (mkState (counts g) (tenantSettled g) (delete row.1 (serverSettled g)) (totalSettled g),
        dropped + 1).
Definition PruneServerSettled (alive : gset string) (g : GlobalState) : GlobalState * Z :=
  foldl (pruneServerRow alive) (g, 0) (go_range (serverSettled g)).

Definition pruneTenantRow (alive : gset string) (acc : GlobalState * Z)
    (row : TenantSettledKey * settledTotal) : GlobalState * Z :=
  let '(g, dropped) := acc in
  if decide (TS_Tenant row.1 ∈ alive) then (g, dropped)
  else (mkState (counts g) (delete row.1 (tenantSettled g)) (serverSettled g)
          (credit (totalKey row.1) row.2 (totalSettled g)),
        dropped + 1).
Definition PruneTenantSettled (alive : gset string) (g : GlobalState) : GlobalState * Z :=
  foldl (pruneTenantRow alive) (g, 0) (go_range (tenantSettled g)).

(** ** Snapshots: the slices appended to [dst] *)

Definition Snapshot (dst : list (FlowKey * FlowMetrics)) (g : GlobalState) :=
  dst ++ (prod_map id Total <$> go_range (counts g)).
Definition SnapshotWithSettled (flows : list (FlowKey * FlowMetrics))
    (settled : list (TenantSettledKey * settledTotal))
    (serverS : list (ServerSettledKey * settledTotal))
    (totalS : list (TotalSettledKey * settledTotal)) (g : GlobalState) :=
  (flows ++ (prod_map id Total <$> go_range (counts g)),
   settled ++ go_range (tenantSettled g),
   serverS ++ go_range (serverSettled g),
   totalS ++ go_range (totalSettled g)).
Definition SnapshotForWAL (flows : list FlowRecord)
    (settled : list (TenantSettledKey * settledTotal))
    (serverS : list (ServerSettledKey * settledTotal))
    (totalS : list (TotalSettledKey * settledTotal)) (g : GlobalState) :=
  (flows ++ ((λ kc, mkRecord kc.1 kc.2 (mkOwner "" "" "")) <$> go_range (counts g)),
   settled ++ go_range (tenantSettled g),
   serverS ++ go_range (serverSettled g),
   totalS ++ go_range (totalSettled g)).
End settle.

Definition Len (g : GlobalState) : Z := Z.of_nat (size (counts g)).

(** ** Restoring from the WAL: each record overwrites its key *)

Definition Restore (records : list FlowRecord) (g : GlobalState) : GlobalState :=
  mkState (insertAll ((λ r, (Rec_Key r, Rec_Counter r)) <$> records) (counts g))
    (tenantSettled g) (serverSettled g) (totalSettled g).
Definition RestoreTenantSettled (records : list (TenantSettledKey * settledTotal)) (g : GlobalState) :=
  mkState (counts g) (insertAll records (tenantSettled g)) (serverSettled g) (totalSettled g).
Definition RestoreServerSettled (records : list (ServerSettledKey * settledTotal)) (g : GlobalState) :=
  mkState (counts g) (tenantSettled g) (insertAll records (serverSettled g)) (totalSettled g).
Definition RestoreTotalSettled (records : list (TotalSettledKey * settledTotal)) (g : GlobalState) :=
  mkState (counts g) (tenantSettled g) (serverSettled g) (insertAll records (totalSettled g)).

(** ** Counting into a row *)

(** The bytes and packets a reading adds to a row, as the entry-identity rule
    decides them: first sight and a re-created kernel entry count the whole
    reading, the same entry (or an unknown one) the growth since the last
    reading, or the whole reading when the counter went backwards. *)
Definition guardDelta (lastRaw current : Z) : Z :=
  if decide (lastRaw ≤ current) then current -ᵤ lastRaw else current.
Definition rowDelta (row : option Counter) (raw : FlowMetrics) : settledTotal :=
  match row with
  | None => of_metrics raw
  | Some c =>
      let last := LastEbpfRaw c in
      if decide (CreatedNs last ≠ 0 ∧ CreatedNs raw ≠ CreatedNs last) then of_metrics raw
      else mkSettled (guardDelta (Bytes last) (Bytes raw)) (guardDelta (Packets last) (Packets raw))
  end.

Definition total_of (c : Counter) : settledTotal := of_metrics (Total c).

Lemma AddDelta_guard t l x : AddDelta t l x = (t +ᵤ guardDelta l x, x).
Proof. rw /AddDelta /guardDelta. by destruct (decide _). Qed.

Lemma applyDeltaRow_total c raw :
  total_of (applyDeltaRow c raw) = acc_add (total_of c) (rowDelta (Some c) raw).
Proof.
  rw /applyDeltaRow /rowDelta !AddDelta_guard /total_of /of_metrics.
  destruct (decide (CreatedNs (LastEbpfRaw c) = 0)) as [E|E].
  - rw (decide_False (P := _ ∧ _)) //. by intros [].
  - destruct (decide (CreatedNs raw ≠ _)) as [F|F].
    + by rw (decide_True (P := _ ∧ _)).
    + rw (decide_False (P := _ ∧ _)) //. by intros [].
Qed.
Lemma applyDeltaRow_last c raw : LastEbpfRaw (applyDeltaRow c raw) = raw.
Proof.
  rw /applyDeltaRow !AddDelta_guard. destruct raw.
  by repeat destruct (decide _).
Qed.

(** What each counting operation adds to the row of its key. *)
Definition counted (g : GlobalState) (key : FlowKey) (v : settledTotal) (g' : GlobalState) : Prop :=
  tenantSettled g' = tenantSettled g ∧ serverSettled g' = serverSettled g ∧
  totalSettled g' = totalSettled g ∧
  ∃ c', counts g' = <[key := c']> (counts g) ∧
    total_of c' = match counts g !! key with None => v | Some c => acc_add (total_of c) v end.

Lemma ApplyDelta_counted key raw g :
  counted g key (rowDelta (counts g !! key) raw) (ApplyDelta key raw g).
Proof.
  rw /counted /ApplyDelta. split_and! => //=. eexists; split; first done.
  destruct (counts g !! key); last done. apply applyDeltaRow_total.
Qed.
Lemma Add_counted key m g : counted g key (of_metrics m) (Add key m g).
Proof.
  rw /counted /Add. split_and! => //=. eexists; split; first done.
  by destruct (counts g !! key).
Qed.
Lemma Resolve_counted key total lastRaw g :
  counted g key (of_metrics total) (Resolve key total lastRaw g).
Proof.
  rw /counted /Resolve. split_and! => //=. eexists; split; first done.
  by destruct (counts g !! key).
Qed.

(** The rows of a table, one of them singled out. *)
Lemma bind_rows_delete `{Countable K} {V B} (f : K * V → list B) (m : gmap K V) k v :
  m !! k = Some v →
  map_to_list m ≫= f ≡ₚ f (k, v) ++ (map_to_list (delete k m) ≫= f).
Proof. intros Hk. by rw -(map_to_list_delete m k v Hk). Qed.
Lemma bind_rows_insert `{Countable K} {V B} (f : K * V → list B) (m : gmap K V) k v :
  map_to_list (<[k := v]> m) ≫= f ≡ₚ f (k, v) ++ (map_to_list (delete k m) ≫= f).
Proof.
  rw (bind_rows_delete f (<[k:=v]> m) k v); first apply lookup_insert_eq.
  by rw delete_insert_eq.
Qed.

(** Counting into a row credits the bucket of the row. *)
Lemma tally_counted `{Countable K} (row : FlowKey * Counter → list (K * settledTotal))
    l (m : gmap FlowKey Counter) key c' v sk :
  (∀ c, row (key, c) = [(sk, total_of c)]) →
  total_of c' = match m !! key with None => v | Some c => acc_add (total_of c) v end →
  tally (l ++ (map_to_list (<[key := c']> m) ≫= row)) =
  credit sk v (tally (l ++ (map_to_list m ≫= row))).
Proof.
  intros Hrow Hc'. rw bind_rows_insert Hrow Hc' /=.
  rw -Permutation_middle /tally tally_from_cons tally_from_credit.
  destruct (m !! key) as [c|] eqn:E.
  - rw (bind_rows_delete row m key c E) Hrow /= -Permutation_middle.
    by rw tally_from_cons tally_from_credit credit_sum.
  - by rw delete_id.
Qed.

(** ** The WAL's view *)

(** Restoring the rows of a state, whatever owners they carry, gives them back. *)
Lemma restored_rows `{GoRange} (own : FlowKey * Counter → Owner) (cs : gmap FlowKey Counter) :
  insertAll ((λ r, (Rec_Key r, Rec_Counter r)) <$> ((λ kc, mkRecord kc.1 kc.2 (own kc)) <$> go_range cs)) ∅ = cs.
Proof.
  rw -list_fmap_compose. rw (_ : _ <$> go_range cs = go_range cs); last apply insertAll_range.
  rw -{2}(list_fmap_id (go_range cs)). apply list_fmap_ext. by intros ? [].
Qed.

(** a restart restores exactly the counters that were persisted: seeding an
    empty state with the records of a WAL snapshot gives the snapshotted state
    back, whatever order the snapshot was taken in. *)
Theorem wal_snapshot_restore `{GoRange} g :
  let '(flows, settled, serverS, totalS) := SnapshotForWAL [] [] [] [] g in
  RestoreTotalSettled totalS (RestoreServerSettled serverS
    (RestoreTenantSettled settled (Restore flows New))) = g.
Proof.
  destruct g as [cs ts ss xs].
  rw /= /Restore /RestoreTenantSettled /RestoreServerSettled /RestoreTotalSettled /=.
  f_equal; try apply insertAll_range. apply (restored_rows (λ _, mkOwner "" "" "")).
Qed.
