(* ===== verification/Exposure.v ===== *)
(** * What the counters expose, over any history

    The specification of the monotone tiers of internal/metrics in terms of
    [GlobalState]: each tier is the tally of its settled buckets and of the
    live rows.  A history is any sequence of the operations other components
    perform on the counters; the ledger theorems say that a series shows
    exactly the traffic that was counted under it. *)
From S2P Require Import Prelude Bpf State.

(** ** What is exposed

    The specification of the three monotone tiers: [attr] is the attribution
    the metrics collector resolves for a row; a tier is the tally of its
    settled buckets and of the live rows under their buckets. *)
Section exposure.
Variable attr : FlowKey → Owner.

Definition tenantRow (kc : FlowKey * Counter) : list (TenantSettledKey * settledTotal) :=
  [(tenantKey (attr kc.1) kc.1, of_metrics (Total kc.2))].
Definition serverRow (kc : FlowKey * Counter) : list (ServerSettledKey * settledTotal) :=
  if decide (Owner_Server (attr kc.1) = "") then []
  else [(serverKey (attr kc.1) kc.1, of_metrics (Total kc.2))].

Definition exposedTenant (g : GlobalState) : gmap TenantSettledKey settledTotal :=
  tally (map_to_list (tenantSettled g) ++ (map_to_list (counts g) ≫= tenantRow)).
Definition exposedServer (g : GlobalState) : gmap ServerSettledKey settledTotal :=
  tally (map_to_list (serverSettled g) ++ (map_to_list (counts g) ≫= serverRow)).
Definition exposedTotal (g : GlobalState) : gmap TotalSettledKey settledTotal :=
  tally (rekey totalKey (map_to_list (exposedTenant g)) ++ map_to_list (totalSettled g)).
End exposure.

(** Moving a value from a live row into its settled bucket. *)
Section fold_bucket.
Context `{Countable K}.
Implicit Types (S : gmap K settledTotal) (l : list (K * settledTotal)).

Lemma tally_credit_id S k v l :
  tally (map_to_list (credit k v S) ++ l) = tally (map_to_list S ++ (k, v) :: l).
Proof.
  have Hid (l' : list (K * settledTotal)) : rekey id l' = l'.
  { rw /rekey -{2}(list_fmap_id l'). by apply list_fmap_ext => ? [] . }
  rw -(Permutation_middle _ _ (k, v)) (app_comm_cons _ _ (k, v)) !tally_app.
  f_equal. rw /tally -(Hid (map_to_list (credit _ _ _))) tally_credit.
  by rw Hid.
Qed.
Lemma tally_credit_zero S k v l :
  tally (map_to_list (credit k v S) ++ (k, acc_zero) :: l) =
  tally (map_to_list S ++ (k, v) :: l).
Proof.
  rw /tally tally_from_zero; last by rw -/tally; apply tally_credit_id.
  apply list_elem_of_fmap. eexists (k, _). split; first done.
  apply elem_of_map_to_list, lookup_credit.
Qed.
End fold_bucket.

(** A fold moves a row's value from the live rows to a settled bucket of the
    same tuple: the tier is unchanged, whether the row is deleted or zeroed. *)
Lemma tier_settle `{Countable K} (row : FlowKey * Counter → list (K * settledTotal))
    S (m : gmap FlowKey Counter) mode k c sk :
  m !! k = Some c →
  row (k, c) = [(sk, of_metrics (Total c))] →
  row (k, rebased c) = [(sk, acc_zero)] →
  tally (map_to_list (credit sk (of_metrics (Total c)) S) ++
         (map_to_list (match mode with SettleEvict => delete k m
                       | SettleRebase => <[k := rebased c]> m end) ≫= row)) =
  tally (map_to_list S ++ (map_to_list m ≫= row)).
Proof.
  intros Hk Hrow Hreb. rw (bind_rows_delete row m k c Hk) Hrow /=.
  destruct mode; first by rw tally_credit_id.
  by rw bind_rows_insert Hreb /= tally_credit_zero.
Qed.

Section settle_proofs.
Context `{GoRange} (attr : FlowKey → Owner) (resolve : FlowKey → option Owner).
Hypothesis agree : ∀ k o, resolve k = Some o → attr k = o.

Lemma settleRow_tenant mode a k c :
  counts a.1 !! k = Some c →
  exposedTenant attr (settleRow mode resolve a (k, c)).1 = exposedTenant attr a.1.
Proof.
  destruct a as [g n]; simpl; intros Hk.
  destruct (resolve k) as [o|] eqn:E; last done.
  apply (tier_settle (tenantRow attr)); rw /tenantRow //= (agree _ _ E) //.
Qed.
Lemma settleRow_server mode a k c :
  counts a.1 !! k = Some c →
  exposedServer attr (settleRow mode resolve a (k, c)).1 = exposedServer attr a.1.
Proof.
  destruct a as [g n]; simpl; intros Hk.
  destruct (resolve k) as [o|] eqn:E; last done.
  rw /exposedServer /=. destruct (decide (Owner_Server o = "")) as [Hs|Hs].
  - have Hrow c' : serverRow attr (k, c') = []
      by rw /serverRow /= (agree _ _ E) decide_True.
    rw (bind_rows_delete (serverRow attr) (counts g) k c Hk) Hrow.
    by destruct mode; rw ?(bind_rows_insert (serverRow attr)) ?Hrow.
  - apply (tier_settle (serverRow attr)); rw /serverRow //= (agree _ _ E) decide_False //.
Qed.

Lemma settleRow_local mode a k c k' :
  k' ≠ k → counts (settleRow mode resolve a (k, c)).1 !! k' = counts a.1 !! k'.
Proof.
  destruct a as [g n]; simpl; intros Hne. destruct (resolve k); last done.
  by destruct mode; simpl; rw ?lookup_delete_ne ?lookup_insert_ne.
Qed.

Lemma Settle_total mode g : totalSettled (Settle mode resolve g).1 = totalSettled g.
Proof.
  rw /Settle. generalize (go_range (counts g)) as l, 0. intros l.
  induction l as [|[k c] l IH] in g |- *; intros n; csimpl; first done.
  destruct (resolve k); by rw IH.
Qed.

Lemma Settle_conserves mode g :
  let g' := (Settle mode resolve g).1 in
  exposedTenant attr g' = exposedTenant attr g ∧
  exposedServer attr g' = exposedServer attr g ∧
  exposedTotal attr g' = exposedTotal attr g.
Proof.
  cbn zeta. assert (exposedTenant attr (Settle mode resolve g).1 = exposedTenant attr g ∧
    exposedServer attr (Settle mode resolve g).1 = exposedServer attr g) as [Ht Hs].
  { rw /Settle. apply (rows_ind (λ a, counts a.1) (settleRow mode resolve)
      (λ _ _ _ _ _, settleRow_local mode _ _ _ _)
      (λ a, exposedTenant attr a.1 = exposedTenant attr g ∧
            exposedServer attr a.1 = exposedServer attr g) (g, 0)); last done.
    intros a k c Hk [<- <-]. split; by [apply settleRow_tenant|apply settleRow_server]. }
  split_and! => //. by rw /exposedTotal Ht Settle_total.
Qed.

(** What is left of the rows. *)
Lemma Settle_counts mode g k :
  counts (Settle mode resolve g).1 !! k =
  counts g !! k ≫= λ c,
    match resolve k with
    | None => Some c
    | Some _ => match mode with SettleEvict => None | SettleRebase => Some (rebased c) end
    end.
Proof.
  rw /Settle. apply (rows_lookup (λ a, counts a.1) (settleRow mode resolve)
      (λ _ _ _ _ _, settleRow_local mode _ _ _ _)
    (λ k c, match resolve k with None => Some c
     | Some _ => match mode with SettleEvict => None | SettleRebase => Some (rebased c) end
     end) (g, 0)).
  clear. intros [g n] k c Hk; simpl in *. destruct (resolve k); simpl; last done.
  destruct mode; by rw ?lookup_delete_eq ?lookup_insert_eq.
Qed.
End settle_proofs.

Section counted.
Context (attr : FlowKey → Owner) (g g' : GlobalState) (key : FlowKey) (v : settledTotal).
Hypothesis Hc : counted g key v g'.

Lemma counted_tenant :
  exposedTenant attr g' = credit (tenantKey (attr key) key) v (exposedTenant attr g).
Proof.
  destruct Hc as (Ht & _ & _ & c' & Hg' & Hv). rw /exposedTenant Ht Hg'.
  by apply tally_counted.
Qed.
Lemma counted_server :
  exposedServer attr g' =
  if decide (Owner_Server (attr key) = "") then exposedServer attr g
  else credit (serverKey (attr key) key) v (exposedServer attr g).
Proof.
  destruct Hc as (_ & Hs & _ & c' & Hg' & Hv). rw /exposedServer Hs Hg'.
  destruct (decide _) as [E|E].
  - have Hrow c : serverRow attr (key, c) = [] by rw /serverRow /= decide_True.
    apply tally_from_perm, Permutation_app_head. rw bind_rows_insert Hrow /=.
    destruct (counts g !! key) as [c|] eqn:F; last by rw delete_id.
    by rw (bind_rows_delete _ _ _ _ F) Hrow.
  - apply tally_counted; last done. intros c. by rw /serverRow /= decide_False.
Qed.
End counted.

(** ** The total tier, with its two stages fused *)

Lemma exposedTotal_fused attr g :
  exposedTotal attr g =
  tally (map_to_list (totalSettled g) ++
    rekey totalKey (map_to_list (tenantSettled g)) ++
    rekey totalKey (map_to_list (counts g) ≫= tenantRow attr)).
Proof.
  pose proof (tally_fuse totalKey ∅ ∅
    (map_to_list (tenantSettled g) ++ (map_to_list (counts g) ≫= tenantRow attr))) as F.
  rw map_to_list_empty /= in F. rw /exposedTotal tally_app.
  etrans; first exact (f_equal (λ m, tally_from m _) F).
  by rw -tally_from_app rekey_app Permutation_app_comm.
Qed.
Lemma counted_total attr g g' key v :
  counted g key v g' →
  exposedTotal attr g' = credit (totalKey (tenantKey (attr key) key)) v (exposedTotal attr g).
Proof.
  intros Hc. rw /exposedTotal (counted_tenant _ _ _ _ _ Hc).
  destruct Hc as (_ & _ & -> & _).
  rw !tally_app.
  etrans; first exact (f_equal (λ m, tally_from m _) (tally_credit totalKey ∅ _ _ _)).
  by rw /= !tally_from_credit.
Qed.

(** ** Pruning *)

Section prune_proofs.
Context `{GoRange} (alive : gset string).

Lemma pruneTenantRow_local a k v k' :
  k' ≠ k →
  tenantSettled (pruneTenantRow alive a (k, v)).1 !! k' = tenantSettled a.1 !! k'.
Proof.
  destruct a as [g n]; simpl; intros. case_decide; simpl; first done.
  by rw lookup_delete_ne.
Qed.
Lemma PruneTenant_lookup g k :
  tenantSettled (PruneTenantSettled alive g).1 !! k =
  tenantSettled g !! k ≫= λ v, if decide (TS_Tenant k ∈ alive) then Some v else None.
Proof.
  refine (rows_lookup (λ a, tenantSettled a.1) (pruneTenantRow alive)
    (λ a k v k' _, pruneTenantRow_local a k v k')
    (λ k v, if decide (TS_Tenant k ∈ alive) then Some v else None) (g, 0) _ _).
  intros [g' n] k' v Hk; simpl in *. case_decide; simpl; [done|apply lookup_delete_eq].
Qed.
Lemma PruneTenant_frame g :
  let g' := (PruneTenantSettled alive g).1 in
  counts g' = counts g ∧ serverSettled g' = serverSettled g.
Proof.
  cbn zeta. apply (rows_ind (λ a, tenantSettled a.1) (pruneTenantRow alive)
    (λ a k v k' _, pruneTenantRow_local a k v k')
    (λ a, counts a.1 = counts g ∧ serverSettled a.1 = serverSettled g) (g, 0)); last done.
  intros [g' n] k v _ [E1 E2]; simpl in *. by case_decide.
Qed.
(** Releasing a dead project's bucket moves it to the total absorber. *)
Lemma PruneTenant_total attr g :
  exposedTotal attr (PruneTenantSettled alive g).1 = exposedTotal attr g.
Proof.
  apply (rows_ind (λ a, tenantSettled a.1) (pruneTenantRow alive)
    (λ a k v k' _, pruneTenantRow_local a k v k')
    (λ a, exposedTotal attr a.1 = exposedTotal attr g) (g, 0)); last done.
  intros [g' n] k v Hk <-; simpl in *. case_decide; simpl; first done.
  rw !exposedTotal_fused /= tally_credit_id.
  by rw -(map_to_list_delete (tenantSettled g') k v).
Qed.

Lemma pruneServerRow_local a k v k' :
  k' ≠ k →
  serverSettled (pruneServerRow alive a (k, v)).1 !! k' = serverSettled a.1 !! k'.
Proof.
  destruct a as [g n]; simpl; intros. case_decide; simpl; first done.
  by rw lookup_delete_ne.
Qed.
Lemma PruneServer_lookup g k :
  serverSettled (PruneServerSettled alive g).1 !! k =
  serverSettled g !! k ≫= λ v, if decide (SS_ServerID k ∈ alive) then Some v else None.
Proof.
  refine (rows_lookup (λ a, serverSettled a.1) (pruneServerRow alive)
    (λ a k v k' _, pruneServerRow_local a k v k')
    (λ k v, if decide (SS_ServerID k ∈ alive) then Some v else None) (g, 0) _ _).
  intros [g' n] k' v Hk; simpl in *. case_decide; simpl; [done|apply lookup_delete_eq].
Qed.
Lemma PruneServer_frame g :
  let g' := (PruneServerSettled alive g).1 in
  counts g' = counts g ∧ tenantSettled g' = tenantSettled g ∧
  totalSettled g' = totalSettled g.
Proof.
  cbn zeta. apply (rows_ind (λ a, serverSettled a.1) (pruneServerRow alive)
    (λ a k v k' _, pruneServerRow_local a k v k')
    (λ a, counts a.1 = counts g ∧ tenantSettled a.1 = tenantSettled g ∧
          totalSettled a.1 = totalSettled g) (g, 0)); last done.
  intros [g' n] k v _ (E1 & E2 & E3); simpl in *. by case_decide.
Qed.
End prune_proofs.

(** ** Histories

    Every change any part of the agent makes to the counters is one of these
    events; [EReattribute] is a change of the metadata the attribution is
    resolved from. *)
Inductive event :=
  | EApply (key : FlowKey) (raw : FlowMetrics)
  | EAdd (key : FlowKey) (m : FlowMetrics)
  | EResolve (key : FlowKey) (total lastRaw : FlowMetrics)
  | ESettle (mode : SettleMode) (resolve : FlowKey → option Owner)
  | EPruneTenant (alive : gset string)
  | EPruneServer (alive : gset string)
  | EReattribute (attr : FlowKey → Owner).

Record config := mkConfig { c_attr : FlowKey → Owner; c_state : GlobalState }.

Section history.
Context `{GoRange}.

Definition exec (c : config) (ev : event) : config :=
  let '(mkConfig attr g) := c in
  match ev with
  | EApply k raw => mkConfig attr (ApplyDelta k raw g)
  | EAdd k m => mkConfig attr (Add k m g)
  | EResolve k t l => mkConfig attr (Resolve k t l g)
  | ESettle mode resolve => mkConfig attr (Settle mode resolve g).1
  | EPruneTenant alive => mkConfig attr (PruneTenantSettled alive g).1
  | EPruneServer alive => mkConfig attr (PruneServerSettled alive g).1
  | EReattribute attr' => mkConfig attr' g
  end.

(** A settle resolves a row to what the collector exposes it under; the
    attribution of a row changes only once the row is folded. *)
Definition allowed (c : config) (ev : event) : Prop :=
  match ev with
  | ESettle _ resolve => ∀ k o, resolve k = Some o → c_attr c k = o
  | EReattribute attr' => ∀ k row, counts (c_state c) !! k = Some row →
      attr' k = c_attr c k ∨ total_of row = acc_zero
  | _ => True
  end.

(** The traffic an event counts. *)
Definition traffic (c : config) (ev : event) : option (FlowKey * settledTotal) :=
  match ev with
  | EApply k raw => Some (k, rowDelta (counts (c_state c) !! k) raw)
  | EAdd k m => Some (k, of_metrics m)
  | EResolve k t _ => Some (k, of_metrics t)
  | _ => None
  end.

Fixpoint valid (c : config) (evs : list event) : Prop :=
  match evs with [] => True | ev :: evs => allowed c ev ∧ valid (exec c ev) evs end.
Definition run (c : config) (evs : list event) : config := foldl exec c evs.

(** The ledger of a tier: every traffic credited, once and for all, to the
    bucket it was attributed to when it was counted. *)
Fixpoint ledger `{Countable K} (bucket : Owner → FlowKey → option K)
    (c : config) (evs : list event) (L : gmap K settledTotal) : gmap K settledTotal :=
  match evs with
  | [] => L
  | ev :: evs =>
      ledger bucket (exec c ev) evs
        (match traffic c ev with
         | Some (k, v) => match bucket (c_attr c k) k with
                          | Some b => credit b v L | None => L end
         | None => L end)
  end.

Lemma traffic_counted c ev k v :
  traffic c ev = Some (k, v) →
  counted (c_state c) k v (c_state (exec c ev)) ∧ c_attr (exec c ev) = c_attr c.
Proof.
  destruct c as [attr g]; destruct ev; simpl; try done; intros [= <- <-]; split => //.
  - apply ApplyDelta_counted.
  - apply Add_counted.
  - apply Resolve_counted.
Qed.
End history.

Section ledgers.
Context `{GoRange} `{Countable K}.
Variable tier : config → gmap K settledTotal.
Variable bucket : Owner → FlowKey → option K.
Variable k : K.
Variable good : event → Prop.
Hypothesis tier_traffic : ∀ c ev key v, traffic c ev = Some (key, v) →
  tier (exec c ev) =
  match bucket (c_attr c key) key with Some b => credit b v (tier c) | None => tier c end.
Hypothesis tier_silent : ∀ c ev, traffic c ev = None → allowed c ev → good ev →
  value k (tier (exec c ev)) = value k (tier c).

Lemma ledger_value evs c L :
  valid c evs → Forall good evs → value k L = value k (tier c) →
  value k (tier (run c evs)) = value k (ledger bucket c evs L).
Proof.
  induction evs as [|ev evs IH] in c, L |- *; simpl; first done.
  intros [Ha Hv] [Hg Hgs]%Forall_cons HL. apply IH; [done..|].
  destruct (traffic c ev) as [[key v]|] eqn:E; last by rw HL tier_silent.
  rw (tier_traffic _ _ _ _ E).
  destruct (bucket _ _); last done. by apply value_credit_cong.
Qed.
End ledgers.

(** Rows whose attribution moved hold nothing, so no bucket moves. *)
Lemma reattribute_same `{Countable K} (row row' : FlowKey * Counter → list (K * settledTotal))
    (m : gmap FlowKey Counter) l :
  (∀ k c, m !! k = Some c → row' (k, c) = row (k, c) ∨
     (all_zero (row' (k, c)) ∧ all_zero (row (k, c)))) →
  same_values (tally (l ++ (map_to_list m ≫= row'))) (tally (l ++ (map_to_list m ≫= row))).
Proof.
  intros Hr. rw !tally_app. apply tally_bind_same; first apply idle_tally.
  intros [k c] Hin%elem_of_map_to_list. by apply Hr.
Qed.

Section reattribute.
Context (attr attr' : FlowKey → Owner) (g : GlobalState).
Hypothesis folded : ∀ k row, counts g !! k = Some row →
  attr' k = attr k ∨ total_of row = acc_zero.

Lemma tenantRow_folded k c : counts g !! k = Some c →
  tenantRow attr' (k, c) = tenantRow attr (k, c) ∨
  (all_zero (tenantRow attr' (k, c)) ∧ all_zero (tenantRow attr (k, c))).
Proof.
  intros [E|E]%folded; [left|right].
  - by rw /tenantRow /= E.
  - by split; apply Forall_singleton.
Qed.
Lemma serverRow_folded k c : counts g !! k = Some c →
  serverRow attr' (k, c) = serverRow attr (k, c) ∨
  (all_zero (serverRow attr' (k, c)) ∧ all_zero (serverRow attr (k, c))).
Proof.
  intros [E|E]%folded; [left|right].
  - by rw /serverRow /= E.
  - split; rw /serverRow; case_decide; by [apply Forall_nil|apply Forall_singleton].
Qed.

Lemma reattribute_tenant : same_values (exposedTenant attr' g) (exposedTenant attr g).
Proof. apply reattribute_same, tenantRow_folded. Qed.
Lemma reattribute_server : same_values (exposedServer attr' g) (exposedServer attr g).
Proof. apply reattribute_same, serverRow_folded. Qed.
Lemma reattribute_total : same_values (exposedTotal attr' g) (exposedTotal attr g).
Proof.
  rw !exposedTotal_fused !rekey_bind !app_assoc. apply reattribute_same.
  intros k c [E|[E1 E2]]%tenantRow_folded; [left|right].
  - exact (f_equal (rekey totalKey) E).
  - split; by apply rekey_all_zero.
Qed.
End reattribute.

Definition spares_tenant (k : TenantSettledKey) (ev : event) : Prop :=
  match ev with EPruneTenant alive => TS_Tenant k ∈ alive | _ => True end.
Definition spares_server (k : ServerSettledKey) (ev : event) : Prop :=
  match ev with EPruneServer alive => SS_ServerID k ∈ alive | _ => True end.

(** The tally of two lists is the sum of their tallies. *)
Lemma value_tally_app `{Countable K} (k : K) (l1 l2 : list (K * settledTotal)) :
  value k (tally (l1 ++ l2)) = acc_add (value k (tally l1)) (value k (tally l2)).
Proof.
  induction l2 as [|[k' a] l2 IH] using rev_ind.
  { rw app_nil_r. symmetry. exact (idle_tally l1 k). }
  rw app_assoc !(tally_app _ [_]) /=. destruct (decide (k' = k)) as [->|Hne].
  - by rw !value_credit IH -(assoc_L acc_add).
  - by rw !value_credit_ne.
Qed.
Lemma acc_swap `{Accumulator A} (a b c : A) : acc_add (acc_add a b) c = acc_add (acc_add a c) b.
Proof. by rw -!(assoc_L acc_add) (comm_L acc_add b). Qed.

Section tiers.
Context `{GoRange}.

Definition tenantTier (c : config) := exposedTenant (c_attr c) (c_state c).
Definition serverTier (c : config) := exposedServer (c_attr c) (c_state c).
Definition totalTier (c : config) := exposedTotal (c_attr c) (c_state c).
Definition tenantBucket (o : Owner) (k : FlowKey) := Some (tenantKey o k).
Definition serverBucket (o : Owner) (k : FlowKey) :=
  if decide (Owner_Server o = "") then None else Some (serverKey o k).
Definition totalBucket (o : Owner) (k : FlowKey) := Some (totalKey (tenantKey o k)).

Lemma total_silent c ev k :
  traffic c ev = None → allowed c ev → value k (totalTier (exec c ev)) = value k (totalTier c).
Proof.
  destruct c as [attr g]; rw /totalTier; destruct ev; simpl; intros Ht Ha; try done.
  - destruct (Settle_conserves attr resolve Ha mode g) as (_ & _ & E). by rw E.
  - by rw PruneTenant_total.
  - destruct (PruneServer_frame alive g) as (E1 & E2 & E3).
    by rw /exposedTotal /exposedTenant E1 E2 E3.
  - by apply reattribute_total.
Qed.

Lemma tenant_silent k c ev :
  traffic c ev = None → allowed c ev → spares_tenant k ev →
  value k (tenantTier (exec c ev)) = value k (tenantTier c).
Proof.
  destruct c as [attr g]; rw /tenantTier; destruct ev; simpl; intros Ht Ha Hs; try done.
  - destruct (Settle_conserves attr resolve Ha mode g) as (E & _ & _). by rw E.
  - rw /exposedTenant !tally_app. destruct (PruneTenant_frame alive g) as (-> & _).
    apply value_tally_from_cong. rw !value_tally_rows PruneTenant_lookup.
    destruct (_ !! _) => //=. by rw decide_True.
  - destruct (PruneServer_frame alive g) as (E1 & E2 & E3). by rw /exposedTenant E1 E2.
  - by apply reattribute_tenant.
Qed.

Lemma server_silent k c ev :
  traffic c ev = None → allowed c ev → spares_server k ev →
  value k (serverTier (exec c ev)) = value k (serverTier c).
Proof.
  destruct c as [attr g]; rw /serverTier; destruct ev; simpl; intros Ht Ha Hs; try done.
  - destruct (Settle_conserves attr resolve Ha mode g) as (_ & E & _). by rw E.
  - destruct (PruneTenant_frame alive g) as (E1 & E2). by rw /exposedServer E1 E2.
  - rw /exposedServer !tally_app. destruct (PruneServer_frame alive g) as (-> & _ & _).
    apply value_tally_from_cong. rw !value_tally_rows PruneServer_lookup.
    destruct (_ !! _) => //=. by rw decide_True.
  - by apply reattribute_server.
Qed.

Lemma total_ledger evs c k :
  valid c evs →
  value k (totalTier (run c evs)) = value k (ledger totalBucket c evs (totalTier c)).
Proof.
  intros Hv. apply (ledger_value totalTier totalBucket k (λ _, True)); try done.
  - intros c' ev key v [Hc Ha]%traffic_counted.
    by rw /totalTier Ha (counted_total _ _ _ _ _ Hc).
  - intros. by apply total_silent.
  - by apply Forall_true.
Qed.

(** ** What changes series

    An event may change the owner a live row is exposed under; a fold may also
    resolve a row to another owner than the one it was exposed under. *)
Definition nextOwner (c : config) (ev : event) : FlowKey → Owner :=
  match ev with
  | ESettle _ resolve => λ k, default (c_attr c k) (resolve k)
  | EReattribute attr' => attr'
  | _ => c_attr c
  end.
(** What a change of owner takes from one total series to another: what the row
    has counted since it was last folded. *)
Definition movedRow (attr attr' : FlowKey → Owner) (kc : FlowKey * Counter) :
    list (TotalSettledKey * TotalSettledKey * settledTotal) :=
  let from := totalKey (tenantKey (attr kc.1) kc.1) in
  let to := totalKey (tenantKey (attr' kc.1) kc.1) in
  if decide (from = to) then [] else [(from, to, total_of kc.2)].
Definition movedBy (attr attr' : FlowKey → Owner) (g : GlobalState) :=
  map_to_list (counts g) ≫= movedRow attr attr'.
Fixpoint moved (c : config) (evs : list event) : list (TotalSettledKey * TotalSettledKey * settledTotal) :=
  match evs with
  | [] => []
  | ev :: evs => movedBy (c_attr c) (nextOwner c ev) (c_state c) ++ moved (exec c ev) evs
  end.
Definition out_of (l : list (TotalSettledKey * TotalSettledKey * settledTotal)) : gmap TotalSettledKey settledTotal :=
  tally ((λ m, (m.1.1, m.2)) <$> l).
Definition into (l : list (TotalSettledKey * TotalSettledKey * settledTotal)) : gmap TotalSettledKey settledTotal :=
  tally ((λ m, (m.1.2, m.2)) <$> l).

Lemma value_out_app k l1 l2 : value k (out_of (l1 ++ l2)) = acc_add (value k (out_of l1)) (value k (out_of l2)).
Proof. by rw /out_of fmap_app value_tally_app. Qed.
Lemma value_into_app k l1 l2 : value k (into (l1 ++ l2)) = acc_add (value k (into l1)) (value k (into l2)).
Proof. by rw /into fmap_app value_tally_app. Qed.
Lemma movedBy_same attr g : movedBy attr attr g = [].
Proof.
  rw /movedBy. induction (map_to_list (counts g)) as [|kc l IH]; csimpl; [done|].
  by rw IH /movedRow decide_True.
Qed.
(** Re-reading the rows under another attribution takes out of a series what it
    loses and puts into a series what it gains. *)
Lemma reattribute_moves attr attr' g k :
  acc_add (value k (exposedTotal attr' g)) (value k (out_of (movedBy attr attr' g))) =
  acc_add (value k (exposedTotal attr g)) (value k (into (movedBy attr attr' g))).
Proof.
  rw !exposedTotal_fused !rekey_bind /out_of /into /movedBy -!value_tally_app -!app_assoc.
  f_equal. apply tally_from_perm, Permutation_app_head, Permutation_app_head.
  induction (map_to_list (counts g)) as [|[key row] l IH]; csimpl; [done|].
  rw !fmap_app /movedRow /=. case_decide as E; simpl.
  - rw /tenantRow /rekey /= E. by apply perm_skip.
  - rw /tenantRow /rekey /=. rw -!(Permutation_middle (_ ≫= _)) IH. apply perm_swap.
Qed.
(** A fold under any resolution: the rows it takes move to the owner resolved. *)
Lemma settle_moves mode resolve attr g k :
  let attr2 := nextOwner (mkConfig attr g) (ESettle mode resolve) in
  acc_add (value k (exposedTotal attr (Settle mode resolve g).1)) (value k (out_of (movedBy attr attr2 g))) =
  acc_add (value k (exposedTotal attr g)) (value k (into (movedBy attr attr2 g))).
Proof.
  intros attr2. rw -reattribute_moves. f_equal.
  destruct (Settle_conserves attr2 resolve) with (mode := mode) (g := g) as (_ & _ & E).
  { intros key o Hr. by rw /attr2 /= Hr. }
  rw -E. apply reattribute_total. intros key row. rw Settle_counts /attr2 /=.
  destruct (counts g !! key) as [c|]; [|done]. simpl. destruct (resolve key) as [o|]; [|by left].
  destruct mode; [done|]. intros [= <-]. by right.
Qed.
Lemma total_moves c ev k :
  acc_add (value k (totalTier (exec c ev))) (value k (out_of (movedBy (c_attr c) (nextOwner c ev) (c_state c)))) =
  acc_add (value k (match traffic c ev with
                    | Some (key, v) => credit (totalKey (tenantKey (c_attr c key) key)) v (totalTier c)
                    | None => totalTier c
                    end)) (value k (into (movedBy (c_attr c) (nextOwner c ev) (c_state c)))).
Proof.
  destruct (traffic c ev) as [[key v]|] eqn:E.
  - assert (nextOwner c ev = c_attr c) as -> by (by destruct ev). rw movedBy_same.
    apply traffic_counted in E as [Hc Ha]. by rw /totalTier Ha (counted_total _ _ _ _ _ Hc).
  - destruct c as [attr g], ev; rw /totalTier; simpl; try done.
    + apply settle_moves.
    + by rw movedBy_same PruneTenant_total.
    + destruct (PruneServer_frame alive g) as (E1 & E2 & E3).
      by rw movedBy_same /exposedTotal /exposedTenant E1 E2 E3.
    + apply reattribute_moves.
Qed.
Lemma total_moves_all evs c L k i o :
  acc_add (value k (totalTier c)) o = acc_add (value k L) i →
  acc_add (value k (totalTier (run c evs))) (acc_add o (value k (out_of (moved c evs)))) =
  acc_add (value k (ledger totalBucket c evs L)) (acc_add i (value k (into (moved c evs)))).
Proof.
  induction evs as [|ev evs IH] in c, L, i, o |- *; intros H0.
  { by rw !(assoc_L acc_add) H0. }
  cbn [moved ledger]. change (run c (ev :: evs)) with (run (exec c ev) evs).
  rw value_out_app value_into_app (assoc_L acc_add o) (assoc_L acc_add i). apply IH.
  rw (comm_L acc_add o) (assoc_L acc_add) total_moves.
  destruct (traffic c ev) as [[key v]|]; last by rw acc_swap H0 -(assoc_L acc_add).
  rw /totalBucket.
  destruct (decide (totalKey (tenantKey (c_attr c key) key) = k)) as [->|Hne].
  - by rw !value_credit acc_swap (acc_swap _ v) H0 (acc_swap (value _ L) i) -(assoc_L acc_add).
  - by rw !value_credit_ne // acc_swap H0 -(assoc_L acc_add).
Qed.

Lemma moved_series evs c f t v : (f, t, v) ∈ moved c evs →
  f ≠ t ∧ TT_Zone f = TT_Zone t ∧ TT_Dir f = TT_Dir t.
Proof.
  induction evs as [|ev evs IH] in c |- *; simpl; [by intros ?%elem_of_nil|].
  intros [Hin|?]%elem_of_app; [|by eapply IH].
  apply list_elem_of_bind in Hin as ([key row] & Hin & _). rw /movedRow in Hin. case_decide; [by apply elem_of_nil in Hin|].
  by apply list_elem_of_singleton in Hin as [= -> -> _].
Qed.
Lemma moved_valid evs c f t v : valid c evs → (f, t, v) ∈ moved c evs → v = acc_zero.
Proof.
  induction evs as [|ev evs IH] in c |- *; simpl; [by intros _ ?%elem_of_nil|].
  intros [Ha Hv] [Hin|?]%elem_of_app; [|by eapply IH].
  apply list_elem_of_bind in Hin as ([key row] & Hin & Hrow%elem_of_map_to_list).
  rw /movedRow /= in Hin. case_decide as Hne; [by apply elem_of_nil in Hin|].
  apply list_elem_of_singleton in Hin as [= _ _ ->].
  destruct ev; simpl in Ha, Hne; try done.
  - destruct (resolve key) as [o|] eqn:E; [|done]. by rw (Ha _ _ E) in Hne.
  - destruct (Ha _ _ Hrow) as [E|E]; [|done]. by rw E in Hne.
Qed.

(** C1: the total tier is a ledger.  Take any sequence at all of scrapes, late
    bindings, folds, prunes and metadata changes.  A (external network, zone,
    direction) series shows exactly the traffic counted under it when it was
    counted, plus what was moved into it, less what was moved out (as 64-bit sums);
    what is moved is what a live row has counted since it was last folded, at the
    event that changes the row's owner, or folds it under another, so that its
    external network changes; a move keeps the zone and the direction, and what it
    takes from one series it gives to the other: folding rows and releasing the
    buckets of dead projects neither lose nor move a byte.  In a history in which
    every fold resolves its rows to the owner they are exposed under, and an owner
    only changes on rows that hold nothing since their fold, the way the reconciler
    settles before it relabels ([valid]), nothing is moved: each series shows exactly
    the traffic counted under it. *)
Theorem total_tier_ledger evs c :
  (∀ k, acc_add (value k (totalTier (run c evs))) (value k (out_of (moved c evs))) =
        acc_add (value k (ledger totalBucket c evs (totalTier c))) (value k (into (moved c evs)))) ∧
  (∀ f t v, (f, t, v) ∈ moved c evs → f ≠ t ∧ TT_Zone f = TT_Zone t ∧ TT_Dir f = TT_Dir t) ∧
  (valid c evs → (∀ f t v, (f, t, v) ∈ moved c evs → v = acc_zero) ∧
     ∀ k, value k (totalTier (run c evs)) = value k (ledger totalBucket c evs (totalTier c))).
Proof.
  split_and!.
  - intros k. pose proof (total_moves_all evs c (totalTier c) k acc_zero acc_zero eq_refl) as E.
    rw (comm_L acc_add acc_zero (value k (out_of _))) (comm_L acc_add acc_zero (value k (into _))) in E.
    by rw (idle_tally _ k : idle (value k (out_of _))) (idle_tally _ k : idle (value k (into _))) in E.
  - apply moved_series.
  - intros Hv. split; [intros f t v; by eapply moved_valid|]. intros k. by apply total_ledger.
Qed.

(** a project's series is a ledger too, as long as every prune spares the
    project: deleting ports or servers and re-attributing rows never changes
    what the project's series has already shown. *)
Theorem tenant_tier_ledger evs c k :
  valid c evs → Forall (spares_tenant k) evs →
  value k (tenantTier (run c evs)) = value k (ledger tenantBucket c evs (tenantTier c)).
Proof.
  intros Hv Hs. apply (ledger_value tenantTier tenantBucket k (spares_tenant k)); try done.
  - intros c' ev key v [Hc Ha]%traffic_counted.
    by rw /tenantTier Ha (counted_tenant _ _ _ _ _ Hc).
  - apply tenant_silent.
Qed.

(** a server's series is a ledger for as long as the server is in every
    alive list: folding a port's rows away neither drops nor repeats a byte. *)
Theorem server_tier_ledger evs c k :
  valid c evs → Forall (spares_server k) evs →
  value k (serverTier (run c evs)) = value k (ledger serverBucket c evs (serverTier c)).
Proof.
  intros Hv Hs. apply (ledger_value serverTier serverBucket k (spares_server k)); try done.
  - intros c' ev key v [Hc Ha]%traffic_counted.
    rw /serverTier Ha (counted_server _ _ _ _ _ Hc) /serverBucket. by case_decide.
  - apply server_silent.
Qed.
End tiers.

(** ** Series never decrease *)

Definition settled_ok (v : settledTotal) : Prop := u64_range (bytes v) ∧ u64_range (packets v).
Definition event_ok (ev : event) : Prop :=
  match ev with
  | EApply _ m | EAdd _ m | EResolve _ m _ => metrics_ok m
  | _ => True
  end.

Lemma guardDelta_range l x : u64_range x → u64_range (guardDelta l x).
Proof. rw /guardDelta. case_decide; [intros _; apply u64_in_range|done]. Qed.
Lemma rowDelta_ok o raw : metrics_ok raw → settled_ok (rowDelta o raw).
Proof.
  intros (H1 & H2 & _ & _). destruct o as [c|]; simpl; last done.
  case_decide; first done. split; by apply guardDelta_range.
Qed.
Lemma idle_settled_ok v : idle v → settled_ok v.
Proof. intros <-. split; apply u64_in_range. Qed.

Section monotone.
Context `{GoRange} `{Countable K}.
Variable bucket : Owner → FlowKey → option K.
Variable k : K.

(** The traffic credited to bucket [k], as unbounded sums. *)
Fixpoint traffic_sum (c : config) (evs : list event) : Z * Z :=
  match evs with
  | [] => (0, 0)
  | ev :: evs =>
      pair_add (match traffic c ev with
                | Some (key, v) =>
                    if decide (bucket (c_attr c key) key = Some k)
                    then (bytes v, packets v) else (0, 0)
                | None => (0, 0)
                end) (traffic_sum (exec c ev) evs)
  end.

Lemma traffic_sum_nonneg evs c :
  Forall event_ok evs → 0 ≤ (traffic_sum c evs).1 ∧ 0 ≤ (traffic_sum c evs).2.
Proof.
  induction evs as [|ev evs IH] in c |- *; simpl; first done.
  intros [Hev Hevs]%Forall_cons. specialize (IH (exec c ev) Hevs).
  destruct (traffic c ev) as [[key v]|] eqn:E; simpl; last lia.
  assert (settled_ok v) as [Hb Hp].
  { destruct c as [attr g], ev; simplify_eq/=; first by apply rowDelta_ok.
    all: by destruct Hev as (? & ? & _). }
  rw /u64_range in Hb Hp. case_decide; simpl; lia.
Qed.
Lemma traffic_sum_app evs1 evs2 c :
  traffic_sum c (evs1 ++ evs2) = pair_add (traffic_sum c evs1) (traffic_sum (run c evs1) evs2).
Proof.
  induction evs1 as [|ev evs1 IH] in c |- *; simpl.
  - rw /pair_add /=. by destruct (traffic_sum c evs2).
  - rw IH /pair_add /=. f_equal; lia.
Qed.

Definition of_pair (p : Z * Z) : settledTotal := mkSettled (u64 p.1) (u64 p.2).
Lemma of_pair_add v p q :
  acc_add (acc_add v (of_pair p)) (of_pair q) = acc_add v (of_pair (pair_add p q)).
Proof. rw /acc_add /= /settled_add /of_pair /pair_add /=. f_equal; u64_solve. Qed.
Lemma of_pair_value v w : acc_add v w = acc_add v (of_pair (bytes w, packets w)).
Proof. rw /acc_add /= /settled_add /of_pair /=. f_equal; u64_solve. Qed.

Lemma ledger_sum evs c L :
  idle (value k L) →
  value k (ledger bucket c evs L) = acc_add (value k L) (of_pair (traffic_sum c evs)).
Proof.
  induction evs as [|ev evs IH] in c, L |- *; simpl; first (intros HL; symmetry; exact HL).
  intros HL. destruct (traffic c ev) as [[key v]|] eqn:E; simpl; last first.
  { by rw IH. }
  destruct (bucket (c_attr c key) key) as [b|] eqn:Eb; last first.
  { by rw IH. }
  destruct (decide (b = k)) as [->|Hne].
  - rw decide_True // IH value_credit; first apply idle_add.
    by rw (of_pair_value _ v) of_pair_add.
  - rw decide_False; first congruence. by rw IH value_credit_ne.
Qed.

(** With the whole traffic of the bucket below 2^64, the ledger's prefixes
    are ordered. *)
Lemma ledger_le evs1 evs2 c L :
  idle (value k L) → Forall event_ok (evs1 ++ evs2) →
  bytes (value k L) + (traffic_sum c (evs1 ++ evs2)).1 < 2 ^ 64 →
  packets (value k L) + (traffic_sum c (evs1 ++ evs2)).2 < 2 ^ 64 →
  bytes (value k (ledger bucket c evs1 L)) ≤ bytes (value k (ledger bucket c (evs1 ++ evs2) L)) ∧
  packets (value k (ledger bucket c evs1 L)) ≤ packets (value k (ledger bucket c (evs1 ++ evs2) L)).
Proof.
  intros HL [Hok1 Hok2]%Forall_app. rw !ledger_sum // traffic_sum_app /=.
  destruct (idle_settled_ok _ HL) as [Hb Hp]. rw /u64_range in Hb Hp.
  pose proof (traffic_sum_nonneg evs1 c Hok1). pose proof (traffic_sum_nonneg evs2 (run c evs1) Hok2).
  intros Hs1 Hs2. rw /u64_add !(u64_id (_.1)) ?(u64_id (_.2)) /pair_add /= /u64_range; try lia.
  rw !u64_id /u64_range; lia.
Qed.
End monotone.

Section never_decrease.
Context `{GoRange}.

Lemma run_app c evs1 evs2 : run c (evs1 ++ evs2) = run (run c evs1) evs2.
Proof. apply foldl_app. Qed.
Lemma valid_app c evs1 evs2 : valid c (evs1 ++ evs2) → valid c evs1.
Proof.
  induction evs1 as [|ev evs1 IH] in c |- *; simpl; first done.
  intros [? ?]. split; [done|by apply IH].
Qed.

(** C31: a total series never decreases: over any history, and across any
    folds, prunes and re-attributions in it, until the 64-bit counter itself
    is exhausted. *)
Theorem total_tier_never_decreases evs1 evs2 c k :
  valid c (evs1 ++ evs2) → Forall event_ok (evs1 ++ evs2) →
  bytes (value k (totalTier c)) + (traffic_sum totalBucket k c (evs1 ++ evs2)).1 < 2 ^ 64 →
  packets (value k (totalTier c)) + (traffic_sum totalBucket k c (evs1 ++ evs2)).2 < 2 ^ 64 →
  bytes (value k (totalTier (run c evs1))) ≤ bytes (value k (totalTier (run c (evs1 ++ evs2)))) ∧
  packets (value k (totalTier (run c evs1))) ≤ packets (value k (totalTier (run c (evs1 ++ evs2)))).
Proof.
  intros Hv Hok H1 H2. rw !total_ledger //; first by eapply valid_app.
  apply ledger_le => //. apply idle_tally.
Qed.
End never_decrease.

(** ** Quiet histories: changes that count no traffic and spare the series of
    the projects [T] and the servers [S] *)

Section quiet.
Context `{GoRange}.
Variables T S : string → Prop.

Definition spares (ev : event) : Prop :=
  match ev with
  | EPruneTenant alive => ∀ x, T x → x ∈ alive
  | EPruneServer alive => ∀ x, S x → x ∈ alive
  | EApply _ _ | EAdd _ _ | EResolve _ _ _ => False
  | ESettle _ _ | EReattribute _ => True
  end.
Definition quiet (c c' : config) : Prop :=
  ∃ evs, valid c evs ∧ run c evs = c' ∧ Forall spares evs.

#[export] Instance quiet_preorder : PreOrder quiet.
Proof.
  split; [by intros c; exists []|].
  intros c1 c2 c3 (e1 & Hv1 & <- & Hq1) (e2 & Hv2 & <- & Hq2).
  exists (e1 ++ e2). split; [|split; [apply run_app|by apply Forall_app]].
  clear Hq1 Hq2. induction e1 as [|ev e1 IH] in c1, Hv1, Hv2 |- *; first done.
  destruct Hv1 as [Ha Hv1]. split; first done. by apply IH.
Qed.
Lemma quiet_step c ev : allowed c ev → spares ev → quiet c (exec c ev).
Proof. intros Ha Ht. exists [ev]. split; [by split|]. split; [done|by apply Forall_singleton]. Qed.

Lemma spares_silent ev c : spares ev → traffic c ev = None.
Proof. by destruct ev. Qed.
Lemma quiet_tier `{Countable K} (tier : config → gmap K settledTotal) k :
  (∀ c ev, allowed c ev → spares ev → value k (tier (exec c ev)) = value k (tier c)) →
  ∀ c c', quiet c c' → value k (tier c') = value k (tier c).
Proof.
  intros Hs c c' (evs & Hv & <- & Hq). induction evs as [|ev evs IH] in c, Hv, Hq |- *; first done.
  destruct Hv as [Ha Hv]. apply Forall_cons in Hq as [Ht Hq].
  etrans; [by apply IH|by apply Hs].
Qed.
(** The totals cannot change at all; only a prune can end another series. *)
Lemma quiet_total c c' : quiet c c' → same_values (totalTier c') (totalTier c).
Proof.
  intros Hq k. refine (quiet_tier totalTier k _ c c' Hq).
  intros. by apply total_silent; [apply spares_silent|].
Qed.
Lemma quiet_tenant c c' k : quiet c c' → T (TS_Tenant k) →
  value k (tenantTier c') = value k (tenantTier c).
Proof.
  intros Hq Hk. refine (quiet_tier tenantTier k _ c c' Hq).
  intros d ev Ha Hs. apply tenant_silent; [by apply spares_silent|done|].
  destruct ev; try done. by apply Hs.
Qed.
Lemma quiet_server c c' k : quiet c c' → S (SS_ServerID k) →
  value k (serverTier c') = value k (serverTier c).
Proof.
  intros Hq Hk. refine (quiet_tier serverTier k _ c c' Hq).
  intros d ev Ha Hs. apply server_silent; [by apply spares_silent|done|].
  destruct ev; try done. by apply Hs.
Qed.
End quiet.

(** ** Concrete histories *)

Module StateExamples.
Definition macA : MacAddr := mkMac 250 22 62 0 0 1.
Definition macB : MacAddr := mkMac 250 22 62 0 0 2.
Definition flowA : FlowKey := mkFlowKey macA macB 2048 DirectionIngress ZoneExternal L4ProtoTCP 0.
Definition flowB : FlowKey := mkFlowKey macA macB 2048 DirectionIngress ZoneExternal L4ProtoUDP 0.
Definition alice : Owner := mkOwner "alice" "public" "srv-1".
Definition bob : Owner := mkOwner "bob" "public" "srv-2".
Definition start : config := mkConfig (λ _, alice) New.
Definition only (k : FlowKey) (o : Owner) : FlowKey → option Owner :=
  λ k', if decide (k' = k) then Some o else None.
Definition metered (b p t c : Z) : FlowMetrics := mkFlowMetrics b p t c.

(** Two scrapes with a re-created entry in between, a fold of one row, a
    transfer of its port to another project, more traffic, and the first
    project's deletion. *)
Definition transfer : FlowKey → Owner := λ k, if decide (k = flowA) then bob else alice.
Definition busy_day : list event :=
  [EApply flowA (metered 1000 10 5 1); EApply flowB (metered 70 7 5 2);
   EApply flowA (metered 300 3 9 8); ESettle SettleRebase (only flowA alice);
   EReattribute transfer; EApply flowA (metered 350 4 12 8);
   EPruneTenant {["bob"; "unknown"]}; EPruneServer {["srv-1"; "srv-2"]}].

Definition key_total : TotalSettledKey := mkTotalSettledKey "public" ZoneExternal DirectionIngress.
Definition key_bob : TenantSettledKey :=
  mkTenantSettledKey "bob" "public" ZoneExternal DirectionIngress.
Definition key_srv : ServerSettledKey :=
  mkServerSettledKey "srv-1" "alice" "public" ZoneExternal DirectionIngress.

#[local] Existing Instance list_range.

Lemma busy_day_valid : valid start busy_day.
Proof.
  repeat split.
  - intros k o. rw /only. case_decide; by intros [= <-].
  - intros k row Hk. apply (map_Forall_lookup_1
      (λ k row, transfer k = alice ∨ total_of row = acc_zero) _ k row) in Hk; first done.
    by apply (bool_decide_unpack _); vm_compute.
Qed.

(** A day on which the flow's project is moved behind another network with its row
    unsettled: what the row holds changes series, here 300 bytes in 3 packets. *)
Definition behind_backup : FlowKey → Owner := λ _, mkOwner "alice" "backup" "srv-1".
Definition careless_day : list event :=
  [EApply flowA (metered 1000 10 5 1); ESettle SettleRebase (only flowA alice);
   EApply flowA (metered 1300 13 9 1); EReattribute behind_backup].
Definition key_backup : TotalSettledKey := mkTotalSettledKey "backup" ZoneExternal DirectionIngress.
Example careless_moves : moved start careless_day = [(key_total, key_backup, mkSettled 300 3)].
Proof. by vm_compute. Qed.

Lemma total_tier_ledger_witness :
  valid start busy_day ∧
  value key_total (totalTier (run start busy_day)) = mkSettled 1420 21 ∧
  acc_add (value key_total (totalTier (run start careless_day))) (mkSettled 300 3) = mkSettled 1300 13.
Proof.
  split; [exact busy_day_valid|]. split.
  - destruct (total_tier_ledger busy_day start) as (_ & _ & H). rw (proj2 (H busy_day_valid) key_total).
    by vm_compute.
  - destruct (total_tier_ledger careless_day start) as (H & _ & _).
    exact (H key_total).
Defined.

Lemma tenant_tier_ledger_witness :
  value key_bob (tenantTier (run start busy_day)) = mkSettled 50 1.
Proof.
  rw (tenant_tier_ledger busy_day start key_bob busy_day_valid); last by vm_compute.
  repeat constructor; set_solver.
Defined.

Lemma server_tier_ledger_witness :
  value key_srv (serverTier (run start busy_day)) = mkSettled 1370 20.
Proof.
  rw (server_tier_ledger busy_day start key_srv busy_day_valid); last by vm_compute.
  repeat constructor; set_solver.
Defined.

Lemma total_tier_never_decreases_witness :
  bytes (value key_total (totalTier (run start (take 3 busy_day)))) ≤
  bytes (value key_total (totalTier (run start (take 3 busy_day ++ drop 3 busy_day)))).
Proof.
  refine (proj1 (total_tier_never_decreases (take 3 busy_day) (drop 3 busy_day) start key_total _ _ _ _)).
  - rw take_drop. apply busy_day_valid.
  - rw take_drop. repeat constructor; by vm_compute.
  - by vm_compute.
  - by vm_compute.
Defined.
End StateExamples.
