(* ===== verification/FlowLife.v ===== *)
(** * One flow, from the packet to the counter

    The kernel entry of a flow as handle_packet of bpf/telemetry.c maintains
    it, drained into the row by [ApplyDelta]; the row is compared with what
    the kernel really counted. *)
From S2P Require Import Prelude Bpf State.

(** ** Ground truth

    One flow's life: the kernel counts packets into the flow's map entry (as
    [handle_packet] of bpf/telemetry.c does), the entry may be destroyed, and
    the scraper drains it into the row.  [entry_counted] is everything the
    kernel ever counted for the flow, [entry_lost] what was destroyed before a
    drain saw it and [entry_pending] what the next drain will see. *)
Inductive kernel_event := KPacket (len now : Z) | KDestroy | KDrain.

Definition kernelCount (len now : Z) (entry : option FlowMetrics) : FlowMetrics :=
  match entry with
  | Some e => mkFlowMetrics (Bytes e +ᵤ len) (Packets e +ᵤ 1) now (CreatedNs e)
  | None => mkFlowMetrics len 1 now now
  end.

Record life := mkLife {
  entry : option FlowMetrics;
  entry_state : GlobalState;
  entry_clock : Z;
  entry_counted : Z * Z; entry_pending : Z * Z; entry_lost : Z * Z }.

Definition live_step (key : FlowKey) (s : life) (ev : kernel_event) : life :=
  let '(mkLife e g clk cnt pend lost) := s in
  match ev with
  | KPacket len now =>
      mkLife (Some (kernelCount len now e)) g now
        (pair_add cnt (len, 1)) (pair_add pend (len, 1)) lost
  | KDestroy => mkLife None g clk cnt (0, 0) (pair_add lost pend)
  | KDrain =>
      match e with
      | None => s
      | Some raw => mkLife e (ApplyDelta key raw g) clk cnt (0, 0) lost
      end
  end.
Definition live_run (key : FlowKey) (s : life) (evs : list kernel_event) : life :=
  foldl (live_step key) s evs.

(** The kernel's clock is positive and strictly increasing. *)
Fixpoint clocked (clk : Z) (evs : list kernel_event) : Prop :=
  match evs with
  | [] => True
  | KPacket len now :: evs => 0 ≤ len ∧ clk < now ∧ clocked now evs
  | _ :: evs => clocked clk evs
  end.

Definition row_total (key : FlowKey) (g : GlobalState) : Z * Z :=
  match counts g !! key with
  | None => (0, 0) | Some c => (Bytes (Total c), Packets (Total c)) end.

Section ground_truth.
Variable key : FlowKey.

(** What the baseline of the row says about the kernel entry, for bytes and
    for packets alike. *)
Definition baseline_ok (proj : FlowMetrics → Z) (raw last : FlowMetrics) (pend : Z) : Prop :=
  if decide (CreatedNs raw = CreatedNs last)
  then 0 ≤ proj last ∧ proj raw = proj last + pend else proj raw = pend.

Definition life_ok (s : life) : Prop :=
  let '(mkLife e g clk cnt pend lost) := s in
  0 ≤ clk ∧ 0 ≤ pend.1 ∧ 0 ≤ pend.2 ∧ 0 ≤ lost.1 ∧ 0 ≤ lost.2 ∧
  pair_add (row_total key g) (pair_add pend lost) = cnt ∧
  0 ≤ (row_total key g).1 ∧ 0 ≤ (row_total key g).2 ∧
  (∀ c, counts g !! key = Some c → 0 < CreatedNs (LastEbpfRaw c) ≤ clk) ∧
  match e with
  | None => pend = (0, 0)
  | Some raw =>
      0 < CreatedNs raw ≤ clk ∧
      match counts g !! key with
      | None => Bytes raw = pend.1 ∧ Packets raw = pend.2
      | Some c => Bytes raw ≤ cnt.1 ∧ Packets raw ≤ cnt.2 ∧
          baseline_ok Bytes raw (LastEbpfRaw c) pend.1 ∧
          baseline_ok Packets raw (LastEbpfRaw c) pend.2
      end
  end.

Lemma rowDelta_pending c raw pend :
  0 < CreatedNs (LastEbpfRaw c) → 0 ≤ pend.1 → 0 ≤ pend.2 →
  Bytes raw < 2 ^ 64 → Packets raw < 2 ^ 64 →
  baseline_ok Bytes raw (LastEbpfRaw c) pend.1 →
  baseline_ok Packets raw (LastEbpfRaw c) pend.2 →
  rowDelta (Some c) raw = mkSettled pend.1 pend.2.
Proof.
  rw /rowDelta /baseline_ok /guardDelta => Hc Hp1 Hp2 Hr1 Hr2.
  destruct (decide (CreatedNs raw = _)) as [E|E].
  - intros [? E1] [? E2]. rw decide_False; first lia.
    rw !decide_True; [lia|lia|]. rw E1 E2 /u64_sub !u64_id /u64_range; f_equal; lia.
  - intros E1 E2. rw decide_True; first lia. by rw /of_metrics E1 E2.
Qed.

Lemma baseline_nonneg proj raw last pend :
  0 ≤ pend → baseline_ok proj raw last pend → 0 ≤ proj raw.
Proof. rw /baseline_ok. case_decide; lia. Qed.
Lemma baseline_packet proj raw raw' last pend n :
  CreatedNs raw' = CreatedNs raw → proj raw' = proj raw + n →
  baseline_ok proj raw last pend → baseline_ok proj raw' last (pend + n).
Proof. rw /baseline_ok => -> ->. case_decide; lia. Qed.

Lemma packet_ok s len now :
  life_ok s → 0 ≤ len → entry_clock s < now →
  (entry_counted s).1 + len < 2 ^ 64 → (entry_counted s).2 + 1 < 2 ^ 64 →
  life_ok (live_step key s (KPacket len now)).
Proof.
  destruct s as [e g clk [c1 c2] [p1 p2] [l1 l2]].
  rw /life_ok /pair_add /=. destruct (row_total key g) as [t1 t2] eqn:Et; simpl.
  intros (Hclk & Hp1 & Hp2 & Hl1 & Hl2 & [= Hc1 Hc2] & Ht1 & Ht2 & Hlast & He) Hlen Hnow Hb Hp.
  repeat match goal with |- _ ∧ _ => split end; try lia.
  all: try by (intros c Hc; specialize (Hlast c Hc); lia).
  { rw /pair_add /=. f_equal; lia. }
  all: destruct e as [raw|]; simpl; [destruct He as [Hcr He]|simplify_eq]; try lia.
  all: rw /row_total in Et.
  - destruct (counts g !! key) as [c|]; simplify_eq/=.
    + destruct He as (Hr1 & Hr2 & B1 & B2).
      pose proof (baseline_nonneg _ _ _ _ Hp1 B1). pose proof (baseline_nonneg _ _ _ _ Hp2 B2).
      rw !u64_add_small /u64_range; try lia. split_and!; try lia.
      * eapply baseline_packet; last exact B1; by rw /= ?u64_add_small /u64_range; try lia.
      * eapply baseline_packet; last exact B2; by rw /= ?u64_add_small /u64_range; try lia.
    + destruct He. rw !u64_add_small /u64_range; lia.
  - destruct (counts g !! key) as [c|] eqn:E; simplify_eq/=; last lia.
    specialize (Hlast c eq_refl). rw /baseline_ok !decide_False /=; lia.
Qed.

Lemma drain_row g raw pend :
  (∀ c, counts g !! key = Some c → 0 < CreatedNs (LastEbpfRaw c)) →
  0 ≤ pend.1 → 0 ≤ pend.2 → 0 ≤ (row_total key g).1 → 0 ≤ (row_total key g).2 →
  (row_total key g).1 + pend.1 < 2 ^ 64 → (row_total key g).2 + pend.2 < 2 ^ 64 →
  Bytes raw < 2 ^ 64 → Packets raw < 2 ^ 64 →
  match counts g !! key with
  | None => Bytes raw = pend.1 ∧ Packets raw = pend.2
  | Some c => baseline_ok Bytes raw (LastEbpfRaw c) pend.1 ∧
              baseline_ok Packets raw (LastEbpfRaw c) pend.2
  end →
  row_total key (ApplyDelta key raw g) = pair_add (row_total key g) pend.
Proof.
  rw /row_total /ApplyDelta /= lookup_insert_eq.
  destruct (counts g !! key) as [c|]; simpl; intros Hlast Hp1 Hp2 Ht1 Ht2 Hs1 Hs2 Hr1 Hr2.
  - intros [B1 B2]. pose proof (applyDeltaRow_total c raw) as T.
    rw (rowDelta_pending _ _ pend) // in T; first by apply Hlast.
    injection T as -> ->. by rw /= !u64_add_small /u64_range; try lia.
  - intros [-> ->]. by destruct pend.
Qed.

Lemma drain_ok s :
  life_ok s → (entry_counted s).1 < 2 ^ 64 → (entry_counted s).2 < 2 ^ 64 →
  life_ok (live_step key s KDrain).
Proof.
  destruct s as [e g clk [c1 c2] [p1 p2] [l1 l2]]; simpl.
  destruct e as [raw|]; last done.
  rw /life_ok. intros (Hclk & Hp1 & Hp2 & Hl1 & Hl2 & [= Hc1 Hc2] & Ht1 & Ht2 & Hlast & Hcr & He) Hb Hp.
  simpl in *.
  assert (Bytes raw ≤ c1 ∧ Packets raw ≤ c2 ∧ 0 ≤ Bytes raw ∧ 0 ≤ Packets raw) as (? & ? & ? & ?).
  { destruct (counts g !! key) eqn:E; last first.
    { rw /row_total E /= in Hc1 Hc2. lia. }
    destruct He as (? & ? & B1 & B2).
    pose proof (baseline_nonneg _ _ _ _ Hp1 B1). pose proof (baseline_nonneg _ _ _ _ Hp2 B2). lia. }
  rw (drain_row g raw (p1, p2)) /=; try lia.
  { intros c Hc. specialize (Hlast c Hc). lia. }
  { by destruct (counts g !! key); naive_solver. }
  split_and!; try lia.
  - rw /pair_add /=. f_equal; lia.
  - rw lookup_insert_eq. intros c [= <-].
    destruct (counts g !! key); rw ?applyDeltaRow_last; simpl; lia.
  - rw lookup_insert_eq. destruct (counts g !! key);
      rw ?applyDeltaRow_last /baseline_ok /= !decide_True; lia.
Qed.

Lemma clocked_step s ev evs :
  clocked (entry_clock s) (ev :: evs) → clocked (entry_clock (live_step key s ev)) evs.
Proof. destruct s as [[] ? ? ? ? ?], ev; simpl; tauto. Qed.
Lemma counted_step s ev evs :
  clocked (entry_clock s) (ev :: evs) →
  (entry_counted s).1 ≤ (entry_counted (live_step key s ev)).1 ∧
  (entry_counted s).2 ≤ (entry_counted (live_step key s ev)).2.
Proof. destruct s as [[] ? ? [] ? ?], ev; rw /pair_add /=; lia. Qed.
Lemma counted_run evs s :
  clocked (entry_clock s) evs →
  (entry_counted s).1 ≤ (entry_counted (live_run key s evs)).1 ∧
  (entry_counted s).2 ≤ (entry_counted (live_run key s evs)).2.
Proof.
  induction evs as [|ev evs IH] in s |- *; first (simpl; lia).
  intros Hc. pose proof (counted_step _ _ _ Hc). apply clocked_step, IH in Hc.
  rw /live_run /= in Hc *. lia.
Qed.

Lemma live_step_ok s ev evs :
  life_ok s → clocked (entry_clock s) (ev :: evs) →
  (entry_counted (live_step key s ev)).1 < 2 ^ 64 →
  (entry_counted (live_step key s ev)).2 < 2 ^ 64 →
  life_ok (live_step key s ev).
Proof.
  intros Hs Hc H1 H2. destruct ev as [len now| |].
  - destruct Hc as (? & ? & _). apply packet_ok => //; by destruct s.
  - destruct s as [e g clk [] [] []]. rw /life_ok /pair_add /= in Hs *.
    destruct Hs as (? & ? & ? & ? & ? & [= ? ?] & ? & ? & ? & _).
    split_and! => //; try lia. f_equal; lia.
  - apply drain_ok => //; by destruct s as [[] ? ? ? ? ?].
Qed.

Lemma live_run_ok evs s :
  life_ok s → clocked (entry_clock s) evs →
  (entry_counted (live_run key s evs)).1 < 2 ^ 64 →
  (entry_counted (live_run key s evs)).2 < 2 ^ 64 →
  life_ok (live_run key s evs).
Proof.
  induction evs as [|ev evs IH] in s |- *; first done.
  intros Hs Hc H1 H2. rw /live_run /= in H1 H2 *.
  pose proof (counted_run _ _ (clocked_step _ _ _ Hc)) as [M1 M2]. rw /live_run in M1 M2.
  apply IH; [eapply live_step_ok; [done|done|lia|lia]|by apply clocked_step|done|done].
Qed.

(** C13: the row of a flow holds exactly what the kernel counted for it, less
    what is still waiting for the next drain and what was destroyed before
    any drain: a re-created kernel entry is recognised by its creation stamp,
    whatever the magnitude of its counters, so nothing is counted twice or
    skipped. *)
Theorem drained_row_exact evs g :
  counts g !! key = None → clocked 0 evs →
  let s := live_run key (mkLife None g 0 (0, 0) (0, 0) (0, 0)) evs in
  (entry_counted s).1 < 2 ^ 64 → (entry_counted s).2 < 2 ^ 64 →
  pair_add (row_total key (entry_state s)) (pair_add (entry_pending s) (entry_lost s)) =
  entry_counted s.
Proof.
  intros Hk Hc s H1 H2.
  assert (life_ok s) as Hs.
  { apply live_run_ok => //. rw /life_ok /row_total Hk /=. by split_and!. }
  destruct s as [? ? ? ? ? ?]. by destruct Hs as (_ & _ & _ & _ & _ & E & _).
Qed.
End ground_truth.

Module FlowLifeExamples.
Definition flow : FlowKey :=
  mkFlowKey (mkMac 250 22 62 0 0 1) (mkMac 250 22 62 0 0 2) 2048 DirectionIngress ZoneExternal L4ProtoTCP 0.
(** A flow whose entry is destroyed and re-created between two drains, its
    counter overtaking the old baseline. *)
Definition flap : list kernel_event :=
  [KPacket 1000 3; KDrain; KPacket 50 4; KDestroy; KPacket 600 7; KPacket 700 8; KDrain; KPacket 9 11].
Lemma drained_row_exact_witness :
  pair_add (row_total flow (entry_state (live_run flow (mkLife None New 0 (0, 0) (0, 0) (0, 0)) flap)))
    (9 + 50, 2) = (1000 + 50 + 600 + 700 + 9, 5).
Proof. by apply (drained_row_exact flow flap New); vm_compute. Defined.
End FlowLifeExamples.
