(* ===== verification/Metadata.v ===== *)
(** * The userspace metadata (internal/metadata)

    MAC to tenant metadata in 64 shards, the router-interface map, the
    attribution of a flow from both, and the interning of project ids.  Other
    components see the sharded store through the interface [MetaStore]. *)
From S2P Require Import Prelude Bpf State.

(** ** Data (schema.go) *)

(** [DeleteAt] is in nanoseconds; 0 is the zero time. *)
Record TenantMeta := mkMeta {
  ProjectID : string; ServerID : string; PortID : string; ExternalNetwork : string;
  IsAmphora : bool; DeleteAt : Z }.
#[export] Instance TenantMeta_eq_dec : EqDecision TenantMeta.
Proof. solve_decision. Defined.

Definition withDeleteAt (m : TenantMeta) (at_ : Z) : TenantMeta :=
  mkMeta (ProjectID m) (ServerID m) (PortID m) (ExternalNetwork m) (IsAmphora m) at_.

Definition SameAttribution (m o : TenantMeta) : bool :=
  bool_decide (withDeleteAt m 0 = withDeleteAt o 0).

Definition numShards : Z := 64.
Definition TenantIDUnset : Z := 0.
Definition UnknownTenantID : string := "unknown".
Definition NoExternalNetwork : string := "none".

Record Attribution := mkAttribution {
  At_Tenant : string; At_ServerID : string; At_PortID : string; At_ExternalNetwork : string }.
#[export] Instance Attribution_eq_dec : EqDecision Attribution.
Proof. solve_decision. Defined.

(** ** The interface of the store

    [ms_view] is the abstract map a store stands for. *)
Class MetaStore (M : Type) := {
  ms_new : M;
  ms_Lookup : Z → M → option TenantMeta;
  ms_Insert : Z → TenantMeta → M → M;
  ms_Delete : Z → M → M;
  ms_MarkDelete : Z → Z → M → M * bool;
  ms_Len : M → Z;
  ms_Range : M → list (Z * TenantMeta);
  ms_ok : M → Prop;
  ms_view : M → gmap Z TenantMeta;
  ms_new_ok : ms_ok ms_new ∧ ms_view ms_new = ∅;
  ms_Lookup_view m mac : ms_ok m → ms_Lookup mac m = ms_view m !! mac;
  ms_Insert_view m mac v : ms_ok m →
    ms_ok (ms_Insert mac v m) ∧ ms_view (ms_Insert mac v m) = <[mac := v]> (ms_view m);
  ms_Delete_view m mac : ms_ok m →
    ms_ok (ms_Delete mac m) ∧ ms_view (ms_Delete mac m) = delete mac (ms_view m);
  ms_MarkDelete_view m mac at_ : ms_ok m →
    ms_ok (ms_MarkDelete mac at_ m).1 ∧
    ms_view (ms_MarkDelete mac at_ m).1 = alter (λ v, withDeleteAt v at_) mac (ms_view m) ∧
    (ms_MarkDelete mac at_ m).2 = bool_decide (is_Some (ms_view m !! mac));
  ms_Len_view m : ms_ok m → ms_Len m = Z.of_nat (size (ms_view m));
  ms_Range_view m : ms_ok m → ms_Range m ≡ₚ map_to_list (ms_view m)
}.

(** ** The sharded store (metadata.go) *)

Record ShardedMetadataMap := mkSharded { shards : list (gmap Z TenantMeta) }.

Definition New_metadata : ShardedMetadataMap :=
  mkSharded (replicate (Z.to_nat numShards) ∅).
Definition shardFor (mac : Z) : nat := Z.to_nat (Z.land mac (numShards - 1)).
Definition shard_at (s : ShardedMetadataMap) (mac : Z) : gmap Z TenantMeta :=
  default ∅ (shards s !! shardFor mac).

Definition Lookup (mac : Z) (s : ShardedMetadataMap) : option TenantMeta :=
  shard_at s mac !! mac.
Definition Insert (mac : Z) (meta : TenantMeta) (s : ShardedMetadataMap) : ShardedMetadataMap :=
  mkSharded (alter (<[mac := meta]>) (shardFor mac) (shards s)).
Definition Delete (mac : Z) (s : ShardedMetadataMap) : ShardedMetadataMap :=
  mkSharded (alter (delete mac) (shardFor mac) (shards s)).
Definition MarkDelete (mac at_ : Z) (s : ShardedMetadataMap) : ShardedMetadataMap * bool :=
  match shard_at s mac !! mac with
  | None => (s, false)
  | Some prior =>
      (mkSharded (alter (<[mac := withDeleteAt prior at_]>) (shardFor mac) (shards s)), true)
  end.
Definition Len_metadata (s : ShardedMetadataMap) : Z :=
  foldl (λ n m, n + Z.of_nat (size m)) 0 (shards s).
(** The entries in the order [Range] visits them, shard by shard; a callback
    that answers false cuts the walk short. *)
Definition Range `{GoRange} (s : ShardedMetadataMap) : list (Z * TenantMeta) :=
  shards s ≫= go_range.
Fixpoint rangeWhile {A} (f : A → Z → TenantMeta → A * bool) (acc : A)
    (l : list (Z * TenantMeta)) : A :=
  match l with
  | [] => acc
  | (mac, meta) :: l =>
      let '(acc, continue) := f acc mac meta in
      if continue then rangeWhile f acc l else acc
  end.

(** ** Refinement: the shards stand for their union *)

Definition sharded_ok (s : ShardedMetadataMap) : Prop :=
  length (shards s) = Z.to_nat numShards ∧
  ∀ i m mac v, shards s !! i = Some m → m !! mac = Some v → shardFor mac = i.
Definition flat (s : ShardedMetadataMap) : gmap Z TenantMeta := ⋃ (shards s).

Lemma shardFor_lt mac : (shardFor mac < Z.to_nat numShards)%nat.
Proof.
  rw /shardFor. change (numShards - 1) with (Z.ones 6). rw Z.land_ones //.
  pose proof (Z.mod_pos_bound mac (2 ^ 6)). rw /numShards. lia.
Qed.
Lemma shardFor_lookup s mac : sharded_ok s →
  shards s !! shardFor mac = Some (shard_at s mac).
Proof.
  intros [Hlen _]. rw /shard_at.
  destruct (lookup_lt_is_Some_2 (shards s) (shardFor mac)) as [m ->]; last done.
  rw Hlen. apply shardFor_lt.
Qed.

Lemma lookup_union_list_Some (ms : list (gmap Z TenantMeta)) mac v :
  (⋃ ms) !! mac = Some v → ∃ i m, ms !! i = Some m ∧ m !! mac = Some v.
Proof.
  induction ms as [|m ms IH]; simpl; first by rw lookup_empty.
  rw lookup_union_Some_raw. intros [Hm|[_ Hms]].
  - by exists 0%nat, m.
  - destruct (IH Hms) as (i & m' & ? & ?). by exists (S i), m'.
Qed.
Lemma lookup_union_list_None (ms : list (gmap Z TenantMeta)) mac :
  (∀ i m, ms !! i = Some m → m !! mac = None) → (⋃ ms) !! mac = None.
Proof.
  intros Hms. destruct ((⋃ ms) !! mac) as [v|] eqn:E; last done.
  apply lookup_union_list_Some in E as (i & m & Hi & Hm).
  by rw (Hms i m Hi) in Hm.
Qed.

Lemma flat_lookup s mac : sharded_ok s → flat s !! mac = shard_at s mac !! mac.
Proof.
  intros Hok. pose proof (shardFor_lookup s mac Hok) as Hs.
  destruct (flat s !! mac) as [v|] eqn:E.
  - apply lookup_union_list_Some in E as (i & m & Hi & Hm).
    destruct Hok as [_ Hok]. pose proof (Hok _ _ _ _ Hi Hm). congruence.
  - destruct (shard_at s mac !! mac) as [v|] eqn:F; last done.
    rw /flat in E. clear Hok. move: (shardFor mac) Hs => i.
    induction (shards s) as [|m ms IH] in i, E |- *; first done.
    simpl in E. apply lookup_union_None in E as [E1 E2].
    destruct i as [|i]; simpl; [intros [= ->]; congruence|by apply IH].
Qed.

(** A change of one shard, at a MAC that belongs to it. *)
Section shard_update.
Context (s : ShardedMetadataMap) (mac : Z) (f : gmap Z TenantMeta → gmap Z TenantMeta).
Hypothesis Hok : sharded_ok s.
Hypothesis f_local : ∀ m mac', mac' ≠ mac → f m !! mac' = m !! mac'.
Let s' := mkSharded (alter f (shardFor mac) (shards s)).

Lemma shard_at_update mac' :
  shard_at s' mac' = if decide (shardFor mac' = shardFor mac) then f (shard_at s mac')
                     else shard_at s mac'.
Proof.
  rw {1}/shard_at /=. case_decide as E.
  - by rw E list_lookup_alter_eq shardFor_lookup //= /shard_at E.
  - by rw list_lookup_alter_ne.
Qed.
Lemma sharded_ok_update : sharded_ok s'.
Proof.
  destruct Hok as [Hlen Hm]. split; first by rw /= length_alter.
  intros i m mac' v. simpl. destruct (decide (i = shardFor mac)) as [->|].
  - rw list_lookup_alter_eq fmap_Some => -[m0 [Hm0 ->]] Hv.
    destruct (decide (mac' = mac)) as [->|]; first done.
    rw f_local // in Hv. by eapply Hm.
  - rw list_lookup_alter_ne //. apply Hm.
Qed.
Lemma flat_update mac' :
  flat s' !! mac' = if decide (mac' = mac) then f (shard_at s mac) !! mac else flat s !! mac'.
Proof.
  rw !flat_lookup //; first apply sharded_ok_update. rw shard_at_update.
  destruct (decide (mac' = mac)) as [->|]; first by rw decide_True.
  case_decide; last done. by rw f_local.
Qed.
End shard_update.

Lemma sharded_ok_new : sharded_ok New_metadata ∧ flat New_metadata = ∅.
Proof.
  split; [split; first by rw length_replicate|].
  - intros i m mac v [-> _]%lookup_replicate_1. by rw lookup_empty.
  - by vm_compute.
Qed.

(** Shards of a well-formed store are pairwise disjoint. *)
Lemma shards_map_to_list (ms : list (gmap Z TenantMeta)) n :
  (∀ i m mac v, ms !! i = Some m → m !! mac = Some v → shardFor mac = (n + i)%nat) →
  map_to_list (⋃ ms) ≡ₚ ms ≫= map_to_list ∧
  size (⋃ ms) = sum_list (size <$> ms).
Proof.
  induction ms as [|m ms IH] in n |- *; intros Hms; csimpl.
  { by rw map_to_list_empty map_size_empty. }
  assert (m ##ₘ ⋃ ms) as Hd.
  { apply map_disjoint_spec. intros mac v1 v2 H1 (i & m' & Hi & H2)%lookup_union_list_Some.
    pose proof (Hms 0%nat m mac v1 eq_refl H1). pose proof (Hms (S i) m' mac v2 Hi H2). lia. }
  destruct (IH (S n)) as [IH1 IH2].
  { intros i m' mac v Hi Hv. rw (Hms (S i) m' mac v Hi Hv). lia. }
  rw map_to_list_disj_union // map_size_disj_union // IH1 IH2 //.
Qed.

Lemma Len_metadata_sum s : Len_metadata s = Z.of_nat (sum_list (size <$> shards s)).
Proof.
  rw /Len_metadata.
  assert (∀ ms n, foldl (λ n (m : gmap Z TenantMeta), n + Z.of_nat (size m)) n ms =
                  n + Z.of_nat (sum_list (size <$> ms))) as G; last by rw G.
  intros ms. induction ms as [|m ms IH]; intros n; csimpl; first lia. rw IH. lia.
Qed.

Section sharded_laws.
Context `{GoRange} (m : ShardedMetadataMap) (mac : Z).
Hypothesis Hok : sharded_ok m.

Lemma sharded_Lookup : Lookup mac m = flat m !! mac.
Proof. by rw flat_lookup. Qed.
Lemma sharded_Insert v :
  sharded_ok (Insert mac v m) ∧ flat (Insert mac v m) = <[mac := v]> (flat m).
Proof.
  split; first by apply sharded_ok_update => // *; rw lookup_insert_ne.
  apply map_eq. intros mac'. rw flat_update //; first by intros; rw lookup_insert_ne.
  case_decide as E; [subst; by rw !lookup_insert_eq|by rw lookup_insert_ne].
Qed.
Lemma sharded_Delete :
  sharded_ok (Delete mac m) ∧ flat (Delete mac m) = delete mac (flat m).
Proof.
  split; first by apply sharded_ok_update => // *; rw lookup_delete_ne.
  apply map_eq. intros mac'. rw flat_update //; first by intros; rw lookup_delete_ne.
  case_decide as E; [subst; by rw !lookup_delete_eq|by rw lookup_delete_ne].
Qed.
Lemma sharded_MarkDelete at_ :
  sharded_ok (MarkDelete mac at_ m).1 ∧
  flat (MarkDelete mac at_ m).1 = alter (λ v, withDeleteAt v at_) mac (flat m) ∧
  (MarkDelete mac at_ m).2 = bool_decide (is_Some (flat m !! mac)).
Proof.
  rw /MarkDelete (flat_lookup _ _ Hok).
  destruct (shard_at m mac !! mac) as [v|] eqn:E; simpl.
  - split_and!; [by apply sharded_ok_update => // *; rw lookup_insert_ne| |done].
    apply map_eq. intros mac'. rw flat_update //; first by intros; rw lookup_insert_ne.
    case_decide as F; [subst|by rw lookup_alter_ne].
    by rw lookup_alter_eq lookup_insert_eq flat_lookup // E.
  - split_and!; [done| |done].
    apply map_eq. intros mac'. destruct (decide (mac' = mac)) as [->|].
    + by rw lookup_alter_eq flat_lookup // E.
    + by rw lookup_alter_ne.
Qed.
Lemma sharded_Len : Len_metadata m = Z.of_nat (size (flat m)).
Proof.
  destruct (shards_map_to_list (shards m) 0 (proj2 Hok)) as [_ E].
  by rw Len_metadata_sum -E.
Qed.
Lemma sharded_Range : Range m ≡ₚ map_to_list (flat m).
Proof.
  destruct (shards_map_to_list (shards m) 0 (proj2 Hok)) as [E _].
  rw /flat E /Range. apply bind_perm_ext, go_range_perm.
Qed.
End sharded_laws.

#[export] Instance sharded_store `{GoRange} : MetaStore ShardedMetadataMap := {|
  ms_new := New_metadata; ms_Lookup := Lookup; ms_Insert := Insert; ms_Delete := Delete;
  ms_MarkDelete := MarkDelete; ms_Len := Len_metadata; ms_Range := Range;
  ms_ok := sharded_ok; ms_view := flat;
  ms_new_ok := sharded_ok_new;
  ms_Lookup_view := sharded_Lookup;
  ms_Insert_view m mac v Hok := sharded_Insert m mac Hok v;
  ms_Delete_view m mac Hok := sharded_Delete m mac Hok;
  ms_MarkDelete_view m mac at_ Hok := sharded_MarkDelete m mac Hok at_;
  ms_Len_view := sharded_Len;
  ms_Range_view := sharded_Range |}.

(** ** Attribution of a flow (resolver.go, routers.go) *)

Definition VMMAC (key : FlowKey) : Z :=
  if decide (Direction_ key = DirectionIngress) then MACKey (SrcMac key) else MACKey (DstMac key).
Definition PeerMAC (key : FlowKey) : Z :=
  if decide (Direction_ key = DirectionIngress) then MACKey (DstMac key) else MACKey (SrcMac key).

Definition ExternalNetworkLabel (extNet : string) (zone : Z) : string :=
  if decide (zone ≠ ZoneExternal ∨ extNet = "") then NoExternalNetwork else extNet.

(** [RouterMACs]: the map behind the atomic pointer; [None] is a nil store. *)
Notation RouterMap := (gmap Z string) (only parsing).

Definition FlowExternalLabel (routers : option RouterMap) (vmExtNet : string) (key : FlowKey) : string :=
  if decide (DstZone key ≠ ZoneExternal) then NoExternalNetwork
  else match routers ≫= lookup (PeerMAC key) with
       | Some ext => ext
       | None => ExternalNetworkLabel vmExtNet (DstZone key)
       end.

Definition resolveMeta (routers : option RouterMap) (meta : option TenantMeta) (key : FlowKey) : Attribution :=
  match meta with
  | None => mkAttribution UnknownTenantID "" "" NoExternalNetwork
  | Some m => mkAttribution (ProjectID m) (ServerID m) (PortID m)
                (FlowExternalLabel routers (ExternalNetwork m) key)
  end.
Definition Resolver_Resolve `{MetaStore M} (meta : M) (routers : option RouterMap)
    (key : FlowKey) : Attribution :=
  resolveMeta routers (ms_Lookup (VMMAC key) meta) key.

Definition SettleResolver (routers : option RouterMap) (pick : FlowKey → option TenantMeta)
    (k : FlowKey) : option Owner :=
  match pick k with
  | None => None
  | Some meta => Some (mkOwner (ProjectID meta)
      (FlowExternalLabel routers (ExternalNetwork meta) k) (ServerID meta))
  end.

(** The owner the collector exposes a row under. *)
Definition ownerOf (a : Attribution) : Owner :=
  mkOwner (At_Tenant a) (At_ExternalNetwork a) (At_ServerID a).
Definition collectorOwner `{MetaStore M} (meta : M) (routers : option RouterMap) (k : FlowKey) : Owner :=
  ownerOf (Resolver_Resolve meta routers k).

Lemma ExternalNetworkLabel_gate extNet zone :
  zone ≠ ZoneExternal → ExternalNetworkLabel extNet zone = NoExternalNetwork.
Proof. intros. rw /ExternalNetworkLabel decide_True //. by left. Qed.

(** A fold whose pick is the stored metadata lands where the row is exposed. *)
Lemma SettleResolver_agrees `{MetaStore M} (meta : M) routers pick :
  (∀ k m, pick k = Some m → ms_Lookup (VMMAC k) meta = Some m) →
  ∀ k o, SettleResolver routers pick k = Some o → collectorOwner meta routers k = o.
Proof.
  intros Hp k o. rw /SettleResolver. destruct (pick k) as [m|] eqn:E; last done.
  intros [= <-]. by rw /collectorOwner /Resolver_Resolve (Hp _ _ E).
Qed.

Lemma collectorOwner_ext `{MetaStore M} (m1 m2 : M) routers k : ms_ok m1 → ms_ok m2 →
  ms_view m1 !! VMMAC k = ms_view m2 !! VMMAC k →
  collectorOwner m1 routers k = collectorOwner m2 routers k.
Proof. intros H1 H2 E. by rw /collectorOwner /Resolver_Resolve !ms_Lookup_view // E. Qed.

(** ** Interning project ids (interner.go) *)

Record TenantInterner := mkInterner {
  nextID : Z; forward : gmap string Z; rev_ids : gmap Z string }.
Definition NewTenantInterner : TenantInterner := mkInterner 1 ∅ ∅.

Definition Intern (projectID : string) (t : TenantInterner) : Z * TenantInterner :=
  if decide (projectID = "") then (TenantIDUnset, t)
  else match forward t !! projectID with
       | Some id => (id, t)
       | None =>
           let id := nextID t in
           (id, mkInterner (u32 (nextID t + 1)) (<[projectID := id]> (forward t))
                  (<[id := projectID]> (rev_ids t)))
       end.
Definition Interner_Lookup (projectID : string) (t : TenantInterner) : option Z :=
  if decide (projectID = "") then None else forward t !! projectID.
Definition Interner_Reverse (id : Z) (t : TenantInterner) : option string :=
  if decide (id = TenantIDUnset) then None else rev_ids t !! id.
Definition Interner_Len (t : TenantInterner) : Z := Z.of_nat (size (forward t)).

Definition internAll (ps : list string) (t : TenantInterner) : TenantInterner :=
  foldl (λ t p, (Intern p t).2) t ps.

Definition interner_ok (t : TenantInterner) : Prop :=
  nextID t = 1 + Z.of_nat (size (forward t)) ∧
  (∀ p id, forward t !! p = Some id ↔ rev_ids t !! id = Some p) ∧
  (∀ p id, forward t !! p = Some id → p ≠ "" ∧ 1 ≤ id < nextID t).

Lemma Intern_ok p t :
  interner_ok t → nextID t < 2 ^ 32 - 1 →
  interner_ok (Intern p t).2 ∧ nextID (Intern p t).2 ≤ nextID t + 1 ∧
  (∀ q id, forward t !! q = Some id → forward (Intern p t).2 !! q = Some id) ∧
  (p ≠ "" → forward (Intern p t).2 !! p = Some (Intern p t).1).
Proof.
  intros (Hn & Hb & Hr) Hmax. rw /Intern.
  destruct (decide (p = "")) as [->|Hp]; simpl; first by split_and!; [done|lia|done|done].
  destruct (forward t !! p) as [id|] eqn:E; simpl; first by split_and!; [done|lia|done|].
  assert (rev_ids t !! nextID t = None) as Hnew.
  { destruct (rev_ids t !! nextID t) as [q|] eqn:F; last done.
    apply Hb in F. apply Hr in F. lia. }
  assert (u32 (nextID t + 1) = nextID t + 1) as Hw by (rw /u32; apply Z.mod_small; lia).
  rw Hw. split_and!; [|lia| |by rw lookup_insert_eq].
  - split_and!; simpl; first by rw map_size_insert_None // Hn; lia.
    + intros q id. destruct (decide (q = p)) as [->|Hq], (decide (id = nextID t)) as [->|Hid];
        rw ?lookup_insert_eq ?lookup_insert_ne //.
      * rw -Hb E. split; [by intros [= <-]|done].
      * split; [|by intros [= ->]]. intros [_ ?]%Hr. lia.
    + intros q id [[<- <-]|[_ [? ?]%Hr]]%lookup_insert_Some; split => //; lia.
  - intros q id Hq. rw lookup_insert_ne //. congruence.
Qed.

Lemma internAll_ok ps t :
  interner_ok t → nextID t + Z.of_nat (length ps) < 2 ^ 32 →
  interner_ok (internAll ps t) ∧ nextID (internAll ps t) ≤ nextID t + Z.of_nat (length ps) ∧
  (∀ q id, forward t !! q = Some id → forward (internAll ps t) !! q = Some id) ∧
  (∀ p, p ∈ ps → p ≠ "" → is_Some (forward (internAll ps t) !! p)).
Proof.
  induction ps as [|p ps IH] in t |- *; csimpl; intros Ht Hmax.
  { split_and!; [done|lia|done|by intros ? []%elem_of_nil]. }
  destruct (Intern_ok p t Ht) as (Ht' & Hle & Hmono & Hp); first lia.
  destruct (IH _ Ht') as (Hok & Hle' & Hmono' & Hin); first lia.
  split_and!; [done|lia|by intros; apply Hmono', Hmono|].
  intros q [->|Hq]%elem_of_cons Hne; last by apply Hin.
  eexists. by apply Hmono', Hp.
Qed.

Lemma NewTenantInterner_ok : interner_ok NewTenantInterner.
Proof.
  split; [done|split; intros p id; rw /= ?lookup_empty; by [split|]].
Qed.

Section interner.
Variables ps qs : list string.
Hypothesis few : Z.of_nat (length (ps ++ qs)) < 2 ^ 32 - 1.
Let t := internAll ps NewTenantInterner.

(** interning is a bijection between the project ids seen and the ids
    handed out, none of which is the reserved 0, every project seen gets an
    id, and no later interning changes it. *)
Theorem interner_bijective :
  (∀ p id, Interner_Lookup p t = Some id ↔ Interner_Reverse id t = Some p) ∧
  (∀ p id, Interner_Lookup p t = Some id → id ≠ TenantIDUnset ∧
     Interner_Lookup p (internAll (ps ++ qs) NewTenantInterner) = Some id) ∧
  (∀ p, p ∈ ps → p ≠ "" → is_Some (Interner_Lookup p t)).
Proof.
  pose proof few as Hfew. rw length_app in Hfew.
  destruct (internAll_ok ps NewTenantInterner NewTenantInterner_ok) as ((Hn & Hb & Hr) & Hle & _ & Hin).
  { simpl. lia. }
  destruct (internAll_ok qs t) as (_ & _ & Hmono & _); [done|change (nextID t ≤ 1 + Z.of_nat (length ps)) in Hle; lia|].
  rw /Interner_Lookup /Interner_Reverse /TenantIDUnset. split_and!.
  - intros p id. split.
    + case_decide; first done. intros Hp. destruct (Hr _ _ Hp) as [_ ?].
      rw decide_False; [lia|by apply Hb].
    + case_decide; first done. intros Hp%Hb. destruct (Hr _ _ Hp) as [? _].
      by rw decide_False.
  - intros p id. case_decide; first done. intros Hp. destruct (Hr _ _ Hp).
    split; first lia. rw /internAll foldl_app. by apply Hmono.
  - intros p Hp Hne. rw decide_False //. by apply Hin.
Qed.
End interner.

(** Sequences of updates. *)
Inductive store_op := SInsert (mac : Z) (v : TenantMeta) | SDelete (mac : Z) | SMarkDelete (mac at_ : Z).
Definition apply_op `{MetaStore M} (m : M) (o : store_op) : M :=
  match o with
  | SInsert mac v => ms_Insert mac v m
  | SDelete mac => ms_Delete mac m
  | SMarkDelete mac at_ => (ms_MarkDelete mac at_ m).1
  end.
Definition apply_flat (m : gmap Z TenantMeta) (o : store_op) : gmap Z TenantMeta :=
  match o with
  | SInsert mac v => <[mac := v]> m
  | SDelete mac => delete mac m
  | SMarkDelete mac at_ => alter (λ v, withDeleteAt v at_) mac m
  end.

Lemma apply_op_view `{MetaStore M} (m : M) o :
  ms_ok m → ms_ok (apply_op m o) ∧ ms_view (apply_op m o) = apply_flat (ms_view m) o.
Proof.
  intros Hm. destruct o; simpl; [by apply ms_Insert_view|by apply ms_Delete_view|].
  by destruct (ms_MarkDelete_view m mac at_ Hm) as (? & ? & _).
Qed.
Lemma apply_ops_view `{MetaStore M} ops (m : M) :
  ms_ok m → ms_ok (foldl apply_op m ops) ∧
            ms_view (foldl apply_op m ops) = foldl apply_flat (ms_view m) ops.
Proof.
  induction ops as [|o ops IH] in m |- *; first done.
  intros [Hok E]%(apply_op_view _ o). rw /= -E. by apply IH.
Qed.

(** the sharded store refines a single map: after any sequence of inserts,
    deletes and ghost markings, every lookup, the length and the entries
    [Range] visits are those of the map obtained by the same operations. *)
Theorem sharded_refines_map `{GoRange} ops :
  let s := foldl apply_op New_metadata ops in
  let m := foldl apply_flat ∅ ops in
  (∀ mac, Lookup mac s = m !! mac) ∧ Len_metadata s = Z.of_nat (size m) ∧
  Range s ≡ₚ map_to_list m.
Proof.
  intros s m. destruct sharded_ok_new as [Hnew Hempty].
  destruct (apply_ops_view ops New_metadata) as [Hok E]; first exact Hnew.
  change (ms_view New_metadata) with (flat New_metadata) in E. rw Hempty in E.
  split_and!.
  - intros mac. etrans; [exact (ms_Lookup_view s mac Hok)|by rw E].
  - etrans; [exact (ms_Len_view s Hok)|by rw E].
  - etrans; [exact (ms_Range_view s Hok)|by rw E].
Qed.

Module MetadataExamples.
Lemma interner_bijective_witness :
  Interner_Lookup "bob" (internAll ["alice"; ""; "bob"; "alice"] NewTenantInterner) = Some 2 ∧
  Interner_Lookup "bob" (internAll (["alice"; ""; "bob"; "alice"] ++ ["carol"]) NewTenantInterner)
    = Some 2.
Proof.
  destruct (interner_bijective ["alice"; ""; "bob"; "alice"] ["carol"]) as (H & H2 & _);
    first by vm_compute.
  assert (Interner_Lookup "bob" (internAll ["alice"; ""; "bob"; "alice"] NewTenantInterner) = Some 2)
    as E by by vm_compute.
  split; [done|by apply H2].
Defined.
End MetadataExamples.
