(* ===== verification/Neutron.v ===== *)
(** * Neutron's resources (internal/neutron: types.go, schema.go, deviceowner.go)

    The snapshot of the OpenStack resources, the rows of the kernel trie and
    the classification of ports by their device owner. *)
From S2P Require Import Prelude GoStrings NetIP Bpf.
From Stdlib Require Import Ascii.
From Stdlib Require String.

(** ** Resources (types.go) *)

Record Network := mkNetwork {
  Net_ID : string; Net_ProjectID : string; Net_Name : string; Net_Shared : bool; Net_IsExternal : bool }.
Record Subnet := mkSubnet {
  Sub_ID : string; Sub_NetworkID : string; Sub_ProjectID : string; Sub_CIDR : string;
  Sub_GatewayIP : string; Sub_IPVersion : Z }.
Record FixedIP := mkFixedIP { Fip_SubnetID : string; Fip_IPAddress : string }.
Record Port := mkPort {
  Port_ID : string; Port_NetworkID : string; Port_ProjectID : string; Port_MACAddress : string;
  Port_DeviceOwner : string; Port_DeviceID : string; Port_FixedIPs : list FixedIP }.
Record FloatingIP := mkFloatingIP {
  Float_ID : string; Float_PortID : string; Float_FloatingNetworkID : string }.
Record Project := mkProject { Proj_ID : string; Proj_Name : string }.
Record Server := mkServer { Serv_ID : string; Serv_Name : string; Serv_ProjectID : string }.
Record LoadBalancer := mkLoadBalancer { LB_ID : string; LB_ProjectID : string; LB_Provider : string }.
Record Amphora := mkAmphora {
  Amp_ID : string; Amp_LoadBalancerID : string; Amp_ComputeID : string; Amp_LBNetworkIP : string;
  Amp_Status : string }.
Record Route := mkRoute { Route_Destination : string; Route_Nexthop : string }.
Record Router := mkRouter {
  Router_ID : string; Router_ProjectID : string; Router_Name : string;
  Router_ExternalNetworkID : string; Router_Routes : list Route }.

#[export] Instance FixedIP_eq_dec : EqDecision FixedIP.
Proof. solve_decision. Defined.
#[export] Instance Network_eq_dec : EqDecision Network.
Proof. solve_decision. Defined.
#[export] Instance Subnet_eq_dec : EqDecision Subnet.
Proof. solve_decision. Defined.
#[export] Instance Port_eq_dec : EqDecision Port.
Proof. solve_decision. Defined.
#[export] Instance Route_eq_dec : EqDecision Route.
Proof. solve_decision. Defined.
#[export] Instance Router_eq_dec : EqDecision Router.
Proof. solve_decision. Defined.

(** ** Derived data (schema.go) *)

Record Snapshot := mkSnapshot {
  Networks : list Network; Subnets : list Subnet; Ports : list Port; Routers : list Router;
  FloatingIPs : list FloatingIP; Projects : list Project; Servers : list Server;
  LoadBalancers : list LoadBalancer; Amphorae : list Amphora }.

(** The prefix is IPv4 and masked: the builder emits no other. *)
Record TrieEntry := mkTrieEntry { TE_TenantID : string; TE_Prefix : Prefix4; TE_Zone : Z }.
#[export] Instance TrieEntry_eq_dec : EqDecision TrieEntry.
Proof. solve_decision. Defined.

Record AmbiguityHit := mkAmbiguityHit {
  Amb_SourceTenant : string; Amb_RouterID : string; Amb_Destination : Prefix4; Amb_Owners : list string }.
Record CycleHit := mkCycleHit {
  Cyc_SourceTenant : string; Cyc_SourceRouter : string; Cyc_Destination : Prefix4;
  Cyc_LoopRouter : string }.
#[export] Instance AmbiguityHit_eq_dec : EqDecision AmbiguityHit.
Proof. solve_decision. Defined.
#[export] Instance CycleHit_eq_dec : EqDecision CycleHit.
Proof. solve_decision. Defined.

Definition metadataPrefix : Prefix4 := mkPrefix4 2852039166 32.
Definition catchall : Prefix4 := mkPrefix4 0 0.
Definition defaultMaxStaticRouteHops : Z := 16.

Lemma metadataPrefix_parse : ParsePrefix4 "169.254.169.254/32" = Some metadataPrefix.
Proof. by vm_compute. Qed.
Lemma catchall_parse : ParsePrefix4 "0.0.0.0/0" = Some catchall.
Proof. by vm_compute. Qed.

(** ** Port classes (deviceowner.go) *)

Definition deviceOwnerNetworkPrefix : string := "network:".
Definition deviceOwnerComputePrefix : string := "compute:".
Definition deviceOwnerTrunkPrefix : string := "trunk:".
Definition DeviceOwnerRouterInterface : string := "network:router_interface".

Definition IsInfraPort (deviceOwner : string) : bool :=
  if negb (HasPrefix deviceOwner deviceOwnerNetworkPrefix) then false
  else if decide (deviceOwner = "network:floatingip") then false else true.
Definition IsVMPort (deviceOwner : string) : bool :=
  if decide (deviceOwner = "") then false
  else if HasPrefix deviceOwner deviceOwnerNetworkPrefix then false else true.
Definition IsComputePort (deviceOwner : string) : bool :=
  HasPrefix deviceOwner deviceOwnerComputePrefix.
Definition IsTrunkSubport (deviceOwner : string) : bool :=
  HasPrefix deviceOwner deviceOwnerTrunkPrefix.
Definition IsKnownVMOwner (deviceOwner : string) : bool :=
  IsComputePort deviceOwner
  || (bool_decide (deviceOwner = "Octavia") || HasPrefix deviceOwner "Octavia:")
  || HasPrefix deviceOwner "manila:"
  || HasPrefix deviceOwner "baremetal:"
  || IsTrunkSubport deviceOwner
  || bool_decide (deviceOwner = "cube:mgr").

(** Two prefixes that differ within the shorter one have no common extension. *)
Lemma HasPrefix_append s p : HasPrefix s p = true → ∃ r, s = p +:+ r.
Proof.
  rw /HasPrefix. induction p as [|a p IH] in s |- *; simpl; first by exists s.
  destruct s as [|b s]; simpl; first done.
  destruct (ascii_dec a b) as [->|]; last done. intros [r ->]%IH. by exists r.
Qed.
Lemma not_network_prefix s a r :
  s = String a r → a ≠ "n"%char → IsVMPort s = true.
Proof.
  intros -> Ha. rw /IsVMPort. case_decide; first done.
  rw /HasPrefix /deviceOwnerNetworkPrefix /=. case_match; simplify_eq/=; [by case_match|done].
Qed.

(** the port predicates partition device owners: no owner is both VM and
    infrastructure, the only owners that are neither are the empty one and
    network:floatingip, and every confirmed VM owner is admitted as one. *)
Theorem port_classes owner :
  ¬ (IsVMPort owner = true ∧ IsInfraPort owner = true) ∧
  (IsVMPort owner = false ∧ IsInfraPort owner = false ↔
   owner = "" ∨ owner = "network:floatingip") ∧
  (IsKnownVMOwner owner = true → IsVMPort owner = true).
Proof.
  split_and!.
  - rw /IsVMPort /IsInfraPort. destruct (decide (owner = "")); first by intros [].
    destruct (HasPrefix _ _); by intros [].
  - rw /IsVMPort /IsInfraPort. split.
    + destruct (decide (owner = "")); first by left.
      destruct (HasPrefix _ _); simpl; last by intros [].
      destruct (decide (owner = _)); [by right|by intros []].
    + by intros [-> | ->].
  - rw /IsKnownVMOwner !orb_true_iff !bool_decide_eq_true.
    intros [[[[[H|[H|H]]|H]|H]|H]|H];
      (apply HasPrefix_append in H as [r ->] || subst);
      by eapply not_network_prefix.
Qed.

(** ** MAC addresses: [net.ParseMAC], answering six-byte addresses only *)

Definition hex_value (a : ascii) : option Z :=
  let n := N_of_ascii a in
  if decide (48 ≤ n ∧ n ≤ 57)%N then Some (Z.of_N (n - 48))
  else if decide (97 ≤ n ∧ n ≤ 102)%N then Some (Z.of_N (n - 97 + 10))
  else if decide (65 ≤ n ∧ n ≤ 70)%N then Some (Z.of_N (n - 65 + 10))
  else None.
Definition hex_byte (a b : ascii) : option Z :=
  x ← hex_value a; y ← hex_value b; Some (16 * x + y).
Definition parse_byte (s : string) : option Z :=
  match s with String a (String b EmptyString) => hex_byte a b | _ => None end.
Definition parse_pair (s : string) : option (Z * Z) :=
  match s with
  | String a (String b (String c (String d EmptyString))) =>
      x ← hex_byte a b; y ← hex_byte c d; Some (x, y)
  | _ => None
  end.
Definition mac_of_fields (fs : list string) : option MacAddr :=
  match fs with
  | [a; b; c; d; e; f] =>
      a ← parse_byte a; b ← parse_byte b; c ← parse_byte c;
      d ← parse_byte d; e ← parse_byte e; f ← parse_byte f;
      Some (mkMac a b c d e f)
  | _ => None
  end.
Definition ParseMAC (s : string) : option MacAddr :=
  match mac_of_fields (split_on ":"%char s) with
  | Some m => Some m
  | None =>
      match mac_of_fields (split_on "-"%char s) with
      | Some m => Some m
      | None =>
          match split_on dot s with
          | [x; y; z] =>
              p ← parse_pair x; q ← parse_pair y; r ← parse_pair z;
              Some (mkMac p.1 p.2 q.1 q.2 r.1 r.2)
          | _ => None
          end
      end
  end.

Lemma hex_value_range a z : hex_value a = Some z → 0 ≤ z < 16.
Proof. rw /hex_value. repeat case_decide; intros; simplify_eq; lia. Qed.
Lemma hex_byte_range a b z : hex_byte a b = Some z → u8_range z.
Proof.
  rw /hex_byte /u8_range. destruct (hex_value a) as [x|] eqn:Ha; last done.
  destruct (hex_value b) as [y|] eqn:Hb; last done.
  apply hex_value_range in Ha. apply hex_value_range in Hb. intros [= <-]. lia.
Qed.
Lemma parse_byte_range s z : parse_byte s = Some z → u8_range z.
Proof. destruct s as [|a [|b []]]; try done. apply hex_byte_range. Qed.
Lemma mac_of_fields_ok fs m : mac_of_fields fs = Some m → mac_ok m.
Proof.
  destruct fs as [|a [|b [|c [|d [|e [|f []]]]]]]; try done. rw /mac_of_fields.
  destruct (parse_byte a) eqn:?; simpl; last done. destruct (parse_byte b) eqn:?; simpl; last done.
  destruct (parse_byte c) eqn:?; simpl; last done. destruct (parse_byte d) eqn:?; simpl; last done.
  destruct (parse_byte e) eqn:?; simpl; last done. destruct (parse_byte f) eqn:?; simpl; last done.
  intros [= <-]. rw /mac_ok /=. split_and!; by eapply parse_byte_range.
Qed.
Lemma ParseMAC_ok s m : ParseMAC s = Some m → mac_ok m.
Proof.
  rw /ParseMAC. destruct (mac_of_fields (split_on ":"%char s)) eqn:E1.
  { intros [= <-]. by eapply mac_of_fields_ok. }
  destruct (mac_of_fields (split_on "-"%char s)) eqn:E2.
  { intros [= <-]. by eapply mac_of_fields_ok. }
  assert (∀ t p, parse_pair t = Some p → u8_range p.1 ∧ u8_range p.2) as Hp.
  { intros t p. destruct t as [|a [|b [|c [|d []]]]]; try done. rw /parse_pair.
    destruct (hex_byte a b) eqn:Ha; last done. destruct (hex_byte c d) eqn:Hb; last done.
    intros [= <-]. split; by eapply hex_byte_range. }
  destruct (split_on dot s) as [|x [|y [|z []]]]; try done.
  destruct (parse_pair x) as [p|] eqn:Hx; simpl; last done.
  destruct (parse_pair y) as [q|] eqn:Hy; simpl; last done.
  destruct (parse_pair z) as [r|] eqn:Hz; simpl; last done.
  intros [= <-]. apply Hp in Hx, Hy, Hz. rw /mac_ok /=. tauto.
Qed.

(** ** A small deployment, used by the examples of the files that follow *)

Module Demo.
Definition netA := mkNetwork "netA" "tA" "blue" false false.
Definition netB := mkNetwork "netB" "tB" "green" false false.
Definition shared := mkNetwork "shared" "ops" "shared" true false.
Definition extNet := mkNetwork "ext" "ops" "public" false true.
Definition subA := mkSubnet "subA" "netA" "tA" "10.0.1.0/24" "10.0.1.1" 4.
Definition subB := mkSubnet "subB" "netB" "tB" "10.0.2.0/24" "10.0.2.1" 4.
Definition subS := mkSubnet "subS" "shared" "ops" "10.9.0.0/16" "10.9.0.1" 4.
Definition subX := mkSubnet "subX" "ext" "ops" "203.0.113.0/24" "203.0.113.1" 4.
Definition vmA := mkPort "vmA" "netA" "tA" "02:00:00:00:00:0a" "compute:az1" "srvA"
  [mkFixedIP "subA" "10.0.1.5"].
Definition vmB := mkPort "vmB" "netB" "tB" "02:00:00:00:00:0b" "compute:az1" "srvB"
  [mkFixedIP "subB" "10.0.2.5"].
Definition dhcp := mkPort "dhcp" "netA" "tA" "02:00:00:00:00:0d" "network:dhcp" "dhcp0"
  [mkFixedIP "subA" "10.0.1.2"].
Definition rifA := mkPort "rifA" "netA" "tA" "02:00:00:00:01:0a" "network:router_interface" "r1"
  [mkFixedIP "subA" "10.0.1.1"].
Definition rifB := mkPort "rifB" "netB" "tB" "02:00:00:00:01:0b" "network:router_interface" "r2"
  [mkFixedIP "subB" "10.0.2.1"].
(** The two routers meet on the shared network. *)
Definition rifS1 := mkPort "rifS1" "shared" "ops" "02:00:00:00:02:01" "network:router_interface" "r1"
  [mkFixedIP "subS" "10.9.0.11"].
Definition rifS2 := mkPort "rifS2" "shared" "ops" "02:00:00:00:02:02" "network:router_interface" "r2"
  [mkFixedIP "subS" "10.9.0.12"].
Definition amphora := mkPort "amp" "netA" "ops" "02:00:00:00:03:01" "Octavia" "i-1"
  [mkFixedIP "subA" "10.0.1.9"].
Definition mgmt := mkPort "ampm" "shared" "ops" "02:00:00:00:03:02" "Octavia" "i-1"
  [mkFixedIP "subS" "10.9.0.50"].
Definition r1 := mkRouter "r1" "tA" "r1" "ext" [mkRoute "10.0.2.0/24" "10.9.0.12"].
Definition r2 := mkRouter "r2" "tB" "r2" "" [mkRoute "10.0.1.0/24" "10.9.0.11"].
Definition lb := mkLoadBalancer "lb1" "tA" "amphora".
Definition amp := mkAmphora "a1" "lb1" "i-1" "10.9.0.50" "ALLOCATED".
Definition snap : Snapshot := mkSnapshot
  [netA; netB; shared; extNet] [subA; subB; subS; subX]
  [vmA; vmB; dhcp; rifA; rifB; rifS1; rifS2; amphora; mgmt] [r1; r2] []
  [mkProject "tA" "alpha"; mkProject "tB" "beta"] [mkServer "srvA" "web" "tA"] [lb] [amp].
(** The same deployment, listed in another order. *)
Definition snap' : Snapshot := mkSnapshot
  [extNet; netA; netB; shared] [subX; subA; subB; subS]
  [mgmt; vmA; vmB; dhcp; rifA; rifB; rifS1; rifS2; amphora] [r2; r1] []
  [mkProject "tA" "alpha"; mkProject "tB" "beta"] [mkServer "srvA" "web" "tA"] [lb] [amp].
End Demo.
