(* ===== verification/Attribution.v ===== *)
(** * Who a port's traffic bills to (internal/neutron: externalnet.go, octavia.go)

    The external network of every VM port, the router interfaces' external
    networks, the owners of Amphora ports and their base addresses: pure
    functions of the snapshot. *)
From S2P Require Import Prelude GoStrings NetIP Bpf Neutron.
From Stdlib Require String.

(** ** External networks (externalnet.go) *)

Definition netLabel_of (n : Network) : string :=
  if decide (Net_Name n ≠ "") then Net_Name n else Net_ID n.
Definition netLabels (snap : Snapshot) : gmap string string :=
  insertAll ((λ n, (Net_ID n, netLabel_of n)) <$> Networks snap) ∅.
Definition routerExtOf (snap : Snapshot) : gmap string string :=
  foldl (λ m r, if decide (Router_ExternalNetworkID r ≠ "")
                then <[Router_ID r := default "" (netLabels snap !! Router_ExternalNetworkID r)]> m
                else m) ∅ (Routers snap).
Definition subnetGateways (snap : Snapshot) : gmap string string :=
  insertAll ((λ s, (Sub_ID s, Sub_GatewayIP s)) <$> Subnets snap) ∅.

(** Labels per subnet, through any attached router and through the one that
    holds the subnet's gateway address. *)
Definition addInterface (ext : string) (snap : Snapshot) (acc : gmap string (list string) * gmap string (list string))
    (fip : FixedIP) : gmap string (list string) * gmap string (list string) :=
  let '(anyExt, gwExt) := acc in
  let anyExt := append_at (Fip_SubnetID fip) ext anyExt in
  let gw := default "" (subnetGateways snap !! Fip_SubnetID fip) in
  let gwExt := if decide (gw ≠ "" ∧ Fip_IPAddress fip = gw)
               then append_at (Fip_SubnetID fip) ext gwExt else gwExt in
  (anyExt, gwExt).
Definition addRouterPort (snap : Snapshot) (acc : gmap string (list string) * gmap string (list string))
    (p : Port) : gmap string (list string) * gmap string (list string) :=
  if decide (Port_DeviceOwner p ≠ DeviceOwnerRouterInterface) then acc
  else match routerExtOf snap !! Port_DeviceID p with
       | None => acc
       | Some ext => foldl (addInterface ext snap) acc (Port_FixedIPs p)
       end.
Definition interfaceExts (snap : Snapshot) : gmap string (list string) * gmap string (list string) :=
  foldl (addRouterPort snap) (∅, ∅) (Ports snap).
Definition subnetExt (snap : Snapshot) (subnetID : string) : list string :=
  let '(anyExt, gwExt) := interfaceExts snap in
  if decide (0 < length (get_all gwExt subnetID))%nat then get_all gwExt subnetID
  else get_all anyExt subnetID.

Definition fipExts (snap : Snapshot) : gmap string (list string) :=
  foldl (λ m f,
    if decide (Float_PortID f = "" ∨ Float_FloatingNetworkID f = "") then m
    else append_at (Float_PortID f) (default "" (netLabels snap !! Float_FloatingNetworkID f)) m)
    ∅ (FloatingIPs snap).

Record portCandidates := mkCandidates { candidates : list string; picked : string }.

Section external.
Context `{GoRange}.

Definition dedupe (l : list string) : list string :=
  let seen : gmap string () := foldl (λ m s, if decide (s ≠ "") then <[s := ()]> m else m) ∅ l in
  sort_strings (go_range seen).*1.

Definition rawCandidates (snap : Snapshot) (p : Port) : list string :=
  let raw := get_all (fipExts snap) (Port_ID p) in
  if decide (length raw = 0%nat)
  then Port_FixedIPs p ≫= (λ fip, subnetExt snap (Fip_SubnetID fip)) else raw.

Definition externalCandidatesByPort (snap : Snapshot) : gmap string portCandidates :=
  foldl (λ out p,
    if IsVMPort (Port_DeviceOwner p) then
      match dedupe (rawCandidates snap p) with
      | [] => out
      | c :: cs => <[Port_ID p := mkCandidates (c :: cs) c]> out
      end
    else out) ∅ (Ports snap).

Definition ExternalNetworkByPort (snap : Snapshot) : gmap string string :=
  foldl (λ out kv, <[kv.1 := picked kv.2]> out) ∅ (go_range (externalCandidatesByPort snap)).
End external.

Definition RouterExtMACs (snap : Snapshot) : gmap Z string :=
  foldl (λ out p,
    if decide (Port_DeviceOwner p ≠ DeviceOwnerRouterInterface) then out
    else match routerExtOf snap !! Port_DeviceID p with
         | None => out
         | Some ext =>
             match ParseMAC (Port_MACAddress p) with
             | None => out
             | Some mac => <[MACKey mac := ext]> out
             end
         end) ∅ (Ports snap).

(** ** Octavia (octavia.go) *)

Definition isAmphoraProvider (provider : string) : bool :=
  bool_decide (provider = "") || EqualFold provider "amphora" || EqualFold provider "octavia".

Definition amphoraLBOwners (snap : Snapshot) : gmap string string :=
  foldl (λ out lb,
    if decide (LB_ID lb = "" ∨ LB_ProjectID lb = "") then out
    else if isAmphoraProvider (LB_Provider lb) then <[LB_ID lb := LB_ProjectID lb]> out
    else out) ∅ (LoadBalancers snap).

Record amphoraBinding := mkBinding { owner : string; mgmtIP : string }.

Definition amphoraBindings (snap : Snapshot) (owners : gmap string string) : gmap string amphoraBinding :=
  foldl (λ out a,
    if decide (Amp_ComputeID a = "" ∨ EqualFold (Amp_Status a) "DELETED" = true) then out
    else match owners !! Amp_LoadBalancerID a with
         | None => out
         | Some o => <[Amp_ComputeID a := mkBinding o (Amp_LBNetworkIP a)]> out
         end) ∅ (Amphorae snap).

Definition portHasIP (p : Port) (ip : string) : bool :=
  existsb (λ f, bool_decide (Fip_IPAddress f = ip)) (Port_FixedIPs p).
Definition isManagementPort (b : amphoraBinding) (p : Port) : bool :=
  negb (bool_decide (mgmtIP b = "")) && portHasIP p (mgmtIP b).

Definition amphoraDataPorts (snap : Snapshot) (amps : gmap string amphoraBinding) : gmap string string :=
  foldl (λ out p,
    match amps !! Port_DeviceID p with
    | None => out
    | Some amp => if isManagementPort amp p then out else <[Port_ID p := owner amp]> out
    end) ∅ (Ports snap).

(** The Go code answers nil early for empty inputs; a nil map reads as empty. *)
Definition AmphoraOwnerByPort (snap : Snapshot) : gmap string string :=
  amphoraDataPorts snap (amphoraBindings snap (amphoraLBOwners snap)).

Record AmphoraBaseIP := mkBaseIP { Base_ProjectID : string; Base_Addr : Z }.

Definition AmphoraBaseIPs (snap : Snapshot) : list AmphoraBaseIP :=
  let byPort := AmphoraOwnerByPort snap in
  Ports snap ≫= λ p,
    match byPort !! Port_ID p with
    | None => []
    | Some o => omap (λ f, ip ← ParseAddr4 (Fip_IPAddress f); Some (mkBaseIP o ip)) (Port_FixedIPs p)
    end.

(** ** External networks: what is picked *)

Lemma elem_of_go_range_keys `{GoRange} (m : gmap string ()) s : s ∈ (go_range m).*1 ↔ is_Some (m !! s).
Proof.
  rw list_elem_of_fmap. split.
  - intros ([? []] & -> & Hin%elem_of_go_range). by eexists.
  - intros [[] Hs]. exists (s, ()). by rw elem_of_go_range.
Qed.

Section dedupe.
Context `{GoRange}.

Lemma elem_of_dedupe l s : s ∈ dedupe l ↔ s ∈ l ∧ s ≠ "".
Proof.
  rw /dedupe sort_strings_perm elem_of_go_range_keys.
  pose proof (elem_of_foldl (λ (m : gmap string ()) s, is_Some (m !! s))
    (λ m s, if decide (s ≠ "") then <[s := ()]> m else m) (λ b x, b ≠ "" ∧ x = b)) as E.
  rw E; last first.
  - rw lookup_empty. split; [intros [[]|(? & ? & ? & ->)]; [done|by split]|].
    intros [? ?]. right. by exists s.
  - intros m a x. case_decide as Ha; last naive_solver.
    rw lookup_insert_is_Some. destruct (decide (a = x)); naive_solver.
Qed.
Lemma dedupe_sorted l : StronglySorted string_le (dedupe l).
Proof. apply sort_strings_sorted. Qed.
Lemma NoDup_dedupe l : NoDup (dedupe l).
Proof. rw /dedupe sort_strings_perm. apply NoDup_go_range. Qed.
(** The result depends on the set of labels only. *)
Lemma dedupe_ext l1 l2 : (∀ s, s ∈ l1 ↔ s ∈ l2) → dedupe l1 = dedupe l2.
Proof.
  intros E. apply (StronglySorted_unique string_le); try apply dedupe_sorted.
  apply NoDup_Permutation; try apply NoDup_dedupe. intros s. by rw !elem_of_dedupe E.
Qed.
End dedupe.

Section membership.
Variable snap : Snapshot.

Lemma elem_of_addInterface ext fips acc sub x :
  let acc' := foldl (addInterface ext snap) acc fips in
  (x ∈ get_all acc'.1 sub ↔ x ∈ get_all acc.1 sub ∨
     ∃ f, f ∈ fips ∧ Fip_SubnetID f = sub ∧ x = ext) ∧
  (x ∈ get_all acc'.2 sub ↔ x ∈ get_all acc.2 sub ∨
     ∃ f, f ∈ fips ∧ Fip_SubnetID f = sub ∧ x = ext ∧
       default "" (subnetGateways snap !! sub) ≠ "" ∧
       Fip_IPAddress f = default "" (subnetGateways snap !! sub)).
Proof.
  cbn zeta. split.
  - apply (elem_of_foldl (λ acc x, x ∈ get_all acc.1 sub) (addInterface ext snap)
      (λ f x, Fip_SubnetID f = sub ∧ x = ext)).
    intros [a1 a2] f y. rw /addInterface /= elem_of_append_at. naive_solver.
  - apply (elem_of_foldl (λ acc x, x ∈ get_all acc.2 sub) (addInterface ext snap)
      (λ f x, Fip_SubnetID f = sub ∧ x = ext ∧ default "" (subnetGateways snap !! sub) ≠ "" ∧
         Fip_IPAddress f = default "" (subnetGateways snap !! sub))).
    intros [a1 a2] f y. rw /addInterface /=. case_decide as Hd; simpl.
    + rw elem_of_append_at. naive_solver.
    + split; [by left|intros [?|(<- & _ & ?)]; [done|by destruct Hd]].
Qed.

Definition interface_adds (sub : string) (p : Port) (x : string) : Prop :=
  Port_DeviceOwner p = DeviceOwnerRouterInterface ∧
  routerExtOf snap !! Port_DeviceID p = Some x ∧
  ∃ f, f ∈ Port_FixedIPs p ∧ Fip_SubnetID f = sub.
Definition gateway_adds (sub : string) (p : Port) (x : string) : Prop :=
  Port_DeviceOwner p = DeviceOwnerRouterInterface ∧
  routerExtOf snap !! Port_DeviceID p = Some x ∧
  ∃ f, f ∈ Port_FixedIPs p ∧ Fip_SubnetID f = sub ∧
    default "" (subnetGateways snap !! sub) ≠ "" ∧
    Fip_IPAddress f = default "" (subnetGateways snap !! sub).

Lemma elem_of_anyExt sub x :
  x ∈ get_all (interfaceExts snap).1 sub ↔ ∃ p, p ∈ Ports snap ∧ interface_adds sub p x.
Proof.
  rw /interfaceExts.
  rw (elem_of_foldl (λ acc x, x ∈ get_all acc.1 sub) (addRouterPort snap) (interface_adds sub)).
  - intros acc p y. rw /addRouterPort /interface_adds. case_decide as Hd; first naive_solver.
    destruct (routerExtOf snap !! Port_DeviceID p) as [ext|]; last naive_solver.
    rw (proj1 (elem_of_addInterface ext (Port_FixedIPs p) acc sub y)). naive_solver.
  - rw /get_all /= lookup_empty elem_of_nil. naive_solver.
Qed.
Lemma elem_of_gwExt sub x :
  x ∈ get_all (interfaceExts snap).2 sub ↔ ∃ p, p ∈ Ports snap ∧ gateway_adds sub p x.
Proof.
  rw /interfaceExts.
  rw (elem_of_foldl (λ acc x, x ∈ get_all acc.2 sub) (addRouterPort snap) (gateway_adds sub)).
  - intros acc p y. rw /addRouterPort /gateway_adds. case_decide as Hd; first naive_solver.
    destruct (routerExtOf snap !! Port_DeviceID p) as [ext|]; last naive_solver.
    rw (proj2 (elem_of_addInterface ext (Port_FixedIPs p) acc sub y)). naive_solver.
  - rw /get_all /= lookup_empty elem_of_nil. naive_solver.
Qed.
Lemma elem_of_fipExts pid x :
  x ∈ get_all (fipExts snap) pid ↔
  ∃ f, f ∈ FloatingIPs snap ∧ Float_PortID f = pid ∧ pid ≠ "" ∧ Float_FloatingNetworkID f ≠ "" ∧
    x = default "" (netLabels snap !! Float_FloatingNetworkID f).
Proof.
  rw /fipExts.
  rw (elem_of_foldl (λ m x, x ∈ get_all m pid) _ (λ f x, Float_PortID f = pid ∧ pid ≠ "" ∧
    Float_FloatingNetworkID f ≠ "" ∧ x = default "" (netLabels snap !! Float_FloatingNetworkID f))).
  - intros m f y. case_decide as Hd; first naive_solver.
    rw elem_of_append_at. naive_solver.
  - rw /get_all lookup_empty elem_of_nil. naive_solver.
Qed.
Lemma elem_of_subnetExt sub x :
  x ∈ subnetExt snap sub ↔
  (∃ p, p ∈ Ports snap ∧ gateway_adds sub p x) ∨
  ((¬ ∃ p y, p ∈ Ports snap ∧ gateway_adds sub p y) ∧ ∃ p, p ∈ Ports snap ∧ interface_adds sub p x).
Proof.
  rw /subnetExt -elem_of_gwExt -elem_of_anyExt (surjective_pairing (interfaceExts snap)).
  assert (length (get_all (interfaceExts snap).2 sub) = 0%nat ↔
    ¬ ∃ p y, p ∈ Ports snap ∧ gateway_adds sub p y) as Hz.
  { rw length_zero_iff_nil. split.
    - intros E (p & y & Hp). assert (y ∈ get_all (interfaceExts snap).2 sub) as Hy
        by (apply elem_of_gwExt; by exists p). rw E in Hy. by apply elem_of_nil in Hy.
    - intros Hn. apply elem_of_nil_inv. intros y Hy%elem_of_gwExt. apply Hn.
      destruct Hy as [p ?]. by exists p, y. }
  case_decide as Hd.
  - split; [by left|]. intros [?|[?%Hz _]]; [done|lia].
  - assert (length (get_all (interfaceExts snap).2 sub) = 0%nat) as E by lia.
    split; [intros ?; right; split; [by apply Hz|done]|].
    intros [Hin|[_ ?]]; last done. apply length_zero_iff_nil in E. rw E in Hin.
    by apply elem_of_nil in Hin.
Qed.
End membership.

(** The maps built from the lists, as insertion loops. *)
Definition routerExt_row (snap : Snapshot) (r : Router) : option (string * string) :=
  if decide (Router_ExternalNetworkID r ≠ "")
  then Some (Router_ID r, default "" (netLabels snap !! Router_ExternalNetworkID r)) else None.
Lemma routerExtOf_loop snap : routerExtOf snap = insertAll (omap (routerExt_row snap) (Routers snap)) ∅.
Proof.
  apply foldl_insertAll. intros m r. rw /routerExt_row. by case_decide.
Qed.
Definition candidates_row `{GoRange} (snap : Snapshot) (p : Port) : option (string * portCandidates) :=
  if IsVMPort (Port_DeviceOwner p) then
    match dedupe (rawCandidates snap p) with
    | [] => None
    | c :: cs => Some (Port_ID p, mkCandidates (c :: cs) c)
    end
  else None.
Lemma externalCandidates_loop `{GoRange} snap :
  externalCandidatesByPort snap = insertAll (omap (candidates_row snap) (Ports snap)) ∅.
Proof.
  apply foldl_insertAll. intros m p. rw /candidates_row.
  destruct (IsVMPort _); last done. by destruct (dedupe _).
Qed.
Lemma ExternalNetworkByPort_fmap `{GoRange} snap :
  ExternalNetworkByPort snap = picked <$> externalCandidatesByPort snap.
Proof.
  rw /ExternalNetworkByPort.
  rw (foldl_insertAll (λ kv, Some (kv.1, picked kv.2))) //.
  rw (_ : omap _ _ = prod_map id picked <$> go_range (externalCandidatesByPort snap)).
  { induction (go_range _) as [|[k v] l IH]; csimpl; [done|by rw IH]. }
  apply map_eq. intros k. rw lookup_fmap.
  assert (NoDup (prod_map id picked <$> go_range (externalCandidatesByPort snap)).*1) as Hnd.
  { rw -list_fmap_compose. apply NoDup_go_range. }
  destruct (externalCandidatesByPort snap !! k) as [c|] eqn:E; simpl.
  - apply insertAll_lookup; first done. apply list_elem_of_fmap. exists (k, c).
    split; first done. by apply elem_of_go_range.
  - rw insertAll_notin //. rw -list_fmap_compose. intros ([k' v] & -> & Hin%elem_of_go_range)%list_elem_of_fmap.
    simpl in E. congruence.
Qed.

(** Two listings of the same resources. *)
Record same_resources (s t : Snapshot) : Prop := mkSame {
  same_networks : Networks s ≡ₚ Networks t; unique_networks : NoDup (Net_ID <$> Networks s);
  same_subnets : Subnets s ≡ₚ Subnets t; unique_subnets : NoDup (Sub_ID <$> Subnets s);
  same_routers : Routers s ≡ₚ Routers t; unique_routers : NoDup (Router_ID <$> Routers s);
  same_ports : Ports s ≡ₚ Ports t; unique_ports : NoDup (Port_ID <$> Ports s);
  same_fips : FloatingIPs s ≡ₚ FloatingIPs t }.

Section listing_order.
Context `{GoRange} (s t : Snapshot).
Hypothesis Hsame : same_resources s t.

Lemma same_netLabels : netLabels s = netLabels t.
Proof.
  destruct Hsame. apply insertAll_perm; [by rw -list_fmap_compose|by apply fmap_Permutation].
Qed.
Lemma same_gateways : subnetGateways s = subnetGateways t.
Proof.
  destruct Hsame. apply insertAll_perm; [by rw -list_fmap_compose|by apply fmap_Permutation].
Qed.
Lemma same_routerExt : routerExtOf s = routerExtOf t.
Proof.
  destruct Hsame. rw !routerExtOf_loop.
  assert (routerExt_row t = routerExt_row s) as ->.
  { rw /routerExt_row. by rw same_netLabels. }
  apply insertAll_perm; last by f_equiv.
  apply (NoDup_omap_keys _ Router_ID); last done.
  intros r kv. rw /routerExt_row. case_decide; last done. by intros [= <-].
Qed.
Lemma same_raw p x : x ∈ rawCandidates s p ↔ x ∈ rawCandidates t p.
Proof.
  assert (∀ pid y, y ∈ get_all (fipExts s) pid ↔ y ∈ get_all (fipExts t) pid) as Hf.
  { intros pid y. rw !elem_of_fipExts same_netLabels. by setoid_rewrite (same_fips _ _ Hsame). }
  assert (∀ sub y, y ∈ subnetExt s sub ↔ y ∈ subnetExt t sub) as Hs.
  { intros sub y. rw !elem_of_subnetExt /gateway_adds /interface_adds same_gateways same_routerExt.
    by setoid_rewrite (same_ports _ _ Hsame). }
  rw /rawCandidates.
  assert (length (get_all (fipExts s) (Port_ID p)) = 0%nat ↔
          length (get_all (fipExts t) (Port_ID p)) = 0%nat) as Hz.
  { rw !length_zero_iff_nil. split; intros E; apply elem_of_nil_inv; intros y Hy%Hf;
      rw E in Hy; by apply elem_of_nil in Hy. }
  destruct (decide (length (get_all (fipExts s) (Port_ID p)) = 0%nat)) as [E|E].
  - rw decide_True; first by apply Hz. rw !list_elem_of_bind. by setoid_rewrite Hs.
  - rw decide_False; first by rw -Hz. apply Hf.
Qed.
Lemma same_candidates : externalCandidatesByPort s = externalCandidatesByPort t.
Proof.
  rw !externalCandidates_loop.
  assert (∀ l, omap (candidates_row t) l = omap (candidates_row s) l) as ->.
  { intros l. induction l as [|p l IH]; csimpl; first done. rw IH.
    rw /candidates_row (dedupe_ext (rawCandidates t p) (rawCandidates s p)) //.
    intros x. by rw same_raw. }
  apply insertAll_perm; last by rw (same_ports _ _ Hsame).
  apply (NoDup_omap_keys _ Port_ID); last by apply (unique_ports _ _ Hsame).
  intros p kv. rw /candidates_row. destruct (IsVMPort _); last done.
  destruct (dedupe _); first done. by intros [= <-].
Qed.
End listing_order.

(** the external network attributed to a port does not depend on the order
    the API lists the resources in, so an unchanged topology never re-labels a
    live series. *)
Theorem external_network_stable `{GoRange} s t :
  same_resources s t → ExternalNetworkByPort s = ExternalNetworkByPort t.
Proof. intros Hs. by rw !ExternalNetworkByPort_fmap (same_candidates _ _ Hs). Qed.

(** ** What the external network of a port is *)

Section path.
Variable snap : Snapshot.

(** A label some external path of the port leads through: its bound floating
    IPs if there is any, else for each of its subnets the routers that hold
    the subnet's gateway address, else any attached router. *)
Definition bound_fip (p : Port) (f : FloatingIP) : Prop :=
  f ∈ FloatingIPs snap ∧ Float_PortID f = Port_ID p ∧ Port_ID p ≠ "" ∧ Float_FloatingNetworkID f ≠ "".
Definition subnet_path (sub x : string) : Prop :=
  (∃ q, q ∈ Ports snap ∧ gateway_adds snap sub q x) ∨
  ((¬ ∃ q y, q ∈ Ports snap ∧ gateway_adds snap sub q y) ∧
   ∃ q, q ∈ Ports snap ∧ interface_adds snap sub q x).
Definition external_path (p : Port) (x : string) : Prop :=
  x ≠ "" ∧
  ((∃ f, bound_fip p f ∧ x = default "" (netLabels snap !! Float_FloatingNetworkID f)) ∨
   ((¬ ∃ f, bound_fip p f) ∧
    ∃ fip, fip ∈ Port_FixedIPs p ∧ subnet_path (Fip_SubnetID fip) x)).

Lemma elem_of_raw p x : x ≠ "" → x ∈ rawCandidates snap p ↔ external_path p x.
Proof.
  intros Hx. rw /rawCandidates /external_path.
  assert (length (get_all (fipExts snap) (Port_ID p)) = 0%nat ↔ ¬ ∃ f, bound_fip p f) as Hz.
  { rw length_zero_iff_nil. split.
    - intros E (f & Hf & Hp & Hne & Hn).
      assert (default "" (netLabels snap !! Float_FloatingNetworkID f) ∈
        get_all (fipExts snap) (Port_ID p)) as Hy by (apply elem_of_fipExts; by exists f).
      rw E in Hy. by apply elem_of_nil in Hy.
    - intros Hn. apply elem_of_nil_inv. intros y Hy%elem_of_fipExts. apply Hn.
      destruct Hy as (f & ? & ? & ? & ? & _). by exists f. }
  case_decide as Hd.
  - rw list_elem_of_bind. setoid_rewrite elem_of_subnetExt. rw /subnet_path. apply Hz in Hd.
    split.
    + intros (fip & Hs & Hin). split; first done. right. split; first done. by exists fip.
    + intros [_ [(f & Hf & _)|[_ (fip & Hin & Hs)]]]; first (exfalso; apply Hd; by exists f).
      by exists fip.
  - rw elem_of_fipExts. split.
    + intros (f & ? & ? & ? & ? & ->). split; first done. left. by exists f.
    + intros [_ [(f & (? & ? & ? & ?) & ->)|[Hno _]]]; [by exists f|].
      exfalso. apply Hd. by apply Hz.
Qed.

Lemma dedupe_head `{GoRange} l c cs :
  dedupe l = c :: cs → c ∈ l ∧ c ≠ "" ∧ ∀ y, y ∈ l → y ≠ "" → string_le c y.
Proof.
  intros E. assert (c ∈ dedupe l) as Hc by (rw E; left). apply elem_of_dedupe in Hc as [? ?].
  split_and!; [done..|]. intros y Hy Hne.
  assert (y ∈ dedupe l) as Hin by (by apply elem_of_dedupe).
  pose proof (dedupe_sorted l) as Hs. rw E in Hs Hin.
  apply StronglySorted_inv in Hs as [_ Hall]. rw Forall_forall in Hall.
  apply elem_of_cons in Hin as [->|?]; [done|by apply Hall].
Qed.

(** a VM port bills to the least label among its external paths, where a
    bound floating IP overrides every router and a router holding the
    subnet's gateway address overrides the others; a port without a path,
    and only such a port, has no label. *)
Theorem external_network_spec `{GoRange} p x :
  NoDup (Port_ID <$> Ports snap) → p ∈ Ports snap → IsVMPort (Port_DeviceOwner p) = true →
  (ExternalNetworkByPort snap !! Port_ID p = Some x ↔
   external_path p x ∧ ∀ y, external_path p y → string_le x y) ∧
  (ExternalNetworkByPort snap !! Port_ID p = None ↔ ∀ y, ¬ external_path p y).
Proof.
  intros Hnd Hp Hvm. rw ExternalNetworkByPort_fmap externalCandidates_loop lookup_fmap.
  rw (insert_loop_row (candidates_row snap) Port_ID) //.
  { intros q kv. rw /candidates_row. destruct (IsVMPort (Port_DeviceOwner q)); last done.
    destruct (dedupe _); first done. by intros [= <-]. }
  rw /candidates_row Hvm.
  destruct (dedupe (rawCandidates snap p)) as [|c cs] eqn:E; simpl.
  - assert (∀ y, ¬ external_path p y) as Hno.
    { intros y Hy. pose proof Hy as [Hne _]. apply (elem_of_raw p y Hne) in Hy.
      assert (y ∈ dedupe (rawCandidates snap p)) as Hin by (by apply elem_of_dedupe).
      rw E in Hin. by apply elem_of_nil in Hin. }
    split; [split; [done|intros [Hx _]; by apply Hno in Hx]|by split].
  - apply dedupe_head in E as (Hc & Hne & Hle). apply (elem_of_raw p c Hne) in Hc.
    assert (∀ y, external_path p y → string_le c y) as Hmin.
    { intros y Hy. pose proof Hy as [Hy0 _]. apply Hle; last done. by apply elem_of_raw. }
    split; [|split; [done|intros Hn; exfalso; by eapply Hn]].
    split; [intros [= <-]; done|intros [Hx Hxle]]. f_equal.
    apply (anti_symm string_le); [by apply Hmin|by apply Hxle].
Qed.
End path.

(** ** Amphora ports: what is answered *)

Section octavia.
Variable snap : Snapshot.

Definition live (a : Amphora) : Prop :=
  Amp_ComputeID a ≠ "" ∧ EqualFold (Amp_Status a) "DELETED" = false.
Definition owned_lb (lb : LoadBalancer) (o : string) : Prop :=
  lb ∈ LoadBalancers snap ∧ LB_ID lb ≠ "" ∧ LB_ProjectID lb = o ∧ o ≠ "" ∧
  isAmphoraProvider (LB_Provider lb) = true.
(** The port sits on a live Amphora of a load balancer of tenant [o], and is
    not the Amphora's management port. *)
Definition serves (p : Port) (o : string) : Prop :=
  ∃ a lb, a ∈ Amphorae snap ∧ live a ∧ Amp_ComputeID a = Port_DeviceID p ∧
    owned_lb lb o ∧ LB_ID lb = Amp_LoadBalancerID a ∧
    ¬ (Amp_LBNetworkIP a ≠ "" ∧ portHasIP p (Amp_LBNetworkIP a) = true).

Definition lb_row (lb : LoadBalancer) : option (string * string) :=
  if decide (LB_ID lb = "" ∨ LB_ProjectID lb = "") then None
  else if isAmphoraProvider (LB_Provider lb) then Some (LB_ID lb, LB_ProjectID lb) else None.
Definition amphora_row (owners : gmap string string) (a : Amphora) : option (string * amphoraBinding) :=
  if decide (Amp_ComputeID a = "" ∨ EqualFold (Amp_Status a) "DELETED" = true) then None
  else o ← owners !! Amp_LoadBalancerID a; Some (Amp_ComputeID a, mkBinding o (Amp_LBNetworkIP a)).
Definition data_row (amps : gmap string amphoraBinding) (p : Port) : option (string * string) :=
  b ← amps !! Port_DeviceID p;
  if isManagementPort b p then None else Some (Port_ID p, owner b).

Hypothesis unique_lbs : NoDup (LB_ID <$> LoadBalancers snap).
Hypothesis unique_instances : ∀ a b, a ∈ Amphorae snap → b ∈ Amphorae snap →
  live a → live b → Amp_ComputeID a = Amp_ComputeID b → a = b.

Lemma lookup_amphoraLBOwners k o :
  amphoraLBOwners snap !! k = Some o ↔ ∃ lb, owned_lb lb o ∧ LB_ID lb = k.
Proof.
  rw /amphoraLBOwners (foldl_insertAll lb_row).
  { intros m lb. rw /lb_row. case_decide; [done|by destruct (isAmphoraProvider _)]. }
  assert (∀ lb kv, lb_row lb = Some kv ↔ kv = (LB_ID lb, LB_ProjectID lb) ∧ LB_ID lb ≠ "" ∧
    LB_ProjectID lb ≠ "" ∧ isAmphoraProvider (LB_Provider lb) = true) as Hrow.
  { intros lb kv. rw /lb_row. case_decide; first naive_solver.
    destruct (isAmphoraProvider _); naive_solver. }
  rw insert_loop_iff.
  - intros x y kv kw Hx Hy (-> & _)%Hrow (-> & _)%Hrow E. simpl in E.
    by rw (NoDup_fmap_eq LB_ID _ x y unique_lbs Hx Hy E).
  - setoid_rewrite Hrow. rw /owned_lb. naive_solver.
Qed.
Lemma lookup_amphoraBindings k b :
  amphoraBindings snap (amphoraLBOwners snap) !! k = Some b ↔
  ∃ a lb, a ∈ Amphorae snap ∧ live a ∧ Amp_ComputeID a = k ∧ owned_lb lb (owner b) ∧
    LB_ID lb = Amp_LoadBalancerID a ∧ mgmtIP b = Amp_LBNetworkIP a.
Proof.
  rw /amphoraBindings (foldl_insertAll (amphora_row (amphoraLBOwners snap))).
  { intros m a. rw /amphora_row. case_decide; [done|by destruct (amphoraLBOwners snap !! _)]. }
  assert (∀ a kv, amphora_row (amphoraLBOwners snap) a = Some kv ↔ live a ∧ kv.1 = Amp_ComputeID a ∧
    amphoraLBOwners snap !! Amp_LoadBalancerID a = Some (owner kv.2) ∧
    mgmtIP kv.2 = Amp_LBNetworkIP a) as Hrow.
  { intros a [k' [o m]]. rw /amphora_row /live. case_decide as Hd; simpl.
    - split; [done|intros ([Hc Hs] & _); destruct Hd; congruence].
    - assert (EqualFold (Amp_Status a) "DELETED" = false)
        by (destruct (EqualFold _ _) eqn:?; [destruct Hd; by right|done]).
      destruct (amphoraLBOwners snap !! _); simpl; naive_solver. }
  rw insert_loop_iff.
  - intros x y [kx [ox mx]] [ky [oy my]] Hx Hy (Lx & Ex & Ox & Mx)%Hrow (Ly & Ey & Oy & My)%Hrow E.
    simpl in *. assert (x = y) by (apply unique_instances; congruence). congruence.
  - setoid_rewrite Hrow. simpl. setoid_rewrite lookup_amphoraLBOwners. naive_solver.
Qed.

(** a port's traffic is attributed to a load balancer's owner exactly when
    the port sits on a live Amphora of one of that tenant's Amphora load
    balancers and is not the Amphora's management port. *)
Theorem amphora_owner_spec p o :
  NoDup (Port_ID <$> Ports snap) → p ∈ Ports snap →
  AmphoraOwnerByPort snap !! Port_ID p = Some o ↔ serves p o.
Proof.
  intros Hnd Hp. rw /AmphoraOwnerByPort /amphoraDataPorts.
  rw (foldl_insertAll (data_row (amphoraBindings snap (amphoraLBOwners snap)))).
  { intros m q. rw /data_row. destruct (_ !! Port_DeviceID q); [simpl|done].
    by destruct (isManagementPort _ _). }
  rw (insert_loop_row _ Port_ID) //.
  { intros q kv. rw /data_row. destruct (_ !! Port_DeviceID q); simpl; last done.
    destruct (isManagementPort _ _); [done|by intros [= <-]]. }
  assert (∀ b, isManagementPort b p = false ↔ ¬ (mgmtIP b ≠ "" ∧ portHasIP p (mgmtIP b) = true)) as Hm.
  { intros b. rw /isManagementPort. case_bool_decide; destruct (portHasIP _ _); naive_solver. }
  assert (snd <$> data_row (amphoraBindings snap (amphoraLBOwners snap)) p = Some o ↔
    ∃ b, amphoraBindings snap (amphoraLBOwners snap) !! Port_DeviceID p = Some b ∧
      owner b = o ∧ isManagementPort b p = false) as ->.
  { rw /data_row. destruct (_ !! Port_DeviceID p) as [b|]; simpl; last naive_solver.
    destruct (isManagementPort b p) eqn:Em; simpl; split.
    all: try done.
    - intros (b' & [= <-] & _ & ?). congruence.
    - intros [= <-]. by exists b.
    - by intros (b' & [= <-] & <- & _). }
  setoid_rewrite Hm. setoid_rewrite lookup_amphoraBindings. rw /serves. split.
  - intros (b & (a & lb & ? & ? & ? & ? & ? & E) & <- & Hn). rw E in Hn. by exists a, lb.
  - intros (a & lb & ? & ? & ? & ? & ? & Hn). exists (mkBinding o (Amp_LBNetworkIP a)).
    split; [by exists a, lb|done].
Qed.
End octavia.

Lemma elem_of_AmphoraBaseIPs snap b :
  b ∈ AmphoraBaseIPs snap ↔
  ∃ p o f ip, p ∈ Ports snap ∧ AmphoraOwnerByPort snap !! Port_ID p = Some o ∧
    f ∈ Port_FixedIPs p ∧ ParseAddr4 (Fip_IPAddress f) = Some ip ∧ b = mkBaseIP o ip.
Proof.
  rw /AmphoraBaseIPs list_elem_of_bind. split.
  - intros (p & Hb & Hp). destruct (AmphoraOwnerByPort snap !! Port_ID p) as [o|] eqn:Eo;
      last by apply elem_of_nil in Hb.
    apply list_elem_of_omap in Hb as (f & Hf & E).
    destruct (ParseAddr4 (Fip_IPAddress f)) as [ip|] eqn:Ei; simplify_eq/=.
    by exists p, o, f, ip.
  - intros (p & o & f & ip & Hp & Eo & Hf & Ei & ->). exists p. split; last done. rw Eo.
    apply list_elem_of_omap. exists f. by rw Ei.
Qed.

Module AttributionExamples.
#[local] Existing Instance list_range.
Import Demo.

Lemma demo_same : same_resources snap snap'.
Proof.
  assert (∀ {A} (x y z w : A), [x; y; z; w] ≡ₚ [w; x; y; z]) as R4.
  { intros. apply (Permutation_app_comm [x; y; z] [w]). }
  constructor; try apply R4; try apply (bool_decide_unpack _); try by vm_compute.
Qed.
Lemma external_network_stable_witness :
  same_resources snap snap' ∧ ExternalNetworkByPort snap = ExternalNetworkByPort snap'.
Proof. split; [exact demo_same|]. refine (external_network_stable _ _ demo_same). Defined.

Example vmA_label : ExternalNetworkByPort snap !! "vmA" = Some "public".
Proof. by vm_compute. Qed.
Lemma external_network_spec_witness :
  external_path snap vmA "public" ∧ ∀ y, external_path snap vmA y → string_le "public" y.
Proof.
  refine (proj1 (proj1 (external_network_spec snap vmA "public" _ _ _)) _);
    by [apply (bool_decide_unpack _); vm_compute|vm_compute].
Defined.

Lemma amphora_owner_spec_witness : serves snap amphora "tA" ∧ ¬ serves snap mgmt "tA".
Proof.
  assert (NoDup (LB_ID <$> LoadBalancers snap)) as Hl by (by apply (bool_decide_unpack _); vm_compute).
  assert (NoDup (Port_ID <$> Ports snap)) as Hp by (by apply (bool_decide_unpack _); vm_compute).
  assert (∀ a b, a ∈ Amphorae snap → b ∈ Amphorae snap → live a → live b →
    Amp_ComputeID a = Amp_ComputeID b → a = b) as Hu.
  { by intros a b ->%list_elem_of_singleton ->%list_elem_of_singleton. }
  split.
  - refine (proj1 (amphora_owner_spec snap Hl Hu amphora "tA" Hp _) _);
      by [apply (bool_decide_unpack _); vm_compute|vm_compute].
  - intros Hs. refine (_ (proj2 (amphora_owner_spec snap Hl Hu mgmt "tA" Hp _) Hs));
      [by vm_compute|by apply (bool_decide_unpack _); vm_compute].
Defined.

(** A router whose external network is not listed labels its interfaces with
    the empty string. *)
Example unlisted_external_network :
  RouterExtMACs (mkSnapshot [] [] [rifA] [r1] [] [] [] [] []) = {[ 2199023255818 := "" ]}.
Proof. by vm_compute. Qed.
End AttributionExamples.
