(* ===== verification/Resolve.v ===== *)
(** * The static-route resolver (internal/neutron/resolve.go)

    The lookup tables of one trie build and the trace of one extra route
    through the routers of the snapshot.  The trace's loop runs at most
    [maxHops] times, which is its fuel here as it is in the code. *)
From S2P Require Import Prelude GoStrings NetIP Bpf Neutron.
From Stdlib Require String.

Definition parsePrefixV4 (s : string) : option Prefix4 := Masked <$> ParsePrefix4 s.

Record resolveIndex := mkIndex {
  routers : gmap string Router;
  subnets : gmap string Subnet;
  networks : gmap string Network;
  routerSubnets : gmap string (list string);
  portsInSubnet : gmap string (gmap string Port);
  maxHops : Z }.

Definition addRouterSubnets (m : gmap string (list string)) (p : Port) : gmap string (list string) :=
  if decide (Port_DeviceOwner p = DeviceOwnerRouterInterface ∧ Port_DeviceID p ≠ "") then
    foldl (λ m fip, if decide (Fip_SubnetID fip = "") then m
                    else append_at (Port_DeviceID p) (Fip_SubnetID fip) m) m (Port_FixedIPs p)
  else m.
Definition addPortIPs (m : gmap string (gmap string Port)) (p : Port) : gmap string (gmap string Port) :=
  foldl (λ m fip, if decide (Fip_SubnetID fip = "" ∨ Fip_IPAddress fip = "") then m
                  else <[Fip_SubnetID fip :=
                         <[Fip_IPAddress fip := p]> (default ∅ (m !! Fip_SubnetID fip))]> m)
    m (Port_FixedIPs p).

Definition newResolveIndex (snap : Snapshot) (hops : Z) : resolveIndex :=
  mkIndex
    (insertAll ((λ r, (Router_ID r, r)) <$> Routers snap) ∅)
    (insertAll ((λ s, (Sub_ID s, s)) <$> Subnets snap) ∅)
    (insertAll ((λ n, (Net_ID n, n)) <$> Networks snap) ∅)
    (foldl addRouterSubnets ∅ (Ports snap))
    (foldl addPortIPs ∅ (Ports snap))
    (if decide (hops < 1) then defaultMaxStaticRouteHops else hops).

Definition zoneFor (ownerTenant sourceTenant : string) (network : Network) : Z :=
  if Net_IsExternal network then ZoneExternal
  else if Net_Shared network then ZoneShared
  else if decide (ownerTenant = sourceTenant) then ZoneSameTenant
  else ZoneOtherTenant.

Definition containsString (s : list string) (v : string) : bool :=
  existsb (λ x, bool_decide (x = v)) s.

Definition supernetOf (cidr : string) (dst : Prefix4) : option Prefix4 :=
  match ParsePrefix4 cidr with
  | None => None
  | Some p => if decide (p4_bits dst < p4_bits p) then None
              else if Contains p (p4_ip dst) then Some p else None
  end.

(** The loop state is the best route so far and its length, -1 before any. *)
Definition lpmStep (destination : Prefix4) (best : option Route * Z) (r : Route) : option Route * Z :=
  match supernetOf (Route_Destination r) destination with
  | None => best
  | Some rp => if decide (best.2 < p4_bits rp) then (Some r, p4_bits rp) else best
  end.
Definition lpmMatchRoute (routes : list Route) (destination : Prefix4) : option Route :=
  let '(best, bestBits) := foldl (lpmStep destination) (None, -1) routes in
  if decide (0 ≤ bestBits) then best else None.

Section resolver.
Variable ri : resolveIndex.

(** [Some s]: the subnet is known, IPv4, and its CIDR contains the hop. *)
Definition anchors (nexthop : Z) (sid : string) : option Subnet :=
  match subnets ri !! sid with
  | None => None
  | Some s =>
      if decide (Sub_IPVersion s ≠ 4) then None
      else match ParsePrefix4 (Sub_CIDR s) with
           | None => None
           | Some p => if Contains p nexthop then Some s else None
           end
  end.
Definition anchorSubnet (routerID : string) (nexthop : Z) : option Subnet :=
  head (omap (anchors nexthop) (get_all (routerSubnets ri) routerID)).

Definition portAt (subnetID ip : string) : option Port :=
  sub ← portsInSubnet ri !! subnetID; sub !! ip.

(** [Some n]: an interface subnet of the router covers the destination. *)
Definition attachedNetwork (enteredThrough : Subnet) (destination : Prefix4) (sid : string) : option Network :=
  match subnets ri !! sid with
  | None => None
  | Some s =>
      if decide (Sub_IPVersion s ≠ 4 ∨ Sub_NetworkID s = Sub_NetworkID enteredThrough) then None
      else match supernetOf (Sub_CIDR s) destination with
           | None => None
           | Some _ => networks ri !! Sub_NetworkID s
           end
  end.
Definition matchNetwork (acc : option Network * list string) (n : Network) : option Network * list string :=
  let '(matchedNet, matchedOwners) := acc in
  (match matchedNet with None => Some n | Some _ => matchedNet end,
   if containsString matchedOwners (Net_ProjectID n) then matchedOwners
   else matchedOwners ++ [Net_ProjectID n]).
(** [None]: no candidate. *)
Definition resolveAtNextRouter (nextRouter : Router) (enteredThrough : Subnet) (destination : Prefix4)
    (sourceTenant : string) : option (Z * option AmbiguityHit) :=
  let '(matchedNet, matchedOwners) :=
    foldl (λ acc sid, match attachedNetwork enteredThrough destination sid with
                      | None => acc
                      | Some n => matchNetwork acc n
                      end) (None, []) (get_all (routerSubnets ri) (Router_ID nextRouter)) in
  match matchedNet with
  | None => None
  | Some n =>
      if decide (1 < length matchedOwners)%nat then
        Some (ZoneExternal,
              Some (mkAmbiguityHit sourceTenant (Router_ID nextRouter) destination matchedOwners))
      else Some (zoneFor (Net_ProjectID n) sourceTenant n, None)
  end.

Definition unresolved : Z * option AmbiguityHit * option CycleHit := (ZoneExternal, None, None).

Fixpoint trace (r : Router) (destination : Prefix4) (hops : nat) (currentRouter : Router)
    (currentNexthop : Z) (visited : gset string) : Z * option AmbiguityHit * option CycleHit :=
  match hops with
  | O => unresolved
  | S hops =>
      match anchorSubnet (Router_ID currentRouter) currentNexthop with
      | None => unresolved
      | Some ifaceSubnet =>
          match portAt (Sub_ID ifaceSubnet) (Addr_String currentNexthop) with
          | None => unresolved
          | Some port =>
              if decide (Port_DeviceOwner port = DeviceOwnerRouterInterface) then
                match routers ri !! Port_DeviceID port with
                | None => unresolved
                | Some nextRouter =>
                    if decide (Router_ID nextRouter ∈ visited) then
                      (ZoneExternal, None,
                       Some (mkCycleHit (Router_ProjectID r) (Router_ID r) destination
                               (Router_ID nextRouter)))
                    else
                      match resolveAtNextRouter nextRouter ifaceSubnet destination (Router_ProjectID r) with
                      | Some (zone, hit) => (zone, hit, None)
                      | None =>
                          match lpmMatchRoute (Router_Routes nextRouter) destination with
                          | None => unresolved
                          | Some nextRoute =>
                              match ParseAddr4 (Route_Nexthop nextRoute) with
                              | None => unresolved
                              | Some nh =>
                                  trace r destination hops nextRouter nh
                                    ({[Router_ID nextRouter]} ∪ visited)
                              end
                          end
                      end
                end
              else if IsComputePort (Port_DeviceOwner port) then
                match networks ri !! Sub_NetworkID ifaceSubnet with
                | None => unresolved
                | Some ifaceNetwork =>
                    (zoneFor (Port_ProjectID port) (Router_ProjectID r) ifaceNetwork, None, None)
                end
              else unresolved
          end
      end
  end.
Definition resolveStaticRouteZone (r : Router) (destination : Prefix4) (initialNexthop : Z) :
    Z * option AmbiguityHit * option CycleHit :=
  trace r destination (Z.to_nat (maxHops ri)) r initialNexthop {[Router_ID r]}.
End resolver.

(** ** The lookup tables *)

Section index.
Variables (snap : Snapshot) (hops : Z).
Let ri := newResolveIndex snap hops.

Lemma insertAll_keyed {A} (key : A → string) (l : list A) k x :
  insertAll ((λ a, (key a, a)) <$> l) ∅ !! k = Some x → x ∈ l ∧ key x = k.
Proof.
  intros [(a & [= -> ->] & Ha)%list_elem_of_fmap|Hl]%insertAll_Some; first done.
  by rw lookup_empty in Hl.
Qed.
Lemma lookup_routers k r : routers ri !! k = Some r → r ∈ Routers snap ∧ Router_ID r = k.
Proof. apply insertAll_keyed. Qed.
Lemma lookup_subnets k s : subnets ri !! k = Some s → s ∈ Subnets snap ∧ Sub_ID s = k.
Proof. apply insertAll_keyed. Qed.
Lemma lookup_networks k n : networks ri !! k = Some n → n ∈ Networks snap ∧ Net_ID n = k.
Proof. apply insertAll_keyed. Qed.
Lemma known_router r : r ∈ Routers snap → Router_ID r ∈ dom (routers ri).
Proof.
  intros Hr. apply elem_of_dom.
  destruct (insertAll_in ((λ r, (Router_ID r, r)) <$> Routers snap) ∅ (Router_ID r)) as (v & _ & E).
  - rw -list_fmap_compose. apply list_elem_of_fmap. by exists r.
  - by exists v.
Qed.
Lemma size_routers : (size (dom (routers ri)) ≤ length (Routers snap))%nat.
Proof.
  transitivity (size (list_to_set (Router_ID <$> Routers snap) : gset string)).
  - apply subseteq_size. intros k [r Hr]%elem_of_dom. apply lookup_routers in Hr as [Hin <-].
    apply elem_of_list_to_set, list_elem_of_fmap. by exists r.
  - rw -(length_fmap Router_ID (Routers snap)). apply size_list_to_set_le.
Qed.

(** The router's interface ports on a subnet. *)
Definition interface_of (rid sid : string) : Prop :=
  ∃ p fip, p ∈ Ports snap ∧ Port_DeviceOwner p = DeviceOwnerRouterInterface ∧
    Port_DeviceID p = rid ∧ fip ∈ Port_FixedIPs p ∧ Fip_SubnetID fip = sid.
Lemma lookup_routerSubnets rid sid :
  sid ∈ get_all (routerSubnets ri) rid → interface_of rid sid.
Proof.
  rw /ri /newResolveIndex /=.
  rw (elem_of_foldl (λ m x, x ∈ get_all m rid) addRouterSubnets (λ p x,
    (Port_DeviceOwner p = DeviceOwnerRouterInterface ∧ Port_DeviceID p ≠ "") ∧
    ∃ fip, fip ∈ Port_FixedIPs p ∧ Fip_SubnetID fip ≠ "" ∧ rid = Port_DeviceID p ∧ x = Fip_SubnetID fip)).
  - intros m p x. rw /addRouterSubnets. case_decide as Hd; last naive_solver.
    rw (elem_of_foldl (λ m x, x ∈ get_all m rid) _ (λ fip x,
      Fip_SubnetID fip ≠ "" ∧ rid = Port_DeviceID p ∧ x = Fip_SubnetID fip)); last naive_solver.
    intros m' fip y. case_decide; first naive_solver. rw elem_of_append_at. naive_solver.
  - rw /get_all lookup_empty /=. intros [[]%elem_of_nil|(p & Hp & [? _] & fip & ? & _ & -> & ->)].
    by exists p, fip.
Qed.
Lemma lookup_portsInSubnet sid ip p :
  portAt ri sid ip = Some p →
  p ∈ Ports snap ∧ ∃ fip, fip ∈ Port_FixedIPs p ∧ Fip_SubnetID fip = sid ∧ Fip_IPAddress fip = ip.
Proof.
  rw /portAt /ri /newResolveIndex /=.
  assert (∀ ps (m : gmap string (gmap string Port)), (∀ q, default ∅ (foldl addPortIPs m ps !! sid) !! ip = Some q →
    default ∅ (m !! sid) !! ip = Some q ∨ (q ∈ ps ∧ ∃ fip, fip ∈ Port_FixedIPs q ∧
      Fip_SubnetID fip = sid ∧ Fip_IPAddress fip = ip))) as Hf.
  { intros ps. induction ps as [|a ps IH]; intros m q; simpl; first by left.
    intros [Hm|(? & ?)]%IH; last (right; split; [by right|done]).
    assert (∀ fips (m : gmap string (gmap string Port)), default ∅ (foldl (λ m fip,
        if decide (Fip_SubnetID fip = "" ∨ Fip_IPAddress fip = "") then m
        else <[Fip_SubnetID fip := <[Fip_IPAddress fip := a]> (default ∅ (m !! Fip_SubnetID fip))]> m)
        m fips !! sid) !! ip = Some q → default ∅ (m !! sid) !! ip = Some q ∨
      (q = a ∧ ∃ fip, fip ∈ fips ∧ Fip_SubnetID fip = sid ∧ Fip_IPAddress fip = ip)) as Hin.
    { intros fips. clear. induction fips as [|f fips IH]; intros m; simpl; first by left.
      intros [Hm|(-> & fip & ? & ?)]%IH.
      - case_decide; first by left. destruct (decide (Fip_SubnetID f = sid)) as [<-|Hs].
        + rw lookup_insert_eq /= lookup_insert_Some in Hm. destruct Hm as [[<- <-]|[_ Hm]]; last by left.
          right. split; first done. exists f. split; [left|done].
        + rw lookup_insert_ne // in Hm. by left.
      - right. split; first done. exists fip. split; [by right|done]. }
    apply Hin in Hm as [?|[-> ?]]; [by left|right; split; [left|done]]. }
  destruct (foldl addPortIPs ∅ (Ports snap) !! sid) as [m|] eqn:E; simpl; last done.
  intros Hm. destruct (Hf (Ports snap) ∅ p) as [Hl|?]; last done.
  - by rw E.
  - by rw !lookup_empty in Hl.
Qed.
End index.

(** ** What a trace answers *)

Lemma lpmMatchRoute_in routes destination r :
  lpmMatchRoute routes destination = Some r →
  r ∈ routes ∧ is_Some (supernetOf (Route_Destination r) destination).
Proof.
  rw /lpmMatchRoute.
  assert (∀ acc r, (foldl (lpmStep destination) acc routes).1 = Some r →
    acc.1 = Some r ∨ (r ∈ routes ∧ is_Some (supernetOf (Route_Destination r) destination))) as Hf.
  { clear. induction routes as [|a l IH]; intros acc r; simpl; first by left.
    intros [Ha|[? ?]]%IH; last (right; split; [by right|done]).
    rw /lpmStep in Ha. destruct (supernetOf (Route_Destination a) destination) as [rp|] eqn:E; last by left.
    case_decide; last by left. injection Ha as <-. right. split; [left|by rw E]. }
  specialize (Hf (None, -1) r). destruct (foldl _ _ _) as [best bits]; simpl in Hf.
  case_decide; last done. intros E. destruct (Hf E) as [?|?]; done.
Qed.

Section trace.
Variables (snap : Snapshot) (hops : Z) (r : Router) (d : Prefix4).
Let ri := newResolveIndex snap hops.

(** The device that holds the next hop [nh] of router [cur]: a port on an
    interface subnet of [cur] whose CIDR contains the hop. *)
Definition at_hop (cur : Router) (nh : Z) (s : Subnet) (p : Port) : Prop :=
  s ∈ Subnets snap ∧ Sub_IPVersion s = 4 ∧ interface_of snap (Router_ID cur) (Sub_ID s) ∧
  (∃ pre, ParsePrefix4 (Sub_CIDR s) = Some pre ∧ Contains pre nh = true) ∧
  p ∈ Ports snap ∧
  ∃ fip, fip ∈ Port_FixedIPs p ∧ Fip_SubnetID fip = Sub_ID s ∧ Fip_IPAddress fip = Addr_String nh.
Definition peer (cur : Router) (nh : Z) (next : Router) : Prop :=
  ∃ s p, at_hop cur nh s p ∧ Port_DeviceOwner p = DeviceOwnerRouterInterface ∧
    next ∈ Routers snap ∧ Router_ID next = Port_DeviceID p.
(** One hop: to the peer router, by one of its routes that covers [d]. *)
Definition hop (from to : Router * Z) : Prop :=
  peer from.1 from.2 to.1 ∧
  ∃ route, route ∈ Router_Routes to.1 ∧ is_Some (supernetOf (Route_Destination route) d) ∧
    ParseAddr4 (Route_Nexthop route) = Some to.2.
(** A network on which router [next] has an interface that covers [d]. *)
Definition covers (next : Router) (n : Network) : Prop :=
  ∃ s, s ∈ Subnets snap ∧ Sub_IPVersion s = 4 ∧ interface_of snap (Router_ID next) (Sub_ID s) ∧
    is_Some (supernetOf (Sub_CIDR s) d) ∧ n ∈ Networks snap ∧ Net_ID n = Sub_NetworkID s.
(** The network and the owner the traffic ends on: [d] is attached to the peer
    router, or the hop is a VM appliance. *)
Definition ends_on (cur : Router) (nh : Z) (owner : string) (n : Network) : Prop :=
  (∃ next, peer cur nh next ∧ covers next n ∧ owner = Net_ProjectID n) ∨
  (∃ s p, at_hop cur nh s p ∧ IsComputePort (Port_DeviceOwner p) = true ∧
     n ∈ Networks snap ∧ Net_ID n = Sub_NetworkID s ∧ owner = Port_ProjectID p).

Lemma anchor_at_hop cur nh s p :
  anchorSubnet ri (Router_ID cur) nh = Some s → portAt ri (Sub_ID s) (Addr_String nh) = Some p →
  at_hop cur nh s p.
Proof.
  rw /anchorSubnet. intros Hs%head_Some_elem_of Hp. apply list_elem_of_omap in Hs as (sid & Hsid & Ha).
  apply lookup_routerSubnets in Hsid. rw /anchors in Ha.
  destruct (subnets ri !! sid) as [s'|] eqn:Es; last done. apply lookup_subnets in Es as [Hs' <-].
  case_decide as Hv; first done. destruct (ParsePrefix4 (Sub_CIDR s')) as [pre|] eqn:Epre; last done.
  destruct (Contains pre nh) eqn:Ec; last done. injection Ha as ->.
  apply lookup_portsInSubnet in Hp as [Hp Hf]. split_and!; try done; try lia; by exists pre.
Qed.

(** The networks the scan of [resolveAtNextRouter] collects. *)
Lemma attached_covers next s sid n :
  interface_of snap (Router_ID next) sid →
  attachedNetwork ri s d sid = Some n → covers next n.
Proof.
  intros Hi. rw /attachedNetwork. destruct (subnets ri !! sid) as [s'|] eqn:Es; last done.
  apply lookup_subnets in Es as [Hs' <-]. case_decide as Hv; first done.
  destruct (supernetOf (Sub_CIDR s') d) eqn:Esup; last done. intros [Hn ?]%lookup_networks.
  exists s'. rw Esup. split_and!; try done. destruct (decide (Sub_IPVersion s' = 4)); [done|].
  destruct Hv. by left.
Qed.

Definition scan_ok (P : Network → Prop) (acc : option Network * list string) : Prop :=
  NoDup acc.2 ∧ (∀ o, o ∈ acc.2 → ∃ n, P n ∧ Net_ProjectID n = o) ∧
  match acc.1 with None => acc.2 = [] | Some n => P n ∧ Net_ProjectID n ∈ acc.2 end.
Lemma matchNetwork_ok (P : Network → Prop) acc n : P n → scan_ok P acc → scan_ok P (matchNetwork acc n).
Proof.
  destruct acc as [m os]. rw /scan_ok /=. intros Hn (Hnd & Hos & Hm).
  assert (containsString os (Net_ProjectID n) = true ↔ Net_ProjectID n ∈ os) as Hc.
  { rw /containsString existsb_exists. setoid_rewrite bool_decide_eq_true.
    setoid_rewrite <- list_elem_of_In. naive_solver. }
  destruct (containsString os (Net_ProjectID n)).
  - split_and!; [done..|]. destruct m; [done|]. split; [done|by apply Hc].
  - assert (Net_ProjectID n ∉ os) as Hni by (intros ?%Hc; done). split_and!.
    + apply NoDup_app. split_and!; [done| |apply NoDup_singleton].
      intros x Hx Hx2%list_elem_of_singleton. by subst.
    + intros o [?|Ho%list_elem_of_singleton]%elem_of_app; [by apply Hos|subst; by exists n].
    + destruct m as [m|]; (split; [|apply elem_of_app]); [by apply Hm|left; by apply Hm|done|].
      right. by apply list_elem_of_singleton.
Qed.
Lemma resolveAtNextRouter_ok next s zone hit :
  resolveAtNextRouter ri next s d (Router_ProjectID r) = Some (zone, hit) →
  match hit with
  | None => ∃ n, covers next n ∧ zone = zoneFor (Net_ProjectID n) (Router_ProjectID r) n
  | Some a => zone = ZoneExternal ∧ Amb_SourceTenant a = Router_ProjectID r ∧
      Amb_RouterID a = Router_ID next ∧ Amb_Destination a = d ∧ NoDup (Amb_Owners a) ∧
      (2 ≤ length (Amb_Owners a))%nat ∧
      ∀ o, o ∈ Amb_Owners a → ∃ n, covers next n ∧ Net_ProjectID n = o
  end.
Proof.
  rw /resolveAtNextRouter.
  assert (scan_ok (covers next) (foldl (λ acc sid, match attachedNetwork ri s d sid with
      | None => acc | Some n => matchNetwork acc n end) (None, [])
      (get_all (routerSubnets ri) (Router_ID next)))) as Hok.
  { apply (foldl_inv (scan_ok (covers next))).
    - rw /scan_ok /=. split_and!; [apply NoDup_nil_2|by intros o []%elem_of_nil|done].
    - intros acc sid Hsid Hacc. destruct (attachedNetwork ri s d sid) as [n|] eqn:E; last done.
      apply matchNetwork_ok; last done. eapply attached_covers; last done.
      by apply lookup_routerSubnets in Hsid. }
  destruct (foldl _ _ _) as [[n|] os]; last done. destruct Hok as (Hnd & Hos & Hn & Hin).
  simpl in *. case_decide as Hd; intros [= <- <-].
  - by split_and!.
  - by exists n.
Qed.

(** What one trace from [cur] answers, [visited] being the routers that led
    to it. *)
Definition answers (cur : Router) (nh : Z) (seen : gset string)
    (out : Z * option AmbiguityHit * option CycleHit) : Prop :=
  match out with
  | (zone, None, None) => zone = ZoneExternal ∨
      ∃ cur' nh' owner n, rtc hop (cur, nh) (cur', nh') ∧ ends_on cur' nh' owner n ∧
        zone = zoneFor owner (Router_ProjectID r) n
  | (zone, Some a, None) => zone = ZoneExternal ∧ Amb_SourceTenant a = Router_ProjectID r ∧
      Amb_Destination a = d ∧ NoDup (Amb_Owners a) ∧ (2 ≤ length (Amb_Owners a))%nat ∧
      ∃ cur' nh' next, rtc hop (cur, nh) (cur', nh') ∧ peer cur' nh' next ∧
        Amb_RouterID a = Router_ID next ∧
        ∀ o, o ∈ Amb_Owners a → ∃ n, covers next n ∧ Net_ProjectID n = o
  | (zone, None, Some c) => zone = ZoneExternal ∧ Cyc_SourceTenant c = Router_ProjectID r ∧
      Cyc_SourceRouter c = Router_ID r ∧ Cyc_Destination c = d ∧
      ∃ cur' nh' next, rtc hop (cur, nh) (cur', nh') ∧ peer cur' nh' next ∧
        Cyc_LoopRouter c = Router_ID next ∧
        (Router_ID next ∈ seen ∨ ∃ x nhx, tc hop (cur, nh) (x, nhx) ∧
           rtc hop (x, nhx) (cur', nh') ∧ Router_ID x = Router_ID next)
  | (_, Some _, Some _) => False
  end.

Lemma answers_hop cur nh next nh' seen out :
  hop (cur, nh) (next, nh') → answers next nh' ({[Router_ID next]} ∪ seen) out →
  answers cur nh seen out.
Proof.
  intros Hh. destruct out as [[zone [a|]] [c|]]; simpl; try done.
  - intros (? & ? & ? & ? & ? & cur' & nh2 & n' & Hr & ?). split_and!; try done.
    exists cur', nh2, n'. split; [by eapply rtc_l|done].
  - intros (? & ? & ? & ? & cur' & nh2 & n' & Hr & ? & ? & Hs). split_and!; try done.
    exists cur', nh2, n'. split_and!; [by eapply rtc_l|done..|].
    destruct Hs as [[->%elem_of_singleton|?]%elem_of_union|(x & nhx & Hx & ? & ?)].
    + right. exists next, nh'. split_and!; [by apply tc_once|done|congruence].
    + by left.
    + right. exists x, nhx. split_and!; [by eapply tc_l|done..].
  - intros [?|(cur' & nh2 & o & n' & Hr & ?)]; [by left|right].
    exists cur', nh2, o, n'. split; [by eapply rtc_l|done].
Qed.

Lemma answers_unresolved cur nh seen : answers cur nh seen unresolved.
Proof. by left. Qed.
Lemma trace_answers fuel cur nh seen : answers cur nh seen (trace ri r d fuel cur nh seen).
Proof.
  induction fuel as [|fuel IH] in cur, nh, seen |- *; cbn [trace]; first apply answers_unresolved.
  destruct (anchorSubnet ri (Router_ID cur) nh) as [s|] eqn:Ea; last apply answers_unresolved.
  destruct (portAt ri (Sub_ID s) (Addr_String nh)) as [p|] eqn:Ep; last apply answers_unresolved.
  pose proof (anchor_at_hop _ _ _ _ Ea Ep) as Hat.
  case_decide as Hrif; last first.
  { destruct (IsComputePort (Port_DeviceOwner p)) eqn:Ec; last apply answers_unresolved.
    destruct (networks ri !! Sub_NetworkID s) as [n|] eqn:En; last apply answers_unresolved.
    apply lookup_networks in En as [Hn En]. simpl. right. exists cur, nh, (Port_ProjectID p), n.
    split_and!; [done| |done]. right. by exists s, p. }
  destruct (routers ri !! Port_DeviceID p) as [next|] eqn:En; last apply answers_unresolved.
  apply lookup_routers in En as [Hnext Enext].
  assert (peer cur nh next) as Hpeer by (by exists s, p).
  case_decide as Hseen.
  { simpl. split_and!; try done. exists cur, nh, next. split_and!; [done..|by left]. }
  destruct (resolveAtNextRouter ri next s d (Router_ProjectID r)) as [[zone [a|]]|] eqn:Er.
  - apply resolveAtNextRouter_ok in Er as (? & ? & ? & ? & ? & ? & ?). simpl. split_and!; try done.
    exists cur, nh, next. by split_and!.
  - apply resolveAtNextRouter_ok in Er as (n & ? & ?). simpl. right. exists cur, nh, (Net_ProjectID n), n.
    split_and!; [done| |done]. left. by exists next.
  - destruct (lpmMatchRoute (Router_Routes next) d) as [route|] eqn:El; last apply answers_unresolved.
    apply lpmMatchRoute_in in El as [Hin Hsup].
    destruct (ParseAddr4 (Route_Nexthop route)) as [nh'|] eqn:Eh; last apply answers_unresolved.
    eapply answers_hop; last apply IH. split; first done. by exists route.
Qed.

(** Fuel beyond the routers not yet visited is never used. *)
Lemma trace_fuel f1 f2 cur nh seen :
  (size (dom (routers ri) ∖ seen) < f1)%nat → (size (dom (routers ri) ∖ seen) < f2)%nat →
  trace ri r d f1 cur nh seen = trace ri r d f2 cur nh seen.
Proof.
  induction f1 as [|f1 IH] in f2, cur, nh, seen |- *; first lia.
  destruct f2 as [|f2]; first lia. intros H1 H2. cbn [trace].
  destruct (anchorSubnet ri (Router_ID cur) nh) as [s|]; last done.
  destruct (portAt ri (Sub_ID s) (Addr_String nh)) as [p|]; last done.
  case_decide; last done. destruct (routers ri !! Port_DeviceID p) as [next|] eqn:En; last done.
  case_decide as Hseen; first done. destruct (resolveAtNextRouter _ _ _ _ _) as [[? ?]|]; first done.
  destruct (lpmMatchRoute _ _) as [route|]; last done.
  destruct (ParseAddr4 _) as [nh'|]; last done.
  assert (size (dom (routers ri) ∖ ({[Router_ID next]} ∪ seen)) < size (dom (routers ri) ∖ seen))%nat.
  { apply subset_size, strict_spec_alt. split; first set_solver. intros E.
    assert (Router_ID next ∈ dom (routers ri) ∖ seen) as Hin.
    { apply elem_of_difference. split; last done. pose proof (lookup_routers _ _ _ _ En) as [_ E2].
      rw E2. by apply elem_of_dom_2 in En. }
    rw -E in Hin. set_solver. }
  apply IH; lia.
Qed.
End trace.

Lemma resolve_incident snap hops r d nh zone amb cyc :
  resolveStaticRouteZone (newResolveIndex snap hops) r d nh = (zone, amb, cyc) →
  (is_Some amb → zone = ZoneExternal ∧ cyc = None) ∧ (is_Some cyc → zone = ZoneExternal ∧ amb = None).
Proof.
  intros E. pose proof (trace_answers snap hops r d (Z.to_nat (maxHops (newResolveIndex snap hops)))
    r nh {[Router_ID r]}) as Ha.
  rw /resolveStaticRouteZone in E. rw E in Ha.
  destruct amb as [a|], cyc as [c|]; simpl in Ha; try done; split; intros []; try done; split; try done;
    by destruct Ha.
Qed.

(** C26: a zone other than EXTERNAL is answered only with a justification: a
    chain of hops through routers of the snapshot, each by a route covering
    the destination, that ends at a network covering the destination or at a
    VM appliance, whose owner and flags give the zone; an incident always
    answers EXTERNAL, an ambiguity names at least two distinct owners of
    networks attached to one router, and a cycle names a router the chain
    reached before. *)
Theorem resolver_sound snap hops r d nh zone amb cyc :
  resolveStaticRouteZone (newResolveIndex snap hops) r d nh = (zone, amb, cyc) →
  match amb, cyc with
  | None, None => zone = ZoneExternal ∨
      ∃ cur nh' owner n, rtc (hop snap d) (r, nh) (cur, nh') ∧ ends_on snap d cur nh' owner n ∧
        zone = zoneFor owner (Router_ProjectID r) n
  | Some a, None => zone = ZoneExternal ∧ NoDup (Amb_Owners a) ∧ (2 ≤ length (Amb_Owners a))%nat ∧
      ∃ cur nh' next, rtc (hop snap d) (r, nh) (cur, nh') ∧ peer snap cur nh' next ∧
        Amb_RouterID a = Router_ID next ∧
        ∀ o, o ∈ Amb_Owners a → ∃ n, covers snap d next n ∧ Net_ProjectID n = o
  | None, Some c => zone = ZoneExternal ∧
      ∃ x nhx cur nh' next, rtc (hop snap d) (r, nh) (x, nhx) ∧ rtc (hop snap d) (x, nhx) (cur, nh') ∧
        peer snap cur nh' next ∧ Router_ID x = Router_ID next ∧ Cyc_LoopRouter c = Router_ID next
  | Some _, Some _ => False
  end.
Proof.
  intros E. pose proof (trace_answers snap hops r d (Z.to_nat (maxHops (newResolveIndex snap hops)))
    r nh {[Router_ID r]}) as Ha.
  rw /resolveStaticRouteZone in E. rw E in Ha. destruct amb as [a|], cyc as [c|]; simpl in Ha; try done.
  - destruct Ha as (? & _ & _ & ? & ? & Hx). by split_and!.
  - destruct Ha as (? & _ & _ & _ & cur & nh' & next & Hr & Hp & El & Hs). split; first done.
    destruct Hs as [Es%elem_of_singleton|(x & nhx & Hx & ? & ?)].
    + exists r, nh, cur, nh', next. by split_and!.
    + exists x, nhx, cur, nh', next. split_and!; try done. by apply tc_rtc.
Qed.

(** C39: a hop limit of at least the number of routers never cuts a trace
    short: every such limit gives the same answer. *)
Theorem resolver_hop_limit snap r d nh h1 h2 :
  r ∈ Routers snap → Z.of_nat (length (Routers snap)) ≤ h1 → Z.of_nat (length (Routers snap)) ≤ h2 →
  resolveStaticRouteZone (newResolveIndex snap h1) r d nh =
  resolveStaticRouteZone (newResolveIndex snap h2) r d nh.
Proof.
  intros Hr H1 H2. assert (0 < length (Routers snap))%nat as Hpos.
  { destruct (Routers snap); [by apply elem_of_nil in Hr|simpl; lia]. }
  rw /resolveStaticRouteZone. cbn [maxHops newResolveIndex].
  rw !(decide_False (P := (_ < 1))); try lia.
  assert (size (dom (routers (newResolveIndex snap h1)) ∖ {[Router_ID r]}) < length (Routers snap))%nat as Hs.
  { pose proof (size_routers snap h1). pose proof (known_router snap h1 r Hr).
    rw size_difference; first set_solver. rw size_singleton. lia. }
  change (trace (newResolveIndex snap h2)) with (trace (newResolveIndex snap h1)).
  apply trace_fuel; lia.
Qed.

Module ResolveExamples.
Import Demo.
Definition dstB : Prefix4 := mkPrefix4 167772672 24. (* 10.0.2.0/24 *)
Definition hopS2 : Z := 168361996. (* 10.9.0.12 *)
Definition index : resolveIndex := newResolveIndex snap defaultMaxStaticRouteHops.

(** The first router's route to the second tenant's subnet. *)
Lemma resolver_sound_witness :
  resolveStaticRouteZone index r1 dstB hopS2 = (ZoneOtherTenant, None, None) ∧
  ∃ cur nh' owner n, rtc (hop snap dstB) (r1, hopS2) (cur, nh') ∧ ends_on snap dstB cur nh' owner n ∧
    ZoneOtherTenant = zoneFor owner (Router_ProjectID r1) n.
Proof.
  assert (resolveStaticRouteZone index r1 dstB hopS2 = (ZoneOtherTenant, None, None)) as E
    by (by vm_compute).
  split; first exact E. destruct (resolver_sound snap defaultMaxStaticRouteHops r1 dstB hopS2 _ _ _ E) as [Hx|Hx]; [done|exact Hx].
Defined.
Lemma resolver_hop_limit_witness :
  resolveStaticRouteZone (newResolveIndex snap 2) r1 dstB hopS2 =
  resolveStaticRouteZone (newResolveIndex snap 16) r1 dstB hopS2.
Proof. apply resolver_hop_limit; [|by vm_compute|by vm_compute]. by apply list_elem_of_here. Defined.
End ResolveExamples.
