(* ===== verification/Trie.v ===== *)
(** * The trie builder (internal/neutron/trie.go)

    The rows of the kernel's subnet_zone_trie, built from a snapshot in five
    steps.  [IsInfraPort] and the resolver are in Neutron and Resolve; the
    timings of the steps are metrics and not modelled. *)
From S2P Require Import Prelude GoStrings NetIP Bpf Neutron Resolve.
From Stdlib Require String.

Section builder.
Context `{GoRange}.

Definition parseAddrV4AsPrefix (s : string) : option Prefix4 :=
  if decide (s = "") then None else (λ ip, mkPrefix4 ip 32) <$> ParseAddr4 s.

Definition groupSubnetsByNetwork (subnets : list Subnet) : gmap string (list Subnet) :=
  foldl (λ out s, if decide (Sub_IPVersion s ≠ 4) then out
                  else append_at (Sub_NetworkID s) s out) ∅ subnets.

Definition addTenant (set : gmap string ()) (id : string) : gmap string () :=
  if decide (id ≠ "") then <[id := ()]> set else set.
Definition collectTenants (networks : list Network) (ports : list Port) (routers : list Router) : list string :=
  let set := foldl (λ m n, addTenant m (Net_ProjectID n)) ∅ networks in
  let set := foldl (λ m p, addTenant m (Port_ProjectID p)) set ports in
  let set := foldl (λ m r, addTenant m (Router_ProjectID r)) set routers in
  sort_strings (go_range set).*1.

(** The loops that keep the first occurrence of each prefix. *)
Definition addPrefix (acc : gmap Prefix4 () * list Prefix4) (p : Prefix4) : gmap Prefix4 () * list Prefix4 :=
  let '(seen, out) := acc in
  match seen !! p with Some _ => (seen, out) | None => (<[p := ()]> seen, out ++ [p]) end.

Definition addSome (acc : gmap Prefix4 () * list Prefix4) (p : option Prefix4) :
    gmap Prefix4 () * list Prefix4 :=
  match p with None => acc | Some p => addPrefix acc p end.

Definition sharedStep (byNetwork : gmap string (list Subnet)) (acc : gmap Prefix4 () * list Prefix4)
    (n : Network) : gmap Prefix4 () * list Prefix4 :=
  if negb (Net_Shared n) || Net_IsExternal n then acc
  else foldl (λ acc s, addSome acc (parsePrefixV4 (Sub_CIDR s))) acc (get_all byNetwork (Net_ID n)).
Definition buildSharedPrefixes (networks : list Network) (byNetwork : gmap string (list Subnet)) : list Prefix4 :=
  (foldl (sharedStep byNetwork) (∅, []) networks).2.

Definition infraPortStep (acc : gmap Prefix4 () * list Prefix4) (p : Port) : gmap Prefix4 () * list Prefix4 :=
  if negb (IsInfraPort (Port_DeviceOwner p)) then acc
  else foldl (λ acc ip, addSome acc (parseAddrV4AsPrefix (Fip_IPAddress ip))) acc (Port_FixedIPs p).
Definition infraGatewayStep (acc : gmap Prefix4 () * list Prefix4) (s : Subnet) : gmap Prefix4 () * list Prefix4 :=
  if decide (Sub_IPVersion s ≠ 4 ∨ Sub_GatewayIP s = "") then acc
  else addSome acc (parseAddrV4AsPrefix (Sub_GatewayIP s)).
Definition buildInfraPrefixes (subnets : list Subnet) (ports : list Port) : list Prefix4 :=
  let acc := foldl infraPortStep (∅, []) ports in
  (foldl infraGatewayStep acc subnets).2.

Record trieBuilder := mkBuilder {
  b_networks : list Network; b_routers : list Router;
  subnetsByNetwork : gmap string (list Subnet);
  tenants : list string;
  sharedPrefixes : list Prefix4; infraPrefixes : list Prefix4;
  b_ri : resolveIndex;
  entries : list TrieEntry; ambiguities : list AmbiguityHit; cycles : list CycleHit }.

Definition newTrieBuilder (snap : Snapshot) (maxHops : Z) : trieBuilder :=
  let byNetwork := groupSubnetsByNetwork (Subnets snap) in
  mkBuilder (Networks snap) (Routers snap) byNetwork
    (collectTenants (Networks snap) (Ports snap) (Routers snap))
    (buildSharedPrefixes (Networks snap) byNetwork)
    (buildInfraPrefixes (Subnets snap) (Ports snap))
    (newResolveIndex snap maxHops) [] [] [].

Definition hasTenants (b : trieBuilder) : bool := bool_decide (0 < length (tenants b))%nat.

Definition add_out (b : trieBuilder) (es : list TrieEntry) (amb : list AmbiguityHit) (cyc : list CycleHit) : trieBuilder :=
  mkBuilder (b_networks b) (b_routers b) (subnetsByNetwork b) (tenants b) (sharedPrefixes b)
    (infraPrefixes b) (b_ri b) (entries b ++ es) (ambiguities b ++ amb) (cycles b ++ cyc).

Definition emitCatchall (b : trieBuilder) : trieBuilder :=
  if negb (hasTenants b) then b else add_out b [mkTrieEntry "" catchall ZoneExternal] [] [].

Definition ownedRow (tenant : string) (b : trieBuilder) (s : Subnet) : trieBuilder :=
  match parsePrefixV4 (Sub_CIDR s) with
  | None => b
  | Some p => add_out b [mkTrieEntry tenant p ZoneSameTenant] [] []
  end.
Definition emitOwnedSubnets (b : trieBuilder) : trieBuilder :=
  foldl (λ b tenant, foldl (λ b n,
    if negb (bool_decide (Net_ProjectID n = tenant)) || Net_Shared n || Net_IsExternal n then b
    else foldl (ownedRow tenant) b (get_all (subnetsByNetwork b) (Net_ID n)))
    b (b_networks b)) b (tenants b).

Definition emitSharedSubnets (b : trieBuilder) : trieBuilder :=
  if negb (hasTenants b) then b
  else foldl (λ b p, add_out b [mkTrieEntry "" p ZoneShared] [] []) b (sharedPrefixes b).

Definition emitInfraPrefixes (b : trieBuilder) : trieBuilder :=
  if negb (hasTenants b) then b
  else let b := foldl (λ b p, add_out b [mkTrieEntry "" p ZoneInfra] [] []) b (infraPrefixes b) in
       add_out b [mkTrieEntry "" metadataPrefix ZoneInfra] [] [].

Definition emitRoute (tenant : string) (r : Router) (b : trieBuilder) (route : Route) : trieBuilder :=
  match parsePrefixV4 (Route_Destination route) with
  | None => b
  | Some destination =>
      match ParseAddr4 (Route_Nexthop route) with
      | None => b
      | Some nh =>
          let '(zone, ambHit, cycHit) := resolveStaticRouteZone (b_ri b) r destination nh in
          add_out b [mkTrieEntry tenant destination zone] (option_list ambHit) (option_list cycHit)
      end
  end.
Definition emitExtraRoutes (b : trieBuilder) : trieBuilder :=
  foldl (λ b tenant, foldl (λ b r,
    if decide (Router_ProjectID r ≠ tenant) then b
    else foldl (emitRoute tenant r) b (Router_Routes r)) b (b_routers b)) b (tenants b).

(** The order of the rows: tenant, then printed prefix, then zone. *)
Definition string_lt (a b : string) : Prop := ¬ string_le b a.
Definition entry_less (a b : TrieEntry) : bool :=
  if decide (TE_TenantID a ≠ TE_TenantID b) then bool_decide (string_lt (TE_TenantID a) (TE_TenantID b))
  else
    let pi := Prefix_String (TE_Prefix a) in
    let pj := Prefix_String (TE_Prefix b) in
    if decide (pi ≠ pj) then bool_decide (string_lt pi pj)
    else bool_decide (TE_Zone a < TE_Zone b).
(** [sort.Slice]: no element is less than an earlier one. *)
Definition entry_le (a b : TrieEntry) : Prop := entry_less b a = false.
#[export] Instance entry_le_dec : RelDecision entry_le.
Proof. intros a b. rw /entry_le. apply _. Defined.
Definition sortEntries (es : list TrieEntry) : list TrieEntry := merge_sort entry_le es.

Definition buildTrie (snap : Snapshot) (maxHops : Z) : list TrieEntry * list AmbiguityHit * list CycleHit :=
  let b := newTrieBuilder snap maxHops in
  let b := emitCatchall b in
  let b := emitOwnedSubnets b in
  let b := emitSharedSubnets b in
  let b := emitInfraPrefixes b in
  let b := emitExtraRoutes b in
  (sortEntries (entries b), ambiguities b, cycles b).
Definition BuildTrie (snap : Snapshot) : list TrieEntry * list AmbiguityHit * list CycleHit :=
  buildTrie snap defaultMaxStaticRouteHops.
End builder.

(** ** The order of the rows *)

Lemma lt_le_trans a b c : string_lt a b → string_le b c → string_lt a c.
Proof. intros Hab Hbc Hca. apply Hab. by transitivity c. Qed.
Lemma string_lt_le a b : string_lt a b → string_le a b.
Proof. intros Hn. destruct (total string_le a b); [done|by destruct Hn]. Qed.
Lemma string_le_ne_lt a b : string_le a b → a ≠ b → string_lt a b.
Proof. intros Hle Hne Hba. apply Hne. by apply (anti_symm string_le). Qed.

(** The order, one component at a time. *)
Lemma entry_le_lex a b :
  entry_le a b ↔
  string_lt (TE_TenantID a) (TE_TenantID b) ∨
  (TE_TenantID a = TE_TenantID b ∧
   (string_lt (Prefix_String (TE_Prefix a)) (Prefix_String (TE_Prefix b)) ∨
    (Prefix_String (TE_Prefix a) = Prefix_String (TE_Prefix b) ∧ TE_Zone a ≤ TE_Zone b))).
Proof.
  assert (∀ x y, ¬ string_lt x y ↔ string_le y x) as Hnlt.
  { intros x y. rw /string_lt. split; [|naive_solver]. by destruct (decide (string_le y x)). }
  assert (∀ x, ¬ string_lt x x) as Hirr by (intros x Hx; by apply Hx).
  rw /entry_le /entry_less. case_decide as Ht.
  - rw bool_decide_eq_false Hnlt. split.
    + intros ?. left. by apply string_le_ne_lt.
    + intros [?|[? _]]; [by apply string_lt_le|congruence].
  - assert (TE_TenantID a = TE_TenantID b) as Et by congruence.
    rw Et. cbn zeta. case_decide as Hp.
    + rw bool_decide_eq_false Hnlt. split.
      * intros ?. right. split; first done. left. by apply string_le_ne_lt.
      * intros [?|[_ [?|[? _]]]]; [by destruct (Hirr (TE_TenantID b))|by apply string_lt_le|congruence].
    + rw bool_decide_eq_false. split.
      * intros ?. right. split; first done. right. split; [congruence|lia].
      * intros [Hx|[_ [Hx|[_ ?]]]]; [by apply Hirr in Hx| |lia].
        rw Hp in Hx. by apply Hirr in Hx.
Qed.
#[export] Instance entry_le_total : Total entry_le.
Proof.
  intros a b. rw !entry_le_lex.
  destruct (decide (TE_TenantID a = TE_TenantID b)) as [->|Ht].
  - destruct (decide (Prefix_String (TE_Prefix a) = Prefix_String (TE_Prefix b))) as [->|Hp].
    + destruct (decide (TE_Zone a ≤ TE_Zone b)); [left|right]; right; (split; [done|]); right; split; try done; lia.
    + destruct (total string_le (Prefix_String (TE_Prefix a)) (Prefix_String (TE_Prefix b)));
        [left|right]; right; (split; [done|]); left; by apply string_le_ne_lt.
  - destruct (total string_le (TE_TenantID a) (TE_TenantID b)); [left|right]; left; by apply string_le_ne_lt.
Qed.
#[export] Instance entry_le_trans : Transitive entry_le.
Proof.
  assert (∀ x y z, string_lt x y → string_lt y z → string_lt x z) as Htr
    by (intros x y z ? ?%string_lt_le; by eapply lt_le_trans).
  intros a b c. rw !entry_le_lex.
  intros [H1|[E1 [H1|[F1 H1]]]] [H2|[E2 [H2|[F2 H2]]]]; rw -?E2 -?F2 ?E1 ?F1; try (left; by eauto);
    right; (split; [congruence|]); try (left; by eauto); right; split; try done; lia.
Qed.
Lemma entry_le_antisymm a b :
  prefix4_ok (TE_Prefix a) → prefix4_ok (TE_Prefix b) → entry_le a b → entry_le b a → a = b.
Proof.
  assert (∀ x y, string_lt x y → string_lt y x → False) as Has.
  { intros x y ? Hyx. apply Hyx. by apply string_lt_le. }
  assert (∀ x, ¬ string_lt x x) as Hirr by (intros x Hx; by apply Hx).
  intros Ha Hb. rw !entry_le_lex.
  intros [H1|[E1 [H1|[F1 H1]]]] [H2|[E2 [H2|[F2 H2]]]]; try (exfalso; by eauto);
    try (exfalso; eapply Hirr; by (rw E1 in H2 || rw E2 in H1 || rw F1 in H2 || rw F2 in H1; eauto)).
  apply Prefix_String_inj in F1; [|done..]. destruct a, b; simpl in *. f_equal; [done|done|lia].
Qed.

(** ** The steps as functions of the snapshot *)

Lemma group_lookup l nid :
  get_all (groupSubnetsByNetwork l) nid = filter (λ s, Sub_IPVersion s = 4 ∧ Sub_NetworkID s = nid) l.
Proof.
  rw /groupSubnetsByNetwork.
  assert (∀ m, get_all (foldl (λ out s, if decide (Sub_IPVersion s ≠ 4) then out
      else append_at (Sub_NetworkID s) s out) m l) nid =
    get_all m nid ++ filter (λ s, Sub_IPVersion s = 4 ∧ Sub_NetworkID s = nid) l) as Hf.
  { induction l as [|s l IH]; intros m; simpl; first by rw app_nil_r.
    rw IH filter_cons. case_decide as Hv; case_decide as Hd; try naive_solver.
    - rw /append_at /get_all. destruct Hd as [_ ->]. rw lookup_insert_eq /=. by rw -app_assoc.
    - rw /append_at /get_all lookup_insert_ne //. intros E. apply Hd. split; [lia|done]. }
  rw Hf /get_all lookup_empty //.
Qed.

Lemma addTenant_Some {A} (id : A → string) l m t :
  is_Some (foldl (λ m a, addTenant m (id a)) m l !! t) ↔
  is_Some (m !! t) ∨ ∃ a, a ∈ l ∧ id a = t ∧ t ≠ "".
Proof.
  apply (elem_of_foldl (λ (m : gmap string ()) t, is_Some (m !! t)) _ (λ a t, id a = t ∧ t ≠ "")).
  intros a b x. rw /addTenant. case_decide; last naive_solver.
  rw lookup_insert_is_Some. destruct (decide (id b = x)); naive_solver.
Qed.
Definition owns_something (snap : Snapshot) (t : string) : Prop :=
  t ≠ "" ∧ ((∃ n, n ∈ Networks snap ∧ Net_ProjectID n = t) ∨
            (∃ p, p ∈ Ports snap ∧ Port_ProjectID p = t) ∨
            (∃ r, r ∈ Routers snap ∧ Router_ProjectID r = t)).
Lemma elem_of_collectTenants `{GoRange} snap t :
  t ∈ collectTenants (Networks snap) (Ports snap) (Routers snap) ↔ owns_something snap t.
Proof.
  rw /collectTenants sort_strings_perm list_elem_of_fmap.
  assert (∀ m : gmap string (), (∃ y, t = y.1 ∧ y ∈ go_range m) ↔ is_Some (m !! t)) as Hk.
  { intros m. split.
    - intros ([? []] & -> & Hin%elem_of_go_range). by eexists.
    - intros [[] Hs]. exists (t, ()). by rw elem_of_go_range. }
  rw Hk !addTenant_Some lookup_empty /owns_something is_Some_alt. naive_solver.
Qed.
Lemma collectTenants_NoDup `{GoRange} ns ps rs : NoDup (collectTenants ns ps rs).
Proof. rw /collectTenants sort_strings_perm. apply NoDup_go_range. Qed.

(** Loops that collect the distinct prefixes. *)
Definition distinct (acc : gmap Prefix4 () * list Prefix4) : Prop :=
  NoDup acc.2 ∧ ∀ p, is_Some (acc.1 !! p) ↔ p ∈ acc.2.
Lemma distinct_addPrefix acc p : distinct acc → distinct (addPrefix acc p).
Proof.
  destruct acc as [seen out]. rw /distinct /addPrefix /=. intros [Hnd Hs].
  destruct (seen !! p) as [u|] eqn:E; simpl; first done. split.
  - apply NoDup_app. split_and!; [done| |apply NoDup_singleton].
    intros x Hx ->%list_elem_of_singleton. apply Hs in Hx. rw E in Hx. by destruct Hx.
  - intros q. rw lookup_insert_is_Some elem_of_app list_elem_of_singleton -Hs.
    destruct (decide (p = q)); naive_solver.
Qed.
Lemma elem_of_addPrefix acc p q : distinct acc → q ∈ (addPrefix acc p).2 ↔ q ∈ acc.2 ∨ q = p.
Proof.
  destruct acc as [seen out]. rw /distinct /addPrefix /=. intros [_ Hs].
  destruct (seen !! p) as [u|] eqn:E; simpl.
  - split; [by left|intros [?| ->]; [done|]]. apply Hs. by rw E.
  - by rw elem_of_app list_elem_of_singleton.
Qed.
(** A loop each of whose rounds adds the prefixes [ps x]. *)
Definition collects {X} (step : gmap Prefix4 () * list Prefix4 → X → gmap Prefix4 () * list Prefix4)
    (adds : X → Prefix4 → Prop) : Prop :=
  ∀ acc x, distinct acc → distinct (step acc x) ∧
    ∀ q, q ∈ (step acc x).2 ↔ q ∈ acc.2 ∨ adds x q.
Lemma collects_foldl {X} step (adds : X → Prefix4 → Prop) l acc :
  collects step adds → distinct acc →
  distinct (foldl step acc l) ∧
  ∀ q, q ∈ (foldl step acc l).2 ↔ q ∈ acc.2 ∨ ∃ x, x ∈ l ∧ adds x q.
Proof.
  intros Hc. induction l as [|x l IH] in acc |- *; simpl; intros Hd.
  - split; first done. intros q. split; [by left|intros [?|(? & []%elem_of_nil & _)]; done].
  - destruct (Hc acc x Hd) as [Hd' Hq]. destruct (IH _ Hd') as [? Hq']. split; first done.
    intros q. rw Hq' Hq. setoid_rewrite elem_of_cons. naive_solver.
Qed.
Lemma collects_one {X} (f : X → option Prefix4) :
  collects (λ acc x, addSome acc (f x)) (λ x q, f x = Some q).
Proof.
  intros acc x Hd. rw /addSome. destruct (f x) as [p|].
  - split; [by apply distinct_addPrefix|]. intros q. rw elem_of_addPrefix //. naive_solver.
  - split; [done|naive_solver].
Qed.
Lemma distinct_nil : distinct (∅, []).
Proof. split; [apply NoDup_nil_2|]. intros p. rw lookup_empty. split; [by intros []|by intros ?%elem_of_nil]. Qed.

Definition v4_subnet_of (snap : Snapshot) (n : Network) (s : Subnet) : Prop :=
  s ∈ Subnets snap ∧ Sub_IPVersion s = 4 ∧ Sub_NetworkID s = Net_ID n.
Definition shared_prefix (snap : Snapshot) (p : Prefix4) : Prop :=
  ∃ n s, n ∈ Networks snap ∧ Net_Shared n = true ∧ Net_IsExternal n = false ∧
    v4_subnet_of snap n s ∧ parsePrefixV4 (Sub_CIDR s) = Some p.
Definition infra_prefix (snap : Snapshot) (p : Prefix4) : Prop :=
  (∃ q fip, q ∈ Ports snap ∧ IsInfraPort (Port_DeviceOwner q) = true ∧ fip ∈ Port_FixedIPs q ∧
     parseAddrV4AsPrefix (Fip_IPAddress fip) = Some p) ∨
  (∃ s, s ∈ Subnets snap ∧ Sub_IPVersion s = 4 ∧ parseAddrV4AsPrefix (Sub_GatewayIP s) = Some p).

Lemma elem_of_group snap n s :
  s ∈ get_all (groupSubnetsByNetwork (Subnets snap)) (Net_ID n) ↔ v4_subnet_of snap n s.
Proof. rw group_lookup list_elem_of_filter /v4_subnet_of. naive_solver. Qed.

Lemma collects_shared byNetwork :
  collects (sharedStep byNetwork) (λ n p, Net_Shared n = true ∧ Net_IsExternal n = false ∧
    ∃ s, s ∈ get_all byNetwork (Net_ID n) ∧ parsePrefixV4 (Sub_CIDR s) = Some p).
Proof.
  intros acc n Hd. rw /sharedStep.
  destruct (Net_Shared n), (Net_IsExternal n); simpl; try (split; [done|naive_solver]).
  destruct (collects_foldl _ _ (get_all byNetwork (Net_ID n)) acc
    (collects_one (λ s, parsePrefixV4 (Sub_CIDR s))) Hd) as [? Hq]. split; first done.
  intros q. rw Hq. naive_solver.
Qed.
Lemma collects_infraPort :
  collects infraPortStep (λ p q, IsInfraPort (Port_DeviceOwner p) = true ∧
    ∃ fip, fip ∈ Port_FixedIPs p ∧ parseAddrV4AsPrefix (Fip_IPAddress fip) = Some q).
Proof.
  intros acc p Hd. rw /infraPortStep. destruct (IsInfraPort _); simpl; last (split; [done|naive_solver]).
  destruct (collects_foldl _ _ (Port_FixedIPs p) acc
    (collects_one (λ fip, parseAddrV4AsPrefix (Fip_IPAddress fip))) Hd) as [? Hq]. split; first done.
  intros q. rw Hq. naive_solver.
Qed.
Lemma collects_infraGateway :
  collects infraGatewayStep (λ s q, Sub_IPVersion s = 4 ∧ parseAddrV4AsPrefix (Sub_GatewayIP s) = Some q).
Proof.
  intros acc s Hs. rw /infraGatewayStep. case_decide as Hg.
  - split; first done. intros q. split; [by left|intros [?|[? Hp]]; [done|]].
    destruct Hg as [?|Hg]; [done|]. by rw Hg in Hp.
  - destruct (collects_one (λ s, parseAddrV4AsPrefix (Sub_GatewayIP s)) acc s Hs) as [? Hq'].
    split; first done. intros q. rw Hq'.
    split; [intros [?|?]; [by left|right; split; [lia|done]]|naive_solver].
Qed.

Lemma sharedPrefixes_spec snap :
  NoDup (buildSharedPrefixes (Networks snap) (groupSubnetsByNetwork (Subnets snap))) ∧
  ∀ p, p ∈ buildSharedPrefixes (Networks snap) (groupSubnetsByNetwork (Subnets snap)) ↔
    shared_prefix snap p.
Proof.
  destruct (collects_foldl _ _ (Networks snap) (∅, [])
    (collects_shared (groupSubnetsByNetwork (Subnets snap))) distinct_nil) as [[Hnd _] Hq].
  split; first exact Hnd. intros p. rw /buildSharedPrefixes Hq. setoid_rewrite elem_of_group.
  rw /shared_prefix. split.
  - intros [[]%elem_of_nil|(n & ? & ? & ? & s & ? & ?)]. by exists n, s.
  - intros (n & s & ? & ? & ? & ? & ?). right. exists n. split_and!; try done. by exists s.
Qed.
Lemma infraPrefixes_spec snap :
  NoDup (buildInfraPrefixes (Subnets snap) (Ports snap)) ∧
  ∀ p, p ∈ buildInfraPrefixes (Subnets snap) (Ports snap) ↔ infra_prefix snap p.
Proof.
  destruct (collects_foldl _ _ (Ports snap) (∅, []) collects_infraPort distinct_nil) as [Hd Hq].
  destruct (collects_foldl _ _ (Subnets snap) _ collects_infraGateway Hd) as [[Hnd _] Hq2].
  split; first exact Hnd. intros p. rw /buildInfraPrefixes Hq2 Hq /infra_prefix elem_of_nil.
  naive_solver.
Qed.

(** What every step reads and none changes. *)
Definition same_views (b c : trieBuilder) : Prop :=
  b_networks b = b_networks c ∧ b_routers b = b_routers c ∧
  subnetsByNetwork b = subnetsByNetwork c ∧ tenants b = tenants c ∧
  sharedPrefixes b = sharedPrefixes c ∧ infraPrefixes b = infraPrefixes c ∧ b_ri b = b_ri c.
Lemma same_views_add b c es am cy : same_views b c → same_views (add_out b es am cy) c.
Proof. done. Qed.
Lemma add_out_nil b : add_out b [] [] [] = b.
Proof. destruct b. by rw /add_out /= !app_nil_r. Qed.
Lemma add_out_app b es am cy es' am' cy' :
  add_out (add_out b es am cy) es' am' cy' = add_out b (es ++ es') (am ++ am') (cy ++ cy').
Proof. by rw /add_out /= -!app_assoc. Qed.

(** A loop each of whose rounds appends what it reads off the views. *)
Lemma foldl_add_out {X} (step : trieBuilder → X → trieBuilder) c es am cy l b :
  (∀ b x, same_views b c → step b x = add_out b (es x) (am x) (cy x)) → same_views b c →
  foldl step b l = add_out b (l ≫= es) (l ≫= am) (l ≫= cy).
Proof.
  intros Hs. induction l as [|x l IH] in b |- *; intros Hb; simpl; first by rw add_out_nil.
  rw IH; first by rw Hs //; apply same_views_add. by rw Hs // add_out_app.
Qed.

Section rows.
Context `{GoRange} (snap : Snapshot) (maxHops : Z).

Definition b_tenants : list string := collectTenants (Networks snap) (Ports snap) (Routers snap).
Definition if_tenants (rows : list TrieEntry) : list TrieEntry :=
  if decide (b_tenants = []) then [] else rows.
Definition catchall_rows : list TrieEntry := if_tenants [mkTrieEntry "" catchall ZoneExternal].
Definition shared_rows : list TrieEntry := if_tenants
  ((λ p, mkTrieEntry "" p ZoneShared) <$>
     buildSharedPrefixes (Networks snap) (groupSubnetsByNetwork (Subnets snap))).
Definition infra_rows : list TrieEntry := if_tenants
  (((λ p, mkTrieEntry "" p ZoneInfra) <$> buildInfraPrefixes (Subnets snap) (Ports snap)) ++
   [mkTrieEntry "" metadataPrefix ZoneInfra]).
Definition owned_by (tenant : string) (n : Network) : list TrieEntry :=
  if negb (bool_decide (Net_ProjectID n = tenant)) || Net_Shared n || Net_IsExternal n then []
  else get_all (groupSubnetsByNetwork (Subnets snap)) (Net_ID n) ≫=
         λ s, option_list ((λ p, mkTrieEntry tenant p ZoneSameTenant) <$> parsePrefixV4 (Sub_CIDR s)).
Definition owned_rows : list TrieEntry := b_tenants ≫= λ t, Networks snap ≫= owned_by t.

(** The routes a builder resolves, each with its outcome. *)
Definition outcome : Type := TrieEntry * option AmbiguityHit * option CycleHit.
Definition route_outcome (tenant : string) (r : Router) (route : Route) : list outcome :=
  option_list (
    d ← parsePrefixV4 (Route_Destination route); nh ← ParseAddr4 (Route_Nexthop route);
    let '(zone, amb, cyc) := resolveStaticRouteZone (newResolveIndex snap maxHops) r d nh in
    Some (mkTrieEntry tenant d zone, amb, cyc)).
Definition route_outcomes : list outcome :=
  b_tenants ≫= λ t, Routers snap ≫= λ r,
    if decide (Router_ProjectID r ≠ t) then [] else Router_Routes r ≫= route_outcome t r.
Definition row_of (o : outcome) : TrieEntry := o.1.1.
Definition ambs_of (o : outcome) : list AmbiguityHit := option_list o.1.2.
Definition cycs_of (o : outcome) : list CycleHit := option_list o.2.

Let b0 := newTrieBuilder snap maxHops.

Lemma hasTenants_views b : same_views b b0 → hasTenants b = negb (bool_decide (b_tenants = [])).
Proof.
  intros (_ & _ & _ & Ht & _). rw /hasTenants Ht /b0 /newTrieBuilder. cbn [tenants].
  fold b_tenants. by destruct b_tenants.
Qed.

Lemma owned_step b : same_views b b0 → emitOwnedSubnets b = add_out b owned_rows [] [].
Proof.
  intros Hb. rw /emitOwnedSubnets. pose proof Hb as (_ & _ & _ & Et & _).
  rw Et. change (tenants b0) with b_tenants. rw (foldl_add_out _ b0 (λ t, Networks snap ≫= owned_by t) (λ _, []) (λ _, [])) //.
  2: by rw !bind_nil.
  clear b Hb Et. intros b t Hb. pose proof Hb as (En & _). rw En.
  change (b_networks b0) with (Networks snap). rw (foldl_add_out _ b0 (owned_by t) (λ _, []) (λ _, [])) //.
  2: by rw !bind_nil.
  clear b Hb En. intros b n Hb. rw /owned_by. destruct (_ || _ || _); first by rw add_out_nil.
  pose proof Hb as (_ & _ & Eg & _). rw Eg.
  rw (foldl_add_out _ b0 (λ s, option_list ((λ p, mkTrieEntry t p ZoneSameTenant) <$>
    parsePrefixV4 (Sub_CIDR s))) (λ _, []) (λ _, [])) //.
  2: by rw !bind_nil.
  intros b' s _. rw /ownedRow. destruct (parsePrefixV4 _); simpl; [done|by rw add_out_nil].
Qed.
Lemma prefix_loop zone l b :
  foldl (λ b p, add_out b [mkTrieEntry "" p zone] [] []) b l =
  add_out b ((λ p, mkTrieEntry "" p zone) <$> l) [] [].
Proof.
  induction l as [|p l IH] in b |- *; simpl; first by rw add_out_nil. by rw IH add_out_app.
Qed.
Lemma routes_step b : same_views b b0 →
  emitExtraRoutes b = add_out b (row_of <$> route_outcomes) (route_outcomes ≫= ambs_of)
    (route_outcomes ≫= cycs_of).
Proof.
  intros Hb. rw /emitExtraRoutes. pose proof Hb as (_ & _ & _ & Et & _). rw Et.
  change (tenants b0) with b_tenants.
  set (outs t := Routers snap ≫= λ r,
    if decide (Router_ProjectID r ≠ t) then [] else Router_Routes r ≫= route_outcome t r).
  rw (foldl_add_out _ b0 (λ t, row_of <$> outs t) (λ t, outs t ≫= ambs_of) (λ t, outs t ≫= cycs_of)) //.
  2: by rw /route_outcomes list_bind_fmap !list_bind_bind.
  clear b Hb Et. intros b t Hb. pose proof Hb as (_ & Er & _). rw Er.
  change (b_routers b0) with (Routers snap).
  rw (foldl_add_out _ b0 (λ r, row_of <$> (if decide (Router_ProjectID r ≠ t) then [] else Router_Routes r ≫= route_outcome t r))
    (λ r, (if decide (Router_ProjectID r ≠ t) then [] else Router_Routes r ≫= route_outcome t r) ≫= ambs_of)
    (λ r, (if decide (Router_ProjectID r ≠ t) then [] else Router_Routes r ≫= route_outcome t r) ≫= cycs_of)) //.
  2: by rw /outs list_bind_fmap !list_bind_bind.
  clear b Hb Er. intros b r Hb. case_decide; first by rw /= add_out_nil.
  rw (foldl_add_out _ b0 (λ x, row_of <$> route_outcome t r x) (λ x, route_outcome t r x ≫= ambs_of)
    (λ x, route_outcome t r x ≫= cycs_of)) //.
  2: by rw list_bind_fmap !list_bind_bind.
  clear b Hb. intros b x Hb. rw /emitRoute /route_outcome.
  destruct (parsePrefixV4 (Route_Destination x)) as [d|]; simpl; last by rw add_out_nil.
  destruct (ParseAddr4 (Route_Nexthop x)) as [nh|]; simpl; last by rw add_out_nil.
  pose proof Hb as (_ & _ & _ & _ & _ & _ & Ei). rw Ei. change (b_ri b0) with (newResolveIndex snap maxHops).
  destruct (resolveStaticRouteZone _ _ _ _) as [[zone amb] cyc]. simpl.
  by rw /ambs_of /cycs_of /= !app_nil_r.
Qed.

Lemma guarded_step b rows : same_views b b0 →
  (if negb (hasTenants b) then b else add_out b rows [] []) = add_out b (if_tenants rows) [] [].
Proof.
  intros Hb. rw hasTenants_views // /if_tenants. case_bool_decide as Ht; case_decide; try done.
  by rw /= add_out_nil.
Qed.
Lemma catchall_step b : same_views b b0 → emitCatchall b = add_out b catchall_rows [] [].
Proof. apply guarded_step. Qed.
Lemma shared_step b : same_views b b0 → emitSharedSubnets b = add_out b shared_rows [] [].
Proof.
  intros Hb. rw /emitSharedSubnets prefix_loop guarded_step //.
  by destruct Hb as (_ & _ & _ & _ & -> & _).
Qed.
Lemma infra_step b : same_views b b0 → emitInfraPrefixes b = add_out b infra_rows [] [].
Proof.
  intros Hb. rw /emitInfraPrefixes prefix_loop add_out_app guarded_step //.
  by destruct Hb as (_ & _ & _ & _ & _ & -> & _).
Qed.

Definition all_rows : list TrieEntry :=
  catchall_rows ++ owned_rows ++ shared_rows ++ infra_rows ++ (row_of <$> route_outcomes).
(** The build, as one list of rows sorted at the end. *)
Lemma buildTrie_eq :
  buildTrie snap maxHops =
    (sortEntries all_rows, route_outcomes ≫= ambs_of, route_outcomes ≫= cycs_of).
Proof.
  assert (same_views b0 b0) as H0 by done.
  rw /buildTrie. cbn zeta. fold b0.
  rw catchall_step // owned_step // add_out_app shared_step // add_out_app infra_step // add_out_app.
  rw routes_step // add_out_app. cbn [add_out entries ambiguities cycles].
  by rw /all_rows -!app_assoc.
Qed.
End rows.

(** ** The rows of a snapshot *)

(** The documented meaning of the five steps. *)
Inductive row (snap : Snapshot) (maxHops : Z) : TrieEntry → Prop :=
  | row_catchall t : owns_something snap t →
      row snap maxHops (mkTrieEntry "" catchall ZoneExternal)
  | row_owned n s p :
      n ∈ Networks snap → Net_ProjectID n ≠ "" → Net_Shared n = false → Net_IsExternal n = false →
      v4_subnet_of snap n s → parsePrefixV4 (Sub_CIDR s) = Some p →
      row snap maxHops (mkTrieEntry (Net_ProjectID n) p ZoneSameTenant)
  | row_shared t p : owns_something snap t → shared_prefix snap p →
      row snap maxHops (mkTrieEntry "" p ZoneShared)
  | row_infra t p : owns_something snap t → infra_prefix snap p →
      row snap maxHops (mkTrieEntry "" p ZoneInfra)
  | row_metadata t : owns_something snap t →
      row snap maxHops (mkTrieEntry "" metadataPrefix ZoneInfra)
  | row_route r route d nh zone amb cyc :
      r ∈ Routers snap → Router_ProjectID r ≠ "" → route ∈ Router_Routes r →
      parsePrefixV4 (Route_Destination route) = Some d → ParseAddr4 (Route_Nexthop route) = Some nh →
      resolveStaticRouteZone (newResolveIndex snap maxHops) r d nh = (zone, amb, cyc) →
      row snap maxHops (mkTrieEntry (Router_ProjectID r) d zone).

Section rows_spec.
Context `{GoRange} (snap : Snapshot) (maxHops : Z).

Lemma elem_of_b_tenants t : t ∈ b_tenants snap ↔ owns_something snap t.
Proof. apply elem_of_collectTenants. Qed.
Lemma elem_of_if_tenants rows e :
  e ∈ if_tenants snap rows ↔ e ∈ rows ∧ ∃ t, owns_something snap t.
Proof.
  setoid_rewrite <- elem_of_b_tenants. rw /if_tenants. case_decide as E.
  - rw E. split; [by intros []%elem_of_nil|]. by intros [_ [t []%elem_of_nil]].
  - destruct (b_tenants snap) as [|t l]; first done. split; [|naive_solver].
    intros ?. split; first done. exists t. left.
Qed.
Lemma elem_of_owned_rows e :
  e ∈ owned_rows snap ↔ ∃ n s p, n ∈ Networks snap ∧ Net_ProjectID n ≠ "" ∧ Net_Shared n = false ∧
    Net_IsExternal n = false ∧ v4_subnet_of snap n s ∧ parsePrefixV4 (Sub_CIDR s) = Some p ∧
    e = mkTrieEntry (Net_ProjectID n) p ZoneSameTenant.
Proof.
  rw /owned_rows list_elem_of_bind. split.
  - intros (t & (n & Hin & Hn)%list_elem_of_bind & Ht%elem_of_b_tenants). rw /owned_by in Hin.
    case_bool_decide as Et; destruct (Net_Shared n) eqn:?, (Net_IsExternal n) eqn:?; simpl in Hin;
      try by apply elem_of_nil in Hin.
    apply list_elem_of_bind in Hin as (s & Hp & Hs%elem_of_group).
    destruct (parsePrefixV4 (Sub_CIDR s)) as [p|] eqn:Ep; simpl in Hp; last by apply elem_of_nil in Hp.
    apply list_elem_of_singleton in Hp as ->. exists n, s, p. rw Et. destruct Ht as [? _]. by split_and!.
  - intros (n & s & p & Hn & Hne & Hs & Hx & Hsub & Hp & ->). exists (Net_ProjectID n). split.
    + apply list_elem_of_bind. exists n. split; last done. rw /owned_by bool_decide_eq_true_2 // Hs Hx /=.
      apply list_elem_of_bind. exists s. rw Hp. split; [by apply list_elem_of_singleton|by apply elem_of_group].
    + apply elem_of_b_tenants. split; first done. left. by exists n.
Qed.
(** The routes resolved, each with its outcome. *)
Definition resolved_route (o : outcome) : Prop :=
  ∃ r route d nh, r ∈ Routers snap ∧ Router_ProjectID r ≠ "" ∧ route ∈ Router_Routes r ∧
    parsePrefixV4 (Route_Destination route) = Some d ∧ ParseAddr4 (Route_Nexthop route) = Some nh ∧
    ∃ zone amb cyc, resolveStaticRouteZone (newResolveIndex snap maxHops) r d nh = (zone, amb, cyc) ∧
      o = (mkTrieEntry (Router_ProjectID r) d zone, amb, cyc).
Lemma elem_of_route_outcomes o : o ∈ route_outcomes snap maxHops ↔ resolved_route o.
Proof.
  rw /route_outcomes list_elem_of_bind /resolved_route. split.
  - intros (t & (r & Hin & Hr)%list_elem_of_bind & Ht%elem_of_b_tenants).
    case_decide as Et; first by apply elem_of_nil in Hin.
    apply list_elem_of_bind in Hin as (route & Ho & Hroute). rw /route_outcome in Ho.
    destruct (parsePrefixV4 _) as [d|] eqn:Ed; simpl in Ho; last by apply elem_of_nil in Ho.
    destruct (ParseAddr4 _) as [nh|] eqn:Eh; simpl in Ho; last by apply elem_of_nil in Ho.
    destruct (resolveStaticRouteZone _ _ _ _) as [[zone amb] cyc] eqn:Er; simpl in Ho.
    apply list_elem_of_singleton in Ho as ->. assert (Router_ProjectID r = t) as Etr by congruence.
    exists r, route, d, nh. rw Etr. destruct Ht as [? _]. split_and!; try done. by exists zone, amb, cyc.
  - intros (r & route & d & nh & Hr & Hne & Hroute & Ed & Eh & zone & amb & cyc & Er & ->).
    exists (Router_ProjectID r). split.
    + apply list_elem_of_bind. exists r. split; last done. rw decide_False; first by intros Hx.
      apply list_elem_of_bind. exists route. split; last done.
      rw /route_outcome Ed /= Eh /= Er /=. by apply list_elem_of_singleton.
    + apply elem_of_b_tenants. split; first done. right; right. by exists r.
Qed.

Lemma elem_of_all_rows e : e ∈ all_rows snap maxHops ↔ row snap maxHops e.
Proof.
  rw /all_rows !elem_of_app /catchall_rows /shared_rows /infra_rows !elem_of_if_tenants elem_of_owned_rows.
  rw elem_of_app !list_elem_of_fmap !list_elem_of_singleton.
  setoid_rewrite elem_of_route_outcomes.
  setoid_rewrite (λ p, proj2 (sharedPrefixes_spec snap) p).
  setoid_rewrite (λ p, proj2 (infraPrefixes_spec snap) p). split.
  - intros [[-> [t Ht]]|[(n & s & p & ? & ? & ? & ? & ? & ? & ->)|
      [[(p & -> & ?) [t ?]]|[[[(p & -> & ?)| ->] [t ?]]|(o & -> & r & route & d & nh & ? & ? & ? & ? & ? & zone & amb & cyc & ? & ->)]]]].
    + by eapply row_catchall.
    + by eapply row_owned.
    + by eapply row_shared.
    + by eapply row_infra.
    + by eapply row_metadata.
    + by eapply row_route.
  - destruct 1 as [t ?|n s p|t p|t p|t|r route d nh zone amb cyc].
    + left. split; [done|by exists t].
    + right; left. by exists n, s, p.
    + right; right; left. split; [by exists p|by exists t].
    + right; right; right; left. split; [left; by exists p|by exists t].
    + right; right; right; left. split; [by right|by exists t].
    + right; right; right; right. eexists (_, amb, cyc). split; first done.
      exists r, route, d, nh. split_and!; try done. by exists zone, amb, cyc.
Qed.
Lemma sortEntries_perm es : sortEntries es ≡ₚ es.
Proof. apply merge_sort_Permutation. Qed.
Lemma elem_of_buildTrie e : e ∈ (buildTrie snap maxHops).1.1 ↔ row snap maxHops e.
Proof. by rw buildTrie_eq /= sortEntries_perm elem_of_all_rows. Qed.
End rows_spec.

Lemma parsePrefixV4_ok s p : parsePrefixV4 s = Some p → prefix4_ok p ∧ masked p.
Proof.
  rw /parsePrefixV4. destruct (ParsePrefix4 s) as [q|] eqn:E; simpl; last done. intros [= <-].
  apply ParsePrefix4_ok in E. split; [by apply Masked_ok|by apply Masked_masked].
Qed.
Lemma parseAddrV4AsPrefix_ok s p : parseAddrV4AsPrefix s = Some p → prefix4_ok p ∧ masked p.
Proof.
  rw /parseAddrV4AsPrefix. case_decide; first done. destruct (ParseAddr4 s) as [ip|] eqn:E; simpl; last done.
  intros [= <-]. apply ParseAddr4_range in E. split; [split; [done|simpl; lia]|apply masked_32].
Qed.
Lemma row_prefix_ok snap m e : row snap m e → prefix4_ok (TE_Prefix e) ∧ masked (TE_Prefix e).
Proof.
  destruct 1 as [|? ? ? ? ? ? ? ? Hp|? ? ? (? & ? & ? & ? & ? & ? & Hp)|
    ? ? ? [(? & ? & ? & ? & ? & Hp)|(? & ? & ? & Hp)]| |? ? ? ? ? ? ? ? ? ? Hp]; simpl;
    try (by eapply parsePrefixV4_ok); try (by eapply parseAddrV4AsPrefix_ok).
  - split; [|by vm_compute]. rw /prefix4_ok /ip4_range /=. lia.
  - split; [|by vm_compute]. rw /prefix4_ok /ip4_range /=. lia.
Qed.
Lemma zoneFor_range o t n : 0 ≤ zoneFor o t n ≤ ZoneShared.
Proof. rw /zoneFor. destruct (Net_IsExternal n), (Net_Shared n); try case_decide; rw /ZoneShared /=; done. Qed.

(** The order in which a map is ranged over does not show. *)
Lemma b_tenants_any (R1 R2 : GoRange) snap : @b_tenants R1 snap = @b_tenants R2 snap.
Proof.
  apply (StronglySorted_unique string_le); try apply sort_strings_sorted.
  apply NoDup_Permutation; try apply collectTenants_NoDup. intros t. by rw !elem_of_b_tenants.
Qed.
Lemma buildTrie_any (R1 R2 : GoRange) snap maxHops : @buildTrie R1 snap maxHops = @buildTrie R2 snap maxHops.
Proof.
  rw !buildTrie_eq. rw /all_rows /catchall_rows /owned_rows /shared_rows /infra_rows /route_outcomes.
  by rw /if_tenants (b_tenants_any R1 R2).
Qed.

(** C27: the rows are exactly those of the five documented steps: the global
    rows when some tenant owns a resource, the tenant's own private IPv4
    subnets, and one row per resolvable extra route. *)
Theorem trie_rows_spec `{GoRange} snap maxHops e :
  e ∈ (buildTrie snap maxHops).1.1 ↔ row snap maxHops e.
Proof. apply elem_of_buildTrie. Qed.

(** C38: every row holds a masked IPv4 prefix, the rows are sorted, and the
    build depends neither on the iteration order of Go's maps nor on how the
    unstable sort breaks ties: any sorted arrangement of the rows is the same
    list. *)
Theorem trie_deterministic `{R1 : GoRange} (R2 : GoRange) snap maxHops rows :
  @buildTrie R1 snap maxHops = @buildTrie R2 snap maxHops ∧
  (∀ e, e ∈ (buildTrie snap maxHops).1.1 → prefix4_ok (TE_Prefix e) ∧ masked (TE_Prefix e)) ∧
  StronglySorted entry_le (buildTrie snap maxHops).1.1 ∧
  (rows ≡ₚ (buildTrie snap maxHops).1.1 → StronglySorted entry_le rows →
   rows = (buildTrie snap maxHops).1.1).
Proof.
  assert (∀ e, e ∈ (buildTrie snap maxHops).1.1 → prefix4_ok (TE_Prefix e) ∧ masked (TE_Prefix e)) as Hok
    by (intros e He%elem_of_buildTrie; by eapply row_prefix_ok).
  assert (StronglySorted entry_le (buildTrie snap maxHops).1.1) as Hs
    by (rw buildTrie_eq; apply (StronglySorted_merge_sort entry_le)).
  split_and!; [apply buildTrie_any|done|done|].
  - intros Hp Hr. apply (StronglySorted_unique_strong entry_le); try done.
    intros x y Hx Hy. apply entry_le_antisymm; apply Hok; [by rw -Hp|done].
Qed.

(** the build reports exactly the ambiguities and the cycles of the routes it
    resolved, each of which fell back to EXTERNAL: a build without ambiguity
    mis-bills no route, and strict mode misses none. *)
Theorem incidents_reported `{GoRange} snap maxHops :
  let resolves out := ∃ r route d nh, r ∈ Routers snap ∧ Router_ProjectID r ≠ "" ∧
    route ∈ Router_Routes r ∧ parsePrefixV4 (Route_Destination route) = Some d ∧
    ParseAddr4 (Route_Nexthop route) = Some nh ∧
    resolveStaticRouteZone (newResolveIndex snap maxHops) r d nh = out ∧
    mkTrieEntry (Router_ProjectID r) d ZoneExternal ∈ (buildTrie snap maxHops).1.1 in
  (∀ a, a ∈ (buildTrie snap maxHops).1.2 ↔ resolves (ZoneExternal, Some a, None)) ∧
  (∀ c, c ∈ (buildTrie snap maxHops).2 ↔ resolves (ZoneExternal, None, Some c)).
Proof.
  cbn zeta. setoid_rewrite elem_of_buildTrie. rw buildTrie_eq. cbn [fst snd]. split.
  - intros a. rw list_elem_of_bind. setoid_rewrite elem_of_route_outcomes. split.
    + intros (o & Ho & r & route & d & nh & Hr & Hne & Hroute & Ed & Eh & zone & amb & cyc & Er & ->).
      rw /ambs_of /= in Ho. destruct amb as [a'|]; last by apply elem_of_nil in Ho.
      apply list_elem_of_singleton in Ho as ->. pose proof (resolve_incident _ _ _ _ _ _ _ _ Er) as [[-> ->] _]; first done.
      exists r, route, d, nh. split_and!; try done. by eapply row_route.
    + intros (r & route & d & nh & ? & ? & ? & ? & ? & Er & _).
      exists (mkTrieEntry (Router_ProjectID r) d ZoneExternal, Some a, None).
      split; first by apply list_elem_of_singleton. exists r, route, d, nh. split_and!; try done. by do 3 eexists.
  - intros c. rw list_elem_of_bind. setoid_rewrite elem_of_route_outcomes. split.
    + intros (o & Ho & r & route & d & nh & Hr & Hne & Hroute & Ed & Eh & zone & amb & cyc & Er & ->).
      rw /cycs_of /= in Ho. destruct cyc as [c'|]; last by apply elem_of_nil in Ho.
      apply list_elem_of_singleton in Ho as ->. pose proof (resolve_incident _ _ _ _ _ _ _ _ Er) as [_ [-> ->]]; first done.
      exists r, route, d, nh. split_and!; try done. by eapply row_route.
    + intros (r & route & d & nh & ? & ? & ? & ? & ? & Er & _).
      exists (mkTrieEntry (Router_ProjectID r) d ZoneExternal, None, Some c).
      split; first by apply list_elem_of_singleton. exists r, route, d, nh. split_and!; try done. by do 3 eexists.
Qed.

Module TrieExamples.
#[local] Existing Instance list_range.
Import Demo.
(** Two networks of one tenant with the same CIDR give two equal rows. *)
Definition twin := mkNetwork "netA2" "tA" "blue2" false false.
Definition subTwin := mkSubnet "subA2" "netA2" "tA" "10.0.1.0/24" "10.0.1.1" 4.
Example twin_rows :
  filter (λ e, TE_TenantID e = "tA")
    (buildTrie (mkSnapshot [netA; twin] [subA; subTwin] [] [] [] [] [] [] []) 16).1.1 =
  [mkTrieEntry "tA" (mkPrefix4 167772416 24) ZoneSameTenant;
   mkTrieEntry "tA" (mkPrefix4 167772416 24) ZoneSameTenant].
Proof. by vm_compute. Qed.
End TrieExamples.
