(* ===== verification/Lookup.v ===== *)
(** * Answers read off a snapshot and its trie (internal/neutron/lookup.go)

    The zone of an address from a tenant's point of view, the resource that
    holds an address, and the port of a MAC.  The addresses are IPv4 ones: no
    IPv4 prefix contains an IPv6 address, and conversely. *)
From S2P Require Import Prelude GoStrings NetIP Bpf Neutron Resolve Trie.
From Stdlib Require Import Ascii.
From Stdlib Require String.

Definition ProjectName (s : Snapshot) (id : string) : string :=
  match head (filter (λ p, Proj_ID p = id) (Projects s)) with
  | Some p => Proj_Name p
  | None => ""
  end.

(** ** Zones *)

Definition matchBits (ip : Z) (tenant : string) (e : TrieEntry) : option Z :=
  if decide (TE_TenantID e ≠ tenant) then None
  else if Contains (TE_Prefix e) ip then Some (p4_bits (TE_Prefix e)) else None.
Definition longestPrefixForTenant (entries : list TrieEntry) (ip : Z) (tenant : string) : option TrieEntry :=
  best (matchBits ip tenant) entries.

Definition LookupZone (entries : list TrieEntry) (ip : Z) (tenant : string) : option TrieEntry * string :=
  let global := match longestPrefixForTenant entries ip "" with
                | Some hit => (Some hit, "global")
                | None => (None, "")
                end in
  if decide (tenant ≠ "") then
    match longestPrefixForTenant entries ip tenant with
    | Some hit => (Some hit, "tenant")
    | None => global
    end
  else global.

(** ** Resources *)

Record ResourceMatch := mkMatch {
  M_Subnet : option Subnet; M_Network : option Network; M_Port : option Port }.
Definition noMatch : ResourceMatch := mkMatch None None None.

Definition findNetwork (snap : Snapshot) (id : string) : option Network :=
  head (filter (λ n, Net_ID n = id) (Networks snap)).
Definition subnetBits (ip : Z) (tenant : string) (s : Subnet) : option Z :=
  if decide (tenant ≠ "" ∧ Sub_ProjectID s ≠ tenant) then None
  else match ParsePrefix4 (Sub_CIDR s) with
       | None => None
       | Some p => if Contains p ip then Some (p4_bits p) else None
       end.
Definition holdsIP (ip : Z) (tenant : string) (p : Port) : bool :=
  if decide (tenant ≠ "" ∧ Port_ProjectID p ≠ tenant) then false
  else existsb (λ fip, bool_decide (Fip_IPAddress fip = Addr_String ip)) (Port_FixedIPs p).
Definition lookupResourceScoped (snap : Snapshot) (ip : Z) (tenant : string) : ResourceMatch :=
  let bestSubnet := best (subnetBits ip tenant) (Subnets snap) in
  mkMatch bestSubnet
    (s ← bestSubnet; findNetwork snap (Sub_NetworkID s))
    (find (holdsIP ip tenant) (Ports snap)).
(** A nil snapshot is [None]. *)
Definition LookupResource (snap : option Snapshot) (ip : Z) (tenant : string) : ResourceMatch :=
  match snap with
  | None => noMatch
  | Some snap =>
      let scoped := lookupResourceScoped snap ip tenant in
      if decide (tenant ≠ "" ∧ (M_Subnet scoped ≠ None ∨ M_Port scoped ≠ None)) then scoped
      else lookupResourceScoped snap ip ""
  end.

Definition lowerByte (a : ascii) : ascii :=
  if decide (65 ≤ N_of_ascii a ∧ N_of_ascii a ≤ 90)%N then ascii_of_N (N_of_ascii a + 32) else a.
Fixpoint equalFoldASCII (a b : string) : bool :=
  match a, b with
  | EmptyString, EmptyString => true
  | String x a, String y b => bool_decide (lowerByte x = lowerByte y) && equalFoldASCII a b
  | _, _ => false
  end.
Definition LookupPortByMAC (snap : option Snapshot) (mac : string) : ResourceMatch :=
  match snap with
  | None => noMatch
  | Some snap =>
      if decide (mac = "") then noMatch
      else match find (λ p, equalFoldASCII (Port_MACAddress p) mac) (Ports snap) with
           | None => noMatch
           | Some p => mkMatch None (findNetwork snap (Port_NetworkID p)) (Some p)
           end
  end.

(** ** What a zone lookup answers *)

Lemma matchBits_Some ip tenant e s :
  matchBits ip tenant e = Some s ↔
  TE_TenantID e = tenant ∧ Contains (TE_Prefix e) ip = true ∧ s = p4_bits (TE_Prefix e).
Proof. rw /matchBits. case_decide; [naive_solver|]. destruct (Contains _ _); naive_solver. Qed.

(** The rows of a tenant that contain the address. *)
Definition matching (entries : list TrieEntry) (ip : Z) (tenant : string) (e : TrieEntry) : Prop :=
  e ∈ entries ∧ TE_TenantID e = tenant ∧ Contains (TE_Prefix e) ip = true.
Definition longest (entries : list TrieEntry) (ip : Z) (tenant : string) (e : TrieEntry) : Prop :=
  matching entries ip tenant e ∧
  ∀ f, matching entries ip tenant f → p4_bits (TE_Prefix f) ≤ p4_bits (TE_Prefix e).

Lemma longestPrefix_spec entries ip tenant :
  (∀ e, e ∈ entries → prefix4_ok (TE_Prefix e)) →
  match longestPrefixForTenant entries ip tenant with
  | Some e => longest entries ip tenant e
  | None => ∀ e, ¬ matching entries ip tenant e
  end.
Proof.
  intros Hok. pose proof (best_spec (matchBits ip tenant) entries) as Hb.
  specialize (Hb ltac:(intros a t Ha (_ & _ & ->)%matchBits_Some; by destruct (Hok a Ha) as [_ [? _]])).
  rw /longestPrefixForTenant. destruct (best (matchBits ip tenant) entries) as [e|].
  - apply first_best_in in Hb as (Hin & s & (Et & Ec & ->)%matchBits_Some & Hmax). split; first done.
    intros f (Hf & Ft & Fc). apply (Hmax f); first done. by apply matchBits_Some.
  - intros e (He & Et & Ec). specialize (Hb e He).
    assert (matchBits ip tenant e = Some (p4_bits (TE_Prefix e))) by (by apply matchBits_Some). congruence.
Qed.

Lemma LookupZone_spec entries ip tenant :
  (∀ e, e ∈ entries → prefix4_ok (TE_Prefix e)) →
  match LookupZone entries ip tenant with
  | (Some e, pass) =>
      (pass = "tenant" ∧ tenant ≠ "" ∧ longest entries ip tenant e) ∨
      (pass = "global" ∧ longest entries ip "" e ∧
       (tenant ≠ "" → ∀ f, ¬ matching entries ip tenant f))
  | (None, pass) => pass = "" ∧ (∀ f, ¬ matching entries ip tenant f) ∧ ∀ f, ¬ matching entries ip "" f
  end.
Proof.
  intros Hok. rw /LookupZone.
  pose proof (longestPrefix_spec entries ip tenant Hok) as Ht.
  pose proof (longestPrefix_spec entries ip "" Hok) as Hg.
  case_decide as Hne.
  - destruct (longestPrefixForTenant entries ip tenant) as [e|]; first by left.
    destruct (longestPrefixForTenant entries ip "") as [e|]; [right; by split_and!|by split_and!].
  - assert (tenant = "") as -> by (by destruct (decide (tenant = ""))).
    destruct (longestPrefixForTenant entries ip "") as [e|]; [right; by split_and!|by split_and!].
Qed.

(** in a snapshot where some tenant owns a resource, every IPv4 address has
    a zone from every tenant's point of view: the tenant's own longest row if
    one contains the address, else the longest global row, which the catchall
    guarantees to exist. *)
Theorem zone_lookup_total `{GoRange} snap maxHops t tenant ip :
  owns_something snap t → ip4_range ip →
  let rows := (buildTrie snap maxHops).1.1 in
  ∃ e pass, LookupZone rows ip tenant = (Some e, pass) ∧
    ((pass = "tenant" ∧ tenant ≠ "" ∧ longest rows ip tenant e) ∨
     (pass = "global" ∧ longest rows ip "" e ∧ (tenant ≠ "" → ∀ f, ¬ matching rows ip tenant f))).
Proof.
  intros Ht Hip. cbn zeta. set (rows := (buildTrie snap maxHops).1.1).
  assert (∀ e, e ∈ rows → prefix4_ok (TE_Prefix e)) as Hok
    by (intros e He%elem_of_buildTrie; by destruct (row_prefix_ok _ _ _ He)).
  pose proof (LookupZone_spec rows ip tenant Hok) as Hs.
  destruct (LookupZone rows ip tenant) as [[e|] pass]; first by exists e, pass.
  destruct Hs as (_ & _ & Hno). exfalso. apply (Hno (mkTrieEntry "" catchall ZoneExternal)).
  split_and!; [|done|by apply catchall_contains]. apply elem_of_buildTrie. by eapply row_catchall.
Qed.

(** ** What a resource lookup answers *)

Definition in_scope (tenant owner : string) : Prop := tenant = "" ∨ owner = tenant.
Definition covering (snap : Snapshot) (ip : Z) (tenant : string) (s : Subnet) (p : Prefix4) : Prop :=
  s ∈ Subnets snap ∧ in_scope tenant (Sub_ProjectID s) ∧ ParsePrefix4 (Sub_CIDR s) = Some p ∧
  Contains p ip = true.
Definition holding (snap : Snapshot) (ip : Z) (tenant : string) (p : Port) : Prop :=
  p ∈ Ports snap ∧ in_scope tenant (Port_ProjectID p) ∧
  ∃ fip, fip ∈ Port_FixedIPs p ∧ Fip_IPAddress fip = Addr_String ip.

Lemma subnetBits_Some ip tenant s b :
  subnetBits ip tenant s = Some b ↔
  in_scope tenant (Sub_ProjectID s) ∧ ∃ p, ParsePrefix4 (Sub_CIDR s) = Some p ∧ Contains p ip = true ∧ b = p4_bits p.
Proof.
  rw /subnetBits /in_scope. case_decide as Hd.
  - split; [done|]. intros [[?|?] _]; by destruct Hd.
  - assert (tenant = "" ∨ Sub_ProjectID s = tenant) as Hs
      by (destruct (decide (tenant = "")), (decide (Sub_ProjectID s = tenant)); naive_solver).
    destruct (ParsePrefix4 (Sub_CIDR s)) as [p|]; last naive_solver.
    destruct (Contains p ip) eqn:E; split.
    + intros [= <-]. split; first done. by exists p.
    + by intros [_ (q & [= <-] & _ & ->)].
    + done.
    + intros [_ (q & [= <-] & Hc & _)]. congruence.
Qed.
Lemma holdsIP_true ip tenant p :
  holdsIP ip tenant p = true ↔ in_scope tenant (Port_ProjectID p) ∧
    ∃ fip, fip ∈ Port_FixedIPs p ∧ Fip_IPAddress fip = Addr_String ip.
Proof.
  rw /holdsIP /in_scope. case_decide as Hd.
  - split; [done|]. intros [[?|?] _]; by destruct Hd.
  - rw existsb_exists. setoid_rewrite <- list_elem_of_In. setoid_rewrite bool_decide_eq_true.
    split; [intros ?; split; [|done]|naive_solver].
    destruct (decide (tenant = "")), (decide (Port_ProjectID p = tenant)); naive_solver.
Qed.

(** One pass answers the most specific subnet in scope that contains the
    address and a port in scope that holds it. *)
Lemma lookupResourceScoped_spec snap ip tenant :
  match M_Subnet (lookupResourceScoped snap ip tenant) with
  | None => ∀ s p, ¬ covering snap ip tenant s p
  | Some s => ∃ p, covering snap ip tenant s p ∧
      ∀ s' p', covering snap ip tenant s' p' → p4_bits p' ≤ p4_bits p
  end ∧
  match M_Port (lookupResourceScoped snap ip tenant) with
  | None => ∀ p, ¬ holding snap ip tenant p
  | Some p => holding snap ip tenant p
  end.
Proof.
  rw /lookupResourceScoped /=. split.
  - pose proof (best_spec (subnetBits ip tenant) (Subnets snap)) as Hb.
    specialize (Hb ltac:(intros s b _ (_ & p & Hp%ParsePrefix4_ok & _ & ->)%subnetBits_Some;
      by destruct Hp as [_ [? _]])).
    destruct (best (subnetBits ip tenant) (Subnets snap)) as [s|].
    + apply first_best_in in Hb as (Hin & b & (Hsc & p & Ep & Ec & ->)%subnetBits_Some & Hmax).
      exists p. split; first done. intros s' p' (Hin' & Hsc' & Ep' & Ec').
      apply (Hmax s'); first done. apply subnetBits_Some. split; first done. by exists p'.
    + intros s p (Hin & Hsc & Ep & Ec). specialize (Hb s Hin).
      assert (subnetBits ip tenant s = Some (p4_bits p)); last congruence.
      apply subnetBits_Some. split; first done. by exists p.
  - destruct (find (holdsIP ip tenant) (Ports snap)) as [p|] eqn:E.
    + apply find_some in E as [Hin%list_elem_of_In [Hs Hf]%holdsIP_true]. by split_and!.
    + intros p (Hin%list_elem_of_In & Hs & Hf). apply (find_none _ _ E) in Hin.
      assert (holdsIP ip tenant p = true) by (by apply holdsIP_true). congruence.
Qed.

(** looking an address up answers from the tenant's own resources when any
    of them covers or holds it, and from all resources otherwise. *)
Theorem resource_lookup snap ip tenant :
  let m := LookupResource (Some snap) ip tenant in
  let own := (∃ s p, covering snap ip tenant s p) ∨ ∃ p, holding snap ip tenant p in
  let scope := if decide (M_Subnet (lookupResourceScoped snap ip tenant) ≠ None ∨
                          M_Port (lookupResourceScoped snap ip tenant) ≠ None) then tenant else "" in
  (scope = tenant ↔ own ∨ tenant = "") ∧
  match M_Subnet m with
  | None => ∀ s p, ¬ covering snap ip scope s p
  | Some s => ∃ p, covering snap ip scope s p ∧
      ∀ s' p', covering snap ip scope s' p' → p4_bits p' ≤ p4_bits p
  end ∧
  match M_Port m with None => ∀ p, ¬ holding snap ip scope p | Some p => holding snap ip scope p end.
Proof.
  cbn zeta. pose proof (lookupResourceScoped_spec snap ip tenant) as [Hs Hp].
  assert ((M_Subnet (lookupResourceScoped snap ip tenant) ≠ None ∨
           M_Port (lookupResourceScoped snap ip tenant) ≠ None) ↔
          (∃ s p, covering snap ip tenant s p) ∨ ∃ p, holding snap ip tenant p) as Hown.
  { destruct (M_Subnet (lookupResourceScoped snap ip tenant)) as [s|], (M_Port (lookupResourceScoped snap ip tenant)) as [p|];
      naive_solver. }
  split.
  - case_decide as Hd; [naive_solver|]. rw Hown in Hd. naive_solver.
  - rw /LookupResource. cbn zeta. case_decide as Hd; case_decide as Hd'.
    + done.
    + by destruct Hd.
    + assert (tenant = "") as -> by (destruct (decide (tenant = "")); [done|by destruct Hd]). done.
    + apply lookupResourceScoped_spec.
Qed.

Module LookupExamples.
#[local] Existing Instance list_range.
Import Demo.
(** The second tenant's VM, from the first tenant's point of view. *)
Lemma zone_lookup_total_witness :
  let rows := (buildTrie snap 16).1.1 in
  ∃ e pass, LookupZone rows 167772677 "tA" = (Some e, pass) ∧
    ((pass = "tenant" ∧ "tA" ≠ "" ∧ longest rows 167772677 "tA" e) ∨
     (pass = "global" ∧ longest rows 167772677 "" e ∧
      ("tA" ≠ "" → ∀ f, ¬ matching rows 167772677 "tA" f))).
Proof.
  refine (zone_lookup_total snap 16 "tA" "tA" 167772677 _ _); last (rw /ip4_range; lia).
  split; [discriminate|]. left. exists netA. split; [by apply list_elem_of_here|done].
Defined.
End LookupExamples.
