(* ===== verification/KernelMap.v ===== *)
(** * Kernel maps behind a fallible system-call interface

    The maps themselves live in the kernel.  What the program relies on is the
    documented behaviour of the calls: an update with BPF_ANY inserts or
    overwrites and a delete removes a present key, each only when the call
    succeeds; deleting an absent key fails.  Which calls fail otherwise is an
    arbitrary [fault] oracle over the calls made so far. *)
From S2P Require Import Prelude.

Inductive kerr (Err : Type) := KeyNotExist | Fault (e : Err).
Arguments KeyNotExist {_}.
Arguments Fault {_} _.

(** A map with the calls made on it and the contents after each. *)
Record kmap (K V : Type) `{Countable K} := mkKmap {
  krows : gmap K V; kcalls : nat; khist : list (gmap K V) }.
Arguments mkKmap {_ _ _ _} _ _ _.
Arguments krows {_ _ _ _} _.
Arguments kcalls {_ _ _ _} _.
Arguments khist {_ _ _ _} _.

Section kmap.
Context `{Countable K} {V Err : Type} (fault : nat → option Err).

Definition kstep (m : gmap K V) (km : kmap K V) : kmap K V :=
  mkKmap m (S (kcalls km)) (khist km ++ [m]).
Definition Update (k : K) (v : V) (km : kmap K V) : kmap K V * option (kerr Err) :=
  match fault (kcalls km) with
  | Some e => (kstep (krows km) km, Some (Fault e))
  | None => (kstep (<[k := v]> (krows km)) km, None)
  end.
Definition KDelete (k : K) (km : kmap K V) : kmap K V * option (kerr Err) :=
  match fault (kcalls km) with
  | Some e => (kstep (krows km) km, Some (Fault e))
  | None =>
      match krows km !! k with
      | None => (kstep (krows km) km, Some KeyNotExist)
      | Some _ => (kstep (delete k (krows km)) km, None)
      end
  end.

(** The writers' loops: every row is tried, the count is of the successes and
    the error is the first one. *)
Record wstate := mkW { w_map : kmap K V; w_written : Z; w_err : option (kerr Err) }.
Definition firstErr (old new : option (kerr Err)) : option (kerr Err) :=
  match old with None => new | Some _ => old end.
Definition writeRow (w : wstate) (kv : K * V) : wstate :=
  let '(km, err) := Update kv.1 kv.2 (w_map w) in
  match err with
  | Some e => mkW km (w_written w) (firstErr (w_err w) (Some e))
  | None => mkW km (w_written w + 1) (w_err w)
  end.
Definition writeRows (rows : list (K * V)) (km : kmap K V) : wstate :=
  foldl writeRow (mkW km 0 None) rows.

Lemma writeRows_gen rows w :
  let w' := foldl writeRow w rows in
  (w_err w' = None ↔ w_err w = None ∧
     ∀ i, (i < length rows)%nat → fault (kcalls (w_map w) + i)%nat = None) ∧
  (w_err w' = None → krows (w_map w') = insertAll rows (krows (w_map w)) ∧
     w_written w' = w_written w + Z.of_nat (length rows)) ∧
  (∀ k, k ∉ rows.*1 → krows (w_map w') !! k = krows (w_map w) !! k) ∧
  dom (krows (w_map w)) ⊆ dom (krows (w_map w')).
Proof.
  cbn zeta. induction rows as [|[k v] rows IH] in w |- *; csimpl.
  { split_and!; try done; [|by rw Z.add_0_r]. split; [intros ?; split; [done|lia]|naive_solver]. }
  destruct (IH (writeRow w (k, v))) as (IH1 & IH2 & IH3 & IH4). clear IH.
  set (w' := foldl writeRow (writeRow w (k, v)) rows) in *.
  rw /writeRow /Update in IH1 IH2 IH3 IH4. simpl in *.
  destruct (fault (kcalls (w_map w))) as [e|] eqn:Ef; simpl in *.
  - assert (w_err w' ≠ None) as Hne.
    { intros E. apply IH1 in E as [E _]. by destruct (w_err w). }
    split_and!; [|done| |done].
    + split; [done|]. intros [_ Hall]. specialize (Hall 0%nat). rw Nat.add_0_r Ef in Hall.
      by specialize (Hall (Nat.lt_0_succ _)).
    + intros k' [_ ?]%not_elem_of_cons. by apply IH3.
  - split_and!.
    + rw IH1. split.
      * intros [? Hall]. split; first done. intros [|i] Hi; first by rw Nat.add_0_r.
        specialize (Hall i). rw (_ : (kcalls (w_map w) + S i = S (kcalls (w_map w)) + i)%nat); first lia.
        apply Hall. lia.
      * intros [? Hall]. split; first done. intros i Hi. specialize (Hall (S i)).
        rw (_ : (kcalls (w_map w) + S i = S (kcalls (w_map w)) + i)%nat) in Hall; first lia.
        apply Hall. lia.
    + intros E. destruct (IH2 E) as [-> ->]. split; first done. lia.
    + intros k' [? ?]%not_elem_of_cons. rw IH3 // lookup_insert_ne //.
    + rw dom_insert in IH4. set_solver.
Qed.
Lemma writeRows_spec rows km :
  (w_err (writeRows rows km) = None →
     krows (w_map (writeRows rows km)) = insertAll rows (krows km) ∧
     w_written (writeRows rows km) = Z.of_nat (length rows)) ∧
  ((∀ i, fault i = None) → w_err (writeRows rows km) = None).
Proof.
  destruct (writeRows_gen rows (mkW km 0 None)) as (He & Hr & _). split; first exact Hr.
  intros Hf. apply He. split; [done|]. intros i _. apply Hf.
Qed.
End kmap.
Arguments mkW {_ _ _ _ _} _ _ _.
Arguments w_map {_ _ _ _ _} _.
Arguments w_written {_ _ _ _ _} _.
Arguments w_err {_ _ _ _ _} _.
