(* ===== verification/KernelWriter.v ===== *)
(** * Writing the kernel maps (internal/kernelwriter: writer.go, delta.go)

    The bulk writers of the three maps and the incremental trie writer, over
    the fallible map calls of KernelMap.  The nil checks of the arguments have
    no counterpart: a map, a store and an interner are always given. *)
From S2P Require Import Prelude GoStrings NetIP Bpf Metadata Neutron Resolve Trie Lookup Attribution KernelMap.
From Stdlib Require String.

(** The identity of a kernel row: interned tenant and prefix. *)
Notation trieRowKey := (Z * Prefix4)%type (only parsing).

Section writer.
Context {Err : Type} (fault : nat → option Err) (endian : Endian).

Definition u8 (z : Z) : Z := z mod 256.
(** The programs's prefixes are IPv4: the key constructors do not panic. *)
Definition lpmKey (tid : Z) (p : Prefix4) : LpmKey :=
  mkLpmKey (u32 (LpmKeyTenantBits + u32 (p4_bits p))) tid (native_uint32 endian (As4 (p4_ip p))).

(** [WriteMacTenantMap]: the pairs are collected before any call is made. *)
Definition macPairs (l : list (Z * TenantMeta)) (t : TenantInterner) : list (Z * Z) * TenantInterner :=
  foldl (λ acc '(mac, meta),
    if decide (ProjectID meta = "") then acc
    else let '(id, t) := Intern (ProjectID meta) acc.2 in
         (acc.1 ++ [(mac, TenantValue id (IsAmphora meta))], t)) ([], t) l.
Definition WriteMacTenantMap `{MetaStore M} (macMap : kmap Z Z) (snap : M) (t : TenantInterner) :
    wstate (K := Z) (V := Z) (Err := Err) * TenantInterner :=
  let '(pairs, t) := macPairs (ms_Range snap) t in
  (writeRows fault pairs macMap, t).

Definition WriteSubnetZoneTrie (trieMap : kmap LpmKey Z) (entries : list TrieEntry) (t : TenantInterner) :
    wstate (K := LpmKey) (V := Z) (Err := Err) * TenantInterner :=
  foldl (λ '(w, t) e,
    let '(tid, t) := Intern (TE_TenantID e) t in
    (writeRow fault w (lpmKey tid (TE_Prefix e), u8 (TE_Zone e)), t)) (mkW trieMap 0 None, t) entries.

Definition WriteAmphoraBaseIPs (amphoraMap : kmap AmphoraKey Z) (entries : list AmphoraBaseIP)
    (t : TenantInterner) : wstate (K := AmphoraKey) (V := Z) (Err := Err) * TenantInterner :=
  foldl (λ '(w, t) e,
    if decide (Base_ProjectID e = "") then (w, t)
    else let '(tid, t) := Intern (Base_ProjectID e) t in
         (writeRow fault w (mkAmphoraKey tid (native_uint32 endian (As4 (Base_Addr e))), 1), t))
    (mkW amphoraMap 0 None, t) entries.

(** ** The incremental trie writer (delta.go) *)

Record TrieDelta := mkDelta { Added : Z; Changed : Z; Removed : Z }.

Definition indexRows (entries : list TrieEntry) (t : TenantInterner) : gmap trieRowKey Z * TenantInterner :=
  foldl (λ acc e,
    let '(tid, t) := Intern (TE_TenantID e) acc.2 in
    (<[(tid, TE_Prefix e) := u8 (TE_Zone e)]> acc.1, t)) (∅, t) entries.

Record dstate := mkD { d_map : kmap LpmKey Z; d_delta : TrieDelta; d_err : option (kerr Err) }.

Definition upsertRow (oldRows : gmap trieRowKey Z) (d : dstate) (row : trieRowKey * Z) : dstate :=
  let '(rk, zone) := row in
  let prev := oldRows !! rk in
  if decide (prev = Some zone) then d
  else
    let '(km, err) := Update fault (lpmKey rk.1 rk.2) zone (d_map d) in
    match err with
    | Some e => mkD km (d_delta d) (firstErr (d_err d) (Some e))
    | None =>
        match prev with
        | Some _ => mkD km (mkDelta (Added (d_delta d)) (Changed (d_delta d) + 1) (Removed (d_delta d))) (d_err d)
        | None => mkD km (mkDelta (Added (d_delta d) + 1) (Changed (d_delta d)) (Removed (d_delta d))) (d_err d)
        end
    end.
Definition deleteRow (newRows : gmap trieRowKey Z) (d : dstate) (row : trieRowKey * Z) : dstate :=
  let rk := row.1 in
  match newRows !! rk with
  | Some _ => d
  | None =>
      let '(km, err) := KDelete fault (lpmKey rk.1 rk.2) (d_map d) in
      match err with
      | Some e => mkD km (d_delta d) (firstErr (d_err d) (Some e))
      | None => mkD km (mkDelta (Added (d_delta d)) (Changed (d_delta d)) (Removed (d_delta d) + 1)) (d_err d)
      end
  end.

Definition ApplyTrieDelta `{GoRange} (trieMap : kmap LpmKey Z) (oldEntries newEntries : list TrieEntry)
    (t : TenantInterner) : dstate * TenantInterner :=
  let '(newRows, t) := indexRows newEntries t in
  let '(oldRows, t) := indexRows oldEntries t in
  let d := foldl (upsertRow oldRows) (mkD trieMap (mkDelta 0 0 0) None) (go_range newRows) in
  match d_err d with
  | Some _ => (d, t)
  | None => (foldl (deleteRow newRows) d (go_range oldRows), t)
  end.
End writer.
Arguments mkD {_} _ _ _.
Arguments d_map {_} _.
Arguments d_delta {_} _.
Arguments d_err {_} _.

(** ** The rows a trie stands for *)

Definition ext (t t' : TenantInterner) : Prop :=
  ∀ q id, forward t !! q = Some id → forward t' !! q = Some id.
#[export] Instance ext_preorder : PreOrder ext.
Proof. split; [by intros t q id|by intros a b c Hab Hbc q id ?%Hab%Hbc]. Qed.
Definition knows (t : TenantInterner) (p : string) : Prop := p = "" ∨ is_Some (forward t !! p).
Lemma knows_ext t t' p : ext t t' → knows t p → knows t' p.
Proof. intros He [->|[id Hid]]; [by left|right; exists id; by apply He]. Qed.
Definition tid (t : TenantInterner) (p : string) : Z :=
  if decide (p = "") then TenantIDUnset else default 0 (forward t !! p).
Lemma tid_ext t t' p : ext t t' → knows t p → tid t' p = tid t p.
Proof.
  intros He Hk. rw /tid. case_decide; first done. destruct Hk as [?|[id Hid]]; first done.
  by rw (He _ _ Hid) Hid.
Qed.
Lemma tid_inj t p q : interner_ok t → knows t p → knows t q → tid t p = tid t q → p = q.
Proof.
  intros (_ & Hb & Hr) Hp Hq. rw /tid /TenantIDUnset.
  destruct Hp as [->|[i Hi]], Hq as [->|[j Hj]]; repeat case_decide; subst; try done;
    rw ?Hi ?Hj /=; intros E; try (by apply Hr in Hi; lia); try (by apply Hr in Hj; lia).
  subst j. apply Hb in Hi, Hj. congruence.
Qed.
Lemma tid_nonzero t p : interner_ok t → knows t p → p ≠ "" → tid t p ≠ TenantIDUnset.
Proof.
  intros (_ & _ & Hr) [?|[i Hi]] Hne; first done. rw /tid decide_False // Hi /=.
  apply Hr in Hi. rw /TenantIDUnset. lia.
Qed.

(** One interning, in a form the loops compose. *)
Lemma Intern_step p t :
  interner_ok t → nextID t < 2 ^ 32 - 1 →
  interner_ok (Intern p t).2 ∧ nextID (Intern p t).2 ≤ nextID t + 1 ∧ ext t (Intern p t).2 ∧
  knows (Intern p t).2 p ∧ (Intern p t).1 = tid (Intern p t).2 p.
Proof.
  intros Hok Hmax. destruct (Intern_ok p t Hok Hmax) as (Hok' & Hle & Hext & Hp).
  split_and!; try done.
  - destruct (decide (p = "")) as [->|Hne]; [by left|right]. by rw Hp.
  - rw /tid. case_decide as Hd; first by rw /Intern decide_True. by rw Hp.
Qed.

Definition rowsOf (t : TenantInterner) (es : list TrieEntry) : gmap (Z * Prefix4) Z :=
  insertAll ((λ e, ((tid t (TE_TenantID e), TE_Prefix e), u8 (TE_Zone e))) <$> es) ∅.
Definition knows_all (t : TenantInterner) (es : list TrieEntry) : Prop :=
  ∀ e, e ∈ es → knows t (TE_TenantID e).
Lemma rowsOf_ext t t' es : ext t t' → knows_all t es → rowsOf t' es = rowsOf t es.
Proof.
  intros He Hk. rw /rowsOf. f_equal. induction es as [|e es IH]; csimpl; first done.
  rw (tid_ext t t') //; first (apply Hk; left). rw IH //. intros e' ?. apply Hk. by right.
Qed.
Lemma insertAll_snoc `{Countable K} {V} (l : list (K * V)) k v m :
  insertAll (l ++ [(k, v)]) m = <[k := v]> (insertAll l m).
Proof. induction l as [|[k1 v1] l IH] in m |- *; simpl; [done|apply IH]. Qed.

Lemma indexRows_spec es t :
  interner_ok t → nextID t + Z.of_nat (length es) < 2 ^ 32 →
  let '(rows, t') := indexRows es t in
  interner_ok t' ∧ nextID t' ≤ nextID t + Z.of_nat (length es) ∧ ext t t' ∧ knows_all t' es ∧
  rows = rowsOf t' es.
Proof.
  intros Hok Hmax. rw /indexRows. induction es as [|e es IH] using rev_ind; simpl.
  { split_and!; [done|lia|done|by intros ? []%elem_of_nil|done]. }
  rw length_app /= in Hmax. rw foldl_app /=.
  destruct (foldl _ (∅, t) es) as [rows t1]. destruct IH as (Hok1 & Hle1 & He1 & Hk1 & Hrows); first lia.
  simpl. destruct (Intern_step (TE_TenantID e) t1) as (Hok2 & Hle2 & He2 & Hk2 & Hid); [done|lia|].
  destruct (Intern (TE_TenantID e) t1) as [id t2]; simpl in *. rw length_app /=.
  split_and!; [done|lia|by etrans| |].
  - intros e' [?| ->%list_elem_of_singleton]%elem_of_app; [eapply knows_ext; [done|by apply Hk1]|done].
  - rw /rowsOf fmap_app insertAll_snoc Hrows Hid. f_equal. symmetry. by apply rowsOf_ext.
Qed.

(** ** What the kernel holds *)

Section represents.
Context (endian : Endian).
Notation lpmKey := (lpmKey endian).

Definition rows_ok (rows : gmap (Z * Prefix4) Z) : Prop :=
  ∀ rk, is_Some (rows !! rk) → prefix4_ok rk.2.
Definition entries_ok (es : list TrieEntry) : Prop := ∀ e, e ∈ es → prefix4_ok (TE_Prefix e).
(** The kernel map holds exactly these rows. *)
Definition represents (rows : gmap (Z * Prefix4) Z) (k : gmap LpmKey Z) : Prop :=
  ∀ key z, k !! key = Some z ↔ ∃ rk, rows !! rk = Some z ∧ key = lpmKey rk.1 rk.2.

Lemma lpmKey_inj t1 p1 t2 p2 :
  prefix4_ok p1 → prefix4_ok p2 → lpmKey t1 p1 = lpmKey t2 p2 → t1 = t2 ∧ p1 = p2.
Proof.
  destruct p1 as [a1 b1], p2 as [a2 b2]. intros [Ha1 Hb1] [Ha2 Hb2] E. simpl in *.
  destruct (LpmKeyForPrefix_inj endian t1 a1 b1 t2 a2 b2 (lpmKey t1 (mkPrefix4 a1 b1)))
    as (-> & -> & ->); try done. by rw E.
Qed.
Lemma rowsOf_in t es rk z : rowsOf t es !! rk = Some z →
  ∃ e, e ∈ es ∧ rk = (tid t (TE_TenantID e), TE_Prefix e) ∧ z = u8 (TE_Zone e).
Proof.
  intros [(e & [= -> ->] & He)%list_elem_of_fmap|Hl]%insertAll_Some; first by exists e.
  by rw lookup_empty in Hl.
Qed.
Lemma rowsOf_ok t es : entries_ok es → rows_ok (rowsOf t es).
Proof. intros Hok rk [z (e & He & -> & _)%rowsOf_in]. by apply Hok. Qed.
Lemma represents_lookup rows k rk :
  rows_ok rows → represents rows k → prefix4_ok rk.2 → k !! lpmKey rk.1 rk.2 = rows !! rk.
Proof.
  intros Hok Hrep Hrk. apply option_eq. intros z. rw Hrep. split; last by exists rk.
  intros (rk' & Hz & E). destruct (lpmKey_inj _ _ _ _ Hrk (Hok rk' (ex_intro _ _ Hz)) E).
  destruct rk, rk'. naive_solver.
Qed.
End represents.

(** ** The two phases *)

Section phases.
Context {Err : Type} (fault : nat → option Err) (endian : Endian).
Notation row := ((Z * Prefix4) * Z)%type.
Notation lpmKey := (lpmKey endian).

Definition upsert_of (old : gmap (Z * Prefix4) Z) (r : row) : option (LpmKey * Z) :=
  if decide (old !! r.1 = Some r.2) then None else Some (lpmKey r.1.1 r.1.2, r.2).
Lemma upsert_of_eq old rk z :
  upsert_of old (rk, z) = if decide (old !! rk = Some z) then None else Some (lpmKey rk.1 rk.2, z).
Proof. done. Qed.
(** The states after the calls of a phase. *)
Definition states_since (km : kmap LpmKey Z) (P : gmap LpmKey Z → Prop) (km' : kmap LpmKey Z) : Prop :=
  ∀ h, h ∈ khist km' → h ∈ khist km ∨ P h.

Lemma upsert_phase old (l : list row) d :
  let d' := foldl (upsertRow fault endian old) d l in
  (d_err d' = None → d_err d = None ∧
     krows (d_map d') = insertAll (omap (upsert_of old) l) (krows (d_map d))) ∧
  (d_err d = None → (∀ i, fault i = None) → d_err d' = None) ∧
  dom (krows (d_map d)) ⊆ dom (krows (d_map d')) ∧
  states_since (d_map d) (λ h, dom (krows (d_map d)) ⊆ dom h) (d_map d').
Proof.
  cbn zeta. induction l as [|[rk z] l IH] in d |- *; cbn [foldl omap list_omap]; first by split_and!; [done|done|done|intros h; by left].
  destruct (IH (upsertRow fault endian old d (rk, z))) as (IH1 & IH2 & IH3 & IH4). clear IH.
  set (d' := foldl (upsertRow fault endian old) (upsertRow fault endian old d (rk, z)) l) in *.
  clearbody d'. revert IH1 IH2 IH3 IH4. rw /upsertRow upsert_of_eq.
  case_decide as Eq; first (intros; by split_and!). rw /Update. destruct (fault (kcalls (d_map d))) as [e|] eqn:Ef; simpl; intros IH1 IH2 IH3 IH4.
  - split_and!.
    + intros E. apply IH1 in E as [E _]. by destruct (d_err d).
    + intros _ Hf. by rw Hf in Ef.
    + done.
    + intros h [Hh|?]%IH4; last by right. apply elem_of_app in Hh as [?| ->%list_elem_of_singleton]; [by left|by right].
  - destruct (old !! rk) as [p|] eqn:Ep; simpl in *.
    all: split_and!; [by intros [? ?]%IH1| intros ? ?; by apply IH2| rw dom_insert in IH3; set_solver|].
    all: intros h [Hh|Hh]%IH4; [|right; rw dom_insert in Hh; set_solver].
    all: apply elem_of_app in Hh as [?| ->%list_elem_of_singleton]; [by left|right; rw dom_insert; set_solver].
Qed.

Definition delete_of (new : gmap (Z * Prefix4) Z) (r : row) : option LpmKey :=
  match new !! r.1 with Some _ => None | None => Some (lpmKey r.1.1 r.1.2) end.
Lemma delete_phase new (l : list row) d X :
  let d' := foldl (deleteRow fault endian new) d l in
  (d_err d' = None → d_err d = None ∧
     krows (d_map d') = foldl (λ m k, delete k m) (krows (d_map d)) (omap (delete_of new) l)) ∧
  (X ⊆ dom (krows (d_map d)) → (∀ k, k ∈ omap (delete_of new) l → k ∉ X) →
     X ⊆ dom (krows (d_map d')) ∧ states_since (d_map d) (λ h, X ⊆ dom h) (d_map d')) ∧
  (d_err d = None → (∀ i, fault i = None) → NoDup (omap (delete_of new) l) →
     (∀ k, k ∈ omap (delete_of new) l → k ∈ dom (krows (d_map d))) → d_err d' = None).
Proof.
  cbn zeta. induction l as [|[rk z] l IH] in d |- *; cbn [foldl omap list_omap]; first by split_and!; [done|intros ? _; split; [done|intros h; by left]|done].
  destruct (IH (deleteRow fault endian new d (rk, z))) as (IH1 & IH2 & IH3). clear IH.
  set (d' := foldl (deleteRow fault endian new) (deleteRow fault endian new d (rk, z)) l) in *.
  clearbody d'. revert IH1 IH2 IH3. rw /deleteRow /delete_of /=.
  destruct (new !! rk) as [v|] eqn:En; first (intros; by split_and!).
  rw /KDelete. destruct (fault (kcalls (d_map d))) as [e|] eqn:Ef; simpl; intros IH1 IH2 IH3.
  - split_and!.
    + intros E. apply IH1 in E as [E _]. by destruct (d_err d).
    + intros HX Hk. destruct IH2 as [? Hs]; [done|intros; apply Hk; by right|]. split; first done.
      intros h [Hh|?]%Hs; last by right. apply elem_of_app in Hh as [?| ->%list_elem_of_singleton]; [by left|by right].
    + intros _ Hf. by rw Hf in Ef.
  - destruct (krows (d_map d) !! lpmKey rk.1 rk.2) as [v|] eqn:Ek; simpl in *.
    + split_and!; first by intros [? ?]%IH1.
      * intros HX Hk. assert (lpmKey rk.1 rk.2 ∉ X) by (apply Hk; left).
        destruct IH2 as [? Hs]; [rw dom_delete; set_solver|intros; apply Hk; by right|]. split; first done.
        intros h [Hh|?]%Hs; last by right. apply elem_of_app in Hh as [?| ->%list_elem_of_singleton]; [by left|].
        right. rw dom_delete. set_solver.
      * intros ? ? [Hni Hnd]%NoDup_cons Hin. apply IH3; try done. intros k Hk. rw dom_delete.
        apply elem_of_difference. split; first (apply Hin; by right). intros ->%elem_of_singleton. done.
    + split_and!.
      * intros E. apply IH1 in E as [E _]. by destruct (d_err d).
      * intros HX Hk. destruct IH2 as [? Hs]; [done|intros; apply Hk; by right|]. split; first done.
        intros h [Hh|?]%Hs; last by right. apply elem_of_app in Hh as [?| ->%list_elem_of_singleton]; [by left|by right].
      * intros _ _ _ Hin. specialize (Hin (lpmKey rk.1 rk.2)). apply not_elem_of_dom in Ek.
        exfalso. apply Ek, Hin. left.
Qed.
End phases.

Section apply.
Context `{GoRange} {Err : Type} (fault : nat → option Err) (endian : Endian).
Variables (t : TenantInterner) (old new : list TrieEntry) (km : kmap LpmKey Z).
Hypothesis interner : interner_ok t.
Hypothesis capacity : nextID t + Z.of_nat (length new + length old) < 2 ^ 32.
Hypothesis old_ok : entries_ok old.
Hypothesis new_ok : entries_ok new.
(** The previous pass left the kernel holding exactly the old rows. *)
Hypothesis known : knows_all t old.
Hypothesis holds_old : represents endian (rowsOf t old) (krows km).
Notation lpmKey := (lpmKey endian).
Notation out := (ApplyTrieDelta fault endian km old new t).

Lemma apply_interner :
  interner_ok out.2 ∧ ext t out.2 ∧ knows_all out.2 new ∧
  out.1 = (let d := foldl (upsertRow fault endian (rowsOf t old)) (mkD km (mkDelta 0 0 0) None)
                      (go_range (rowsOf out.2 new)) in
           match d_err d with
           | Some _ => d
           | None => foldl (deleteRow fault endian (rowsOf out.2 new)) d (go_range (rowsOf t old))
           end).
Proof.
  rw /ApplyTrieDelta. pose proof (indexRows_spec new t interner) as H1.
  destruct (indexRows new t) as [newRows t1]. destruct H1 as (Hok1 & Hle1 & He1 & Hk1 & ->); first lia.
  pose proof (indexRows_spec old t1 Hok1) as H2.
  destruct (indexRows old t1) as [oldRows t2]. destruct H2 as (Hok2 & Hle2 & He2 & Hk2 & ->); first lia.
  assert (ext t t2) as He by (by etrans).
  rw (rowsOf_ext t t2 old) // -(rowsOf_ext t1 t2 new) //. cbn zeta.
  destruct (d_err (foldl (upsertRow fault endian (rowsOf t old)) (mkD km (mkDelta 0 0 0) None)
    (go_range (rowsOf t2 new)))) eqn:E; simpl; rw E; split_and!; try done;
    intros e Hin; apply (knows_ext t1 t2); by [|apply Hk1].
Qed.

Lemma delete_keys rows t' k :
  k ∈ omap (delete_of endian (rowsOf t' new)) (go_range (rows : gmap (Z * Prefix4) Z)) ↔
  ∃ rk, rk ∈ dom rows ∧ rowsOf t' new !! rk = None ∧ k = lpmKey rk.1 rk.2.
Proof.
  rw list_elem_of_omap. split.
  - intros ([rk z] & Hin%elem_of_go_range & E). rw /delete_of /= in E. exists rk.
    destruct (rowsOf t' new !! rk) eqn:?; simplify_eq. split_and!; try done. by eapply elem_of_dom_2.
  - intros (rk & [z Hz]%elem_of_dom & E & ->). exists (rk, z). rw /delete_of /= E.
    split; [by apply elem_of_go_range|done].
Qed.
(** Upserted keys are keys of new rows, whose values they get. *)
Lemma lookup_upserts t' m key z :
  insertAll (omap (upsert_of endian (rowsOf t old)) (go_range (rowsOf t' new))) m !! key = Some z →
  (∃ rk, rowsOf t' new !! rk = Some z ∧ key = lpmKey rk.1 rk.2) ∨
  (m !! key = Some z ∧
   ∀ rk z', rowsOf t' new !! rk = Some z' → key = lpmKey rk.1 rk.2 → rowsOf t old !! rk = Some z').
Proof.
  intros Hl. destruct (decide (key ∈ (omap (upsert_of endian (rowsOf t old)) (go_range (rowsOf t' new))).*1)) as [Hk|Hk].
  - destruct (insertAll_in _ m key Hk) as (v & Hv & E). rw Hl in E. injection E as <-. left.
    apply list_elem_of_omap in Hv as ([rk z'] & Hin%elem_of_go_range & E). rw upsert_of_eq in E.
    case_decide; first done. injection E as <- <-. by exists rk.
  - right. rw insertAll_notin // in Hl. split; first done. intros rk z' Hrk ->.
    destruct (decide (rowsOf t old !! rk = Some z')); first done. destruct Hk. apply list_elem_of_fmap.
    exists (lpmKey rk.1 rk.2, z'). split; first done. apply list_elem_of_omap. exists (rk, z').
    split; [by apply elem_of_go_range|]. by rw upsert_of_eq decide_False.
Qed.

Lemma upserted t' rk z m :
  represents endian (rowsOf t old) m → rowsOf t' new !! rk = Some z →
  insertAll (omap (upsert_of endian (rowsOf t old)) (go_range (rowsOf t' new))) m !! lpmKey rk.1 rk.2 = Some z.
Proof.
  intros Hrep Hrk. pose proof (rowsOf_ok t' new new_ok) as Hok.
  destruct (decide (rowsOf t old !! rk = Some z)) as [Eo|Eo].
  - rw insertAll_notin; last (apply Hrep; by exists rk).
    intros ([key z'] & E & ([rk' z''] & Hin%elem_of_go_range & Ei)%list_elem_of_omap)%list_elem_of_fmap.
    rw upsert_of_eq in Ei. case_decide as Ho; first done. injection Ei as Ek <-. simpl in E.
    destruct (lpmKey_inj endian rk.1 rk.2 rk'.1 rk'.2) as [E1 E2]; [by apply Hok|by apply Hok|by rw E Ek|].
    destruct rk, rk'; simpl in *; subst. congruence.
  - apply insert_loop_agree.
    + exists (rk, z). split; [by apply elem_of_go_range|]. by rw upsert_of_eq decide_False.
    + intros [rk' z'] w Hin%elem_of_go_range Ei. rw upsert_of_eq in Ei.
      case_decide as Ho; first done.
      assert (lpmKey rk'.1 rk'.2 = lpmKey rk.1 rk.2 ∧ z' = w) as [Ek ->] by (split; congruence).
      destruct (lpmKey_inj endian rk'.1 rk'.2 rk.1 rk.2) as [E1 E2]; [by apply Hok|by apply Hok|exact Ek|].
      destruct rk, rk'; simpl in *; subst. congruence.
Qed.
Lemma foldl_delete (ks : list LpmKey) (m : gmap LpmKey Z) key z :
  foldl (λ m k, delete k m) m ks !! key = Some z ↔ m !! key = Some z ∧ key ∉ ks.
Proof.
  induction ks as [|k ks IH] in m |- *; simpl; first (rw elem_of_nil; naive_solver).
  rw IH lookup_delete_Some not_elem_of_cons. naive_solver.
Qed.

Lemma apply_delta_rows :
  interner_ok out.2 ∧ ext t out.2 ∧ knows_all out.2 new ∧
  (d_err out.1 = None → represents endian (rowsOf out.2 new) (krows (d_map out.1))) ∧
  ((∀ i, fault i = None) → d_err out.1 = None).
Proof.
  destruct apply_interner as (Hok & He & Hk & Eout). split_and!; try done; rw Eout; clear Eout.
  all: set (t' := out.2) in *; cbn zeta.
  all: destruct (upsert_phase fault endian (rowsOf t old) (go_range (rowsOf t' new))
    (mkD km (mkDelta 0 0 0) None)) as (Hu & Hnf & Hdom & _);
    set (d := foldl (upsertRow fault endian (rowsOf t old)) _ (go_range (rowsOf t' new))) in *.
  all: destruct (delete_phase fault endian (rowsOf t' new) (go_range (rowsOf t old)) d ∅) as (Hd & _ & Hdf).
  - destruct (d_err d) eqn:Ed; first by rw Ed. intros E. destruct (Hd E) as [_ ->].
    destruct (Hu eq_refl) as [_ ->]. intros key z. rw foldl_delete delete_keys. split.
    + intros [[?|[Ho Hnew]]%lookup_upserts Hnd]; first done. simpl in Ho.
      apply holds_old in Ho as (rk & Hrk & ->).
      destruct (rowsOf t' new !! rk) as [z'|] eqn:En.
      * exists rk. rw (Hnew rk z' En eq_refl) in Hrk. by simplify_eq.
      * destruct Hnd. exists rk. split_and!; try done. by eapply elem_of_dom_2.
    + intros (rk & Hrk & ->). split; first by apply upserted.
      intros (rk' & [z' Hz']%elem_of_dom & En & E2).
      destruct (lpmKey_inj endian rk.1 rk.2 rk'.1 rk'.2) as [E3 E4];
        [by apply (rowsOf_ok t' new)|by apply (rowsOf_ok t old)|done|].
      destruct rk, rk'; simpl in *; subst. congruence.
  - intros Hf. rw (Hnf eq_refl Hf). apply Hdf; try done; first by apply Hnf.
    + apply NoDup_omap_inj; first by apply (NoDup_fmap_1 fst), NoDup_go_range.
      intros [rk1 z1] [rk2 z2] k H1%elem_of_go_range H2%elem_of_go_range. rw /delete_of /=.
      destruct (rowsOf t' new !! rk1), (rowsOf t' new !! rk2); intros E1 E2; try done.
      assert (lpmKey rk1.1 rk1.2 = lpmKey rk2.1 rk2.2) as Ek by congruence. clear E1 E2.
      destruct (lpmKey_inj endian rk1.1 rk1.2 rk2.1 rk2.2) as [E3 E4]; [..|done|].
      1,2: by apply (rowsOf_ok t old). destruct rk1, rk2; simpl in *; subst. congruence.
    + intros k (rk & [z Hz]%elem_of_dom & _ & ->)%delete_keys. apply Hdom, elem_of_dom. simpl.
      exists z. apply holds_old. by exists rk.
Qed.
Lemma apply_nextID : nextID out.2 ≤ nextID t + Z.of_nat (length new + length old).
Proof.
  rw /ApplyTrieDelta. pose proof (indexRows_spec new t interner) as H1.
  destruct (indexRows new t) as [newRows t1]. destruct H1 as (Hok1 & Hle1 & _); first lia.
  pose proof (indexRows_spec old t1 Hok1) as H2.
  destruct (indexRows old t1) as [oldRows t2]. destruct H2 as (_ & Hle2 & _); first lia.
  cbn zeta. case_match; simpl; lia.
Qed.
(** C29: A pass that reports no error leaves the kernel holding exactly the rows of the
    new trie, each under the id its tenant is interned as, starting from exactly those
    of the old one, whatever order the rows are visited in; and a pass none of whose
    calls fails reports none.  Either way the interner keeps the ids it had given and
    knows every tenant of the new trie. *)
Theorem apply_delta_exact :
  interner_ok out.2 ∧ ext t out.2 ∧ knows_all out.2 new ∧
  (d_err out.1 = None → represents endian (rowsOf out.2 new) (krows (d_map out.1))) ∧
  ((∀ i, fault i = None) → d_err out.1 = None).
Proof. exact apply_delta_rows. Qed.

(** C11: no call of a pass opens a gap: after every one of them the kernel holds
    a row for every prefix of the old trie or a row for every prefix of the
    new one, so a prefix of both is never without a row, not even when calls
    fail. *)
Theorem apply_delta_no_gap h :
  h ∈ khist (d_map out.1) → h ∉ khist km →
  (∀ rk, rk ∈ dom (rowsOf t old) → lpmKey rk.1 rk.2 ∈ dom h) ∨
  (∀ rk, rk ∈ dom (rowsOf out.2 new) → lpmKey rk.1 rk.2 ∈ dom h).
Proof.
  destruct apply_interner as (_ & _ & _ & Eout). rw Eout; clear Eout. cbn zeta.
  set (t' := out.2).
  destruct (upsert_phase fault endian (rowsOf t old) (go_range (rowsOf t' new))
    (mkD km (mkDelta 0 0 0) None)) as (Hu & _ & _ & Hs).
  set (d := foldl (upsertRow fault endian (rowsOf t old)) (mkD km (mkDelta 0 0 0) None)
    (go_range (rowsOf t' new))) in *.
  assert (∀ h : gmap LpmKey Z, dom (krows km) ⊆ dom h → ∀ rk, rk ∈ dom (rowsOf t old) → lpmKey rk.1 rk.2 ∈ dom h) as Hold.
  { intros h' Hh rk [z Hz]%elem_of_dom. apply Hh, elem_of_dom. exists z. apply holds_old. by exists rk. }
  destruct (d_err d) eqn:Ed.
  { intros [?|?]%Hs Hnot; [done|left; by apply Hold]. }
  set (X := list_to_set ((λ kv, lpmKey kv.1.1 kv.1.2) <$> go_range (rowsOf t' new)) : gset LpmKey).
  assert (∀ k, k ∈ X ↔ ∃ rk, rk ∈ dom (rowsOf t' new) ∧ k = lpmKey rk.1 rk.2) as HX.
  { intros k. rw elem_of_list_to_set list_elem_of_fmap. split.
    - intros ([rk z] & -> & Hin%elem_of_go_range). exists rk. split; [by eapply elem_of_dom_2|done].
    - intros (rk & [z Hz]%elem_of_dom & ->). exists (rk, z). split; [done|by apply elem_of_go_range]. }
  destruct (delete_phase fault endian (rowsOf t' new) (go_range (rowsOf t old)) d X) as (_ & Hd & _).
  destruct Hd as [_ Hd].
  - intros k (rk & [z Hz]%elem_of_dom & ->)%HX. apply elem_of_dom. exists z.
    destruct (Hu eq_refl) as [_ ->]. by apply upserted.
  - intros k (rk' & [z' Hz']%elem_of_dom & En & ->)%delete_keys (rk & [z Hz]%elem_of_dom & Ek)%HX.
    destruct (lpmKey_inj endian rk'.1 rk'.2 rk.1 rk.2) as [E3 E4];
      [by apply (rowsOf_ok t old)|by apply (rowsOf_ok t' new)|exact Ek|].
    destruct rk, rk'; simpl in *; subst. congruence.
  - intros [[?|?]%Hs|Hh]%Hd Hnot; [done|left; by apply Hold|right].
    intros rk Hrk. apply Hh, HX. by exists rk.
Qed.
End apply.

(** ** The bulk writers *)

Section bulk.
Context {Err : Type} (fault : nat → option Err) (endian : Endian).

Lemma WriteSubnetZoneTrie_rows es km t :
  interner_ok t → nextID t + Z.of_nat (length es) < 2 ^ 32 →
  let '(w, t') := WriteSubnetZoneTrie fault endian km es t in
  interner_ok t' ∧ nextID t' ≤ nextID t + Z.of_nat (length es) ∧ ext t t' ∧ knows_all t' es ∧
  w = writeRows fault ((λ e, (lpmKey endian (tid t' (TE_TenantID e)) (TE_Prefix e), u8 (TE_Zone e))) <$> es) km.
Proof.
  intros Hok Hmax. rw /WriteSubnetZoneTrie. induction es as [|e es IH] using rev_ind; simpl.
  { split_and!; [done|lia|done|by intros ? []%elem_of_nil|done]. }
  rw length_app /= in Hmax. rw foldl_app /=.
  destruct (foldl _ (mkW km 0 None, t) es) as [w t1]. destruct IH as (Hok1 & Hle1 & He1 & Hk1 & ->); first lia.
  simpl. destruct (Intern_step (TE_TenantID e) t1) as (Hok2 & Hle2 & He2 & Hk2 & Hid); [done|lia|].
  destruct (Intern (TE_TenantID e) t1) as [id t2]; simpl in *. rw length_app /=.
  split_and!; [done|lia|by etrans| |].
  - intros e' [?| ->%list_elem_of_singleton]%elem_of_app; [eapply knows_ext; [done|by apply Hk1]|done].
  - rw fmap_app /writeRows foldl_app /= Hid. do 2 f_equal. apply list_fmap_ext. intros i e' Hi.
    rw (tid_ext t1 t2) //. by apply Hk1, (list_elem_of_lookup_2 _ i).
Qed.

Lemma cold_start_rows es km t : krows km = ∅ →
  interner_ok t → nextID t + Z.of_nat (length es) < 2 ^ 32 → entries_ok es →
  let '(w, t') := WriteSubnetZoneTrie fault endian km es t in
  interner_ok t' ∧ nextID t' ≤ nextID t + Z.of_nat (length es) ∧ ext t t' ∧ knows_all t' es ∧
  (w_err w = None → represents endian (rowsOf t' es) (krows (w_map w)) ∧
     w_written w = Z.of_nat (length es)) ∧
  ((∀ i, fault i = None) → w_err w = None).
Proof.
  intros Hkm Hok Hmax Hes. pose proof (WriteSubnetZoneTrie_rows es km t Hok Hmax) as Hw.
  destruct (WriteSubnetZoneTrie fault endian km es t) as [w t'].
  destruct Hw as (Hok' & Hle & He & Hk & ->). split_and!; [done..| |].
  - destruct (writeRows_spec fault ((λ e, (lpmKey endian (tid t' (TE_TenantID e)) (TE_Prefix e), u8 (TE_Zone e))) <$> es)
      km) as (Hrows & _). intros E.
    destruct (Hrows E) as [-> ->]. rw Hkm length_fmap. split; last done. clear Hrows E.
    rw /rowsOf. assert (entries_ok es) as Hes' by done. revert Hes'. clear Hes Hk Hmax Hle.
    induction es as [|e es IH] using rev_ind; intros Hes.
    { intros key z. rw /= lookup_empty. split; [done|]. intros (rk & Hrk & _). by rw lookup_empty in Hrk. }
    rw !fmap_app /= !insertAll_snoc. intros key z. rw lookup_insert_Some.
    assert (entries_ok es) as Hes' by (intros x ?; apply Hes, elem_of_app; by left).
    specialize (IH Hes'). assert (prefix4_ok (TE_Prefix e)) as Hp
      by (apply Hes, elem_of_app; right; by apply list_elem_of_singleton).
    rw (IH key z). split.
    + intros [[<- <-]|[Hne (rk & Hrk & ->)]].
      * exists (tid t' (TE_TenantID e), TE_Prefix e). by rw lookup_insert_eq.
      * exists rk. rw lookup_insert_ne; [|done]. intros E. apply Hne. by rw -E.
    + intros (rk & [[<- <-]|[Hne Hrk]]%lookup_insert_Some & ->); first by left.
      right. split; last by exists rk. intros Ek.
      destruct (lpmKey_inj endian (tid t' (TE_TenantID e)) (TE_Prefix e) rk.1 rk.2) as [E1 E2];
        [done|by apply (rowsOf_ok t' es)|done|]. apply Hne. destruct rk. simpl in *. congruence.
  - apply writeRows_spec.
Qed.

(** the cold-start write of the trie that reports no error leaves exactly
    the rows of the trie in an empty kernel map, one call per row. *)
Theorem cold_start_trie es t :
  interner_ok t → nextID t + Z.of_nat (length es) < 2 ^ 32 → entries_ok es →
  let '(w, t') := WriteSubnetZoneTrie fault endian (mkKmap ∅ 0 []) es t in
  ext t t' ∧ knows_all t' es ∧
  (w_err w = None → represents endian (rowsOf t' es) (krows (w_map w)) ∧
     w_written w = Z.of_nat (length es)) ∧
  ((∀ i, fault i = None) → w_err w = None).
Proof.
  intros Hok Hmax Hes. pose proof (cold_start_rows es (mkKmap ∅ 0 []) t eq_refl Hok Hmax Hes) as Hc.
  destruct (WriteSubnetZoneTrie _ _ _ es t). naive_solver.
Qed.

Lemma macPairs_spec l t :
  interner_ok t → nextID t + Z.of_nat (length l) < 2 ^ 32 →
  let '(pairs, t') := macPairs l t in
  interner_ok t' ∧ nextID t' ≤ nextID t + Z.of_nat (length l) ∧ ext t t' ∧
  (∀ x, x ∈ l → knows t' (ProjectID x.2)) ∧
  pairs = omap (λ x, if decide (ProjectID x.2 = "") then None
                     else Some (x.1, TenantValue (tid t' (ProjectID x.2)) (IsAmphora x.2))) l.
Proof.
  intros Hok Hmax. rw /macPairs. induction l as [|[mac v] l IH] using rev_ind; simpl.
  { split_and!; [done|lia|done|by intros ? []%elem_of_nil|done]. }
  rw length_app /= in Hmax. rw foldl_app /=.
  destruct (foldl _ ([], t) l) as [pairs t1]. destruct IH as (Hok1 & Hle1 & He1 & Hk1 & ->); first lia.
  simpl. case_decide as Hp.
  - rw omap_app length_app. csimpl. rw decide_True // app_nil_r. split_and!; [done|lia|done| |done].
    intros x [?| ->%list_elem_of_singleton]%elem_of_app; [by apply Hk1|by left].
  - destruct (Intern_step (ProjectID v) t1) as (Hok2 & Hle2 & He2 & Hk2 & Hid); [done|lia|].
    destruct (Intern (ProjectID v) t1) as [id t2]; simpl in *. rw omap_app length_app. csimpl.
    rw decide_False //. split_and!; [done|lia|by etrans| |].
    + intros x [?| ->%list_elem_of_singleton]%elem_of_app; [eapply knows_ext; [done|by apply Hk1]|done].
    + f_equal; last by rw Hid. apply list_omap_ext, Forall_Forall2_diag, Forall_forall.
      intros x Hx. case_decide; [done|]. rw (tid_ext t1 t2) //. by apply Hk1.
Qed.

(** the cold-start write of the MAC map that reports no error maps exactly
    the MACs of the store that have a project to its interned id, marked when
    the port is an Amphora's. *)
Theorem cold_start_macs `{MetaStore M} (store : M) t :
  ms_ok store → interner_ok t → nextID t + Z.of_nat (size (ms_view store)) < 2 ^ 32 →
  let '(w, t') := WriteMacTenantMap fault (mkKmap ∅ 0 []) store t in
  ext t t' ∧
  (w_err w = None → ∀ mac v, krows (w_map w) !! mac = Some v ↔
     ∃ m, ms_Lookup mac store = Some m ∧ ProjectID m ≠ "" ∧
       v = TenantValue (tid t' (ProjectID m)) (IsAmphora m)) ∧
  ((∀ i, fault i = None) → w_err w = None).
Proof.
  intros Hst Hok Hmax. rw /WriteMacTenantMap. pose proof (ms_Range_view store Hst) as Hperm.
  pose proof (macPairs_spec (ms_Range store) t Hok) as Hp.
  rw (_ : length (ms_Range store) = size (ms_view store)) in Hp; first by rw Hperm length_map_to_list.
  specialize (Hp Hmax).
  destruct (macPairs (ms_Range store) t) as [pairs t']. destruct Hp as (_ & _ & He & _ & ->).
  set (f := λ x : Z * TenantMeta, _). split_and!; first done.
  - destruct (writeRows_spec fault (omap f (ms_Range store)) (mkKmap ∅ 0 [])) as (Hrows & _).
    intros E mac v. destruct (Hrows E) as [-> _]. simpl.
    assert (∀ x kv, f x = Some kv → kv.1 = x.1) as Hkey.
    { intros x kv. rw /f. case_decide; [done|by intros [= <-]]. }
    rw insert_loop_iff.
    + intros x y kx ky Hx Hy Ex Ey E2. rw (Hkey _ _ Ex) (Hkey _ _ Ey) in E2.
      assert (x = y) as <-; last congruence. apply (NoDup_fmap_eq fst (ms_Range store)); try done.
      rw Hperm. apply NoDup_fst_map_to_list.
    + rw ms_Lookup_view //. split.
      * intros ([mac' m] & Hin & Ef). rw Hperm elem_of_map_to_list in Hin. rw /f /= in Ef.
        case_decide; simplify_eq. by exists m.
      * intros (m & Hm & Hne & ->). exists (mac, m). rw Hperm elem_of_map_to_list. split; first done.
        by rw /f /= decide_False.
  - apply writeRows_spec.
Qed.
End bulk.

Module KernelWriterExamples.
#[local] Existing Instance list_range.
Import Demo.
Definition never : nat → option () := λ _, None.
Definition rows : list TrieEntry := (BuildTrie snap).1.1.
(** The same deployment after the second tenant's route is withdrawn. *)
Definition rows2 : list TrieEntry := (BuildTrie (mkSnapshot (Networks snap) (Subnets snap) (Ports snap)
  [r1; mkRouter "r2" "tB" "r2" "" []] [] [] [] [] [])).1.1.
Lemma build_ok s : entries_ok (BuildTrie s).1.1.
Proof. intros e He%elem_of_buildTrie. by destruct (row_prefix_ok _ _ _ He). Qed.
Lemma rows_fine : entries_ok rows.
Proof. apply build_ok. Qed.
Lemma rows2_fine : entries_ok rows2.
Proof. apply build_ok. Qed.
Definition written := WriteSubnetZoneTrie never LittleEndian (mkKmap ∅ 0 []) rows NewTenantInterner.
Lemma written_ok :
  interner_ok written.2 ∧ ext NewTenantInterner written.2 ∧ knows_all written.2 rows ∧
  represents LittleEndian (rowsOf written.2 rows) (krows (w_map written.1)).
Proof.
  assert (nextID NewTenantInterner + Z.of_nat (length rows) < 2 ^ 32) as Hcap by (by vm_compute).
  pose proof (cold_start_rows never LittleEndian rows (mkKmap ∅ 0 []) NewTenantInterner eq_refl
    NewTenantInterner_ok Hcap rows_fine) as Hc.
  rw /written. destruct (WriteSubnetZoneTrie _ _ _ _ _) as [w t]. simpl.
  destruct Hc as (Hok & _ & He & Hk & Hrep & Hno).
  refine (conj Hok (conj He (conj Hk (proj1 (Hrep (Hno _)))))). by intros i.
Qed.

Lemma cold_start_trie_witness :
  let '(w, t) := written in w_err w = None ∧ represents LittleEndian (rowsOf t rows) (krows (w_map w)).
Proof.
  assert (nextID NewTenantInterner + Z.of_nat (length rows) < 2 ^ 32) as Hcap by (by vm_compute).
  pose proof (cold_start_trie never LittleEndian rows NewTenantInterner
    NewTenantInterner_ok Hcap rows_fine) as Hc.
  rw /written. destruct (WriteSubnetZoneTrie _ _ _ _ _) as [w t].
  destruct Hc as (_ & _ & Hrep & Hno). split; [by apply Hno|apply Hrep; by apply Hno].
Defined.

Definition one_port : ShardedMetadataMap :=
  Insert 2199023255562 (mkMeta "tA" "srvA" "vmA" "public" false 0) New_metadata.
Lemma cold_start_macs_witness :
  krows (w_map (WriteMacTenantMap never (mkKmap ∅ 0 []) one_port NewTenantInterner).1) !! 2199023255562 = Some 1.
Proof.
  assert (ms_ok one_port) as Hok.
  { refine (proj1 (ms_Insert_view New_metadata _ _ _)). exact (proj1 (ms_new_ok (M := ShardedMetadataMap))). }
  pose proof (cold_start_macs never one_port NewTenantInterner Hok NewTenantInterner_ok) as Hc.
  specialize (Hc ltac:(by vm_compute)).
  destruct (WriteMacTenantMap never (mkKmap ∅ 0 []) one_port NewTenantInterner) as [w t] eqn:E.
  destruct Hc as (_ & Hmap & Hno). apply Hmap; first by apply Hno.
  exists (mkMeta "tA" "srvA" "vmA" "public" false 0).
  assert (t = (WriteMacTenantMap never (mkKmap ∅ 0 []) one_port NewTenantInterner).2) as -> by (by rw E).
  refine (conj _ (conj _ _)); [vm_compute; reflexivity|discriminate|vm_compute; reflexivity].
Defined.

Lemma delta_capacity : nextID written.2 + Z.of_nat (length rows2 + length rows) < 2 ^ 32.
Proof. by vm_compute. Qed.
(** The map a later pass starts from. *)
Definition restart (km : kmap LpmKey Z) : kmap LpmKey Z := mkKmap (krows km) 0 [].
Lemma restart_represents e rs km : represents e rs (krows km) → represents e rs (krows (restart km)).
Proof. done. Qed.
Definition start : kmap LpmKey Z := restart (w_map written.1).
Lemma start_ok : interner_ok written.2 ∧ knows_all written.2 rows ∧
  represents LittleEndian (rowsOf written.2 rows) (krows start).
Proof.
  destruct written_ok as (Hok & _ & Hk & Hrep). 
  exact (conj Hok (conj Hk (restart_represents _ _ _ Hrep))).
Qed.
Notation pass := (ApplyTrieDelta never LittleEndian start rows rows2 written.2).
Lemma apply_delta_exact_witness :
  represents LittleEndian (rowsOf pass.2 rows2) (krows (d_map pass.1)) ∧ Removed (d_delta pass.1) = 1.
Proof.
  destruct start_ok as (Hok & Hk & Hrep).
  destruct (apply_delta_exact never LittleEndian written.2 rows rows2 start
    Hok delta_capacity rows_fine rows2_fine Hk Hrep) as (_ & _ & _ & Hex & Hno).
  split; [apply Hex; by apply Hno|by vm_compute].
Defined.
Lemma apply_delta_no_gap_witness :
  Forall (λ h : gmap LpmKey Z,
    (∀ rk, rk ∈ dom (rowsOf written.2 rows) → lpmKey LittleEndian rk.1 rk.2 ∈ dom h) ∨
    (∀ rk, rk ∈ dom (rowsOf pass.2 rows2) → lpmKey LittleEndian rk.1 rk.2 ∈ dom h)) (khist (d_map pass.1)).
Proof.
  destruct start_ok as (Hok & Hk & Hrep). apply Forall_forall. intros h Hh.
  refine (apply_delta_no_gap never LittleEndian written.2 rows rows2 start
    Hok delta_capacity rows_fine rows2_fine Hk Hrep h Hh _). by intros ?%elem_of_nil.
Defined.

(** A route to the tenant's own prefix gives two rows that disagree; the debug
    lookup answers the first, the kernel keeps the last. *)
Definition rival : Router := mkRouter "r3" "tA" "r3" "ext" [mkRoute "10.0.1.0/24" "10.9.0.99"].
Definition clash : list TrieEntry :=
  (BuildTrie (mkSnapshot [netA] [subA] [vmA] [rival] [] [] [] [] [])).1.1.
Example clash_disagrees :
  (TE_Zone <$> (Lookup.LookupZone clash 167772421 "tA").1) = Some ZoneExternal ∧
  rowsOf (indexRows clash NewTenantInterner).2 clash !! (1, mkPrefix4 167772416 24) = Some ZoneSameTenant.
Proof. by vm_compute. Qed.
(** A pass that fails at its third call is not committed: the next one still diffs
    against the old (here empty) trie, and when the new rows are gone by then the
    thirteen already written stay in the kernel without any error. *)
Definition third_call_fails (i : nat) : option () := if decide (i = 2%nat) then Some () else None.
Definition failed := (ApplyTrieDelta third_call_fails LittleEndian (mkKmap ∅ 0 []) [] rows NewTenantInterner).
Definition retried := (ApplyTrieDelta never LittleEndian (d_map failed.1) [] [] failed.2).
Example stale_after_failure :
  d_err failed.1 ≠ None ∧ d_err retried.1 = None ∧ size (krows (d_map retried.1)) = 13%nat.
Proof. split; [by vm_compute|]. split; by vm_compute. Qed.
End KernelWriterExamples.
