(* ===== verification/Unresolved.v ===== *)
(** * Late binding (internal/unresolved)

    The buffer that holds flows whose VM-side MAC is unknown, and the
    classifier that routes each drained reading to the counters or to the
    buffer.  One goroutine owns the buffer, so a method is a function of the
    buffer, the counters it folds into and the log of the kernel deletions it
    asks for. *)
From S2P Require Import Prelude Bpf State Metadata.

(** ** Data (buffer.go) *)

(** The pointer of an entry into the LRU list is its key: a key is listed at
    most once. *)
Record buf_entry := mkEntry { e_total : FlowMetrics; e_lastRaw : FlowMetrics; firstSeen : Z }.
#[export] Instance buf_entry_eq_dec : EqDecision buf_entry.
Proof. solve_decision. Defined.

(** [order] has the most recently captured key in front. *)
Record Buffer := mkBuffer { entries : gmap FlowKey buf_entry; order : list FlowKey }.
Definition NewBuffer : Buffer := mkBuffer ∅ [].

(** What the buffer acts on: the counters and the kernel's telemetry_map, the
    latter as the calls of [FlowEvictor.Delete] made so far. *)
Record world := mkWorld { w_buf : Buffer; w_state : GlobalState; w_deleted : list FlowKey }.

Definition remove_key (k : FlowKey) (l : list FlowKey) : list FlowKey := filter (λ k', k' ≠ k) l.

(** ** Operations *)

Definition unknownKey (key : FlowKey) : FlowKey :=
  mkFlowKey zeroMac zeroMac (EthProto key) (Direction_ key) (DstZone key) (L4Proto_ key) 0.

Definition foldToUnknown (key : FlowKey) (total : FlowMetrics) (g : GlobalState) : GlobalState :=
  Add (unknownKey key) total g.

Definition drop_entry (key : FlowKey) (delKernel : bool) (w : world) : world :=
  mkWorld (mkBuffer (delete key (entries (w_buf w))) (remove_key key (order (w_buf w))))
    (w_state w) (if delKernel then w_deleted w ++ [key] else w_deleted w).

Definition foldOut (key : FlowKey) (e : buf_entry) (delKernel : bool) (w : world) : world :=
  drop_entry key delKernel
    (mkWorld (w_buf w) (foldToUnknown key (e_total e) (w_state w)) (w_deleted w)).

(** The loop of [evictOverCap].  A listed key without an entry would be a nil
    dereference; [buffer_ok] excludes it. *)
Fixpoint evictLoop (fuel : nat) (cap : Z) (w : world) : world :=
  match fuel with
  | O => w
  | S fuel =>
      if decide (cap < Z.of_nat (size (entries (w_buf w)))) then
        match last (order (w_buf w)) with
        | None => w
        | Some key =>
            match entries (w_buf w) !! key with
            | None => w
            | Some e => evictLoop fuel cap (foldOut key e true w)
            end
        end
      else w
  end.
Definition evictOverCap (cap : Z) (w : world) : world :=
  evictLoop (S (size (entries (w_buf w)))) cap w.

Definition captureEntry (e : buf_entry) (raw : FlowMetrics) : buf_entry :=
  let tot := e_total e in
  let last := e_lastRaw e in
  let '(tb, lb) := AddDelta (Bytes tot) (Bytes last) (Bytes raw) in
  let '(tp, lp) := AddDelta (Packets tot) (Packets last) (Packets raw) in
  mkEntry
    (mkFlowMetrics tb tp
      (if decide (LastSeenNs tot < LastSeenNs raw) then LastSeenNs raw else LastSeenNs tot)
      (CreatedNs tot))
    (mkFlowMetrics lb lp (LastSeenNs raw) (CreatedNs last))
    (firstSeen e).

Definition Capture (cap now : Z) (key : FlowKey) (raw : FlowMetrics) (w : world) : world :=
  let b := w_buf w in
  match entries b !! key with
  | None =>
      evictOverCap cap
        (mkWorld (mkBuffer (<[key := mkEntry raw raw now]> (entries b)) (key :: order b))
          (w_state w) (w_deleted w))
  | Some e =>
      mkWorld (mkBuffer (<[key := captureEntry e raw]> (entries b)) (key :: remove_key key (order b)))
        (w_state w) (w_deleted w)
  end.

Section sweep.
Context `{GoRange}.

Definition sweepRow (force : bool) (ttl now : Z) (w : world) (row : FlowKey * buf_entry) : world :=
  if decide (force = false ∧ now - firstSeen row.2 < ttl) then w
  else foldOut row.1 row.2 (negb force) w.
Definition Sweep (force : bool) (ttl now : Z) (w : world) : world :=
  foldl (sweepRow force ttl now) w (go_range (entries (w_buf w))).
End sweep.

Definition Buffer_Resolve (key : FlowKey) (w : world) : world * bool :=
  match entries (w_buf w) !! key with
  | None => (w, false)
  | Some e =>
      (drop_entry key false
        (mkWorld (w_buf w) (Resolve key (e_total e) (e_lastRaw e) (w_state w)) (w_deleted w)), true)
  end.

(** ** The classifier (classifier.go) *)

Definition Absorb `{MetaStore M} (meta : M) (cap now : Z) (key : FlowKey) (raw : FlowMetrics)
    (w : world) : world :=
  match ms_Lookup (VMMAC key) meta with
  | Some _ =>
      let w := (Buffer_Resolve key w).1 in
      mkWorld (w_buf w) (ApplyDelta key raw (w_state w)) (w_deleted w)
  | None => Capture cap now key raw w
  end.

(** ** The invariant of the buffer *)

Definition buffer_ok (b : Buffer) : Prop :=
  NoDup (order b) ∧ ∀ k, k ∈ order b ↔ is_Some (entries b !! k).

Lemma elem_of_remove_key k k' l : k' ∈ remove_key k l ↔ k' ≠ k ∧ k' ∈ l.
Proof. rw /remove_key. apply (list_elem_of_filter (λ x, x ≠ k) l k'). Qed.
Lemma NoDup_remove_key k l : NoDup l → NoDup (remove_key k l).
Proof. apply NoDup_filter. Qed.
Lemma remove_key_notin k l : k ∉ l → remove_key k l = l.
Proof.
  induction l as [|k' l IH]; first done. intros [? ?]%not_elem_of_cons.
  rw /remove_key filter_cons_True; first by intros ->. f_equal. by apply IH.
Qed.
Lemma remove_key_last k l : NoDup (l ++ [k]) → remove_key k (l ++ [k]) = l.
Proof.
  intros [_ [Hk _]]%NoDup_app. rw /remove_key filter_app.
  rw -/(remove_key k l) remove_key_notin; first by intros Hin; apply (Hk k Hin), list_elem_of_singleton.
  rw filter_cons_False; first by intros []. by rw filter_nil app_nil_r.
Qed.

Lemma length_order b : buffer_ok b → length (order b) = size (entries b).
Proof.
  intros [Hnd Hin]. rw -size_dom -(size_list_to_set (C := gset FlowKey)) //. f_equal.
  apply set_eq. intros k. by rw elem_of_list_to_set elem_of_dom.
Qed.

Lemma drop_ok k delK w : buffer_ok (w_buf w) → buffer_ok (w_buf (drop_entry k delK w)).
Proof.
  intros [Hnd Hin]. split; simpl; first by apply NoDup_remove_key.
  intros k'. rw elem_of_remove_key Hin lookup_delete_is_Some. naive_solver.
Qed.
Lemma foldOut_ok k e delK w : buffer_ok (w_buf w) → buffer_ok (w_buf (foldOut k e delK w)).
Proof. intros Hok. by apply (drop_ok k delK (mkWorld _ _ _)). Qed.

(** The eviction loop keeps the [cap] most recently captured keys. *)
Lemma evictLoop_spec fuel cap w :
  buffer_ok (w_buf w) → 0 ≤ cap → (size (entries (w_buf w)) ≤ fuel)%nat →
  let w' := evictLoop fuel cap w in
  buffer_ok (w_buf w') ∧
  order (w_buf w') = take (Z.to_nat cap) (order (w_buf w)) ∧
  w_deleted w' = w_deleted w ++ reverse (drop (Z.to_nat cap) (order (w_buf w))) ∧
  (∀ k, k ∈ order (w_buf w') → entries (w_buf w') !! k = entries (w_buf w) !! k).
Proof.
  induction fuel as [|fuel IH] in w |- *; intros Hok Hcap Hsize;
    pose proof (length_order _ Hok) as Hlen; simpl.
  { rw (_ : order (w_buf w) = []); first (apply nil_length_inv; lia).
    by rw take_nil drop_nil app_nil_r. }
  case_decide as Hd; last first.
  { rw take_ge; first lia. rw drop_ge; first lia. by rw app_nil_r. }
  destruct (order (w_buf w)) as [|k l _] eqn:E using rev_ind; first (simpl in *; lia).
  rw last_snoc. destruct Hok as [Hnd Hin]. rw E in Hnd Hin.
  destruct (proj1 (Hin k)) as [e He]; first by apply elem_of_app; right; left.
  rw He. rw length_app /= in Hlen.
  destruct (IH (foldOut k e true w)) as (Hok' & Hord & Hdel & Hent).
  - apply foldOut_ok. split; by rw E.
  - done.
  - rw /= map_size_delete_Some; [by eexists|lia].
  - rw /= E remove_key_last // in Hord Hdel.
    split_and!; [done| | |].
    + rw Hord take_app_le //; lia.
    + rw Hdel /= drop_app_le; first lia. by rw reverse_app -app_assoc.
    + intros k' Hk'. rw Hent // /= lookup_delete_ne //. intros <-.
      rw Hord in Hk'. apply elem_of_take in Hk' as (i & Hi & _).
      apply list_elem_of_lookup_2 in Hi. apply NoDup_app in Hnd as (_ & Hnd & _).
      by apply (Hnd k Hi), list_elem_of_singleton.
Qed.

(** ** No byte is dropped

    [mass] is everything the counters and the buffer hold, by zone and
    direction, the two labels a fold to "unknown" keeps. *)
Definition zoneDir (k : FlowKey) : Z * Z := (DstZone k, Direction_ k).
Definition massRow (kc : FlowKey * Counter) : list ((Z * Z) * settledTotal) :=
  [(zoneDir kc.1, total_of kc.2)].
Definition massEntry (ke : FlowKey * buf_entry) : list ((Z * Z) * settledTotal) :=
  [(zoneDir ke.1, of_metrics (e_total ke.2))].
Definition mass (w : world) : gmap (Z * Z) settledTotal :=
  tally ((map_to_list (entries (w_buf w)) ≫= massEntry) ++
         (map_to_list (counts (w_state w)) ≫= massRow)).

Lemma mass_counted b g g' d d' key v :
  counted g key v g' →
  mass (mkWorld b g' d') = credit (zoneDir key) v (mass (mkWorld b g d)).
Proof. intros (_ & _ & _ & c' & Hg' & Hv). rw /mass /= Hg'. by apply tally_counted. Qed.

Lemma mass_entry es ord g d ord' d' key e :
  mass (mkWorld (mkBuffer (<[key := e]> es) ord) g d) =
  credit (zoneDir key) (of_metrics (e_total e)) (mass (mkWorld (mkBuffer (delete key es) ord') g d')).
Proof.
  rw /mass /= (bind_rows_insert massEntry) /=.
  by rw /tally tally_from_cons tally_from_credit.
Qed.
Lemma mass_delete b g d ord' d' key e :
  entries b !! key = Some e →
  mass (mkWorld b g d) =
  credit (zoneDir key) (of_metrics (e_total e))
    (mass (mkWorld (mkBuffer (delete key (entries b)) ord') g d')).
Proof.
  intros He. destruct b as [es ord]; simpl in *.
  by rw -{1}(insert_id es key e He) (mass_entry _ _ _ _ ord' d').
Qed.

Lemma foldOut_mass key e delK w :
  entries (w_buf w) !! key = Some e → mass (foldOut key e delK w) = mass w.
Proof.
  destruct w as [b g d]; simpl; intros He. rw /foldOut /drop_entry /=.
  rw (mass_counted _ g _ d _ _ _ (Add_counted _ _ g)).
  by rw (mass_delete b g d (remove_key key (order b)) d key e He).
Qed.
Lemma evictLoop_mass fuel cap w : mass (evictLoop fuel cap w) = mass w.
Proof.
  induction fuel as [|fuel IH] in w |- *; simpl; first done.
  case_decide; last done. destruct (last _) as [k|]; last done.
  destruct (entries (w_buf w) !! k) as [e|] eqn:E; last done.
  by rw IH foldOut_mass.
Qed.

Section sweep_proofs.
Context `{GoRange} (force : bool) (ttl now : Z).

Lemma sweepRow_local w k e k' :
  k' ≠ k →
  entries (w_buf (sweepRow force ttl now w (k, e))) !! k' = entries (w_buf w) !! k'.
Proof. rw /sweepRow. intros. case_decide; first done. by rw /= lookup_delete_ne. Qed.

Lemma Sweep_mass w : mass (Sweep force ttl now w) = mass w.
Proof.
  apply (rows_ind (λ w, entries (w_buf w)) (sweepRow force ttl now)
    (λ w k e k' _, sweepRow_local w k e k') (λ w', mass w' = mass w) w); last done.
  intros w' k e He <-. rw /sweepRow. case_decide; first done. by apply foldOut_mass.
Qed.
Lemma Sweep_ok w : buffer_ok (w_buf w) → buffer_ok (w_buf (Sweep force ttl now w)).
Proof.
  intros Hok. apply (rows_ind (λ w, entries (w_buf w)) (sweepRow force ttl now)
    (λ w k e k' _, sweepRow_local w k e k') (λ w', buffer_ok (w_buf w')) w); last done.
  intros w' k e He Hok'. rw /sweepRow. case_decide; first done. by apply foldOut_ok.
Qed.
Lemma Sweep_lookup w k :
  entries (w_buf (Sweep force ttl now w)) !! k =
  entries (w_buf w) !! k ≫= λ e,
    if decide (force = false ∧ now - firstSeen e < ttl) then Some e else None.
Proof.
  refine (rows_lookup (λ w, entries (w_buf w)) (sweepRow force ttl now)
    (λ w k e k' _, sweepRow_local w k e k')
    (λ k e, if decide (force = false ∧ now - firstSeen e < ttl) then Some e else None) w _ _).
  intros w' k' e He. rw /sweepRow /=. case_decide; first done. apply lookup_delete_eq.
Qed.
End sweep_proofs.

(** The traffic a reading adds while it is buffered, by the value guard. *)
Definition captureDelta (row : option buf_entry) (raw : FlowMetrics) : settledTotal :=
  match row with
  | None => of_metrics raw
  | Some e => mkSettled (guardDelta (Bytes (e_lastRaw e)) (Bytes raw))
                        (guardDelta (Packets (e_lastRaw e)) (Packets raw))
  end.
Lemma captureEntry_total e raw :
  of_metrics (e_total (captureEntry e raw)) =
  acc_add (of_metrics (e_total e)) (captureDelta (Some e) raw).
Proof. by rw /captureEntry !AddDelta_guard. Qed.

Lemma Capture_mass cap now key raw w :
  mass (Capture cap now key raw w) =
  credit (zoneDir key) (captureDelta (entries (w_buf w) !! key) raw) (mass w).
Proof.
  destruct w as [[es ord] g d]. rw /Capture /=. destruct (es !! key) as [e|] eqn:E.
  - rw (mass_entry _ _ _ _ ord d) captureEntry_total -credit_sum.
    by rw (mass_delete (mkBuffer es ord) g d ord d key e E).
  - rw /evictOverCap evictLoop_mass (mass_entry _ _ _ _ ord d) /=.
    by rw delete_id.
Qed.

Lemma Resolve_world_mass key w :
  mass (Buffer_Resolve key w).1 = mass w.
Proof.
  destruct w as [b g d]. rw /Buffer_Resolve /=. destruct (entries b !! key) as [e|] eqn:E; last done.
  rw /drop_entry /= (mass_counted _ g _ d _ _ _ (Resolve_counted key _ _ g)).
  by rw (mass_delete b g d (remove_key key (order b)) d key e E).
Qed.

Section classifier.
Context `{MetaStore M} (meta : M) (cap now : Z).

Definition absorbDelta (key : FlowKey) (raw : FlowMetrics) (w : world) : settledTotal :=
  match ms_Lookup (VMMAC key) meta with
  | Some _ => rowDelta (counts (w_state (Buffer_Resolve key w).1) !! key) raw
  | None => captureDelta (entries (w_buf w) !! key) raw
  end.

Lemma Absorb_mass key raw w :
  mass (Absorb meta cap now key raw w) = credit (zoneDir key) (absorbDelta key raw w) (mass w).
Proof.
  rw /Absorb /absorbDelta. destruct (ms_Lookup _ _); last apply Capture_mass.
  rw (mass_counted _ _ _ (w_deleted (Buffer_Resolve key w).1) _ _ _ (ApplyDelta_counted key raw _)).
  rw -(Resolve_world_mass key w). by destruct (Buffer_Resolve key w).1.
Qed.

Lemma Capture_ok key raw w :
  buffer_ok (w_buf w) → 0 ≤ cap →
  buffer_ok (w_buf (Capture cap now key raw w)) ∧
  ((size (entries (w_buf w)) ≤ Z.to_nat cap)%nat →
   order (w_buf (Capture cap now key raw w)) =
     take (Z.to_nat cap) (key :: remove_key key (order (w_buf w))) ∧
   w_deleted (Capture cap now key raw w) =
     w_deleted w ++ reverse (drop (Z.to_nat cap) (key :: remove_key key (order (w_buf w))))).
Proof.
  destruct w as [[es ord] g d]. intros [Hnd Hin] Hcap. rw /Capture /= in Hnd Hin *.
  pose proof (length_order (mkBuffer es ord) (conj Hnd Hin)) as Hlen. simpl in Hlen.
  assert (NoDup (key :: remove_key key ord)) as Hnd'.
  { apply NoDup_cons. split; last by apply NoDup_remove_key. rw elem_of_remove_key. by intros []. }
  destruct (es !! key) as [e|] eqn:E.
  - split; [split; [done|]|].
    + intros k. rw elem_of_cons elem_of_remove_key Hin lookup_insert_is_Some.
      destruct (decide (k = key)); naive_solver.
    + intros Hs. assert (key ∈ ord) as Hk by (apply Hin; by eexists).
      assert (length (key :: remove_key key ord) = length ord) as Hl.
      { apply Permutation_length. symmetry. apply NoDup_Permutation; [done..|].
        intros k. rw elem_of_cons elem_of_remove_key.
        destruct (decide (k = key)); naive_solver. }
      rw take_ge; first lia. rw drop_ge; first lia. by rw app_nil_r.
  - assert (key ∉ ord) as Hk by (rw Hin E; by intros []).
    rw (remove_key_notin key ord) // in Hnd' *.
    destruct (evictLoop_spec (S (size (<[key := mkEntry raw raw now]> es))) cap
      (mkWorld (mkBuffer (<[key := mkEntry raw raw now]> es) (key :: ord)) g d)) as (Hok & Hord & Hdel & _).
    + split; first done. intros k. rw /= elem_of_cons Hin lookup_insert_is_Some.
      destruct (decide (k = key)); naive_solver.
    + done.
    + simpl. lia.
    + by split.
Qed.
Lemma Resolve_ok key w : buffer_ok (w_buf w) → buffer_ok (w_buf (Buffer_Resolve key w).1).
Proof.
  rw /Buffer_Resolve. destruct (_ !! key); last done. intros Hok.
  by apply (drop_ok key false (mkWorld _ _ _)).
Qed.
Lemma Resolve_gone key w : entries (w_buf (Buffer_Resolve key w).1) !! key = None.
Proof.
  rw /Buffer_Resolve. destruct (entries (w_buf w) !! key) eqn:E; last done.
  apply lookup_delete_eq.
Qed.

(** C10: late binding loses and repeats nothing: absorbing a reading adds
    exactly its traffic to what the counters and the buffer hold together,
    per zone and direction; the fold of expired and evicted entries to
    "unknown" and the hand-over of a buffered flow to its project leave that
    sum unchanged. *)
Theorem late_binding_conserves `{GoRange} force ttl key raw w :
  mass (Absorb meta cap now key raw w) = credit (zoneDir key) (absorbDelta key raw w) (mass w) ∧
  mass (Sweep force ttl now w) = mass w ∧
  mass (Buffer_Resolve key w).1 = mass w.
Proof. split_and!; [apply Absorb_mass|apply Sweep_mass|apply Resolve_world_mass]. Qed.

(** the buffer never outgrows its cap, and the entries given up are the
    least recently captured ones, each with one kernel deletion, oldest
    first. *)
Theorem capture_lru key raw w :
  buffer_ok (w_buf w) → 0 ≤ cap → Z.of_nat (size (entries (w_buf w))) ≤ cap →
  let w' := Capture cap now key raw w in
  buffer_ok (w_buf w') ∧ Z.of_nat (size (entries (w_buf w'))) ≤ cap ∧
  order (w_buf w') = take (Z.to_nat cap) (key :: remove_key key (order (w_buf w))) ∧
  w_deleted w' =
    w_deleted w ++ reverse (drop (Z.to_nat cap) (key :: remove_key key (order (w_buf w)))).
Proof.
  intros Hok Hcap Hs w'. destruct (Capture_ok key raw w Hok Hcap) as [Hok' H'].
  destruct H' as [Hord Hdel]; first lia.
  split_and!; [done| |done|done].
  rw -(length_order _ Hok') Hord length_take. lia.
Qed.

Lemma Absorb_known key raw w v :
  ms_Lookup (VMMAC key) meta = Some v →
  let w' := Absorb meta cap now key raw w in
  entries (w_buf w') !! key = None ∧ w_deleted w' = w_deleted w ∧
  counts (w_state w') !! key =
    Some (match entries (w_buf w) !! key, counts (w_state w) !! key with
          | Some e, None => applyDeltaRow (mkCounter (e_total e) (e_lastRaw e)) raw
          | Some e, Some c => applyDeltaRow (mkCounter (addTotals (Total c) (e_total e)) (e_lastRaw e)) raw
          | None, None => mkCounter raw raw
          | None, Some c => applyDeltaRow c raw
          end).
Proof.
  intros Hv w'. rw /w' /Absorb Hv. split_and!; simpl; first apply Resolve_gone.
  - rw /Buffer_Resolve. by destruct (_ !! key).
  - rw /ApplyDelta /= lookup_insert_eq. f_equal. rw /Buffer_Resolve.
    destruct (entries (w_buf w) !! key) as [e|]; simpl.
    + rw /Resolve /= lookup_insert_eq. by destruct (counts (w_state w) !! key).
    + by destruct (counts (w_state w) !! key).
Qed.

(** a known MAC - a lingering ghost included - is never buffered: its
    readings go straight to the counters, after any earlier buffered traffic
    of the flow. *)
Theorem known_flow_bypasses_buffer key raw w v :
  ms_Lookup (VMMAC key) meta = Some v →
  let w' := Absorb meta cap now key raw w in
  entries (w_buf w') !! key = None ∧ w_deleted w' = w_deleted w ∧
  counts (w_state w') !! key =
    Some (match entries (w_buf w) !! key, counts (w_state w) !! key with
          | Some e, None => applyDeltaRow (mkCounter (e_total e) (e_lastRaw e)) raw
          | Some e, Some c => applyDeltaRow (mkCounter (addTotals (Total c) (e_total e)) (e_lastRaw e)) raw
          | None, None => mkCounter raw raw
          | None, Some c => applyDeltaRow c raw
          end).
Proof. apply Absorb_known. Qed.
End classifier.

(** an ageing sweep keeps exactly the entries younger than the TTL, and the
    shutdown sweep empties the buffer without a single kernel deletion. *)
Theorem sweep_expires `{GoRange} ttl now w :
  (∀ k e, entries (w_buf (Sweep false ttl now w)) !! k = Some e ↔
          entries (w_buf w) !! k = Some e ∧ now - firstSeen e < ttl) ∧
  entries (w_buf (Sweep true ttl now w)) = ∅ ∧
  w_deleted (Sweep true ttl now w) = w_deleted w.
Proof.
  split_and!.
  - intros k e. rw Sweep_lookup. destruct (entries (w_buf w) !! k) as [e'|]; simpl.
    + case_decide; naive_solver.
    + naive_solver.
  - apply map_eq. intros k. rw Sweep_lookup lookup_empty.
    destruct (entries (w_buf w) !! k); [|done]. cbn [mbind option_bind]. by case_decide as Hd; first destruct Hd.
  - apply (rows_ind (λ w, entries (w_buf w)) (sweepRow true ttl now)
      (λ w k e k' _, sweepRow_local true ttl now w k e k')
      (λ w', w_deleted w' = w_deleted w) w); last done.
    intros w' k e _ <-. rw /sweepRow. by case_decide.
Qed.

(** ** Readings of one drain

    With room in the buffer for every reading, absorbing one flow's reading
    does not change what another flow's reading counts. *)
Section frame.
Context `{MetaStore M} (meta : M) (cap now : Z).

Lemma Absorb_frame key raw w key' :
  buffer_ok (w_buf w) → key' ≠ key → Z.of_nat (size (entries (w_buf w))) < cap →
  let w' := Absorb meta cap now key raw w in
  entries (w_buf w') !! key' = entries (w_buf w) !! key' ∧
  counts (w_state w') !! key' = counts (w_state w) !! key' ∧
  buffer_ok (w_buf w') ∧
  (size (entries (w_buf w')) ≤ S (size (entries (w_buf w))))%nat.
Proof.
  destruct w as [[es ord] g d]. intros Hok Hne Hcap. rw /Absorb.
  destruct (ms_Lookup (VMMAC key) meta) as [v|]; cbn zeta.
  - split_and!.
    + rw /Buffer_Resolve /=. destruct (es !! key); [by rw /= lookup_delete_ne|done].
    + rw /ApplyDelta /= lookup_insert_ne //. rw /Buffer_Resolve /=.
      destruct (es !! key); [by rw /= lookup_insert_ne|done].
    + apply (Resolve_ok key) in Hok. exact Hok.
    + rw /Buffer_Resolve /=. destruct (es !! key) eqn:E; simpl; last lia.
      rw map_size_delete_Some; [by eexists|lia].
  - pose proof (Capture_ok cap now key raw _ Hok) as [Hok' _]; first lia.
    rw /Capture /= in Hcap Hok' *. destruct (es !! key) as [e|] eqn:E; simpl.
    + split_and!; [by rw lookup_insert_ne|done|done|].
      rw map_size_insert_Some; [by eexists|lia].
    + rw /evictOverCap in Hok' *.
      rw (_ : ∀ fuel, evictLoop fuel cap
        (mkWorld (mkBuffer (<[key := mkEntry raw raw now]> es) (key :: ord)) g d) =
        mkWorld (mkBuffer (<[key := mkEntry raw raw now]> es) (key :: ord)) g d) in Hok' *.
      { intros []; simpl; first done. case_decide as Hd; last done.
        rw map_size_insert_None // in Hd. lia. }
      split_and!; [by rw /= lookup_insert_ne|done|done|].
      rw /= map_size_insert_None //.
Qed.

Lemma absorbDelta_frame key raw w key' raw' :
  buffer_ok (w_buf w) → key' ≠ key → Z.of_nat (size (entries (w_buf w))) < cap →
  absorbDelta meta key' raw' (Absorb meta cap now key raw w) = absorbDelta meta key' raw' w.
Proof.
  intros Hok Hne Hcap. destruct (Absorb_frame key raw w key' Hok Hne Hcap) as (He & Hc & _).
  rw /absorbDelta /Buffer_Resolve He. destruct (ms_Lookup _ _); last done.
  destruct (entries (w_buf w) !! key') as [e|]; simpl; last by rw Hc.
  by rw !lookup_insert_eq Hc.
Qed.

Definition absorbAll (l : list (FlowKey * FlowMetrics)) (w : world) : world :=
  foldl (λ w kv, Absorb meta cap now kv.1 kv.2 w) w l.

Lemma absorbAll_mass l w :
  buffer_ok (w_buf w) → NoDup l.*1 → Z.of_nat (size (entries (w_buf w)) + length l) ≤ cap →
  mass (absorbAll l w) =
  tally_from (mass w) ((λ kv, (zoneDir kv.1, absorbDelta meta kv.1 kv.2 w)) <$> l).
Proof.
  induction l as [|[key raw] l IH] in w |- *; first done.
  csimpl. intros Hok [Hk Hnd]%NoDup_cons Hcap.
  assert (∀ k', k' ∈ l.*1 → k' ≠ key) as Hne by (intros ? ? ->; done).
  assert (buffer_ok (w_buf (Absorb meta cap now key raw w)) ∧
    (size (entries (w_buf (Absorb meta cap now key raw w))) ≤ S (size (entries (w_buf w))))%nat)
    as [Hok' Hs].
  { destruct (Absorb_frame key raw w (mkFlowKey zeroMac zeroMac 0 0 0 0 (Pad key + 1)) Hok)
      as (_ & _ & ? & ?); [|lia|done].
    intros E. apply (f_equal Pad) in E. simpl in E. lia. }
  rw /absorbAll /= -/(absorbAll l _) IH //; first lia.
  rw Absorb_mass. f_equal. apply list_fmap_ext => i [k' raw'] Hi /=. f_equal.
  apply absorbDelta_frame; [done| |lia].
  apply Hne. apply (list_elem_of_fmap_2 fst l (k', raw')). by eapply list_elem_of_lookup_2.
Qed.
End frame.

(** ** A full buffer *)

(** when the buffer is full, capturing a new flow evicts the least recently
    captured one; if the evicted flow's reading of the same drain is absorbed
    afterwards, its whole cumulative counter is counted again although all of
    it but the growth since the last drain was counted already. *)
Theorem evicted_flow_recounted `{MetaStore M} (meta : M) cap now a b rawA rawB e w :
  buffer_ok (w_buf w) → 1 ≤ cap → Z.of_nat (size (entries (w_buf w))) = cap →
  last (order (w_buf w)) = Some a → entries (w_buf w) !! a = Some e →
  entries (w_buf w) !! b = None →
  ms_Lookup (VMMAC a) meta = None → ms_Lookup (VMMAC b) meta = None →
  let w1 := Absorb meta cap now b rawB w in
  absorbDelta meta a rawA w =
    mkSettled (guardDelta (Bytes (e_lastRaw e)) (Bytes rawA))
              (guardDelta (Packets (e_lastRaw e)) (Packets rawA)) ∧
  absorbDelta meta a rawA w1 = of_metrics rawA ∧
  w_deleted w1 = w_deleted w ++ [a].
Proof.
  intros Hok Hcap Hsize Hlast Ha Hb HA HB w1. rw /absorbDelta HA Ha. split; first done.
  destruct (Capture_ok cap now b rawB w Hok) as [Hok1 H1]; first lia.
  destruct H1 as [Hord Hdel]; first lia. rw /w1 /Absorb HB.
  assert (b ∉ order (w_buf w)) as Hnb by (rw (proj2 Hok) Hb; by intros []).
  rw remove_key_notin // in Hord Hdel. pose proof (length_order _ Hok) as Hlen.
  apply last_Some in Hlast as [l Hl]. rw Hl length_app /= in Hlen.
  rw Hl app_comm_cons take_app_le /= in Hord; first lia.
  rw Hl app_comm_cons drop_app_le /= in Hdel; first lia.
  rw take_ge /= in Hord; first lia. rw drop_ge /= in Hdel; first lia.
  split; last done.
  destruct (entries (w_buf (Capture cap now b rawB w)) !! a) eqn:E; last done.
  assert (a ∈ b :: l) as Hin by (rw -Hord; apply Hok1; by eexists).
  destruct Hok as [Hnd _]. rw Hl in Hnd. apply NoDup_app in Hnd as (_ & Hnd & _).
  apply elem_of_cons in Hin as [->|Hin]; first congruence.
  exfalso. by apply (Hnd a Hin), list_elem_of_singleton.
Qed.

(** ** A kernel entry re-created while its flow is buffered

    [Capture] compares magnitudes only and never records the creation stamp of
    the entry it last saw, so the baseline handed over at late binding still
    names the first entry. *)
Section recreated.
Context `{GoRange} `{MetaStore M} (known unknown : M) (cap now : Z).
Variables (key : FlowKey) (r1 r2 r3 : FlowMetrics) (v : TenantMeta).
Hypothesis Hunknown : ms_Lookup (VMMAC key) unknown = None.
Hypothesis Hknown : ms_Lookup (VMMAC key) known = Some v.
Hypothesis stamps : CreatedNs r1 ≠ 0 ∧ CreatedNs r2 = CreatedNs r3 ∧ CreatedNs r3 ≠ CreatedNs r1.
Hypothesis restarted : Bytes r2 < Bytes r1 ∧ Bytes r2 ≤ Bytes r3.
Hypothesis room : 1 ≤ cap.
Hypothesis no_wrap : 0 ≤ Bytes r2 ∧ Bytes r1 + Bytes r2 + Bytes r3 < 2 ^ 64.

Let empty : world := mkWorld NewBuffer New [].
Let buffered : world :=
  Absorb unknown cap now key r2 (Absorb unknown cap now key r1 empty).

Lemma buffered_entry :
  entries (w_buf buffered) !! key = Some (captureEntry (mkEntry r1 r1 now) r2) ∧
  counts (w_state buffered) = ∅.
Proof.
  rw /buffered /Absorb Hunknown {2 4}/Capture /= lookup_empty /=.
  rw /evictOverCap /= map_size_insert_None // map_size_empty /= decide_False; first lia.
  rw /Capture /= lookup_insert_eq /= lookup_insert_eq. done.
Qed.

(** a flow whose kernel entry is evicted and re-created while its MAC is
    unknown is over-counted at late binding by everything the new entry held
    at the last buffered reading; the same three readings of a known MAC are
    counted exactly. *)
Theorem late_binding_recounts :
  (∃ c, counts (w_state (Absorb known cap now key r3 buffered)) !! key = Some c ∧
        Bytes (Total c) = Bytes r1 + Bytes r2 + Bytes r3) ∧
  (∃ c, counts (ApplyDelta key r3 (ApplyDelta key r2 (ApplyDelta key r1 New))) !! key = Some c ∧
        Bytes (Total c) = Bytes r1 + Bytes r3).
Proof.
  destruct stamps as (S1 & S2 & S3), restarted as [R1 R2], no_wrap as [N1 N2].
  destruct buffered_entry as [He Hc]. split.
  - destruct (Absorb_known known cap now key r3 buffered v Hknown) as (_ & _ & E).
    rw He Hc lookup_empty in E. eexists. split; first exact E.
    rw /captureEntry !AddDelta_guard /applyDeltaRow /=.
    rw decide_False // decide_True /=; first congruence.
    rw /guardDelta decide_False; first lia.
    by rw !u64_add_small /u64_range; try lia.
  - rw /ApplyDelta /= !lookup_insert_eq. eexists. split; first done.
    pose proof (applyDeltaRow_total (applyDeltaRow (mkCounter r1 r1) r2) r3) as T2.
    pose proof (applyDeltaRow_total (mkCounter r1 r1) r2) as T1.
    rw T1 /rowDelta applyDeltaRow_last in T2. cbn [LastEbpfRaw] in T2.
    rw (decide_False (P := CreatedNs r2 ≠ 0 ∧ _)) in T2; first by rw S2; intros [].
    rw (decide_True (P := CreatedNs r1 ≠ 0 ∧ _)) in T2; first by rw S2.
    apply (f_equal bytes) in T2. rw /= /guardDelta decide_True // in T2.
    rw T2 !u64_add_small /u64_sub ?u64_id /u64_range; lia.
Qed.
End recreated.

Module UnresolvedExamples.
#[local] Existing Instance list_range.
Definition vm : MacAddr := mkMac 250 22 62 0 0 9.
Definition peer : MacAddr := mkMac 250 22 62 0 0 1.
Definition flow (proto : Z) : FlowKey :=
  mkFlowKey vm peer 2048 DirectionIngress ZoneExternal proto 0.
Definition reading (b c : Z) : FlowMetrics := mkFlowMetrics b 1 c c.
Definition port : TenantMeta := mkMeta "alice" "srv-1" "port-1" "public" false 0.
Definition nobody : ShardedMetadataMap := New_metadata.
Definition somebody : ShardedMetadataMap := Insert (MACKey vm) port New_metadata.
Definition full : world :=
  Capture 2 10 (flow 2) (reading 7 2)
    (Capture 2 10 (flow 1) (reading 5 1) (mkWorld NewBuffer New [])).

Lemma full_ok : buffer_ok (w_buf full).
Proof.
  rw /full. apply (Capture_ok 2); last done.
  apply (Capture_ok 2); last done.
  split; [apply NoDup_nil_2|]. intros k. rw /= lookup_empty elem_of_nil. by split; [|intros []].
Qed.

Lemma capture_lru_witness :
  w_deleted (Capture 2 11 (flow 3) (reading 9 3) full) = [flow 1].
Proof.
  destruct (capture_lru 2 11 (flow 3) (reading 9 3) full full_ok) as (_ & _ & _ & E);
    [by vm_compute|by vm_compute|].
  rw E. by vm_compute.
Defined.

Lemma known_flow_bypasses_buffer_witness :
  entries (w_buf (Absorb somebody 2 11 (flow 1) (reading 9 3) full)) !! flow 1 = None.
Proof.
  apply (known_flow_bypasses_buffer somebody 2 11 (flow 1) (reading 9 3) full port).
  by vm_compute.
Defined.

Lemma late_binding_recounts_witness :
  ∃ c, counts (w_state (Absorb somebody 100 5 (flow 1) (reading 60 2)
    (Absorb nobody 100 5 (flow 1) (reading 50 2)
      (Absorb nobody 100 5 (flow 1) (reading 1000 1) (mkWorld NewBuffer New []))))) !! flow 1 = Some c ∧
    Bytes (Total c) = 1000 + 50 + 60.
Proof.
  apply (proj1 (late_binding_recounts somebody nobody 100 5 (flow 1) (reading 1000 1)
    (reading 50 2) (reading 60 2) port ltac:(by vm_compute) ltac:(by vm_compute) ltac:(by vm_compute) ltac:(by vm_compute)
    ltac:(by vm_compute) ltac:(by vm_compute))).
Defined.

(** Two buffered flows fill the buffer; a third arrives in the same drain. *)
Lemma evicted_flow_recounted_witness :
  absorbDelta nobody (flow 1) (reading 6 1) full = mkSettled 1 0 ∧
  absorbDelta nobody (flow 1) (reading 6 1)
    (Absorb nobody 2 11 (flow 3) (reading 9 3) full) = mkSettled 6 1.
Proof.
  destruct (evicted_flow_recounted nobody 2 11 (flow 1) (flow 3) (reading 6 1) (reading 9 3)
    (mkEntry (reading 5 1) (reading 5 1) 10) full full_ok) as (E1 & E2 & _);
    [by vm_compute..|].
  split; [rw E1|rw E2]; by vm_compute.
Defined.
End UnresolvedExamples.
