(* ===== verification/Scraper.v ===== *)
(** * Draining the kernel's map (internal/scraper, internal/agent/reader_linux.go)

    The reader sums the per-CPU slots of every batch of the kernel map; the
    scraper feeds each reading to a sink, ages the sink and then relieves the
    map.  The sink is an interface, [FlowSink], implemented by the classifier
    of internal/unresolved. *)
From S2P Require Import Prelude Bpf State Metadata Unresolved.

(** ** The batched reader *)

Definition batchSize : Z := 256.

(** One key's slots, summed: counters add, time stamps take the maximum. *)
Definition sumSlot (sum v : FlowMetrics) : FlowMetrics :=
  mkFlowMetrics (Bytes sum +ᵤ Bytes v) (Packets sum +ᵤ Packets v)
    (if decide (LastSeenNs sum < LastSeenNs v) then LastSeenNs v else LastSeenNs sum)
    (if decide (CreatedNs sum < CreatedNs v) then CreatedNs v else CreatedNs sum).
Definition sumSlots (slots : list FlowMetrics) : FlowMetrics := foldl sumSlot zeroMetrics slots.

Definition readBatch (dst : gmap FlowKey FlowMetrics) (rows : list (FlowKey * list FlowMetrics)) :=
  foldl (λ dst row, <[row.1 := sumSlots row.2]> dst) dst rows.

(** A run of the batch system call: the batches it answers without an error,
    then the rows and the error of the last one, [None] standing for
    ErrKeyNotExist.  The kernel's batch cursor reaches the end of the map after
    finitely many calls. *)
Record batch_run {Err : Type} := mkRun {
  run_batches : list (list (FlowKey * list FlowMetrics));
  run_last : list (FlowKey * list FlowMetrics);
  run_err : option Err }.
Arguments batch_run : clear implicits.
Arguments mkRun {_} _ _ _.

Definition BatchLookup {Err} (r : batch_run Err) (dst : gmap FlowKey FlowMetrics)
    : gmap FlowKey FlowMetrics * option Err :=
  (readBatch (foldl readBatch dst (run_batches r)) (run_last r), run_err r).

(** ** The scraper *)

Class FlowSink (W : Type) := {
  sink_Absorb : FlowKey → FlowMetrics → W → W;
  sink_Sweep : bool → W → W }.

Record Scraper := mkScraper { scrape_errors : Z; lastOK : Z }.
Definition NewScraper : Scraper := mkScraper 0 0.

Section scraper.
Context `{GoRange} {W Err : Type} (sink : option (FlowSink W)) (direct : FlowKey → FlowMetrics → W → W).
Variable relieve : option (gmap FlowKey FlowMetrics → W → W).

Definition integrate (buf : gmap FlowKey FlowMetrics) (w : W) : W :=
  match sink with
  | Some s => sink_Sweep false
      (foldl (λ w kv, sink_Absorb kv.1 kv.2 w) w (go_range buf))
  | None => foldl (λ w kv, direct kv.1 kv.2 w) w (go_range buf)
  end.

(** [nowUnix] is the wall clock when the readings are integrated. *)
Definition Tick (read : batch_run Err) (nowUnix : Z) (sw : Scraper * W) : (Scraper * W) * option Err :=
  let '(s, w) := sw in
  let '(buf, err) := BatchLookup read ∅ in
  match err with
  | Some e => ((mkScraper (u64_add (scrape_errors s) 1) (lastOK s), w), Some e)
  | None =>
      let w := integrate buf w in
      let w := match relieve with Some f => f buf w | None => w end in
      ((mkScraper (scrape_errors s) nowUnix, w), None)
  end.

(** [Run]: a first tick at once, one tick per firing of the ticker, and on
    cancellation a last tick and the shutdown sweep. *)
Definition Run (first : batch_run Err * Z) (ticks : list (batch_run Err * Z))
    (final : batch_run Err * Z) (sw : Scraper * W) : Scraper * W :=
  let step sw (t : batch_run Err * Z) := (Tick t.1 t.2 sw).1 in
  let '(s, w) := step (foldl step (step sw first) ticks) final in
  (s, match sink with Some k => sink_Sweep true w | None => w end).
End scraper.

(** The classifier as the scraper's sink; the clock and the tunables are those
    in force during the tick. *)
Definition classifier_sink `{GoRange} `{MetaStore M} (meta : M) (cap ttl now : Z) : FlowSink world := {|
  sink_Absorb := Absorb meta cap now;
  sink_Sweep := λ force w, Sweep force ttl now w |}.

(** Without a sink every reading goes straight to the counters. *)
Definition directly (key : FlowKey) (raw : FlowMetrics) (w : world) : world :=
  mkWorld (w_buf w) (ApplyDelta key raw (w_state w)) (w_deleted w).

(** ** The reader *)

Lemma foldr_max_nonneg l : 0 ≤ foldr Z.max 0 l.
Proof. induction l; simpl; lia. Qed.

Lemma sumSlots_spec slots :
  Forall metrics_ok slots →
  Bytes (sumSlots slots) = u64 (foldr Z.add 0 (Bytes <$> slots)) ∧
  Packets (sumSlots slots) = u64 (foldr Z.add 0 (Packets <$> slots)) ∧
  LastSeenNs (sumSlots slots) = foldr Z.max 0 (LastSeenNs <$> slots) ∧
  CreatedNs (sumSlots slots) = foldr Z.max 0 (CreatedNs <$> slots).
Proof.
  rw /sumSlots. intros Hok.
  assert (∀ acc, 0 ≤ LastSeenNs acc → 0 ≤ CreatedNs acc →
    u64 (Bytes (foldl sumSlot acc slots)) = u64 (Bytes acc + foldr Z.add 0 (Bytes <$> slots)) ∧
    u64 (Packets (foldl sumSlot acc slots)) = u64 (Packets acc + foldr Z.add 0 (Packets <$> slots)) ∧
    LastSeenNs (foldl sumSlot acc slots) = Z.max (LastSeenNs acc) (foldr Z.max 0 (LastSeenNs <$> slots)) ∧
    CreatedNs (foldl sumSlot acc slots) = Z.max (CreatedNs acc) (foldr Z.max 0 (CreatedNs <$> slots)) ∧
    (slots = [] ∨ (u64_range (Bytes (foldl sumSlot acc slots)) ∧ u64_range (Packets (foldl sumSlot acc slots)))))
    as G.
  { induction Hok as [|v slots Hv Hok IH]; intros acc HL HC; csimpl.
    { rw !Z.add_0_r. split_and!; [done|done|lia|lia|by left]. }
    destruct Hv as (_ & _ & Hv1 & Hv2). rw /u64_range in Hv1 Hv2.
    destruct (IH (sumSlot acc v)) as (E1 & E2 & E3 & E4 & E5);
      [by simpl; case_decide; lia..|].
    rw E1 E2 E3 E4 /=. split_and!.
    - u64_solve.
    - u64_solve.
    - case_decide; lia.
    - case_decide; lia.
    - right. destruct E5 as [->|E5]; [split; apply u64_in_range|done]. }
  destruct (G zeroMetrics) as (E1 & E2 & E3 & E4 & E5); [done..|].
  rw E3 E4 /=. destruct E5 as [->|[R1 R2]]; first done.
  rw -(u64_id _ R1) -(u64_id _ R2) E1 E2 /=.
  pose proof (foldr_max_nonneg (LastSeenNs <$> slots)).
  pose proof (foldr_max_nonneg (CreatedNs <$> slots)). split_and!; [done..|lia|lia].
Qed.

Lemma readBatch_insertAll dst rows :
  readBatch dst rows = insertAll (prod_map id sumSlots <$> rows) dst.
Proof. induction rows as [|[k v] rows IH] in dst |- *; csimpl; [done|apply IH]. Qed.
Lemma insertAll_app `{Countable K} {V} (l1 l2 : list (K * V)) m :
  insertAll (l1 ++ l2) m = insertAll l2 (insertAll l1 m).
Proof. apply foldl_app. Qed.
Lemma BatchLookup_rows {Err} (r : batch_run Err) dst :
  (BatchLookup r dst).1 = insertAll (prod_map id sumSlots <$> (concat (run_batches r) ++ run_last r)) dst.
Proof.
  rw /BatchLookup /= readBatch_insertAll fmap_app insertAll_app. f_equal.
  induction (run_batches r) as [|b bs IH] in dst |- *; first done.
  by rw /= IH readBatch_insertAll fmap_app insertAll_app.
Qed.

(** a completed drain reads the kernel map whole: however the kernel splits
    its entries into batches, the result maps every key to its per-CPU slots
    summed (with 64-bit wrap) and its newest stamps, and nothing else. *)
Theorem drain_complete {Err} (r : batch_run Err) (kernel : gmap FlowKey (list FlowMetrics)) :
  concat (run_batches r) ++ run_last r ≡ₚ map_to_list kernel →
  (BatchLookup r ∅).1 = sumSlots <$> kernel.
Proof.
  intros Hp. rw BatchLookup_rows. apply map_eq. intros k. rw lookup_fmap.
  assert (NoDup (prod_map id sumSlots <$> (concat (run_batches r) ++ run_last r)).*1) as Hnd.
  { rw -list_fmap_compose Hp. apply NoDup_fst_map_to_list. }
  destruct (kernel !! k) as [v|] eqn:E; simpl.
  - apply insertAll_lookup; first done. apply list_elem_of_fmap. exists (k, v). split; first done.
    by rw Hp elem_of_map_to_list.
  - rw insertAll_notin //. rw -list_fmap_compose. intros ([k' v] & -> & Hin)%list_elem_of_fmap.
    rw Hp elem_of_map_to_list /= in Hin. simpl in E. congruence.
Qed.

Section tick_proofs.
Context `{GoRange} `{MetaStore M} (meta : M) (cap ttl now : Z) {Err : Type}.
Let sink := classifier_sink meta cap ttl now.

Lemma Tick_error relieve (read : batch_run Err) nowUnix s w e :
  run_err read = Some e →
  Tick (Some sink) directly relieve read nowUnix (s, w) =
    ((mkScraper (scrape_errors s +ᵤ 1) (lastOK s), w), Some e).
Proof. rw /Tick /BatchLookup. by intros ->. Qed.

(** a scrape is exact and its order is irrelevant: with room in the buffer
    for the drained keys, a tick adds to the counters and the buffer exactly
    each reading's own traffic, computed from the state before the tick, in
    whatever order the drained map is walked; a failed drain changes nothing
    but the error count. *)
Theorem tick_exact read nowUnix s w :
  buffer_ok (w_buf w) →
  let drained := (BatchLookup read ∅).1 in
  Z.of_nat (size (entries (w_buf w)) + size drained) ≤ cap →
  mass (Tick (Err := Err) (Some sink) directly None read nowUnix (s, w)).1.2 =
  match run_err read with
  | Some _ => mass w
  | None => tally_from (mass w)
      ((λ kv, (zoneDir kv.1, absorbDelta meta kv.1 kv.2 w)) <$> map_to_list drained)
  end.
Proof.
  intros Hok drained Hcap. destruct (run_err read) as [e|] eqn:E.
  { by rw (Tick_error _ _ _ _ _ e E). }
  rw /Tick (surjective_pairing (BatchLookup read ∅)) /= E /= Sweep_mass.
  rw -/drained (absorbAll_mass meta cap now _ _ Hok); [apply NoDup_go_range| |].
  - by rw length_go_range.
  - apply tally_from_perm, fmap_Permutation, go_range_perm.
Qed.
End tick_proofs.

Module ScraperExamples.
#[local] Existing Instance list_range.
Import UnresolvedExamples.
Definition cpu (b c : Z) : FlowMetrics := mkFlowMetrics b 1 7 c.
Definition two_batches : batch_run string :=
  mkRun [[(flow 1, [cpu 5 3; cpu 6 0])]] [(flow 2, [cpu 1 0; cpu 2 4])] None.

Lemma drain_complete_witness :
  (BatchLookup two_batches ∅).1 =
  sumSlots <$> {[flow 1 := [cpu 5 3; cpu 6 0]; flow 2 := [cpu 1 0; cpu 2 4]]}.
Proof.
  apply (drain_complete two_batches).
  apply (bool_decide_unpack (concat (run_batches two_batches) ++ run_last two_batches ≡ₚ _)).
  by vm_compute.
Defined.

Lemma tick_exact_witness :
  mass (Tick (Some (classifier_sink nobody 10 60 11)) directly None two_batches 100
         (NewScraper, mkWorld NewBuffer New [])).1.2 =
  {[(ZoneExternal, DirectionIngress) := mkSettled 14 4]}.
Proof.
  rw (tick_exact nobody 10 60 11 two_batches 100 NewScraper).
  - split; [apply NoDup_nil_2|]. intros k. rw /= lookup_empty elem_of_nil. by split; [|intros []].
  - by vm_compute.
  - by vm_compute.
Defined.
End ScraperExamples.
