(* ===== verification/Classify.v ===== *)
(** * The kernel classifier (bpf/telemetry.c)

    The packet path of the TC program: the flow key of a packet, the zone of
    its peer and the per-CPU counter.  The longest-prefix-match trie is the
    kernel's; its documented lookup is a parameter with its law. *)
From S2P Require Import Prelude GoStrings NetIP Bpf Metadata Neutron Resolve Trie Lookup KernelMap.
From S2P Require Import KernelWriter FlowLife Unresolved Scraper.
From Stdlib Require String.

Definition ETH_P_IP : Z := 0x0800.
Definition ETH_P_IPV6 : Z := 0x86DD.
Definition IPNUM_ICMP : Z := 1.
Definition IPNUM_TCP : Z := 6.
Definition IPNUM_UDP : Z := 17.
Definition IPNUM_ICMPV6 : Z := 58.

(** A frame as the program reads it: [None] is a header beyond the frame's end,
    [skb_pull] whether the kernel could make the headers linear. *)
Record iphdr := mkIphdr { ip_saddr : Z; ip_daddr : Z; ip_protocol : Z }.
Record sk_buff := mkSkb {
  skb_pull : bool; h_source : MacAddr; h_dest : MacAddr; h_proto : Z;
  skb_iphdr : option iphdr; skb_nexthdr : option Z; skb_len : Z }.

Definition l4_class (ipnum : Z) (v6 : bool) : Z :=
  if decide (ipnum = IPNUM_TCP) then L4ProtoTCP
  else if decide (ipnum = IPNUM_UDP) then L4ProtoUDP
  else if decide (ipnum = if v6 then IPNUM_ICMPV6 else IPNUM_ICMP) then L4ProtoICMP
  else L4ProtoOther.
Definition l4_proto_of (skb : sk_buff) : Z :=
  if decide (h_proto skb = ETH_P_IP) then
    match skb_iphdr skb with None => L4ProtoOther | Some iph => l4_class (ip_protocol iph) false end
  else
    match skb_nexthdr skb with None => L4ProtoOther | Some n => l4_class n true end.

Definition is_group_mac (mac : MacAddr) : bool := negb (bool_decide (Z.land (mb0 mac) 1 = 0)).

Definition mac_to_u64 (mac : MacAddr) : Z :=
  Z.lor (Z.lor (Z.lor (Z.lor (Z.lor (Z.shiftl (mb0 mac) 40) (Z.shiftl (mb1 mac) 32))
    (Z.shiftl (mb2 mac) 24)) (Z.shiftl (mb3 mac) 16)) (Z.shiftl (mb4 mac) 8)) (mb5 mac).
Lemma mac_to_u64_MACKey mac : mac_to_u64 mac = MACKey mac.
Proof. done. Qed.

Record flow_endpoints := mkEndpoints {
  vm_mac : MacAddr; peer_mac : MacAddr; local_ip : Z; remote_ip : Z }.
Definition endpoints_from_vm (skb : sk_buff) (iph : iphdr) (direction : Z) : flow_endpoints :=
  if decide (direction = DirectionIngress)
  then mkEndpoints (h_source skb) (h_dest skb) (ip_saddr iph) (ip_daddr iph)
  else mkEndpoints (h_dest skb) (h_source skb) (ip_daddr iph) (ip_saddr iph).

(** The state the program reads and writes: the per-CPU slots of the flows and
    the two failure counters of this CPU. *)
Record kernel := mkKernel {
  mac_tenant_map : gmap Z Z; subnet_zone_trie : gmap LpmKey Z; amphora_base_ip : gmap AmphoraKey Z;
  telemetry_map : gmap FlowKey (list FlowMetrics);
  stat_update_failure : Z; stat_skipped_ethertype : Z }.

Section classifier.
(** The trie's lookup: addresses are the 32-bit values as loaded. *)
Variable lpm_lookup : gmap LpmKey Z → LpmKey → option Z.

Definition is_amphora_segment2 (k : kernel) (amp_tid amp_ip : Z) : bool :=
  bool_decide (is_Some (amphora_base_ip k !! mkAmphoraKey amp_tid amp_ip)).

Definition lookup_zone (k : kernel) (e : flow_endpoints) : Z :=
  match mac_tenant_map k !! mac_to_u64 (vm_mac e) with
  | None => ZoneMiss
  | Some vm_val =>
      let vm_tid := Z.land vm_val TenantIDMask in
      match mac_tenant_map k !! mac_to_u64 (peer_mac e) with
      | Some peer_val =>
          let peer_tid := Z.land peer_val TenantIDMask in
          if negb (bool_decide (Z.land vm_val TenantAmphoraFlag = 0)) &&
             is_amphora_segment2 k vm_tid (local_ip e) then ZoneInfra
          else if negb (bool_decide (Z.land peer_val TenantAmphoraFlag = 0)) &&
                  is_amphora_segment2 k peer_tid (remote_ip e) then ZoneInfra
          else if decide (peer_tid = vm_tid) then ZoneSameTenant else ZoneOtherTenant
      | None =>
          match lpm_lookup (subnet_zone_trie k) (mkLpmKey 64 vm_tid (remote_ip e)) with
          | Some zone => zone
          | None =>
              match lpm_lookup (subnet_zone_trie k) (mkLpmKey 64 0 (remote_ip e)) with
              | Some zone => zone
              | None => ZoneMiss
              end
          end
      end
  end.

(** [None]: the packet passes uncounted, the Boolean saying whether the skip
    is recorded. *)
Definition classify (k : kernel) (skb : sk_buff) (direction : Z) : bool + FlowKey :=
  if negb (skb_pull skb) then inl false
  else if decide (h_proto skb ≠ ETH_P_IP ∧ h_proto skb ≠ ETH_P_IPV6) then inl true
  else
    let key zone := mkFlowKey (h_source skb) (h_dest skb) (h_proto skb) direction zone (l4_proto_of skb) 0 in
    if is_group_mac (h_dest skb) then inr (key ZoneMulticast)
    else if decide (h_proto skb = ETH_P_IP) then
      match skb_iphdr skb with
      | None => inl false
      | Some iph => inr (key (lookup_zone k (endpoints_from_vm skb iph direction)))
      end
    else inr (key ZoneMiss).

(** One CPU's update of the flow's slots; a new entry zeroes the others'. *)
Definition countSlot (len now : Z) (m : FlowMetrics) : FlowMetrics :=
  mkFlowMetrics (Bytes m +ᵤ len) (Packets m +ᵤ 1) now (CreatedNs m).
Definition newSlots (ncpu cpu : nat) (len now : Z) : list FlowMetrics :=
  <[cpu := mkFlowMetrics len 1 now now]> (replicate ncpu zeroMetrics).

(** [room]: whether the kernel accepts a new entry. *)
Definition handle_packet (ncpu cpu : nat) (now : Z) (room : bool) (k : kernel) (skb : sk_buff)
    (direction : Z) : kernel :=
  match classify k skb direction with
  | inl false => k
  | inl true =>
      mkKernel (mac_tenant_map k) (subnet_zone_trie k) (amphora_base_ip k) (telemetry_map k)
        (stat_update_failure k) (stat_skipped_ethertype k +ᵤ 1)
  | inr key =>
      match telemetry_map k !! key with
      | Some slots =>
          mkKernel (mac_tenant_map k) (subnet_zone_trie k) (amphora_base_ip k)
            (<[key := alter (countSlot (skb_len skb) now) cpu slots]> (telemetry_map k))
            (stat_update_failure k) (stat_skipped_ethertype k)
      | None =>
          if room then
            mkKernel (mac_tenant_map k) (subnet_zone_trie k) (amphora_base_ip k)
              (<[key := newSlots ncpu cpu (skb_len skb) now]> (telemetry_map k))
              (stat_update_failure k) (stat_skipped_ethertype k)
          else
            mkKernel (mac_tenant_map k) (subnet_zone_trie k) (amphora_base_ip k) (telemetry_map k)
              (stat_update_failure k +ᵤ 1) (stat_skipped_ethertype k)
      end
  end.
End classifier.

(** ** The zone of a known peer *)

(** A MAC row as the agent writes it. *)
Definition mac_row (k : kernel) (t : TenantInterner) (mac : MacAddr) (project : string) (amphora : bool) : Prop :=
  knows t project ∧ 0 ≤ tid t project < 2 ^ 31 ∧
  mac_tenant_map k !! MACKey mac = Some (TenantValue (tid t project) amphora).
Lemma mac_row_unpack k t mac p b : mac_row k t mac p b →
  ∃ v, mac_tenant_map k !! MACKey mac = Some v ∧ Z.land v TenantIDMask = tid t p ∧
    negb (bool_decide (Z.land v TenantAmphoraFlag = 0)) = b.
Proof.
  intros (_ & Hr & E). exists (TenantValue (tid t p) b). split; first done.
  destruct (TenantValue_unpack (tid t p) b Hr) as [-> Hb]. split; first done.
  case_bool_decide; destruct b; naive_solver.
Qed.

(** The side of a flow that is an Amphora's own address. *)
Definition segment2 (k : kernel) (t : TenantInterner) (project : string) (amphora : bool) (ip : Z) : Prop :=
  amphora = true ∧ is_Some (amphora_base_ip k !! mkAmphoraKey (tid t project) ip).
Lemma lookup_zone_peer lpm k t vm peer p b q c l r :
  interner_ok t → mac_row k t vm p b → mac_row k t peer q c →
  lookup_zone lpm k (mkEndpoints vm peer l r) =
    if decide (segment2 k t p b l ∨ segment2 k t q c r) then ZoneInfra
    else if decide (p = q) then ZoneSameTenant else ZoneOtherTenant.
Proof.
  intros Hok Hvm Hpeer. pose proof Hvm as (Hkp & _). pose proof Hpeer as (Hkq & _).
  apply mac_row_unpack in Hvm as (v & Ev & Ep & Eb). apply mac_row_unpack in Hpeer as (w & Ew & Eq & Ec).
  rw /lookup_zone !mac_to_u64_MACKey. cbn [vm_mac peer_mac local_ip remote_ip].
  rw Ev Ew. cbn zeta. rw Ep Eq Eb Ec.
  assert (∀ x u ip, segment2 k t x u ip ↔ u && is_amphora_segment2 k (tid t x) ip = true) as Hseg.
  { intros x u ip. by rw /segment2 /is_amphora_segment2 andb_true_iff bool_decide_eq_true. }
  assert (tid t q = tid t p ↔ p = q) as Htid.
  { split; [|by intros ->]. intros E. symmetry. by apply (tid_inj t). }
  destruct (b && is_amphora_segment2 k (tid t p) l) eqn:E1;
    [|destruct (c && is_amphora_segment2 k (tid t q) r) eqn:E2].
  - rw decide_True //. left. by apply Hseg.
  - rw decide_True //. right. by apply Hseg.
  - rw (decide_False (P := segment2 _ _ _ _ _ ∨ _)); last by apply decide_ext.
    rw !Hseg E1 E2. by intros [].
Qed.

(** ** The zone of an address no MAC is known for *)

Section trie_lookup.
Variables (endian : Endian) (lpm_lookup : gmap LpmKey Z → LpmKey → option Z).

(** A stored key covers (tenant, address): the trie compares the bytes of the
    key in memory order, so the 32 bits of the tenant exactly and then the
    address from its most significant byte on. *)
Definition lpm_covers (key : LpmKey) (tenant ip : Z) : Prop :=
  ∃ a, ip4_range a ∧ LpmTenantId key = tenant ∧ LpmIp key = native_uint32 endian (As4 a) ∧
    Z.shiftr (Z.lxor a ip) (64 - Prefixlen key) = 0.
(** BPF_MAP_TYPE_LPM_TRIE, on maps whose keys fix the whole tenant: the lookup
    answers the value of the longest stored key that covers it. *)
Definition lpm_law : Prop := ∀ m tenant ip,
  ip4_range ip → (∀ key, is_Some (m !! key) → 32 ≤ Prefixlen key ≤ 64) →
  match lpm_lookup m (mkLpmKey 64 tenant (native_uint32 endian (As4 ip))) with
  | Some z => ∃ key, m !! key = Some z ∧ lpm_covers key tenant ip ∧
      ∀ key', is_Some (m !! key') → lpm_covers key' tenant ip → Prefixlen key' ≤ Prefixlen key
  | None => ∀ key, is_Some (m !! key) → ¬ lpm_covers key tenant ip
  end.
Hypothesis law : lpm_law.

Lemma lpmKey_bits tid p : prefix4_ok p → Prefixlen (lpmKey endian tid p) = 32 + p4_bits p.
Proof.
  intros [_ Hb]. rw /lpmKey /= /u32 /LpmKeyTenantBits (Z.mod_small (p4_bits p)); first lia.
  apply Z.mod_small. lia.
Qed.
Lemma lpmKey_covers i p tenant ip :
  prefix4_ok p → lpm_covers (lpmKey endian i p) tenant ip ↔ i = tenant ∧ Contains p ip = true.
Proof.
  intros Hp. pose proof Hp as [Hip _]. rw /lpm_covers lpmKey_bits // /Contains bool_decide_eq_true.
  rw (_ : 64 - (32 + p4_bits p) = 32 - p4_bits p); first lia. split.
  - intros (a & Ha & <- & E & Hs). simpl in E. split; first done.
    by rw (native_uint32_As4_inj endian _ _ Hip Ha E).
  - intros [-> Hs]. by exists (p4_ip p).
Qed.

Section rows.
Variables (t : TenantInterner) (es : list TrieEntry) (m : gmap LpmKey Z).
Hypothesis interner : interner_ok t.
Hypothesis known : knows_all t es.
Hypothesis es_ok : entries_ok es.
Hypothesis holds : represents endian (rowsOf t es) m.

Lemma kernel_keys key : is_Some (m !! key) → 32 ≤ Prefixlen key ≤ 64.
Proof.
  intros [z (rk & Hz & ->)%holds]. assert (prefix4_ok rk.2) as Hp by (by apply (rowsOf_ok t es)).
  rw lpmKey_bits //. destruct Hp as [_ ?]. lia.
Qed.
Lemma row_known e : e ∈ es →
  is_Some (m !! lpmKey endian (tid t (TE_TenantID e)) (TE_Prefix e)).
Proof.
  intros He. destruct (insertAll_in ((λ e, ((tid t (TE_TenantID e), TE_Prefix e), u8 (TE_Zone e))) <$> es) ∅
    (tid t (TE_TenantID e), TE_Prefix e)) as (z & _ & Ez).
  - rw -list_fmap_compose. apply list_elem_of_fmap. by exists e.
  - exists z. apply holds. by exists (tid t (TE_TenantID e), TE_Prefix e).
Qed.
(** What one probe of the trie answers: the zone of a longest row. *)
Lemma trie_probe p ip : knows t p → ip4_range ip →
  match lpm_lookup m (mkLpmKey 64 (tid t p) (native_uint32 endian (As4 ip))) with
  | Some z => ∃ e, longest es ip p e ∧ z = u8 (TE_Zone e)
  | None => ∀ e, ¬ matching es ip p e
  end.
Proof.
  intros Hp Hip. pose proof (law m (tid t p) ip Hip kernel_keys) as Hl.
  destruct (lpm_lookup m _) as [z|].
  - destruct Hl as (key & Hz & Hc & Hmax). apply holds in Hz as (rk & Hrk & ->).
    apply rowsOf_in in Hrk as (e & He & -> & ->). cbn [fst snd] in *. pose proof (es_ok e He) as Hpe.
    apply lpmKey_covers in Hc as [Ht Hc]; last done. apply tid_inj in Ht; [|done|by apply known|done].
    exists e. split; last done. split; first done. intros f (Hf & <- & Hfc).
    pose proof (es_ok f Hf) as Hpf. specialize (Hmax _ (row_known f Hf)).
    rw !lpmKey_bits // in Hmax. specialize (Hmax ltac:(by apply lpmKey_covers)). lia.
  - intros e (He & <- & Hc). apply (Hl _ (row_known e He)). apply lpmKey_covers; [by apply es_ok|done].
Qed.
End rows.

(** Rows of one tenant and prefix agree on the zone, which fits in a byte. *)
Definition agreeing (es : list TrieEntry) : Prop :=
  (∀ e f, e ∈ es → f ∈ es → TE_TenantID e = TE_TenantID f → TE_Prefix e = TE_Prefix f →
     TE_Zone e = TE_Zone f) ∧
  (∀ e, e ∈ es → 0 ≤ TE_Zone e < 256 ∧ masked (TE_Prefix e)).
Lemma longest_zone es ip p e f :
  entries_ok es → agreeing es → ip4_range ip → longest es ip p e → longest es ip p f → TE_Zone e = TE_Zone f.
Proof.
  intros Hok [Hag Hz] Hip [(He & Et & Ec) Hme] [(Hf & Ft & Fc) Hmf].
  apply Hag; try done; first congruence.
  assert (p4_bits (TE_Prefix e) = p4_bits (TE_Prefix f)) as Eb.
  { apply Z.le_antisymm; [by apply Hmf|by apply Hme]. }
  apply Contains_masked in Ec, Fc; try done; try (by apply Hok); try (by apply Hz).
  destruct (TE_Prefix e), (TE_Prefix f); simpl in *. subst. done.
Qed.

(** C9: for a packet between a known VM and an address without a known MAC, the
    kernel answers the zone the debug lookup reports for the tenant and the
    address, when it holds the rows of a trie whose duplicate rows agree. *)
Theorem kernel_zone_refines k t es vm p b peer l ip :
  interner_ok t → knows_all t es → entries_ok es → agreeing es →
  represents endian (rowsOf t es) (subnet_zone_trie k) →
  mac_row k t vm p b → p ≠ "" → mac_tenant_map k !! MACKey peer = None → ip4_range ip →
  lookup_zone lpm_lookup k (mkEndpoints vm peer l (native_uint32 endian (As4 ip))) =
    match LookupZone es ip p with (Some e, _) => TE_Zone e | (None, _) => ZoneMiss end.
Proof.
  intros Hok Hk Hes Hag Hrep Hvm Hp Hpeer Hip. pose proof Hvm as (Hkp & _).
  apply mac_row_unpack in Hvm as (v & Ev & Et & _).
  rw /lookup_zone !mac_to_u64_MACKey. cbn [vm_mac peer_mac local_ip remote_ip]. rw Ev Hpeer. cbn zeta. rw Et.
  pose proof (LookupZone_spec es ip p Hes) as Hs.
  assert (∀ e f q, longest es ip q e → longest es ip q f → u8 (TE_Zone e) = TE_Zone f) as Hz.
  { intros e f q He Hf. rw (longest_zone es ip q e f) //. apply Z.mod_small.
    apply Hag. by destruct Hf as [[? _] _]. }
  pose proof (trie_probe t es _ Hok Hk Hes Hrep p ip Hkp Hip) as Hpt.
  pose proof (trie_probe t es _ Hok Hk Hes Hrep "" ip (or_introl eq_refl) Hip) as Hpg.
  change (tid t "") with 0 in Hpg.
  destruct (lpm_lookup _ (mkLpmKey 64 (tid t p) _)) as [z|].
  - destruct Hpt as (e & He & ->). destruct (LookupZone es ip p) as [[f|] pass].
    + destruct Hs as [(_ & _ & Hf)|(_ & _ & Hno)]; first by eapply Hz. by destruct (Hno Hp e (proj1 He)).
    + destruct Hs as (_ & Hno & _). by destruct (Hno e (proj1 He)).
  - destruct (lpm_lookup _ (mkLpmKey 64 0 _)) as [z|].
    + destruct Hpg as (e & He & ->). destruct (LookupZone es ip p) as [[f|] pass].
      * destruct Hs as [(_ & _ & Hf)|(_ & Hf & _)]; [by destruct (Hpt f (proj1 Hf))|by eapply Hz].
      * destruct Hs as (_ & _ & Hno). by destruct (Hno e (proj1 He)).
    + destruct (LookupZone es ip p) as [[f|] pass]; last done.
      destruct Hs as [(_ & _ & Hf)|(_ & Hf & _)]; [by destruct (Hpt f (proj1 Hf))|by destruct (Hpg f (proj1 Hf))].
Qed.
End trie_lookup.

(** between two known MACs a packet is infrastructure exactly when an Amphora
    end uses its own base address, and else same-tenant exactly when both ends
    belong to one project; the transfer zones alike at both taps. *)
Theorem kernel_zone_peer lpm k t vm peer p b q c l r :
  interner_ok t → mac_row k t vm p b → mac_row k t peer q c →
  lookup_zone lpm k (mkEndpoints vm peer l r) =
    (if decide (segment2 k t p b l ∨ segment2 k t q c r) then ZoneInfra
     else if decide (p = q) then ZoneSameTenant else ZoneOtherTenant) ∧
  lookup_zone lpm k (mkEndpoints peer vm r l) = lookup_zone lpm k (mkEndpoints vm peer l r).
Proof.
  intros Hok Hvm Hpeer. rw !(lookup_zone_peer lpm k t vm peer p b q c) // (lookup_zone_peer lpm k t peer vm q c p b) //.
  split; first done. rw (decide_ext (segment2 k t q c r ∨ _) (segment2 k t p b l ∨ segment2 k t q c r)); first tauto.
  by rw (decide_ext (q = p) (p = q)).
Qed.

(** ** The per-CPU counters *)

Definition sum_of (f : FlowMetrics → Z) (slots : list FlowMetrics) : Z := foldr Z.add 0 (f <$> slots).
Definition max_of (f : FlowMetrics → Z) (slots : list FlowMetrics) : Z := foldr Z.max 0 (f <$> slots).
Lemma sum_of_cons f m slots : sum_of f (m :: slots) = f m + sum_of f slots.
Proof. done. Qed.
Lemma max_of_cons f m slots : max_of f (m :: slots) = Z.max (f m) (max_of f slots).
Proof. done. Qed.
Lemma sumSlots_eq slots : Forall (λ m, 0 ≤ LastSeenNs m ∧ 0 ≤ CreatedNs m) slots →
  sumSlots slots = mkFlowMetrics (u64 (sum_of Bytes slots)) (u64 (sum_of Packets slots))
    (max_of LastSeenNs slots) (max_of CreatedNs slots).
Proof.
  intros Hnn. rw /sumSlots.
  assert (∀ b p l c, 0 ≤ l → 0 ≤ c → foldl sumSlot (mkFlowMetrics (u64 b) (u64 p) l c) slots =
    mkFlowMetrics (u64 (b + sum_of Bytes slots)) (u64 (p + sum_of Packets slots))
      (Z.max l (max_of LastSeenNs slots)) (Z.max c (max_of CreatedNs slots))) as Hf.
  { induction Hnn as [|m slots [Hl Hc] _ IH]; intros b p l c ? ?; cbn [foldl].
    - rw /sum_of /max_of /= !Z.add_0_r. f_equal; lia.
    - rw /sumSlot. cbn [Bytes Packets LastSeenNs CreatedNs].
      rw (_ : u64 b +ᵤ Bytes m = u64 (b + Bytes m)); first u64_solve.
      rw (_ : u64 p +ᵤ Packets m = u64 (p + Packets m)); first u64_solve.
      rw IH; [case_decide; lia|case_decide; lia|]. rw !sum_of_cons !max_of_cons.
      f_equal; [apply (f_equal u64); lia|apply (f_equal u64); lia|case_decide; lia|case_decide; lia]. }
  specialize (Hf 0 0 0 0). change (mkFlowMetrics (u64 0) (u64 0) 0 0) with zeroMetrics in Hf.
  rw Hf // !Z.add_0_l. assert (∀ f, 0 ≤ max_of f slots) as Hp.
  { intros f. rw /max_of. clear. induction (f <$> slots) as [|x l IH]; simpl; lia. }
  f_equal; apply Z.max_r; apply Hp.
Qed.
Lemma sum_of_alter f g slots i m d : slots !! i = Some m → f (g m) = f m + d →
  sum_of f (alter g i slots) = sum_of f slots + d.
Proof.
  intros Hi Hg. induction slots as [|x slots IH] in i, Hi |- *; first done.
  destruct i as [|i]; cbn [alter list_alter] in *.
  - injection Hi as ->. rw !sum_of_cons Hg. lia.
  - specialize (IH i Hi). rw !sum_of_cons. cbn [alter list_alter] in IH. rw IH. lia.
Qed.
Lemma max_of_le f slots now : 0 ≤ now → Forall (λ m, f m ≤ now) slots → max_of f slots ≤ now.
Proof. intros ?. induction 1 as [|m slots Hm]; [done|]. rw max_of_cons. cbn beta in Hm. lia. Qed.
Lemma max_of_ge f slots m : m ∈ slots → f m ≤ max_of f slots.
Proof. induction 1; rw max_of_cons; lia. Qed.

Definition slots_ok (ncpu : nat) (now : Z) (slots : list FlowMetrics) : Prop :=
  length slots = ncpu ∧
  Forall (λ m, 0 ≤ LastSeenNs m ≤ now ∧ 0 ≤ CreatedNs m ≤ now) slots.
Lemma count_existing ncpu cpu len now slots :
  (cpu < ncpu)%nat → 0 ≤ now → slots_ok ncpu now slots →
  sumSlots (alter (countSlot len now) cpu slots) = kernelCount len now (Some (sumSlots slots)).
Proof.
  intros Hcpu Hnow [Hlen Hok]. destruct (lookup_lt_is_Some_2 slots cpu) as [m Hm]; first lia.
  assert (Forall (λ m, 0 ≤ LastSeenNs m ≤ now ∧ 0 ≤ CreatedNs m ≤ now) (alter (countSlot len now) cpu slots)) as Hok'.
  { apply Forall_alter; first done. intros x Hx. rw Hm in Hx. simplify_eq.
    rw Forall_lookup in Hok. specialize (Hok _ _ Hm). simpl. lia. }
  rw !sumSlots_eq; [eapply Forall_impl; [exact Hok'|simpl; lia]|eapply Forall_impl; [exact Hok|simpl; lia]|].
  rw /kernelCount. cbn [Bytes Packets CreatedNs]. f_equal.
  - rw (sum_of_alter Bytes (countSlot len now) slots cpu m (Bytes m +ᵤ len - Bytes m)) //; first (simpl; lia).
    rw (_ : sum_of Bytes slots + (Bytes m +ᵤ len - Bytes m) = (sum_of Bytes slots - Bytes m) + (Bytes m +ᵤ len)); first lia.
    u64_solve.
  - rw (sum_of_alter Packets (countSlot len now) slots cpu m (Packets m +ᵤ 1 - Packets m)) //; first (simpl; lia).
    rw (_ : sum_of Packets slots + (Packets m +ᵤ 1 - Packets m) = (sum_of Packets slots - Packets m) + (Packets m +ᵤ 1)); first lia.
    u64_solve.
  - apply Z.le_antisymm.
    + apply max_of_le; first done. eapply Forall_impl; [exact Hok'|simpl; lia].
    + transitivity (LastSeenNs (countSlot len now m)); first done. apply max_of_ge.
      apply (list_elem_of_lookup_2 _ cpu). by rw list_lookup_alter_eq Hm.
  - rw /max_of (_ : CreatedNs <$> alter (countSlot len now) cpu slots = CreatedNs <$> slots) //.
    apply list_eq. intros i. rw !list_lookup_fmap list_lookup_alter.
    case_decide; [subst|done]. by destruct (slots !! i).
Qed.
Lemma sum_of_replicate f n : f zeroMetrics = 0 → sum_of f (replicate n zeroMetrics) = 0.
Proof. intros Hz. induction n; [done|]. cbn [replicate]. rw sum_of_cons. lia. Qed.
Lemma max_of_replicate f n : f zeroMetrics = 0 → max_of f (replicate n zeroMetrics) = 0.
Proof. intros Hz. induction n; [done|]. cbn [replicate]. rw max_of_cons. lia. Qed.
Lemma sum_of_insert f x n i : f zeroMetrics = 0 → (i < n)%nat →
  sum_of f (<[i := x]> (replicate n zeroMetrics)) = f x.
Proof.
  intros Hz Hi. induction n as [|n IH] in i, Hi |- *; first lia.
  destruct i as [|i]; cbn [replicate insert list_insert]; rw sum_of_cons.
  - rw sum_of_replicate //. lia.
  - cbn [insert list_insert] in IH. rw IH; lia.
Qed.
Lemma max_of_insert f x n i : f zeroMetrics = 0 → 0 ≤ f x → (i < n)%nat →
  max_of f (<[i := x]> (replicate n zeroMetrics)) = f x.
Proof.
  intros Hz Hx Hi. induction n as [|n IH] in i, Hi |- *; first lia.
  destruct i as [|i]; cbn [replicate insert list_insert]; rw max_of_cons.
  - rw max_of_replicate //. lia.
  - cbn [insert list_insert] in IH. rw IH; lia.
Qed.
Lemma count_new ncpu cpu len now : (cpu < ncpu)%nat → 0 ≤ now → 0 ≤ len < 2 ^ 64 →
  sumSlots (newSlots ncpu cpu len now) = kernelCount len now None.
Proof.
  intros Hcpu Hnow Hlen. rw /newSlots.
  rw sumSlots_eq.
  - apply Forall_insert; [by apply Forall_replicate|done].
  - rw !sum_of_insert // !max_of_insert //. rw /kernelCount /=. f_equal. by apply u64_id.
Qed.

(** The reading of a flow: what a scrape answers for it. *)
Definition reading (k : kernel) (key : FlowKey) : option FlowMetrics := sumSlots <$> telemetry_map k !! key.

(** C28: a classified packet adds its length and one packet to the reading of
    exactly its own flow, on whatever CPU it arrives, stamping the flow's
    creation when the entry is new; when the kernel has no room for a new entry
    the loss is counted, and nothing else ever is lost. *)
Theorem packet_counted_once lpm ncpu cpu now room k skb dir key :
  (cpu < ncpu)%nat → 0 ≤ now → 0 ≤ skb_len skb < 2 ^ 64 →
  map_Forall (λ _, slots_ok ncpu now) (telemetry_map k) →
  classify lpm k skb dir = inr key →
  let k' := handle_packet lpm ncpu cpu now room k skb dir in
  (∀ other, other ≠ key → telemetry_map k' !! other = telemetry_map k !! other) ∧
  if decide (room = false ∧ telemetry_map k !! key = None) then
    telemetry_map k' !! key = None ∧ stat_update_failure k' = stat_update_failure k +ᵤ 1
  else
    reading k' key = Some (kernelCount (skb_len skb) now (reading k key)) ∧
    stat_update_failure k' = stat_update_failure k.
Proof.
  intros Hcpu Hnow Hlen Hok Hc. cbn zeta. rw /handle_packet Hc /reading.
  destruct (telemetry_map k !! key) as [slots|] eqn:Es; [|destruct room];
    case_decide as Hd; try naive_solver; cbn [telemetry_map stat_update_failure].
  - split; [intros other Hne; by rw lookup_insert_ne|]. rw lookup_insert_eq /=.
    split; last done. f_equal. apply (count_existing ncpu); try done. by eapply Hok.
  - split; [intros other Hne; by rw lookup_insert_ne|]. rw lookup_insert_eq /=.
    split; last done. f_equal. by apply (count_new ncpu).
Qed.

(** ** A trie that obeys the law, and the examples *)

Module ClassifyExamples.
#[local] Existing Instance list_range.
(** The address a 32-bit value holds in wire order. *)
Definition wire (e : Endian) (z : Z) : Z :=
  match e with
  | BigEndian => z
  | LittleEndian =>
      ((z mod 256 * 256 + z / 256 mod 256) * 256 + z / 65536 mod 256) * 256 + z / 16777216 mod 256
  end.
Lemma wire_native e a : ip4_range a → wire e (native_uint32 e (As4 a)) = a.
Proof.
  intros Ha. destruct (As4_octets a Ha) as (x & y & z & w & E & Ea & Hx & Hy & Hz & Hw).
  rw /native_uint32 E. destruct e; cbn [wire foldr reverse rev_append app]; [|rw /reverse /=; lia].
  rw Ea. Z.to_euclidean_division_equations. lia.
Qed.
Definition lpm_score (e : Endian) (key : LpmKey) (row : LpmKey * Z) : option Z :=
  let a := wire e (LpmIp row.1) in
  if decide (0 ≤ a < 2 ^ 32 ∧ LpmTenantId row.1 = LpmTenantId key ∧
             LpmIp row.1 = native_uint32 e (As4 a) ∧
             Z.shiftr (Z.lxor a (wire e (LpmIp key))) (64 - Prefixlen row.1) = 0)
  then Some (Prefixlen row.1) else None.
Definition lpm_model (e : Endian) (m : gmap LpmKey Z) (key : LpmKey) : option Z :=
  snd <$> best (lpm_score e key) (map_to_list m).
Lemma lpm_score_Some e tenant ip row s : ip4_range ip →
  lpm_score e (mkLpmKey 64 tenant (native_uint32 e (As4 ip))) row = Some s ↔
  lpm_covers e row.1 tenant ip ∧ s = Prefixlen row.1.
Proof.
  intros Hip. rw /lpm_score /lpm_covers. cbn [LpmTenantId LpmIp]. rw wire_native //. case_decide as Hd.
  - split; [intros [= <-]|by intros [_ ->]]. split; [|done].
    destruct Hd as (? & ? & ? & ?). by exists (wire e (LpmIp row.1)).
  - split; [done|]. intros [(a & Ha & Et & El & Hs) _]. destruct Hd.
    rw El (wire_native e a) //.
Qed.
Lemma lpm_model_law e : lpm_law e (lpm_model e).
Proof.
  intros m tenant ip Hip Hkeys. rw /lpm_model.
  pose proof (best_spec (lpm_score e (mkLpmKey 64 tenant (native_uint32 e (As4 ip)))) (map_to_list m)) as Hb.
  specialize (Hb ltac:(intros [key z] s Hin%elem_of_map_to_list [_ ->]%lpm_score_Some; [|done];
    specialize (Hkeys key (ex_intro _ _ Hin)); simpl; lia)).
  destruct (best _ _) as [[key z]|]; simpl.
  - apply first_best_in in Hb as (Hin%elem_of_map_to_list & s & Hs & Hmax).
    apply lpm_score_Some in Hs as [Hc ->]; last done. exists key. split_and!; try done.
    intros key' [z' Hz'] Hc'. apply (Hmax (key', z')); first by apply elem_of_map_to_list.
    by apply lpm_score_Some.
  - intros key [z Hz] Hc. specialize (Hb (key, z) ltac:(by apply elem_of_map_to_list)).
    assert (lpm_score e (mkLpmKey 64 tenant (native_uint32 e (As4 ip))) (key, z) = Some (Prefixlen key)); last congruence.
    by apply lpm_score_Some.
Qed.

Import Demo KernelWriterExamples.
Definition macVmA : MacAddr := mkMac 2 0 0 0 0 10.
Definition macVmB : MacAddr := mkMac 2 0 0 0 0 11.
Definition macGw : MacAddr := mkMac 2 0 0 0 1 10.
(** The demo deployment's maps, as the bulk writers leave them. *)
Definition idA : Z := tid written.2 "tA".
Definition idB : Z := tid written.2 "tB".
Definition kern : kernel := mkKernel
  (<[MACKey macVmA := TenantValue idA false]> (<[MACKey macVmB := TenantValue idB true]> ∅))
  (krows (w_map written.1))
  {[ mkAmphoraKey idB 5 := 1 ]} ∅ 0 0.
Lemma kern_macA : mac_row kern written.2 macVmA "tA" false.
Proof. split; [right; eexists; vm_compute; reflexivity|split; [by vm_compute|vm_compute; reflexivity]]. Qed.
Lemma kern_macB : mac_row kern written.2 macVmB "tB" true.
Proof. split; [right; eexists; vm_compute; reflexivity|split; [by vm_compute|vm_compute; reflexivity]]. Qed.
Lemma kern_trie : represents LittleEndian (rowsOf written.2 rows) (subnet_zone_trie kern).
Proof. destruct written_ok as (_ & _ & _ & Hrep). exact Hrep. Qed.
Lemma rows_agree : agreeing rows.
Proof.
  split.
  - assert (Forall (λ e, Forall (λ f, TE_TenantID e = TE_TenantID f → TE_Prefix e = TE_Prefix f →
      TE_Zone e = TE_Zone f) rows) rows) as Hall by (apply (bool_decide_unpack _); by vm_compute).
    intros e f He Hf. rw Forall_forall in Hall. specialize (Hall e He). rw Forall_forall in Hall. by apply Hall.
  - assert (Forall (λ e, 0 ≤ TE_Zone e < 256 ∧ Masked (TE_Prefix e) = TE_Prefix e) rows) as Hall
      by (apply (bool_decide_unpack _); by vm_compute).
    rw Forall_forall in Hall. exact Hall.
Qed.

(** Through the gateway, to the other tenant's subnet (10.0.2.5). *)
Lemma kernel_zone_refines_witness :
  lookup_zone (lpm_model LittleEndian) kern
    (mkEndpoints macVmA macGw 0 (native_uint32 LittleEndian (As4 167772677))) =
  match LookupZone rows 167772677 "tA" with (Some e, _) => TE_Zone e | (None, _) => ZoneMiss end.
Proof.
  destruct written_ok as (Hok & _ & Hk & _).
  refine (kernel_zone_refines LittleEndian (lpm_model LittleEndian) (lpm_model_law LittleEndian)
    kern written.2 rows macVmA "tA" false macGw 0 167772677 Hok Hk rows_fine rows_agree kern_trie
    kern_macA _ _ _); [discriminate|by vm_compute|rw /ip4_range; lia].
Defined.
Example demo_zone : (LookupZone rows 167772677 "tA").2 = "tenant".
Proof. by vm_compute. Qed.

Lemma kernel_zone_peer_witness :
  lookup_zone (lpm_model LittleEndian) kern (mkEndpoints macVmA macVmB 7 5) =
    (if decide (segment2 kern written.2 "tA" false 7 ∨ segment2 kern written.2 "tB" true 5) then ZoneInfra
     else if decide ("tA" = "tB") then ZoneSameTenant else ZoneOtherTenant) ∧
  lookup_zone (lpm_model LittleEndian) kern (mkEndpoints macVmB macVmA 5 7) =
    lookup_zone (lpm_model LittleEndian) kern (mkEndpoints macVmA macVmB 7 5).
Proof.
  refine (kernel_zone_peer (lpm_model LittleEndian) kern written.2 macVmA macVmB "tA" false "tB" true 7 5
    (proj1 written_ok) kern_macA kern_macB).
Defined.
Example amphora_zone :
  lookup_zone (lpm_model LittleEndian) kern (mkEndpoints macVmA macVmB 7 5) = ZoneInfra ∧
  lookup_zone (lpm_model LittleEndian) kern (mkEndpoints macVmA macVmB 7 6) = ZoneOtherTenant.
Proof. by vm_compute. Qed.

Definition frame : sk_buff := mkSkb true macVmA macVmB ETH_P_IP (Some (mkIphdr 7 5 IPNUM_TCP)) None 100.
Definition frame_key : FlowKey :=
  mkFlowKey macVmA macVmB ETH_P_IP DirectionIngress ZoneInfra L4ProtoTCP 0.
Lemma packet_counted_once_witness :
  reading (handle_packet (lpm_model LittleEndian) 2 1 50 true kern frame DirectionIngress) frame_key =
    Some (mkFlowMetrics 100 1 50 50).
Proof.
  destruct (packet_counted_once (lpm_model LittleEndian) 2 1 50 true kern frame DirectionIngress frame_key)
    as [_ Hk]; [lia|lia|done|by intros ? ? ?|by vm_compute|].
  case_decide as Hd; [by destruct Hd as [Hd _]|exact (proj1 Hk)].
Defined.
End ClassifyExamples.
