(* ===== verification/Collector.v ===== *)
(** * The Prometheus collector (internal/metrics/collector.go)

    One snapshot of the counters, aggregated into the four billing tiers and
    the per-port protocol breakdown, then emitted as label tuples.  The tiers
    are shown to be the exposure of [Exposure] under the attribution of
    [Metadata]. *)
From S2P Require Import Prelude Bpf State Exposure Metadata.

(** ** Keys and state (schema.go)

    The aggregation keys of the first three tiers have the fields of the
    settled keys they meet. *)
Abbreviation totalAggKey := TotalSettledKey (only parsing).
Abbreviation aggKey := TenantSettledKey (only parsing).
Abbreviation serverAggKey := ServerSettledKey (only parsing).
Abbreviation aggValue := settledTotal (only parsing).
Record portAggKey := mkPortAggKey {
  PA_Server : string; PA_Port : string; PA_Tenant : string; PA_Ext : string; PA_Zone : Z; PA_Dir : Z }.
Record protoAggKey := mkProtoAggKey {
  QA_Server : string; QA_Port : string; QA_Tenant : string; QA_Proto : Z; QA_Dir : Z }.
#[export] Instance portAggKey_eq_dec : EqDecision portAggKey.
Proof. solve_decision. Defined.
#[export] Instance portAggKey_countable : Countable portAggKey.
Proof.
  refine (inj_countable' (λ k, (PA_Server k, PA_Port k, PA_Tenant k, PA_Ext k, PA_Zone k, PA_Dir k))
    (λ '(a, b, c, d, e, f), mkPortAggKey a b c d e f) _). by intros [].
Defined.
#[export] Instance protoAggKey_eq_dec : EqDecision protoAggKey.
Proof. solve_decision. Defined.
#[export] Instance protoAggKey_countable : Countable protoAggKey.
Proof.
  refine (inj_countable' (λ k, (QA_Server k, QA_Port k, QA_Tenant k, QA_Proto k, QA_Dir k))
    (λ '(a, b, c, d, e), mkProtoAggKey a b c d e) _). by intros [].
Defined.

Record Collector := mkCollector {
  emitBuf : list (FlowKey * FlowMetrics);
  tenantSettledBuf : list (TenantSettledKey * settledTotal);
  serverSettledBuf : list (ServerSettledKey * settledTotal);
  totalSettledBuf : list (TotalSettledKey * settledTotal);
  totalAggBuf : gmap TotalSettledKey settledTotal;
  aggBuf : gmap TenantSettledKey settledTotal;
  serverAggBuf : gmap ServerSettledKey settledTotal;
  portAggBuf : gmap portAggKey settledTotal;
  protoAggBuf : gmap protoAggKey settledTotal }.
Definition NewCollector : Collector := mkCollector [] [] [] [] ∅ ∅ ∅ ∅ ∅.

(** ** Aggregation *)

Definition foldTenantSettled (c : Collector) : Collector :=
  mkCollector (emitBuf c) (tenantSettledBuf c) (serverSettledBuf c) (totalSettledBuf c)
    (totalAggBuf c) (tally_from (aggBuf c) (tenantSettledBuf c)) (serverAggBuf c)
    (portAggBuf c) (protoAggBuf c).

Definition aggregateRow (resolve : FlowKey → Attribution) (c : Collector)
    (e : FlowKey * FlowMetrics) : Collector :=
  let '(k, total) := e in
  let a := resolve k in
  let v := of_metrics total in
  let agg := credit (mkTenantSettledKey (At_Tenant a) (At_ExternalNetwork a) (DstZone k) (Direction_ k))
               v (aggBuf c) in
  if decide (At_ServerID a = "") then
    mkCollector (emitBuf c) (tenantSettledBuf c) (serverSettledBuf c) (totalSettledBuf c)
      (totalAggBuf c) agg (serverAggBuf c) (portAggBuf c) (protoAggBuf c)
  else
    mkCollector (emitBuf c) (tenantSettledBuf c) (serverSettledBuf c) (totalSettledBuf c)
      (totalAggBuf c) agg
      (credit (mkServerSettledKey (At_ServerID a) (At_Tenant a) (At_ExternalNetwork a)
                 (DstZone k) (Direction_ k)) v (serverAggBuf c))
      (credit (mkPortAggKey (At_ServerID a) (At_PortID a) (At_Tenant a) (At_ExternalNetwork a)
                 (DstZone k) (Direction_ k)) v (portAggBuf c))
      (credit (mkProtoAggKey (At_ServerID a) (At_PortID a) (At_Tenant a) (L4Proto_ k)
                 (Direction_ k)) v (protoAggBuf c)).
Definition aggregateLiveRows (resolve : FlowKey → Attribution) (c : Collector) : Collector :=
  foldl (aggregateRow resolve) c (emitBuf c).

Definition foldServerSettled (c : Collector) : Collector :=
  mkCollector (emitBuf c) (tenantSettledBuf c) (serverSettledBuf c) (totalSettledBuf c)
    (totalAggBuf c) (aggBuf c) (tally_from (serverAggBuf c) (serverSettledBuf c))
    (portAggBuf c) (protoAggBuf c).
Definition deriveTotals `{GoRange} (c : Collector) : Collector :=
  mkCollector (emitBuf c) (tenantSettledBuf c) (serverSettledBuf c) (totalSettledBuf c)
    (foldl (λ m kv, credit (mkTotalSettledKey (TS_ExtNet kv.1) (TS_Zone kv.1) (TS_Dir kv.1)) kv.2 m)
       (totalAggBuf c) (go_range (aggBuf c)))
    (aggBuf c) (serverAggBuf c) (portAggBuf c) (protoAggBuf c).
Definition foldTotalSettled (c : Collector) : Collector :=
  mkCollector (emitBuf c) (tenantSettledBuf c) (serverSettledBuf c) (totalSettledBuf c)
    (tally_from (totalAggBuf c) (totalSettledBuf c)) (aggBuf c) (serverAggBuf c)
    (portAggBuf c) (protoAggBuf c).

Definition clearBufs (c : Collector) : Collector :=
  mkCollector (emitBuf c) (tenantSettledBuf c) (serverSettledBuf c) (totalSettledBuf c) ∅ ∅ ∅ ∅ ∅.

Definition aggregate `{GoRange} (resolve : FlowKey → Attribution) (c : Collector) : Collector :=
  foldTotalSettled (deriveTotals (foldServerSettled
    (aggregateLiveRows resolve (foldTenantSettled (clearBufs c))))).

(** ** Emission

    A metric is its family, its label values and the value passed to
    [float64]. *)
Record metric := mkMetric { family : string; labels : list string; metric_value : Z }.

Definition MetricBytesTotal : string := "lachesis_bytes_total".
Definition MetricPacketsTotal : string := "lachesis_packets_total".
Definition MetricTenantBytesTotal : string := "lachesis_tenant_bytes_total".
Definition MetricTenantPacketsTotal : string := "lachesis_tenant_packets_total".
Definition MetricServerBytesTotal : string := "lachesis_server_bytes_total".
Definition MetricServerPacketsTotal : string := "lachesis_server_packets_total".
Definition MetricPortBytesTotal : string := "lachesis_port_bytes_total".
Definition MetricPortPacketsTotal : string := "lachesis_port_packets_total".
Definition MetricPortProtoBytesTotal : string := "lachesis_port_proto_bytes_total".
Definition MetricPortProtoPacketsTotal : string := "lachesis_port_proto_packets_total".

Definition emitRow {K} (bytesFamily packetsFamily : string) (labelsOf : K → list string)
    (kv : K * settledTotal) : list metric :=
  [mkMetric bytesFamily (labelsOf kv.1) (bytes kv.2);
   mkMetric packetsFamily (labelsOf kv.1) (packets kv.2)].

Definition totalLabels (k : TotalSettledKey) : list string :=
  [ZoneCode_String (TT_Zone k); TT_ExtNet k; Direction_String (TT_Dir k)].
Definition tenantLabels (k : TenantSettledKey) : list string :=
  [TS_Tenant k; ZoneCode_String (TS_Zone k); TS_ExtNet k; Direction_String (TS_Dir k)].
Definition serverLabels (k : ServerSettledKey) : list string :=
  [SS_ServerID k; SS_Tenant k; ZoneCode_String (SS_Zone k); SS_ExtNet k; Direction_String (SS_Dir k)].
Definition portLabels (k : portAggKey) : list string :=
  [PA_Server k; PA_Port k; PA_Tenant k; ZoneCode_String (PA_Zone k); PA_Ext k;
   Direction_String (PA_Dir k)].
Definition protoLabels (k : protoAggKey) : list string :=
  [QA_Server k; QA_Port k; QA_Tenant k; L4Proto_String (QA_Proto k); Direction_String (QA_Dir k)].

Section collect.
Context `{GoRange}.

Definition emitBilling (c : Collector) : list metric :=
  (go_range (totalAggBuf c) ≫= emitRow MetricBytesTotal MetricPacketsTotal totalLabels) ++
  (go_range (aggBuf c) ≫= emitRow MetricTenantBytesTotal MetricTenantPacketsTotal tenantLabels) ++
  (go_range (serverAggBuf c) ≫= emitRow MetricServerBytesTotal MetricServerPacketsTotal serverLabels) ++
  (go_range (portAggBuf c) ≫= emitRow MetricPortBytesTotal MetricPortPacketsTotal portLabels) ++
  (go_range (protoAggBuf c) ≫= emitRow MetricPortProtoBytesTotal MetricPortProtoPacketsTotal protoLabels).

(** [errors] and [lastOK] are the scraper's counters. *)
Definition emitHealth (errors lastOK : Z) (c : Collector) : list metric :=
  [mkMetric "lachesis_state_flows" [] (Z.of_nat (length (emitBuf c)));
   mkMetric "lachesis_state_tenant_settled_tuples" [] (Z.of_nat (length (tenantSettledBuf c)));
   mkMetric "lachesis_state_server_settled_tuples" [] (Z.of_nat (length (serverSettledBuf c)));
   mkMetric "lachesis_state_total_settled_tuples" [] (Z.of_nat (length (totalSettledBuf c)));
   mkMetric "lachesis_scraper_errors_total" [] errors;
   mkMetric "lachesis_scraper_last_success_unix_seconds" [] lastOK].

(** [Collect] answers the collector with its reused buffers and the metrics
    sent, the pass's own duration histogram apart. *)
Definition Collect (resolve : FlowKey → Attribution) (errors lastOK : Z) (g : GlobalState)
    (c : Collector) : Collector * list metric :=
  let '(flows, ts, ss, xs) := SnapshotWithSettled [] [] [] [] g in
  let c := mkCollector flows ts ss xs (totalAggBuf c) (aggBuf c) (serverAggBuf c)
             (portAggBuf c) (protoAggBuf c) in
  let c := aggregate resolve c in
  (c, emitBilling c ++ emitHealth errors lastOK c).

(** The resolver wired before the metadata is available. *)
Definition UnknownTenant (_ : FlowKey) : Attribution :=
  mkAttribution UnknownTenantID "" "" NoExternalNetwork.
End collect.

(** ** The tiers are the exposure *)

Section refine.
Context `{GoRange} (resolve : FlowKey → Attribution).
Let attr (k : FlowKey) : Owner := ownerOf (resolve k).

Lemma aggregateLiveRows_proj `{Countable K} (p : Collector → gmap K settledTotal)
    (f : FlowKey * FlowMetrics → list (K * settledTotal)) c l :
  (∀ c e, p (aggregateRow resolve c e) = tally_from (p c) (f e)) →
  p (foldl (aggregateRow resolve) c l) = tally_from (p c) (l ≫= f).
Proof.
  intros Hf. induction l as [|e l IH] in c |- *; csimpl; first done.
  by rw IH Hf tally_from_app.
Qed.

Definition serverOnly {K} (key : Attribution → FlowKey → K) (e : FlowKey * FlowMetrics)
    : list (K * settledTotal) :=
  if decide (At_ServerID (resolve e.1) = "") then []
  else [(key (resolve e.1) e.1, of_metrics e.2)].
Definition portKey (a : Attribution) (k : FlowKey) : portAggKey :=
  mkPortAggKey (At_ServerID a) (At_PortID a) (At_Tenant a) (At_ExternalNetwork a)
    (DstZone k) (Direction_ k).
Definition protoKey (a : Attribution) (k : FlowKey) : protoAggKey :=
  mkProtoAggKey (At_ServerID a) (At_PortID a) (At_Tenant a) (L4Proto_ k) (Direction_ k).

Lemma live_agg c l :
  aggBuf (foldl (aggregateRow resolve) c l) =
  tally_from (aggBuf c) (l ≫= λ e, [(tenantKey (attr e.1) e.1, of_metrics e.2)]).
Proof.
  apply aggregateLiveRows_proj. intros c' [k m]. rw /aggregateRow. by case_decide.
Qed.
Lemma live_server c l :
  serverAggBuf (foldl (aggregateRow resolve) c l) =
  tally_from (serverAggBuf c) (l ≫= serverOnly (λ a k, serverKey (ownerOf a) k)).
Proof.
  apply aggregateLiveRows_proj. intros c' [k m]. rw /aggregateRow /serverOnly /=. by case_decide.
Qed.
Lemma live_port c l :
  portAggBuf (foldl (aggregateRow resolve) c l) = tally_from (portAggBuf c) (l ≫= serverOnly portKey).
Proof.
  apply aggregateLiveRows_proj. intros c' [k m]. rw /aggregateRow /serverOnly /=. by case_decide.
Qed.
Lemma live_proto c l :
  protoAggBuf (foldl (aggregateRow resolve) c l) = tally_from (protoAggBuf c) (l ≫= serverOnly protoKey).
Proof.
  apply aggregateLiveRows_proj. intros c' [k m]. rw /aggregateRow /serverOnly /=. by case_decide.
Qed.
(** The other buffers are untouched by the row loop. *)
Lemma live_frame c l :
  let c' := foldl (aggregateRow resolve) c l in
  serverSettledBuf c' = serverSettledBuf c ∧ totalSettledBuf c' = totalSettledBuf c ∧
  totalAggBuf c' = totalAggBuf c ∧ emitBuf c' = emitBuf c ∧ tenantSettledBuf c' = tenantSettledBuf c.
Proof.
  cbn zeta. induction l as [|[k m] l IH] in c |- *; first done.
  change (foldl _ c ((k, m) :: l)) with (foldl (aggregateRow resolve) (aggregateRow resolve c (k, m)) l).
  destruct (IH (aggregateRow resolve c (k, m))) as (-> & -> & -> & -> & ->).
  rw /aggregateRow. by case_decide.
Qed.

Lemma snapshot_rows {B} (f : FlowKey * FlowMetrics → list B) (g : GlobalState) :
  (prod_map id Total <$> go_range (counts g)) ≫= f ≡ₚ
  map_to_list (counts g) ≫= (λ kc, f (kc.1, Total kc.2)).
Proof.
  rw (go_range_perm (counts g)). rw list_fmap_bind.
  apply bind_perm_ext. by intros [].
Qed.

Variables (errors lastOK : Z) (g : GlobalState) (c : Collector).
Let c' := (Collect resolve errors lastOK g c).1.

Lemma collect_tenant : aggBuf c' = exposedTenant attr g.
Proof.
  rw /c' /Collect /= /aggregateLiveRows live_agg /= /exposedTenant /tally tally_from_app.
  by rw snapshot_rows (go_range_perm (tenantSettled g)).
Qed.
Lemma collect_server : serverAggBuf c' = exposedServer attr g.
Proof.
  rw /c' /Collect /= /aggregateLiveRows live_server /= /exposedServer /tally tally_from_app.
  destruct (live_frame (foldTenantSettled (clearBufs (mkCollector
    (prod_map id Total <$> go_range (counts g)) (go_range (tenantSettled g))
    (go_range (serverSettled g)) (go_range (totalSettled g)) (totalAggBuf c) (aggBuf c)
    (serverAggBuf c) (portAggBuf c) (protoAggBuf c))))
    (prod_map id Total <$> go_range (counts g))) as (E & _).
  rw E /= -!tally_from_app snapshot_rows (go_range_perm (serverSettled g)).
  by rw Permutation_app_comm.
Qed.
Lemma collect_total : totalAggBuf c' = exposedTotal attr g.
Proof.
  rw /exposedTotal -collect_tenant /c' /Collect /=.
  match goal with |- context [aggregateLiveRows resolve ?x] =>
    destruct (live_frame x (emitBuf x)) as (_ & E1 & E2 & _ & _);
    rw /aggregateLiveRows E1 E2 /=; set (y := aggBuf (foldl _ _ _)) end.
  rw tally_app (go_range_perm (totalSettled g)). f_equal.
  by rw (foldl_credit_rekey totalKey) (go_range_perm y).
Qed.

Lemma collect_port :
  portAggBuf c' = tally (map_to_list (counts g) ≫= λ kc, serverOnly portKey (kc.1, Total kc.2)).
Proof.
  rw /c' /Collect /= /aggregateLiveRows live_port /=. by rw snapshot_rows.
Qed.
Lemma collect_proto :
  protoAggBuf c' = tally (map_to_list (counts g) ≫= λ kc, serverOnly protoKey (kc.1, Total kc.2)).
Proof.
  rw /c' /Collect /= /aggregateLiveRows live_proto /=. by rw snapshot_rows.
Qed.

(** The identity of a port's direction, the grain the protocol breakdown and
    the port tier share. *)
Definition portDir (k : portAggKey) := (PA_Server k, PA_Port k, PA_Tenant k, PA_Dir k).
Definition protoDir (k : protoAggKey) := (QA_Server k, QA_Port k, QA_Tenant k, QA_Dir k).

Lemma port_proto_sum :
  tally (rekey portDir (map_to_list (portAggBuf c'))) =
  tally (rekey protoDir (map_to_list (protoAggBuf c'))).
Proof.
  rw collect_port collect_proto /tally !tally_fuse map_to_list_empty /= !rekey_bind. f_equal.
  induction (map_to_list (counts g)) as [|kc l IH]; csimpl; first done. rw IH. f_equal.
  rw /serverOnly /=. by case_decide.
Qed.
End refine.

(** ** What is sent

    A tier's samples: two families, one series per bucket. *)
Definition samples `{Countable K} (bytesName packetsName : string) (labelsOf : K → list string)
    (m : gmap K settledTotal) : list metric :=
  ((λ kv, mkMetric bytesName (labelsOf kv.1) (bytes kv.2)) <$> map_to_list m) ++
  ((λ kv, mkMetric packetsName (labelsOf kv.1) (packets kv.2)) <$> map_to_list m).
(** The live rows that have a server, by port and by protocol. *)
Definition portTier (resolve : FlowKey → Attribution) (g : GlobalState) : gmap portAggKey settledTotal :=
  tally (map_to_list (counts g) ≫= λ kc, serverOnly resolve portKey (kc.1, Total kc.2)).
Definition protoTier (resolve : FlowKey → Attribution) (g : GlobalState) : gmap protoAggKey settledTotal :=
  tally (map_to_list (counts g) ≫= λ kc, serverOnly resolve protoKey (kc.1, Total kc.2)).

Lemma emit_samples `{GoRange} `{Countable K} (m : gmap K settledTotal) fb fp labelsOf :
  go_range m ≫= emitRow fb fp labelsOf ≡ₚ samples fb fp labelsOf m.
Proof.
  rw (go_range_perm m) /samples. induction (map_to_list m) as [|kv l IH]; csimpl; [done|].
  rw -Permutation_middle. by rw IH.
Qed.
(** The buffers counted by the health metrics. *)
Lemma collect_sizes `{GoRange} resolve errors lastOK g c :
  let c' := (Collect resolve errors lastOK g c).1 in
  length (emitBuf c') = size (counts g) ∧ length (tenantSettledBuf c') = size (tenantSettled g) ∧
  length (serverSettledBuf c') = size (serverSettled g) ∧ length (totalSettledBuf c') = size (totalSettled g).
Proof.
  cbn zeta. rw /Collect /=.
  match goal with |- context [aggregateLiveRows resolve ?x] =>
    destruct (live_frame resolve x (emitBuf x)) as (E1 & E2 & _ & E4 & E5);
    rw /aggregateLiveRows E1 E2 E4 E5 /= end.
  by rw length_fmap !length_go_range.
Qed.

(** C6: what a scrape sends is the specification of the tiers.  Whatever the reused
    buffers held, the metrics of a pass are, in some order, exactly: for each bucket of
    the total tier, the sum over tenants plus the absorber of dead projects, its bytes
    and its packets under the labels (zone, external network, direction); likewise for
    the tenant tier, the settled buckets plus the live rows under their resolved
    attribution, for the server tier, the same for the rows with a server, and for the
    port and protocol breakdowns of the live rows with a server; and the six health
    metrics, which count the rows and the settled buckets.  The protocol breakdown of
    a port's direction sums to the port tier's. *)
Theorem collect_refines_exposure `{GoRange} resolve errors lastOK g c :
  let attr := λ k, ownerOf (resolve k) in
  (Collect resolve errors lastOK g c).2 ≡ₚ
    samples "lachesis_bytes_total" "lachesis_packets_total"
      (λ k, [ZoneCode_String (TT_Zone k); TT_ExtNet k; Direction_String (TT_Dir k)]) (exposedTotal attr g) ++
    samples "lachesis_tenant_bytes_total" "lachesis_tenant_packets_total"
      (λ k, [TS_Tenant k; ZoneCode_String (TS_Zone k); TS_ExtNet k; Direction_String (TS_Dir k)])
      (exposedTenant attr g) ++
    samples "lachesis_server_bytes_total" "lachesis_server_packets_total"
      (λ k, [SS_ServerID k; SS_Tenant k; ZoneCode_String (SS_Zone k); SS_ExtNet k; Direction_String (SS_Dir k)])
      (exposedServer attr g) ++
    samples "lachesis_port_bytes_total" "lachesis_port_packets_total"
      (λ k, [PA_Server k; PA_Port k; PA_Tenant k; ZoneCode_String (PA_Zone k); PA_Ext k; Direction_String (PA_Dir k)])
      (portTier resolve g) ++
    samples "lachesis_port_proto_bytes_total" "lachesis_port_proto_packets_total"
      (λ k, [QA_Server k; QA_Port k; QA_Tenant k; L4Proto_String (QA_Proto k); Direction_String (QA_Dir k)])
      (protoTier resolve g) ++
    [mkMetric "lachesis_state_flows" [] (Z.of_nat (size (counts g)));
     mkMetric "lachesis_state_tenant_settled_tuples" [] (Z.of_nat (size (tenantSettled g)));
     mkMetric "lachesis_state_server_settled_tuples" [] (Z.of_nat (size (serverSettled g)));
     mkMetric "lachesis_state_total_settled_tuples" [] (Z.of_nat (size (totalSettled g)));
     mkMetric "lachesis_scraper_errors_total" [] errors;
     mkMetric "lachesis_scraper_last_success_unix_seconds" [] lastOK] ∧
  tally (rekey portDir (map_to_list (portTier resolve g))) =
    tally (rekey protoDir (map_to_list (protoTier resolve g))).
Proof.
  cbn zeta. split.
  - change (Collect resolve errors lastOK g c).2 with
      (emitBilling (Collect resolve errors lastOK g c).1 ++ emitHealth errors lastOK (Collect resolve errors lastOK g c).1).
    destruct (collect_sizes resolve errors lastOK g c) as (E1 & E2 & E3 & E4).
    rw /emitHealth E1 E2 E3 E4 /emitBilling !emit_samples -!app_assoc.
    by rw collect_total collect_tenant collect_server collect_port collect_proto.
  - pose proof (port_proto_sum resolve errors lastOK g c) as E. by rw collect_port collect_proto in E.
Qed.

(** ** One sample per series *)

Definition key_codes_ok (k : FlowKey) : Prop :=
  u8_range (DstZone k) ∧ u8_range (Direction_ k) ∧ u8_range (L4Proto_ k).
(** The codes of every key are bytes, as their Go types have them. *)
Definition codes_ok (g : GlobalState) : Prop :=
  (∀ k, is_Some (counts g !! k) → key_codes_ok k) ∧
  (∀ k, is_Some (tenantSettled g !! k) → u8_range (TS_Zone k) ∧ u8_range (TS_Dir k)) ∧
  (∀ k, is_Some (serverSettled g !! k) → u8_range (SS_Zone k) ∧ u8_range (SS_Dir k)) ∧
  (∀ k, is_Some (totalSettled g !! k) → u8_range (TT_Zone k) ∧ u8_range (TT_Dir k)).

Definition series (m : metric) : string * list string := (family m, labels m).

Lemma emit_series `{GoRange} `{Countable K} (m : gmap K settledTotal) fb fp labelsOf f ls :
  (f, ls) ∈ series <$> (go_range m ≫= emitRow fb fp labelsOf) →
  (f = fb ∨ f = fp) ∧ ∃ k, is_Some (m !! k) ∧ ls = labelsOf k.
Proof.
  intros (x & Hx & Hin)%list_elem_of_fmap. apply list_elem_of_bind in Hin as ([k v] & Hx' & Hk).
  apply elem_of_go_range in Hk. rw /series in Hx. simplify_eq.
  rw /emitRow !elem_of_cons elem_of_nil in Hx'.
  destruct Hx' as [->|[->|[]]]; (split; [naive_solver|exists k; split; [by eexists|done]]).
Qed.

Lemma emit_NoDup `{GoRange} `{Countable K} (m : gmap K settledTotal) fb fp labelsOf :
  fb ≠ fp →
  (∀ k1 k2, is_Some (m !! k1) → is_Some (m !! k2) → labelsOf k1 = labelsOf k2 → k1 = k2) →
  NoDup (series <$> (go_range m ≫= emitRow fb fp labelsOf)).
Proof.
  intros Hf Hinj.
  assert (∀ l : list (K * settledTotal), NoDup l.*1 → (∀ k v, (k, v) ∈ l → is_Some (m !! k)) →
    NoDup (series <$> (l ≫= emitRow fb fp labelsOf))) as G.
  { intros l. induction l as [|[k v] l IH]; csimpl; first (intros; apply NoDup_nil_2).
    intros [Hk Hnd]%NoDup_cons Hl.
    assert (∀ f, (f, labelsOf k) ∉ series <$> (l ≫= emitRow fb fp labelsOf)) as Hnot.
    { intros f ([f' ls' v'] & E & Hin)%list_elem_of_fmap. rw /series /= in E. simplify_eq.
      apply list_elem_of_bind in Hin as ([k' w] & Hx & Hk').
      assert (k' ≠ k) as Hne.
      { intros ->. apply Hk. by apply (list_elem_of_fmap_2 fst l (k, w)). }
      apply Hne, Hinj; [by eapply Hl; right|by eapply Hl; left|].
      rw /emitRow !elem_of_cons elem_of_nil in Hx. destruct Hx as [Hx|[Hx|[]]]; by simplify_eq. }
    rw !NoDup_cons. split_and!; [|apply Hnot|apply IH; [done|by intros; eapply Hl; right]].
    rw elem_of_cons /series /=. intros [[= ?]|Hin]; first done. by apply (Hnot fb). }
  apply G; first apply NoDup_go_range. intros k v ?%elem_of_go_range. by eexists.
Qed.

Section series_codes.
Context `{GoRange} (resolve : FlowKey → Attribution) (g : GlobalState).
Let attr (k : FlowKey) : Owner := ownerOf (resolve k).
Hypothesis Hcodes : codes_ok g.

(** Every bucket of a tally over settled buckets and rows comes from one. *)
Lemma tier_dom `{Countable K} (S : gmap K settledTotal) (row : FlowKey * Counter → list (K * settledTotal))
    (P : K → Prop) :
  (∀ k, is_Some (S !! k) → P k) →
  (∀ k c b v, key_codes_ok k → (b, v) ∈ row (k, c) → P b) →
  ∀ b, is_Some (tally (map_to_list S ++ (map_to_list (counts g) ≫= row)) !! b) → P b.
Proof.
  intros HS Hrow b Hb%tally_dom. rw fmap_app elem_of_app in Hb.
  destruct Hb as [([? v] & -> & Hin)%list_elem_of_fmap|([? v] & -> & Hin)%list_elem_of_fmap].
  - apply HS. apply elem_of_map_to_list in Hin. by eexists.
  - apply list_elem_of_bind in Hin as ([k0 c] & Hin & Hk%elem_of_map_to_list).
    eapply Hrow, Hin. apply (proj1 Hcodes). by eexists.
Qed.

Lemma tenant_codes b : is_Some (exposedTenant attr g !! b) → u8_range (TS_Zone b) ∧ u8_range (TS_Dir b).
Proof.
  apply (tier_dom (tenantSettled g) (tenantRow attr) (λ b, u8_range (TS_Zone b) ∧ u8_range (TS_Dir b))); first apply Hcodes.
  intros k c b' v (? & ? & ?) [= -> ->]%list_elem_of_singleton. done.
Qed.
Lemma server_codes b : is_Some (exposedServer attr g !! b) → u8_range (SS_Zone b) ∧ u8_range (SS_Dir b).
Proof.
  apply (tier_dom (serverSettled g) (serverRow attr) (λ b, u8_range (SS_Zone b) ∧ u8_range (SS_Dir b))); first apply Hcodes.
  intros k c b' v (? & ? & ?). rw /serverRow. case_decide; first by intros []%elem_of_nil.
  intros [= -> ->]%list_elem_of_singleton. done.
Qed.
Lemma total_codes b : is_Some (exposedTotal attr g !! b) → u8_range (TT_Zone b) ∧ u8_range (TT_Dir b).
Proof.
  intros Hb%tally_dom. rw fmap_app elem_of_app in Hb.
  destruct Hb as [([? v] & -> & Hin)%list_elem_of_fmap|([? v] & -> & Hin)%list_elem_of_fmap].
  - apply list_elem_of_fmap in Hin as ([k0 w] & [= -> ->] & Hin%elem_of_map_to_list).
    destruct (tenant_codes k0); [by eexists|done].
  - apply Hcodes. apply elem_of_map_to_list in Hin. by eexists.
Qed.
Lemma serverOnly_codes `{Countable K} (key : Attribution → FlowKey → K) (P : K → Prop) :
  (∀ a k, key_codes_ok k → P (key a k)) →
  ∀ b, is_Some (tally (map_to_list (counts g) ≫= λ kc, serverOnly resolve key (kc.1, Total kc.2)) !! b) → P b.
Proof.
  intros HP. pose proof (tier_dom ∅ (λ kc, serverOnly resolve key (kc.1, Total kc.2)) P) as T.
  rw map_to_list_empty in T. apply T.
  - intros k. rw lookup_empty. by intros [].
  - intros k c b v Hk. rw /serverOnly /=. case_decide; first by intros []%elem_of_nil.
    intros [= -> ->]%list_elem_of_singleton. by apply HP.
Qed.
End series_codes.

Ltac label_inj :=
  intros [] []; cbn; intros; simplify_eq; f_equal;
  first [done|apply zone_String_inj; tauto|apply dir_String_inj; tauto|apply proto_String_inj; tauto].

Lemma totalLabels_inj k1 k2 :
  (u8_range (TT_Zone k1) ∧ u8_range (TT_Dir k1)) → (u8_range (TT_Zone k2) ∧ u8_range (TT_Dir k2)) →
  totalLabels k1 = totalLabels k2 → k1 = k2.
Proof. move: k1 k2. rw /totalLabels. label_inj. Qed.
Lemma tenantLabels_inj k1 k2 :
  (u8_range (TS_Zone k1) ∧ u8_range (TS_Dir k1)) → (u8_range (TS_Zone k2) ∧ u8_range (TS_Dir k2)) →
  tenantLabels k1 = tenantLabels k2 → k1 = k2.
Proof. move: k1 k2. rw /tenantLabels. label_inj. Qed.
Lemma serverLabels_inj k1 k2 :
  (u8_range (SS_Zone k1) ∧ u8_range (SS_Dir k1)) → (u8_range (SS_Zone k2) ∧ u8_range (SS_Dir k2)) →
  serverLabels k1 = serverLabels k2 → k1 = k2.
Proof. move: k1 k2. rw /serverLabels. label_inj. Qed.
Lemma portLabels_inj k1 k2 :
  (u8_range (PA_Zone k1) ∧ u8_range (PA_Dir k1)) → (u8_range (PA_Zone k2) ∧ u8_range (PA_Dir k2)) →
  portLabels k1 = portLabels k2 → k1 = k2.
Proof. move: k1 k2. rw /portLabels. label_inj. Qed.
Lemma protoLabels_inj k1 k2 :
  (u8_range (QA_Proto k1) ∧ u8_range (QA_Dir k1)) → (u8_range (QA_Proto k2) ∧ u8_range (QA_Dir k2)) →
  protoLabels k1 = protoLabels k2 → k1 = k2.
Proof. move: k1 k2. rw /protoLabels. label_inj. Qed.

Section one_pass.
Context `{GoRange} (y : Collector) (errors lastOK : Z).
Hypothesis H1 : ∀ k, is_Some (totalAggBuf y !! k) → u8_range (TT_Zone k) ∧ u8_range (TT_Dir k).
Hypothesis H2 : ∀ k, is_Some (aggBuf y !! k) → u8_range (TS_Zone k) ∧ u8_range (TS_Dir k).
Hypothesis H3 : ∀ k, is_Some (serverAggBuf y !! k) → u8_range (SS_Zone k) ∧ u8_range (SS_Dir k).
Hypothesis H4 : ∀ k, is_Some (portAggBuf y !! k) → u8_range (PA_Zone k) ∧ u8_range (PA_Dir k).
Hypothesis H5 : ∀ k, is_Some (protoAggBuf y !! k) → u8_range (QA_Proto k) ∧ u8_range (QA_Dir k).

Lemma NoDup_app_families (l1 l2 : list (string * list string)) (fs : list string) :
  NoDup l1 → NoDup l2 →
  Forall (λ s, s.1 ∈ fs) l1 → Forall (λ s, s.1 ∉ fs) l2 → NoDup (l1 ++ l2).
Proof.
  intros N1 N2 F1 F2. apply NoDup_app. split_and!; [done| |done].
  intros s Hs1 Hs2. rw Forall_forall in F1. rw Forall_forall in F2.
  by apply (F2 s Hs2), F1.
Qed.
Lemma emit_families `{Countable K} (m : gmap K settledTotal) fb fp labelsOf (P : string → Prop) :
  P fb → P fp → Forall (λ s, P s.1) (series <$> (go_range m ≫= emitRow fb fp labelsOf)).
Proof.
  intros Hb Hp. apply Forall_forall. intros [f ls] [[->| ->] _]%emit_series; done.
Qed.

(** One tier in front of families it does not use. *)
Lemma tier_NoDup `{Countable K} (m : gmap K settledTotal) fb fp labelsOf rest :
  fb ≠ fp →
  (∀ k1 k2, is_Some (m !! k1) → is_Some (m !! k2) → labelsOf k1 = labelsOf k2 → k1 = k2) →
  NoDup rest → Forall (λ s, s.1 ∉ [fb; fp]) rest →
  NoDup ((series <$> (go_range m ≫= emitRow fb fp labelsOf)) ++ rest).
Proof.
  intros Hf Hinj Hr Hd. apply (NoDup_app_families _ _ [fb; fp]); [by apply emit_NoDup|done| |done].
  apply (emit_families _ _ _ _ (λ f, f ∈ [fb; fp])); set_solver.
Qed.

Ltac other_families :=
  repeat (apply Forall_app; split); try (apply (emit_families _ _ _ _ (λ f, f ∉ _)));
  try (repeat apply Forall_cons; split_and!); try apply Forall_nil; try done;
  by apply (bool_decide_unpack _); vm_compute.

Lemma one_pass_NoDup : NoDup (series <$> (emitBilling y ++ emitHealth errors lastOK y)).
Proof.
  rw /emitBilling -!app_assoc !fmap_app.
  apply tier_NoDup; [done|by intros k1 k2 ?%H1 ?%H1; apply totalLabels_inj| |other_families].
  apply tier_NoDup; [done|by intros k1 k2 ?%H2 ?%H2; apply tenantLabels_inj| |other_families].
  apply tier_NoDup; [done|by intros k1 k2 ?%H3 ?%H3; apply serverLabels_inj| |other_families].
  apply tier_NoDup; [done|by intros k1 k2 ?%H4 ?%H4; apply portLabels_inj| |other_families].
  apply tier_NoDup; [done|by intros k1 k2 ?%H5 ?%H5; apply protoLabels_inj| |other_families].
  by apply (bool_decide_unpack _); vm_compute.
Qed.
End one_pass.

(** one scrape never sends two samples of one series: no two metrics of a
    pass carry the same family and label values, so Prometheus accepts it. *)
Theorem collect_no_duplicates `{GoRange} resolve errors lastOK g c :
  codes_ok g → NoDup (series <$> (Collect resolve errors lastOK g c).2).
Proof.
  intros Hg. apply (one_pass_NoDup (Collect resolve errors lastOK g c).1).
  - intros k. rw collect_total. by apply total_codes.
  - intros k. rw collect_tenant. by apply tenant_codes.
  - intros k. rw collect_server. by apply server_codes.
  - intros k. rw collect_port.
    apply (serverOnly_codes _ _ Hg portKey (λ k, u8_range (PA_Zone k) ∧ u8_range (PA_Dir k))).
    by intros ? ? (? & ? & ?).
  - intros k. rw collect_proto.
    apply (serverOnly_codes _ _ Hg protoKey (λ k, u8_range (QA_Proto k) ∧ u8_range (QA_Dir k))).
    by intros ? ? (? & ? & ?).
Qed.

Module CollectorExamples.
#[local] Existing Instance list_range.
Definition one_flow : GlobalState :=
  ApplyDelta (mkFlowKey zeroMac zeroMac 2048 DirectionIngress ZoneExternal L4ProtoTCP 0)
    (mkFlowMetrics 5 1 1 1) New.
Lemma collect_no_duplicates_witness :
  NoDup (series <$> (Collect UnknownTenant 0 0 one_flow NewCollector).2).
Proof.
  apply (collect_no_duplicates UnknownTenant 0 0 one_flow NewCollector).
  split_and!; try (by intros k; rw /= lookup_empty; intros []).
  intros k [c Hc]. rw /one_flow /ApplyDelta /= lookup_insert_Some lookup_empty in Hc.
  destruct Hc as [[<- _]|[_ ?]]; last done. by vm_compute.
Defined.
End CollectorExamples.
