(* ===== verification/Gc.v ===== *)
(** * Eviction (internal/gc)

    The lingering-ghost sweep and the pressure relief of the telemetry map,
    with the agent's adapters over the kernel maps (bootstrap_linux.go).  The
    sweep is stated over any [MetaStore]; the kernel calls may fail at any
    point.  A pass runs to its end before the next one starts; the ticker and
    the boot barrier are not modelled here. *)
From S2P Require Import Prelude GoHeap Bpf State Exposure Metadata KernelMap.

(** ** The agent's adapters: a key already gone is a success *)

Section adapters.
Context `{GoRange} {Err : Type} (fault : nat → option Err).

Definition idempotentDelete `{Countable K} {V} (k : K) (km : kmap K V) : kmap K V * option Err :=
  match KDelete fault k km with
  | (km, Some (Fault e)) => (km, Some e)
  | (km, _) => (km, None)
  end.
Definition macTenantEvictor_Delete (mac : Z) (km : kmap Z Z) := idempotentDelete mac km.
Definition telemetryFlowEvictor_Delete (key : FlowKey) (km : kmap FlowKey (list FlowMetrics)) :=
  idempotentDelete key km.

Lemma idempotentDelete_spec `{Countable K} {V} (k : K) (km : kmap K V) :
  let '(km', err) := idempotentDelete k km in
  err = fault (kcalls km) ∧
  krows km' = (if err then krows km else delete k (krows km)) ∧
  kcalls km' = S (kcalls km) ∧ khist km' = khist km ++ [krows km'].
Proof.
  rw /idempotentDelete /KDelete. destruct (fault (kcalls km)) as [e|]; first done.
  destruct (krows km !! k) eqn:E; first done. by rw /= delete_id.
Qed.

(** One pass over the telemetry map; [iterErr] is what the iterator ends with. *)
Definition deleteFlow (acc : kmap FlowKey (list FlowMetrics) * Z * option Err) (k : FlowKey) :=
  let '(km, deleted, first) := acc in
  match idempotentDelete k km with
  | (km, Some e) => (km, deleted, match first with None => Some e | Some _ => first end)
  | (km, None) => (km, deleted + 1, first)
  end.
Definition toDelete (macs : gmap Z ()) (rows : gmap FlowKey (list FlowMetrics)) : list FlowKey :=
  filter (λ k, is_Some (macs !! VMMAC k)) (go_range rows).*1.
Definition DeleteFlowsForMACs (iterErr : option Err) (macs : gmap Z ())
    (km : kmap FlowKey (list FlowMetrics)) : kmap FlowKey (list FlowMetrics) * Z * option Err :=
  match iterErr with
  | Some e => (km, 0, Some e)
  | None => foldl deleteFlow (km, 0, None) (toDelete macs (krows km))
  end.

Lemma deleteFlow_fold ks km n err :
  let '(km', n', err') := foldl deleteFlow (km, n, err) ks in
  krows km' ⊆ krows km ∧
  (∀ k, k ∉ ks → krows km' !! k = krows km !! k) ∧
  (err' = None → err = None ∧ (∀ k, k ∈ ks → krows km' !! k = None) ∧
     n' = n + Z.of_nat (length ks)) ∧
  ((∀ i, fault i = None) → err' = err).
Proof.
  induction ks as [|k ks IH] in km, n, err |- *.
  { split_and!; try done. intros ->. split_and!; [done|by intros ? ?%elem_of_nil|simpl; lia]. }
  cbn [foldl deleteFlow]. pose proof (idempotentDelete_spec k km) as Hd.
  destruct (idempotentDelete k km) as [km1 e] eqn:E. destruct Hd as (He & Hr & _).
  destruct e as [e|]; [specialize (IH km1 n (match err with None => Some e | Some _ => err end))|
    specialize (IH km1 (n + 1) err)]; destruct (foldl deleteFlow _ ks) as [[km' n'] err'];
    destruct IH as (Hsub & Hframe & Hok & Hnf).
  - rw Hr in Hsub, Hframe. split_and!; [done| | |].
    + intros k' [_ ?]%not_elem_of_cons. by apply Hframe.
    + intros E'. apply Hok in E' as [E' _]. by destruct err.
    + intros Hf. by rw Hf in He.
  - split_and!.
    + etrans; first exact Hsub. rw Hr. apply delete_subseteq.
    + intros k' [? ?]%not_elem_of_cons. rw Hframe // Hr lookup_delete_ne //.
    + intros E'. destruct (Hok E') as (-> & Hin & ->). split_and!; [done| |simpl; lia].
      intros k' [->|?]%elem_of_cons; last by apply Hin.
      destruct (decide (k ∈ ks)); first by apply Hin.
      rw Hframe // Hr lookup_delete_eq //.
    + intros Hf. by apply Hnf.
Qed.
Lemma elem_of_toDelete macs rows k :
  k ∈ toDelete macs rows ↔ is_Some (macs !! VMMAC k) ∧ is_Some (rows !! k).
Proof.
  rw /toDelete list_elem_of_filter list_elem_of_fmap. split.
  - intros [? ([? v] & -> & Hv%elem_of_go_range)]. by eauto.
  - intros [? [v Hv]]. split; first done. exists (k, v). split; first done.
    by apply elem_of_go_range.
Qed.
End adapters.

Lemma size_map_filter `{Countable K} {V} (P : K * V → Prop) `{!∀ x, Decision (P x)} (m : gmap K V) :
  size (filter P m) = length (filter P (map_to_list m)).
Proof.
  rw map_filter_alt -length_map_to_list map_to_list_to_map //.
  eapply sublist_NoDup; first apply (NoDup_fst_map_to_list m).
  apply fmap_sublist, sublist_filter.
Qed.

Lemma length_filter_fmap {A B} (f : A → B) (P : B → Prop) `{!∀ x, Decision (P x)} (l : list A) :
  length (filter P (f <$> l)) = length (filter (λ x, P (f x)) l).
Proof.
  induction l as [|x l IH]; csimpl; first done. rw !filter_cons.
  by case_decide; rw /= IH.
Qed.

(** ** The ghost sweep (ghost.go) *)

(** What the sweeper reaches: the userspace store, the two kernel maps, the
    counters and the gauge; [None] is a seam that is not wired. *)
Record GhostSweeper (M : Type) := mkSweeper {
  sw_meta : M; sw_macs : kmap Z Z; sw_flows : option (kmap FlowKey (list FlowMetrics));
  sw_settler : option GlobalState; sw_gauge : option Z }.
Arguments mkSweeper {_} _ _ _ _ _.
Arguments sw_meta {_} _.
Arguments sw_macs {_} _.
Arguments sw_flows {_} _.
Arguments sw_settler {_} _.
Arguments sw_gauge {_} _.

(** What [report] records: TTL evictions, residual flows, settled rows and the
    ghosts still inside their grace. *)
Record report := mkReport {
  r_evicted : Z; r_residual : Z; r_settled : Z; r_active : Z }.

Section sweep.
Context `{GoRange} `{MetaStore M} {Err : Type}.
Variables faultM faultF : nat → option Err.
Variable iterErr : option Err.
Variable routers : option RouterMap.

Definition classifyRow (now : Z) (acc : list Z * Z) (mac : Z) (meta : TenantMeta)
    : list Z * Z * bool :=
  let '(expired, active) := acc in
  if decide (DeleteAt meta = 0) then (expired, active, true)
  else if decide (now < DeleteAt meta) then (expired, active + 1, true)
  else (expired ++ [mac], active, true).
Definition classify (now : Z) (meta : M) : list Z * Z :=
  rangeWhile (classifyRow now) ([], 0) (ms_Range meta).

Definition deleteKernelMAC (acc : kmap Z Z * gmap Z ()) (mac : Z) : kmap Z Z * gmap Z () :=
  let '(km, swept) := acc in
  match macTenantEvictor_Delete faultM mac km with
  | (km, Some _) => (km, swept)
  | (km, None) => (km, <[mac := ()]> swept)
  end.
Definition deleteKernelMACs (expired : list Z) (km : kmap Z Z) : kmap Z Z * gmap Z () :=
  foldl deleteKernelMAC (km, ∅) expired.

Definition evictResidualFlows (swept : gmap Z ())
    (flows : option (kmap FlowKey (list FlowMetrics)))
    : option (kmap FlowKey (list FlowMetrics)) * Z :=
  match flows with
  | None => (None, 0)
  | Some km =>
      if decide (size swept = 0%nat) then (Some km, 0)
      else let '(km, n, _) := DeleteFlowsForMACs faultF iterErr swept km in (Some km, n)
  end.

Definition collectMeta (meta : M) (metas : gmap Z TenantMeta) (row : Z * ()) : gmap Z TenantMeta :=
  match ms_Lookup row.1 meta with Some m => <[row.1 := m]> metas | None => metas end.
Definition sweptResolver (swept : gmap Z ()) (meta : M) : FlowKey → option Owner :=
  let metas := foldl (collectMeta meta) ∅ (go_range swept) in
  SettleResolver routers (λ k, metas !! VMMAC k).
Definition settleSwept (swept : gmap Z ()) (meta : M) (settler : option GlobalState)
    : option GlobalState * Z :=
  match settler with
  | None => (None, 0)
  | Some g =>
      if decide (size swept = 0%nat) then (Some g, 0)
      else let '(g, n) := Settle SettleEvict (sweptResolver swept meta) g in (Some g, n)
  end.

Definition deleteUserspace (macs : list (Z * ())) (meta : M) : M :=
  foldl (λ m row, ms_Delete row.1 m) meta macs.

Definition refreshMacGauge (meta : M) (gauge : option Z) : option Z :=
  match gauge with None => None | Some _ => Some (ms_Len meta) end.

Definition sweep (now : Z) (w : GhostSweeper M) : GhostSweeper M * report :=
  let '(expired, active) := classify now (sw_meta w) in
  let '(macs, swept) := deleteKernelMACs expired (sw_macs w) in
  let '(flows, residual) := evictResidualFlows swept (sw_flows w) in
  let '(settler, settled) := settleSwept swept (sw_meta w) (sw_settler w) in
  let meta := deleteUserspace (go_range swept) (sw_meta w) in
  (mkSweeper meta macs flows settler (refreshMacGauge meta (sw_gauge w)),
   mkReport (Z.of_nat (size swept)) residual settled active).

(** ** Phase by phase *)

(** The state a MAC's entry is in at time [now]. *)
Definition expired_at (now : Z) (m : TenantMeta) : Prop := DeleteAt m ≠ 0 ∧ DeleteAt m ≤ now.
Definition graced_at (now : Z) (m : TenantMeta) : Prop := DeleteAt m ≠ 0 ∧ now < DeleteAt m.
#[export] Instance expired_at_dec now m : Decision (expired_at now m).
Proof. rw /expired_at. apply _. Defined.
#[export] Instance graced_at_dec now m : Decision (graced_at now m).
Proof. rw /graced_at. apply _. Defined.

Lemma classify_rows now l acc :
  rangeWhile (classifyRow now) acc l =
  (acc.1 ++ (filter (λ kv, expired_at now kv.2) l).*1,
   acc.2 + Z.of_nat (length (filter (λ kv, graced_at now kv.2) l))).
Proof.
  induction l as [|[mac m] l IH] in acc |- *; destruct acc as [ex n].
  { simpl. by rw app_nil_r Z.add_0_r. }
  cbn [rangeWhile classifyRow]. rw !filter_cons /=. unfold expired_at, graced_at in *.
  repeat case_decide; try lia; rw IH; csimpl; f_equal; rewrite -?app_assoc //; lia.
Qed.
Lemma classify_spec now meta : ms_ok meta →
  (∀ mac, mac ∈ (classify now meta).1 ↔
     ∃ m, ms_view meta !! mac = Some m ∧ expired_at now m) ∧
  (classify now meta).2 = Z.of_nat (size (filter (λ kv, graced_at now kv.2) (ms_view meta))).
Proof.
  intros Hok. rw /classify classify_rows /=. split.
  - intros mac. rw (ms_Range_view meta Hok) list_elem_of_fmap. split.
    + intros ([k m] & -> & [? Hm%elem_of_map_to_list]%list_elem_of_filter). by exists m.
    + intros (m & Hm & Hex). exists (mac, m). split; first done.
      apply list_elem_of_filter. by split; last apply elem_of_map_to_list.
  - rw (ms_Range_view meta Hok) size_map_filter. lia.
Qed.


(** The kernel deletes: a MAC is swept exactly when its call succeeded. *)
Definition swept_ok (ex : list Z) (k0 : kmap Z Z) (acc : kmap Z Z * gmap Z ()) : Prop :=
  (∀ mac, is_Some (acc.2 !! mac) → mac ∈ ex) ∧
  (∀ mac, krows acc.1 !! mac = if decide (is_Some (acc.2 !! mac)) then None else krows k0 !! mac) ∧
  (∃ new, khist acc.1 = khist k0 ++ new ∧ Forall (λ m, m ⊆ krows k0) new).
Lemma deleteKernelMACs_ok ex k0 : swept_ok ex k0 (deleteKernelMACs ex k0).
Proof.
  apply (foldl_inv (swept_ok ex k0)).
  { split_and!; simpl; [by intros ? [? ?%lookup_empty_Some]| |by exists []; rw app_nil_r].
    intros mac. by rw lookup_empty. }
  intros [km sw] mac Hin (Hex & Hk & new & Hh & Hnew). simpl in *.
  rw /deleteKernelMAC /macTenantEvictor_Delete. pose proof (idempotentDelete_spec faultM mac km) as Hd.
  assert (krows km ⊆ krows k0) as Hsub.
  { apply map_subseteq_spec. intros k v. rw Hk. by case_decide. }
  destruct (idempotentDelete faultM mac km) as [km' e]. destruct Hd as (_ & Hr & _ & Hh').
  destruct e as [e|]; (split_and!; [..|exists (new ++ [krows km']);
    rewrite /= Hh' Hh app_assoc Forall_app Forall_singleton Hr]); simpl; try done.
  - by intros k; rw Hr Hk.
  - intros k. destruct (decide (k = mac)) as [->|]; first done.
    rw lookup_insert_ne //. apply Hex.
  - intros k. destruct (decide (k = mac)) as [->|].
    + rw Hr lookup_delete_eq lookup_insert_eq. by destruct (decide _) as [|[]].
    + rw Hr lookup_delete_ne // lookup_insert_ne // Hk //.
  - split_and!; try done. etrans; [apply delete_subseteq|done].
Qed.
Lemma deleteKernelMACs_all ex k0 mac : (∀ i, faultM i = None) →
  mac ∈ ex → is_Some ((deleteKernelMACs ex k0).2 !! mac).
Proof.
  intros Hf. rw /deleteKernelMACs. generalize (∅ : gmap Z ()). intros sw Hin.
  cut (∀ l acc, (mac ∈ l ∨ is_Some (acc.2 !! mac)) → is_Some ((foldl deleteKernelMAC acc l).2 !! mac)).
  { intros Hc. apply Hc. by left. }
  intros l. induction l as [|x l IH]; intros [km s] Hor.
  { destruct Hor as [?%elem_of_nil|]; done. }
  cbn [foldl]. apply IH. rw /deleteKernelMAC /macTenantEvictor_Delete.
  pose proof (idempotentDelete_spec faultM x km) as Hd.
  destruct (idempotentDelete faultM x km) as [km' e]. destruct Hd as (He & _).
  rw Hf in He. subst e. simpl in *. rw elem_of_cons in Hor.
  destruct (decide (mac = x)) as [->|]; first (right; by rw lookup_insert_eq).
  destruct Hor as [[?|?]|?]; [done|by left|right]. by rw lookup_insert_ne.
Qed.

(** The userspace deletes. *)
Lemma deleteUserspace_view macs meta : ms_ok meta →
  ms_ok (deleteUserspace macs meta) ∧
  ∀ k, ms_view (deleteUserspace macs meta) !! k =
       if decide (k ∈ macs.*1) then None else ms_view meta !! k.
Proof.
  rw /deleteUserspace. induction macs as [|[mac []] macs IH] in meta |- *; intros Hok; csimpl.
  { done. }
  destruct (ms_Delete_view meta mac Hok) as [Hok' Hv]. destruct (IH _ Hok') as [H1 H2].
  split; first done. intros k. rw H2 Hv. destruct (decide (k = mac)) as [->|].
  - rw lookup_delete_eq. destruct (decide (mac ∈ mac :: _)) as [_|[]]; last by left.
    by case_decide.
  - rw lookup_delete_ne //. apply decide_ext. rw elem_of_cons. naive_solver.
Qed.
Lemma elem_of_range_keys (sw : gmap Z ()) k : k ∈ (go_range sw).*1 ↔ is_Some (sw !! k).
Proof.
  rw list_elem_of_fmap. split.
  - intros ([? []] & -> & ?%elem_of_go_range). by eexists.
  - intros [[] ?]. exists (k, ()). by rw elem_of_go_range.
Qed.

(** The fold: a swept MAC still resolves to the metadata it is exposed under. *)
Lemma collectMeta_lookup l meta metas mac : ms_ok meta →
  foldl (collectMeta meta) metas l !! mac =
  if decide (mac ∈ l.*1) then match ms_view meta !! mac with Some m => Some m | None => metas !! mac end
  else metas !! mac.
Proof.
  intros Hok. induction l as [|[k []] l IH] in metas |- *; csimpl; first done.
  rw IH /collectMeta /= (ms_Lookup_view _ _ Hok).
  destruct (decide (mac = k)) as [->|Hne].
  - rw (decide_True (P := k ∈ k :: _)); first by left.
    destruct (ms_view meta !! k); last by case_decide. rw lookup_insert_eq. by case_decide.
  - rw (decide_ext (mac ∈ k :: l.*1) (mac ∈ l.*1)); first (rw elem_of_cons; naive_solver).
    destruct (ms_view meta !! k); last done. by rw lookup_insert_ne.
Qed.
Lemma sweptResolver_spec swept meta k : ms_ok meta →
  sweptResolver swept meta k =
  if decide (is_Some (swept !! VMMAC k))
  then SettleResolver routers (λ k, ms_view meta !! VMMAC k) k else None.
Proof.
  intros Hok. rw /sweptResolver /SettleResolver collectMeta_lookup // lookup_empty.
  rw (decide_ext (VMMAC k ∈ _) (is_Some (swept !! VMMAC k))); first apply elem_of_range_keys.
  case_decide; last done. by destruct (ms_view meta !! VMMAC k).
Qed.

Section one_pass.
Variables (now : Z) (w : GhostSweeper M).
Hypothesis Hok : ms_ok (sw_meta w).
Let expired := (classify now (sw_meta w)).1.
Let swept := (deleteKernelMACs expired (sw_macs w)).2.

Lemma swept_expired mac : is_Some (swept !! mac) →
  ∃ m, ms_view (sw_meta w) !! mac = Some m ∧ expired_at now m.
Proof.
  intros Hs. apply classify_spec; first done. by apply (deleteKernelMACs_ok expired (sw_macs w)).
Qed.
Lemma sweep_fields :
  sw_meta (sweep now w).1 = deleteUserspace (go_range swept) (sw_meta w) ∧
  sw_macs (sweep now w).1 = (deleteKernelMACs expired (sw_macs w)).1 ∧
  sw_settler (sweep now w).1 = (settleSwept swept (sw_meta w) (sw_settler w)).1 ∧
  r_evicted (sweep now w).2 = Z.of_nat (size swept) ∧
  r_active (sweep now w).2 = (classify now (sw_meta w)).2 ∧
  sw_flows (sweep now w).1 = (evictResidualFlows swept (sw_flows w)).1.
Proof.
  rw /swept /expired /sweep. destruct (classify now (sw_meta w)) as [ex act].
  simpl. destruct (deleteKernelMACs ex (sw_macs w)) as [macs sw]. simpl.
  destruct (evictResidualFlows sw (sw_flows w)), (settleSwept sw (sw_meta w) (sw_settler w)).
  done.
Qed.
Lemma swept_view mac :
  ms_view (sw_meta (sweep now w).1) !! mac =
  if decide (is_Some (swept !! mac)) then None else ms_view (sw_meta w) !! mac.
Proof.
  destruct sweep_fields as (-> & _). rw (proj2 (deleteUserspace_view _ _ Hok)).
  apply decide_ext, elem_of_range_keys.
Qed.
End one_pass.

(** One sweep removes, from the kernel map and from the userspace store alike,
    exactly the expired ghosts whose kernel delete succeeded: live entries,
    ghosts inside their grace and MACs whose delete failed stay in both.  When no
    call fails every expired ghost is gone. *)
Theorem sweep_exact now w : ms_ok (sw_meta w) →
  let '(w', r) := sweep now w in
  ∃ gone : gset Z,
    (∀ mac, mac ∈ gone → ∃ m, ms_view (sw_meta w) !! mac = Some m ∧ expired_at now m) ∧
    ms_ok (sw_meta w') ∧
    (∀ mac, ms_view (sw_meta w') !! mac =
       if decide (mac ∈ gone) then None else ms_view (sw_meta w) !! mac) ∧
    (∀ mac, krows (sw_macs w') !! mac =
       if decide (mac ∈ gone) then None else krows (sw_macs w) !! mac) ∧
    r_evicted r = Z.of_nat (size gone) ∧
    r_active r = Z.of_nat (size (filter (λ kv, graced_at now kv.2) (ms_view (sw_meta w)))) ∧
    ((∀ i, faultM i = None) →
       ∀ mac m, ms_view (sw_meta w) !! mac = Some m → expired_at now m → mac ∈ gone).
Proof.
  intros Hok. pose proof (sweep_fields now w) as (Em & Ek & _ & Ee & Ea & _).
  pose proof (swept_view now w Hok) as Hv. pose proof (swept_expired now w Hok) as Hex.
  destruct (sweep now w) as [w' r]; simpl in *.
  set (sw := deleteKernelMACs (classify now (sw_meta w)).1 (sw_macs w)) in *.
  assert (∀ mac, mac ∈ dom sw.2 ↔ is_Some (sw.2 !! mac)) as Hd by (intros; apply elem_of_dom).
  exists (dom sw.2). split_and!.
  - intros mac ?%Hd. by apply Hex.
  - rw Em. by apply deleteUserspace_view.
  - intros mac. rw Hv. by apply decide_ext.
  - intros mac. rw Ek (proj1 (proj2 (deleteKernelMACs_ok _ (sw_macs w)))). by apply decide_ext.
  - by rw Ee size_dom.
  - rw Ea. by apply classify_spec.
  - intros Hf mac m Hm He. apply Hd, deleteKernelMACs_all; first done.
    apply classify_spec; first done. by exists m.
Qed.

(** The kernel's MACs stay within the userspace store's at every instant of a
    sweep: through each kernel delete, with the store still whole, and through
    each userspace delete after them, in whatever order the map iterates. *)
Theorem sweep_kernel_subset now w : ms_ok (sw_meta w) →
  dom (krows (sw_macs w)) ⊆ dom (ms_view (sw_meta w)) →
  let w' := (sweep now w).1 in
  let swept := (deleteKernelMACs (classify now (sw_meta w)).1 (sw_macs w)).2 in
  (∃ new, khist (sw_macs w') = khist (sw_macs w) ++ new ∧
     Forall (λ rows, dom rows ⊆ dom (ms_view (sw_meta w))) new) ∧
  (∀ done_ rest, go_range swept = done_ ++ rest →
     dom (krows (sw_macs w')) ⊆ dom (ms_view (deleteUserspace done_ (sw_meta w)))) ∧
  sw_meta w' = deleteUserspace (go_range swept) (sw_meta w).
Proof.
  intros Hok Hsub. cbn zeta. pose proof (sweep_fields now w) as (-> & -> & _).
  destruct (deleteKernelMACs_ok (classify now (sw_meta w)).1 (sw_macs w)) as (_ & Hk & new & Hh & Hn).
  split_and!; last done.
  - exists new. split; first done. eapply Forall_impl; first exact Hn.
    intros rows Hr%subseteq_dom. simpl. set_solver.
  - intros l1 l2 El mac [v Hv]%elem_of_dom. rw Hk in Hv. case_decide as E; first done.
    apply elem_of_dom. rw (proj2 (deleteUserspace_view l1 _ Hok)).
    rw decide_False; last by (apply elem_of_dom, Hsub, elem_of_dom; exists v).
    intros Hin. apply E, elem_of_range_keys. rw El fmap_app. apply elem_of_app. by left.
Qed.

(** The counters' part of a sweep, as a history of the counters. *)
Lemma sweep_settles now w g : ms_ok (sw_meta w) → sw_settler w = Some g →
  let w' := (sweep now w).1 in
  let swept := (deleteKernelMACs (classify now (sw_meta w)).1 (sw_macs w)).2 in
  ∃ g', sw_settler w' = Some g' ∧
    (size swept ≠ 0%nat → g' = (Settle SettleEvict (sweptResolver swept (sw_meta w)) g).1) ∧
    (size swept = 0%nat → g' = g ∧ sw_meta w' = sw_meta w).
Proof.
  intros Hok Hg. cbn zeta. pose proof (sweep_fields now w) as (-> & _ & -> & _).
  set (swept := (deleteKernelMACs _ _).2). rw /settleSwept Hg.
  destruct (decide (size swept = 0%nat)) as [E|E].
  - eexists. split_and!; [done|done|]. intros _. split; first done.
    by rw (map_size_empty_inv swept) // go_range_empty.
  - destruct (Settle _ _ _) as [g' n]. by exists g'.
Qed.

Lemma settle_pick_row now w g k c : ms_ok (sw_meta w) →
  let swept := (deleteKernelMACs (classify now (sw_meta w)).1 (sw_macs w)).2 in
  counts (Settle SettleEvict (sweptResolver swept (sw_meta w)) g).1 !! k = Some c →
  counts g !! k = Some c ∧ ms_view (sw_meta (sweep now w).1) !! VMMAC k = ms_view (sw_meta w) !! VMMAC k.
Proof.
  intros Hok. cbn zeta. rw Settle_counts sweptResolver_spec //.
  destruct (counts g !! k) as [c'|]; simpl; last done. rw swept_view //.
  case_decide as Hs; last done.
  destruct (swept_expired now w Hok _ Hs) as (m & Hm & _). by rw /SettleResolver Hm.
Qed.
(** C32: A sweep moves no byte.  Its fold and its metadata deletions are a history
    of the counters (Exposure) that counts no traffic, so every series of every
    tier keeps its value; the rows left are those of MACs that were not swept,
    unchanged and under an unchanged attribution. *)
Theorem sweep_moves_no_byte now w g : ms_ok (sw_meta w) → sw_settler w = Some g →
  let w' := (sweep now w).1 in
  let attr := collectorOwner (sw_meta w) routers in
  let attr' := collectorOwner (sw_meta w') routers in
  ∃ g' evs, sw_settler w' = Some g' ∧
    valid (mkConfig attr g) evs ∧ run (mkConfig attr g) evs = mkConfig attr' g' ∧
    (∀ ev c, ev ∈ evs → traffic c ev = None) ∧
    same_values (exposedTenant attr' g') (exposedTenant attr g) ∧
    same_values (exposedServer attr' g') (exposedServer attr g) ∧
    same_values (exposedTotal attr' g') (exposedTotal attr g) ∧
    (∀ k c, counts g' !! k = Some c → counts g !! k = Some c ∧
       ms_view (sw_meta w') !! VMMAC k = ms_view (sw_meta w) !! VMMAC k).
Proof.
  intros Hok Hg. cbn zeta. destruct (sweep_settles now w g Hok Hg) as (g' & Hg' & Hs & He).
  pose proof (settle_pick_row now w g) as Hrows. cbn zeta in Hrows.
  set (swept := (deleteKernelMACs _ _).2) in *.
  destruct (decide (size swept = 0%nat)) as [E|E].
  { destruct (He E) as [-> ->]. exists g, []. split_and!; try done.
    by intros ? ? ?%elem_of_nil. }
  specialize (Hs E). set (attr := collectorOwner (sw_meta w) routers).
  set (attr' := collectorOwner (sw_meta (sweep now w).1) routers).
  assert (ms_ok (sw_meta (sweep now w).1)) as Hok'.
  { destruct (sweep_fields now w) as (-> & _). by apply deleteUserspace_view. }
  assert (∀ k o, sweptResolver swept (sw_meta w) k = Some o → attr k = o) as Hagree.
  { apply SettleResolver_agrees. intros k m. rw collectMeta_lookup // lookup_empty.
    case_decide; last done. rw ms_Lookup_view //. by destruct (ms_view (sw_meta w) !! _). }
  assert (∀ k c, counts g' !! k = Some c → attr' k = attr k ∨ total_of c = acc_zero) as Hfold.
  { intros k c. rw Hs. intros [_ Hv]%Hrows; last done. left. by apply collectorOwner_ext. }
  destruct (Settle_conserves attr _ Hagree SettleEvict g) as (Ht & Hsv & Htot).
  rw -Hs in Ht, Hsv, Htot.
  exists g', [ESettle SettleEvict (sweptResolver swept (sw_meta w)); EReattribute attr'].
  split_and!; try done.
  - split; [exact Hagree|]. split; [|done]. simpl. by rw -Hs.
  - by rw Hs.
  - intros ev c [->|[->|[]%elem_of_nil]%elem_of_cons]%elem_of_cons; done.
  - rw -Ht. by apply reattribute_tenant.
  - rw -Hsv. by apply reattribute_server.
  - rw -Htot. by apply reattribute_total.
  - intros k c. rw Hs. by apply Hrows.
Qed.

(** The residual flows: whatever fails, only flows of the given MACs leave the
    telemetry map; when the pass reports no error every one of them is gone and
    the count is exact. *)
Theorem residual_flows_exact macs km :
  let '(km', n, err) := DeleteFlowsForMACs faultF iterErr macs km in
  krows km' ⊆ krows km ∧
  (∀ k, krows km' !! k = krows km !! k ∨ is_Some (macs !! VMMAC k)) ∧
  (err = None →
     (∀ k, krows km' !! k = if decide (is_Some (macs !! VMMAC k)) then None else krows km !! k) ∧
     n = Z.of_nat (size (filter (λ kv, is_Some (macs !! VMMAC kv.1)) (krows km)))) ∧
  (iterErr = None → (∀ i, faultF i = None) → err = None).
Proof.
  rw /DeleteFlowsForMACs. destruct iterErr as [e|] eqn:Ei.
  { split_and!; try done. intros k. by left. }
  pose proof (deleteFlow_fold faultF (toDelete macs (krows km)) km 0 None) as Hf.
  destruct (foldl _ _ _) as [[km' n] err]. destruct Hf as (H1 & H2 & H3 & H4).
  split_and!; [done| | |by intros _ ?; apply H4].
  - intros k. destruct (decide (k ∈ toDelete macs (krows km))) as [[? _]%elem_of_toDelete|];
      [by right|by left; apply H2].
  - intros E. destruct (H3 E) as (_ & Hgone & ->). split.
    + intros k. destruct (decide (k ∈ toDelete macs (krows km))) as [Hin|Hn].
      * rw Hgone //. apply elem_of_toDelete in Hin as [? _]. by case_decide.
      * rw H2 //. case_decide; last done. apply eq_None_not_Some. intros Hr. apply Hn.
        by apply elem_of_toDelete.
    + rw size_map_filter /toDelete Z.add_0_l. f_equal.
      transitivity (length (filter (λ k, is_Some (macs !! VMMAC k)) (map_to_list (krows km)).*1)).
      { apply Permutation_length, filter_Permutation, fmap_Permutation, go_range_perm. }
      by rw length_filter_fmap.
Qed.
End sweep.

(** ** A sweep of four ports: live, in grace and two expired *)

Module GcExamples.
#[local] Existing Instance list_range.
Import StateExamples.

Definition port (p s : string) (at_ : Z) : TenantMeta := mkMeta p s s "public" false at_.
Definition macG : MacAddr := mkMac 250 22 62 0 0 3.
Definition macL : MacAddr := mkMac 250 22 62 0 0 4.
Definition store : ShardedMetadataMap :=
  ms_Insert (MACKey macA) (port "alice" "srv-1" 50)
   (ms_Insert (MACKey macB) (port "bob" "srv-2" 60)
    (ms_Insert (MACKey macG) (port "carol" "srv-3" 900)
     (ms_Insert (MACKey macL) (port "dave" "srv-4" 0) ms_new))).
Lemma gc_store_ok : ms_ok store.
Proof. repeat (apply ms_Insert_view). apply ms_new_ok. Qed.

Definition kernel_macs : kmap Z Z :=
  mkKmap (list_to_map [(MACKey macA, 1); (MACKey macB, 2); (MACKey macG, 3); (MACKey macL, 4)]) 0 [].
Definition kernel_flows : kmap FlowKey (list FlowMetrics) :=
  mkKmap (list_to_map [(flowA, [metered 1000 10 5 1]); (flowB, [metered 70 7 5 2])]) 0 [].
Definition counters : GlobalState :=
  ApplyDelta flowB (metered 70 7 5 2) (ApplyDelta flowA (metered 1000 10 5 1) New).
Definition agent : GhostSweeper ShardedMetadataMap :=
  mkSweeper store kernel_macs (Some kernel_flows) (Some counters) (Some 4).
Definition calls_succeed : nat → option string := λ _, None.
(** The delete of the second expired MAC fails. *)
Definition second_fails : nat → option string := λ n, if decide (n = 1%nat) then Some "EBUSY" else None.

Example sweep_counts :
  (sweep second_fails calls_succeed None None 100 agent).2 = mkReport 1 2 2 1.
Proof. by vm_compute. Qed.

Lemma sweep_exact_witness :
  let w' := (sweep calls_succeed calls_succeed None None 100 agent).1 in
  ms_view (sw_meta w') !! MACKey macB = None ∧ krows (sw_macs w') !! MACKey macB = None.
Proof.
  cbn zeta. pose proof (sweep_exact calls_succeed calls_succeed None None 100 agent gc_store_ok) as Hs.
  destruct (sweep _ _ _ _ _ _) as [w' r]. destruct Hs as (gone & _ & _ & Hv & Hk & _ & _ & Hall).
  assert (MACKey macB ∈ gone) as Hin.
  { eapply Hall; [done| |]; [by vm_compute|split; [done|by vm_compute]]. }
  cbn [fst]. rewrite Hv Hk. by rewrite !decide_True.
Defined.

Lemma sweep_kernel_subset_witness :
  let w' := (sweep second_fails calls_succeed None None 100 agent).1 in
  dom (krows (sw_macs w')) ⊆ dom (ms_view (sw_meta w')).
Proof.
  cbn zeta. assert (dom (krows (sw_macs agent)) ⊆ dom (ms_view (sw_meta agent))) as Hsub.
  { apply (bool_decide_unpack _). by vm_compute. }
  destruct (sweep_kernel_subset second_fails calls_succeed None None 100 agent gc_store_ok Hsub)
    as (_ & Hsteps & ->).
  exact (Hsteps _ [] (eq_sym (app_nil_r _))).
Defined.

Lemma sweep_moves_no_byte_witness :
  let w' := (sweep second_fails calls_succeed None None 100 agent).1 in
  ∃ g', sw_settler w' = Some g' ∧
    same_values (exposedTenant (collectorOwner (sw_meta w') None) g')
      (exposedTenant (collectorOwner store None) counters).
Proof.
  cbn zeta.
  destruct (sweep_moves_no_byte second_fails calls_succeed None None 100 agent counters gc_store_ok eq_refl)
    as (g' & _ & Hg' & _ & _ & _ & Ht & _).
  exact (ex_intro _ g' (conj Hg' Ht)).
Defined.

Lemma residual_flows_exact_witness :
  let '(km', n, err) := DeleteFlowsForMACs calls_succeed None {[MACKey macA := ()]} kernel_flows in
  err = None ∧ n = 2 ∧ krows km' = ∅.
Proof.
  pose proof (residual_flows_exact calls_succeed None {[MACKey macA := ()]} kernel_flows) as Hr.
  destruct (DeleteFlowsForMACs _ _ _ _) as [[km' n] err]. destruct Hr as (Hsub & _ & Hok & Herr).
  specialize (Herr eq_refl (λ _, eq_refl)). destruct (Hok Herr) as [Hk ->].
  split; [done|]. split; [by vm_compute|].
  apply map_empty. intros k. rewrite Hk. case_decide as Hn; first done.
  destruct (decide (k = flowA)) as [->|]; first (destruct Hn; by exists ()).
  destruct (decide (k = flowB)) as [->|]; first (destruct Hn; by exists ()).
  apply not_elem_of_list_to_map_1. intros [->|[->|[]%elem_of_nil]%elem_of_cons]%elem_of_cons; done.
Defined.
End GcExamples.
