(* ===== verification/Pressure.v ===== *)
(** * Pressure relief (internal/gc/pressure.go)

    The scraper hands over the readings it has just accounted; above the high
    watermark a relief cycle evicts the oldest flows, a bounded number per
    pass, until the population is at the low watermark. *)
From S2P Require Import Prelude GoHeap Bpf KernelMap Scraper Gc.
From Stdlib Require Import SpecFloat.

(** ** Watermarks: [int(w * float64(max))] in binary64 arithmetic.  Go leaves the
    conversion of an infinity or a NaN to the platform, modelled as 0; an infinity
    is refused by the configuration, a NaN is not (file Config). *)
Definition float64_of (n : Z) : spec_float := binary_normalize 53 1024 n 0 false.
Definition int_of_float64 (f : spec_float) : Z :=
  match f with
  | S754_finite s m e =>
      let v := if decide (0 ≤ e) then Z.pos m * 2 ^ e else Z.pos m / 2 ^ (- e) in
      if s then - v else v
  | _ => 0
  end.
Definition watermark (w : spec_float) (maxEntries : Z) : Z :=
  int_of_float64 (SFmul 53 1024 w (float64_of maxEntries)).

Record PressureParams := mkParams {
  PressureHighWatermark : spec_float; PressureLowWatermark : spec_float; PressureMaxPerPass : Z }.

(** ** The k oldest flows *)

Record flowAge := mkAge { fa_key : FlowKey; fa_seen : Z }.
Definition ageHeap_Less (a b : flowAge) : bool := bool_decide (fa_seen b < fa_seen a).

Section select.
Context `{GoRange}.

Definition selectStep (k : Z) (h : list flowAge) (row : FlowKey * FlowMetrics) : list flowAge :=
  let a := mkAge row.1 (LastSeenNs row.2) in
  if decide (Z.of_nat (length h) < k) then Push ageHeap_Less a h
  else match h with
       | [] => h
       | top :: rest => if decide (fa_seen a < fa_seen top) then Fix ageHeap_Less 0 (a :: rest) else h
       end.
Definition selectOldest (drained : gmap FlowKey FlowMetrics) (k : Z) : list FlowKey :=
  if decide (k ≤ 0) then [] else fa_key <$> foldl (selectStep k) [] (go_range drained).

Definition ageRank (a : flowAge) : Z := - fa_seen a.
Lemma ageLess_rank a b : ageHeap_Less a b = bool_decide (ageRank a < ageRank b).
Proof. apply bool_decide_ext. rw /ageRank. lia. Qed.
Lemma age_root top rest a : heap ageRank (top :: rest) → a ∈ top :: rest → fa_seen a ≤ fa_seen top.
Proof.
  intros Hh [i Hi]%list_elem_of_lookup.
  pose proof (heap_root ageRank (top :: rest) i Hh (lookup_lt_Some _ _ _ Hi)) as Hr.
  rw /rk Hi /= /ageRank in Hr. lia.
Qed.

(** What the loop keeps: a heap of the oldest rows seen so far. *)
Definition kept (k : Z) (seen : list (FlowKey * FlowMetrics)) (h : list flowAge) : Prop :=
  heap ageRank h ∧ Z.of_nat (length h) ≤ k ∧
  ∃ rest, (λ kv, mkAge kv.1 (LastSeenNs kv.2)) <$> seen ≡ₚ h ++ rest ∧
    (rest ≠ [] → Z.of_nat (length h) = k) ∧ ∀ a b, a ∈ h → b ∈ rest → fa_seen a ≤ fa_seen b.

Lemma selectStep_kept k seen h row : 0 < k → kept k seen h → kept k (seen ++ [row]) (selectStep k h row).
Proof.
  intros Hk (Hh & Hlen & rest & Hp & Hfull & Hord). rw /selectStep.
  set (a := mkAge row.1 (LastSeenNs row.2)).
  assert (∀ h' rest', a :: h ++ rest ≡ₚ h' ++ rest' →
    (λ kv, mkAge kv.1 (LastSeenNs kv.2)) <$> (seen ++ [row]) ≡ₚ h' ++ rest') as Hadd.
  { intros h' rest' <-. rw fmap_app Hp. csimpl. by rw Permutation_app_comm. }
  case_decide as Hl.
  - pose proof (Push_perm ageHeap_Less a h) as Hpp.
    split; [by apply Push_heap; first apply ageLess_rank|]. split.
    { rw Hpp /=. lia. }
    exists rest. split; [apply Hadd; by rw Hpp|]. destruct rest as [|b rest].
    + split; [done|by intros ? ? ? ?%elem_of_nil].
    + specialize (Hfull ltac:(done)). lia.
  - destruct h as [|top tl]; first by (simpl in Hl; lia).
    assert (Z.of_nat (length (top :: tl)) = k) as Hfl by lia.
    assert (∀ x, x ∈ top :: tl → fa_seen x ≤ fa_seen top) as Htop by (by intros; eapply age_root).
    case_decide as Hlt.
    + pose proof (Fix_root_perm ageHeap_Less a tl) as Hpp.
      split; [by eapply Fix_root_heap; first apply ageLess_rank|]. split.
      { rw Hpp. simpl in *. lia. }
      exists (top :: rest). split_and!.
      * apply Hadd. rw Hpp /=. by rw -Permutation_middle.
      * intros _. by rw Hpp.
      * intros x b. rw Hpp !elem_of_cons.
        assert (∀ b, b ∈ rest → fa_seen top ≤ fa_seen b) by (intros; apply Hord; [left|done]).
        intros [->|Hx] [->|Hb]; [simpl in *; lia|etrans; [|by eauto]; lia| |].
        -- apply Htop. by right.
        -- apply Hord; [by right|done].
    + split; first done. split; first lia. exists (a :: rest). split_and!.
      * apply Hadd. by rw -Permutation_middle.
      * done.
      * intros x b Hx [->|Hb]%elem_of_cons; last by apply Hord.
        specialize (Htop _ Hx). lia.
Qed.
Lemma select_kept k rows : 0 < k → kept k rows (foldl (selectStep k) [] rows).
Proof.
  intros Hk. induction rows as [|row rows IH] using rev_ind.
  - split; first by intros ? ?; simpl in *; lia. split; first (simpl; lia). exists [].
    split_and!; [done|done|by intros ? ? ? ?%elem_of_nil].
  - rw foldl_app /=. by apply selectStep_kept.
Qed.

Lemma selectOldest_gen (drained : gmap FlowKey FlowMetrics) k :
  let vs := selectOldest drained k in
  NoDup vs ∧ (∀ key, key ∈ vs → is_Some (drained !! key)) ∧
  Z.of_nat (length vs) = Z.max 0 (Z.min k (Z.of_nat (size drained))) ∧
  (∀ key v key' v', key ∈ vs → drained !! key = Some v → key' ∉ vs → drained !! key' = Some v' →
     LastSeenNs v ≤ LastSeenNs v').
Proof.
  cbn zeta. rw /selectOldest. case_decide as Hk.
  { split_and!; [apply NoDup_nil_2|by intros ? ?%elem_of_nil|simpl; lia|by intros ? ? ? ? ?%elem_of_nil]. }
  destruct (select_kept k (go_range drained)) as (_ & Hlen & rest & Hp & Hfull & Hord); first lia.
  generalize dependent (foldl (selectStep k) [] (go_range drained)). intros h Hlen Hp Hfull Hord.
  assert ((go_range drained).*1 ≡ₚ (fa_key <$> h) ++ (fa_key <$> rest)) as Hkeys.
  { rw -fmap_app -Hp -list_fmap_compose. done. }
  assert (NoDup ((fa_key <$> h) ++ (fa_key <$> rest))) as Hnd by (rw -Hkeys; apply NoDup_go_range).
  assert (∀ a, a ∈ h ++ rest → ∃ v, drained !! fa_key a = Some v ∧ LastSeenNs v = fa_seen a) as Hrow.
  { intros a. rw -Hp. intros ([key v] & -> & ?%elem_of_go_range)%list_elem_of_fmap. by exists v. }
  split_and!.
  - by apply NoDup_app in Hnd as [? _].
  - intros key (a & -> & Ha)%list_elem_of_fmap.
    destruct (Hrow a) as (v & Hv & _); [apply elem_of_app; by left|by exists v].
  - rw length_fmap. pose proof (Permutation_length Hp) as Hl.
    rw length_app length_fmap length_go_range in Hl.
    destruct rest; [simpl in Hl; lia|]. specialize (Hfull ltac:(done)). lia.
  - intros key v key' v' (a & -> & Ha)%list_elem_of_fmap Hv Hn Hv'.
    destruct (Hrow a) as (w & Hv2 & E2); first (apply elem_of_app; by left).
    assert (key' ∈ (go_range drained).*1) as Hk'.
    { apply list_elem_of_fmap. exists (key', v'). by rw elem_of_go_range. }
    rw Hkeys in Hk'. apply elem_of_app in Hk' as [?|(b & -> & Hb)%list_elem_of_fmap]; first done.
    destruct (Hrow b) as (w' & Hv3 & E3); first (apply elem_of_app; by right).
    specialize (Hord a b Ha Hb). assert (w = v ∧ w' = v') as [-> ->] by (split; congruence). lia.
Qed.

(** The victims of a pass are distinct flows of the drain, as many as asked for
    (or all there are), and none of them was seen later than any flow left in
    the map, whatever order the map iterates in. *)
Theorem selectOldest_oldest (drained : gmap FlowKey FlowMetrics) k :
  let vs := selectOldest drained k in
  NoDup vs ∧ (∀ key, key ∈ vs → is_Some (drained !! key)) ∧
  Z.of_nat (length vs) = Z.max 0 (Z.min k (Z.of_nat (size drained))) ∧
  (∀ key v key' v', key ∈ vs → drained !! key = Some v → key' ∉ vs → drained !! key' = Some v' →
     LastSeenNs v ≤ LastSeenNs v').
Proof. apply selectOldest_gen. Qed.
End select.

(** ** The reliever *)

Record PressureReliever := mkReliever { pr_maxEntries : Z; pr_relieving : bool }.

Section relieve.
Context `{GoRange} {Err : Type} (fault : nat → option Err).

Definition evictFlow (acc : kmap FlowKey (list FlowMetrics) * Z) (k : FlowKey) :=
  let '(km, evicted) := acc in
  match telemetryFlowEvictor_Delete fault k km with
  | (km, Some _) => (km, evicted)
  | (km, None) => (km, evicted + 1)
  end.

(** A nil reliever is [None]; the answer carries the evictions of a pass that ran. *)
Definition Relieve (pp : PressureParams) (drained : gmap FlowKey FlowMetrics)
    (st : option PressureReliever * kmap FlowKey (list FlowMetrics))
    : option PressureReliever * kmap FlowKey (list FlowMetrics) * option Z :=
  let '(p, km) := st in
  match p with
  | None => (None, km, None)
  | Some p =>
      if decide (pr_maxEntries p ≤ 0) then (Some p, km, None)
      else
        let n := Z.of_nat (size drained) in
        let high := watermark (PressureHighWatermark pp) (pr_maxEntries p) in
        let low := watermark (PressureLowWatermark pp) (pr_maxEntries p) in
        if decide (n ≤ low) then (Some (mkReliever (pr_maxEntries p) false), km, None)
        else if negb (pr_relieving p) && bool_decide (n ≤ high) then (Some p, km, None)
        else
          let want := n - low in
          let want := if decide (PressureMaxPerPass pp < want) then PressureMaxPerPass pp else want in
          let '(km, evicted) := foldl evictFlow (km, 0) (selectOldest drained want) in
          (Some (mkReliever (pr_maxEntries p) true), km, Some evicted)
  end.

Lemma evictFlow_fold vs km n : NoDup vs →
  let '(km', n') := foldl evictFlow (km, n) vs in
  (∀ k, k ∉ vs → krows km' !! k = krows km !! k) ∧ krows km' ⊆ krows km ∧
  n ≤ n' ≤ n + Z.of_nat (length vs) ∧
  ((∀ i, fault i = None) → n' = n + Z.of_nat (length vs) ∧ ∀ k, k ∈ vs → krows km' !! k = None).
Proof.
  induction vs as [|v vs IH] in km, n |- *; intros Hnd.
  { split_and!; try (simpl; lia); try done. intros _. split; [simpl; lia|by intros ? ?%elem_of_nil]. }
  apply NoDup_cons in Hnd as [Hv Hnd]. cbn [foldl].
  destruct (evictFlow (km, n) v) as [km1' n1] eqn:Ev.
  rewrite /evictFlow /telemetryFlowEvictor_Delete in Ev.
  pose proof (idempotentDelete_spec fault v km) as Hd.
  destruct (idempotentDelete fault v km) as [km1 e]. destruct Hd as (He & Hr & _).
  destruct e as [e|]; injection Ev as <- <-.
  - specialize (IH km1 n Hnd). destruct (foldl evictFlow _ vs) as [km' n'].
    destruct IH as (H1 & H2 & H3 & _). rewrite Hr in H1 H2. cbv beta iota. split; [|split; [done|split; [simpl; lia|]]].
    + intros k [_ ?]%not_elem_of_cons. by apply H1.
    + intros Hf. by rw Hf in He.
  - specialize (IH km1 (n + 1) Hnd). destruct (foldl evictFlow _ vs) as [km' n'].
    destruct IH as (H1 & H2 & H3 & H4). rewrite Hr in H1 H2. cbv beta iota. split; [|split; [|split; [simpl; lia|]]].
    + intros k [? ?]%not_elem_of_cons. rw H1 // lookup_delete_ne //.
    + etrans; [exact H2|apply delete_subseteq].
    + intros Hf. destruct (H4 Hf) as [-> Hg]. split; first (simpl; lia).
      intros k [->|?]%elem_of_cons; last by apply Hg. rw H1 // lookup_delete_eq //.
Qed.

(** ** One pass *)

Definition pass_size (pp : PressureParams) (max n : Z) : Z :=
  Z.min (n - watermark (PressureLowWatermark pp) max) (PressureMaxPerPass pp).

Lemma Relieve_pass pp drained p km :
  0 < pr_maxEntries p →
  watermark (PressureLowWatermark pp) (pr_maxEntries p) < Z.of_nat (size drained) →
  pr_relieving p = true ∨ watermark (PressureHighWatermark pp) (pr_maxEntries p) < Z.of_nat (size drained) →
  Relieve pp drained (Some p, km) =
  let '(km', e) := foldl evictFlow (km, 0)
     (selectOldest drained (pass_size pp (pr_maxEntries p) (Z.of_nat (size drained)))) in
  (Some (mkReliever (pr_maxEntries p) true), km', Some e).
Proof.
  intros Hm Hl Hc. rewrite /Relieve; cbv zeta; rewrite decide_False; [lia|]. rewrite decide_False; [lia|].
  assert (negb (pr_relieving p) && bool_decide
    (Z.of_nat (size drained) ≤ watermark (PressureHighWatermark pp) (pr_maxEntries p)) = false) as ->.
  { destruct Hc as [->|Hc]; first done. rewrite bool_decide_false; [lia|]. apply andb_false_r. }
  rewrite /pass_size.
  assert (∀ a b, (if decide (b < a) then b else a) = Z.min a b) as -> by (intros; case_decide; lia).
  done.
Qed.

Lemma Relieve_below pp drained p km :
  0 < pr_maxEntries p → Z.of_nat (size drained) ≤ watermark (PressureLowWatermark pp) (pr_maxEntries p) →
  Relieve pp drained (Some p, km) = (Some (mkReliever (pr_maxEntries p) false), km, None).
Proof. intros Hm Hn. rewrite /Relieve; cbv zeta; rewrite decide_False; [lia|]. by rewrite decide_True. Qed.

(** The relief cycle, on every branch: a nil or unsized reliever does nothing; at
    or under the low watermark the cycle ends; between the marks outside a cycle
    nothing happens; otherwise a pass runs, evicts no more than the cap and never
    below the low mark, and touches only the oldest flows of the drain, of which
    it evicts all when no call fails. *)
Theorem relieve_hysteresis pp drained p km :
  let n := Z.of_nat (size drained) in
  let high := watermark (PressureHighWatermark pp) (pr_maxEntries p) in
  let low := watermark (PressureLowWatermark pp) (pr_maxEntries p) in
  Relieve pp drained (None, km) = (None, km, None) ∧
  (pr_maxEntries p ≤ 0 → Relieve pp drained (Some p, km) = (Some p, km, None)) ∧
  (0 < pr_maxEntries p → n ≤ low →
     Relieve pp drained (Some p, km) = (Some (mkReliever (pr_maxEntries p) false), km, None)) ∧
  (0 < pr_maxEntries p → low < n ≤ high → pr_relieving p = false →
     Relieve pp drained (Some p, km) = (Some p, km, None)) ∧
  (0 < pr_maxEntries p → low < n → pr_relieving p = true ∨ high < n → ∃ km' e,
     Relieve pp drained (Some p, km) = (Some (mkReliever (pr_maxEntries p) true), km', Some e) ∧
     0 ≤ e ≤ Z.max 0 (PressureMaxPerPass pp) ∧ low ≤ n - e ∧ krows km' ⊆ krows km ∧
     let victims := selectOldest drained (pass_size pp (pr_maxEntries p) n) in
     (∀ k, k ∉ victims → krows km' !! k = krows km !! k) ∧
     ((∀ i, fault i = None) →
        e = Z.of_nat (length victims) ∧ ∀ k, k ∈ victims → krows km' !! k = None)).
Proof.
  cbn zeta. split_and!; [done| | | |]; intros Hm.
  - rewrite /Relieve decide_True //.
  - by apply Relieve_below.
  - intros Hn Hr. rewrite /Relieve; cbv zeta; rewrite decide_False; [lia|]. rewrite decide_False; [lia|].
    rewrite Hr bool_decide_true; [lia|]. done.
  - intros Hl Hc. rewrite Relieve_pass //.
    destruct (selectOldest_gen drained (pass_size pp (pr_maxEntries p) (Z.of_nat (size drained))))
      as (Hnd & _ & Hlen & _).
    set (vs := selectOldest _ _) in *.
    pose proof (evictFlow_fold vs km 0 Hnd) as Hf. destruct (foldl evictFlow (km, 0) vs) as [km' e].
    destruct Hf as (H1 & H2 & H3 & H4). rewrite /pass_size in Hlen.
    exists km', e. split_and!; try done; lia.
Qed.

(** ** A whole cycle: passes over the kernel's own map, with no new flows *)

Fixpoint relief_rounds (pp : PressureParams) (rounds : nat)
    (st : option PressureReliever * kmap FlowKey (list FlowMetrics)) :=
  match rounds with
  | O => st
  | S rounds => relief_rounds pp rounds (Relieve pp (sumSlots <$> krows st.2) st).1
  end.

Lemma relief_round pp p km :
  (∀ i, fault i = None) → 0 < pr_maxEntries p → 1 ≤ PressureMaxPerPass pp →
  let low := watermark (PressureLowWatermark pp) (pr_maxEntries p) in
  0 ≤ low → low < Z.of_nat (size (krows km)) →
  pr_relieving p = true ∨
    watermark (PressureHighWatermark pp) (pr_maxEntries p) < Z.of_nat (size (krows km)) →
  ∃ km', (Relieve pp (sumSlots <$> krows km) (Some p, km)).1 =
    (Some (mkReliever (pr_maxEntries p) true), km') ∧
    Z.of_nat (size (krows km')) = Z.max low (Z.of_nat (size (krows km)) - PressureMaxPerPass pp).
Proof.
  cbn zeta. intros Hf Hm Hcap H0 Hl Hc. set (drained := sumSlots <$> krows km).
  assert (size drained = size (krows km)) as Hs by apply map_size_fmap.
  rewrite -Hs in Hl Hc |- *. rewrite Relieve_pass //.
  destruct (selectOldest_gen drained (pass_size pp (pr_maxEntries p) (Z.of_nat (size drained))))
    as (Hnd & Hdom & Hlen & _).
  set (vs := selectOldest _ _) in *.
  pose proof (evictFlow_fold vs km 0 Hnd) as He. destruct (foldl evictFlow (km, 0) vs) as [km' e].
  destruct He as (H1 & _ & _ & H4). destruct (H4 Hf) as [_ Hg]. exists km'. split; first done.
  assert (dom (krows km') = dom (krows km) ∖ list_to_set vs) as Hd.
  { apply set_eq. intros k. rewrite elem_of_difference elem_of_list_to_set !elem_of_dom.
    destruct (decide (k ∈ vs)) as [Hin|Hn].
    - rewrite Hg //. split; [by intros []|by intros []].
    - rewrite H1 //. naive_solver. }
  rewrite -(size_dom (krows km')) Hd size_difference.
  { intros k Hk%elem_of_list_to_set%Hdom. rewrite lookup_fmap in Hk. apply elem_of_dom.
    by apply fmap_is_Some in Hk. }
  rewrite size_list_to_set // size_dom -Hs. rewrite /pass_size in Hlen. lia.
Qed.

(** C34: Once triggered, a relief cycle reaches its end: with no failing call and no
    new flows every pass lowers the population by the cap until it stands exactly
    at the low mark, and the next pass closes the cycle. *)
Theorem relief_converges pp p km rounds :
  (∀ i, fault i = None) → 0 < pr_maxEntries p → 1 ≤ PressureMaxPerPass pp →
  let low := watermark (PressureLowWatermark pp) (pr_maxEntries p) in
  0 ≤ low → low < Z.of_nat (size (krows km)) →
  watermark (PressureHighWatermark pp) (pr_maxEntries p) < Z.of_nat (size (krows km)) →
  Z.of_nat (size (krows km)) - low ≤ Z.of_nat rounds * PressureMaxPerPass pp →
  ∃ km', relief_rounds pp (S rounds) (Some p, km) =
    (Some (mkReliever (pr_maxEntries p) false), km') ∧ Z.of_nat (size (krows km')) = low.
Proof.
  cbn zeta. intros Hf Hm Hcap H0 Hl Hh.
  assert (pr_relieving p = true ∨
    watermark (PressureHighWatermark pp) (pr_maxEntries p) < Z.of_nat (size (krows km))) as Hc by by right.
  clear Hh. revert p km Hm H0 Hl Hc. induction rounds as [|rounds IH]; intros p km Hm H0 Hl Hc Hr; first lia.
  destruct (relief_round pp p km Hf Hm Hcap H0 Hl Hc) as (km1 & E & Hs).
  cbn [relief_rounds snd]. rewrite E. cbn [snd].
  set (p1 := mkReliever (pr_maxEntries p) true).
  destruct (decide (watermark (PressureLowWatermark pp) (pr_maxEntries p) < Z.of_nat (size (krows km1)))) as [Hl1|Hl1].
  - apply (IH p1 km1); [done..|by left|simpl; lia].
  - assert (Z.of_nat (size (krows km1)) = watermark (PressureLowWatermark pp) (pr_maxEntries p)) as Hs1 by lia.
    assert (∀ n q, pr_maxEntries q = pr_maxEntries p →
      relief_rounds pp (S n) (Some q, km1) = (Some (mkReliever (pr_maxEntries p) false), km1)) as Hfix.
    { intros n. induction n as [|n IHn]; intros q Hq; cbn [relief_rounds snd];
        (rewrite Relieve_below; [lia|rewrite map_size_fmap Hq; lia|]); cbn [fst]; rewrite Hq;
        [done|by apply IHn]. }
    exists km1. split; [by apply (Hfix rounds p1)|done].
Qed.
End relieve.

(** ** A map of eight entries with marks at 3/4 and 1/4 *)

Module PressureExamples.
#[local] Existing Instance list_range.

(** 0.75 and 0.25 as binary64 numbers. *)
Definition params : PressureParams :=
  mkParams (S754_finite false 6755399441055744 (-53)) (S754_finite false 4503599627370496 (-54)) 2.
Definition flow (n : Z) : FlowKey :=
  mkFlowKey (mkMac 250 22 62 0 0 n) (mkMac 250 22 62 0 1 n) 2048 DirectionIngress ZoneExternal L4ProtoTCP 0.
Definition rows (n : Z) : list (FlowKey * list FlowMetrics) :=
  (λ i, (flow i, [mkFlowMetrics 10 1 (100 - i) 1])) <$> seqZ 0 n.
Definition telemetry (n : Z) : kmap FlowKey (list FlowMetrics) := mkKmap (list_to_map (rows n)) 0 [].
Definition reliever : PressureReliever := mkReliever 8 false.
Definition calls_succeed : nat → option string := λ _, None.

Example marks : watermark (PressureHighWatermark params) 8 = 6 ∧ watermark (PressureLowWatermark params) 8 = 2.
Proof. by vm_compute. Qed.
(** 85% of 2^20 entries: the product is rounded, then truncated. *)
Example default_high : watermark (SFdiv 53 1024 (float64_of 85) (float64_of 100)) 1048576 = 891289.
Proof. by vm_compute. Qed.

Lemma selectOldest_oldest_witness :
  flow 6 ∈ selectOldest (sumSlots <$> krows (telemetry 7)) 1.
Proof.
  destruct (selectOldest_oldest (sumSlots <$> krows (telemetry 7)) 1) as (_ & Hin & Hlen & Hold).
  destruct (decide (flow 6 ∈ selectOldest (sumSlots <$> krows (telemetry 7)) 1)) as [|Hn]; first done.
  exfalso. destruct (selectOldest _ _) as [|key vs] eqn:E; first by vm_compute in Hlen.
  destruct (Hin key ltac:(left)) as [v Hv].
  assert (LastSeenNs v ≤ 94) as Hle by exact (Hold key v (flow 6) (mkFlowMetrics 10 1 94 1) ltac:(left) Hv Hn eq_refl).
  assert (map_Forall (λ k w, k = flow 6 ∨ 94 < LastSeenNs w) (sumSlots <$> krows (telemetry 7))) as Hall
    by (apply (bool_decide_unpack _); by vm_compute).
  destruct (Hall key v Hv) as [->|?]; [by apply Hn; left|lia].
Defined.

Lemma relieve_hysteresis_witness :
  ∃ km' e, Relieve calls_succeed params (sumSlots <$> krows (telemetry 7)) (Some reliever, telemetry 7)
    = (Some (mkReliever 8 true), km', Some e) ∧ e = 2.
Proof.
  destruct (relieve_hysteresis calls_succeed params (sumSlots <$> krows (telemetry 7)) reliever (telemetry 7))
    as (_ & _ & _ & _ & Hpass).
  destruct Hpass as (km' & e & E & _ & _ & _ & _ & Hall); [by vm_compute..|right; by vm_compute|].
  exists km', e. split; first exact E. destruct (Hall (λ _, eq_refl)) as [-> _]. by vm_compute.
Defined.

Lemma relief_converges_witness :
  ∃ km', relief_rounds calls_succeed params 4 (Some reliever, telemetry 7) =
    (Some (mkReliever 8 false), km') ∧ size (krows km') = 2%nat.
Proof.
  destruct (relief_converges calls_succeed params reliever (telemetry 7) 3) as (km' & E & Hs);
    [done|by vm_compute..|].
  exists km'. split; first exact E. vm_compute (watermark _ _) in Hs. lia.
Defined.
End PressureExamples.
