(* ===== verification/Sync.v ===== *)
(** * One synchronisation with OpenStack (internal/neutron: sync.go,
      anomalies.go, info.go)

    What a sync pass produces from the resource lists the API calls answer, the
    anomalies derived from it and the identity metrics of the committed
    snapshot.  The API client is a third-party library: its answers are
    arguments. *)
From S2P Require Import Prelude GoStrings NetIP Bpf Neutron Resolve Trie Attribution.
From Stdlib Require String.

(** ** Anomalies (anomalies.go, externalnet.go) *)

Record DanglingRoute := mkDangling {
  Dang_SourceTenant : string; Dang_SourceRouter : string; Dang_Destination : string; Dang_Nexthop : string }.
Record ZeroTrieTenant := mkZeroTrie {
  ZT_TenantID : string; ZT_Networks : Z; ZT_Routers : Z; ZT_Ports : Z }.
Record DuplicateRouterMAC := mkDuplicateMAC {
  Dup_MAC : string; Dup_PortIDs : list string; Dup_RouterIDs : list string }.
Record MultiExternalPathHit := mkMultiExt {
  MX_PortID : string; MX_ServerID : string; MX_ProjectID : string; MX_Candidates : list string;
  MX_Picked : string }.
Record Anomalies := mkAnomalies {
  An_Cycles : list CycleHit; An_Ambiguities : list AmbiguityHit; An_DanglingRoutes : list DanglingRoute;
  An_ZeroTrieTenants : list ZeroTrieTenant; An_DuplicateRouterMACs : list DuplicateRouterMAC;
  An_MultiExternalPaths : list MultiExternalPathHit }.
Definition Anomalies_Total (a : Anomalies) : Z :=
  Z.of_nat (length (An_Cycles a) + length (An_Ambiguities a) + length (An_DanglingRoutes a) +
    length (An_ZeroTrieTenants a) + length (An_DuplicateRouterMACs a) + length (An_MultiExternalPaths a)).

(** [sort.Slice] by a key, up to the order of ties. *)
Definition dangling_le (a b : DanglingRoute) : Prop :=
  if decide (Dang_SourceRouter a ≠ Dang_SourceRouter b)
  then string_le (Dang_SourceRouter a) (Dang_SourceRouter b)
  else string_le (Dang_Destination a) (Dang_Destination b).
#[export] Instance dangling_le_dec : RelDecision dangling_le.
Proof. intros a b. rw /dangling_le. case_decide; apply _. Defined.
Definition by_key {A} (key : A → string) (a b : A) : Prop := string_le (key a) (key b).
#[export] Instance by_key_dec {A} (key : A → string) : RelDecision (by_key key).
Proof. intros a b. rw /by_key. apply _. Defined.

(** The addresses some fixed IP of the snapshot has. *)
Definition knownIPs (snap : Snapshot) : gmap string () :=
  foldl (λ known p, foldl (λ known f,
    if decide (Fip_IPAddress f ≠ "") then <[Fip_IPAddress f := ()]> known else known)
    known (Port_FixedIPs p)) ∅ (Ports snap).
Definition danglingRow (known : gmap string ()) (r : Router) (route : Route) : option DanglingRoute :=
  if decide (Route_Nexthop route = "") then None
  else match known !! Route_Nexthop route with
       | Some _ => None
       | None => Some (mkDangling (Router_ProjectID r) (Router_ID r) (Route_Destination route) (Route_Nexthop route))
       end.
Definition detectDanglingRoutes (snap : Snapshot) : list DanglingRoute :=
  if decide (length (Routers snap) = 0%nat) then []
  else merge_sort dangling_le
    (Routers snap ≫= λ r, omap (danglingRow (knownIPs snap) r) (Router_Routes r)).

Definition trieTenants (trie : list TrieEntry) : gmap string () :=
  foldl (λ m e, if decide (TE_TenantID e ≠ "") then <[TE_TenantID e := ()]> m else m) ∅ trie.
Definition bump (id : string) (fn : ZeroTrieTenant → ZeroTrieTenant) (owned : gmap string ZeroTrieTenant) :=
  if decide (id = "") then owned
  else <[id := fn (default (mkZeroTrie id 0 0 0) (owned !! id))]> owned.
Definition addNetwork (z : ZeroTrieTenant) := mkZeroTrie (ZT_TenantID z) (ZT_Networks z + 1) (ZT_Routers z) (ZT_Ports z).
Definition addRouter (z : ZeroTrieTenant) := mkZeroTrie (ZT_TenantID z) (ZT_Networks z) (ZT_Routers z + 1) (ZT_Ports z).
Definition addPort (z : ZeroTrieTenant) := mkZeroTrie (ZT_TenantID z) (ZT_Networks z) (ZT_Routers z) (ZT_Ports z + 1).
Definition ownedBy (snap : Snapshot) : gmap string ZeroTrieTenant :=
  let owned := foldl (λ m n, bump (Net_ProjectID n) addNetwork m) ∅ (Networks snap) in
  let owned := foldl (λ m r, bump (Router_ProjectID r) addRouter m) owned (Routers snap) in
  foldl (λ m p, if IsVMPort (Port_DeviceOwner p) then bump (Port_ProjectID p) addPort m else m)
    owned (Ports snap).

Section detect.
Context `{GoRange}.

Definition detectZeroTrieTenants (snap : Snapshot) (trie : list TrieEntry) : list ZeroTrieTenant :=
  merge_sort (by_key ZT_TenantID)
    (omap (λ kv, match trieTenants trie !! kv.1 with Some _ => None | None => Some kv.2 end)
      (go_range (ownedBy snap))).

Definition routerMACGroups (snap : Snapshot) : gmap string (list Port) :=
  foldl (λ groups p,
    if decide (Port_DeviceOwner p ≠ DeviceOwnerRouterInterface ∨ Port_MACAddress p = "") then groups
    else append_at (Port_MACAddress p) p groups) ∅ (Ports snap).
Definition duplicateEntry (mac : string) (ports : list Port) : option DuplicateRouterMAC :=
  if decide (length ports < 2)%nat then None
  else
    let routerSet : gmap string () :=
      foldl (λ m p, if decide (Port_DeviceID p ≠ "") then <[Port_DeviceID p := ()]> m else m) ∅ ports in
    Some (mkDuplicateMAC mac (sort_strings (Port_ID <$> ports)) (sort_strings (go_range routerSet).*1)).
Definition detectDuplicateRouterMACs (snap : Snapshot) : list DuplicateRouterMAC :=
  merge_sort (by_key Dup_MAC)
    (omap (λ kv, duplicateEntry kv.1 kv.2) (go_range (routerMACGroups snap))).

Definition portMeta (snap : Snapshot) : gmap string Port :=
  foldl (λ m p, <[Port_ID p := p]> m) ∅ (Ports snap).
Definition zeroPort : Port := mkPort "" "" "" "" "" "" [].
Definition multiExternal (snap : Snapshot) (kv : string * portCandidates) : option MultiExternalPathHit :=
  if decide (length (candidates kv.2) < 2)%nat then None
  else let p := default zeroPort (portMeta snap !! kv.1) in
       Some (mkMultiExt kv.1 (Port_DeviceID p) (Port_ProjectID p) (candidates kv.2) (picked kv.2)).
Definition detectMultiExternalPaths (snap : Snapshot) : list MultiExternalPathHit :=
  merge_sort (by_key MX_PortID) (omap (multiExternal snap) (go_range (externalCandidatesByPort snap))).

Definition DetectAnomalies (snap : Snapshot) (trie : list TrieEntry) (cycles : list CycleHit)
    (ambiguities : list AmbiguityHit) : Anomalies :=
  mkAnomalies cycles ambiguities (detectDanglingRoutes snap) (detectZeroTrieTenants snap trie)
    (detectDuplicateRouterMACs snap) (detectMultiExternalPaths snap).

(** ** The sync pass (sync.go, neutron.go) *)

Record SyncResult := mkResult {
  SR_Snapshot : Snapshot; SR_Entries : list TrieEntry; SR_Ambiguities : list AmbiguityHit;
  SR_Cycles : list CycleHit; SR_Anomalies : Anomalies }.

(** The answers of the API calls of one pass. *)
Record Client (Err : Type) := mkClient {
  ListNetworks : Err + list Network; ListSubnets : Err + list Subnet; ListPorts : Err + list Port;
  ListRouters : Err + list Router; ListFloatingIPs : Err + list FloatingIP;
  ListProjects : Err + list Project; ListServers : Err + list Server;
  ListLoadBalancers : Err + list LoadBalancer; ListAmphorae : Err + list Amphora }.
Arguments mkClient {_} _ _ _ _ _ _ _ _ _.

Definition orEmpty {Err A} (answer : Err + list A) : list A :=
  match answer with inl _ => [] | inr l => l end.
Definition andThen {E A B} (x : E + A) (f : A → E + B) : E + B :=
  match x with inl e => inl e | inr a => f a end.

(** The first six lists abort the sync; the last three only stay empty. *)
Definition fetchAll {Err} (c : Client Err) : Err + Snapshot :=
  andThen (ListNetworks _ c) (λ networks,
  andThen (ListSubnets _ c) (λ subnets,
  andThen (ListPorts _ c) (λ ports,
  andThen (ListRouters _ c) (λ routers,
  andThen (ListFloatingIPs _ c) (λ fips,
  andThen (ListProjects _ c) (λ projects,
  inr (mkSnapshot networks subnets ports routers fips projects (orEmpty (ListServers _ c))
    (orEmpty (ListLoadBalancers _ c)) (orEmpty (ListAmphorae _ c))))))))).

Definition resultFor (maxHops : Z) (snap : Snapshot) : SyncResult :=
  let '(es, ambs, cycs) := buildTrie snap maxHops in
  mkResult snap es ambs cycs (DetectAnomalies snap es cycs ambs).

(** [auth] is the answer of the authentication when there is no client yet. *)
Definition Sync {Err} (maxHops : Z) (auth : option Err) (c : Client Err) : Err + SyncResult :=
  match auth with
  | Some e => inl e
  | None => andThen (fetchAll c) (λ snap, inr (resultFor maxHops snap))
  end.

(** What [Neutron] retains; [None] before the first commit. *)
Record Neutron := mkNeutron {
  n_snapshot : option Snapshot; n_trie : option (list TrieEntry); n_anomalies : option Anomalies;
  n_lastSync : Z }.
Definition NewNeutron : Neutron := mkNeutron None None None 0.
Definition Commit (result : SyncResult) (at_ : Z) (n : Neutron) : Neutron :=
  mkNeutron (Some (SR_Snapshot result)) (Some (SR_Entries result)) (Some (SR_Anomalies result)) at_.
Definition Neutron_Trie (n : Neutron) : list TrieEntry := default [] (n_trie n).
Definition LastSyncTime (n : Neutron) : option Z :=
  if decide (n_lastSync n = 0) then None else Some (n_lastSync n).
End detect.

(** ** Identity metrics (info.go): the label values of each series, in order *)

Definition isInfoPort (p : Port) : bool :=
  negb (bool_decide (Port_ID p = "")) && IsVMPort (Port_DeviceOwner p) &&
  negb (bool_decide (Port_ProjectID p = "")) && negb (bool_decide (Port_MACAddress p = "")).
Definition joinFixedIPs (ips : list FixedIP) : string :=
  String.concat "," (sort_strings (omap (λ f,
    if decide (Fip_IPAddress f ≠ "") then Some (Fip_IPAddress f) else None) ips)).

(** A loop with a seen-set: the first admitted element of each id is emitted. *)
Definition emitOnce {A} (admits : A → bool) (id : A → string) (labels : A → list string)
    (l : list A) : list (list string) :=
  (foldl (λ '(seen, out) a,
    if negb (admits a) then (seen, out)
    else if decide (id a ∈ seen) then (seen, out)
    else ({[id a]} ∪ seen, out ++ [labels a])) (∅ : gset string, []) l).2.
Definition InfoCollect (snap : option Snapshot) : list (string * list string) :=
  match snap with
  | None => []
  | Some s =>
      (pair "lachesis_tenant_info" <$> emitOnce (λ p, negb (bool_decide (Proj_ID p = ""))) Proj_ID
        (λ p, [Proj_ID p; Proj_Name p]) (Projects s)) ++
      (pair "lachesis_server_info" <$> emitOnce (λ v, negb (bool_decide (Serv_ID v = ""))) Serv_ID
        (λ v, [Serv_ID v; Serv_Name v; Serv_ProjectID v]) (Servers s)) ++
      (pair "lachesis_port_info" <$> emitOnce isInfoPort Port_ID
        (λ p, [Port_ID p; Port_DeviceID p; Port_ProjectID p; Port_MACAddress p; joinFixedIPs (Port_FixedIPs p)])
        (Ports s))
  end.

(** ** What the anomaly checks report *)

Lemma elem_of_knownIPs snap ip :
  is_Some (knownIPs snap !! ip) ↔
  ip ≠ "" ∧ ∃ p f, p ∈ Ports snap ∧ f ∈ Port_FixedIPs p ∧ Fip_IPAddress f = ip.
Proof.
  assert (∀ (known : gmap string ()) f x, is_Some ((if decide (Fip_IPAddress f ≠ "") then <[Fip_IPAddress f := ()]> known
    else known) !! x) ↔ is_Some (known !! x) ∨ (Fip_IPAddress f = x ∧ x ≠ "")) as Hf.
  { intros known f x. case_decide; [|naive_solver].
    destruct (decide (Fip_IPAddress f = x)) as [<-|]; [rw lookup_insert_eq|rw lookup_insert_ne //];
      naive_solver eauto. }
  rw /knownIPs (elem_of_foldl (λ (m : gmap string ()) x, is_Some (m !! x)) _
    (λ p x, ∃ f, f ∈ Port_FixedIPs p ∧ Fip_IPAddress f = x ∧ x ≠ "")).
  - intros known p x. apply (elem_of_foldl (λ (m : gmap string ()) x, is_Some (m !! x)) _
      (λ f x, Fip_IPAddress f = x ∧ x ≠ "")). exact Hf.
  - rw lookup_empty. split; [intros [[? ?]|(p & ? & f & ? & ? & ?)]; naive_solver|naive_solver].
Qed.

Definition dangling (snap : Snapshot) (r : Router) (route : Route) : Prop :=
  r ∈ Routers snap ∧ route ∈ Router_Routes r ∧ Route_Nexthop route ≠ "" ∧
  ¬ ∃ p f, p ∈ Ports snap ∧ f ∈ Port_FixedIPs p ∧ Fip_IPAddress f = Route_Nexthop route.
Lemma dangling_exact snap d :
  d ∈ detectDanglingRoutes snap ↔ ∃ r route, dangling snap r route ∧
    d = mkDangling (Router_ProjectID r) (Router_ID r) (Route_Destination route) (Route_Nexthop route).
Proof.
  assert (d ∈ (Routers snap ≫= λ r, omap (danglingRow (knownIPs snap) r) (Router_Routes r)) ↔
    ∃ r route, dangling snap r route ∧
    d = mkDangling (Router_ProjectID r) (Router_ID r) (Route_Destination route) (Route_Nexthop route)) as Hin.
  { rw list_elem_of_bind. split.
    - intros (r & (route & Hroute & Hd)%list_elem_of_omap & Hr). exists r, route.
      rw /danglingRow in Hd. case_decide as Hn; first done.
      destruct (knownIPs snap !! Route_Nexthop route) eqn:E; first done. injection Hd as <-.
      split; last done. split_and!; try done. intros Hex.
      assert (is_Some (knownIPs snap !! Route_Nexthop route)) as [? ?] by by apply elem_of_knownIPs.
      congruence.
    - intros (r & route & (Hr & Hroute & Hn & Hex) & ->). exists r. split; last done.
      apply list_elem_of_omap. exists route. split; first done. rw /danglingRow decide_False //.
      destruct (knownIPs snap !! Route_Nexthop route) eqn:E; last done.
      destruct Hex. by apply (elem_of_knownIPs snap (Route_Nexthop route)); rw E. }
  rw -Hin /detectDanglingRoutes. case_decide as E.
  - by rw (nil_length_inv _ E).
  - by rw (merge_sort_Permutation dangling_le).
Qed.

(** Counting loops. *)
Section count.
Context {A : Type} (admits : A → bool) (key : A → string) (fn : ZeroTrieTenant → ZeroTrieTenant).

Definition counted_of (id : string) (l : list A) : nat :=
  length (filter (λ a, admits a = true ∧ key a = id) l).
Lemma bump_loop l m id : id ≠ "" →
  foldl (λ m a, if admits a then bump (key a) fn m else m) m l !! id =
  match counted_of id l with
  | O => m !! id
  | n => Some (Nat.iter n fn (default (mkZeroTrie id 0 0 0) (m !! id)))
  end.
Proof.
  intros Hid. rw /counted_of. induction l as [|a l IH] in m |- *; first done.
  cbn [foldl]. rw IH filter_cons. clear IH.
  destruct (admits a) eqn:Ea; last by destruct (decide (false = true ∧ key a = id)) as [[? _]|_].
  rw /bump. destruct (decide (key a = "")) as [E|E].
  { destruct (decide (true = true ∧ key a = id)) as [[_ ?]|_]; congruence. }
  destruct (decide (true = true ∧ key a = id)) as [[_ <-]|Hne].
  - rw lookup_insert_eq /=. destruct (length _) as [|n]; simpl; first done.
    f_equal. f_equal. by rewrite -Nat.iter_succ_r.
  - rw lookup_insert_ne //. naive_solver.
Qed.
End count.

(** The resources a tenant owns. *)
Definition own_count {A} (admits : A → bool) (key : A → string) (id : string) (l : list A) : Z :=
  Z.of_nat (counted_of admits key id l).
Definition owned_counts (snap : Snapshot) (id : string) : ZeroTrieTenant :=
  mkZeroTrie id (own_count (λ _, true) Net_ProjectID id (Networks snap))
    (own_count (λ _, true) Router_ProjectID id (Routers snap))
    (own_count (λ p, IsVMPort (Port_DeviceOwner p)) Port_ProjectID id (Ports snap)).

Lemma iter_add (z : ZeroTrieTenant) n :
  Nat.iter n addNetwork z = mkZeroTrie (ZT_TenantID z) (ZT_Networks z + Z.of_nat n) (ZT_Routers z) (ZT_Ports z) ∧
  Nat.iter n addRouter z = mkZeroTrie (ZT_TenantID z) (ZT_Networks z) (ZT_Routers z + Z.of_nat n) (ZT_Ports z) ∧
  Nat.iter n addPort z = mkZeroTrie (ZT_TenantID z) (ZT_Networks z) (ZT_Routers z) (ZT_Ports z + Z.of_nat n).
Proof.
  induction n as [|n (IH1 & IH2 & IH3)].
  - destruct z; simpl; split_and!; f_equal; lia.
  - rewrite !Nat.iter_succ IH1 IH2 IH3 /addNetwork /addRouter /addPort /=; split_and!; f_equal; lia.
Qed.
Lemma bump_empty {A} (admits : A → bool) (key : A → string) fn (l : list A) m :
  foldl (λ m a, if admits a then bump (key a) fn m else m) m l !! "" = m !! "".
Proof.
  induction l as [|a l IH] in m |- *; first done. cbn [foldl]. rewrite IH.
  destruct (admits a); last done. rewrite /bump. case_decide; first done. by rewrite lookup_insert_ne.
Qed.
Lemma ownedBy_lookup snap id :
  ownedBy snap !! id =
  let z := owned_counts snap id in
  if decide (id ≠ "" ∧ 0 < ZT_Networks z + ZT_Routers z + ZT_Ports z) then Some z else None.
Proof.
  cbn zeta. rewrite /ownedBy.
  pose proof (λ m, bump_loop (λ _, true) Net_ProjectID addNetwork (Networks snap) m id) as H1.
  pose proof (λ m, bump_loop (λ _, true) Router_ProjectID addRouter (Routers snap) m id) as H2.
  pose proof (λ m, bump_loop (λ p, IsVMPort (Port_DeviceOwner p)) Port_ProjectID addPort (Ports snap) m id) as H3.
  pose proof (λ m, bump_empty (λ _, true) Net_ProjectID addNetwork (Networks snap) m) as E1.
  pose proof (λ m, bump_empty (λ _, true) Router_ProjectID addRouter (Routers snap) m) as E2.
  pose proof (λ m, bump_empty (λ p, IsVMPort (Port_DeviceOwner p)) Port_ProjectID addPort (Ports snap) m) as E3.
  cbn beta in *. destruct (decide (id = "")) as [->|Hid].
  { rewrite E3 E2 E1 lookup_empty. case_decide; [naive_solver|done]. }
  rewrite (H3 _ Hid) (H2 _ Hid) (H1 _ Hid) lookup_empty /owned_counts /own_count /=.
  destruct (counted_of _ _ _ (Networks snap)) as [|n1] eqn:C1,
    (counted_of _ _ _ (Routers snap)) as [|n2] eqn:C2, (counted_of _ _ _ (Ports snap)) as [|n3] eqn:C3;
    rewrite /default /= -?Nat.iter_succ;
    (destruct (decide (id ≠ "" ∧ _)) as [[_ Hp]|Hp]; [|try (destruct Hp; split; [done|lia])]);
    try lia; try done; f_equal;
    repeat match goal with |- context [Nat.iter ?n ?f ?z] =>
      first [rewrite (proj1 (iter_add z n))|rewrite (proj1 (proj2 (iter_add z n)))|rewrite (proj2 (proj2 (iter_add z n)))]
    end; rewrite /addNetwork /addRouter /addPort /=; f_equal; lia.
Qed.

(** A map built by marking the non-empty keys of a list. *)
Lemma marked_iff {A} (key : A → string) (l : list A) id :
  is_Some (foldl (λ (m : gmap string ()) a, if decide (key a ≠ "") then <[key a := ()]> m else m) ∅ l !! id) ↔
  id ≠ "" ∧ ∃ a, a ∈ l ∧ key a = id.
Proof.
  rewrite (elem_of_foldl (λ (m : gmap string ()) x, is_Some (m !! x)) _ (λ a x, key a = x ∧ x ≠ "")).
  - intros m a x. case_decide; [|naive_solver].
    destruct (decide (key a = x)) as [<-|]; [rewrite lookup_insert_eq|rewrite lookup_insert_ne //];
      naive_solver eauto.
  - rewrite lookup_empty. split; [intros [[? ?]|(a & ? & ? & ?)]; naive_solver|naive_solver].
Qed.
Lemma elem_of_keys `{GoRange} (m : gmap string ()) s : s ∈ sort_strings (go_range m).*1 ↔ is_Some (m !! s).
Proof. rewrite sort_strings_perm. apply elem_of_go_range_keys. Qed.

Lemma zero_trie_exact `{GoRange} snap trie z :
  z ∈ detectZeroTrieTenants snap trie ↔ ∃ id, z = owned_counts snap id ∧ id ≠ "" ∧
    0 < ZT_Networks z + ZT_Routers z + ZT_Ports z ∧ ¬ ∃ e, e ∈ trie ∧ TE_TenantID e = id.
Proof.
  rewrite /detectZeroTrieTenants (merge_sort_Permutation (by_key ZT_TenantID)) list_elem_of_omap.
  assert (∀ id, is_Some (trieTenants trie !! id) ↔ id ≠ "" ∧ ∃ e, e ∈ trie ∧ TE_TenantID e = id) as Ht
    by (intros; apply marked_iff).
  split.
  - intros ([id z'] & Hin%elem_of_go_range & Hz). rewrite ownedBy_lookup /= in Hin.
    case_decide as Hc; last done. injection Hin as <-. simpl in Hz.
    destruct (trieTenants trie !! id) eqn:E; first done. injection Hz as <-.
    exists id. destruct Hc as [Hid Hp]. split_and!; try done. intros Hex.
    destruct (proj2 (Ht id) (conj Hid Hex)). congruence.
  - intros (id & -> & Hid & Hp & Hex). exists (id, owned_counts snap id). split.
    + apply elem_of_go_range. rewrite ownedBy_lookup /=. by rewrite decide_True.
    + simpl. destruct (trieTenants trie !! id) eqn:E; last done.
      destruct Hex. by apply (Ht id); rewrite E.
Qed.

Lemma routerMACGroups_lookup snap mac :
  get_all (routerMACGroups snap) mac =
  filter (λ p, Port_DeviceOwner p = DeviceOwnerRouterInterface ∧ Port_MACAddress p ≠ "" ∧
               Port_MACAddress p = mac) (Ports snap).
Proof.
  rewrite /routerMACGroups. induction (Ports snap) as [|p ps IH] using rev_ind; first done.
  rewrite foldl_app filter_app /= filter_cons filter_nil -IH.
  set (m := foldl _ _ ps). case_decide as E.
  - rewrite (decide_False (P := _ ∧ _)); [naive_solver|by rewrite app_nil_r].
  - destruct (decide (Port_MACAddress p = mac)) as [<-|Hne].
    + rewrite decide_True; [split_and!; try done; apply dec_stable; naive_solver|].
      by rewrite /get_all /append_at lookup_insert_eq.
    + rewrite decide_False; [naive_solver|]. rewrite app_nil_r /get_all /append_at lookup_insert_ne //.
Qed.
Lemma duplicates_exact `{GoRange} snap d :
  d ∈ detectDuplicateRouterMACs snap ↔ ∃ ps,
    ps = filter (λ p, Port_DeviceOwner p = DeviceOwnerRouterInterface ∧ Port_MACAddress p ≠ "" ∧
                      Port_MACAddress p = Dup_MAC d) (Ports snap) ∧
    (2 ≤ length ps)%nat ∧ Dup_PortIDs d = sort_strings (Port_ID <$> ps) ∧
    Dup_RouterIDs d = dedupe (Port_DeviceID <$> ps).
Proof.
  rewrite /detectDuplicateRouterMACs (merge_sort_Permutation (by_key Dup_MAC)) list_elem_of_omap.
  assert (∀ ps, sort_strings (go_range (foldl (λ (m : gmap string ()) p,
    if decide (Port_DeviceID p ≠ "") then <[Port_DeviceID p := ()]> m else m) ∅ ps)).*1 =
    dedupe (Port_DeviceID <$> ps)) as Hset.
  { intros ps. rewrite /dedupe. do 3 f_equal. generalize (∅ : gmap string ()).
    induction ps as [|p ps IH]; intros m; csimpl; [done|apply IH]. }
  split.
  - intros ([mac ps] & Hin%elem_of_go_range & Hd). rewrite /duplicateEntry /= in Hd.
    case_decide as Hl; first done. injection Hd as <-. exists ps. simpl.
    split_and!; [|lia|done|apply Hset].
    rewrite -routerMACGroups_lookup /get_all Hin. done.
  - intros (ps & Hps & Hl & H1 & H2). exists (Dup_MAC d, ps). split.
    + apply elem_of_go_range. rewrite -routerMACGroups_lookup /get_all in Hps.
      destruct (routerMACGroups snap !! Dup_MAC d) as [l|]; simpl in Hps; [by subst|].
      subst ps. simpl in Hl. lia.
    + rewrite /duplicateEntry /= decide_False; [lia|]. rewrite Hset -H1 -H2. by destruct d.
Qed.

(** Each anomaly class reports exactly its misconfigurations: the routes whose
    next hop is nobody's address; the tenants that own networks, routers or VM
    ports and have no trie row, with their counts; the MACs two or more router
    interfaces share; and the VM ports with several external paths, with the
    label that was billed. *)
Theorem anomalies_exact `{GoRange} snap trie cycles ambs :
  let a := DetectAnomalies snap trie cycles ambs in
  (∀ d, d ∈ An_DanglingRoutes a ↔ ∃ r route, dangling snap r route ∧
     d = mkDangling (Router_ProjectID r) (Router_ID r) (Route_Destination route) (Route_Nexthop route)) ∧
  (∀ z, z ∈ An_ZeroTrieTenants a ↔ ∃ id, z = owned_counts snap id ∧ id ≠ "" ∧
     0 < ZT_Networks z + ZT_Routers z + ZT_Ports z ∧ ¬ ∃ e, e ∈ trie ∧ TE_TenantID e = id) ∧
  (∀ d, d ∈ An_DuplicateRouterMACs a ↔ ∃ ps,
     ps = filter (λ p, Port_DeviceOwner p = DeviceOwnerRouterInterface ∧ Port_MACAddress p ≠ "" ∧
                       Port_MACAddress p = Dup_MAC d) (Ports snap) ∧
     (2 ≤ length ps)%nat ∧ Dup_PortIDs d = sort_strings (Port_ID <$> ps) ∧
     Dup_RouterIDs d = dedupe (Port_DeviceID <$> ps)) ∧
  (∀ x, x ∈ An_MultiExternalPaths a → ∃ c, externalCandidatesByPort snap !! MX_PortID x = Some c ∧
     (2 ≤ length (candidates c))%nat ∧ MX_Candidates x = candidates c ∧
     ExternalNetworkByPort snap !! MX_PortID x = Some (MX_Picked x)).
Proof.
  cbn zeta. split_and!; intros.
  - apply dangling_exact.
  - apply zero_trie_exact.
  - apply duplicates_exact.
  - simpl in *. rewrite /detectMultiExternalPaths (merge_sort_Permutation (by_key MX_PortID)) in H0.
    apply list_elem_of_omap in H0 as ([id c] & Hin%elem_of_go_range & Hx).
    rewrite /multiExternal /= in Hx. case_decide as Hl; first done. injection Hx as <-. simpl.
    exists c. split_and!; [done|lia|done|]. by rewrite ExternalNetworkByPort_fmap lookup_fmap Hin.
Qed.

(** A sync succeeds exactly when authentication and the six billing lists do; it
    then yields the trie of that very snapshot, and a failing Nova or Octavia
    list only leaves its list empty. *)
Theorem sync_all_or_nothing `{GoRange} {Err} maxHops (auth : option Err) c :
  (∀ r, Sync maxHops auth c = inr r ↔
     auth = None ∧
     inr (Networks (SR_Snapshot r)) = ListNetworks _ c ∧ inr (Subnets (SR_Snapshot r)) = ListSubnets _ c ∧
     inr (Ports (SR_Snapshot r)) = ListPorts _ c ∧ inr (Routers (SR_Snapshot r)) = ListRouters _ c ∧
     inr (FloatingIPs (SR_Snapshot r)) = ListFloatingIPs _ c ∧
     inr (Projects (SR_Snapshot r)) = ListProjects _ c ∧
     Servers (SR_Snapshot r) = orEmpty (ListServers _ c) ∧
     LoadBalancers (SR_Snapshot r) = orEmpty (ListLoadBalancers _ c) ∧
     Amphorae (SR_Snapshot r) = orEmpty (ListAmphorae _ c) ∧
     r = resultFor maxHops (SR_Snapshot r)) ∧
  (∀ snap, let r := resultFor maxHops snap in
     SR_Snapshot r = snap ∧ (SR_Entries r, SR_Ambiguities r, SR_Cycles r) = buildTrie snap maxHops).
Proof.
  assert (∀ snap, let r := resultFor maxHops snap in
     SR_Snapshot r = snap ∧ (SR_Entries r, SR_Ambiguities r, SR_Cycles r) = buildTrie snap maxHops) as Hr.
  { intros snap. cbn zeta. rewrite /resultFor. by destruct (buildTrie snap maxHops) as [[es ambs] cycs]. }
  split; last exact Hr. intros r. split.
  - rewrite /Sync /fetchAll. destruct auth; first done.
    destruct c as [[]  [] [] [] [] [] srv lb amp]; simpl; try done.
    intros [= <-]. by rewrite (proj1 (Hr _)).
  - intros (-> & H1 & H2 & H3 & H4 & H5 & H6 & H7 & H8 & H9 & H10). rewrite H10.
    destruct c as [n s p ro f pr srv lb amp]; simpl in *. subst. rewrite /Sync /fetchAll /= -H7 -H8 -H9.
    by destruct (SR_Snapshot r).
Qed.

(** The identity series: one per admitted id, the first element listed with it. *)
Lemma emitOnce_spec {A} (admits : A → bool) (id : A → string) (labels : A → list string) l :
  (∀ a, labels a !! 0%nat = Some (id a)) →
  NoDup ((λ r, r !! 0%nat) <$> emitOnce admits id labels l) ∧
  ∀ row, row ∈ emitOnce admits id labels l ↔
    ∃ l1 a l2, l = l1 ++ a :: l2 ∧ admits a = true ∧ row = labels a ∧
      ∀ b, b ∈ l1 → admits b = true → id b ≠ id a.
Proof.
  intros Hlab. rewrite /emitOnce.
  set (step := λ '(seen, out) a, _).
  assert (∀ l, let '(seen, out) := foldl step (∅, []) l in
    (∀ x, x ∈ seen ↔ ∃ a, a ∈ l ∧ admits a = true ∧ id a = x) ∧
    (∀ row, row ∈ out → ∃ a, row = labels a ∧ id a ∈ seen) ∧
    NoDup ((λ r, r !! 0%nat) <$> out) ∧
    ∀ row, row ∈ out ↔ ∃ l1 a l2, l = l1 ++ a :: l2 ∧ admits a = true ∧ row = labels a ∧
      ∀ b, b ∈ l1 → admits b = true → id b ≠ id a) as G.
  { clear l. intros l. induction l as [|a l IH] using rev_ind.
    { simpl. split_and!; [set_solver|set_solver|apply NoDup_nil_2|].
      intros row. split; [by intros ?%elem_of_nil|]. by intros ([] & ? & ? & ? & _). }
    rewrite foldl_app. destruct (foldl step (∅, []) l) as [seen out].
    destruct IH as (Hs & Ho & Hnd & Hrow). simpl.
    assert (∀ row, (∃ l1 b l2, l ++ [a] = l1 ++ b :: l2 ∧ admits b = true ∧ row = labels b ∧
        ∀ x, x ∈ l1 → admits x = true → id x ≠ id b) ↔
      row ∈ out ∨ (admits a = true ∧ row = labels a ∧ id a ∉ seen)) as Hsplit.
    { intros row. rewrite Hrow. split.
      - intros (l1 & b & l2 & E & Hb & -> & Hfirst).
        destruct l2 as [|x l2 _] using rev_ind.
        + apply app_inj_tail in E as [-> <-]. right. split_and!; [done..|].
          rewrite Hs. intros (y & Hy & Hay & E). by apply (Hfirst y Hy Hay).
        + rewrite app_comm_cons app_assoc in E. apply app_inj_tail in E as [-> _].
          left. by exists l1, b, l2.
      - intros [(l1 & b & l2 & -> & Hb & -> & Hfirst)|(Ha & -> & Hn)].
        + exists l1, b, (l2 ++ [a]). by rewrite -app_assoc.
        + exists l, a, []. split_and!; [done..|]. intros b Hb Hab E. apply Hn, Hs. by exists b. }
    destruct (admits a) eqn:Ea; simpl.
    - case_decide as Hin.
      + split_and!; [|done|done|intros row; rewrite Hsplit; naive_solver].
        intros x. rewrite Hs. setoid_rewrite elem_of_app. setoid_rewrite list_elem_of_singleton.
        split; [naive_solver|]. intros (b & [?| ->] & ? & <-); [by exists b|by apply Hs].
      + split_and!.
        * intros x. rewrite elem_of_union elem_of_singleton Hs. setoid_rewrite elem_of_app.
          setoid_rewrite list_elem_of_singleton. naive_solver.
        * intros row [?| ->%list_elem_of_singleton]%elem_of_app; [|set_solver].
          destruct (Ho row) as (b & -> & ?); [done|]. exists b. set_solver.
        * rewrite fmap_app NoDup_app. split_and!; [done| |apply NoDup_singleton].
          intros o (row & -> & Hr)%list_elem_of_fmap Ho2%list_elem_of_singleton.
          destruct (Ho row Hr) as (b & -> & Hb). rewrite !Hlab in Ho2. by injection Ho2 as Ho2; rewrite Ho2 in Hb.
        * intros row. rewrite Hsplit elem_of_app list_elem_of_singleton. naive_solver.
    - split_and!; [|done|done|intros row; rewrite Hsplit; naive_solver].
      intros x. rewrite Hs. setoid_rewrite elem_of_app. setoid_rewrite list_elem_of_singleton.
      split; [naive_solver|]. intros (b & [?| ->] & ? & <-); [by exists b|congruence]. }
  specialize (G l). destruct (foldl step (∅, []) l) as [seen out]. by destruct G as (_ & _ & ? & ?).
Qed.
