(* ===== verification/Reconcile.v ===== *)
(** * Reconciliation (internal/reconcile: mac.go, routers.go, reconcile.go)

    One pass compares the userspace store, the kernel maps and the router map
    with a fresh snapshot and applies the difference, settling the rows whose
    attribution is about to change.  Passes run one after the other on one
    goroutine; the kernel calls may fail at any point. *)
From S2P Require Import Prelude GoStrings NetIP Bpf State Exposure Metadata Neutron Resolve Trie Attribution.
From S2P Require Import KernelMap KernelWriter Sync.
From Stdlib Require String.

(** ** The target state *)

Section desired.
Context `{GoRange}.

Definition desiredRow (snap : Snapshot) (p : Port) : option (Z * TenantMeta) :=
  if decide (IsVMPort (Port_DeviceOwner p) = false ∨ Port_ProjectID p = "" ∨ Port_MACAddress p = "")
  then None
  else match ParseMAC (Port_MACAddress p) with
       | None => None
       | Some hw =>
           let '(projectID, isAmphora) :=
             match AmphoraOwnerByPort snap !! Port_ID p with
             | Some owner => (owner, true)
             | None => (Port_ProjectID p, false)
             end in
           Some (MACKey hw, mkMeta projectID (Port_DeviceID p) (Port_ID p)
             (default "" (ExternalNetworkByPort snap !! Port_ID p)) isAmphora 0)
       end.
Definition DesiredMACs (snap : Snapshot) : gmap Z TenantMeta :=
  foldl (λ desired p,
    match desiredRow snap p with None => desired | Some kv => <[kv.1 := kv.2]> desired end)
    ∅ (Ports snap).

Lemma DesiredMACs_in snap mac m :
  DesiredMACs snap !! mac = Some m → ∃ p, p ∈ Ports snap ∧ desiredRow snap p = Some (mac, m).
Proof.
  rewrite /DesiredMACs (foldl_insertAll (desiredRow snap)).
  - intros d p. by destruct (desiredRow snap p).
  - intros [?|E]%insert_loop_Some; [done|by rewrite lookup_empty in E].
Qed.
End desired.

(** ** What a pass reaches *)

Record Reconciler (M : Type) := mkReconciler {
  rc_src : Neutron;                          (* the committed sync *)
  rc_trie : kmap LpmKey Z;
  rc_amphoraIPs : option (kmap AmphoraKey Z);
  rc_meta : option M;
  rc_macWriter : option (kmap Z Z);
  rc_routers : option RouterMap;
  rc_settler : option GlobalState;
  rc_interner : TenantInterner;
  rc_amphoraGauge : option Z;
  rc_bpfGauge : option (gmap string Z);      (* fill per map name *)
  rc_runs : list string }.                   (* results recorded *)
Arguments mkReconciler {_} _ _ _ _ _ _ _ _ _ _ _.
Arguments rc_src {_} _.
Arguments rc_trie {_} _.
Arguments rc_amphoraIPs {_} _.
Arguments rc_meta {_} _.
Arguments rc_macWriter {_} _.
Arguments rc_routers {_} _.
Arguments rc_settler {_} _.
Arguments rc_interner {_} _.
Arguments rc_amphoraGauge {_} _.
Arguments rc_bpfGauge {_} _.
Arguments rc_runs {_} _.

Record macDelta := mkMacDelta { Inserted : Z; Changed_ : Z; Ghosted : Z }.

(** What the MAC reconcile changes. *)
Record macs (M : Type) := mkMacs {
  mc_meta : M; mc_kernel : kmap Z Z; mc_interner : TenantInterner; mc_settler : option GlobalState;
  mc_inserted : Z; mc_changed : Z }.
Arguments mkMacs {_} _ _ _ _ _ _.
Arguments mc_meta {_} _.
Arguments mc_kernel {_} _.
Arguments mc_interner {_} _.
Arguments mc_settler {_} _.
Arguments mc_inserted {_} _.
Arguments mc_changed {_} _.

Section reconcile.
Context `{GoRange} `{MetaStore M} {Err : Type} (endian : Endian).
(** The failures of the MAC map, the trie and the Amphora map. *)
Variables faultM faultT faultA : nat → option Err.

Definition settler_apply (ev : GlobalState → GlobalState * Z) (settler : option GlobalState) :=
  match settler with None => None | Some g => Some (ev g).1 end.

Definition settleAttributionChange (routers : option RouterMap) (mac : Z) (old : TenantMeta)
    (settler : option GlobalState) : option GlobalState :=
  settler_apply (Settle SettleRebase (SettleResolver routers
    (λ k, if decide (VMMAC k ≠ mac) then None else Some old))) settler.

Definition insertMAC (mac : Z) (meta : TenantMeta) (c : macs M) : macs M :=
  let m := withDeleteAt meta 0 in
  let store := ms_Insert mac m (mc_meta c) in
  let '(id, interner) := Intern (ProjectID meta) (mc_interner c) in
  let '(kernel, _) := Update faultM mac (TenantValue id (IsAmphora meta)) (mc_kernel c) in
  mkMacs store kernel interner (mc_settler c) (mc_inserted c) (mc_changed c).
Definition countInserted (c : macs M) : macs M :=
  mkMacs (mc_meta c) (mc_kernel c) (mc_interner c) (mc_settler c) (mc_inserted c + 1) (mc_changed c).
Definition countChanged (c : macs M) : macs M :=
  mkMacs (mc_meta c) (mc_kernel c) (mc_interner c) (mc_settler c) (mc_inserted c) (mc_changed c + 1).
Definition withSettler (s : option GlobalState) (c : macs M) : macs M :=
  mkMacs (mc_meta c) (mc_kernel c) (mc_interner c) s (mc_inserted c) (mc_changed c).

Definition learnMAC (routers : option RouterMap) (c : macs M) (row : Z * TenantMeta) : macs M :=
  let '(mac, want) := row in
  match ms_Lookup mac (mc_meta c) with
  | None => countInserted (insertMAC mac want c)
  | Some cur =>
      if negb (SameAttribution cur want) then
        let c := withSettler (settleAttributionChange routers mac cur (mc_settler c)) c in
        countChanged (insertMAC mac want c)
      else if decide (DeleteAt cur ≠ 0) then countChanged (insertMAC mac want c)
      else c
  end.
Definition learnMACs (routers : option RouterMap) (desired : gmap Z TenantMeta) (c : macs M) : macs M :=
  foldl (learnMAC routers) c (go_range desired).

Definition goneRow (desired : gmap Z TenantMeta) (acc : list Z * Z) (mac : Z) (m : TenantMeta)
    : list Z * Z * bool :=
  let '(gone, live) := acc in
  if decide (DeleteAt m = 0) then
    (match desired !! mac with None => gone ++ [mac] | Some _ => gone end, live + 1, true)
  else (gone, live, true).
Definition ghostGoneMACs (grace : Z) (desired : gmap Z TenantMeta) (now : Z) (meta : M) : M * Z * Z :=
  let '(gone, live) := rangeWhile (goneRow desired) ([], 0) (ms_Range meta) in
  (foldl (λ m mac, (ms_MarkDelete mac (now + grace) m).1) meta gone, Z.of_nat (length gone), live).

Definition amphoraCount (desired : gmap Z TenantMeta) : Z :=
  foldl (λ n kv, if IsAmphora kv.2 then n + 1 else n) 0 (go_range desired).

(** [grace] is the live ghost-grace tunable. *)
Definition reconcileMACs (grace : Z) (snap : Snapshot) (now : Z) (r : Reconciler M)
    : Reconciler M * macDelta :=
  match rc_meta r, rc_macWriter r with
  | Some meta, Some kernel =>
      let desired := DesiredMACs snap in
      let c := learnMACs (rc_routers r) desired
                 (mkMacs meta kernel (rc_interner r) (rc_settler r) 0 0) in
      let '(meta, ghosted, live) := ghostGoneMACs grace desired now (mc_meta c) in
      (mkReconciler (rc_src r) (rc_trie r) (rc_amphoraIPs r) (Some meta) (Some (mc_kernel c))
         (rc_routers r) (mc_settler c) (mc_interner c)
         (match rc_amphoraGauge r with None => None | Some _ => Some (amphoraCount desired) end)
         (rc_bpfGauge r) (rc_runs r),
       mkMacDelta (mc_inserted c) (mc_changed c) ghosted)
  | _, _ => (r, mkMacDelta 0 0 0)
  end.

(** ** The router map (routers.go) *)

Definition changedRouters (desired old : gmap Z string) : gset Z :=
  let changed := foldl (λ s kv,
    match old !! kv.1 with
    | Some oldExt => if decide (oldExt ≠ kv.2) then {[kv.1]} ∪ s else s
    | None => {[kv.1]} ∪ s
    end) ∅ (go_range desired) in
  foldl (λ s kv, match desired !! kv.1 with Some _ => s | None => {[kv.1]} ∪ s end)
    changed (go_range old).
Definition routerResolver (routers : RouterMap) (meta : M) (changed : gset Z) : FlowKey → option Owner :=
  SettleResolver (Some routers) (λ k,
    if decide (DstZone k ≠ ZoneExternal ∨ PeerMAC k ∉ changed) then None
    else ms_Lookup (VMMAC k) meta).
Definition reconcileRouterMACs (snap : Snapshot) (r : Reconciler M) : Reconciler M * Z :=
  match rc_routers r with
  | None => (r, 0)
  | Some old =>
      let desired := RouterExtMACs snap in
      let changed := changedRouters desired old in
      if decide (size changed = 0%nat) then (r, 0)
      else
        let settler :=
          match rc_settler r, rc_meta r with
          | Some g, Some meta => Some (Settle SettleRebase (routerResolver old meta changed) g).1
          | s, _ => s
          end in
        (mkReconciler (rc_src r) (rc_trie r) (rc_amphoraIPs r) (rc_meta r) (rc_macWriter r)
           (Some desired) settler (rc_interner r) (rc_amphoraGauge r) (rc_bpfGauge r)
           (rc_runs r),
         Z.of_nat (size changed))
  end.

(** ** One pass (reconcile.go) *)

Definition withRun (result : string) (r : Reconciler M) : Reconciler M :=
  mkReconciler (rc_src r) (rc_trie r) (rc_amphoraIPs r) (rc_meta r) (rc_macWriter r) (rc_routers r)
    (rc_settler r) (rc_interner r) (rc_amphoraGauge r) (rc_bpfGauge r) (rc_runs r ++ [result]).

(** [Sync]'s answer is the argument: it does not touch the reconciler. *)
Definition fetch (answer : Err + SyncResult) (r : Reconciler M) : Reconciler M * option SyncResult :=
  match answer with
  | inl _ => (withRun "sync_error" r, None)
  | inr result => (r, Some result)
  end.
Definition applyTrie (result : SyncResult) (r : Reconciler M) : Reconciler M * option TrieDelta :=
  let '(d, t) := ApplyTrieDelta faultT endian (rc_trie r) (Neutron_Trie (rc_src r)) (SR_Entries result)
                   (rc_interner r) in
  let r := mkReconciler (rc_src r) (d_map d) (rc_amphoraIPs r) (rc_meta r) (rc_macWriter r) (rc_routers r)
             (rc_settler r) t (rc_amphoraGauge r) (rc_bpfGauge r) (rc_runs r) in
  match d_err d with
  | Some _ => (withRun "apply_error" r, None)
  | None => (r, Some (d_delta d))
  end.
Definition reconcileAmphoraIPs (snap : Snapshot) (r : Reconciler M) : Reconciler M * Z :=
  match rc_amphoraIPs r with
  | None => (r, 0)
  | Some m =>
      let '(w, t) := WriteAmphoraBaseIPs faultA endian m (AmphoraBaseIPs snap) (rc_interner r) in
      (mkReconciler (rc_src r) (rc_trie r) (Some (w_map w)) (rc_meta r) (rc_macWriter r) (rc_routers r)
         (rc_settler r) t (rc_amphoraGauge r) (rc_bpfGauge r) (rc_runs r), w_written w)
  end.
Definition commit (result : SyncResult) (now : Z) (r : Reconciler M) : Reconciler M :=
  mkReconciler (Commit result now (rc_src r)) (rc_trie r) (rc_amphoraIPs r) (rc_meta r) (rc_macWriter r)
    (rc_routers r) (rc_settler r) (rc_interner r) (rc_amphoraGauge r) (rc_bpfGauge r) (rc_runs r).
Definition withSettled (s : option GlobalState) (r : Reconciler M) : Reconciler M :=
  mkReconciler (rc_src r) (rc_trie r) (rc_amphoraIPs r) (rc_meta r) (rc_macWriter r) (rc_routers r)
    s (rc_interner r) (rc_amphoraGauge r) (rc_bpfGauge r) (rc_runs r).
Definition pruneServerSettled (servers : list Server) (r : Reconciler M) : Reconciler M :=
  if decide (length servers = 0%nat) then r
  else withSettled (settler_apply (PruneServerSettled (list_to_set (Serv_ID <$> servers))) (rc_settler r)) r.
Definition pruneTenantSettled (projects : list Project) (r : Reconciler M) : Reconciler M :=
  if decide (length projects = 0%nat) then r
  else withSettled (settler_apply (PruneTenantSettled
    ({[UnknownTenantID]} ∪ list_to_set (Proj_ID <$> projects))) (rc_settler r)) r.
Definition refreshMapGauges (trieRows amphoraRows : Z) (r : Reconciler M) : Reconciler M :=
  match rc_bpfGauge r with
  | None => r
  | Some g =>
      let g := <["subnet_zone_trie" := trieRows]> g in
      let g := match rc_meta r with None => g | Some meta => <["mac_tenant_map" := ms_Len meta]> g end in
      let g := match rc_amphoraIPs r with None => g | Some _ => <["amphora_base_ip" := amphoraRows]> g end in
      mkReconciler (rc_src r) (rc_trie r) (rc_amphoraIPs r) (rc_meta r) (rc_macWriter r) (rc_routers r)
        (rc_settler r) (rc_interner r) (rc_amphoraGauge r) (Some g) (rc_runs r)
  end.

Definition reconcileOnce (grace : Z) (answer : Err + SyncResult) (now : Z) (r : Reconciler M) : Reconciler M :=
  let '(r, fetched) := fetch answer r in
  match fetched with
  | None => r
  | Some result =>
      let '(r, applied) := applyTrie result r in
      match applied with
      | None => r
      | Some _ =>
          let snap := SR_Snapshot result in
          let '(r, _) := reconcileMACs grace snap now r in
          let '(r, _) := reconcileRouterMACs snap r in
          let '(r, nAmp) := reconcileAmphoraIPs snap r in
          let r := withRun "ok" (commit result now r) in
          let r := pruneServerSettled (Servers snap) r in
          let r := pruneTenantSettled (Projects snap) r in
          refreshMapGauges (Z.of_nat (length (SR_Entries result))) nAmp r
      end
  end.
End reconcile.

(** ** The metadata after a pass *)

Section desired_facts.
Context `{GoRange}.

Lemma DesiredMACs_live snap mac m : DesiredMACs snap !! mac = Some m → DeleteAt m = 0.
Proof.
  intros (p & _ & Hr)%DesiredMACs_in. rewrite /desiredRow in Hr. case_decide; first done.
  destruct (ParseMAC _); last done. destruct (AmphoraOwnerByPort snap !! Port_ID p); by injection Hr as <- <-.
Qed.
End desired_facts.

Lemma SameAttribution_spec m o : SameAttribution m o = true ↔ withDeleteAt m 0 = withDeleteAt o 0.
Proof. by rewrite /SameAttribution bool_decide_eq_true. Qed.
Lemma withDeleteAt_live m : DeleteAt m = 0 → withDeleteAt m 0 = m.
Proof. destruct m. rewrite /withDeleteAt /=. by intros ->. Qed.

Section learn.
Context `{GoRange} `{MetaStore M} {Err : Type} (fault : nat → option Err).
Variable routers : option RouterMap.
Implicit Types (c : macs M) (mac : Z) (want : TenantMeta).

Lemma insertMAC_fields mac want c :
  mc_meta (insertMAC fault mac want c) = ms_Insert mac (withDeleteAt want 0) (mc_meta c) ∧
  mc_settler (insertMAC fault mac want c) = mc_settler c ∧
  mc_interner (insertMAC fault mac want c) = (Intern (ProjectID want) (mc_interner c)).2 ∧
  mc_kernel (insertMAC fault mac want c) =
    (Update fault mac (TenantValue (Intern (ProjectID want) (mc_interner c)).1 (IsAmphora want)) (mc_kernel c)).1.
Proof.
  rewrite /insertMAC. destruct (Intern _ _) as [id t]. simpl. by destruct (Update _ _ _ _).
Qed.

(** One row brings the store to [want] at its MAC and nowhere else. *)
Lemma learnMAC_view c mac want : ms_ok (mc_meta c) → DeleteAt want = 0 →
  ms_ok (mc_meta (learnMAC fault routers c (mac, want))) ∧
  ms_view (mc_meta (learnMAC fault routers c (mac, want))) = <[mac := want]> (ms_view (mc_meta c)).
Proof.
  intros Hok Hlive.
  assert (∀ c0, mc_meta c0 = mc_meta c →
    ms_ok (mc_meta (insertMAC fault mac want c0)) ∧
    ms_view (mc_meta (insertMAC fault mac want c0)) = <[mac := want]> (ms_view (mc_meta c))) as Hins.
  { intros c0 E. destruct (insertMAC_fields mac want c0) as (-> & _).
    rewrite E withDeleteAt_live //. by apply ms_Insert_view. }
  rewrite /learnMAC ms_Lookup_view //.
  destruct (ms_view (mc_meta c) !! mac) as [cur|] eqn:Hcur; last by apply (Hins c).
  destruct (SameAttribution cur want) eqn:Hsame; simpl; last by apply Hins.
  apply SameAttribution_spec in Hsame. case_decide as Hd; first by apply (Hins c).
  split; first done. rewrite insert_id // Hcur. f_equal.
  by rewrite -(withDeleteAt_live cur) // Hsame withDeleteAt_live.
Qed.
Lemma learn_rows_view l c : ms_ok (mc_meta c) → Forall (λ kv, DeleteAt kv.2 = 0) l →
  ms_ok (mc_meta (foldl (learnMAC fault routers) c l)) ∧
  ms_view (mc_meta (foldl (learnMAC fault routers) c l)) = insertAll l (ms_view (mc_meta c)).
Proof.
  induction l as [|[mac want] l IH] in c |- *; intros Hok Hall; first done.
  apply Forall_cons in Hall as [Hlive Hall]. destruct (learnMAC_view c mac want Hok Hlive) as [Hok' Hv].
  cbn [foldl insertAll]. destruct (IH _ Hok' Hall) as [? ->]. by rewrite Hv.
Qed.
Lemma learnMACs_view desired c : ms_ok (mc_meta c) → map_Forall (λ _ m, DeleteAt m = 0) desired →
  ms_ok (mc_meta (learnMACs fault routers desired c)) ∧
  ms_view (mc_meta (learnMACs fault routers desired c)) = desired ∪ ms_view (mc_meta c).
Proof.
  intros Hok Hall. rewrite /learnMACs. destruct (learn_rows_view (go_range desired) c Hok) as [Hok' Hv].
  { apply Forall_forall. intros [mac m] Hin%elem_of_go_range. by apply (Hall mac). }
  split; first done. rewrite Hv. apply map_eq. intros mac. rewrite lookup_union.
  destruct (desired !! mac) as [m|] eqn:E.
  - rewrite (insertAll_lookup (go_range desired) _ mac m); [apply NoDup_go_range|by apply elem_of_go_range|].
    by destruct (ms_view (mc_meta c) !! mac).
  - rewrite insertAll_notin; last by destruct (ms_view (mc_meta c) !! mac).
    intros ([k m] & -> & Hin%elem_of_go_range)%list_elem_of_fmap. simpl in E. congruence.
Qed.
End learn.

(** ** The counters across a pass *)

(** Every row that still holds bytes is of a known MAC, or synthetic: the late
    binding buffer folds unknown traffic under zeroed MACs. *)
Definition attributed `{MetaStore M} (meta : M) (g : GlobalState) : Prop :=
  ∀ k row, counts g !! k = Some row →
    VMMAC k = 0 ∨ is_Some (ms_view meta !! VMMAC k) ∨ total_of row = acc_zero.

Section counters.
Context `{GoRange} `{MetaStore M}.
Variables T S : string → Prop.
Implicit Types (meta : M) (g : GlobalState) (routers : option RouterMap).
Notation conf meta routers g := (mkConfig (collectorOwner meta routers) g).
Notation quiet := (quiet T S).

(** A fold of the rows [pick] selects, then a change of the attribution that
    leaves every other row's owner alone. *)
Lemma quiet_rebase meta routers meta' routers' pick g :
  let g' := (Settle SettleRebase (SettleResolver routers pick) g).1 in
  (∀ k m, pick k = Some m → ms_Lookup (VMMAC k) meta = Some m) →
  (∀ k row, counts g !! k = Some row → pick k = None →
     collectorOwner meta' routers' k = collectorOwner meta routers k ∨ total_of row = acc_zero) →
  quiet (conf meta routers g) (conf meta' routers' g').
Proof.
  cbn zeta. intros Hpick Hrest. set (res := SettleResolver routers pick).
  transitivity (exec (conf meta routers g) (ESettle SettleRebase res)).
  { apply quiet_step; [|done]. exact (SettleResolver_agrees meta routers pick Hpick). }
  refine (quiet_step T S _ (EReattribute (collectorOwner meta' routers')) _ I).
  intros k row. simpl. rewrite Settle_counts. destruct (counts g !! k) as [c|] eqn:E; last done.
  cbn [mbind option_bind]. rewrite {1}/res /SettleResolver.
  destruct (pick k) as [m|] eqn:Ep; intros [= <-]; [by right|by eapply Hrest].
Qed.
Lemma quiet_reattribute meta routers meta' routers' g :
  (∀ k row, counts g !! k = Some row →
     collectorOwner meta' routers' k = collectorOwner meta routers k ∨ total_of row = acc_zero) →
  quiet (conf meta routers g) (conf meta' routers' g).
Proof.
  intros Hrows. exact (quiet_step T S (conf meta routers g) (EReattribute _) Hrows I).
Qed.

Lemma attributed_rebase meta res g : attributed meta g →
  attributed meta (Settle SettleRebase res g).1.
Proof.
  intros Ha k row. rewrite Settle_counts. destruct (counts g !! k) as [c|] eqn:E; last done.
  cbn [mbind option_bind]. destruct (res k); intros [= <-]; [by right; right|by apply Ha].
Qed.
Lemma attributed_mono meta meta' g : dom (ms_view meta) ⊆ dom (ms_view meta') →
  attributed meta g → attributed meta' g.
Proof.
  intros Hd Ha k row Hk. destruct (Ha k row Hk) as [?|[Hs|?]]; [by left|right; left|by right; right].
  by apply elem_of_dom, Hd, elem_of_dom.
Qed.

Context {Err : Type} (fault : nat → option Err).
Implicit Types (c : macs M) (mac : Z) (want : TenantMeta).

Lemma learnMAC_settler routers c mac want g : ms_ok (mc_meta c) → mc_settler c = Some g →
  mc_settler (learnMAC fault routers c (mac, want)) = Some
    (match ms_view (mc_meta c) !! mac with
     | Some cur => if SameAttribution cur want then g
                   else (Settle SettleRebase (SettleResolver routers
                          (λ k, if decide (VMMAC k ≠ mac) then None else Some cur)) g).1
     | None => g
     end).
Proof.
  intros Hok Hg. rewrite /learnMAC ms_Lookup_view //.
  destruct (ms_view (mc_meta c) !! mac) as [cur|].
  - destruct (SameAttribution cur want); simpl.
    + case_decide; last done. by destruct (insertMAC_fields fault mac want c) as (_ & E & _); rewrite /= E.
    + destruct (insertMAC_fields fault mac want (withSettler (settleAttributionChange routers mac cur (mc_settler c)) c))
        as (_ & -> & _). by rewrite /= Hg.
  - by destruct (insertMAC_fields fault mac want c) as (_ & E & _); rewrite /= E.
Qed.

Lemma learnMAC_quiet routers c mac want g :
  ms_ok (mc_meta c) → DeleteAt want = 0 → mac ≠ 0 →
  mc_settler c = Some g → attributed (mc_meta c) g →
  let c' := learnMAC fault routers c (mac, want) in
  ∃ g', mc_settler c' = Some g' ∧ attributed (mc_meta c') g' ∧
    quiet (conf (mc_meta c) routers g) (conf (mc_meta c') routers g').
Proof.
  intros Hok Hlive Hmac Hg Ha c'. pose proof (learnMAC_settler routers c mac want g Hok Hg) as Hs.
  destruct (learnMAC_view fault routers c mac want Hok Hlive) as [Hok' Hv]. fold c' in Hs, Hok', Hv.
  assert (dom (ms_view (mc_meta c)) ⊆ dom (ms_view (mc_meta c'))) as Hd by (rewrite Hv; set_solver).
  assert (∀ k, VMMAC k ≠ mac → collectorOwner (mc_meta c') routers k = collectorOwner (mc_meta c) routers k) as Hoff.
  { intros k Hk. apply collectorOwner_ext; [done..|]. by rewrite Hv lookup_insert_ne. }
  destruct (ms_view (mc_meta c) !! mac) as [cur|] eqn:Hcur;
    [destruct (SameAttribution cur want) eqn:Hsame|]; eexists; (split; [exact Hs|]);
    (split; [apply (attributed_mono (mc_meta c)); [done|]|]); try exact Ha; try by apply attributed_rebase.
  - apply quiet_reattribute. intros k row Hk. left.
    destruct (decide (VMMAC k = mac)) as [E|]; last by apply Hoff.
    apply SameAttribution_spec in Hsame. rewrite /collectorOwner /Resolver_Resolve !ms_Lookup_view //.
    rewrite Hv E lookup_insert_eq Hcur /=. destruct cur, want. rewrite /withDeleteAt /= in Hsame. by injection Hsame as -> -> -> -> ->.
  - apply quiet_rebase.
    + intros k m. case_decide as E; intros [= <-]. rewrite ms_Lookup_view //.
      by rewrite E.
    + intros k row Hk. case_decide as E; last done. intros _. left. by apply Hoff.
  - apply quiet_reattribute. intros k row Hk.
    destruct (decide (VMMAC k = mac)) as [E|]; last by left; apply Hoff.
    destruct (Ha k row Hk) as [?|[[? Hin]|?]]; [congruence| |by right].
    rewrite E in Hin. congruence.
Qed.

Lemma learn_rows_quiet routers l c g :
  ms_ok (mc_meta c) → Forall (λ kv, DeleteAt kv.2 = 0 ∧ kv.1 ≠ 0) l →
  mc_settler c = Some g → attributed (mc_meta c) g →
  let c' := foldl (learnMAC fault routers) c l in
  ∃ g', mc_settler c' = Some g' ∧ attributed (mc_meta c') g' ∧
    quiet (conf (mc_meta c) routers g) (conf (mc_meta c') routers g').
Proof.
  induction l as [|[mac want] l IH] in c, g |- *; intros Hok Hall Hg Ha; first by exists g.
  apply Forall_cons in Hall as [[Hlive Hmac] Hall].
  destruct (learnMAC_quiet routers c mac want g Hok Hlive Hmac Hg Ha) as (g1 & Hg1 & Ha1 & Hq1).
  destruct (learnMAC_view fault routers c mac want Hok Hlive) as [Hok1 _].
  destruct (IH _ g1 Hok1 Hall Hg1 Ha1) as (g2 & Hg2 & Ha2 & Hq2).
  exists g2. split_and!; [done..|by etrans].
Qed.

(** The router map: the interfaces whose label changed. *)
Lemma elem_of_changedRouters desired old x :
  x ∈ changedRouters desired old ↔ desired !! x ≠ old !! x.
Proof.
  rewrite /changedRouters.
  rewrite (elem_of_foldl (λ (s : gset Z) x, x ∈ s) _ (λ kv x, kv.1 = x ∧ desired !! kv.1 = None)).
  { intros s [k v] y. simpl. destruct (desired !! k); set_solver. }
  rewrite (elem_of_foldl (λ (s : gset Z) x, x ∈ s) _ (λ kv x, kv.1 = x ∧ old !! kv.1 ≠ Some kv.2)).
  { intros s [k v] y. simpl. destruct (old !! k) as [o|]; [case_decide|]; set_solver. }
  split.
  - intros [[?|([k v] & Hin%elem_of_go_range & <- & Hne)]|([k v] & Hin%elem_of_go_range & <- & Hn)];
      [set_solver| |]; simpl in *; rewrite Hin; [congruence|by rewrite Hn].
  - intros Hne. destruct (desired !! x) as [v|] eqn:Ed.
    + left. right. exists (x, v). rewrite elem_of_go_range. split_and!; [done..|]. simpl. congruence.
    + right. destruct (old !! x) as [v|] eqn:Eo; last done.
      exists (x, v). by rewrite elem_of_go_range.
Qed.
Lemma router_owner meta old desired k :
  (ms_Lookup (VMMAC k) meta = None ∨ DstZone k ≠ ZoneExternal ∨ desired !! PeerMAC k = old !! PeerMAC k) →
  collectorOwner meta (Some desired) k = collectorOwner meta (Some old) k.
Proof.
  rewrite /collectorOwner /Resolver_Resolve /resolveMeta /FlowExternalLabel.
  intros [->|[Hz|Hp]]; first done; destruct (ms_Lookup _ _); try done.
  - by rewrite !decide_True.
  - case_decide; first done. cbn [mbind option_bind]. by rewrite Hp.
Qed.
Lemma routers_quiet meta old desired g :
  quiet (conf meta (Some old) g)
    (conf meta (Some desired) (Settle SettleRebase (routerResolver old meta (changedRouters desired old)) g).1).
Proof.
  apply quiet_rebase.
  - intros k m. by case_decide.
  - intros k row _ Hn. left. apply router_owner. case_decide as Hc; last by left.
    right. destruct Hc as [?|Hc]; [by left|right].
    apply dec_stable. intros Hne. by apply Hc, elem_of_changedRouters.
Qed.
End counters.

Section ghosts.
Context `{GoRange} `{MetaStore M}.

Lemma goneRow_rows desired l acc :
  rangeWhile (goneRow desired) acc l =
  (acc.1 ++ (filter (λ kv, DeleteAt kv.2 = 0 ∧ desired !! kv.1 = None) l).*1,
   acc.2 + Z.of_nat (length (filter (λ kv, DeleteAt kv.2 = 0) l))).
Proof.
  induction l as [|[mac m] l IH] in acc |- *; destruct acc as [gone n].
  { simpl. by rewrite app_nil_r Z.add_0_r. }
  cbn [rangeWhile goneRow]. rewrite !filter_cons /=.
  destruct (decide (DeleteAt m = 0)) as [Hd|Hd].
  - rewrite IH /=. destruct (desired !! mac) eqn:E.
    + rewrite decide_False; [naive_solver|]. f_equal. lia.
    + rewrite decide_True; [done|]. rewrite -app_assoc. f_equal. lia.
  - rewrite IH /= decide_False; [naive_solver|]. done.
Qed.
Lemma mark_rows ks (m : M) at_ : ms_ok m →
  ms_ok (foldl (λ m mac, (ms_MarkDelete mac at_ m).1) m ks) ∧
  ∀ mac, ms_view (foldl (λ m mac, (ms_MarkDelete mac at_ m).1) m ks) !! mac =
    if decide (mac ∈ ks) then (λ v, withDeleteAt v at_) <$> ms_view m !! mac else ms_view m !! mac.
Proof.
  induction ks as [|k ks IH] in m |- *; intros Hok; first done.
  destruct (ms_MarkDelete_view m k at_ Hok) as (Hok1 & Hv & _). cbn [foldl].
  destruct (IH _ Hok1) as [? Hvs]. split; first done. intros mac. rewrite Hvs Hv.
  destruct (decide (mac = k)) as [->|Hne].
  - rewrite lookup_alter_eq. destruct (decide (k ∈ k :: ks)) as [_|[]]; last by left.
    case_decide; last done. by destruct (ms_view m !! k).
  - rewrite lookup_alter_ne //. apply decide_ext. rewrite elem_of_cons. naive_solver.
Qed.

(** Live entries that left the target start their grace; ghosts keep their
    deadline. *)
Definition ghosted (desired : gmap Z TenantMeta) (deadline : Z) (mac : Z) (m : TenantMeta) : TenantMeta :=
  if decide (DeleteAt m = 0 ∧ desired !! mac = None) then withDeleteAt m deadline else m.
Lemma ghostGoneMACs_view grace desired now (meta : M) : ms_ok meta →
  let '(meta', n, live) := ghostGoneMACs grace desired now meta in
  ms_ok meta' ∧
  (∀ mac, ms_view meta' !! mac = ghosted desired (now + grace) mac <$> ms_view meta !! mac) ∧
  n = Z.of_nat (length (filter (λ kv, DeleteAt kv.2 = 0 ∧ desired !! kv.1 = None) (map_to_list (ms_view meta)))) ∧
  live = Z.of_nat (length (filter (λ kv, DeleteAt kv.2 = 0) (map_to_list (ms_view meta)))).
Proof.
  intros Hok. rewrite /ghostGoneMACs goneRow_rows /=.
  set (ks := (filter _ (ms_Range meta)).*1). destruct (mark_rows ks meta (now + grace) Hok) as [? Hv].
  split_and!; first done.
  - intros mac. rewrite Hv. rewrite /ghosted. destruct (ms_view meta !! mac) as [m|] eqn:E.
    + cbn [fmap option_fmap option_map].
      assert (mac ∈ ks ↔ DeleteAt m = 0 ∧ desired !! mac = None) as Hin.
      { rewrite /ks list_elem_of_fmap. split.
        - intros ([k m'] & -> & [Hc Hin]%list_elem_of_filter).
          rewrite (ms_Range_view meta Hok) elem_of_map_to_list in Hin. simpl in *. naive_solver.
        - intros Hc. exists (mac, m). split; first done. apply list_elem_of_filter. split; first done.
          by rewrite (ms_Range_view meta Hok) elem_of_map_to_list. }
      destruct (decide (mac ∈ ks)) as [Hk|Hk].
      * rewrite decide_True //. by apply Hin.
      * rewrite decide_False //. by intros ?%Hin.
    + by case_decide.
  - by rewrite /ks length_fmap (ms_Range_view meta Hok).
  - by rewrite (ms_Range_view meta Hok).
Qed.
End ghosts.

(** ** The kernel's MAC map *)

(** The kernel holds the packed tenant of every MAC of the store. *)
Definition kernel_value (t : TenantInterner) (m : TenantMeta) : Z :=
  TenantValue (tid t (ProjectID m)) (IsAmphora m).
Definition knows_store (t : TenantInterner) (view : gmap Z TenantMeta) : Prop :=
  map_Forall (λ _ m, knows t (ProjectID m)) view.
Definition mirrors (t : TenantInterner) (view : gmap Z TenantMeta) (rows : gmap Z Z) : Prop :=
  knows_store t view ∧ rows = kernel_value t <$> view.

Lemma mirrors_ext t t' view rows : ext t t' → mirrors t view rows → mirrors t' view rows.
Proof.
  intros He [Hk ->]. split.
  - intros mac m Hm. eapply knows_ext; [done|by eapply Hk].
  - apply map_fmap_ext. intros mac m Hm. rewrite /kernel_value (tid_ext t t') //. by eapply Hk.
Qed.
Lemma mirrors_insert t view rows mac m : knows t (ProjectID m) → mirrors t view rows →
  mirrors t (<[mac := m]> view) (<[mac := kernel_value t m]> rows).
Proof.
  intros Hm [Hk ->]. split; first by apply map_Forall_insert_2.
  by rewrite fmap_insert.
Qed.

Section mirror.
Context `{GoRange} `{MetaStore M} {Err : Type} (fault : nat → option Err).
Variable routers : option RouterMap.
Implicit Types (c : macs M) (mac : Z) (want : TenantMeta).
Notation learnMAC := (learnMAC fault routers).

(** What one row does to the kernel and the interner: nothing, or one write. *)
Lemma learnMAC_kernel c mac want : ms_ok (mc_meta c) → DeleteAt want = 0 →
  let c' := learnMAC c (mac, want) in
  (mc_kernel c' = mc_kernel c ∧ mc_interner c' = mc_interner c ∧ mc_meta c' = mc_meta c) ∨
  (mc_interner c' = (Intern (ProjectID want) (mc_interner c)).2 ∧
   mc_kernel c' = (Update fault mac (TenantValue (Intern (ProjectID want) (mc_interner c)).1 (IsAmphora want))
     (mc_kernel c)).1 ∧
   ms_view (mc_meta c') = <[mac := want]> (ms_view (mc_meta c))).
Proof.
  intros Hok Hlive. cbn zeta. destruct (learnMAC_view fault routers c mac want Hok Hlive) as [_ Hv].
  rewrite Hv. rewrite /Reconcile.learnMAC. destruct (ms_Lookup mac (mc_meta c)) as [cur|].
  - destruct (SameAttribution cur want); simpl.
    + case_decide; [right|by left].
      destruct (insertMAC_fields fault mac want c) as (_ & _ & Ei & Ek). by rewrite /= Ei Ek.
    + right. destruct (insertMAC_fields fault mac want
        (withSettler (settleAttributionChange routers mac cur (mc_settler c)) c)) as (_ & _ & -> & ->). done.
  - right. destruct (insertMAC_fields fault mac want c) as (_ & _ & Ei & Ek). by rewrite /= Ei Ek.
Qed.

Lemma learn_rows_mirror l c :
  (∀ i, fault i = None) → ms_ok (mc_meta c) → Forall (λ kv, DeleteAt kv.2 = 0) l →
  interner_ok (mc_interner c) → nextID (mc_interner c) + Z.of_nat (length l) < 2 ^ 32 →
  mirrors (mc_interner c) (ms_view (mc_meta c)) (krows (mc_kernel c)) →
  let c' := foldl learnMAC c l in
  interner_ok (mc_interner c') ∧ ext (mc_interner c) (mc_interner c') ∧
  nextID (mc_interner c') ≤ nextID (mc_interner c) + Z.of_nat (length l) ∧
  mirrors (mc_interner c') (ms_view (mc_meta c')) (krows (mc_kernel c')).
Proof.
  intros Hf. induction l as [|[mac want] l IH] in c |- *; intros Hok Hall Hi Hcap Hmir.
  { split_and!; [done..|simpl; lia|done]. }
  apply Forall_cons in Hall as [Hlive Hall]. cbn [length] in Hcap. cbn [foldl].
  destruct (learnMAC_view fault routers c mac want Hok Hlive) as [Hok1 _].
  destruct (Intern_step (ProjectID want) (mc_interner c) Hi) as (Hi1 & Hle & He1 & Hk1 & Hid); first lia.
  simpl in Hlive. set (c1 := learnMAC c (mac, want)) in *.
  assert (interner_ok (mc_interner c1) ∧ ext (mc_interner c) (mc_interner c1) ∧
    nextID (mc_interner c1) ≤ nextID (mc_interner c) + 1 ∧
    mirrors (mc_interner c1) (ms_view (mc_meta c1)) (krows (mc_kernel c1))) as (Hi2 & He2 & Hle2 & Hm2).
  { destruct (learnMAC_kernel c mac want Hok Hlive) as [(Ek & Ei & Em)|(Ei & Ek & Ev)]; fold c1 in Ek, Ei.
    - rewrite Ek Ei. fold c1 in Em. rewrite Em. split_and!; [done..|lia|done].
    - fold c1 in Ev. rewrite Ei Ek Ev /Update Hf Hid /=. split_and!; [done..|].
      apply mirrors_insert; [done|]. by eapply mirrors_ext. }
  destruct (IH c1 Hok1 Hall Hi2) as (? & He & Hle3 & ?); [lia|done|].
  split_and!; [done|by etrans|cbn [length]; lia|done].
Qed.

(** Userspace first: whatever fails, no row leaves the kernel with a MAC the
    store lacks. *)
Lemma learn_rows_subset l c : ms_ok (mc_meta c) → Forall (λ kv, DeleteAt kv.2 = 0) l →
  dom (krows (mc_kernel c)) ⊆ dom (ms_view (mc_meta c)) →
  let c' := foldl learnMAC c l in dom (krows (mc_kernel c')) ⊆ dom (ms_view (mc_meta c')).
Proof.
  induction l as [|[mac want] l IH] in c |- *; intros Hok Hall Hd; first done.
  apply Forall_cons in Hall as [Hlive Hall]. simpl in Hlive. cbn [foldl].
  apply IH; [by apply learnMAC_view|done|].
  destruct (learnMAC_kernel c mac want Hok Hlive) as [(-> & _ & ->)|(_ & -> & ->)]; first done.
  rewrite /Update. destruct (fault _); simpl; set_solver.
Qed.
End mirror.

Lemma mirrors_ghosted t desired deadline view view' rows :
  (∀ mac, view' !! mac = ghosted desired deadline mac <$> view !! mac) →
  mirrors t view rows → mirrors t view' rows.
Proof.
  intros Hv [Hk ->].
  assert (∀ mac m, ProjectID (ghosted desired deadline mac m) = ProjectID m ∧
    IsAmphora (ghosted desired deadline mac m) = IsAmphora m) as Hg.
  { intros mac m. rewrite /ghosted. by case_decide. }
  split.
  - intros mac m. rewrite Hv. destruct (view !! mac) as [m0|] eqn:E; last done. intros [= <-].
    destruct (Hg mac m0) as [-> _]. by eapply Hk.
  - apply map_eq. intros mac. rewrite !lookup_fmap Hv. destruct (view !! mac) as [m|]; last done.
    cbn [fmap option_fmap option_map]. rewrite /kernel_value. by destruct (Hg mac m) as [-> ->].
Qed.

(** ** One pass over a wired reconciler *)

Section pass.
Context `{GoRange} `{MetaStore M} {Err : Type} (endian : Endian).
Variables faultM faultT faultA : nat → option Err.
Variables (grace now : Z) (snap : Snapshot).
Notation desired := (DesiredMACs snap).
Implicit Types (r : Reconciler M) (meta : M).

Lemma desired_rows : Forall (λ kv, DeleteAt kv.2 = 0) (go_range desired).
Proof.
  apply Forall_forall. intros [mac m] Hin%elem_of_go_range. by eapply DesiredMACs_live.
Qed.
Lemma desired_Forall : map_Forall (λ _ m, DeleteAt m = 0) desired.
Proof. intros mac m. apply DesiredMACs_live. Qed.

Lemma reconcileMACs_parts r meta kernel :
  rc_meta r = Some meta → rc_macWriter r = Some kernel →
  let c := learnMACs faultM (rc_routers r) desired (mkMacs meta kernel (rc_interner r) (rc_settler r) 0 0) in
  let r' := (reconcileMACs faultM grace snap now r).1 in
  rc_meta r' = Some (ghostGoneMACs grace desired now (mc_meta c)).1.1 ∧
  rc_macWriter r' = Some (mc_kernel c) ∧ rc_interner r' = mc_interner c ∧
  rc_settler r' = mc_settler c ∧ rc_routers r' = rc_routers r ∧
  rc_src r' = rc_src r ∧ rc_trie r' = rc_trie r ∧ rc_runs r' = rc_runs r.
Proof.
  intros Hm Hk. cbn zeta. rewrite /reconcileMACs Hm Hk.
  by destruct (ghostGoneMACs _ _ _ _) as [[meta' n] live].
Qed.

(** The store and the kernel after the MAC part of a pass. *)
Lemma reconcileMACs_view r meta kernel :
  rc_meta r = Some meta → rc_macWriter r = Some kernel → ms_ok meta →
  let r' := (reconcileMACs faultM grace snap now r).1 in
  ∃ meta' kernel', rc_meta r' = Some meta' ∧ rc_macWriter r' = Some kernel' ∧ ms_ok meta' ∧
    (∀ mac, ms_view meta' !! mac =
       match desired !! mac with
       | Some want => Some want
       | None => ghosted desired (now + grace) mac <$> ms_view meta !! mac
       end) ∧
    (dom (krows kernel) ⊆ dom (ms_view meta) → dom (krows kernel') ⊆ dom (ms_view meta')) ∧
    ((∀ i, faultM i = None) → interner_ok (rc_interner r) →
     nextID (rc_interner r) + Z.of_nat (size desired) < 2 ^ 32 →
     mirrors (rc_interner r) (ms_view meta) (krows kernel) →
     interner_ok (rc_interner r') ∧ mirrors (rc_interner r') (ms_view meta') (krows kernel')).
Proof.
  intros Hm Hk Hok. cbn zeta. destruct (reconcileMACs_parts r meta kernel Hm Hk) as (-> & -> & -> & _).
  set (c0 := mkMacs meta kernel (rc_interner r) (rc_settler r) 0 0).
  set (c := learnMACs faultM (rc_routers r) desired c0).
  destruct (learnMACs_view faultM (rc_routers r) desired c0 Hok desired_Forall) as [Hok1 Hv1]. fold c in Hok1, Hv1.
  pose proof (ghostGoneMACs_view grace desired now (mc_meta c) Hok1) as Hg.
  destruct (ghostGoneMACs _ _ _ _) as [[meta' n] live]. destruct Hg as (Hok2 & Hv2 & _).
  assert (∀ mac, ms_view meta' !! mac =
    match desired !! mac with
    | Some want => Some want
    | None => ghosted desired (now + grace) mac <$> ms_view meta !! mac
    end) as Hview.
  { intros mac. rewrite Hv2 Hv1 lookup_union. destruct (desired !! mac) as [want|] eqn:E.
    - rewrite (union_Some_l want). cbn. f_equal. rewrite /ghosted decide_False //. intros [_ ?]. congruence.
    - by rewrite left_id_L. }
  exists meta', (mc_kernel c). split_and!; try done.
  - intros Hsub. transitivity (dom (ms_view (mc_meta c))).
    + by apply (learn_rows_subset faultM (rc_routers r) (go_range desired) c0 Hok desired_rows).
    + intros mac [m E]%elem_of_dom. apply elem_of_dom. rewrite Hv2 E. by eexists.
  - intros Hf Hi Hcap Hmir.
    destruct (learn_rows_mirror faultM (rc_routers r) (go_range desired) c0) as (Hi1 & _ & _ & Hm1); try done.
    + apply desired_rows.
    + by rewrite length_go_range.
    + split; first done. by eapply mirrors_ghosted.
Qed.

(** C33: The MAC reconcile reaches its target: every admitted port's MAC carries
    exactly the port's attribution, live; every other live entry starts its
    grace; ghosts keep their deadline.  When no call fails, the kernel then holds
    the packed tenant of every MAC of the store and nothing else. *)
Theorem reconcile_macs_exact r meta kernel :
  rc_meta r = Some meta → rc_macWriter r = Some kernel → ms_ok meta →
  let r' := (reconcileMACs faultM grace snap now r).1 in
  ∃ meta' kernel', rc_meta r' = Some meta' ∧ rc_macWriter r' = Some kernel' ∧ ms_ok meta' ∧
    (∀ mac, ms_view meta' !! mac =
       match desired !! mac with
       | Some want => Some want
       | None => ghosted desired (now + grace) mac <$> ms_view meta !! mac
       end) ∧
    ((∀ i, faultM i = None) → interner_ok (rc_interner r) →
     nextID (rc_interner r) + Z.of_nat (size desired) < 2 ^ 32 →
     mirrors (rc_interner r) (ms_view meta) (krows kernel) →
     interner_ok (rc_interner r') ∧ mirrors (rc_interner r') (ms_view meta') (krows kernel')).
Proof.
  intros Hm Hk Hok. destruct (reconcileMACs_view r meta kernel Hm Hk Hok) as (m' & k' & ? & ? & ? & ? & _ & ?).
  by exists m', k'.
Qed.

(** The kernel's MACs stay within the store's through the whole MAC reconcile,
    whatever calls fail: after every learned row, in any order, and after the
    ghosts are marked. *)
Theorem reconcile_kernel_subset r meta kernel :
  rc_meta r = Some meta → rc_macWriter r = Some kernel → ms_ok meta →
  dom (krows kernel) ⊆ dom (ms_view meta) →
  (∀ l1 l2, go_range desired = l1 ++ l2 →
     let c := foldl (learnMAC faultM (rc_routers r)) (mkMacs meta kernel (rc_interner r) (rc_settler r) 0 0) l1 in
     dom (krows (mc_kernel c)) ⊆ dom (ms_view (mc_meta c))) ∧
  ∃ meta' kernel', rc_meta (reconcileMACs faultM grace snap now r).1 = Some meta' ∧
    rc_macWriter (reconcileMACs faultM grace snap now r).1 = Some kernel' ∧
    dom (krows kernel') ⊆ dom (ms_view meta').
Proof.
  intros Hm Hk Hok Hsub. split.
  - intros l1 l2 El. pose proof desired_rows as Hl. rewrite El in Hl. apply Forall_app in Hl as [Hl _].
    by apply learn_rows_subset.
  - destruct (reconcileMACs_view r meta kernel Hm Hk Hok) as (m' & k' & ? & ? & _ & _ & Hd & _).
    exists m', k'. by split_and!; last apply Hd.
Qed.
End pass.

(** ** What a pass does to the exposed series *)

Section series.
Context `{GoRange} `{MetaStore M} {Err : Type} (endian : Endian).
Variables faultM faultT faultA : nat → option Err.
Variables (grace now : Z) (T S : string → Prop).
Notation conf meta routers g := (mkConfig (collectorOwner meta routers) g).

(** A reconciler with every seam of the counters wired, in a consistent state. *)
Definition wired (r : Reconciler M) (meta : M) (routers : RouterMap) (g : GlobalState) : Prop :=
  rc_meta r = Some meta ∧ is_Some (rc_macWriter r) ∧ rc_routers r = Some routers ∧
  rc_settler r = Some g ∧ ms_ok meta ∧ attributed meta g.
(** [r'] exposes what [r] does, up to the series the prunes may end. *)
Definition keeps_series (r r' : Reconciler M) : Prop :=
  ∀ meta routers g, wired r meta routers g →
  ∃ meta' routers' g', wired r' meta' routers' g' ∧
    quiet T S (conf meta (Some routers) g) (conf meta' (Some routers') g').
#[export] Instance keeps_series_preorder : PreOrder keeps_series.
Proof.
  split; [by intros r meta routers g Hw; exists meta, routers, g|].
  intros r1 r2 r3 H12 H23 meta routers g Hw.
  destruct (H12 _ _ _ Hw) as (m2 & rt2 & g2 & Hw2 & Hq2).
  destruct (H23 _ _ _ Hw2) as (m3 & rt3 & g3 & Hw3 & Hq3).
  exists m3, rt3, g3. split; [done|by etrans].
Qed.
(** Steps that touch none of the four seams. *)
Lemma keeps_same r r' : rc_meta r' = rc_meta r → rc_macWriter r' = rc_macWriter r →
  rc_routers r' = rc_routers r → rc_settler r' = rc_settler r → keeps_series r r'.
Proof.
  intros E1 E2 E3 E4 meta routers g. rewrite /wired -E1 -E2 -E3 -E4. intros Hw.
  by exists meta, routers, g.
Qed.

Lemma reconcileMACs_keeps snap r : DesiredMACs snap !! 0 = None →
  keeps_series r (reconcileMACs faultM grace snap now r).1.
Proof.
  intros Hzero meta routers g (Hm & [kernel Hk] & Hr & Hs & Hok & Ha).
  pose proof (reconcileMACs_parts faultM grace now snap r meta kernel Hm Hk) as Hparts.
  cbn zeta in Hparts. rewrite Hr Hs in Hparts. destruct Hparts as (Em & Ek & _ & Es & Er & _).
  rewrite /wired Em Ek Es Er.
  set (c0 := mkMacs meta kernel (rc_interner r) (Some g) 0 0).
  destruct (learn_rows_quiet T S faultM (Some routers) (go_range (DesiredMACs snap)) c0 g)
    as (g1 & Hg1 & Ha1 & Hq1); try done.
  { apply Forall_forall. intros [mac m] Hin%elem_of_go_range.
    split; [by eapply DesiredMACs_live|]. simpl. intros ->. congruence. }
  fold (learnMACs faultM (Some routers) (DesiredMACs snap) c0) in Hg1, Ha1, Hq1.
  set (c := learnMACs _ _ _ _) in *.
  destruct (learnMACs_view faultM (Some routers) (DesiredMACs snap) c0 Hok (desired_Forall snap)) as [Hok1 _].
  fold c in Hok1. pose proof (ghostGoneMACs_view grace (DesiredMACs snap) now (mc_meta c) Hok1) as Hg.
  destruct (ghostGoneMACs _ _ _ _) as [[meta' n] live]. destruct Hg as (Hok2 & Hv2 & _).
  exists meta', routers, g1. split.
  - split_and!; try done. apply (attributed_mono (mc_meta c)); last done.
    intros mac [m E]%elem_of_dom. apply elem_of_dom. rewrite Hv2 E. by eexists.
  - etrans; [exact Hq1|]. apply quiet_reattribute. intros k row _. left.
    rewrite /collectorOwner /Resolver_Resolve !ms_Lookup_view // Hv2.
    destruct (ms_view (mc_meta c) !! VMMAC k) as [m|]; last done.
    cbn [fmap option_fmap option_map resolveMeta]. rewrite /ghosted. by case_decide.
Qed.
Lemma reconcileRouterMACs_keeps snap r : keeps_series r (reconcileRouterMACs snap r).1.
Proof.
  intros meta routers g (Hm & Hk & Hr & Hs & Hok & Ha). rewrite /reconcileRouterMACs Hr.
  case_decide as E; first by exists meta, routers, g.
  rewrite Hs Hm. eexists meta, (RouterExtMACs snap), _. split.
  - split_and!; try done. by apply attributed_rebase.
  - apply routers_quiet.
Qed.
Lemma reconcileAmphora_keeps snap r : keeps_series r (reconcileAmphoraIPs endian faultA snap r).1.
Proof.
  rewrite /reconcileAmphoraIPs. destruct (rc_amphoraIPs r); last done.
  destruct (WriteAmphoraBaseIPs _ _ _ _ _). by apply keeps_same.
Qed.
Lemma pruneServer_keeps servers r :
  (servers ≠ [] → ∀ x, S x → x ∈ Serv_ID <$> servers) → keeps_series r (pruneServerSettled servers r).
Proof.
  intros HS. rewrite /pruneServerSettled. case_decide as E; first done.
  intros meta routers g (Hm & Hk & Hr & Hs & Hok & Ha).
  destruct (PruneServer_frame (list_to_set (Serv_ID <$> servers)) g) as (Ec & _).
  eexists meta, routers, _. split.
  - rewrite /wired /= Hs. split_and!; try done. intros k row. rewrite Ec. apply Ha.
  - refine (quiet_step T S _ (EPruneServer (list_to_set (Serv_ID <$> servers))) I _).
    intros x Hx. apply elem_of_list_to_set, HS; last done. by intros ->.
Qed.
Lemma pruneTenant_keeps projects r :
  (projects ≠ [] → ∀ x, T x → x = UnknownTenantID ∨ x ∈ Proj_ID <$> projects) →
  keeps_series r (pruneTenantSettled projects r).
Proof.
  intros HT. rewrite /pruneTenantSettled. case_decide as E; first done.
  intros meta routers g (Hm & Hk & Hr & Hs & Hok & Ha).
  set (alive := {[UnknownTenantID]} ∪ list_to_set (Proj_ID <$> projects) : gset string).
  destruct (PruneTenant_frame alive g) as (Ec & _).
  eexists meta, routers, _. split.
  - rewrite /wired /= Hs. split_and!; try done. intros k row. rewrite Ec. apply Ha.
  - refine (quiet_step T S _ (EPruneTenant alive) I _).
    intros x Hx. rewrite /alive. destruct (HT ltac:(by intros ->) x Hx) as [->|?]; set_solver.
Qed.

Lemma refreshMapGauges_keeps trieRows amphoraRows r :
  keeps_series r (refreshMapGauges trieRows amphoraRows r).
Proof. rewrite /refreshMapGauges. destruct (rc_bpfGauge r); [by apply keeps_same|done]. Qed.

Lemma reconcileOnce_keeps (answer : Err + SyncResult) r :
  (∀ result, answer = inr result →
     DesiredMACs (SR_Snapshot result) !! 0 = None ∧
     (Servers (SR_Snapshot result) ≠ [] → ∀ x, S x → x ∈ Serv_ID <$> Servers (SR_Snapshot result)) ∧
     (Projects (SR_Snapshot result) ≠ [] →
        ∀ x, T x → x = UnknownTenantID ∨ x ∈ Proj_ID <$> Projects (SR_Snapshot result))) →
  keeps_series r (reconcileOnce endian faultM faultT faultA grace answer now r).
Proof.
  intros Hans. rewrite /reconcileOnce /fetch. destruct answer as [e|result]; first by apply keeps_same.
  destruct (Hans result eq_refl) as (Hzero & HS & HT). rewrite /applyTrie.
  destruct (ApplyTrieDelta _ _ _ _ _ _) as [d t].
  set (r1 := mkReconciler (rc_src r) (d_map d) _ _ _ _ _ _ _ _ _).
  assert (keeps_series r r1) as K1 by by apply keeps_same.
  destruct (d_err d); first by (etrans; [exact K1|by apply keeps_same]).
  pose proof (reconcileMACs_keeps (SR_Snapshot result) r1 Hzero) as K2.
  destruct (reconcileMACs _ _ _ _ r1) as [r2 delta]. cbn [fst] in K2.
  pose proof (reconcileRouterMACs_keeps (SR_Snapshot result) r2) as K3.
  destruct (reconcileRouterMACs _ r2) as [r3 n3]. cbn [fst] in K3.
  pose proof (reconcileAmphora_keeps (SR_Snapshot result) r3) as K4.
  destruct (reconcileAmphoraIPs _ _ _ r3) as [r4 nAmp]. cbn [fst] in K4.
  etrans; [exact K1|]. etrans; [exact K2|]. etrans; [exact K3|]. etrans; [exact K4|].
  transitivity (withRun "ok" (commit result now r4)); first by apply keeps_same.
  etrans; [exact (pruneServer_keeps _ _ HS)|]. etrans; [exact (pruneTenant_keeps _ _ HT)|].
  apply refreshMapGauges_keeps.
Qed.
End series.

(** What the live rows alone show of a project's or a server's series: what they
    have counted since they were last folded. *)
Definition liveTenant (c : config) : gmap TenantSettledKey settledTotal :=
  tally (map_to_list (counts (c_state c)) ≫= tenantRow (c_attr c)).
Definition liveServer (c : config) : gmap ServerSettledKey settledTotal :=
  tally (map_to_list (counts (c_state c)) ≫= serverRow (c_attr c)).
Lemma tenant_unsettled c k : tenantSettled (c_state c) !! k = None → value k (tenantTier c) = value k (liveTenant c).
Proof.
  intros E. rewrite /tenantTier /exposedTenant value_tally_app value_tally_rows E -/(liveTenant c). cbn [from_option].
  rewrite (comm_L acc_add). exact (idle_tally _ k).
Qed.
Lemma server_unsettled c k : serverSettled (c_state c) !! k = None → value k (serverTier c) = value k (liveServer c).
Proof.
  intros E. rewrite /serverTier /exposedServer value_tally_app value_tally_rows E -/(liveServer c). cbn [from_option].
  rewrite (comm_L acc_add). exact (idle_tally _ k).
Qed.

Section pass_theorems.
Context `{GoRange} `{MetaStore M} {Err : Type} (endian : Endian).
Variables faultM faultT faultA : nat → option Err.
Variables (grace now : Z) (answer : Err + SyncResult) (r : Reconciler M).
Notation r' := (reconcileOnce endian faultM faultT faultA grace answer now r).
Notation conf meta routers g := (mkConfig (collectorOwner meta (Some routers)) g).

(** The names the prunes of this pass spare. *)
Definition project_alive (x : string) : Prop :=
  ∀ result, answer = inr result → Projects (SR_Snapshot result) = [] ∨
    x = UnknownTenantID ∨ x ∈ Proj_ID <$> Projects (SR_Snapshot result).
Definition server_alive (x : string) : Prop :=
  ∀ result, answer = inr result → Servers (SR_Snapshot result) = [] ∨
    x ∈ Serv_ID <$> Servers (SR_Snapshot result).

(** A pass cut short touches nothing the series are made of. *)
Lemma cut_short_keeps : rc_runs r' ≠ rc_runs r ++ ["ok"] →
  rc_meta r' = rc_meta r ∧ rc_routers r' = rc_routers r ∧ rc_settler r' = rc_settler r.
Proof.
  rewrite /reconcileOnce /fetch /applyTrie. destruct answer as [e|result]; [done|].
  destruct (ApplyTrieDelta _ _ _ _ _ _) as [d t]. destruct (d_err d); [done|].
  set (r1 := mkReconciler _ _ _ _ _ _ _ _ _ _ _). intros Hne. exfalso. apply Hne.
  assert (rc_runs (reconcileMACs faultM grace (SR_Snapshot result) now r1).1 = rc_runs r) as E2.
  { rewrite /reconcileMACs. destruct (rc_meta r1), (rc_macWriter r1); try done. by destruct (ghostGoneMACs _ _ _ _) as [[? ?] ?]. }
  destruct (reconcileMACs _ _ _ _ r1) as [r2 delta]. cbn [fst] in E2.
  assert (rc_runs (reconcileRouterMACs (SR_Snapshot result) r2).1 = rc_runs r2) as E3.
  { rewrite /reconcileRouterMACs. destruct (rc_routers r2); [|done]. by case_decide. }
  destruct (reconcileRouterMACs _ r2) as [r3 n3]. cbn [fst] in E3.
  assert (rc_runs (reconcileAmphoraIPs endian faultA (SR_Snapshot result) r3).1 = rc_runs r3) as E4.
  { rewrite /reconcileAmphoraIPs. destruct (rc_amphoraIPs r3); [|done]. by destruct (WriteAmphoraBaseIPs _ _ _ _ _). }
  destruct (reconcileAmphoraIPs _ _ _ r3) as [r4 nAmp]. cbn [fst] in E4.
  assert (∀ n m r, rc_runs (refreshMapGauges n m r) = rc_runs r) as Eg.
  { intros n m r0. rewrite /refreshMapGauges. by destruct (rc_bpfGauge r0). }
  rewrite Eg /pruneTenantSettled /pruneServerSettled. by repeat case_decide; rewrite /= E4 E3 E2.
Qed.
(** A pass that ends has released the settled buckets of the names its lists lack. *)
Lemma ended_prunes g' : rc_settler r' = Some g' → rc_runs r' = rc_runs r ++ ["ok"] →
  (∀ k, ¬ project_alive (TS_Tenant k) → tenantSettled g' !! k = None) ∧
  (∀ k, ¬ server_alive (SS_ServerID k) → serverSettled g' !! k = None).
Proof.
  rewrite /reconcileOnce /fetch /applyTrie. destruct answer as [e|result] eqn:Eans.
  { intros _ E. apply app_inv_head in E. done. }
  destruct (ApplyTrieDelta _ _ _ _ _ _) as [d t]. destruct (d_err d).
  { intros _ E. apply app_inv_head in E. done. }
  destruct (reconcileMACs _ _ _ _ _) as [r2 delta]. destruct (reconcileRouterMACs _ r2) as [r3 n3].
  destruct (reconcileAmphoraIPs _ _ _ r3) as [r4 nAmp].
  assert (∀ n m r, rc_settler (refreshMapGauges n m r) = rc_settler r) as Eg.
  { intros n m r0. rewrite /refreshMapGauges. by destruct (rc_bpfGauge r0). }
  rewrite Eg. clear Eg. intros Hs _. rewrite /pruneTenantSettled /pruneServerSettled in Hs.
  set (snap := SR_Snapshot result) in *.
  assert (∀ x, ¬ project_alive x → Projects snap ≠ [] ∧ x ≠ UnknownTenantID ∧ x ∉ Proj_ID <$> Projects snap) as HT.
  { intros x Hx. split_and!; intros Hc; apply Hx; intros res E; rewrite Eans in E; injection E as <-; auto. }
  assert (∀ x, ¬ server_alive x → Servers snap ≠ [] ∧ x ∉ Serv_ID <$> Servers snap) as HS.
  { intros x Hx. split; intros Hc; apply Hx; intros res E; rewrite Eans in E; injection E as <-; auto. }
  split; intros k Hk.
  - destruct (HT _ Hk) as (Hne & Hu & Hin). case_decide as Hl; [by destruct (Projects snap)|].
    cbn [withSettled rc_settler] in Hs. destruct (rc_settler _) as [g0|]; [|done]. injection Hs as <-.
    rewrite PruneTenant_lookup. destruct (tenantSettled g0 !! k); [|done]. cbn [mbind option_bind].
    rewrite decide_False; [set_solver|done].
  - destruct (HS _ Hk) as (Hne & Hin).
    assert (∃ g1, Some g1 = settler_apply (PruneServerSettled (list_to_set (Serv_ID <$> Servers snap)))
      (rc_settler (withRun "ok" (commit result now r4))) ∧ serverSettled g' = serverSettled g1) as (g1 & E1 & ->).
    { destruct (decide (length (Servers snap) = 0%nat)); [by destruct (Servers snap)|].
      cbn [withSettled rc_settler] in Hs |- *. case_decide; cbn [withSettled rc_settler] in Hs; [by exists g'|].
      destruct (settler_apply (PruneServerSettled _) _) as [g1|]; [|done]. injection Hs as <-. exists g1. split; [done|].
      apply PruneTenant_frame. }
    rewrite /settler_apply in E1. destruct (rc_settler (withRun "ok" _)) as [g0|] in E1; [|done]. injection E1 as ->.
    rewrite PruneServer_lookup. destruct (serverSettled g0 !! k); [|done]. cbn [mbind option_bind].
    rewrite decide_False; [set_solver|done].
Qed.

(** C5: What a reconcile pass does to the exposed series, whatever calls fail and
    whatever it fetches, a list without a project or a server included.  The pass
    starts from a reconciler whose stores are wired to the counters and whose counted
    rows are of MACs the store knows, or synthetic, or empty ([wired]); no port it
    fetches bears the zero MAC, under which unattributed traffic is counted.  Then it
    moves no byte between series: every total is unchanged, and so is every series
    of a project or server that is still listed, or whose list came empty, through
    every re-attribution, router change and prune.  A pass that does not run to its
    end changes no series.  One that does ends the series of the names its lists
    lack: what they had settled stays in the totals alone, and what they still show
    is what their live rows have counted since they were last folded.  The state stays
    one the next pass can start from. *)
Theorem reconcile_moves_no_byte meta routers g :
  wired r meta routers g →
  (∀ result, answer = inr result → DesiredMACs (SR_Snapshot result) !! 0 = None) →
  ∃ meta' routers' g', wired r' meta' routers' g' ∧
    let c := conf meta routers g in
    let c' := conf meta' routers' g' in
    same_values (totalTier c') (totalTier c) ∧
    (∀ k, project_alive (TS_Tenant k) → value k (tenantTier c') = value k (tenantTier c)) ∧
    (∀ k, server_alive (SS_ServerID k) → value k (serverTier c') = value k (serverTier c)) ∧
    (rc_runs r' ≠ rc_runs r ++ ["ok"] → c' = c) ∧
    (rc_runs r' = rc_runs r ++ ["ok"] →
       (∀ k, ¬ project_alive (TS_Tenant k) →
          tenantSettled g' !! k = None ∧ value k (tenantTier c') = value k (liveTenant c')) ∧
       (∀ k, ¬ server_alive (SS_ServerID k) →
          serverSettled g' !! k = None ∧ value k (serverTier c') = value k (liveServer c'))).
Proof.
  intros Hw Hzero.
  destruct (reconcileOnce_keeps endian faultM faultT faultA grace now project_alive server_alive answer r)
    with meta routers g as (meta' & routers' & g' & Hw' & Hq); [|done|].
  { intros result E. split_and!; [by apply Hzero| |].
    - intros Hne x Hx. by destruct (Hx result E).
    - intros Hne x Hx. by destruct (Hx result E). }
  exists meta', routers', g'. split; first done. cbn zeta. split_and!.
  - by eapply quiet_total.
  - intros k. by eapply quiet_tenant.
  - intros k. by eapply quiet_server.
  - intros (Em & Er & Es)%cut_short_keeps. destruct Hw as (Hm & _ & Hr & Hs & _), Hw' as (Hm' & _ & Hr' & Hs' & _).
    rewrite Hm Hm' in Em. rewrite Hr Hr' in Er. rewrite Hs Hs' in Es. by simplify_eq.
  - intros Hok. assert (rc_settler r' = Some g') as Hs by apply Hw'. destruct (ended_prunes g' Hs Hok) as [HT HS].
    split; intros k Hk; (split; [by auto|]); [apply tenant_unsettled|apply server_unsettled]; simpl; auto.
Qed.

(** The error paths of a pass: a failed fetch changes nothing but the run
    record; a failed trie write commits nothing, and leaves the store, the MAC and
    router maps, the Amphora set and the counters as they were. *)
Theorem reconcile_errors :
  (∀ e, answer = inl e → r' = withRun "sync_error" r) ∧
  (∀ result, answer = inr result →
     let '(d, t) := ApplyTrieDelta faultT endian (rc_trie r) (Neutron_Trie (rc_src r)) (SR_Entries result)
                      (rc_interner r) in
     d_err d ≠ None →
     rc_src r' = rc_src r ∧ rc_meta r' = rc_meta r ∧ rc_macWriter r' = rc_macWriter r ∧
     rc_routers r' = rc_routers r ∧ rc_amphoraIPs r' = rc_amphoraIPs r ∧ rc_settler r' = rc_settler r ∧
     rc_trie r' = d_map d ∧ rc_runs r' = rc_runs r ++ ["apply_error"]).
Proof.
  split.
  - intros e ->. done.
  - intros result ->. rewrite /reconcileOnce /fetch /applyTrie.
    destruct (ApplyTrieDelta _ _ _ _ _ _) as [d t]. by destruct (d_err d).
Qed.
End pass_theorems.

(** ** A failed kernel write is not retried *)

Section retry.
Context `{GoRange} `{MetaStore M} {Err : Type} (fault : nat → option Err).

Lemma learn_settled routers l (c : macs M) : ms_ok (mc_meta c) →
  (∀ mac want, (mac, want) ∈ l → ms_view (mc_meta c) !! mac = Some want ∧ DeleteAt want = 0) →
  foldl (learnMAC fault routers) c l = c.
Proof.
  intros Hok. induction l as [|[mac want] l IH]; intros Hall; first done. cbn [foldl].
  destruct (Hall mac want) as [Hv Hlive]; first by left.
  assert (learnMAC fault routers c (mac, want) = c) as ->.
  { rewrite /learnMAC ms_Lookup_view // Hv. rewrite (proj2 (SameAttribution_spec want want)) //=.
    case_decide; [by exfalso; auto|done]. }
  apply IH. intros mac' want' ?. apply Hall. by right.
Qed.

(** Once the store holds the target, a pass over the same snapshot makes no
    kernel call at all: a write of the MAC map that failed in the pass before is
    not retried, though the code's comment says the next pass does, and the
    kernel keeps the old tenant for as long as the port keeps its attribution. *)
Theorem failed_write_not_retried routers snap (c : macs M) : ms_ok (mc_meta c) →
  let desired := DesiredMACs snap in
  let c1 := learnMACs fault routers desired c in
  learnMACs fault routers desired c1 = c1.
Proof.
  intros Hok. cbn zeta.
  destruct (learnMACs_view fault routers (DesiredMACs snap) c Hok (desired_Forall snap)) as [Hok1 Hv].
  apply learn_settled; first done. intros mac want Hin%elem_of_go_range.
  split; [|by eapply DesiredMACs_live]. rewrite Hv lookup_union Hin. by destruct (ms_view (mc_meta c) !! mac).
Qed.
End retry.

Module ReconcileExamples.
#[local] Existing Instance list_range.
Import Demo.

Definition ok_calls : nat → option string := λ _, None.
Definition all_fail : nat → option string := λ _, Some "E2BIG".
(** vmA's port was tenant tB's when the agent last looked. *)
Definition oldA : TenantMeta := mkMeta "tB" "srvOld" "vmA" "public" false 0.
Definition macA : MacAddr := mkMac 2 0 0 0 0 10.
Definition store : ShardedMetadataMap := ms_Insert (MACKey macA) oldA ms_new.
Lemma store_ok : ms_ok store.
Proof. apply ms_Insert_view, ms_new_ok. Qed.
Definition interner : TenantInterner := (Intern "tB" NewTenantInterner).2.
Definition kernelA : kmap Z Z := mkKmap {[MACKey macA := 1]} 0 [].
Definition flowA : FlowKey :=
  mkFlowKey macA (mkMac 2 0 0 0 1 10) 2048 DirectionIngress ZoneExternal L4ProtoTCP 0.
Definition counters : GlobalState := ApplyDelta flowA (mkFlowMetrics 1000 10 5 1) New.
Definition rec : Reconciler ShardedMetadataMap :=
  mkReconciler NewNeutron (mkKmap ∅ 0 []) (Some (mkKmap ∅ 0 [])) (Some store) (Some kernelA)
    (Some ∅) (Some counters) interner (Some 0) (Some ∅) [].
Definition result : SyncResult := resultFor 16 snap.
Definition answer : string + SyncResult := inr result.

Lemma counters_attributed : attributed store counters.
Proof.
  intros k row Hk. right. left.
  apply (map_Forall_lookup_1 (λ k _, is_Some (ms_view store !! VMMAC k)) (counts counters) k row); last done.
  apply (bool_decide_unpack _). by vm_compute.
Qed.
Lemma rec_wired : wired rec store ∅ counters.
Proof.
  split; [reflexivity|]. split; [exists kernelA; reflexivity|]. split; [reflexivity|].
  split; [reflexivity|]. split; [exact store_ok|exact counters_attributed].
Qed.
Lemma no_zero_mac : DesiredMACs snap !! 0 = None.
Proof. by vm_compute. Qed.

Lemma reconcile_moves_no_byte_witness :
  let r' := reconcileOnce LittleEndian ok_calls ok_calls all_fail 60 answer 1000 rec in
  ∃ meta' routers' g', wired r' meta' routers' g' ∧
    same_values (totalTier (mkConfig (collectorOwner meta' (Some routers')) g'))
      (totalTier (mkConfig (collectorOwner store (Some ∅)) counters)).
Proof.
  cbn zeta.
  destruct (reconcile_moves_no_byte LittleEndian ok_calls ok_calls all_fail 60 1000 answer rec
    store ∅ counters rec_wired) as (meta' & routers' & g' & Hw & Ht & _).
  { intros res [= <-]. exact no_zero_mac. }
  exact (ex_intro _ meta' (ex_intro _ routers' (ex_intro _ g' (conj Hw Ht)))).
Defined.
(** The bytes vmA earned under tB stay tB's. *)
Example settled_under_old :
  (λ g, tenantSettled g !! mkTenantSettledKey "tB" "public" ZoneExternal DirectionIngress) <$>
  rc_settler (reconcileOnce LittleEndian ok_calls ok_calls all_fail 60 answer 1000 rec) =
  Some (Some (mkSettled 1000 10)).
Proof. by vm_compute. Qed.

Lemma mirror_start : mirrors interner (ms_view store) (krows kernelA).
Proof.
  split.
  - intros mac m. change (ms_view store !! mac = Some m → knows interner (ProjectID m)).
    intros Hm. apply (map_Forall_lookup_1 (λ _ m, is_Some (forward interner !! ProjectID m)) (ms_view store) mac m) in Hm.
    + by right.
    + apply (bool_decide_unpack _). by vm_compute.
  - by vm_compute.
Qed.
Lemma interner_start : interner_ok interner.
Proof. apply Intern_ok; [apply NewTenantInterner_ok|by vm_compute]. Qed.

Lemma desired_macA : DesiredMACs snap !! MACKey macA = Some (mkMeta "tA" "srvA" "vmA" "public" false 0).
Proof. by vm_compute. Qed.
Lemma reconcile_macs_exact_witness :
  let r' := (reconcileMACs ok_calls 60 snap 1000 rec).1 in
  ∃ kernel', rc_macWriter r' = Some kernel' ∧
    krows kernel' !! MACKey macA = Some (TenantValue (tid (rc_interner r') "tA") false).
Proof.
  cbn zeta.
  destruct (reconcile_macs_exact ok_calls 60 1000 snap rec store kernelA eq_refl eq_refl store_ok)
    as (meta' & kernel' & _ & Hk & _ & Hv & Hmir).
  destruct (Hmir (λ _, eq_refl) interner_start) as (_ & _ & Erows); [by vm_compute|exact mirror_start|].
  exists kernel'. split; first exact Hk. rewrite Erows lookup_fmap Hv.
  rewrite desired_macA. cbn [fmap option_fmap option_map]. rewrite /kernel_value.
  cbn [ProjectID IsAmphora]. reflexivity.
Defined.

Lemma reconcile_kernel_subset_witness :
  ∃ meta' kernel', rc_meta (reconcileMACs all_fail 60 snap 1000 rec).1 = Some meta' ∧
    rc_macWriter (reconcileMACs all_fail 60 snap 1000 rec).1 = Some kernel' ∧
    dom (krows kernel') ⊆ dom (ms_view meta').
Proof.
  assert (dom (krows kernelA) ⊆ dom (ms_view store)) as Hd by (apply (bool_decide_unpack _); by vm_compute).
  exact (proj2 (reconcile_kernel_subset all_fail 60 1000 snap rec store kernelA eq_refl eq_refl store_ok Hd)).
Defined.

Lemma reconcile_errors_witness :
  reconcileOnce LittleEndian ok_calls ok_calls ok_calls 60 (inl "timeout") 1000 rec = withRun "sync_error" rec.
Proof.
  exact (proj1 (reconcile_errors LittleEndian ok_calls ok_calls ok_calls 60 1000 (inl "timeout") rec) "timeout" eq_refl).
Defined.

(** Every write of the first pass fails; the second, with every call working,
    leaves the kernel with the old tenant. *)
Definition start : macs ShardedMetadataMap := mkMacs store kernelA interner (Some counters) 0 0.
Lemma failed_write_not_retried_witness :
  let c1 := learnMACs all_fail None (DesiredMACs snap) start in
  learnMACs all_fail None (DesiredMACs snap) c1 = c1 ∧ krows (mc_kernel c1) !! MACKey macA = Some 1.
Proof.
  cbn zeta. split; [exact (failed_write_not_retried all_fail None snap start store_ok)|by vm_compute].
Defined.
Example stale_after_recovery :
  let c1 := learnMACs all_fail None (DesiredMACs snap) start in
  let c2 := learnMACs ok_calls None (DesiredMACs snap) c1 in
  krows (mc_kernel c2) !! MACKey macA = Some 1 ∧
  (ProjectID <$> ms_view (mc_meta c2) !! MACKey macA) = Some "tA".
Proof. split; by vm_compute. Qed.
End ReconcileExamples.
