(* ===== verification/GoJson.v ===== *)
(** * encoding/json, as the write-ahead log uses it

    JSON texts are represented by the document they denote: what [Marshal] and
    [Unmarshal] do between Go values and documents is modelled, the printing and
    scanning of the text is not.  A decoder is given the value the target holds and
    returns its new value, as [Unmarshal] overwrites only what the document
    mentions; it fails where [Unmarshal] returns an error. *)
From Stdlib Require Import DecimalString DecimalN.
From S2P Require Import Prelude.
From S2P Require Import GoStrings.

(** A number literal is an integer or, kept as its text, anything else. *)
Inductive Json :=
  | JNull | JBool (b : bool) | JNum (z : Z) | JReal (literal : string) | JStr (s : string)
  | JArr (l : list Json) | JObj (members : list (string * Json)).

(** ** Scalars *)

Definition uint_range (w z : Z) : Prop := 0 ≤ z < 2 ^ w.
Definition int64_range (z : Z) : Prop := - 2 ^ 63 ≤ z < 2 ^ 63.
#[export] Instance uint_range_dec w z : Decision (uint_range w z).
Proof. rewrite /uint_range. apply _. Defined.
#[export] Instance int64_range_dec z : Decision (int64_range z).
Proof. rewrite /int64_range. apply _. Defined.

(** strconv.FormatUint and ParseUint in base 10. *)
Definition FormatUint (z : Z) : string := NilZero.string_of_uint (N.to_uint (Z.to_N z)).
Definition ParseUint (s : string) : option Z :=
  match NilZero.uint_of_string s with
  | Some d => let z := Z.of_N (N.of_uint d) in if decide (uint_range 64 z) then Some z else None
  | None => None
  end.

Lemma ParseUint_FormatUint z : uint_range 64 z → ParseUint (FormatUint z) = Some z.
Proof.
  intros Hz. rewrite /ParseUint /FormatUint.
  assert (∀ d, N.of_uint d = Z.to_N z → (if decide (uint_range 64 (Z.of_N (N.of_uint d)))
    then Some (Z.of_N (N.of_uint d)) else None) = Some z) as Hd.
  { intros d ->. rewrite Z2N.id; [by destruct Hz|]. by rewrite decide_True. }
  destruct (NilZero.usu_gen (N.to_uint (Z.to_N z))) as [->| E]; first by apply Hd, DecimalN.Unsigned.of_to.
  assert (N.to_uint (Z.to_N z) = Decimal.Nil ∨ N.to_uint (Z.to_N z) = Decimal.D0 Decimal.Nil) as Hn.
  { destruct (N.to_uint (Z.to_N z)) as [| | | | | | | | | |] eqn:En; try by left.
    all: rewrite NilZero.usu // in E; injection E as E; by try (right; f_equal). }
  rewrite E. apply Hd. rewrite -(DecimalN.Unsigned.of_to (Z.to_N z)). by destruct Hn as [-> | ->].
Qed.

(** ** Decoders *)

Definition decoder (A : Type) := Json → A → option A.

Definition dec_uint (w : Z) : decoder Z := λ j cur,
  match j with
  | JNull => Some cur
  | JNum z => if decide (uint_range w z) then Some z else None
  | _ => None
  end.
Definition dec_int64 : decoder Z := λ j cur,
  match j with
  | JNull => Some cur
  | JNum z => if decide (int64_range z) then Some z else None
  | _ => None
  end.
(** A uint64 field with the [,string] option; the quoted text "null" is a null. *)
Definition dec_quoted : decoder Z := λ j cur,
  match j with
  | JNull => Some cur
  | JStr s => if decide (s = "null") then Some cur else ParseUint s
  | _ => None
  end.
Definition dec_string : decoder string := λ j cur,
  match j with JNull => Some cur | JStr s => Some s | _ => None end.
(** A slice: its elements are decoded into zero values. *)
Definition dec_slice {A} (zero : A) (dec : decoder A) : decoder (list A) := λ j cur,
  match j with
  | JNull => Some []
  | JArr l => mapM (λ x, dec x zero) l
  | _ => None
  end.
(** A pointer: null resets it, anything else is decoded into what it points to. *)
Definition dec_pointer {A} (zero : A) (dec : decoder A) : decoder (option A) := λ j cur,
  match j with
  | JNull => Some None
  | _ => Some <$> dec j (default zero cur)
  end.

(** A struct field: its name and the decoder of the field in the struct. *)
Definition field (A : Type) : Type := string * decoder A.
Definition fld {A B} (name : string) (get : A → B) (set : B → A → A) (dec : decoder B) : field A :=
  (name, λ j a, (λ b, set b a) <$> dec j (get a)).
(** Keys match names up to case; a key that matches no name is skipped. *)
Definition dec_member {A} (fields : list (field A)) (acc : option A) (m : string * Json) : option A :=
  match List.find (λ f, EqualFold f.1 m.1) fields with
  | Some f => acc ≫= f.2 m.2
  | None => acc
  end.
Definition dec_struct {A} (fields : list (field A)) : decoder A := λ j cur,
  match j with
  | JNull => Some cur
  | JObj members => foldl (dec_member fields) (Some cur) members
  | _ => None
  end.

(** ** Encoders of members *)

Definition quoted (z : Z) : Json := JStr (FormatUint z).
Definition omit {A} (empty : bool) (name : string) (j : A) : list (string * A) :=
  if empty then [] else [(name, j)].
Definition array_of {A} (f : A → Json) (l : list A) : Json := JArr (f <$> l).

(** ** Round trips *)

Lemma dec_uint_enc w z cur : uint_range w z → dec_uint w (JNum z) cur = Some z.
Proof. intros. by rewrite /dec_uint decide_True. Qed.
Lemma dec_int64_enc z cur : int64_range z → dec_int64 (JNum z) cur = Some z.
Proof. intros. by rewrite /dec_int64 decide_True. Qed.
Lemma FormatUint_not_null z : uint_range 64 z → FormatUint z ≠ "null".
Proof. intros Hz E. pose proof (ParseUint_FormatUint z Hz) as P. by rewrite E in P. Qed.
Lemma dec_quoted_enc z cur : uint_range 64 z → dec_quoted (quoted z) cur = Some z.
Proof.
  intros Hz. rewrite /dec_quoted /quoted decide_False; first by apply FormatUint_not_null.
  by apply ParseUint_FormatUint.
Qed.
Lemma dec_slice_enc {A} (P : A → Prop) (zero : A) dec enc l cur :
  (∀ x, P x → dec (enc x) zero = Some x) → Forall P l →
  dec_slice zero dec (array_of enc l) cur = Some l.
Proof.
  intros Hdec Hl. rewrite /dec_slice /array_of. induction Hl as [|x l Hx Hl IH]; first done.
  cbn [fmap list_fmap mapM]. by rewrite Hdec //= IH.
Qed.
Lemma dec_struct_nil {A} (fields : list (field A)) cur : dec_struct fields (JObj []) cur = Some cur.
Proof. done. Qed.
(** One member of a document: the field found decodes it. *)
Lemma dec_member_hit {A} fields (f : field A) k j cur cur' ms :
  List.find (λ f, EqualFold f.1 k) fields = Some f → f.2 j cur = Some cur' →
  dec_struct fields (JObj ((k, j) :: ms)) cur = dec_struct fields (JObj ms) cur'.
Proof. intros Hf Hd. by rewrite /dec_struct /= /dec_member Hf /= Hd. Qed.
#[export] Hint Resolve dec_uint_enc dec_int64_enc dec_quoted_enc : go.
