(* ===== verification/FileSys.v ===== *)
(** * Files, renames and crashes (os, and the file system under it)

    A directory maps names to inodes and an inode holds contents, each half durable
    only when it was synced: a sync of a file makes its contents durable, a sync of
    the directory the names in it.  Changes of names reach the disk in the order
    they were made (the ordered journal of ext4 and XFS), so a crash leaves some
    prefix of those not yet synced; it leaves anything at all in a file whose
    contents were not.  Which calls fail is an arbitrary oracle over the calls made
    so far. *)
From S2P Require Import Prelude.

Inductive fserr (Err : Type) := ErrNotExist | IOError (e : Err).
Arguments ErrNotExist {_}.
Arguments IOError {_} _.

Inductive nameop := Link (name : string) (ino : positive) | Move (a b : string).
Definition apply_nameop (d : gmap string positive) (op : nameop) : gmap string positive :=
  match op with
  | Link name i => <[name := i]> d
  | Move a b => match d !! a with Some i => <[b := i]> (delete a d) | None => d end
  end.

Section fs.
Context {C : Type}.

Record inode := mkInode { contents : C; durable : bool }.
Record FS := mkFS {
  disk_names : gmap string positive; journal : list nameop; inodes : gmap positive inode }.

(** The directory after the first [n] of the names not yet durable; the running
    system sees them all. *)
Definition names_at (n : nat) (fs : FS) : gmap string positive :=
  foldl apply_nameop (disk_names fs) (take n (journal fs)).
Definition names (fs : FS) : gmap string positive := foldl apply_nameop (disk_names fs) (journal fs).

(** What a crash may leave. *)
Definition crash (fs fs' : FS) : Prop :=
  (∃ n, disk_names fs' = names_at n fs) ∧ journal fs' = [] ∧
  (∀ i ino, inodes fs !! i = Some ino → durable ino = true → inodes fs' !! i = Some ino) ∧
  (∀ i, is_Some (inodes fs !! i) ↔ is_Some (inodes fs' !! i)).

(** ** The primitive changes *)

Definition log_name (op : nameop) (fs : FS) : FS := mkFS (disk_names fs) (journal fs ++ [op]) (inodes fs).
Definition set_inode (i : positive) (ino : inode) (fs : FS) : FS :=
  mkFS (disk_names fs) (journal fs) (<[i := ino]> (inodes fs)).
Definition flush_names (fs : FS) : FS := mkFS (names fs) [] (inodes fs).
Definition read (p : string) (fs : FS) : option C :=
  names fs !! p ≫= λ i, contents <$> inodes fs !! i.

Lemma names_log op fs : names (log_name op fs) = apply_nameop (names fs) op.
Proof. by rewrite /names /log_name /= foldl_app. Qed.
Lemma names_at_length fs n : (length (journal fs) ≤ n)%nat → names_at n fs = names fs.
Proof. intros. by rewrite /names_at take_ge. Qed.
(** A change of names adds one directory to those a crash may leave. *)
Lemma names_at_log op fs n :
  names_at n (log_name op fs) = names_at n fs ∨
  names_at n (log_name op fs) = apply_nameop (names fs) op.
Proof.
  destruct (decide (n ≤ length (journal fs))%nat).
  - left. by rewrite /names_at /log_name /= take_app_le.
  - right. rewrite names_at_length; last by rewrite names_log.
    rewrite /log_name /= length_app /=. lia.
Qed.
Lemma names_at_flush fs n : names_at n (flush_names fs) = names fs.
Proof. by rewrite /names_at /flush_names /= take_nil. Qed.
(** A machine that did not crash is one that crashed with nothing unsynced. *)
Lemma crash_refl fs : journal fs = [] → crash fs fs.
Proof. intros E. split_and!; [exists 0%nat; by rewrite /names_at take_0|done|done|done]. Qed.
Lemma names_flush fs : names (flush_names fs) = names fs.
Proof. done. Qed.
End fs.
Arguments inode _ : clear implicits.
Arguments FS _ : clear implicits.

(** ** The calls *)

(** The file system with the calls made on it and what it was after each. *)
Record io (C : Type) := mkIO { io_fs : FS C; io_calls : nat; io_hist : list (FS C) }.
Arguments mkIO {_} _ _ _.
Arguments io_fs {_} _.
Arguments io_calls {_} _.
Arguments io_hist {_} _.

Section calls.
Context {C Err : Type} (fault : nat → option Err) (torn : C).

(** One call leaving [fs]. *)
Definition called (fs : FS C) (s : io C) : io C := mkIO fs (S (io_calls s)) (io_hist s ++ [fs]).
Definition attempt (ok failed : FS C → FS C) (s : io C) : io C * option (fserr Err) :=
  match fault (io_calls s) with
  | Some e => (called (failed (io_fs s)) s, Some (IOError e))
  | None => (called (ok (io_fs s)) s, None)
  end.

(** Open for writing, create or truncate.  [torn] stands for contents no reader
    accepts: none yet, or a part of them. *)
Definition OpenTrunc (p : string) (s : io C) : io C * (fserr Err + positive) :=
  let fs := io_fs s in
  match fault (io_calls s) with
  | Some e => (called fs s, inl (IOError e))
  | None =>
      match names fs !! p with
      | Some i => (called (set_inode i (mkInode torn false) fs) s, inr i)
      | None =>
          let i := fresh (dom (inodes fs)) in
          (called (log_name (Link p i) (set_inode i (mkInode torn false) fs)) s, inr i)
      end
  end.
Definition Write (i : positive) (data : C) : io C → io C * option (fserr Err) :=
  attempt (set_inode i (mkInode data false)) (set_inode i (mkInode torn false)).
Definition SyncFile (i : positive) : io C → io C * option (fserr Err) :=
  attempt (λ fs, match inodes fs !! i with
                 | Some ino => set_inode i (mkInode (contents ino) true) fs
                 | None => fs
                 end) id.
Definition Close : io C → io C * option (fserr Err) := attempt id id.
Definition Rename (a b : string) (s : io C) : io C * option (fserr Err) :=
  match names (io_fs s) !! a with
  | None => (called (io_fs s) s, Some (match fault (io_calls s) with Some e => IOError e | None => ErrNotExist end))
  | Some _ => attempt (log_name (Move a b)) id s
  end.
(** Opening a directory, syncing it. *)
Definition OpenDir : io C → io C * option (fserr Err) := attempt id id.
Definition SyncDirectory : io C → io C * option (fserr Err) := attempt flush_names id.
Definition ReadFile (p : string) (s : io C) : io C * (fserr Err + C) :=
  (called (io_fs s) s,
   match fault (io_calls s) with
   | Some e => inl (IOError e)
   | None => match read p (io_fs s) with Some c => inr c | None => inl ErrNotExist end
   end).
End calls.
