(* ===== verification/Wal.v ===== *)
(** * The write-ahead log (internal/wal)

    A snapshot of the counters is written to a temporary file, synced, and rotated
    in: the current file becomes the backup, the temporary file the current one,
    and the directory is synced.  Loading reads the current file, or the backup
    when the current one is missing or unreadable.  Strings are taken to be valid
    UTF-8, as they come out of the JSON answers of the APIs. *)
From S2P Require Import Prelude.
From S2P Require Import GoStrings.
From S2P Require Import Bpf.
From S2P Require Import State.
From S2P Require Import Metadata.
From S2P Require Import GoJson.
From S2P Require Import FileSys.

(** ** The wire format (schema.go) *)

Definition SchemaVersion : Z := 9.
Definition BackupSuffix : string := ".bak".
Definition TempSuffix : string := ".tmp".
Definition QuarantineSuffix : string := ".quarantine".

Record flowKeyWire := mkKeyW {
  KW_SrcMac : MacAddr; KW_DstMac : MacAddr; KW_EthProto : Z; KW_Direction : Z; KW_DstZone : Z;
  KW_L4Proto : Z }.
Record flowMetricsWire := mkMetricsW {
  MW_Bytes : Z; MW_Packets : Z; MW_LastSeenNs : Z; MW_CreatedNs : Z }.
Record ownerWire := mkOwnerW { OW_Tenant : string; OW_ExtNet : string; OW_Server : string }.
Record entryWire := mkEntryW {
  EW_Key : flowKeyWire; EW_Total : flowMetricsWire; EW_LastRaw : flowMetricsWire;
  EW_Owner : option ownerWire }.
Record tenantSettledWire := mkTenantW {
  TW_TenantID : string; TW_ExternalNetwork : string; TW_Zone : Z; TW_Direction : Z;
  TW_Bytes : Z; TW_Packets : Z }.
Record serverSettledWire := mkServerW {
  SW_ServerID : string; SW_TenantID : string; SW_ExternalNetwork : string; SW_Zone : Z;
  SW_Direction : Z; SW_Bytes : Z; SW_Packets : Z }.
Record totalSettledWire := mkTotalW {
  XW_ExternalNetwork : string; XW_Zone : Z; XW_Direction : Z; XW_Bytes : Z; XW_Packets : Z }.
Record snapshotWire := mkSnapW {
  SN_SchemaVersion : Z; SN_AgentBuild : string; SN_WrittenAtNs : Z; SN_GlobalState : list entryWire;
  SN_TenantSettled : list tenantSettledWire; SN_ServerSettled : list serverSettledWire;
  SN_TotalSettled : list totalSettledWire; SN_CountersResetAtS : Z;
  SN_LegacySettled : list tenantSettledWire }.

Definition zeroKeyW := mkKeyW zeroMac zeroMac 0 0 0 0.
Definition zeroMetricsW := mkMetricsW 0 0 0 0.
Definition zeroOwnerW := mkOwnerW "" "" "".
Definition zeroEntryW := mkEntryW zeroKeyW zeroMetricsW zeroMetricsW None.
Definition zeroTenantW := mkTenantW "" "" 0 0 0 0.
Definition zeroServerW := mkServerW "" "" "" 0 0 0 0.
Definition zeroTotalW := mkTotalW "" 0 0 0 0.
Definition zeroSnapW := mkSnapW 0 "" 0 [] [] [] [] 0 [].

(** [[6]uint8]: missing elements are zeroed, surplus ones dropped. *)
Definition dec_mac : decoder MacAddr := λ j cur,
  match j with
  | JNull => Some cur
  | JArr l =>
      let el i old := match l !! i with Some x => dec_uint 8 x old | None => Some 0 end in
      a ← el 0%nat (mb0 cur); b ← el 1%nat (mb1 cur); c ← el 2%nat (mb2 cur);
      d ← el 3%nat (mb3 cur); e ← el 4%nat (mb4 cur); f ← el 5%nat (mb5 cur);
      Some (mkMac a b c d e f)
  | _ => None
  end.
Definition enc_mac (m : MacAddr) : Json :=
  JArr [JNum (mb0 m); JNum (mb1 m); JNum (mb2 m); JNum (mb3 m); JNum (mb4 m); JNum (mb5 m)].

Definition keyFields : list (field flowKeyWire) := [
  fld "src_mac" KW_SrcMac (λ x w, mkKeyW x (KW_DstMac w) (KW_EthProto w) (KW_Direction w) (KW_DstZone w) (KW_L4Proto w)) dec_mac;
  fld "dst_mac" KW_DstMac (λ x w, mkKeyW (KW_SrcMac w) x (KW_EthProto w) (KW_Direction w) (KW_DstZone w) (KW_L4Proto w)) dec_mac;
  fld "eth_proto" KW_EthProto (λ x w, mkKeyW (KW_SrcMac w) (KW_DstMac w) x (KW_Direction w) (KW_DstZone w) (KW_L4Proto w)) (dec_uint 16);
  fld "direction" KW_Direction (λ x w, mkKeyW (KW_SrcMac w) (KW_DstMac w) (KW_EthProto w) x (KW_DstZone w) (KW_L4Proto w)) (dec_uint 8);
  fld "dst_zone" KW_DstZone (λ x w, mkKeyW (KW_SrcMac w) (KW_DstMac w) (KW_EthProto w) (KW_Direction w) x (KW_L4Proto w)) (dec_uint 8);
  fld "l4_proto" KW_L4Proto (λ x w, mkKeyW (KW_SrcMac w) (KW_DstMac w) (KW_EthProto w) (KW_Direction w) (KW_DstZone w) x) (dec_uint 8)].
Definition metricsFields : list (field flowMetricsWire) := [
  fld "bytes" MW_Bytes (λ x w, mkMetricsW x (MW_Packets w) (MW_LastSeenNs w) (MW_CreatedNs w)) dec_quoted;
  fld "packets" MW_Packets (λ x w, mkMetricsW (MW_Bytes w) x (MW_LastSeenNs w) (MW_CreatedNs w)) dec_quoted;
  fld "last_seen_ns" MW_LastSeenNs (λ x w, mkMetricsW (MW_Bytes w) (MW_Packets w) x (MW_CreatedNs w)) dec_quoted;
  fld "created_ns" MW_CreatedNs (λ x w, mkMetricsW (MW_Bytes w) (MW_Packets w) (MW_LastSeenNs w) x) dec_quoted].
Definition ownerFields : list (field ownerWire) := [
  fld "tenant" OW_Tenant (λ x w, mkOwnerW x (OW_ExtNet w) (OW_Server w)) dec_string;
  fld "external_network" OW_ExtNet (λ x w, mkOwnerW (OW_Tenant w) x (OW_Server w)) dec_string;
  fld "server_id" OW_Server (λ x w, mkOwnerW (OW_Tenant w) (OW_ExtNet w) x) dec_string].
Definition entryFields : list (field entryWire) := [
  fld "key" EW_Key (λ x w, mkEntryW x (EW_Total w) (EW_LastRaw w) (EW_Owner w)) (dec_struct keyFields);
  fld "total" EW_Total (λ x w, mkEntryW (EW_Key w) x (EW_LastRaw w) (EW_Owner w)) (dec_struct metricsFields);
  fld "last_raw" EW_LastRaw (λ x w, mkEntryW (EW_Key w) (EW_Total w) x (EW_Owner w)) (dec_struct metricsFields);
  fld "owner" EW_Owner (λ x w, mkEntryW (EW_Key w) (EW_Total w) (EW_LastRaw w) x)
    (dec_pointer zeroOwnerW (dec_struct ownerFields))].
Definition tenantFields : list (field tenantSettledWire) := [
  fld "tenant_id" TW_TenantID (λ x w, mkTenantW x (TW_ExternalNetwork w) (TW_Zone w) (TW_Direction w) (TW_Bytes w) (TW_Packets w)) dec_string;
  fld "external_network" TW_ExternalNetwork (λ x w, mkTenantW (TW_TenantID w) x (TW_Zone w) (TW_Direction w) (TW_Bytes w) (TW_Packets w)) dec_string;
  fld "zone" TW_Zone (λ x w, mkTenantW (TW_TenantID w) (TW_ExternalNetwork w) x (TW_Direction w) (TW_Bytes w) (TW_Packets w)) (dec_uint 8);
  fld "direction" TW_Direction (λ x w, mkTenantW (TW_TenantID w) (TW_ExternalNetwork w) (TW_Zone w) x (TW_Bytes w) (TW_Packets w)) (dec_uint 8);
  fld "bytes" TW_Bytes (λ x w, mkTenantW (TW_TenantID w) (TW_ExternalNetwork w) (TW_Zone w) (TW_Direction w) x (TW_Packets w)) dec_quoted;
  fld "packets" TW_Packets (λ x w, mkTenantW (TW_TenantID w) (TW_ExternalNetwork w) (TW_Zone w) (TW_Direction w) (TW_Bytes w) x) dec_quoted].
Definition serverFields : list (field serverSettledWire) := [
  fld "server_id" SW_ServerID (λ x w, mkServerW x (SW_TenantID w) (SW_ExternalNetwork w) (SW_Zone w) (SW_Direction w) (SW_Bytes w) (SW_Packets w)) dec_string;
  fld "tenant_id" SW_TenantID (λ x w, mkServerW (SW_ServerID w) x (SW_ExternalNetwork w) (SW_Zone w) (SW_Direction w) (SW_Bytes w) (SW_Packets w)) dec_string;
  fld "external_network" SW_ExternalNetwork (λ x w, mkServerW (SW_ServerID w) (SW_TenantID w) x (SW_Zone w) (SW_Direction w) (SW_Bytes w) (SW_Packets w)) dec_string;
  fld "zone" SW_Zone (λ x w, mkServerW (SW_ServerID w) (SW_TenantID w) (SW_ExternalNetwork w) x (SW_Direction w) (SW_Bytes w) (SW_Packets w)) (dec_uint 8);
  fld "direction" SW_Direction (λ x w, mkServerW (SW_ServerID w) (SW_TenantID w) (SW_ExternalNetwork w) (SW_Zone w) x (SW_Bytes w) (SW_Packets w)) (dec_uint 8);
  fld "bytes" SW_Bytes (λ x w, mkServerW (SW_ServerID w) (SW_TenantID w) (SW_ExternalNetwork w) (SW_Zone w) (SW_Direction w) x (SW_Packets w)) dec_quoted;
  fld "packets" SW_Packets (λ x w, mkServerW (SW_ServerID w) (SW_TenantID w) (SW_ExternalNetwork w) (SW_Zone w) (SW_Direction w) (SW_Bytes w) x) dec_quoted].
Definition totalFields : list (field totalSettledWire) := [
  fld "external_network" XW_ExternalNetwork (λ x w, mkTotalW x (XW_Zone w) (XW_Direction w) (XW_Bytes w) (XW_Packets w)) dec_string;
  fld "zone" XW_Zone (λ x w, mkTotalW (XW_ExternalNetwork w) x (XW_Direction w) (XW_Bytes w) (XW_Packets w)) (dec_uint 8);
  fld "direction" XW_Direction (λ x w, mkTotalW (XW_ExternalNetwork w) (XW_Zone w) x (XW_Bytes w) (XW_Packets w)) (dec_uint 8);
  fld "bytes" XW_Bytes (λ x w, mkTotalW (XW_ExternalNetwork w) (XW_Zone w) (XW_Direction w) x (XW_Packets w)) dec_quoted;
  fld "packets" XW_Packets (λ x w, mkTotalW (XW_ExternalNetwork w) (XW_Zone w) (XW_Direction w) (XW_Bytes w) x) dec_quoted].
Definition snapFields : list (field snapshotWire) := [
  fld "schema_version" SN_SchemaVersion (λ x w, mkSnapW x (SN_AgentBuild w) (SN_WrittenAtNs w) (SN_GlobalState w) (SN_TenantSettled w) (SN_ServerSettled w) (SN_TotalSettled w) (SN_CountersResetAtS w) (SN_LegacySettled w)) (dec_uint 64);
  fld "agent_build" SN_AgentBuild (λ x w, mkSnapW (SN_SchemaVersion w) x (SN_WrittenAtNs w) (SN_GlobalState w) (SN_TenantSettled w) (SN_ServerSettled w) (SN_TotalSettled w) (SN_CountersResetAtS w) (SN_LegacySettled w)) dec_string;
  fld "written_at_ns" SN_WrittenAtNs (λ x w, mkSnapW (SN_SchemaVersion w) (SN_AgentBuild w) x (SN_GlobalState w) (SN_TenantSettled w) (SN_ServerSettled w) (SN_TotalSettled w) (SN_CountersResetAtS w) (SN_LegacySettled w)) dec_quoted;
  fld "global_state" SN_GlobalState (λ x w, mkSnapW (SN_SchemaVersion w) (SN_AgentBuild w) (SN_WrittenAtNs w) x (SN_TenantSettled w) (SN_ServerSettled w) (SN_TotalSettled w) (SN_CountersResetAtS w) (SN_LegacySettled w)) (dec_slice zeroEntryW (dec_struct entryFields));
  fld "tenant_settled" SN_TenantSettled (λ x w, mkSnapW (SN_SchemaVersion w) (SN_AgentBuild w) (SN_WrittenAtNs w) (SN_GlobalState w) x (SN_ServerSettled w) (SN_TotalSettled w) (SN_CountersResetAtS w) (SN_LegacySettled w)) (dec_slice zeroTenantW (dec_struct tenantFields));
  fld "server_settled" SN_ServerSettled (λ x w, mkSnapW (SN_SchemaVersion w) (SN_AgentBuild w) (SN_WrittenAtNs w) (SN_GlobalState w) (SN_TenantSettled w) x (SN_TotalSettled w) (SN_CountersResetAtS w) (SN_LegacySettled w)) (dec_slice zeroServerW (dec_struct serverFields));
  fld "total_settled" SN_TotalSettled (λ x w, mkSnapW (SN_SchemaVersion w) (SN_AgentBuild w) (SN_WrittenAtNs w) (SN_GlobalState w) (SN_TenantSettled w) (SN_ServerSettled w) x (SN_CountersResetAtS w) (SN_LegacySettled w)) (dec_slice zeroTotalW (dec_struct totalFields));
  fld "counters_reset_at_s" SN_CountersResetAtS (λ x w, mkSnapW (SN_SchemaVersion w) (SN_AgentBuild w) (SN_WrittenAtNs w) (SN_GlobalState w) (SN_TenantSettled w) (SN_ServerSettled w) (SN_TotalSettled w) x (SN_LegacySettled w)) dec_int64;
  fld "settled" SN_LegacySettled (λ x w, mkSnapW (SN_SchemaVersion w) (SN_AgentBuild w) (SN_WrittenAtNs w) (SN_GlobalState w) (SN_TenantSettled w) (SN_ServerSettled w) (SN_TotalSettled w) (SN_CountersResetAtS w) x) (dec_slice zeroTenantW (dec_struct tenantFields))].

(** json.Marshal of each struct: members in field order, [omitempty] ones left out
    when empty. *)
Definition enc_key (w : flowKeyWire) : Json := JObj ([
  ("src_mac", enc_mac (KW_SrcMac w)); ("dst_mac", enc_mac (KW_DstMac w));
  ("eth_proto", JNum (KW_EthProto w)); ("direction", JNum (KW_Direction w));
  ("dst_zone", JNum (KW_DstZone w))] ++
  omit (bool_decide (KW_L4Proto w = 0)) "l4_proto" (JNum (KW_L4Proto w))).
Definition enc_metrics (w : flowMetricsWire) : Json := JObj ([
  ("bytes", quoted (MW_Bytes w)); ("packets", quoted (MW_Packets w));
  ("last_seen_ns", quoted (MW_LastSeenNs w))] ++
  omit (bool_decide (MW_CreatedNs w = 0)) "created_ns" (quoted (MW_CreatedNs w))).
Definition enc_owner (w : ownerWire) : Json := JObj ([
  ("tenant", JStr (OW_Tenant w)); ("external_network", JStr (OW_ExtNet w))] ++
  omit (bool_decide (OW_Server w = "")) "server_id" (JStr (OW_Server w))).
Definition enc_entry (w : entryWire) : Json := JObj ([
  ("key", enc_key (EW_Key w)); ("total", enc_metrics (EW_Total w));
  ("last_raw", enc_metrics (EW_LastRaw w))] ++
  match EW_Owner w with Some o => [("owner", enc_owner o)] | None => [] end).
Definition enc_tenant (w : tenantSettledWire) : Json := JObj (
  ("tenant_id", JStr (TW_TenantID w)) ::
  omit (bool_decide (TW_ExternalNetwork w = "")) "external_network" (JStr (TW_ExternalNetwork w)) ++
  [("zone", JNum (TW_Zone w)); ("direction", JNum (TW_Direction w));
   ("bytes", quoted (TW_Bytes w)); ("packets", quoted (TW_Packets w))]).
Definition enc_server (w : serverSettledWire) : Json := JObj (
  ("server_id", JStr (SW_ServerID w)) :: ("tenant_id", JStr (SW_TenantID w)) ::
  omit (bool_decide (SW_ExternalNetwork w = "")) "external_network" (JStr (SW_ExternalNetwork w)) ++
  [("zone", JNum (SW_Zone w)); ("direction", JNum (SW_Direction w));
   ("bytes", quoted (SW_Bytes w)); ("packets", quoted (SW_Packets w))]).
Definition enc_total (w : totalSettledWire) : Json := JObj (
  omit (bool_decide (XW_ExternalNetwork w = "")) "external_network" (JStr (XW_ExternalNetwork w)) ++
  [("zone", JNum (XW_Zone w)); ("direction", JNum (XW_Direction w));
   ("bytes", quoted (XW_Bytes w)); ("packets", quoted (XW_Packets w))]).
Definition is_empty {A} (l : list A) : bool := match l with [] => true | _ => false end.
Definition Marshal (w : snapshotWire) : Json := JObj ([
  ("schema_version", JNum (SN_SchemaVersion w)); ("agent_build", JStr (SN_AgentBuild w));
  ("written_at_ns", quoted (SN_WrittenAtNs w));
  ("global_state", array_of enc_entry (SN_GlobalState w))] ++
  omit (is_empty (SN_TenantSettled w)) "tenant_settled" (array_of enc_tenant (SN_TenantSettled w)) ++
  omit (is_empty (SN_ServerSettled w)) "server_settled" (array_of enc_server (SN_ServerSettled w)) ++
  omit (is_empty (SN_TotalSettled w)) "total_settled" (array_of enc_total (SN_TotalSettled w)) ++
  omit (bool_decide (SN_CountersResetAtS w = 0)) "counters_reset_at_s" (JNum (SN_CountersResetAtS w)) ++
  omit (is_empty (SN_LegacySettled w)) "settled" (array_of enc_tenant (SN_LegacySettled w))).
Definition Unmarshal (j : Json) : option snapshotWire := dec_struct snapFields j zeroSnapW.

(** ** Between records and the wire (wal.go) *)

Definition toMetricsWire (m : FlowMetrics) : flowMetricsWire :=
  mkMetricsW (Bytes m) (Packets m) (LastSeenNs m) (CreatedNs m).
Definition fromMetricsWire (w : flowMetricsWire) : FlowMetrics :=
  mkFlowMetrics (MW_Bytes w) (MW_Packets w) (MW_LastSeenNs w) (MW_CreatedNs w).
Definition toWire (r : FlowRecord) : entryWire :=
  let o := Rec_Owner r in
  let k := Rec_Key r in
  mkEntryW
    (mkKeyW (SrcMac k) (DstMac k) (EthProto k) (Direction_ k) (DstZone k) (L4Proto_ k))
    (toMetricsWire (Total (Rec_Counter r))) (toMetricsWire (LastEbpfRaw (Rec_Counter r)))
    (if decide (Owner_Tenant o ≠ "") then Some (mkOwnerW (Owner_Tenant o) (Owner_ExtNet o) (Owner_Server o))
     else None).
Definition fromEntry (e : entryWire) : FlowRecord :=
  let k := EW_Key e in
  mkRecord
    (mkFlowKey (KW_SrcMac k) (KW_DstMac k) (KW_EthProto k) (KW_Direction k) (KW_DstZone k) (KW_L4Proto k) 0)
    (mkCounter (fromMetricsWire (EW_Total e)) (fromMetricsWire (EW_LastRaw e)))
    (match EW_Owner e with
     | Some o => mkOwner (OW_Tenant o) (OW_ExtNet o) (OW_Server o)
     | None => mkOwner "" "" ""
     end).
Definition fromSnapshot (snap : snapshotWire) : list FlowRecord := fromEntry <$> SN_GlobalState snap.

Definition toTenant (s : TenantSettledKey * settledTotal) : tenantSettledWire :=
  mkTenantW (TS_Tenant s.1) (TS_ExtNet s.1) (TS_Zone s.1) (TS_Dir s.1) (bytes s.2) (packets s.2).
Definition toServer (s : ServerSettledKey * settledTotal) : serverSettledWire :=
  mkServerW (SS_ServerID s.1) (SS_Tenant s.1) (SS_ExtNet s.1) (SS_Zone s.1) (SS_Dir s.1) (bytes s.2) (packets s.2).
Definition toTotal (s : TotalSettledKey * settledTotal) : totalSettledWire :=
  mkTotalW (TT_ExtNet s.1) (TT_Zone s.1) (TT_Dir s.1) (bytes s.2) (packets s.2).
Definition orSentinel (ext : string) : string := if decide (ext = "") then NoExternalNetwork else ext.
Definition fromTenantSettled (snap : snapshotWire) : list (TenantSettledKey * settledTotal) :=
  let src := match SN_TenantSettled snap with [] => SN_LegacySettled snap | l => l end in
  (λ s, (mkTenantSettledKey (TW_TenantID s) (orSentinel (TW_ExternalNetwork s)) (TW_Zone s) (TW_Direction s),
         mkSettled (TW_Bytes s) (TW_Packets s))) <$> src.
Definition fromServerSettled (snap : snapshotWire) : list (ServerSettledKey * settledTotal) :=
  (λ s, (mkServerSettledKey (SW_ServerID s) (SW_TenantID s) (orSentinel (SW_ExternalNetwork s)) (SW_Zone s) (SW_Direction s),
         mkSettled (SW_Bytes s) (SW_Packets s))) <$> SN_ServerSettled snap.
Definition fromTotalSettled (snap : snapshotWire) : list (TotalSettledKey * settledTotal) :=
  (λ s, (mkTotalSettledKey (orSentinel (XW_ExternalNetwork s)) (XW_Zone s) (XW_Direction s),
         mkSettled (XW_Bytes s) (XW_Packets s))) <$> SN_TotalSettled snap.

(** ** Saving *)

(** What a file holds: the document its text denotes, or no document. *)
Inductive text := Torn | Doc (j : Json).

Record Snapshots := mkSnapshots {
  S_Records : list FlowRecord; S_Tenant : list (TenantSettledKey * settledTotal);
  S_Server : list (ServerSettledKey * settledTotal); S_Total : list (TotalSettledKey * settledTotal) }.
Definition envelope (agentBuild : string) (now : Z) (s : Snapshots) (countersResetAt : Z) : snapshotWire :=
  mkSnapW SchemaVersion agentBuild now (toWire <$> S_Records s) (toTenant <$> S_Tenant s)
    (toServer <$> S_Server s) (toTotal <$> S_Total s) countersResetAt [].

Inductive Stage :=
  StageWrite | StageFsync | StageRenameBak | StageRenameCurrent | StageDirSync.

Section files.
Context {Err : Type} (fault : nat → option Err).
Notation io := (io text).
Notation stageErr := (Stage * fserr Err)%type.
Notation OpenTrunc := (OpenTrunc fault Torn).
Notation Write := (Write fault Torn).
Notation SyncFile := (SyncFile fault).
Notation Close := (Close fault).
Notation Rename := (Rename fault).
Notation ReadFile := (ReadFile fault).

(** Run [k] after a call that did not fail. *)
Definition onOK (stage : Stage) (r : io * option (fserr Err)) (k : io → io * option stageErr)
    : io * option stageErr :=
  match r.2 with Some e => (r.1, Some (stage, e)) | None => k r.1 end.

Definition writeAndFsync (path : string) (data : text) (s : io) : io * option stageErr :=
  match OpenTrunc path s with
  | (s, inl e) => (s, Some (StageWrite, e))
  | (s, inr f) =>
      match Write f data s with
      | (s, Some e) => ((Close s).1, Some (StageWrite, e))
      | (s, None) =>
          match SyncFile f s with
          | (s, Some e) => ((Close s).1, Some (StageFsync, e))
          | (s, None) => onOK StageWrite (Close s) (λ s, (s, None))
          end
      end
  end.
Definition syncDir (s : io) : io * option (fserr Err) :=
  match OpenDir fault s with
  | (s, Some e) => (s, Some e)
  | (s, None) =>
      match SyncDirectory fault s with
      | (s, Some e) => ((Close s).1, Some e)
      | (s, None) => Close s
      end
  end.
(** The previous file moved aside; that there is none is no error. *)
Definition rotateAside (path : string) (s : io) : io * option (fserr Err) :=
  match Rename path (path +:+ BackupSuffix) s with
  | (s, Some ErrNotExist) => (s, None)
  | r => r
  end.
Definition SaveText (path : string) (data : text) (s : io) : io * option stageErr :=
  match writeAndFsync (path +:+ TempSuffix) data s with
  | (s, Some e) => (s, Some e)
  | (s, None) =>
      onOK StageRenameBak (rotateAside path s) (λ s,
      onOK StageRenameCurrent (Rename (path +:+ TempSuffix) path s) (λ s,
      onOK StageDirSync (syncDir s) (λ s, (s, None))))
  end.
Definition Save (path agentBuild : string) (snap : Snapshots) (countersResetAt now : Z)
    : io → io * option stageErr :=
  SaveText path (Doc (Marshal (envelope agentBuild now snap countersResetAt))).

(** ** Loading *)

Inductive readErr :=
  | ReadErr (e : fserr Err) | ParseErr | SchemaNewer (version : Z) | SchemaUnsupported (version : Z).
Inductive LoadSource := LoadFromPrimary | LoadFromBackup | LoadEmpty.
Record LoadResult := mkLoad {
  L_Snap : Snapshots; L_CountersResetAt : Z; L_Source : LoadSource }.

Definition parse (data : text) : readErr + snapshotWire :=
  match data with
  | Torn => inl ParseErr
  | Doc j =>
      match Unmarshal j with
      | None => inl ParseErr
      | Some snap =>
          if decide (SchemaVersion < SN_SchemaVersion snap) then inl (SchemaNewer (SN_SchemaVersion snap))
          else if decide (SN_SchemaVersion snap < 1) then inl (SchemaUnsupported (SN_SchemaVersion snap))
          else inr snap
      end
  end.
Definition readAndParse (path : string) (s : io) : io * (readErr + snapshotWire) :=
  match ReadFile path s with
  | (s, inl e) => (s, inl (ReadErr e))
  | (s, inr data) => (s, parse data)
  end.
Definition isNotExist (e : readErr) : bool := match e with ReadErr ErrNotExist => true | _ => false end.
Definition isNewer (e : readErr) : bool := match e with SchemaNewer _ => true | _ => false end.
Definition loaded (snap : snapshotWire) (src : LoadSource) : LoadResult :=
  mkLoad (mkSnapshots (fromSnapshot snap) (fromTenantSettled snap) (fromServerSettled snap)
    (fromTotalSettled snap)) (SN_CountersResetAtS snap) src.
(** The errors a failed load wraps, the primary's first. *)
Definition Load (path : string) (s : io) : io * (list readErr + LoadResult) :=
  match readAndParse path s with
  | (s, inr primary) => (s, inr (loaded primary LoadFromPrimary))
  | (s, inl primaryErr) =>
      if isNewer primaryErr then (s, inl [primaryErr])
      else
        match readAndParse (path +:+ BackupSuffix) s with
        | (s, inr backup) => (s, inr (loaded backup LoadFromBackup))
        | (s, inl backupErr) =>
            if isNotExist primaryErr && isNotExist backupErr then
              (s, inr (mkLoad (mkSnapshots [] [] [] []) 0 LoadEmpty))
            else (s, inl [primaryErr; backupErr])
        end
  end.
(** errors.Is(err, ErrSchemaNewer) *)
Definition schemaNewer (errs : list readErr) : bool := existsb isNewer errs.

Definition Quarantine (path : string) (s : io) : io * (fserr Err + bool) :=
  match Rename path (path +:+ QuarantineSuffix) s with
  | (s, Some ErrNotExist) => (s, inr false)
  | (s, Some e) => (s, inl e)
  | (s, None) => (s, inr true)
  end.
End files.
#[export] Instance LoadSource_eq_dec : EqDecision LoadSource.
Proof. solve_decision. Defined.

(** ** Ranges *)

Definition mac_ok (m : MacAddr) : Prop :=
  uint_range 8 (mb0 m) ∧ uint_range 8 (mb1 m) ∧ uint_range 8 (mb2 m) ∧ uint_range 8 (mb3 m) ∧
  uint_range 8 (mb4 m) ∧ uint_range 8 (mb5 m).
Definition keyW_ok (w : flowKeyWire) : Prop :=
  mac_ok (KW_SrcMac w) ∧ mac_ok (KW_DstMac w) ∧ uint_range 16 (KW_EthProto w) ∧
  uint_range 8 (KW_Direction w) ∧ uint_range 8 (KW_DstZone w) ∧ uint_range 8 (KW_L4Proto w).
Definition metricsW_ok (w : flowMetricsWire) : Prop :=
  uint_range 64 (MW_Bytes w) ∧ uint_range 64 (MW_Packets w) ∧ uint_range 64 (MW_LastSeenNs w) ∧
  uint_range 64 (MW_CreatedNs w).
Definition entryW_ok (w : entryWire) : Prop :=
  keyW_ok (EW_Key w) ∧ metricsW_ok (EW_Total w) ∧ metricsW_ok (EW_LastRaw w).
Definition tenantW_ok (w : tenantSettledWire) : Prop :=
  uint_range 8 (TW_Zone w) ∧ uint_range 8 (TW_Direction w) ∧ uint_range 64 (TW_Bytes w) ∧ uint_range 64 (TW_Packets w).
Definition serverW_ok (w : serverSettledWire) : Prop :=
  uint_range 8 (SW_Zone w) ∧ uint_range 8 (SW_Direction w) ∧ uint_range 64 (SW_Bytes w) ∧ uint_range 64 (SW_Packets w).
Definition totalW_ok (w : totalSettledWire) : Prop :=
  uint_range 8 (XW_Zone w) ∧ uint_range 8 (XW_Direction w) ∧ uint_range 64 (XW_Bytes w) ∧ uint_range 64 (XW_Packets w).
Definition snapW_ok (w : snapshotWire) : Prop :=
  uint_range 64 (SN_SchemaVersion w) ∧ uint_range 64 (SN_WrittenAtNs w) ∧
  Forall entryW_ok (SN_GlobalState w) ∧ Forall tenantW_ok (SN_TenantSettled w) ∧
  Forall serverW_ok (SN_ServerSettled w) ∧ Forall totalW_ok (SN_TotalSettled w) ∧
  int64_range (SN_CountersResetAtS w) ∧ Forall tenantW_ok (SN_LegacySettled w).

(** ** Decoding what was encoded *)

(** Decode the next member with the lemma [lem] for its field. *)
Ltac member lem :=
  erewrite dec_member_hit;
  [|reflexivity|cbn [snd fld]; erewrite lem; [reflexivity|eassumption..]].

Lemma dec_string_enc s cur : dec_string (JStr s) cur = Some s.
Proof. done. Qed.
Lemma dec_mac_enc m cur : mac_ok m → dec_mac (enc_mac m) cur = Some m.
Proof.
  intros (? & ? & ? & ? & ? & ?). rewrite /dec_mac /enc_mac. cbn [lookup list_lookup].
  rewrite !dec_uint_enc //. by destruct m.
Qed.
Lemma dec_key_enc w : keyW_ok w → dec_struct keyFields (enc_key w) zeroKeyW = Some w.
Proof.
  destruct w as [src dst eth dir zone l4]. intros (? & ? & ? & ? & ? & ?). cbn [KW_SrcMac KW_DstMac KW_EthProto KW_Direction KW_DstZone KW_L4Proto] in *.
  rewrite /enc_key. cbn [KW_SrcMac KW_DstMac KW_EthProto KW_Direction KW_DstZone KW_L4Proto app].
  member dec_mac_enc. member dec_mac_enc. member dec_uint_enc. member dec_uint_enc. member dec_uint_enc.
  rewrite /omit. case_bool_decide as E; [by subst|]. by member dec_uint_enc.
Qed.
Lemma dec_metrics_enc w : metricsW_ok w → dec_struct metricsFields (enc_metrics w) zeroMetricsW = Some w.
Proof.
  destruct w as [b p l c]. intros (? & ? & ? & ?). cbn [MW_Bytes MW_Packets MW_LastSeenNs MW_CreatedNs] in *.
  rewrite /enc_metrics. cbn [MW_Bytes MW_Packets MW_LastSeenNs MW_CreatedNs app].
  member dec_quoted_enc. member dec_quoted_enc. member dec_quoted_enc.
  rewrite /omit. case_bool_decide as E; [by subst|]. by member dec_quoted_enc.
Qed.
Lemma dec_owner_enc o : dec_struct ownerFields (enc_owner o) zeroOwnerW = Some o.
Proof.
  destruct o as [t e s]. rewrite /enc_owner. cbn [OW_Tenant OW_ExtNet OW_Server app].
  member dec_string_enc. member dec_string_enc.
  rewrite /omit. case_bool_decide as E; [by subst|]. by member dec_string_enc.
Qed.
Lemma dec_owner_pointer o : dec_pointer zeroOwnerW (dec_struct ownerFields) (enc_owner o) None = Some (Some o).
Proof.
  rewrite /dec_pointer {1}/enc_owner. cbn beta iota. change (default zeroOwnerW None) with zeroOwnerW.
  by rewrite dec_owner_enc.
Qed.
Lemma dec_entry_enc w : entryW_ok w → dec_struct entryFields (enc_entry w) zeroEntryW = Some w.
Proof.
  destruct w as [k t l o]. intros (? & ? & ?). cbn [EW_Key EW_Total EW_LastRaw] in *.
  rewrite /enc_entry. cbn [EW_Key EW_Total EW_LastRaw EW_Owner app].
  member dec_key_enc. member dec_metrics_enc. member dec_metrics_enc.
  destruct o as [o|]; last done.
  by member dec_owner_pointer.
Qed.
Lemma dec_tenant_enc w : tenantW_ok w → dec_struct tenantFields (enc_tenant w) zeroTenantW = Some w.
Proof.
  destruct w as [t e z d b p]. intros (? & ? & ? & ?). cbn [TW_Zone TW_Direction TW_Bytes TW_Packets] in *.
  rewrite /enc_tenant. cbn [TW_TenantID TW_ExternalNetwork TW_Zone TW_Direction TW_Bytes TW_Packets].
  member dec_string_enc. rewrite /omit. case_bool_decide as E; [subst|]; cbn [app]; [|member dec_string_enc].
  all: member dec_uint_enc; member dec_uint_enc; member dec_quoted_enc; by member dec_quoted_enc.
Qed.
Lemma dec_server_enc w : serverW_ok w → dec_struct serverFields (enc_server w) zeroServerW = Some w.
Proof.
  destruct w as [s t e z d b p]. intros (? & ? & ? & ?). cbn [SW_Zone SW_Direction SW_Bytes SW_Packets] in *.
  rewrite /enc_server. cbn [SW_ServerID SW_TenantID SW_ExternalNetwork SW_Zone SW_Direction SW_Bytes SW_Packets].
  member dec_string_enc. member dec_string_enc.
  rewrite /omit. case_bool_decide as E; [subst|]; cbn [app]; [|member dec_string_enc].
  all: member dec_uint_enc; member dec_uint_enc; member dec_quoted_enc; by member dec_quoted_enc.
Qed.
Lemma dec_total_enc w : totalW_ok w → dec_struct totalFields (enc_total w) zeroTotalW = Some w.
Proof.
  destruct w as [e z d b p]. intros (? & ? & ? & ?). cbn [XW_Zone XW_Direction XW_Bytes XW_Packets] in *.
  rewrite /enc_total. cbn [XW_ExternalNetwork XW_Zone XW_Direction XW_Bytes XW_Packets].
  rewrite /omit. case_bool_decide as E; [subst|]; cbn [app]; [|member dec_string_enc].
  all: member dec_uint_enc; member dec_uint_enc; member dec_quoted_enc; by member dec_quoted_enc.
Qed.
(** An optional member: skipped when the field still holds its value. *)
Lemma dec_member_omit {A} fields (f : field A) (b : bool) k j (cur cur' : A) ms r :
  List.find (λ f, EqualFold f.1 k) fields = Some f → f.2 j cur = Some cur' → (b = true → cur = cur') →
  dec_struct fields (JObj ms) cur' = r →
  dec_struct fields (JObj (omit b k j ++ ms)) cur = r.
Proof.
  intros Hf Hd Hb Hr. rewrite /omit. destruct b; cbn [app]; [by rewrite Hb|].
  by rewrite (dec_member_hit _ f _ _ _ cur').
Qed.
Lemma is_empty_nil {A} (l : list A) : is_empty l = true → [] = l.
Proof. by destruct l. Qed.
Ltac snap_simpl :=
  cbn [SN_SchemaVersion SN_AgentBuild SN_WrittenAtNs SN_GlobalState SN_TenantSettled SN_ServerSettled
       SN_TotalSettled SN_CountersResetAtS SN_LegacySettled zeroSnapW].
Ltac omitted lem :=
  eapply dec_member_omit;
  [reflexivity|cbn [snd fld]; erewrite lem; [reflexivity|eassumption..]
  |snap_simpl; intros Hempty; first [apply is_empty_nil in Hempty|apply bool_decide_eq_true in Hempty];
   rewrite ?Hempty; reflexivity|snap_simpl].
Lemma Unmarshal_Marshal w : snapW_ok w → Unmarshal (Marshal w) = Some w.
Proof.
  destruct w as [v b n g t s x c l]. intros (? & ? & Hg & Ht & Hs & Hx & ? & Hl).
  cbn [SN_SchemaVersion SN_WrittenAtNs SN_GlobalState SN_TenantSettled SN_ServerSettled SN_TotalSettled SN_CountersResetAtS SN_LegacySettled] in *.
  rewrite /Unmarshal /Marshal.
  cbn [SN_SchemaVersion SN_AgentBuild SN_WrittenAtNs SN_GlobalState SN_TenantSettled SN_ServerSettled SN_TotalSettled SN_CountersResetAtS SN_LegacySettled app].
  member dec_uint_enc. snap_simpl. member dec_string_enc. snap_simpl. member dec_quoted_enc. snap_simpl.
  pose proof (λ cur, dec_slice_enc _ _ _ _ _ cur dec_entry_enc Hg) as Eg.
  pose proof (λ cur, dec_slice_enc _ _ _ _ _ cur dec_tenant_enc Ht) as Et.
  pose proof (λ cur, dec_slice_enc _ _ _ _ _ cur dec_server_enc Hs) as Es.
  pose proof (λ cur, dec_slice_enc _ _ _ _ _ cur dec_total_enc Hx) as Ex.
  pose proof (λ cur, dec_slice_enc _ _ _ _ _ cur dec_tenant_enc Hl) as El.
  member Eg. snap_simpl. omitted Et. omitted Es. omitted Ex. omitted dec_int64_enc.
  rewrite -(app_nil_r (omit _ _ _)). omitted El. done.
Qed.

(** ** Round trip of a snapshot *)

Definition key_ok (k : FlowKey) : Prop :=
  mac_ok (SrcMac k) ∧ mac_ok (DstMac k) ∧ uint_range 16 (EthProto k) ∧ uint_range 8 (Direction_ k) ∧
  uint_range 8 (DstZone k) ∧ uint_range 8 (L4Proto_ k) ∧ Pad k = 0.
Definition metrics_ok (m : FlowMetrics) : Prop :=
  uint_range 64 (Bytes m) ∧ uint_range 64 (Packets m) ∧ uint_range 64 (LastSeenNs m) ∧ uint_range 64 (CreatedNs m).
(** An owner without a tenant is the zero owner: what is not resolved. *)
Definition record_ok (r : FlowRecord) : Prop :=
  key_ok (Rec_Key r) ∧ metrics_ok (Total (Rec_Counter r)) ∧ metrics_ok (LastEbpfRaw (Rec_Counter r)) ∧
  (Owner_Tenant (Rec_Owner r) = "" → Rec_Owner r = mkOwner "" "" "").
Definition settled_ok (z d : Z) (ext : string) (v : settledTotal) : Prop :=
  uint_range 8 z ∧ uint_range 8 d ∧ ext ≠ "" ∧ uint_range 64 (bytes v) ∧ uint_range 64 (packets v).
Definition snapshots_ok (s : Snapshots) : Prop :=
  Forall record_ok (S_Records s) ∧
  Forall (λ s, settled_ok (TS_Zone s.1) (TS_Dir s.1) (TS_ExtNet s.1) s.2) (S_Tenant s) ∧
  Forall (λ s, settled_ok (SS_Zone s.1) (SS_Dir s.1) (SS_ExtNet s.1) s.2) (S_Server s) ∧
  Forall (λ s, settled_ok (TT_Zone s.1) (TT_Dir s.1) (TT_ExtNet s.1) s.2) (S_Total s).

Lemma fromEntry_toWire r : record_ok r → fromEntry (toWire r) = r.
Proof.
  destruct r as [[] [[] []] [t e s]]. intros ((_ & _ & _ & _ & _ & _ & HPad) & _ & _ & Ho).
  simpl in *. subst. rewrite /fromEntry /toWire /=. case_decide as Et; first done.
  by rewrite -(Ho Et).
Qed.
Lemma orSentinel_ok ext : ext ≠ "" → orSentinel ext = ext.
Proof. intros. by rewrite /orSentinel decide_False. Qed.
Lemma map_back {A B} (P : A → Prop) (f : A → B) (g : B → A) l :
  (∀ x, P x → g (f x) = x) → Forall P l → g <$> (f <$> l) = l.
Proof. intros Hgf Hl. induction Hl as [|x l Hx _ IH]; csimpl; [done|]. by rewrite Hgf // IH. Qed.

Lemma loaded_envelope build now s reset src : snapshots_ok s →
  loaded (envelope build now s reset) src = mkLoad s reset src.
Proof.
  destruct s as [rs ts ss xs]. intros (Hr & Ht & Hs & Hx). cbn [S_Records S_Tenant S_Server S_Total] in *.
  rewrite /loaded /fromSnapshot /fromServerSettled /fromTotalSettled /=. do 2 f_equal.
  - by apply (map_back record_ok); first apply fromEntry_toWire.
  - rewrite /fromTenantSettled /=.
    rewrite -{2}(map_back _ toTenant (λ s, (mkTenantSettledKey (TW_TenantID s) (orSentinel (TW_ExternalNetwork s))
      (TW_Zone s) (TW_Direction s), mkSettled (TW_Bytes s) (TW_Packets s))) ts _ Ht); [|by destruct ts].
    intros [[] []] (_ & _ & ? & _). by rewrite /= orSentinel_ok.
  - apply (map_back _ _ _ _) with (2 := Hs). intros [[] []] (_ & _ & ? & _). by rewrite /= orSentinel_ok.
  - apply (map_back _ _ _ _) with (2 := Hx). intros [[] []] (_ & _ & ? & _). by rewrite /= orSentinel_ok.
Qed.
Lemma envelope_ok build now s reset : snapshots_ok s → uint_range 64 now → int64_range reset →
  snapW_ok (envelope build now s reset).
Proof.
  intros (Hr & Ht & Hs & Hx) ? ?. rewrite /envelope /snapW_ok /=. split_and!; [done|done|..|done|done].
  all: apply Forall_fmap; eapply Forall_impl; first eassumption.
  - intros r ((? & ? & ? & ? & ? & ? & ?) & Hm & Hl & ?). by rewrite /= /entryW_ok /= /keyW_ok /metricsW_ok.
  - intros s' (? & ? & ? & ? & ?). by rewrite /= /tenantW_ok.
  - intros s' (? & ? & ? & ? & ?). by rewrite /= /serverW_ok.
  - intros s' (? & ? & ? & ? & ?). by rewrite /= /totalW_ok.
Qed.
Lemma parse_envelope {Err} build now s reset : snapshots_ok s → uint_range 64 now → int64_range reset →
  parse (Err:=Err) (Doc (Marshal (envelope build now s reset))) = inr (envelope build now s reset).
Proof.
  intros. rewrite /parse Unmarshal_Marshal //. by apply envelope_ok.
Qed.

(** C36: What a save writes, a load reads back: every record with its counters as
    exact 64-bit values, its owner and its baseline, every settled bucket and the
    reset epoch.  Records and buckets must be within their field widths, buckets
    must carry an external network name, and an owner without tenant be empty. *)
Theorem wal_text_roundtrip {Err} build now s reset : snapshots_ok s → uint_range 64 now → int64_range reset →
  ∃ w, parse (Err := Err) (Doc (Marshal (envelope build now s reset))) = inr w ∧
    ∀ src, loaded w src = mkLoad s reset src.
Proof.
  intros. exists (envelope build now s reset). split; [by apply parse_envelope|].
  intros src. by apply loaded_envelope.
Qed.

Module WireExamples.
Definition flowW : FlowKey :=
  mkFlowKey (mkMac 250 22 62 0 0 3) (mkMac 250 22 62 0 0 4) 2048 DirectionIngress ZoneExternal L4ProtoTCP 0.
Definition sample : Snapshots := mkSnapshots
  [mkRecord flowW (mkCounter (mkFlowMetrics 18446744073709551615 10 5 0) (mkFlowMetrics 3 1 5 0)) (mkOwner "tA" "none" "")]
  [(mkTenantSettledKey "tB" "public" ZoneExternal DirectionEgress, mkSettled 9007199254740993 2)] [] [].
Lemma sample_ok : snapshots_ok sample.
Proof. split_and!; apply (bool_decide_unpack _); by vm_compute. Qed.
Lemma wal_text_roundtrip_witness :
  ∃ w, parse (Err := string) (Doc (Marshal (envelope "b" 1 sample (-5)))) = inr w ∧
    ∀ src, loaded w src = mkLoad sample (-5) src.
Proof. apply wal_text_roundtrip; [exact sample_ok|by split|by split]. Defined.
(** A version 2 file: the settled section under its old name, and without the
    external network. *)
Definition v2_file : Json := JObj [
  ("schema_version", JNum 2); ("written_at_ns", JStr "1"); ("global_state", JArr []);
  ("settled", JArr [JObj [("tenant_id", JStr "tA"); ("zone", JNum 2); ("direction", JNum 0);
    ("bytes", JStr "7"); ("packets", JStr "1")]])].
Example v2_settled :
  (λ w, fromTenantSettled w) <$> Unmarshal v2_file =
  Some [(mkTenantSettledKey "tA" NoExternalNetwork 2 0, mkSettled 7 1)].
Proof. by vm_compute. Qed.
End WireExamples.
