(* ===== verification/WalCrash.v ===== *)
(** * The write-ahead log across crashes

    Over any history of saves, failing calls and crashes at any point, loading
    returns the last snapshot whose save returned without error, or a later one
    whose save had begun: never a torn file, and never nothing once a save
    returned. *)
From S2P Require Import Prelude.
From S2P Require Import Bpf.
From S2P Require Import State.
From S2P Require Import GoJson.
From S2P Require Import FileSys.
From S2P Require Import Wal.

Lemma suffix_ne (p s : string) : s ≠ "" → p +:+ s ≠ p.
Proof. intros Hs E. induction p as [|a p IH]; [done|]. simpl in E. injection E. done. Qed.
Lemma bak_tmp p : p +:+ BackupSuffix ≠ p +:+ TempSuffix.
Proof. intros E. induction p as [|a p IH]; simpl in E; [done|]. by injection E. Qed.

Section rotation.
Context {Err : Type} (path : string).
Notation bak := (path +:+ BackupSuffix).
Notation tmp := (path +:+ TempSuffix).
Notation parse := (parse (Err := Err)).
Notation FS := (FS text).
Implicit Types (S : option snapshotWire → Prop) (fs : FS) (d : gmap string positive).

Lemma path_bak : path ≠ bak.
Proof. apply not_eq_sym, suffix_ne. done. Qed.
Lemma path_tmp : path ≠ tmp.
Proof. apply not_eq_sym, suffix_ne. done. Qed.

(** The file a load reads in a directory. *)
Definition consulted d : option positive := match d !! path with Some i => Some i | None => d !! bak end.
(** It is durable and holds a snapshot of [S]; or there is none, and [S] allows it. *)
Definition good S (inos : gmap positive (inode text)) d : Prop :=
  match consulted d with
  | Some i => ∃ j w, inos !! i = Some (mkInode (Doc j) true) ∧ parse (Doc j) = inr w ∧ S (Some w)
  | None => S None
  end.
Definition apart d : Prop := ∀ i, d !! tmp = Some i → consulted d ≠ Some i.
(** Every directory a crash may leave is good, and the temporary file is none of
    those a load would read. *)
Record Rot S fs : Prop := {
  rot_good n : good S (inodes fs) (names_at n fs);
  rot_apart n : apart (names_at n fs);
  rot_tmp i n : names fs !! tmp = Some i → consulted (names_at n fs) ≠ Some i }.

Lemma good_mono S S' inos d : (∀ o, S o → S' o) → good S inos d → good S' inos d.
Proof.
  rewrite /good. intros HS. destruct (consulted d); [|apply HS].
  intros (j & w & ? & ? & ?). exists j, w. auto.
Qed.
Lemma Rot_mono S S' fs : (∀ o, S o → S' o) → Rot S fs → Rot S' fs.
Proof. intros HS [Hg Ha Ht]. split; [intros n; by eapply good_mono|done..]. Qed.
Lemma good_now S fs : Rot S fs → good S (inodes fs) (names fs).
Proof. intros [Hg _ _]. specialize (Hg (length (journal fs))). by rewrite names_at_length in Hg. Qed.
Lemma good_consulted S inos d i : good S inos d → consulted d = Some i → is_Some (inos !! i).
Proof. rewrite /good. intros Hg E. rewrite E in Hg. destruct Hg as (j & w & -> & _). by eexists. Qed.

(** ** The primitive changes *)

Lemma rot_set_inode S i ino fs :
  Rot S fs → (∀ n, consulted (names_at n fs) ≠ Some i) → Rot S (set_inode i ino fs).
Proof.
  intros [Hg Ha Ht] Hi. split; [|exact Ha|exact Ht]. intros n. specialize (Hg n). specialize (Hi n).
  change (names_at n (set_inode i ino fs)) with (names_at n fs).
  rewrite /good in Hg |- *. destruct (consulted (names_at n fs)) as [k|]; [|done].
  destruct Hg as (j & w & ? & ? & ?). exists j, w. split; [|done]. simpl. rewrite lookup_insert_ne //. congruence.
Qed.
Lemma rot_sync_inode S i c fs : Rot S fs → inodes fs !! i = Some (mkInode c false) →
  Rot S (set_inode i (mkInode c true) fs).
Proof.
  intros HR Hi. apply rot_set_inode; first done. intros n E.
  pose proof (rot_good _ _ HR n) as Hg. rewrite /good E in Hg. destruct Hg as (j & w & ? & _). congruence.
Qed.
Lemma rot_log S op fs : Rot S fs → good S (inodes fs) (apply_nameop (names fs) op) →
  apart (apply_nameop (names fs) op) →
  (∀ i, apply_nameop (names fs) op !! tmp = Some i → ∀ n, consulted (names_at n fs) ≠ Some i) →
  Rot S (log_name op fs).
Proof.
  intros [Hg Ha Ht] Hg' Ha' Ht'. split.
  - intros n. change (inodes (log_name op fs)) with (inodes fs). by destruct (names_at_log op fs n) as [-> | ->].
  - intros n. by destruct (names_at_log op fs n) as [-> | ->].
  - intros i n. rewrite names_log. intros Hi. destruct (names_at_log op fs n) as [-> | ->]; [by apply Ht'|by apply Ha'].
Qed.
Lemma rot_flush S fs : Rot S fs → Rot S (flush_names fs).
Proof.
  intros HR. pose proof (good_now S fs HR) as Hg. destruct HR as [_ Ha Ht].
  specialize (Ha (length (journal fs))). rewrite names_at_length // in Ha.
  split; intros; rewrite ?names_at_flush; [exact Hg|exact Ha|by apply Ha].
Qed.
(** A crash leaves a state as good as the one it hit. *)
Lemma rot_crash S fs fs' : Rot S fs → crash fs fs' → Rot S fs'.
Proof.
  intros [Hg Ha Ht] ([n Hn] & Hj & Hd & _).
  assert (∀ m, names_at m fs' = names_at n fs) as En by (intros m; by rewrite /names_at Hj take_nil /= Hn).
  split.
  - intros m. rewrite En. specialize (Hg n). rewrite /good in Hg |- *.
    destruct (consulted (names_at n fs)) as [i|]; [|done]. destruct Hg as (j & w & ? & ? & ?).
    exists j, w. split; [by apply Hd|done].
  - intros m. rewrite En. apply Ha.
  - intros i m. rewrite En /names Hj /= Hn. apply Ha.
Qed.
End rotation.

(** ** The calls of a save *)

Section save.
Context {Err : Type} (fault : nat → option Err) (path : string).
Notation bak := (path +:+ BackupSuffix).
Notation tmp := (path +:+ TempSuffix).
Notation Rot := (Rot (Err := Err) path).
Implicit Types (S : option snapshotWire → Prop) (s : io text).

(** Every state so far is sound. *)
Definition sound S s : Prop := Rot S (io_fs s) ∧ Forall (Rot S) (io_hist s).
(** The temporary file holds [ino]. *)
Definition staged (ino : inode text) s : Prop :=
  ∃ i, names (io_fs s) !! tmp = Some i ∧ inodes (io_fs s) !! i = Some ino.

Lemma sound_called S fs s : sound S s → Rot S fs → sound S (called fs s).
Proof. intros [_ Hh] HR. split; first done. by apply Forall_app_2, Forall_singleton. Qed.
Lemma sound_attempt S ok failed s : sound S s → Rot S (ok (io_fs s)) → Rot S (failed (io_fs s)) →
  sound S (attempt fault ok failed s).1.
Proof. intros Hs ? ?. rewrite /attempt. destruct (fault _); by apply sound_called. Qed.
Lemma Close_sound S s : sound S s → sound S (Close fault s).1 ∧ io_fs (Close fault s).1 = io_fs s.
Proof.
  intros Hs. split; [apply sound_attempt; [done|apply Hs..]|]. rewrite /Close /attempt. by destruct (fault _).
Qed.

Lemma OpenTrunc_spec S s : sound S s →
  let r := OpenTrunc fault Torn tmp s in sound S r.1 ∧
  ∀ i, r.2 = inr i → names (io_fs r.1) !! tmp = Some i ∧ is_Some (inodes (io_fs r.1) !! i).
Proof.
  intros Hs. pose proof (proj1 Hs) as HR. rewrite /OpenTrunc. destruct (fault _) as [e|]; cbn zeta.
  { split; [by apply sound_called|done]. }
  destruct (names (io_fs s) !! tmp) as [i|] eqn:Ei; cbn [fst snd called io_fs].
  { split; [apply sound_called; [done|]; apply rot_set_inode; [done|]; intros n; by apply (rot_tmp _ _ _ HR)|].
    intros ? [= <-]. split; [exact Ei|]. simpl. rewrite lookup_insert_eq. by eexists. }
  set (i := fresh (dom (inodes (io_fs s)))). set (fs := set_inode i (mkInode Torn false) (io_fs s)).
  assert (∀ n, consulted path (names_at n (io_fs s)) ≠ Some i) as Hfresh.
  { intros n E. pose proof (good_consulted _ _ _ _ _ (rot_good _ _ _ HR n) E) as Hd%elem_of_dom.
    by apply (is_fresh (dom (inodes (io_fs s)))) in Hd. }
  assert (Rot S fs) as HR' by by apply rot_set_inode.
  assert (consulted path (<[tmp := i]> (names fs)) = consulted path (names fs)) as Ec.
  { rewrite /consulted !lookup_insert_ne //; [apply not_eq_sym, path_tmp|apply not_eq_sym, bak_tmp]. }
  assert (∀ n, consulted path (names_at n fs) ≠ Some i) as Hfresh' by exact Hfresh.
  assert (consulted path (names fs) ≠ Some i) as Hnow.
  { by rewrite -(names_at_length fs (length (journal fs))). }
  split.
  - apply sound_called; first done. apply rot_log; [done|..]; cbn [apply_nameop].
    + pose proof (good_now _ _ _ HR') as Hg. rewrite /good in Hg |- *. by rewrite Ec.
    + intros k. rewrite lookup_insert_eq Ec. by intros [= <-].
    + intros k. rewrite lookup_insert_eq. by intros [= <-].
  - intros ? [= <-]. rewrite names_log /= lookup_insert_eq. split; first done.
    rewrite lookup_insert_eq. by eexists.
Qed.
Lemma Write_spec S i data s : sound S s → names (io_fs s) !! tmp = Some i →
  let r := Write fault Torn i data s in sound S r.1 ∧
  (r.2 = None → names (io_fs r.1) !! tmp = Some i ∧ inodes (io_fs r.1) !! i = Some (mkInode data false)).
Proof.
  intros Hs Hi. cbn zeta. split.
  - apply sound_attempt; [done|..]; apply rot_set_inode; try apply Hs; intros n; by apply (rot_tmp _ _ _ (proj1 Hs)).
  - rewrite /Write /attempt. destruct (fault _); [done|]. intros _. cbn [fst called io_fs].
    split; [exact Hi|]. simpl. by rewrite lookup_insert_eq.
Qed.
Lemma SyncFile_spec S i data s : sound S s → names (io_fs s) !! tmp = Some i →
  inodes (io_fs s) !! i = Some (mkInode data false) →
  let r := SyncFile fault i s in sound S r.1 ∧
  (r.2 = None → names (io_fs r.1) !! tmp = Some i ∧ inodes (io_fs r.1) !! i = Some (mkInode data true)).
Proof.
  intros Hs Hi Hd. cbn zeta. split.
  - apply sound_attempt; [done|rewrite Hd; by apply rot_sync_inode; [apply Hs|]|apply Hs].
  - rewrite /SyncFile /attempt Hd. destruct (fault _); [done|]. intros _. cbn [fst called io_fs].
    split; [exact Hi|]. simpl. by rewrite lookup_insert_eq.
Qed.
Lemma writeAndFsync_spec S data s : sound S s →
  let r := writeAndFsync fault tmp data s in sound S r.1 ∧ (r.2 = None → staged (mkInode data true) r.1).
Proof.
  intros Hs. rewrite /writeAndFsync. cbn zeta.
  pose proof (OpenTrunc_spec S s Hs) as [H1 K1]. destruct (OpenTrunc _ _ _ s) as [s1 [e|i]]; cbn [fst snd] in *.
  { split; [done|by intros ?]. }
  destruct (K1 i eq_refl) as [Hi _].
  pose proof (Write_spec S i data s1 H1 Hi) as [H2 K2]. destruct (Write _ _ _ _ s1) as [s2 [e|]]; cbn [fst snd] in *.
  { split; [by apply Close_sound|by intros ?]. }
  destruct (K2 eq_refl) as [Hi2 Hd2].
  pose proof (SyncFile_spec S i data s2 H2 Hi2 Hd2) as [H3 K3]. destruct (SyncFile _ _ s2) as [s3 [e|]]; cbn [fst snd] in *.
  { split; [by apply Close_sound|by intros ?]. }
  destruct (Close_sound S s3 H3) as [H4 E4]. rewrite /onOK. destruct (Close fault s3) as [s4 [e|]]; cbn [fst snd] in *.
  { split; [done|by intros ?]. }
  split; [done|]. intros _. exists i. rewrite E4. by apply K3.
Qed.
Lemma rotateAside_spec S ino s : sound S s → staged ino s →
  let r := rotateAside fault path s in sound S r.1 ∧ (r.2 = None → staged ino r.1 ∧ names (io_fs r.1) !! path = None).
Proof.
  intros Hs (i & Hi & Hino). pose proof (proj1 Hs) as HR. rewrite /rotateAside /Rename. cbn zeta.
  destruct (names (io_fs s) !! path) as [k|] eqn:Ek.
  2: { destruct (fault _) as [e|]; cbn [fst snd]; (split; [by apply sound_called|]); [done|].
       intros _. split; [by exists i|exact Ek]. }
  rewrite /attempt. destruct (fault _) as [e|]; cbn [fst snd]; first by split; [apply sound_called|].
  assert (apply_nameop (names (io_fs s)) (Move path bak) = <[bak := k]> (delete path (names (io_fs s)))) as Eop.
  { by rewrite /= Ek. }
  assert (consulted path (names (io_fs s)) = Some k) as Ec by by rewrite /consulted Ek.
  assert (<[bak := k]> (delete path (names (io_fs s))) !! path = None) as Ep.
  { rewrite lookup_insert_ne; [apply not_eq_sym, path_bak|]. apply lookup_delete_eq. }
  assert (consulted path (<[bak := k]> (delete path (names (io_fs s)))) = Some k) as Ec'.
  { by rewrite /consulted Ep lookup_insert_eq. }
  assert (∀ j, <[bak := k]> (delete path (names (io_fs s))) !! tmp = Some j → names (io_fs s) !! tmp = Some j) as Etmp.
  { intros j. rewrite lookup_insert_ne; [apply bak_tmp|]. rewrite lookup_delete_ne //. apply path_tmp. }
  split.
  - apply sound_called; [done|]. apply rot_log; [done|..]; rewrite Eop.
    + pose proof (good_now _ _ _ HR) as Hg. rewrite /good Ec in Hg. by rewrite /good Ec'.
    + intros j Hj. rewrite Ec' -Ec -(names_at_length _ (length (journal (io_fs s)))) //.
      by apply (rot_tmp _ _ _ HR), Etmp.
    + intros j Hj n. by apply (rot_tmp _ _ _ HR), Etmp.
  - intros _. cbn [called io_fs fst]. split; [|by rewrite names_log Eop].
    exists i. rewrite names_log Eop. split; [|exact Hino].
    rewrite lookup_insert_ne; [apply bak_tmp|]. rewrite lookup_delete_ne //. apply path_tmp.
Qed.
Lemma rename_current_spec S j w s : sound S s → staged (mkInode (Doc j) true) s →
  parse (Err := Err) (Doc j) = inr w → S (Some w) →
  let r := Rename fault tmp path s in sound S r.1 ∧
  (r.2 = None → names (io_fs r.1) !! tmp = None ∧
     ∃ i, names (io_fs r.1) !! path = Some i ∧ inodes (io_fs r.1) !! i = Some (mkInode (Doc j) true)).
Proof.
  intros Hs (i & Hi & Hino) Hp HS. pose proof (proj1 Hs) as HR. rewrite /Rename Hi /attempt. cbn zeta.
  destruct (fault _) as [e|]; cbn [fst snd]; first by split; [apply sound_called|].
  assert (apply_nameop (names (io_fs s)) (Move tmp path) = <[path := i]> (delete tmp (names (io_fs s)))) as Eop.
  { by rewrite /= Hi. }
  assert (<[path := i]> (delete tmp (names (io_fs s))) !! tmp = None) as Et.
  { rewrite lookup_insert_ne; [apply path_tmp|]. apply lookup_delete_eq. }
  assert (consulted path (<[path := i]> (delete tmp (names (io_fs s)))) = Some i) as Ec.
  { by rewrite /consulted lookup_insert_eq. }
  split.
  - apply sound_called; [done|]. apply rot_log; [done|..]; rewrite Eop.
    + rewrite /good Ec. by exists j, w.
    + intros k. by rewrite Et.
    + intros k. by rewrite Et.
  - intros _. cbn [called io_fs fst]. rewrite names_log Eop. split; [exact Et|].
    exists i. by rewrite lookup_insert_eq.
Qed.
Lemma syncDir_spec S s : sound S s →
  let r := syncDir fault s in sound S r.1 ∧ (r.2 = None → io_fs r.1 = flush_names (io_fs s)).
Proof.
  intros Hs. rewrite /syncDir. cbn zeta.
  assert (sound S (OpenDir fault s).1) as H1 by by apply sound_attempt; [|apply Hs..].
  destruct (OpenDir fault s) as [s1 [e|]] eqn:E1; cbn [fst snd] in *; first done.
  assert (io_fs s1 = io_fs s) as F1.
  { move: E1. rewrite /OpenDir /attempt. destruct (fault _); by intros [= <-]. }
  assert (sound S (SyncDirectory fault s1).1) as H2.
  { apply sound_attempt; [done|apply rot_flush, H1|apply H1]. }
  destruct (SyncDirectory fault s1) as [s2 [e|]] eqn:E2; cbn [fst snd] in *; first by split; [apply Close_sound|].
  assert (io_fs s2 = flush_names (io_fs s1)) as F2.
  { move: E2. rewrite /SyncDirectory /attempt. destruct (fault _); by intros [= <-]. }
  destruct (Close_sound S s2 H2) as [H3 F3]. split; [done|]. intros _. by rewrite F3 F2 F1.
Qed.

(** Every state of a save is sound, and a save without error leaves nothing a load
    could read but what it saved. *)
Lemma SaveText_spec S j w s : sound S s → parse (Err := Err) (Doc j) = inr w → S (Some w) →
  let r := SaveText fault path (Doc j) s in
  sound S r.1 ∧ (r.2 = None → Rot (λ o, o = Some w) (io_fs r.1)).
Proof.
  intros Hs Hp HS. rewrite /SaveText /onOK. cbn zeta.
  destruct (writeAndFsync_spec S (Doc j) s Hs) as [H1 K1].
  destruct (writeAndFsync _ _ _ s) as [s1 [e|]]; cbn [fst snd] in *; first done.
  destruct (rotateAside_spec S _ s1 H1 (K1 eq_refl)) as [H2 K2].
  destruct (rotateAside _ _ s1) as [s2 [e|]]; cbn [fst snd] in *; first done.
  destruct (K2 eq_refl) as [Hst _].
  destruct (rename_current_spec S j w s2 H2 Hst Hp HS) as [H3 K3].
  destruct (Rename _ _ _ s2) as [s3 [e|]]; cbn [fst snd] in *; first done.
  destruct (K3 eq_refl) as (Et & i & Ei & Eino).
  destruct (syncDir_spec S s3 H3) as [H4 K4].
  destruct (syncDir fault s3) as [s4 [e|]]; cbn [fst snd] in *; first done.
  split; [done|]. intros _. rewrite (K4 eq_refl).
  assert (consulted path (names (io_fs s3)) = Some i) as Ec by by rewrite /consulted Ei.
  split; intros; rewrite ?names_at_flush.
  - rewrite /good Ec. by exists j, w.
  - intros k. by rewrite Et.
  - by rewrite /= Et in H.
Qed.
End save.

(** ** Loading, and lives of the log *)

Definition no_fault {Err} : nat → option Err := λ _, None.

Section lives.
Context {Err : Type} (path : string).
Notation io := (io text).
Notation FS := (FS text).
Notation Rot := (Rot (Err := Err) path).

(** The answer of a load on a file system whose reads succeed. *)
Definition load_answer (fs : FS) : list (readErr (Err := Err)) + LoadResult :=
  (Load no_fault path (mkIO fs 0 [])).2.
Definition nothing : LoadResult := mkLoad (mkSnapshots [] [] [] []) 0 LoadEmpty.

Lemma read_at (fs : FS) p i ino : names fs !! p = Some i → inodes fs !! i = Some ino → read p fs = Some (contents ino).
Proof. intros Hp Hi. by rewrite /read Hp /= Hi. Qed.
Lemma load_good (S : option snapshotWire → Prop) fs : good (Err := Err) path S (inodes fs) (names fs) →
  (∃ w src, S (Some w) ∧ src ≠ LoadEmpty ∧ load_answer fs = inr (loaded w src)) ∨ (S None ∧ load_answer fs = inr nothing).
Proof.
  rewrite /good /consulted /load_answer /Load /readAndParse /ReadFile /no_fault.
  cbn [io_fs io_calls called].
  destruct (names fs !! path) as [i|] eqn:Ep.
  - intros (j & w & Hi & Hw & HS). left. exists w, LoadFromPrimary. split; first done. split; first done.
    rewrite (read_at _ _ _ _ Ep Hi). cbn [contents]. by rewrite Hw.
  - assert (read path fs = None) as -> by by rewrite /read Ep.
    cbn [isNewer io_fs io_calls called]. destruct (names fs !! (path +:+ BackupSuffix)) as [i|] eqn:Eb.
    + intros (j & w & Hi & Hw & HS). left. exists w, LoadFromBackup. split; first done. split; first done.
      rewrite (read_at _ _ _ _ Eb Hi). cbn [contents]. by rewrite Hw.
    + intros HS. right. split; first done.
      assert (read (path +:+ BackupSuffix) fs = None) as -> by by rewrite /read Eb. done.
Qed.

(** What one save writes. *)
Record request := mkRequest { rq_build : string; rq_snap : Snapshots; rq_reset : Z; rq_now : Z }.
Definition request_ok (q : request) : Prop :=
  snapshots_ok (rq_snap q) ∧ int64_range (rq_reset q) ∧ uint_range 64 (rq_now q).
Definition save (fault : nat → option Err) (q : request) (fs : FS) : io * option (Stage * fserr Err) :=
  Save fault path (rq_build q) (rq_snap q) (rq_reset q) (rq_now q) (mkIO fs 0 []).

(** The file system after any history of saves and crashes, with what a load may
    answer: nothing before the first save, what was saved once a save returned
    without error, and also what a save that did not was writing. *)
Inductive lives : list (option request) → FS → Prop :=
  | lives_boot : lives [None] (mkFS ∅ [] ∅)
  | lives_saved cands fs fault q : lives cands fs → request_ok q →
      (save fault q fs).2 = None → lives [Some q] (io_fs (save fault q fs).1)
  | lives_failed cands fs fault q : lives cands fs → request_ok q →
      lives (Some q :: cands) (io_fs (save fault q fs).1)
  | lives_stopped cands fs fault q fs' : lives cands fs → request_ok q →
      fs' ∈ io_hist (save fault q fs).1 → lives (Some q :: cands) fs'
  | lives_crash cands fs fs' : lives cands fs → crash fs fs' → lives cands fs'.

Definition wire (q : request) : snapshotWire :=
  envelope (rq_build q) (rq_now q) (rq_snap q) (rq_reset q).
Definition among (cands : list (option request)) (o : option snapshotWire) : Prop :=
  ∃ c, c ∈ cands ∧ o = wire <$> c.

Lemma save_sound cands fs fault q : Rot (among cands) fs → request_ok q →
  let r := save fault q fs in
  sound (Err := Err) path (among (Some q :: cands)) r.1 ∧
  (r.2 = None → Rot (among [Some q]) (io_fs r.1)).
Proof.
  intros HR (Hs & Hreset & Hnow). cbn zeta.
  destruct (SaveText_spec fault path (among (Some q :: cands)) (Marshal (wire q)) (wire q) (mkIO fs 0 []))
    as [Hsound Hok].
  - split; [|done]. eapply Rot_mono, HR. intros o (c & ? & ->). exists c. split; [by right|done].
  - by apply parse_envelope.
  - exists (Some q). split; [by left|done].
  - split; [exact Hsound|]. intros E. eapply Rot_mono, Hok, E. intros o ->.
    exists (Some q). split; [by left|done].
Qed.
Lemma boot_rot : Rot (among [None]) (mkFS ∅ [] ∅).
Proof.
  assert (∀ n, names_at n (mkFS (C := text) ∅ [] ∅) = ∅) as E by (intros n; by rewrite /names_at /= take_nil).
  split; intros.
  - rewrite E /good /consulted !lookup_empty. exists None. split; [by left|done].
  - rewrite E. intros i. by rewrite lookup_empty.
  - rewrite E /consulted !lookup_empty. done.
Qed.
Lemma lives_rot cands fs : lives cands fs → Rot (among cands) fs.
Proof.
  induction 1 as [|cands fs fault q _ IH Hq E|cands fs fault q _ IH Hq|cands fs fault q fs' _ IH Hq Hin
    |cands fs fs' _ IH Hc].
  - apply boot_rot.
  - by apply (save_sound cands fs fault q IH Hq).
  - by apply (save_sound cands fs fault q IH Hq).
  - destruct (save_sound cands fs fault q IH Hq) as [[_ Hh] _]. by eapply Forall_forall in Hh.
  - by eapply rot_crash.
Qed.
Lemma lives_ok cands fs q : lives cands fs → Some q ∈ cands → request_ok q.
Proof.
  induction 1 as [|cands fs fault q' _ IH Hq E|cands fs fault q' _ IH Hq|cands fs fault q' fs' _ IH Hq Hin|];
    [| | | |done]; intros Hin'.
  - by apply list_elem_of_singleton in Hin'.
  - by apply list_elem_of_singleton in Hin' as [= ->].
  - by apply elem_of_cons in Hin' as [[= ->]|?]; [|apply IH].
  - by apply elem_of_cons in Hin' as [[= ->]|?]; [|apply IH].
Qed.

(** C3: Whatever saves the agent makes, whichever of their calls fail, and wherever
    it crashes, a load answers with the snapshot of the last save that returned
    without error or of a later save that had begun, whole and with its reset
    epoch; it answers with nothing only if no save has returned without error. *)
Theorem wal_crash_safe cands fs : lives cands fs →
  (∃ q src, Some q ∈ cands ∧ load_answer fs = inr (mkLoad (rq_snap q) (rq_reset q) src)) ∨
  (None ∈ cands ∧ load_answer fs = inr nothing).
Proof.
  intros Hl. destruct (load_good _ _ (good_now _ _ _ (lives_rot _ _ Hl))) as [(w & src & (c & Hc & E) & _ & Ea)|[(c & Hc & E) Ea]].
  - left. destruct c as [q|]; [|done]. injection E as ->. exists q, src. split; first done.
    rewrite Ea /wire loaded_envelope //. by destruct (lives_ok _ _ _ Hl Hc).
  - right. by destruct c.
Qed.

(** What a readable file says. *)
Definition read_answer (fs : FS) (p : string) : readErr (Err := Err) + snapshotWire :=
  match read p fs with Some data => parse data | None => inl (ReadErr ErrNotExist) end.
Lemma load_answer_unfold fs :
  load_answer fs =
  match read_answer fs path with
  | inr w => inr (loaded w LoadFromPrimary)
  | inl e =>
      if isNewer e then inl [e]
      else
        match read_answer fs (path +:+ BackupSuffix) with
        | inr w => inr (loaded w LoadFromBackup)
        | inl e' => if isNotExist e && isNotExist e' then inr nothing else inl [e; e']
        end
  end.
Proof.
  rewrite /load_answer /Load /read_answer /readAndParse /ReadFile /no_fault. cbn [io_fs io_calls called].
  destruct (read path fs) as [d|]; [destruct (parse d) as [e|]; [|done]|]; cbn [isNewer io_fs io_calls called].
  - destruct (isNewer e); [done|]. cbn [io_fs io_calls called]. destruct (read _ fs) as [d'|]; [by destruct (parse d') as [e'|]; [destruct (_ && _)|]|].
    by destruct (isNotExist e && _).
  - destruct (read _ fs) as [d'|]; [by destruct (parse d') as [e'|]; [destruct (_ && _)|]|done].
Qed.

(** A load refuses with the newer-schema error exactly when the current file is
    of a newer build, whatever the backup holds, or the current file is missing or
    unreadable and the backup is of a newer build; a load changes no file. *)
Theorem newer_schema_refused fs :
  ((∃ errs, load_answer fs = inl errs ∧ schemaNewer errs = true) ↔
   (∃ v, read_answer fs path = inl (SchemaNewer v)) ∨
   ((∃ e, read_answer fs path = inl e) ∧ ∃ v, read_answer fs (path +:+ BackupSuffix) = inl (SchemaNewer v))) ∧
  (∀ fault s, io_fs (Load (Err := Err) fault path s).1 = io_fs s).
Proof.
  split.
  - rewrite load_answer_unfold. split.
    + intros (errs & Ea & Hn). destruct (read_answer fs path) as [e|w]; last done.
      destruct (isNewer e) eqn:Ee; first by left; destruct e; [..|eexists|].
      right. split; first by eexists. destruct (read_answer fs _) as [e'|w']; last done.
      destruct (isNotExist e && isNotExist e'); [done|]. injection Ea as <-.
      rewrite /schemaNewer /= Ee /= orb_false_r in Hn. by destruct e'; [..|eexists|].
    + intros [[v ->]|[[e ->] [v ->]]]; first by eexists.
      destruct (isNewer e) eqn:Ee; [by eexists; split; [done|]; rewrite /schemaNewer /= Ee|].
      rewrite andb_false_r. eexists. split; first done. by rewrite /schemaNewer /= Ee.
  - intros fault s. rewrite /Load /readAndParse /ReadFile. cbn [io_fs io_calls called].
    destruct (fault (io_calls s)); [|destruct (read path _) as [d|]; [destruct (parse d) as [e|]; [destruct (isNewer e)|]|]];
      cbn [isNewer io_fs io_calls called]; try done;
      (destruct (fault _); [|destruct (read _ _) as [d'|]; [destruct (parse d') as [e'|]|]]; cbn [io_fs called fst]; try done;
       by destruct (_ && _)).
Qed.
End lives.

Module WalExamples.
Definition macA : MacAddr := mkMac 250 22 62 0 0 3.
Definition flowA : FlowKey := mkFlowKey macA (mkMac 250 22 62 0 0 4) 2048 0 2 1 0.
Definition rowA (n : Z) : FlowRecord :=
  mkRecord flowA (mkCounter (mkFlowMetrics n 7 5 1) (mkFlowMetrics n 7 5 1)) (mkOwner "tA" "public" "srvA").
(** 2^53 + 1 bytes: a double could not hold it. *)
Definition q1 : request :=
  mkRequest "build1" (mkSnapshots [rowA 9007199254740993]
    [(mkTenantSettledKey "tB" "none" 2 0, mkSettled 11 1)] [] []) 1700000000 1.
Definition q2 : request := mkRequest "build1" (mkSnapshots [rowA 9007199254740999] [] [] []) 1700000000 2.
Definition wal : string := "/var/lib/lachesis/state.json".
Definition fs1 : FS text := io_fs (save (Err := string) wal no_fault q1 (mkFS ∅ [] ∅)).1.
(** After the sixth call of the second save the old file is aside and the new one
    not yet in place. *)
Definition fs2 : FS text := default (mkFS ∅ [] ∅) (io_hist (save (Err := string) wal no_fault q2 fs1).1 !! 4%nat).
Definition fs3 : FS text := mkFS (names fs2) [] (inodes fs2).

Lemma q1_ok : request_ok q1.
Proof.
  split_and!; [|done..]. split_and!; [|by repeat constructor..].
  repeat constructor; try done. all: by vm_compute.
Qed.
Lemma q2_ok : request_ok q2.
Proof.
  split_and!; [|done..]. split_and!; [|by repeat constructor..].
  repeat constructor; try done. all: by vm_compute.
Qed.
Lemma interrupted : lives (Err := string) wal [Some q2; Some q1] fs3.
Proof.
  apply lives_crash with fs2.
  - apply (lives_stopped wal [Some q1] fs1 no_fault q2).
    + apply (lives_saved wal [None] (mkFS ∅ [] ∅) no_fault q1); [apply lives_boot|exact q1_ok|by vm_compute].
    + exact q2_ok.
    + apply list_elem_of_lookup_2 with 4%nat. by vm_compute.
  - split_and!; [by exists (length (journal fs2)); rewrite names_at_length|done|done|done].
Qed.
Lemma wal_crash_safe_witness :
  ((∃ q src, Some q ∈ [Some q2; Some q1] ∧ load_answer (Err := string) wal fs3 = inr (mkLoad (rq_snap q) (rq_reset q) src)) ∨
   (None ∈ [Some q2; Some q1] ∧ load_answer (Err := string) wal fs3 = inr nothing)) ∧
  load_answer (Err := string) wal fs3 = inr (mkLoad (rq_snap q1) (rq_reset q1) LoadFromBackup).
Proof. split; [exact (wal_crash_safe wal [Some q2; Some q1] fs3 interrupted)|by vm_compute]. Defined.
End WalExamples.
