(* ===== verification/WalFlush.v ===== *)
(** * The agent's use of the write-ahead log (internal/agent/walflush.go)

    The flusher, the last flush of a shutdown, and the restore of the next boot
    with its fallbacks.  The oracles say which file operations fail: one for a
    flush, one for the load and the quarantine of a boot. *)
From S2P Require Import Prelude.
From S2P Require Import GoStrings.
From S2P Require Import Bpf.
From S2P Require Import State.
From S2P Require Import Exposure.
From S2P Require Import Metadata.
From S2P Require Import Reconcile.
From S2P Require Import GoJson.
From S2P Require Import FileSys.
From S2P Require Import Wal.
From S2P Require Import WalCrash.

(** The part of the agent these functions read and write. *)
Record Agent (M : Type) := mkAgent {
  a_meta : M; a_routers : option RouterMap; a_state : GlobalState; a_files : FS text;
  a_countersResetAt : Z; a_fallbacks : list string }.
Arguments mkAgent {_} _ _ _ _ _ _.
Arguments a_meta {_} _.
Arguments a_routers {_} _.
Arguments a_state {_} _.
Arguments a_files {_} _.
Arguments a_countersResetAt {_} _.
Arguments a_fallbacks {_} _.

Definition withState {M} (g : GlobalState) (a : Agent M) : Agent M :=
  mkAgent (a_meta a) (a_routers a) g (a_files a) (a_countersResetAt a) (a_fallbacks a).
Definition withFiles {M} (fs : FS text) (a : Agent M) : Agent M :=
  mkAgent (a_meta a) (a_routers a) (a_state a) fs (a_countersResetAt a) (a_fallbacks a).
Definition setCountersReset {M} (now : Z) (a : Agent M) : Agent M :=
  mkAgent (a_meta a) (a_routers a) (a_state a) (a_files a) now (a_fallbacks a).
Definition RecordLoadFallback {M} (label : string) (a : Agent M) : Agent M :=
  mkAgent (a_meta a) (a_routers a) (a_state a) (a_files a) (a_countersResetAt a) (a_fallbacks a ++ [label]).
Definition LoadFallbackBak : string := "bak".
Definition LoadFallbackEmpty : string := "empty".

Section flush.
Context `{GoRange} `{MetaStore M} {Err : Type}.
Variables (path buildID : string) (enabled : bool).
Notation Agent := (Agent M).

Definition ghosts (meta : M) : gmap Z TenantMeta :=
  foldl (λ acc row, if decide (DeleteAt row.2 ≠ 0) then <[row.1 := row.2]> acc else acc) ∅ (ms_Range meta).
Definition settleLingeringGhosts (a : Agent) : Agent * Z :=
  let gs := ghosts (a_meta a) in
  if decide (size gs = 0%nat) then (a, 0)
  else
    let '(g, n) := Settle SettleRebase (SettleResolver (a_routers a) (λ k, gs !! VMMAC k)) (a_state a) in
    (withState g a, n).

Definition ownerResolver (a : Agent) : FlowKey → option Owner :=
  SettleResolver (a_routers a) (λ k, ms_Lookup (VMMAC k) (a_meta a)).

(** The rows of [records] whose recorded owner is not what they resolve to now. *)
Definition changedOwner (resolve : FlowKey → option Owner) (changed : gmap FlowKey Owner) (r : FlowRecord)
    : gmap FlowKey Owner :=
  if decide (Owner_Tenant (Rec_Owner r) = "") then changed
  else if decide (resolve (Rec_Key r) = Some (Rec_Owner r)) then changed
  else <[Rec_Key r := Rec_Owner r]> changed.
Definition settleChangedOwners (a : Agent) (records : list FlowRecord) : Agent * Z :=
  let changed := foldl (changedOwner (ownerResolver a)) ∅ records in
  if decide (size changed = 0%nat) then (a, 0)
  else
    let '(g, n) := Settle SettleRebase (λ k, changed !! k) (a_state a) in
    (withState g a, n).

(** The buffers of a flush: the snapshot, each row with its owner. *)
Definition stampOwner (resolve : FlowKey → option Owner) (r : FlowRecord) : FlowRecord :=
  mkRecord (Rec_Key r) (Rec_Counter r)
    (match resolve (Rec_Key r) with Some o => o | None => mkOwner "" "" "" end).
Definition walBuffers (a : Agent) : Snapshots :=
  let '(recs, settled, serverS, totalS) := SnapshotForWAL [] [] [] [] (a_state a) in
  mkSnapshots (stampOwner (ownerResolver a) <$> recs) settled serverS totalS.
Definition flushRequest (nowNs : Z) (a : Agent) : request :=
  mkRequest buildID (walBuffers a) (a_countersResetAt a) nowNs.
Definition flushWAL (fault : nat → option Err) (nowNs : Z) (a : Agent) : Agent * option (Stage * fserr Err) :=
  let '(s, err) := Save fault path buildID (walBuffers a) (a_countersResetAt a) nowNs (mkIO (a_files a) 0 []) in
  (withFiles (io_fs s) a, err).

(** The loop's ticks, then the end of its context. *)
Definition finalFlush (fault : nat → option Err) (nowNs : Z) (a : Agent) : Agent * option (Stage * fserr Err) :=
  flushWAL fault nowNs (settleLingeringGhosts a).1.
Definition walFlushLoop (ticks : list ((nat → option Err) * Z)) (fault : nat → option Err) (nowNs : Z)
    (a : Agent) : Agent * option (Stage * fserr Err) :=
  finalFlush fault nowNs (foldl (λ a t, (flushWAL t.1 t.2 a).1) a ticks).

(** ** The restore *)

Definition stampCountersReset (fault : nat → option Err) (now nowNs : Z) (a : Agent) : Agent :=
  (flushWAL fault nowNs (setCountersReset now a)).1.
Definition quarantineWAL (fault : nat → option Err) (s : io text) (a : Agent) : Agent :=
  withFiles (io_fs (Quarantine fault path s).1) a.
Definition Seed (s : Snapshots) (g : GlobalState) : GlobalState :=
  RestoreTotalSettled (S_Total s) (RestoreServerSettled (S_Server s)
    (RestoreTenantSettled (S_Tenant s) (Restore (S_Records s) g))).
Definition noteSource (fault : nat → option Err) (s : io text) (src : LoadSource) (a : Agent) : Agent :=
  match src with
  | LoadFromPrimary => a
  | LoadFromBackup => quarantineWAL fault s (RecordLoadFallback LoadFallbackBak a)
  | LoadEmpty => RecordLoadFallback LoadFallbackEmpty a
  end.
(** [fault] is of the load and the quarantine, [flushFault] of the flush that
    records a counter reset. *)
Definition restoreFromWAL (fault flushFault : nat → option Err) (now nowNs : Z) (a : Agent)
    : Agent * option (list (readErr (Err := Err))) :=
  if negb enabled then (setCountersReset now a, None)
  else
    match Load fault path (mkIO (a_files a) 0 []) with
    | (s, inl errs) =>
        if schemaNewer errs then (a, Some errs)
        else (stampCountersReset flushFault now nowNs (quarantineWAL fault s a), None)
    | (s, inr res) =>
        let a := noteSource fault s (L_Source res) a in
        let a := withState (Seed (L_Snap res) (a_state a)) a in
        let a := (settleChangedOwners a (S_Records (L_Snap res))).1 in
        if decide (L_Source res ≠ LoadEmpty ∧ L_CountersResetAt res ≠ 0) then
          (setCountersReset (L_CountersResetAt res) a, None)
        else (stampCountersReset flushFault now nowNs a, None)
    end.
End flush.

(** ** What a restart keeps *)

Section restart.
Context `{GoRange} `{MetaStore M} {Err : Type}.
Variables (path buildID : string).
Notation Agent := (Agent M).
Notation exposure a := (mkConfig (collectorOwner (a_meta a) (a_routers a)) (a_state a)).
Notation quiet := (quiet (λ _, True) (λ _, True)).
Implicit Types (a b : Agent).

Definition recorded a (k : FlowKey) : Owner := default (mkOwner "" "" "") (ownerResolver a k).
Lemma walBuffers_records a : S_Records (walBuffers a) =
  (λ kc, mkRecord kc.1 kc.2 (recorded a kc.1)) <$> go_range (counts (a_state a)).
Proof.
  rewrite /walBuffers /SnapshotForWAL /= -list_fmap_compose. apply list_fmap_ext. intros ? [k c] _.
  rewrite /= /stampOwner /recorded /=. by destruct (ownerResolver a k).
Qed.
Lemma Seed_walBuffers a : Seed (walBuffers a) New = a_state a.
Proof.
  rewrite /Seed /Restore walBuffers_records restored_rows.
  rewrite /walBuffers /SnapshotForWAL /RestoreTenantSettled /RestoreServerSettled /RestoreTotalSettled.
  cbn [S_Tenant S_Server S_Total counts tenantSettled serverSettled totalSettled app New].
  rewrite !insertAll_range. by destruct (a_state a).
Qed.
Lemma ownerResolver_agrees a k o : ownerResolver a k = Some o →
  collectorOwner (a_meta a) (a_routers a) k = o.
Proof. apply SettleResolver_agrees. done. Qed.

Lemma changed_lookup resolve (own : FlowKey → Owner) (rows : list (FlowKey * Counter)) acc k :
  foldl (changedOwner resolve) acc ((λ kc, mkRecord kc.1 kc.2 (own kc.1)) <$> rows) !! k =
  if decide (k ∈ rows.*1 ∧ Owner_Tenant (own k) ≠ "" ∧ resolve k ≠ Some (own k)) then Some (own k) else acc !! k.
Proof.
  induction rows as [|[k' c] rows IH] in acc |- *; csimpl.
  { done. }
  rewrite IH /changedOwner. cbn [Rec_Owner Rec_Key].
  destruct (decide (k ∈ rows.*1 ∧ Owner_Tenant (own k) ≠ "" ∧ resolve k ≠ Some (own k))) as [[Hin Hc]|Hno].
  { rewrite decide_True //. split; [by right|done]. }
  destruct (decide (k = k')) as [<-|Hne].
  - destruct (decide (Owner_Tenant (own k) = "")) as [E1|E1].
    { rewrite decide_False //. by intros (_ & ? & _). }
    destruct (decide (resolve k = Some (own k))) as [E2|E2].
    { rewrite decide_False //. by intros (_ & _ & ?). }
    rewrite lookup_insert_eq decide_True //. split; [by left|done].
  - assert (¬ (k ∈ k' :: rows.*1 ∧ Owner_Tenant (own k) ≠ "" ∧ resolve k ≠ Some (own k))) as Hno'.
    { intros [[?|?]%elem_of_cons Hc]; [done|]. by apply Hno. }
    destruct (decide (Owner_Tenant (own k') = "")); [by rewrite decide_False|].
    destruct (decide (resolve k' = Some (own k'))); [by rewrite decide_False|].
    rewrite lookup_insert_ne //. by rewrite decide_False.
Qed.

(** What the next boot makes of the rows it restored. *)
Definition settled_rows a b : gmap FlowKey Owner :=
  foldl (changedOwner (ownerResolver b)) ∅ (S_Records (walBuffers a)).
Lemma settled_rows_lookup a b k : settled_rows a b !! k =
  if decide (is_Some (counts (a_state a) !! k) ∧ Owner_Tenant (recorded a k) ≠ "" ∧
             ownerResolver b k ≠ Some (recorded a k))
  then Some (recorded a k) else None.
Proof.
  rewrite /settled_rows walBuffers_records changed_lookup lookup_empty.
  apply decide_ext. rewrite list_elem_of_fmap. split; intros [Hk ?]; (split; [|done]).
  - destruct Hk as ([k' c] & -> & Hin%elem_of_go_range). by eexists.
  - destruct Hk as [c Hk]. exists (k, c). split; [done|]. by apply elem_of_go_range.
Qed.
Lemma settled_rows_agree a b k o : settled_rows a b !! k = Some o →
  collectorOwner (a_meta a) (a_routers a) k = o.
Proof.
  rewrite settled_rows_lookup. case_decide as E; [|done]. intros [= <-]. destruct E as (_ & Hne & _).
  rewrite /recorded in Hne |- *. destruct (ownerResolver a k) as [o|] eqn:Eo; [|done].
  by apply ownerResolver_agrees.
Qed.

(** Every row that still holds bytes had an owner with a name when it was flushed,
    or is exposed as before. *)
Definition owned_rows a b : Prop :=
  ∀ k row, counts (a_state a) !! k = Some row →
    (∃ o, ownerResolver a k = Some o ∧ Owner_Tenant o ≠ "") ∨ total_of row = acc_zero ∨
    collectorOwner (a_meta b) (a_routers b) k = collectorOwner (a_meta a) (a_routers a) k.

Lemma settleChanged_state a b : a_state b = a_state a →
  (a_state (settleChangedOwners b (S_Records (walBuffers a))).1 = a_state a ∧ settled_rows a b = ∅) ∨
  a_state (settleChangedOwners b (S_Records (walBuffers a))).1 =
    (Settle SettleRebase (λ k, settled_rows a b !! k) (a_state a)).1.
Proof.
  intros Eb. rewrite /settleChangedOwners. fold (settled_rows a b).
  case_decide as E; [left; split; [done|by apply map_size_empty_inv]|right].
  rewrite Eb. by destruct (Settle _ _ _).
Qed.
Lemma settleChanged_frame b l : a_meta (settleChangedOwners b l).1 = a_meta b ∧
  a_routers (settleChangedOwners b l).1 = a_routers b ∧ a_files (settleChangedOwners b l).1 = a_files b.
Proof. rewrite /settleChangedOwners. case_decide; [done|]. by destruct (Settle _ _ _). Qed.

Lemma restart_quiet a b : a_state b = a_state a → owned_rows a b →
  let b' := (settleChangedOwners b (S_Records (walBuffers a))).1 in
  quiet (exposure a) (exposure b') ∧
  ∀ k, LastEbpfRaw <$> counts (a_state b') !! k = LastEbpfRaw <$> counts (a_state a) !! k.
Proof.
  intros Eb Howned. cbn zeta. destruct (settleChanged_frame b (S_Records (walBuffers a))) as (-> & -> & _).
  assert (∀ k row, counts (a_state a) !! k = Some row → settled_rows a b !! k = None →
    collectorOwner (a_meta b) (a_routers b) k = collectorOwner (a_meta a) (a_routers a) k ∨ total_of row = acc_zero) as Hrest.
  { intros k row Hk. rewrite settled_rows_lookup. case_decide as E; [done|]. intros _.
    destruct (Howned k row Hk) as [(o & Eo & Hne)|[?|?]]; [left|by right|by left].
    destruct (decide (ownerResolver b k = Some o)) as [Eb'|Hch].
    - by rewrite (ownerResolver_agrees _ _ _ Eb') (ownerResolver_agrees _ _ _ Eo).
    - exfalso. apply E. rewrite /recorded Eo. split; [by eexists|done]. }
  destruct (settleChanged_state a b Eb) as [[-> E0]| ->].
  - split; [|done]. apply quiet_reattribute. intros k row Hk. apply Hrest; [done|]. by rewrite E0 lookup_empty.
  - split.
    + etrans; [exact (quiet_step _ _ (exposure a) (ESettle SettleRebase (λ k, settled_rows a b !! k))
        (settled_rows_agree a b) I)|].
      refine (quiet_step _ _ _ (EReattribute _) _ I). intros k row. simpl. rewrite Settle_counts.
      destruct (counts (a_state a) !! k) as [c|] eqn:E; last done. cbn [mbind option_bind].
      destruct (settled_rows a b !! k) eqn:Es; intros [= <-]; [by right|by eapply Hrest].
    + intros k. rewrite Settle_counts. destruct (counts (a_state a) !! k) as [c|]; last done.
      cbn [mbind option_bind]. by destruct (settled_rows a b !! k).
Qed.

(** ** The last flush of a shutdown *)

Lemma ghosts_in (meta : M) mac m : ms_ok meta → ghosts meta !! mac = Some m → ms_Lookup mac meta = Some m.
Proof.
  intros Hok. rewrite ms_Lookup_view // /ghosts.
  assert (∀ l (acc : gmap Z TenantMeta),
    foldl (λ acc row, if decide (DeleteAt row.2 ≠ 0) then <[row.1 := row.2]> acc else acc) acc l !! mac = Some m →
    acc !! mac = Some m ∨ (mac, m) ∈ l) as Hl.
  { induction l as [|[k v] l IH]; intros acc; csimpl; first by left.
    intros [Hacc|?]%IH; [|by right; right]. case_decide; [|by left].
    destruct (decide (k = mac)) as [->|?]; [|by left; rewrite lookup_insert_ne in Hacc].
    rewrite lookup_insert_eq in Hacc. injection Hacc as ->. right. by left. }
  intros [[]%lookup_empty_Some|Hin]%Hl. rewrite (ms_Range_view meta Hok) in Hin.
  by apply elem_of_map_to_list in Hin.
Qed.
Lemma ghosts_settled a : ms_ok (a_meta a) →
  let a' := (settleLingeringGhosts a).1 in
  a_meta a' = a_meta a ∧ a_routers a' = a_routers a ∧ a_files a' = a_files a ∧
  a_countersResetAt a' = a_countersResetAt a ∧
  quiet (exposure a) (exposure a') ∧
  (∀ k, LastEbpfRaw <$> counts (a_state a') !! k = LastEbpfRaw <$> counts (a_state a) !! k) ∧
  (∀ k row, counts (a_state a') !! k = Some row → counts (a_state a) !! k = Some row ∨ total_of row = acc_zero).
Proof.
  intros Hok. rewrite /settleLingeringGhosts. cbn zeta. case_decide as E.
  { split_and!; try done. intros k row ?. by left. }
  pose proof (quiet_rebase (λ _, True) (λ _, True) (a_meta a) (a_routers a) (a_meta a) (a_routers a)
    (λ k, ghosts (a_meta a) !! VMMAC k) (a_state a)) as Hq. cbn zeta in Hq.
  pose proof (Settle_counts (SettleResolver (a_routers a) (λ k, ghosts (a_meta a) !! VMMAC k)) SettleRebase (a_state a)) as Hc.
  destruct (Settle _ _ _) as [g n]. cbn [fst withState a_meta a_routers a_files a_countersResetAt a_state] in *.
  split_and!; try done.
  - apply Hq; [by intros k m; apply ghosts_in|]. intros. by left.
  - intros k. rewrite Hc. destruct (counts (a_state a) !! k); [|done]. cbn [mbind option_bind]. by destruct (SettleResolver _ _ _).
  - intros k row. rewrite Hc. destruct (counts (a_state a) !! k) as [c|]; [|done]. cbn [mbind option_bind].
    destruct (SettleResolver _ _ _); intros [= <-]; [by right|by left].
Qed.

Lemma flushWAL_lives cands (fault : nat → option Err) nowNs a : lives (Err := Err) path cands (a_files a) →
  request_ok (flushRequest buildID nowNs a) → (flushWAL path buildID fault nowNs a).2 = None →
  lives (Err := Err) path [Some (flushRequest buildID nowNs a)] (a_files (flushWAL path buildID fault nowNs a).1).
Proof.
  intros Hl Hq. pose proof (lives_saved path cands (a_files a) fault (flushRequest buildID nowNs a) Hl Hq) as Hs.
  rewrite /flushWAL. rewrite /save /= in Hs. by destruct (Save _ _ _ _ _ _ _) as [s [e|]].
Qed.
(** A boot that finds what [a] flushed. *)
Lemma restored enabled (fault flushFault : nat → option Err) nowNs cands a b now nowNs' : enabled = true →
  lives (Err := Err) path cands (a_files a) → request_ok (flushRequest buildID nowNs a) →
  (flushWAL path buildID fault nowNs a).2 = None →
  crash (a_files (flushWAL path buildID fault nowNs a).1) (a_files b) →
  a_state b = New → a_countersResetAt a ≠ 0 →
  ∃ b0, a_meta b0 = a_meta b ∧ a_routers b0 = a_routers b ∧ a_state b0 = a_state a ∧
    restoreFromWAL path buildID enabled (no_fault (Err := Err)) flushFault now nowNs' b =
    (setCountersReset (a_countersResetAt a) (settleChangedOwners b0 (S_Records (walBuffers a))).1, None).
Proof.
  intros -> Hl Hq He Hc Hnew Hne.
  pose proof (lives_crash path _ _ _ (flushWAL_lives cands fault nowNs a Hl Hq He) Hc) as Hb.
  destruct (load_good _ _ _ (good_now _ _ _ (lives_rot _ _ _ Hb))) as [(w & src & (c & Hin & Ew) & Hsrc & Ea)|[(c & Hin & Ew) _]];
    apply list_elem_of_singleton in Hin as ->; [|done].
  injection Ew as ->. rewrite /wire loaded_envelope in Ea; [by destruct Hq|].
  rewrite /load_answer in Ea. rewrite /restoreFromWAL. cbn [negb].
  destruct (Load _ path _) as [s [errs|res]]; [done|]. cbn [snd] in Ea. injection Ea as ->.
  cbn [L_Source L_Snap L_CountersResetAt rq_snap rq_reset flushRequest].
  rewrite decide_True; [by split|].
  set (b1 := noteSource path no_fault s src b).
  assert (a_meta b1 = a_meta b ∧ a_routers b1 = a_routers b ∧ a_state b1 = a_state b) as (Em & Er & Es) by by destruct src.
  exists (withState (Seed (walBuffers a) (a_state b1)) b1). split; [exact Em|]. split; [exact Er|].
  split; [|reflexivity]. cbn [withState a_state]. by rewrite Es Hnew Seed_walBuffers.
Qed.

(** C2: An agent that shuts down with a successful last flush and comes back, its
    machine crashing in between or not, exposes what it exposed: every series of
    every tier has its value, through the fold of the lingering ghosts, the
    snapshot's way to the disk and back, and the fold of the rows whose port was
    deleted or reassigned meanwhile.  The kernel baselines and the reset epoch
    carry over, so the first drain counts only the growth.  The rows that hold
    bytes must have had a named owner, or keep the one they are exposed under. *)
Theorem restart_moves_no_byte cands (fault flushFault : nat → option Err) nowNs a b now nowNs' :
  ms_ok (a_meta a) → lives (Err := Err) path cands (a_files a) →
  request_ok (flushRequest buildID nowNs (settleLingeringGhosts a).1) →
  let stop := finalFlush path buildID fault nowNs a in
  stop.2 = None → crash (a_files stop.1) (a_files b) →
  a_state b = New → a_countersResetAt a ≠ 0 → owned_rows a b →
  let boot := restoreFromWAL path buildID true (no_fault (Err := Err)) flushFault now nowNs' b in
  let b' := boot.1 in
  boot.2 = None ∧ a_countersResetAt b' = a_countersResetAt a ∧
  (∀ k, LastEbpfRaw <$> counts (a_state b') !! k = LastEbpfRaw <$> counts (a_state a) !! k) ∧
  same_values (totalTier (exposure b')) (totalTier (exposure a)) ∧
  (∀ k, value k (tenantTier (exposure b')) = value k (tenantTier (exposure a))) ∧
  (∀ k, value k (serverTier (exposure b')) = value k (serverTier (exposure a))).
Proof.
  intros Hok Hl Hq. cbn zeta. intros He Hc Hnew Hne Howned.
  destruct (ghosts_settled a Hok) as (Em & Er & Efl & Ect & Hquiet & Hlast & Hrows).
  rewrite /finalFlush in He Hc. set (a0 := (settleLingeringGhosts a).1) in *.
  destruct (restored true fault flushFault nowNs cands a0 b now nowNs' eq_refl) as (b0 & Em0 & Er0 & Es0 & ->);
    [by rewrite Efl|done..|by rewrite Ect|].
  assert (owned_rows a0 b0) as Howned0.
  { intros k row Hk. rewrite Em0 Er0 Em Er. destruct (Hrows k row Hk) as [Hk'|?]; [|by right; left].
    destruct (Howned k row Hk') as [(o & Eo & ?)|?]; [left|by right].
    exists o. split; [|done]. by rewrite /ownerResolver Em Er. }
  destruct (restart_quiet a0 b0 Es0 Howned0) as [Hq0 Hlast0].
  set (b' := (settleChangedOwners b0 (S_Records (walBuffers a0))).1) in *.
  assert (quiet (exposure a) (exposure b')) as Hall by by etrans.
  split_and!; [done|exact Ect|by intros k; rewrite Hlast0|..].
  - exact (quiet_total _ _ _ _ Hall).
  - intros k. exact (quiet_tenant _ _ _ _ k Hall I).
  - intros k. exact (quiet_server _ _ _ _ k Hall I).
Qed.

(** The failures of a restore: a snapshot of a newer build refuses the boot and
    touches neither a file nor the state; any other unreadable log starts empty
    with the reset epoch of this boot; a disabled log reads nothing. *)
Theorem restore_errors enabled (fault flushFault : nat → option Err) now nowNs b :
  let boot := restoreFromWAL path buildID enabled fault flushFault now nowNs b in
  let answer := (Load fault path (mkIO (a_files b) 0 [])).2 in
  (boot.2 ≠ None ↔ enabled = true ∧ ∃ errs, answer = inl errs ∧ schemaNewer errs = true) ∧
  (boot.2 ≠ None → boot.1 = b) ∧
  (enabled = false → boot.1 = setCountersReset now b) ∧
  (∀ errs, enabled = true → answer = inl errs → schemaNewer errs = false →
     a_state boot.1 = a_state b ∧ a_countersResetAt boot.1 = now).
Proof.
  cbn zeta. rewrite /restoreFromWAL. destruct enabled; cbn [negb]; last first.
  { split_and!; try done. split; [done|by intros [? _]]. }
  destruct (Load fault path _) as [s [errs|res]]; cbn [snd].
  - destruct (schemaNewer errs) eqn:Es.
    + split_and!; try done; [|by intros ? _ [= <-]; rewrite Es].
      split; [|done]. intros _. split; [done|by exists errs].
    + split_and!; try done.
      * split; [done|]. intros (_ & ? & [= <-] & Hn). by rewrite Es in Hn.
      * intros errs' _ _ _. rewrite /stampCountersReset /flushWAL. by destruct (Save _ _ _ _ _ _ _).
  - set (b1 := (settleChangedOwners _ _).1). case_decide; (split_and!; try done; split; [done|by intros (_ & ? & ? & _)]).
Qed.
End restart.

Module WalFlushExamples.
#[local] Existing Instance list_range.
Definition macA : MacAddr := mkMac 250 22 62 0 0 3.
Definition macG : MacAddr := mkMac 250 22 62 0 0 4.
Definition peer : MacAddr := mkMac 250 22 62 0 0 9.
Definition flow (mac : MacAddr) : FlowKey := mkFlowKey mac peer 2048 DirectionIngress ZoneExternal L4ProtoTCP 0.
(** A port of tenant tA's and a ghost of tenant tG's. *)
Definition store : ShardedMetadataMap :=
  ms_Insert (MACKey macG) (mkMeta "tG" "srvG" "portG" "public" false 1060)
    (ms_Insert (MACKey macA) (mkMeta "tA" "srvA" "portA" "public" false 0) ms_new).
(** After the restart the MAC is tenant tB's, and the ghost is gone. *)
Definition store' : ShardedMetadataMap :=
  ms_Insert (MACKey macA) (mkMeta "tB" "srvB" "portB" "public" false 0) ms_new.
Definition counters : GlobalState :=
  ApplyDelta (flow macG) (mkFlowMetrics 700 7 5 1) (ApplyDelta (flow macA) (mkFlowMetrics 9007199254740993 10 5 1) New).
Definition before : Agent ShardedMetadataMap := mkAgent store (Some ∅) counters (mkFS ∅ [] ∅) 1700000000 [].
Definition wal : string := "/var/lib/lachesis/state.json".
Definition stopped : Agent ShardedMetadataMap := (finalFlush wal "build1" (no_fault (Err := string)) 1 before).1.
Definition after : Agent ShardedMetadataMap := mkAgent store' (Some ∅) New (a_files stopped) 0 [].
Definition back : Agent ShardedMetadataMap :=
  (restoreFromWAL wal "build1" true (no_fault (Err := string)) no_fault 1700000100 2 after).1.

Lemma flush_ok : request_ok (flushRequest "build1" 1 (settleLingeringGhosts before).1).
Proof.
  split_and!; [|by vm_compute..].
  split_and!; apply (bool_decide_unpack _ ); by vm_compute.
Qed.
Lemma store_two_ok : ms_ok store.
Proof. do 2 apply ms_Insert_view. apply ms_new_ok. Qed.
Lemma before_owned : owned_rows before after.
Proof.
  intros k row Hk. left. exists (recorded before k).
  apply (map_Forall_lookup_1 (λ k _, ownerResolver before k = Some (recorded before k) ∧
    Owner_Tenant (recorded before k) ≠ "") (counts (a_state before)) k row); [|exact Hk].
  apply (bool_decide_unpack _). by vm_compute.
Qed.
Lemma stopped_crash : crash (a_files stopped) (a_files after).
Proof. unfold after. cbn [a_files]. apply crash_refl. by vm_compute. Qed.

Lemma stopped_fine : (finalFlush wal "build1" (no_fault (Err := string)) 1 before).2 = None.
Proof. by vm_compute. Qed.
Lemma reset_set : a_countersResetAt before ≠ 0.
Proof. done. Qed.

Lemma restart_moves_no_byte_witness :
  a_countersResetAt back = 1700000000 ∧
  same_values (totalTier (mkConfig (collectorOwner (a_meta back) (a_routers back)) (a_state back)))
    (totalTier (mkConfig (collectorOwner (a_meta before) (a_routers before)) (a_state before))) ∧
  tenantSettled (a_state back) !! mkTenantSettledKey "tA" "public" ZoneExternal DirectionIngress =
    Some (mkSettled 9007199254740993 10).
Proof.
  destruct (restart_moves_no_byte wal "build1" [None] (no_fault (Err := string)) no_fault 1 before after
    1700000100 2 store_two_ok (lives_boot wal) flush_ok stopped_fine stopped_crash eq_refl reset_set before_owned)
    as (_ & Hr & _ & Ht & _).
  split; [exact Hr|]. split; [exact Ht|by vm_compute].
Defined.
Lemma restore_errors_witness :
  (restoreFromWAL wal "build1" false (no_fault (Err := string)) no_fault 7 2 before).1 = setCountersReset 7 before.
Proof.
  exact (proj1 (proj2 (proj2 (restore_errors wal "build1" false (no_fault (Err := string)) no_fault 7 2 before))) eq_refl).
Defined.
End WalFlushExamples.
