(* ===== verification/GoArgs.v ===== *)
(** * Texts of settings: strings, time, flag and net

    What the configuration uses of these packages, over ASCII strings. *)
From Stdlib Require Import SpecFloat Ascii.
From S2P Require Import Prelude.
From S2P Require Import GoStrings.

(** ** strings *)

Definition is_space (a : ascii) : bool :=
  let n := N_of_ascii a in bool_decide (n = 32 ∨ (9 ≤ n ∧ n ≤ 13))%N.
Fixpoint trimLeft (s : string) : string :=
  match s with
  | String a s' => if is_space a then trimLeft s' else s
  | EmptyString => EmptyString
  end.
Definition reverse (s : string) : string := String.string_of_list_ascii (rev (String.list_ascii_of_string s)).
Definition TrimSpace (s : string) : string := reverse (trimLeft (reverse (trimLeft s))).
Definition HasSuffix (s p : string) : bool := HasPrefix (reverse s) (reverse p).
Definition TrimPrefix (s p : string) : string :=
  if HasPrefix s p then String.substring (String.length p) (String.length s - String.length p) s else s.
Definition ToLower (s : string) : string := lower s.
(** filepath.IsAbs *)
Definition IsAbs (s : string) : bool := HasPrefix s "/".

(** The text before and after the first [c]. *)
Fixpoint cut (c : ascii) (s : string) : option (string * string) :=
  match s with
  | EmptyString => None
  | String a s' => if decide (a = c) then Some (EmptyString, s') else prod_map (String a) id <$> cut c s'
  end.
Definition cutLast (c : ascii) (s : string) : option (string * string) :=
  (λ p, (reverse p.2, reverse p.1)) <$> cut c (reverse s).

(** ** net.SplitHostPort *)

Definition colon : ascii := ":"%char.
Definition lbracket : ascii := "["%char.
Definition rbracket : ascii := "]"%char.
Definition SplitHostPort (hostport : string) : option (string * string) :=
  match cutLast colon hostport with
  | None => None
  | Some (before, port) =>
      match hostport with
      | String a rest =>
          if decide (a = lbracket) then
            match cut rbracket rest with
            | None => None
            | Some (host, tail) =>
                (* the bracket closes just before the last colon *)
                if decide (String.length host + 2 = String.length before)%nat then
                  if has_char lbracket host || has_char lbracket tail || has_char rbracket tail then None
                  else Some (host, port)
                else None
            end
          else if has_char colon before || has_char lbracket hostport || has_char rbracket hostport then None
          else Some (before, port)
      | EmptyString => None
      end
  end.

(** ** time.ParseDuration: nanoseconds *)

Definition millisecond : Z := 1000000.
Definition second : Z := 1000 * millisecond.
Definition minute : Z := 60 * second.
Definition hour : Z := 60 * minute.
(** The two letters mu, in UTF-8. *)
Definition micro1 : string := String (ascii_of_nat 194) (String (ascii_of_nat 181) "s").
Definition micro2 : string := String (ascii_of_nat 206) (String (ascii_of_nat 188) "s").
Definition unitMap : list (string * Z) :=
  [("ns", 1); ("us", 1000); (micro1, 1000); (micro2, 1000); ("ms", millisecond); ("s", second);
   ("m", minute); ("h", hour)].

Definition f64 (n : Z) : spec_float := binary_normalize 53 1024 n 0 false.
Definition truncate (f : spec_float) : Z :=
  match f with
  | S754_finite false m e => if decide (0 ≤ e) then Z.pos m * 2 ^ e else Z.pos m / 2 ^ (- e)
  | _ => 0
  end.

Fixpoint leadingInt (x : Z) (s : string) : option (Z * string) :=
  match s with
  | EmptyString => Some (x, s)
  | String a s' =>
      match digit_value a with
      | None => Some (x, s)
      | Some d =>
          if decide (2 ^ 63 / 10 < x) then None
          else let x := x * 10 + d in if decide (2 ^ 63 < x) then None else leadingInt x s'
      end
  end.
Fixpoint leadingFraction (x : Z) (scale : spec_float) (overflow : bool) (s : string) : Z * spec_float * string :=
  match s with
  | EmptyString => (x, scale, s)
  | String a s' =>
      match digit_value a with
      | None => (x, scale, s)
      | Some d =>
          if overflow || bool_decide ((2 ^ 63 - 1) / 10 < x) || bool_decide (2 ^ 63 < x * 10 + d)
          then leadingFraction x scale true s'
          else leadingFraction (x * 10 + d) (SFmul 53 1024 scale (f64 10)) false s'
      end
  end.
Fixpoint takeUnit (s : string) : string * string :=
  match s with
  | EmptyString => (EmptyString, s)
  | String a s' =>
      if decide (a = "."%char) then (EmptyString, s)
      else match digit_value a with
           | Some _ => (EmptyString, s)
           | None => prod_map (String a) id (takeUnit s')
           end
  end.
(** One number with its unit: its nanoseconds and the rest. *)
Definition durationPart (s : string) : option (Z * string) :=
  match leadingInt 0 s with
  | None => None
  | Some (v, s1) =>
      let pre := negb (bool_decide (s1 = s)) in
      let '(f, scale, s2, post) :=
        match s1 with
        | String a s' =>
            if decide (a = "."%char) then
              let '(f, scale, s2) := leadingFraction 0 (f64 1) false s' in (f, scale, s2, negb (bool_decide (s2 = s')))
            else (0, f64 1, s1, false)
        | EmptyString => (0, f64 1, s1, false)
        end in
      if negb pre && negb post then None
      else
        let '(u, s3) := takeUnit s2 in
        match snd <$> List.find (λ p, bool_decide (p.1 = u)) unitMap with
        | None => None
        | Some unit =>
            if decide (2 ^ 63 / unit < v) then None
            else
              let v := v * unit in
              let v := if decide (0 < f) then v + truncate (SFmul 53 1024 (f64 f) (SFdiv 53 1024 (f64 unit) scale)) else v in
              if decide (2 ^ 63 < v) then None else Some (v, s3)
        end
  end.
(** Every part is at least one character long, so the length of the text bounds
    their number. *)
Fixpoint durationParts (fuel : nat) (d : Z) (s : string) : option Z :=
  match s with
  | EmptyString => Some d
  | _ =>
      match fuel with
      | O => None
      | S fuel =>
          match durationPart s with
          | None => None
          | Some (v, s') => if decide (2 ^ 63 < d + v) then None else durationParts fuel (d + v) s'
          end
      end
  end.
Definition ParseDuration (s : string) : option Z :=
  let '(neg, s) :=
    match s with
    | String a s' =>
        if decide (a = "-"%char) then (true, s') else if decide (a = "+"%char) then (false, s') else (false, s)
    | EmptyString => (false, s)
    end in
  if decide (s = "0") then Some 0
  else if decide (s = "") then None
  else
    match durationParts (String.length s) 0 s with
    | None => None
    | Some d => if neg then Some (- d) else if decide (2 ^ 63 - 1 < d) then None else Some d
    end.

Example duration_day : ParseDuration "1h30m0.5s" = Some 5400500000000.
Proof. by vm_compute. Qed.
Example duration_bad : ParseDuration "10" = None ∧ ParseDuration "-1.5h" = Some (- 5400000000000).
Proof. by vm_compute. Qed.

(** strconv.ParseBool, which boolean flags use. *)
Definition ParseBool (s : string) : option bool :=
  if decide (s ∈ ["1"; "t"; "T"; "true"; "TRUE"; "True"]) then Some true
  else if decide (s ∈ ["0"; "f"; "F"; "false"; "FALSE"; "False"]) then Some false
  else None.

(** ** flag.FlagSet.Parse *)

(** A flag: boolean ones take no separate argument; [set] stores the text. *)
Record flagDef (A : Type) := mkFlag { flag_name : string; flag_bool : bool; flag_set : string → A → option A }.
Arguments mkFlag {_} _ _ _.
Arguments flag_name {_} _.
Arguments flag_bool {_} _.
Arguments flag_set {_} _ _ _.

(** The name and value of an argument without its dashes. *)
Definition flagParts (name : string) : string * option string :=
  match name with
  | EmptyString => (name, None)
  | String a rest =>
      match cut "="%char rest with
      | Some (n, v) => (String a n, Some v)
      | None => (name, None)
      end
  end.
Definition badName (name : string) : bool :=
  match name with
  | EmptyString => true
  | String a _ => bool_decide (a = "-"%char ∨ a = "="%char)
  end.
(** None is an error; the arguments that are left are not flags. *)
Fixpoint parseFlags {A} (flags : list (flagDef A)) (args : list string) (a : A) : option A :=
  match args with
  | [] => Some a
  | s :: args =>
      match s with
      | String c1 (String c2 _ as rest) =>
          if decide (c1 ≠ "-"%char) then Some a
          else if decide (s = "--") then Some a
          else
            let name := if decide (c2 = "-"%char) then String.substring 1 (String.length rest) rest else rest in
            if badName name then None
            else
              let '(n, value) := flagParts name in
              match List.find (λ f, bool_decide (flag_name f = n)) flags with
              | None => None
              | Some f =>
                  match value with
                  | Some v => flag_set f v a ≫= parseFlags flags args
                  | None =>
                      if flag_bool f then flag_set f "true" a ≫= parseFlags flags args
                      else
                        match args with
                        | [] => None
                        | v :: args' => flag_set f v a ≫= parseFlags flags args'
                        end
                  end
              end
      | _ => Some a
      end
  end.

(** int64 arithmetic wraps around. *)
Definition i64 (z : Z) : Z := (z + 2 ^ 63) `mod` 2 ^ 64 - 2 ^ 63.
Lemma i64_id z : - 2 ^ 63 ≤ z < 2 ^ 63 → i64 z = z.
Proof. rewrite /i64 => Hz. rewrite Z.mod_small; lia. Qed.
