(* ===== verification/Config.v ===== *)
(** * Configuration (internal/config, internal/tunables)

    The sections with their defaults and validation, the overlays of the
    environment and the command line, and the projection of the hot-reloadable
    knobs.  Durations are nanoseconds.  Decoding YAML is a third-party library's:
    [decode] is what it makes of a file's text over given values. *)
From Stdlib Require Import SpecFloat Ascii.
From S2P Require Import Prelude.
From S2P Require Import GoStrings.
From S2P Require Import GoArgs.

(** ** Sections *)

Record HTTPConfig := mkHTTP { Listen : string }.
Record BPFConfig := mkBPF {
  PinPath : string; AttachPrefixes : list string; AttachInterfaces : list string;
  AttachResyncInterval : Z; UnsafeAllowUnpinnedMaps : bool }.
Record ScrapeConfig := mkScrape { Scrape_Interval : Z }.
Record LoggingConfig := mkLogging { Level : string; Format : string }.
Record WALConfig := mkWAL { WAL_Path : string; WAL_FlushInterval : Z; WAL_Enabled : bool }.
Record NeutronConfig := mkNeutronCfg {
  Neutron_Enabled : bool; CredentialsFile : string; AuthURL : string; Username : string;
  Password : string; ProjectName : string; UserDomain : string; ProjectDomain : string;
  Region : string; Interface : string; RequestTimeout : Z; RefreshLead : Z;
  UnsafeAllowAmbiguousRoutes : bool; Cfg_MaxStaticRouteHops : Z }.
Record GCConfig := mkGC {
  HighWatermark : spec_float; LowWatermark : spec_float; MaxPerPass : Z; Cfg_GhostGrace : Z;
  Cfg_GhostSweepInterval : Z }.
Record KafkaConfig := mkKafka {
  Kafka_Enabled : bool; Brokers : list string; Topic : string; GroupID : string }.
Record ReconcileConfig := mkReconcileCfg { Reconcile_Interval : Z; Cfg_KickDebounce : Z }.
Record UnresolvedConfig := mkUnresolvedCfg { Cap : Z; TTL : Z }.
Record Config := mkConfiguration {
  Version : string; HTTP : HTTPConfig; BPF : BPFConfig; Scrape : ScrapeConfig;
  Logging : LoggingConfig; WAL : WALConfig; Neutron : NeutronConfig; GC : GCConfig;
  Kafka : KafkaConfig; Reconcile : ReconcileConfig; Unresolved : UnresolvedConfig }.

(** Decimal constants of the source, as the compiler rounds them. *)
Definition f0_80 : spec_float := SFdiv 53 1024 (f64 80) (f64 100).
Definition f0_75 : spec_float := SFdiv 53 1024 (f64 75) (f64 100).
Definition Defaults : Config := mkConfiguration
  "1" (mkHTTP ":9090")
  (mkBPF "/sys/fs/bpf/lachesis" ["tap"] [] (60 * second) false)
  (mkScrape (10 * second)) (mkLogging "info" "json")
  (mkWAL "/var/lib/lachesis/network_agent_state.json" (60 * second) true)
  (mkNeutronCfg false "" "" "" "" "" "default" "default" "" "" (30 * second) (5 * minute) false 16)
  (mkGC f0_80 f0_75 1000 (60 * second) (60 * second))
  (mkKafka false [] "notifications.info" "lachesis")
  (mkReconcileCfg (5 * minute) second) (mkUnresolvedCfg 10000 (60 * second)).

(** ** Validation: the first complaint, if any *)

Definition complaint : Type := option string.
Definition when (c : bool) (msg : string) : complaint := if c then Some msg else None.
Fixpoint firstOf (l : list complaint) : complaint :=
  match l with [] => None | Some e :: _ => Some e | None :: l => firstOf l end.
Definition section (name : string) (c : complaint) : complaint := (λ e, name +:+ ": " +:+ e) <$> c.

Definition HTTP_Validate (c : HTTPConfig) : complaint :=
  firstOf [when (bool_decide (Listen c = "")) "listen address is empty";
           when (bool_decide (SplitHostPort (Listen c) = None)) "listen"].
Definition minAttachResyncInterval : Z := 10 * second.
Definition blank (s : string) : bool := bool_decide (TrimSpace s = "").
Definition BPF_Validate (c : BPFConfig) : complaint :=
  firstOf [when (bool_decide (PinPath c = "")) "pin_path is empty";
           when (negb (IsAbs (PinPath c))) "pin_path must be absolute";
           when (existsb blank (AttachPrefixes c)) "attach_prefixes entry is empty";
           when (existsb blank (AttachInterfaces c)) "attach_interfaces entry is empty";
           when (bool_decide (AttachResyncInterval c < 0 ∨
                   0 < AttachResyncInterval c < minAttachResyncInterval)) "attach_resync_interval"].
Definition Scrape_Validate (c : ScrapeConfig) : complaint :=
  when (bool_decide (Scrape_Interval c < second)) "interval is too small".
Definition Logging_Validate (c : LoggingConfig) : complaint :=
  firstOf [when (bool_decide (Level c ∉ ["debug"; "info"; "warn"; "error"])) "level";
           when (bool_decide (Format c ∉ ["json"; "text"])) "format"].
Definition WAL_Validate (c : WALConfig) : complaint :=
  if negb (WAL_Enabled c) then None
  else firstOf [when (bool_decide (WAL_Path c = "")) "path is empty";
                when (negb (IsAbs (WAL_Path c))) "path must be absolute";
                when (bool_decide (WAL_FlushInterval c < second)) "flush_interval is too small"].
Definition Neutron_Validate (c : NeutronConfig) : complaint :=
  if negb (Neutron_Enabled c) then None
  else
    let hasFile := negb (bool_decide (CredentialsFile c = "")) in
    let hasInline := negb (bool_decide (AuthURL c = "" ∧ Username c = "" ∧ Password c = "" ∧ ProjectName c = "")) in
    firstOf [
      (if hasFile && hasInline then Some "set either credentials_file or inline credentials, not both"
       else if negb hasFile && negb hasInline then Some "credentials are required when enabled"
       else if hasFile then when (negb (IsAbs (CredentialsFile c))) "credentials_file must be absolute"
       else firstOf [when (bool_decide (AuthURL c = "")) "auth_url is required";
                     when (bool_decide (Username c = "")) "username is required";
                     when (bool_decide (Password c = "")) "password is required";
                     when (bool_decide (ProjectName c = "")) "project_name is required"]);
      when (bool_decide (RequestTimeout c ≤ 0)) "request_timeout must be positive";
      when (bool_decide (RefreshLead c ≤ 0)) "refresh_lead must be positive";
      when (bool_decide (Cfg_MaxStaticRouteHops c < 1)) "max_static_route_hops must be at least 1"].
(** Comparisons of float64, false on a NaN. *)
Definition GC_Validate (c : GCConfig) : complaint :=
  let h := HighWatermark c in
  let l := LowWatermark c in
  firstOf [when (SFleb h (f64 0) || SFleb (f64 1) h) "pressure_high_watermark must be in (0, 1)";
           when (SFleb l (f64 0) || SFleb h l) "pressure_low_watermark must be in (0, pressure_high_watermark)";
           when (bool_decide (Cfg_GhostGrace c ≤ 0)) "ghost_grace must be > 0";
           when (bool_decide (Cfg_GhostSweepInterval c ≤ 0)) "ghost_sweep_interval must be > 0";
           when (bool_decide (MaxPerPass c < 1)) "pressure_max_per_pass must be >= 1"].
Definition Kafka_Validate (c : KafkaConfig) : complaint :=
  if negb (Kafka_Enabled c) then None
  else firstOf [when (bool_decide (Brokers c = [])) "brokers is required when enabled";
                when (bool_decide (Topic c = "")) "topic must not be empty";
                when (bool_decide (GroupID c = "")) "group_id must not be empty"].
Definition Reconcile_Validate (c : ReconcileConfig) : complaint :=
  firstOf [when (bool_decide (Reconcile_Interval c < second)) "reconcile interval must be >= 1s";
           when (bool_decide (Cfg_KickDebounce c < 0)) "reconcile kick_debounce must be >= 0"].
Definition Unresolved_Validate (c : UnresolvedConfig) : complaint :=
  firstOf [when (bool_decide (Cap c < 1)) "unresolved cap must be >= 1";
           when (bool_decide (TTL c ≤ 0)) "unresolved ttl must be > 0"].
Definition Validate (c : Config) : complaint :=
  firstOf [when (bool_decide (Version c ≠ "1")) "version unsupported";
           section "http" (HTTP_Validate (HTTP c)); section "bpf" (BPF_Validate (BPF c));
           section "scrape" (Scrape_Validate (Scrape c)); section "logging" (Logging_Validate (Logging c));
           section "wal" (WAL_Validate (WAL c)); section "neutron" (Neutron_Validate (Neutron c));
           section "gc" (GC_Validate (GC c)); section "kafka" (Kafka_Validate (Kafka c));
           section "reconcile" (Reconcile_Validate (Reconcile c));
           section "unresolved" (Unresolved_Validate (Unresolved c))].

(** [KafkaConfig.EffectiveGroupID]. *)
Definition EffectiveGroupID (c : KafkaConfig) (host randomFallback : string) : string :=
  GroupID c +:+ "-" +:+ (if decide (host = "") then randomFallback else host).

(** ** The hot-reloadable knobs *)

Record Values := mkValues {
  GhostGrace : Z; GhostSweepInterval : Z; ReconcileInterval : Z; KickDebounce : Z; ScrapeInterval : Z;
  WALFlushInterval : Z; UnresolvedTTL : Z; UnresolvedCap : Z; PressureHighWatermark : spec_float;
  PressureLowWatermark : spec_float; PressureMaxPerPass : Z; MaxStaticRouteHops : Z }.
Definition Tunables (c : Config) : Values := mkValues
  (Cfg_GhostGrace (GC c)) (Cfg_GhostSweepInterval (GC c)) (Reconcile_Interval (Reconcile c))
  (Cfg_KickDebounce (Reconcile c)) (Scrape_Interval (Scrape c)) (WAL_FlushInterval (WAL c))
  (TTL (Unresolved c)) (Cap (Unresolved c)) (HighWatermark (GC c)) (LowWatermark (GC c))
  (MaxPerPass (GC c)) (Cfg_MaxStaticRouteHops (Neutron c)).

(** A knob's value in an [any]; [==] of two is false across types and on a NaN. *)
Inductive knob := KInt (z : Z) | KFloat (f : spec_float).
Definition knob_eqb (a b : knob) : bool :=
  match a, b with
  | KInt a, KInt b => bool_decide (a = b)
  | KFloat a, KFloat b => SFeqb a b
  | _, _ => false
  end.
(** The fields in declaration order, under their [knob] tags. *)
Definition knobs (v : Values) : list (string * knob) := [
  ("gc.ghost_grace", KInt (GhostGrace v)); ("gc.ghost_sweep_interval", KInt (GhostSweepInterval v));
  ("reconcile.interval", KInt (ReconcileInterval v)); ("reconcile.kick_debounce", KInt (KickDebounce v));
  ("scrape.interval", KInt (ScrapeInterval v)); ("wal.flush_interval", KInt (WALFlushInterval v));
  ("unresolved.ttl", KInt (UnresolvedTTL v)); ("unresolved.cap", KInt (UnresolvedCap v));
  ("gc.pressure_high_watermark", KFloat (PressureHighWatermark v));
  ("gc.pressure_low_watermark", KFloat (PressureLowWatermark v));
  ("gc.pressure_max_per_pass", KInt (PressureMaxPerPass v));
  ("neutron.max_static_route_hops", KInt (MaxStaticRouteHops v))].
Record Change := mkChange { Knob : string; From : knob; To : knob }.
Definition Diff (oldV newV : Values) : list Change :=
  zip_with (λ o n, mkChange o.1 o.2 n.2) (knobs oldV) (knobs newV) ≫=
  λ c, if knob_eqb (From c) (To c) then [] else [c].
(** [==] of two snapshots. *)
Definition Values_eqb (a b : Values) : bool :=
  forallb (λ p, knob_eqb p.1.2 p.2.2) (zip (knobs a) (knobs b)).

(** ** Overlays (load.go) *)

Definition onHTTP (f : HTTPConfig → HTTPConfig) (c : Config) : Config :=
  mkConfiguration (Version c) (f (HTTP c)) (BPF c) (Scrape c) (Logging c) (WAL c) (Neutron c) (GC c) (Kafka c) (Reconcile c) (Unresolved c).
Definition onBPF (f : BPFConfig → BPFConfig) (c : Config) : Config :=
  mkConfiguration (Version c) (HTTP c) (f (BPF c)) (Scrape c) (Logging c) (WAL c) (Neutron c) (GC c) (Kafka c) (Reconcile c) (Unresolved c).
Definition onScrape (f : ScrapeConfig → ScrapeConfig) (c : Config) : Config :=
  mkConfiguration (Version c) (HTTP c) (BPF c) (f (Scrape c)) (Logging c) (WAL c) (Neutron c) (GC c) (Kafka c) (Reconcile c) (Unresolved c).
Definition onLogging (f : LoggingConfig → LoggingConfig) (c : Config) : Config :=
  mkConfiguration (Version c) (HTTP c) (BPF c) (Scrape c) (f (Logging c)) (WAL c) (Neutron c) (GC c) (Kafka c) (Reconcile c) (Unresolved c).
Definition onWAL (f : WALConfig → WALConfig) (c : Config) : Config :=
  mkConfiguration (Version c) (HTTP c) (BPF c) (Scrape c) (Logging c) (f (WAL c)) (Neutron c) (GC c) (Kafka c) (Reconcile c) (Unresolved c).
Definition onNeutron (f : NeutronConfig → NeutronConfig) (c : Config) : Config :=
  mkConfiguration (Version c) (HTTP c) (BPF c) (Scrape c) (Logging c) (WAL c) (f (Neutron c)) (GC c) (Kafka c) (Reconcile c) (Unresolved c).
Definition onKafka (f : KafkaConfig → KafkaConfig) (c : Config) : Config :=
  mkConfiguration (Version c) (HTTP c) (BPF c) (Scrape c) (Logging c) (WAL c) (Neutron c) (GC c) (f (Kafka c)) (Reconcile c) (Unresolved c).

Definition setListen v : Config → Config := onHTTP (λ _, mkHTTP v).
Definition setPinPath v : Config → Config := onBPF (λ b,
  mkBPF v (AttachPrefixes b) (AttachInterfaces b) (AttachResyncInterval b) (UnsafeAllowUnpinnedMaps b)).
Definition setPrefixes v : Config → Config := onBPF (λ b,
  mkBPF (PinPath b) v (AttachInterfaces b) (AttachResyncInterval b) (UnsafeAllowUnpinnedMaps b)).
Definition setInterfaces v : Config → Config := onBPF (λ b,
  mkBPF (PinPath b) (AttachPrefixes b) v (AttachResyncInterval b) (UnsafeAllowUnpinnedMaps b)).
Definition setUnpinned v : Config → Config := onBPF (λ b,
  mkBPF (PinPath b) (AttachPrefixes b) (AttachInterfaces b) (AttachResyncInterval b) v).
Definition setScrapeInterval v : Config → Config := onScrape (λ _, mkScrape v).
Definition setLevel v : Config → Config := onLogging (λ l, mkLogging v (Format l)).
Definition setFormat v : Config → Config := onLogging (λ l, mkLogging (Level l) v).
Definition setWALPath v : Config → Config := onWAL (λ w, mkWAL v (WAL_FlushInterval w) (WAL_Enabled w)).
Definition setFlushInterval v : Config → Config := onWAL (λ w, mkWAL (WAL_Path w) v (WAL_Enabled w)).
Definition setWALEnabled v : Config → Config := onWAL (λ w, mkWAL (WAL_Path w) (WAL_FlushInterval w) v).
Definition setNeutronEnabled v : Config → Config := onNeutron (λ n,
  mkNeutronCfg v (CredentialsFile n) (AuthURL n) (Username n) (Password n) (ProjectName n) (UserDomain n)
    (ProjectDomain n) (Region n) (Interface n) (RequestTimeout n) (RefreshLead n)
    (UnsafeAllowAmbiguousRoutes n) (Cfg_MaxStaticRouteHops n)).
Definition setCredentialsFile v : Config → Config := onNeutron (λ n,
  mkNeutronCfg (Neutron_Enabled n) v (AuthURL n) (Username n) (Password n) (ProjectName n) (UserDomain n)
    (ProjectDomain n) (Region n) (Interface n) (RequestTimeout n) (RefreshLead n)
    (UnsafeAllowAmbiguousRoutes n) (Cfg_MaxStaticRouteHops n)).
Definition setAllowAmbiguous v : Config → Config := onNeutron (λ n,
  mkNeutronCfg (Neutron_Enabled n) (CredentialsFile n) (AuthURL n) (Username n) (Password n) (ProjectName n)
    (UserDomain n) (ProjectDomain n) (Region n) (Interface n) (RequestTimeout n) (RefreshLead n) v
    (Cfg_MaxStaticRouteHops n)).
Definition setKafkaEnabled v : Config → Config := onKafka (λ k, mkKafka v (Brokers k) (Topic k) (GroupID k)).
Definition setBrokers v : Config → Config := onKafka (λ k, mkKafka (Kafka_Enabled k) v (Topic k) (GroupID k)).

Definition comma : ascii := ","%char.
Definition splitList (s : string) : list string :=
  filter (λ p, p ≠ "") (TrimSpace <$> split_on comma s).
Definition parseBool (s : string) : option bool :=
  let s := ToLower s in
  if decide (s ∈ ["1"; "t"; "true"; "y"; "yes"; "on"]) then Some true
  else if decide (s ∈ ["0"; "f"; "false"; "n"; "no"; "off"]) then Some false
  else None.

(** One variable: left alone when unset or empty; a malformed one is an error. *)
Definition envVar {A} (parse : string → option A) (set : A → Config → Config)
    (getenv : string → string) (prefix name : string) (cfg : option Config) : option Config :=
  c ← cfg;
  let v := getenv (prefix +:+ "_" +:+ name) in
  if decide (v = "") then Some c else x ← parse v; Some (set x c).
Definition applyEnv (prefix : string) (getenv : string → string) (cfg : Config) : option Config :=
  let env {A} parse set name cfg := @envVar A parse set getenv prefix name cfg in
  let step1 := env Some setListen "HTTP_LISTEN" (Some cfg) in
  let step2 := env Some setPinPath "BPF_PIN_PATH" step1 in
  let step3 := env (λ v, Some (splitList v)) setPrefixes "BPF_ATTACH_PREFIXES" step2 in
  let step4 := env (λ v, Some (splitList v)) setInterfaces "BPF_ATTACH_INTERFACES" step3 in
  let step5 := env parseBool setUnpinned "BPF_UNSAFE_ALLOW_UNPINNED_MAPS" step4 in
  let step6 := env ParseDuration setScrapeInterval "SCRAPE_INTERVAL" step5 in
  let step7 := env Some setLevel "LOG_LEVEL" step6 in
  let step8 := env Some setFormat "LOG_FORMAT" step7 in
  let step9 := env Some setWALPath "WAL_PATH" step8 in
  let step10 := env ParseDuration setFlushInterval "WAL_FLUSH_INTERVAL" step9 in
  let step11 := env parseBool setWALEnabled "WAL_ENABLED" step10 in
  let step12 := env parseBool setNeutronEnabled "NEUTRON_ENABLED" step11 in
  let step13 := env Some setCredentialsFile "NEUTRON_CREDENTIALS_FILE" step12 in
  let step14 := env parseBool setAllowAmbiguous "NEUTRON_UNSAFE_ALLOW_AMBIGUOUS_ROUTES" step13 in
  let step15 := env parseBool setKafkaEnabled "KAFKA_ENABLED" step14 in
  env (λ v, Some (splitList v)) setBrokers "KAFKA_BROKERS" step15.

(** The value of the first [-config] flag anywhere among the arguments. *)
Fixpoint findConfigPath (args : list string) (envFallback : string) : string :=
  match args with
  | [] => envFallback
  | a :: rest =>
      if bool_decide (a = "-config" ∨ a = "--config") then
        match rest with v :: _ => v | [] => envFallback end
      else if HasPrefix a "-config=" then TrimPrefix a "-config="
      else if HasPrefix a "--config=" then TrimPrefix a "--config="
      else findConfigPath rest envFallback
  end.

(** What the flags are parsed into: the configuration, and the texts of the path
    and the three lists. *)
Record flagState := mkFS' {
  fs_cfg : Config; fs_path : string; fs_prefixes : string; fs_interfaces : string; fs_brokers : string }.
Definition onCfg (f : Config → Config) (s : flagState) : flagState :=
  mkFS' (f (fs_cfg s)) (fs_path s) (fs_prefixes s) (fs_interfaces s) (fs_brokers s).
Definition textFlag (name : string) (set : string → flagState → flagState) : flagDef flagState :=
  mkFlag name false (λ v s, Some (set v s)).
Definition boolFlag (name : string) (set : bool → Config → Config) : flagDef flagState :=
  mkFlag name true (λ v s, b ← ParseBool v; Some (onCfg (set b) s)).
Definition durationFlag (name : string) (set : Z → Config → Config) : flagDef flagState :=
  mkFlag name false (λ v s, d ← ParseDuration v; Some (onCfg (set d) s)).
Definition agentFlags : list (flagDef flagState) := [
  textFlag "config" (λ v s, mkFS' (fs_cfg s) v (fs_prefixes s) (fs_interfaces s) (fs_brokers s));
  textFlag "http-listen" (λ v, onCfg (setListen v)); textFlag "bpf-pin-path" (λ v, onCfg (setPinPath v));
  textFlag "bpf-attach-prefixes" (λ v s, mkFS' (fs_cfg s) (fs_path s) v (fs_interfaces s) (fs_brokers s));
  textFlag "bpf-attach-interfaces" (λ v s, mkFS' (fs_cfg s) (fs_path s) (fs_prefixes s) v (fs_brokers s));
  boolFlag "unsafe-allow-unpinned-maps" setUnpinned; durationFlag "scrape-interval" setScrapeInterval;
  textFlag "log-level" (λ v, onCfg (setLevel v)); textFlag "log-format" (λ v, onCfg (setFormat v));
  textFlag "wal-path" (λ v, onCfg (setWALPath v)); durationFlag "wal-flush-interval" setFlushInterval;
  boolFlag "wal-enabled" setWALEnabled; boolFlag "neutron-enabled" setNeutronEnabled;
  textFlag "neutron-credentials-file" (λ v, onCfg (setCredentialsFile v));
  boolFlag "unsafe-allow-ambiguous-routes" setAllowAmbiguous; boolFlag "kafka-enabled" setKafkaEnabled;
  textFlag "kafka-brokers" (λ v s, mkFS' (fs_cfg s) (fs_path s) (fs_prefixes s) (fs_interfaces s) v)].
Definition setList (v : string) (set : list string → Config → Config) (c : Config) : Config :=
  if decide (v = "") then c else set (splitList v) c.
Definition applyFlags (args : list string) (configPath : string) (cfg : Config) : option Config :=
  let start := mkFS' cfg configPath (join_with "," (AttachPrefixes (BPF cfg)))
    (join_with "," (AttachInterfaces (BPF cfg))) (join_with "," (Brokers (Kafka cfg))) in
  s ← parseFlags agentFlags args start;
  Some (setList (fs_brokers s) setBrokers (setList (fs_interfaces s) setInterfaces
    (setList (fs_prefixes s) setPrefixes (fs_cfg s)))).

Section load.
Context {Text : Type} (readFile : string → option Text) (decode : Text → Config → option Config).

Definition LoadYAML (path : string) : option Config := b ← readFile path; decode b Defaults.
Definition FindConfigPath (getenv : string → string) (args : list string) : string :=
  findConfigPath args (getenv "LACHESIS_CONFIG").
(** None is an error before validation; the complaint is the validation's. *)
Definition Load (getenv : string → string) (args : list string) : option (Config * complaint) :=
  let configPath := FindConfigPath getenv args in
  cfg ← (if decide (configPath = "") then Some Defaults else LoadYAML configPath);
  cfg ← applyEnv "LACHESIS" getenv cfg;
  cfg ← applyFlags args configPath cfg;
  Some (cfg, Validate cfg).
End load.

(** ** What validation guarantees *)

Lemma firstOf_None l : firstOf l = None ↔ Forall (λ e, e = None) l.
Proof.
  elim: l => [|[e|] l IH] /=; [done| |].
  - split; [done|by inversion 1].
  - rewrite IH Forall_cons. naive_solver.
Qed.
Lemma when_None c msg : when c msg = None ↔ c = false.
Proof. by destruct c. Qed.
Lemma section_None name c : section name c = None ↔ c = None.
Proof. apply fmap_None. Qed.

(** The comparison of the watermark checks, which is silent on a NaN. *)
Definition above (a b : spec_float) : Prop := SFcompare a b = Some Gt.
Definition is_NaN (f : spec_float) : bool := match f with S754_nan => true | _ => false end.
Lemma SFcompare_None a b : SFcompare a b = None → is_NaN a ∨ is_NaN b.
Proof.
  destruct a as [s|s| |s m e]; destruct b as [s'|s'| |s' m' e']; try destruct s; try destruct s';
    simpl; repeat case_match; naive_solver.
Qed.
Lemma SFleb_false a b : SFleb a b = false → is_NaN a ∨ is_NaN b ∨ above a b.
Proof.
  rewrite /SFleb /above. destruct (SFcompare a b) as [[]|] eqn:H; [done|done|tauto|].
  apply SFcompare_None in H. tauto.
Qed.
Lemma SFeqb_eq a b :
  SFeqb a b = true → is_NaN a ∨ above a (f64 0) → is_NaN b ∨ above b (f64 0) → a = b.
Proof.
  rewrite /SFeqb /above.
  destruct a as [[]|[]| |[] m e]; destruct b as [[]|[]| |[] m' e']; simpl; try naive_solver;
    destruct (e ?= e')%Z eqn:He; try done; apply Z.compare_eq in He as ->; try naive_solver.
  destruct (Pos.compare_cont Eq m m') eqn:Hm; try done.
  by apply Pos.compare_eq in Hm as ->.
Qed.

Ltac accepted :=
  repeat match goal with
  | H : section _ _ = None |- _ => apply section_None in H
  | H : firstOf _ = None |- _ => apply firstOf_None in H
  | H : Forall _ (_ :: _) |- _ => apply Forall_cons in H as [? H]
  | H : Forall _ [] |- _ => clear H
  | H : when _ _ = None |- _ => apply when_None in H
  | H : bool_decide _ = false |- _ => apply bool_decide_eq_false in H
  | H : (_ || _) = false |- _ => apply orb_false_iff in H as [? H]
  | H : negb _ = false |- _ => apply negb_false_iff in H
  end.
Lemma Validate_sections c : Validate c = None →
  HTTP_Validate (HTTP c) = None ∧ BPF_Validate (BPF c) = None ∧ Scrape_Validate (Scrape c) = None ∧
  Logging_Validate (Logging c) = None ∧ WAL_Validate (WAL c) = None ∧ Neutron_Validate (Neutron c) = None ∧
  GC_Validate (GC c) = None ∧ Kafka_Validate (Kafka c) = None ∧
  Reconcile_Validate (Reconcile c) = None ∧ Unresolved_Validate (Unresolved c) = None.
Proof. rewrite /Validate => H. by accepted. Qed.
Lemma GC_watermarks g : GC_Validate g = None →
  is_NaN (HighWatermark g) ∨ is_NaN (LowWatermark g) ∨
  (above (f64 1) (HighWatermark g) ∧ above (HighWatermark g) (LowWatermark g) ∧
   above (LowWatermark g) (f64 0) ∧ above (HighWatermark g) (f64 0)).
Proof.
  rewrite /GC_Validate => H. accepted.
  repeat match goal with H : SFleb _ _ = false |- _ => apply SFleb_false in H end.
  assert (¬ is_NaN (f64 0) ∧ ¬ is_NaN (f64 1)) as [??] by by vm_compute. tauto.
Qed.

Lemma GC_positive g : GC_Validate g = None →
  (is_NaN (HighWatermark g) ∨ above (HighWatermark g) (f64 0)) ∧
  (is_NaN (LowWatermark g) ∨ above (LowWatermark g) (f64 0)).
Proof.
  rewrite /GC_Validate => H. accepted.
  repeat match goal with H : SFleb _ _ = false |- _ => apply SFleb_false in H end.
  assert (¬ is_NaN (f64 0)) by by vm_compute. tauto.
Qed.

(** C37: Once the whole configuration validates, every hot knob is within the
    range its consumer needs: the tickers of the scrape, reconcile and sweep
    loops get positive periods, the buffer a positive bound and lifetime, relief a
    positive batch; the two knobs of optional parts are bounded while their part
    is enabled; and the watermarks are ordered 0 < low < high < 1, unless one of
    them is not a number at all. *)
Theorem validated_bounds c : Validate c = None →
  let v := Tunables c in
  (second ≤ ScrapeInterval v ∧ second ≤ ReconcileInterval v ∧ 0 ≤ KickDebounce v ∧
   0 < GhostGrace v ∧ 0 < GhostSweepInterval v ∧ 0 < UnresolvedTTL v ∧
   1 ≤ UnresolvedCap v ∧ 1 ≤ PressureMaxPerPass v) ∧
  (WAL_Enabled (WAL c) → second ≤ WALFlushInterval v) ∧
  (Neutron_Enabled (Neutron c) → 1 ≤ MaxStaticRouteHops v) ∧
  (AttachResyncInterval (BPF c) = 0 ∨ minAttachResyncInterval ≤ AttachResyncInterval (BPF c)) ∧
  (is_NaN (PressureHighWatermark v) ∨ is_NaN (PressureLowWatermark v) ∨
   (above (f64 1) (PressureHighWatermark v) ∧ above (PressureHighWatermark v) (PressureLowWatermark v) ∧
    above (PressureLowWatermark v) (f64 0))).
Proof.
  move=> /Validate_sections [_ [Hb [Hs [_ [Hw [Hn [Hg [_ [Hr Hu]]]]]]]]].
  pose proof (GC_watermarks _ Hg) as Hmarks.
  rewrite /BPF_Validate /Scrape_Validate /GC_Validate /Reconcile_Validate /Unresolved_Validate
    in Hb Hs Hg Hr Hu.
  accepted. split_and!; simpl; try lia; last tauto.
  - move: Hw. rewrite /WAL_Validate. case: (WAL_Enabled (WAL c)) => // Hw _.
    cbv beta zeta iota delta [negb] in Hw. accepted. lia.
  - move: Hn. rewrite /Neutron_Validate. case: (Neutron_Enabled (Neutron c)) => // Hn _.
    cbv beta zeta iota delta [negb] in Hn. accepted. lia.
Qed.

(** What a change set reports: exactly the knobs whose values differ, in order. *)
Lemma Diff_exact oldV newV k a b :
  mkChange k a b ∈ Diff oldV newV ↔
  ∃ i, knobs oldV !! i = Some (k, a) ∧ (∃ k', knobs newV !! i = Some (k', b)) ∧ knob_eqb a b = false.
Proof.
  rewrite /Diff list_elem_of_bind. setoid_rewrite list_elem_of_lookup at 2.
  setoid_rewrite lookup_zip_with_Some. split.
  - move=> [c [Hc [i [[k1 a1] [[k2 b1] [Ec [Ha Hb]]]]]]]. subst c. simpl in Hc.
    destruct (knob_eqb a1 b1) eqn:E; [by apply elem_of_nil in Hc|].
    apply list_elem_of_singleton in Hc. simplify_eq. eauto 10.
  - move=> [i [Ha [[k' Hb] E]]]. exists (mkChange k a b). split.
    + simpl. rewrite E. by apply list_elem_of_singleton.
    + exists i, (k, a), (k', b). done.
Qed.
Lemma Values_eqb_eq c d : Values_eqb (Tunables c) (Tunables d) = true →
  GC_Validate (GC c) = None → GC_Validate (GC d) = None → Tunables c = Tunables d.
Proof.
  move=> E /GC_positive [H1 H2] /GC_positive [H3 H4]. move: E.
  rewrite /Values_eqb /Tunables /= !andb_true_iff !bool_decide_eq_true => E.
  destruct_and!. f_equal; try done; by apply SFeqb_eq.
Qed.

Module ConfigExamples.
Example defaults_validate : Validate Defaults = None.
Proof. vm_compute. reflexivity. Qed.
Lemma validated_bounds_witness : Validate Defaults = None ∧ second ≤ ScrapeInterval (Tunables Defaults).
Proof.
  assert (Validate Defaults = None) as H by (vm_compute; reflexivity).
  split; [exact H|]. exact (proj1 (proj1 (validated_bounds Defaults H))).
Defined.

(** A watermark that is not a number passes validation. *)
Definition with_marks (h l : spec_float) : Config :=
  mkConfiguration "1" (HTTP Defaults) (BPF Defaults) (Scrape Defaults) (Logging Defaults) (WAL Defaults)
    (Neutron Defaults) (mkGC h l 1000 second second) (Kafka Defaults) (Reconcile Defaults) (Unresolved Defaults).
Example nan_validates : Validate (with_marks S754_nan S754_nan) = None.
Proof. vm_compute. reflexivity. Qed.
Example ones_refused : Validate (with_marks (f64 1) f0_75) = Some "gc: pressure_high_watermark must be in (0, 1)".
Proof. vm_compute. reflexivity. Qed.

Definition env1 (n : string) : string :=
  if bool_decide (n = "LACHESIS_SCRAPE_INTERVAL") then "15s"
  else if bool_decide (n = "LACHESIS_WAL_ENABLED") then "No" else "".
Definition text1 : string := "log_format: text".
Definition read1 (p : string) : option string := if bool_decide (p = "/a.yaml") then Some text1 else None.
Definition decode1 (t : string) (c : Config) : option Config := Some (setFormat "text" c).
(** Defaults, then the file, then the environment, then the flags. *)
Example layers :
  (λ r : Config * complaint, (Scrape_Interval (Scrape r.1), Format (Logging r.1), WAL_Enabled (WAL r.1),
     AttachPrefixes (BPF r.1), r.2))
  <$> Load read1 decode1 env1 ["-config=/a.yaml"; "-scrape-interval"; "20s"; "--bpf-attach-prefixes=tap, qr-"] =
  Some (20 * second, "text", false, ["tap"; "qr-"], None).
Proof. vm_compute. reflexivity. Qed.
Example bad_duration : Load read1 decode1 env1 ["-scrape-interval"; "20"] = None.
Proof. vm_compute. reflexivity. Qed.
Example missing_file : Load read1 decode1 env1 ["-config"; "/b.yaml"] = None.
Proof. vm_compute. reflexivity. Qed.
End ConfigExamples.
