(* ===== verification/Runtime.v ===== *)
(** * Runtime control (internal/runtime, internal/logging)

    The [Manager]: the configuration last applied, the logging level in force, the
    store of hot knobs, and the two ways an operator changes them while the agent
    runs: a SIGHUP, which rereads the YAML file, and a PUT of the logging level. *)
From S2P Require Import Prelude.
From S2P Require Import GoStrings.
From S2P Require Import GoArgs.
From S2P Require Import Config.

(** ** Logging levels *)

Inductive LogLevel := LevelDebug | LevelInfo | LevelWarn | LevelError.
Definition ParseLevel (s : string) : option LogLevel :=
  let l := ToLower s in
  if decide (l = "debug") then Some LevelDebug
  else if decide (l = "info") then Some LevelInfo
  else if decide (l = "warn") then Some LevelWarn
  else if decide (l = "error") then Some LevelError
  else None.
(** [logging.Handle.SetLevel] on the level variable. *)
Definition SetLevel (s : string) (levelVar : LogLevel) : option LogLevel :=
  lvl ← ParseLevel s; Some lvl.

(** ** The manager *)

Inductive reloadResult := reloadApplied | reloadInvalid | reloadReadError.
Record Manager := mkManager {
  configPath : string; current : Config; levelVar : LogLevel;
  (* The hot-knob store, when wired. *)
  tun : option Values;
  (* The outcomes recorded, when metrics are wired. *)
  outcomes : option (list reloadResult);
  (* How often the hook ran, when wired. *)
  kicks : option nat }.
Definition NewManager (path : string) (initial : Config) (lvl : LogLevel) : Manager :=
  mkManager path initial lvl None None None.
Definition SetTunables (s : Values) (m : Manager) : Manager :=
  mkManager (configPath m) (current m) (levelVar m) (Some s) (outcomes m) (kicks m).
Definition SetOnReload (m : Manager) : Manager :=
  mkManager (configPath m) (current m) (levelVar m) (tun m) (outcomes m) (Some 0%nat).
Definition SetMetrics (m : Manager) : Manager :=
  mkManager (configPath m) (current m) (levelVar m) (tun m) (Some []) (kicks m).
Definition recordReload (r : reloadResult) (m : Manager) : Manager :=
  mkManager (configPath m) (current m) (levelVar m) (tun m) ((λ l, l ++ [r]) <$> outcomes m) (kicks m).
Definition setCurrent (c : Config) (m : Manager) : Manager :=
  mkManager (configPath m) c (levelVar m) (tun m) (outcomes m) (kicks m).
Definition setLevelVar (l : LogLevel) (m : Manager) : Manager :=
  mkManager (configPath m) (current m) l (tun m) (outcomes m) (kicks m).
Definition runHook (m : Manager) : Manager :=
  mkManager (configPath m) (current m) (levelVar m) (tun m) (outcomes m) (S <$> kicks m).

(** The store's [Replace], and the changes logged. *)
Definition applyTunables (next : Config) (m : Manager) : Manager * list Change :=
  match tun m with
  | None => (m, [])
  | Some _ =>
      let oldV := Tunables (current m) in
      let newV := Tunables next in
      if Values_eqb oldV newV then (m, [])
      else (mkManager (configPath m) (current m) (levelVar m) (Some newV) (outcomes m) (kicks m),
            Diff oldV newV)
  end.
(** The load-time fields a reload compares, as warnings of the fields that differ. *)
Definition warnLoadTimeChange {A} `{EqDecision A} (field : string) (running fromYAML : A) : list string :=
  if decide (running = fromYAML) then [] else [field].
Definition loadTimeWarnings (cur next : Config) : list string :=
  warnLoadTimeChange "http.listen" (Listen (HTTP cur)) (Listen (HTTP next)) ++
  warnLoadTimeChange "bpf.pin_path" (PinPath (BPF cur)) (PinPath (BPF next)) ++
  warnLoadTimeChange "bpf.unsafe_allow_unpinned_maps"
    (UnsafeAllowUnpinnedMaps (BPF cur)) (UnsafeAllowUnpinnedMaps (BPF next)) ++
  warnLoadTimeChange "bpf.attach_resync_interval"
    (AttachResyncInterval (BPF cur)) (AttachResyncInterval (BPF next)) ++
  warnLoadTimeChange "wal.path" (WAL_Path (WAL cur)) (WAL_Path (WAL next)) ++
  warnLoadTimeChange "logging.format" (Format (Logging cur)) (Format (Logging next)).

Inductive reloadError := ReloadDisabled | ReadError | Invalid (e : string) | LevelError' (s : string).
Record reloaded := mkReloaded {
  manager : Manager; failure : option reloadError; changed : list Change; warned : list string }.
Definition refuse (m : Manager) (e : reloadError) : reloaded := mkReloaded m (Some e) [] [].

Section reload.
Context {Text : Type} (readFile : string → option Text) (decode : Text → Config → option Config).

Definition Reload (m : Manager) : reloaded :=
  if decide (configPath m = "") then refuse m ReloadDisabled
  else match LoadYAML readFile decode (configPath m) with
  | None => refuse (recordReload reloadReadError m) ReadError
  | Some next =>
      match Validate next with
      | Some e => refuse (recordReload reloadInvalid m) (Invalid e)
      | None =>
          let leveled :=
            if decide (Level (Logging next) = Level (Logging (current m))) then Some m
            else lvl ← SetLevel (Level (Logging next)) (levelVar m); Some (setLevelVar lvl m) in
          match leveled with
          | None => refuse (recordReload reloadInvalid m) (LevelError' (Level (Logging next)))
          | Some m1 =>
              let '(m2, changes) := applyTunables next m1 in
              let m3 := recordReload reloadApplied (setCurrent next m2) in
              mkReloaded (runHook m3) None changes (loadTimeWarnings (current m) next)
          end
      end
  end.
End reload.

(** ** The debug endpoints *)

(** [NeutronConfig.MarshalJSON]: the password is replaced before encoding. *)
Definition redactedSecret : string := "***".
Definition MarshalNeutron (n : NeutronConfig) : NeutronConfig :=
  mkNeutronCfg (Neutron_Enabled n) (CredentialsFile n) (AuthURL n) (Username n)
    (if decide (Password n = "") then "" else redactedSecret) (ProjectName n) (UserDomain n)
    (ProjectDomain n) (Region n) (Interface n) (RequestTimeout n) (RefreshLead n)
    (UnsafeAllowAmbiguousRoutes n) (Cfg_MaxStaticRouteHops n).
(** What [GET /debug/config] encodes. *)
Definition handleGetConfig (m : Manager) : Config := onNeutron MarshalNeutron (current m).

(** What the JSON decoder makes of a request's body. *)
Inductive body := TooLarge | NotJson | Body (level : string).
Definition StatusNoContent : Z := 204.
Definition StatusBadRequest : Z := 400.
Definition StatusRequestEntityTooLarge : Z := 413.
Definition handlePutLogLevel (b : body) (m : Manager) : Manager * Z :=
  match b with
  | TooLarge => (m, StatusRequestEntityTooLarge)
  | NotJson => (m, StatusBadRequest)
  | Body level =>
      match SetLevel level (levelVar m) with
      | None => (m, StatusBadRequest)
      | Some lvl => (setCurrent (setLevel level (current m)) (setLevelVar lvl m), StatusNoContent)
      end
  end.

(** ** The manager stays in step with what it governs *)

(** The knobs in the store and the level in force are those of the current
    configuration, which validates but for the spelling of its level: a PUT accepts
    a level in any case, a configuration file only in lower case. *)
Record in_step (m : Manager) : Prop := {
  step_valid : Validate (setLevel "info" (current m)) = None;
  step_level : ParseLevel (Level (Logging (current m))) = Some (levelVar m);
  step_tun : ∀ v, tun m = Some v → v = Tunables (current m) }.

Lemma Validate_setLevel c : Validate c = None → Validate (setLevel "info" c) = None.
Proof.
  rewrite /Validate => H. apply firstOf_None. apply firstOf_None in H.
  repeat (apply Forall_cons in H as [? H]). repeat (apply Forall_cons_2; [done|]).
  apply Forall_cons_2; [|repeat (apply Forall_cons_2; [done|]); by apply Forall_nil].
  match goal with H : section "logging" _ = None |- _ => move: H end.
  rewrite /Logging_Validate !section_None !firstOf_None => HL. inversion_clear HL.
  by apply Forall_cons_2.
Qed.
Lemma valid_gc c : Validate (setLevel "info" c) = None → GC_Validate (GC c) = None.
Proof. by move=> /Validate_sections [_ [_ [_ [_ [_ [_ [H _]]]]]]]. Qed.
Lemma valid_level c : Validate c = None → is_Some (ParseLevel (Level (Logging c))).
Proof.
  move=> /Validate_sections [_ [_ [_ [HL _]]]]. rewrite /Logging_Validate in HL. accepted.
  match goal with H : ¬ (Level _ ∉ _) |- _ => apply dec_stable in H; revert H end.
  rewrite !elem_of_cons elem_of_nil. intros E; destruct_or!; try done;
    match goal with H : Level _ = _ |- _ => rewrite H end; vm_compute; eauto.
Qed.

Section proofs.
Context {Text : Type} (readFile : string → option Text) (decode : Text → Config → option Config).

(** What a reload that goes through leaves behind. *)
Definition applied (m : Manager) (next : Config) (lvl : LogLevel) : Manager :=
  mkManager (configPath m) next lvl ((λ _, Tunables next) <$> tun m)
    ((λ l, l ++ [reloadApplied]) <$> outcomes m) (S <$> kicks m).
Lemma applyTunables_step m lvl next : in_step m → GC_Validate (GC next) = None →
  (applyTunables next (setLevelVar lvl m)).1 =
  mkManager (configPath m) (current m) lvl ((λ _, Tunables next) <$> tun m) (outcomes m) (kicks m).
Proof.
  move=> [Hv _ Ht] Hn. rewrite /applyTunables /=. destruct m as [p c l t o k]; simpl in *.
  destruct t as [v|]; [|done]. case_match eqn:E; [|done].
  apply Values_eqb_eq in E; [|by apply valid_gc|done]. by rewrite /setLevelVar /= (Ht v eq_refl) E.
Qed.
Lemma Reload_applied m next : in_step m → configPath m ≠ "" →
  LoadYAML readFile decode (configPath m) = Some next → Validate next = None →
  ∃ lvl, ParseLevel (Level (Logging next)) = Some lvl ∧
    let r := Reload readFile decode m in
    manager r = applied m next lvl ∧ failure r = None ∧
    warned r = loadTimeWarnings (current m) next.
Proof.
  move=> Hm Hp Hl Hv. destruct (valid_level _ Hv) as [lvl Hlvl]. exists lvl. split; [done|].
  pose proof (applyTunables_step m lvl next Hm) as Ht.
  assert (GC_Validate (GC next) = None) as Hg by by apply valid_gc, Validate_setLevel.
  specialize (Ht Hg).
  rewrite /Reload decide_False // Hl Hv /SetLevel Hlvl /=.
  assert ((if decide (Level (Logging next) = Level (Logging (current m))) then Some m
           else Some (setLevelVar lvl m)) = Some (setLevelVar lvl m)) as ->.
  { case_decide as E; [|done]. rewrite E (step_level _ Hm) in Hlvl. destruct m; by simplify_eq/=. }
  destruct (applyTunables next (setLevelVar lvl m)) as [m2 ch]. simpl in Ht. by rewrite Ht.
Qed.
Lemma Reload_refused m : let r := Reload readFile decode m in
  (∀ next, LoadYAML readFile decode (configPath m) = Some next → Validate next ≠ None) ∨ configPath m = "" →
  failure r ≠ None ∧ changed r = [] ∧ warned r = [] ∧
  manager r = mkManager (configPath m) (current m) (levelVar m) (tun m) (outcomes (manager r)) (kicks m).
Proof.
  move=> r H. rewrite /r /Reload. case_decide; [by destruct m|].
  destruct H as [H|]; [|done]. case_match; [|by destruct m].
  case_match; [by destruct m|]. by destruct (H _ eq_refl).
Qed.


End proofs.

(** ** Any sequence of operator actions *)

Section actions.
Context {Text : Type} (decode : Text → Config → option Config).

(** A SIGHUP with what the file holds by then, or a request's body. *)
Inductive action := SIGHUP (file : option Text) | PUT (b : body).
Definition act (m : Manager) (a : action) : Manager :=
  match a with
  | SIGHUP file => manager (Reload (λ _, file) decode m)
  | PUT b => (handlePutLogLevel b m).1
  end.

Lemma setLevel_twice l l' c : setLevel l (setLevel l' c) = setLevel l c.
Proof. done. Qed.
(** Either nothing but the outcomes changes, or the file is applied. *)
Lemma Reload_cases readFile m : in_step m → let r := manager (Reload readFile decode m) in
  (∃ o, r = mkManager (configPath m) (current m) (levelVar m) (tun m) o (kicks m)) ∨
  ∃ next lvl, Validate next = None ∧ ParseLevel (Level (Logging next)) = Some lvl ∧ r = applied m next lvl.
Proof.
  move=> Hm r. destruct (decide (configPath m = "")) as [Hp|Hp].
  { left. eexists. by apply (Reload_refused readFile decode m); right. }
  destruct (LoadYAML readFile decode (configPath m)) as [next|] eqn:Hl.
  - destruct (Validate next) as [e|] eqn:Hv.
    + left. eexists. apply (Reload_refused readFile decode m). left. naive_solver.
    + right. destruct (Reload_applied readFile decode m next Hm Hp Hl Hv) as [lvl [Hlvl [Hr _]]].
      by exists next, lvl.
  - left. eexists. apply (Reload_refused readFile decode m). left. naive_solver.
Qed.
Lemma act_in_step m a : in_step m → in_step (act m a) ∧ (is_Some (tun m) → is_Some (tun (act m a))).
Proof.
  move=> Hm. destruct a as [file|b]; simpl.
  - destruct (Reload_cases (λ _, file) m Hm) as [[o ->]|[next [lvl [Hv [Hl ->]]]]].
    + by destruct Hm; split; [split|].
    + split; [split; [by apply Validate_setLevel|done|]|].
      * simpl. destruct (tun m); naive_solver.
      * move=> [v Hv']. by rewrite /applied /= Hv'.
  - destruct b as [| |l]; [done|done|]. rewrite /handlePutLogLevel /SetLevel.
    destruct (ParseLevel l) as [lvl|] eqn:E; [|done]. destruct Hm as [Hv Hl Ht].
    by split; [split; rewrite /= ?setLevel_twice|].
Qed.
Lemma acts_in_step l m : in_step m → is_Some (tun m) →
  in_step (foldl act m l) ∧ is_Some (tun (foldl act m l)).
Proof. elim: l m => [//|a l IH] m Hm Ht /=. apply IH; [by apply act_in_step|by apply act_in_step]. Qed.

(** From boot on, whatever sequence of reloads (over whatever the file holds
    each time) and level requests the operator makes, accepted or refused: the
    store's knobs are those of the current configuration, the level in force is the
    one it names, and the configuration, its level's spelling aside, is valid. *)
Theorem runtime_in_step path cfg lvl l : Validate cfg = None → ParseLevel (Level (Logging cfg)) = Some lvl →
  let m := foldl act (SetTunables (Tunables cfg) (NewManager path cfg lvl)) l in
  (∃ v, tun m = Some v ∧ v = Tunables (current m)) ∧
  ParseLevel (Level (Logging (current m))) = Some (levelVar m) ∧
  Validate (setLevel "info" (current m)) = None.
Proof.
  move=> Hv Hl m.
  destruct (acts_in_step l (SetTunables (Tunables cfg) (NewManager path cfg lvl))) as [[Hs Hlv Ht] [v Hm]].
  - split; [by apply Validate_setLevel|done|naive_solver].
  - done.
  - split; [by eauto|done].
Qed.
End actions.

(** What the debug endpoint shows of a configuration is independent of a set
    password. *)
Definition withPassword (p : string) : Config → Config := onNeutron (λ n,
  mkNeutronCfg (Neutron_Enabled n) (CredentialsFile n) (AuthURL n) (Username n) p (ProjectName n)
    (UserDomain n) (ProjectDomain n) (Region n) (Interface n) (RequestTimeout n) (RefreshLead n)
    (UnsafeAllowAmbiguousRoutes n) (Cfg_MaxStaticRouteHops n)).
(** No password reaches the wire: two agents that differ only in their
    (non-empty) password answer the request for the configuration alike. *)
Theorem config_hides_password m p q : p ≠ "" → q ≠ "" →
  handleGetConfig (setCurrent (withPassword p (current m)) m) =
  handleGetConfig (setCurrent (withPassword q (current m)) m).
Proof.
  move=> Hp Hq. rewrite /handleGetConfig /withPassword /onNeutron /MarshalNeutron /=.
  by rewrite !decide_False.
Qed.

Module RuntimeExamples.
(** Texts of a file, and what they decode to. *)
Inductive text := Same | Debug | NoWAL | Bad | Faster.
Definition read (t : text) (c : Config) : option Config :=
  match t with
  | Same => Some c
  | Debug => Some (setLevel "debug" (setListen ":9999" c))
  | NoWAL => Some (setWALEnabled false (setFlushInterval 0 c))
  | Bad => Some (setScrapeInterval 5 c)
  | Faster => Some (setScrapeInterval (2 * second) c)
  end.
Definition boot : Manager :=
  SetOnReload (SetMetrics (SetTunables (Tunables Defaults) (NewManager "/etc/lachesis/agent.yaml" Defaults LevelInfo))).
Definition summary (m : Manager) : string * Z * LogLevel * option (list reloadResult) * option nat :=
  (Listen (HTTP (current m)), ScrapeInterval (Tunables (current m)), levelVar m, outcomes m, kicks m).
Example faster : let r := Reload (λ _, Some Faster) read boot in
  summary (manager r) = (":9090", 2 * second, LevelInfo, Some [reloadApplied], Some 1%nat) ∧
  changed r = [mkChange "scrape.interval" (KInt (10 * second)) (KInt (2 * second))] ∧ warned r = [].
Proof. vm_compute. done. Qed.
Example refused : let r := Reload (λ _, Some Bad) read boot in
  summary (manager r) = (":9090", 10 * second, LevelInfo, Some [reloadInvalid], Some 0%nat) ∧
  failure r = Some (Invalid "scrape: interval is too small").
Proof. vm_compute. done. Qed.
(** The ignored listen address is warned about, and yet shown as current. *)
Example ignored_but_shown : let r := Reload (λ _, Some Debug) read boot in
  warned r = ["http.listen"] ∧ Listen (HTTP (handleGetConfig (manager r))) = ":9999".
Proof. vm_compute. done. Qed.
Lemma runtime_in_step_witness :
  Validate Defaults = None ∧ ParseLevel (Level (Logging Defaults)) = Some LevelInfo ∧
  ∃ m, m = foldl (act read) (SetTunables (Tunables Defaults) (NewManager "/etc/lachesis/agent.yaml" Defaults LevelInfo))
             [SIGHUP (Some Debug); PUT (Body "WARN"); SIGHUP None; PUT (Body "loud")] ∧
    ParseLevel (Level (Logging (current m))) = Some (levelVar m).
Proof.
  assert (Validate Defaults = None) as H1 by (vm_compute; reflexivity).
  assert (ParseLevel (Level (Logging Defaults)) = Some LevelInfo) as H2 by reflexivity.
  split; [exact H1|]. split; [exact H2|]. eexists. split; [reflexivity|].
  exact (proj1 (proj2 (runtime_in_step read "/etc/lachesis/agent.yaml" Defaults LevelInfo
    [SIGHUP (Some Debug); PUT (Body "WARN"); SIGHUP None; PUT (Body "loud")] H1 H2))).
Defined.
Lemma config_hides_password_witness : "a" ≠ "" ∧ "b" ≠ "" ∧
  handleGetConfig (setCurrent (withPassword "a" Defaults) boot) =
  handleGetConfig (setCurrent (withPassword "b" Defaults) boot).
Proof. split; [discriminate|]. split; [discriminate|]. apply (config_hides_password boot); discriminate. Defined.

(** An agent flushing its log accepts a reload that turns the log off and gives no
    flush interval: the file alone validates, and the running flush loop reads a
    period of zero from the store. *)
Example unchecked_flush_interval : let r := Reload (λ _, Some NoWAL) read boot in
  WAL_Enabled (WAL (current boot)) = true ∧ failure r = None ∧
  (WALFlushInterval <$> tun (manager r)) = Some 0.
Proof. vm_compute. done. Qed.
(** An override given at boot by the environment or a flag does not survive a reload
    of an unchanged file. *)
Definition overridden : Manager :=
  let cfg := setScrapeInterval (30 * second) Defaults in
  SetTunables (Tunables cfg) (NewManager "/etc/lachesis/agent.yaml" cfg LevelInfo).
Example override_dropped : (λ r, ScrapeInterval <$> tun (manager r)) (Reload (λ _, Some Same) read overridden) =
  Some (10 * second).
Proof. vm_compute. done. Qed.
End RuntimeExamples.
