(* ===== verification/Boot.v ===== *)
(** * Boot sequencing, workers and retry (internal/boot, internal/agent/worker.go,
    internal/agent/retry.go, [bootstrapper.run])

    The phase sequencer as a state machine with its barrier, the retry loop of the
    first sync, the list of boot steps, and the ordered drain of the workers. *)
From S2P Require Import Prelude.
From S2P Require Import GoArgs.

(** ** The sequencer (boot.go) *)

Definition PhaseInit : Z := 0.
Definition PhaseBPFLoaded : Z := 1.
Definition PhaseMetadataReady : Z := 2.
Definition PhaseAttached : Z := 3.
Definition PhaseStateRestored : Z := 4.
Definition phaseCount : Z := PhaseStateRestored + 1.

Section sequencer.
Context {Err : Type}.

(** [reached !! p]: whether phase p's channel is closed; [failErr] is set exactly
    when the failure channel is closed, with the phase it was reported at. *)
Record Sequencer := mkSeq { current : Z; reached : list bool; failErr : option (Z * Err) }.
Definition NewSequencer : Sequencer :=
  mkSeq PhaseInit (<[Z.to_nat PhaseInit := true]> (replicate (Z.to_nat phaseCount) false)) None.

Inductive advanced := Advanced | NotNext | Panics.
(** The current phase is set before the channel is closed: indexing past the last
    channel, and closing one twice, panic. *)
Definition Advance (next : Z) (s : Sequencer) : Sequencer * advanced :=
  if decide (next ≠ current s + 1) then (s, NotNext)
  else
    let s1 := mkSeq next (reached s) (failErr s) in
    match reached s !! Z.to_nat next with
    | Some false => (mkSeq next (<[Z.to_nat next := true]> (reached s)) (failErr s), Advanced)
    | Some true | None => (s1, Panics)
    end.
Definition Fail (p : Z) (err : Err) (s : Sequencer) : Sequencer :=
  match failErr s with
  | Some _ => s
  | None => mkSeq (current s) (reached s) (Some (p, err))
  end.

Inductive awaited := Reached | InvalidPhase | Aborted (p : Z) (err : Err) | Cancelled.
(** Where a call of [Await] stands: before its guard and first select, between the
    two selects, blocked in the second, or back at its caller. *)
Inductive control := Called | Between | Parked | Returned (r : awaited).
Definition reachedCh (p : Z) (s : Sequencer) : bool := bool_decide (reached s !! Z.to_nat p = Some true).
(** The guard, then the first select: a reached phase answers, the default case goes on. *)
Definition firstSelect (p : Z) (s : Sequencer) : control :=
  if decide (p < 0 ∨ phaseCount ≤ p) then Returned InvalidPhase
  else if reachedCh p s then Returned Reached
  else Between.
(** The cases of the second select that are ready, with what each returns. *)
Definition readyCases (p : Z) (s : Sequencer) (done : bool) : list awaited :=
  (if reachedCh p s then [Reached] else []) ++
  match failErr s with Some (q, e) => [Aborted q e] | None => [] end ++
  (if done then [Cancelled] else []).
(** The call's own steps.  The second select takes any one of its ready cases, at
    random, and blocks when none is. *)
Inductive Await (p : Z) (s : Sequencer) (done : bool) : control → control → Prop :=
  | await_first : Await p s done Called (firstSelect p s)
  | await_take r : r ∈ readyCases p s done → Await p s done Between (Returned r)
  | await_park : readyCases p s done = [] → Await p s done Between Parked.
(** Closing a channel takes a blocked select out of its wait, by the case of that
    channel; a call that is not blocked sees nothing of it yet. *)
Inductive wakes (p : Z) (s : Sequencer) (done : bool) : control → control → Prop :=
  | wakes_case r : r ∈ readyCases p s done → wakes p s done Parked (Returned r)
  | wakes_none : readyCases p s done = [] → wakes p s done Parked Parked
  | wakes_running c : c ≠ Parked → wakes p s done c c.

(** What the goroutines do to a sequencer. *)
Inductive seq_step : Sequencer → Sequencer → Prop :=
  | step_advance next s s' : Advance next s = (s', Advanced) → seq_step s s'
  | step_refused next s : (Advance next s).2 = NotNext → seq_step s s
  | step_fail p e s : seq_step s (Fail p e s).
Definition reachable : Sequencer → Prop := rtc seq_step NewSequencer.
(** A call of [Await p] among the other goroutines: the sequencer, whether the
    call's context is cancelled, and where the call stands. *)
Record call := mkCall { c_seq : Sequencer; c_done : bool; c_at : control }.
Inductive call_step (p : Z) : call → call → Prop :=
  | step_own s d c c' : Await p s d c c' → call_step p (mkCall s d c) (mkCall s d c')
  | step_other s s' d c c' : seq_step s s' → wakes p s' d c c' →
      call_step p (mkCall s d c) (mkCall s' d c')
  | step_cancel s d c c' : wakes p s true c c' → call_step p (mkCall s d c) (mkCall s true c').
(** The call alone: nothing else moves. *)
Definition own_step (p : Z) (w w' : call) : Prop :=
  c_seq w' = c_seq w ∧ c_done w' = c_done w ∧ Await p (c_seq w) (c_done w) (c_at w) (c_at w').

(** A phase's channel is closed exactly when the phase is not after the current. *)
Definition seq_ok (s : Sequencer) : Prop :=
  0 ≤ current s < phaseCount ∧ length (reached s) = Z.to_nat phaseCount ∧
  ∀ p, 0 ≤ p < phaseCount → reached s !! Z.to_nat p = Some (bool_decide (p ≤ current s)).

Lemma Advance_next s : seq_ok s →
  let '(s', r) := Advance (current s + 1) s in
  if decide (current s + 1 < phaseCount)
  then r = Advanced ∧ current s' = current s + 1 ∧ failErr s' = failErr s ∧ seq_ok s'
  else r = Panics.
Proof.
  intros (Hc & Hl & Hr). rewrite /Advance decide_False; [by intros []|].
  case_decide as Hn.
  - rewrite (Hr (current s + 1)); [lia|]. rewrite bool_decide_false; [lia|].
    split_and!; try done. split_and!; simpl; [lia|lia|by rewrite length_insert|].
    intros p Hp. destruct (decide (p = current s + 1)) as [->|Hne].
    + rewrite list_lookup_insert_eq; [lia|]. by rewrite bool_decide_true.
    + rewrite list_lookup_insert_ne; [lia|]. rewrite Hr //. f_equal. apply bool_decide_ext. lia.
  - rewrite lookup_ge_None_2; [lia|done].
Qed.
Lemma Advance_fields next s : seq_ok s → (Advance next s).2 = Advanced →
  next = current s + 1 ∧ current s + 1 < phaseCount.
Proof.
  intros Hok. destruct (decide (next = current s + 1)) as [->|Hne].
  - pose proof (Advance_next s Hok) as H. destruct (Advance _ s) as [s' r]. case_decide; naive_solver.
  - by rewrite /Advance decide_True.
Qed.
Lemma seq_step_ok s s' : seq_ok s → seq_step s s' →
  seq_ok s' ∧ current s ≤ current s' ∧ (∀ q, failErr s = Some q → failErr s' = Some q).
Proof.
  intros Hok Hstep. revert Hok. destruct Hstep as [next s0 s1 E|next s0 E|p e s0]; intros Hok.
  - destruct (Advance_fields next s0 Hok) as [-> Hlt]; [by rewrite E|].
    pose proof (Advance_next s0 Hok) as H. rewrite E decide_True // in H.
    destruct H as (_ & -> & -> & ?). split_and!; [done|lia|done].
  - done.
  - rewrite /Fail. destruct (failErr s0) eqn:E; split_and!; try done; naive_solver.
Qed.
Lemma steps_ok s s' : seq_ok s → rtc seq_step s s' →
  seq_ok s' ∧ current s ≤ current s' ∧ (∀ q, failErr s = Some q → failErr s' = Some q).
Proof.
  intros Hok Hs. induction Hs as [s|s s1 s2 H1 _ IH]; [done|].
  destruct (seq_step_ok s s1 Hok H1) as (Hok1 & Hle & Hf). destruct (IH Hok1) as (? & ? & ?).
  split_and!; [done|lia|naive_solver].
Qed.
Lemma NewSequencer_ok : seq_ok NewSequencer.
Proof.
  split_and!; [done..|]. intros p Hp. rewrite /phaseCount /PhaseStateRestored in Hp.
  assert (p = 0 ∨ p = 1 ∨ p = 2 ∨ p = 3 ∨ p = 4) as Hp' by lia. by destruct_or!; subst.
Qed.

(** What an answer says of the boot when it is given. *)
Definition stands (p : Z) (w : call) (r : awaited) : Prop :=
  match r with
  | Reached => p ≤ current (c_seq w)
  | InvalidPhase => False
  | Aborted q e => failErr (c_seq w) = Some (q, e)
  | Cancelled => c_done w = true
  end.
Lemma reachedCh_iff p s : seq_ok s → 0 ≤ p < phaseCount → reachedCh p s = bool_decide (p ≤ current s).
Proof.
  intros (_ & _ & Hr) Hp. rewrite /reachedCh Hr //. apply bool_decide_ext.
  split; [intros [= H]; by apply bool_decide_eq_true in H|intros; by rewrite bool_decide_true].
Qed.
(** The ready cases are the answers that stand. *)
Lemma readyCases_spec p s d c r : seq_ok s → 0 ≤ p < phaseCount →
  r ∈ readyCases p s d ↔ stands p (mkCall s d c) r.
Proof.
  intros Hok Hp. rewrite /readyCases reachedCh_iff // !elem_of_app.
  destruct (bool_decide_reflect (p ≤ current s)), (failErr s) as [[q e]|] eqn:E, d, r; rewrite /stands /=;
    rewrite ?list_elem_of_singleton ?elem_of_nil ?E; naive_solver.
Qed.
Lemma readyCases_nil p s d : seq_ok s → 0 ≤ p < phaseCount →
  readyCases p s d = [] ↔ current s < p ∧ failErr s = None ∧ d = false.
Proof.
  intros Hok Hp. rewrite /readyCases reachedCh_iff //.
  destruct (bool_decide_reflect (p ≤ current s)), (failErr s) as [[q e]|], d; simpl; naive_solver lia.
Qed.

(** What a run of the call keeps: an answer given stands, and a blocked call has no
    case ready. *)
Definition call_ok (p : Z) (w : call) : Prop :=
  seq_ok (c_seq w) ∧
  match c_at w with
  | Called | Between => True
  | Parked => readyCases p (c_seq w) (c_done w) = []
  | Returned r => stands p w r
  end.
Definition later (w w' : call) : Prop :=
  current (c_seq w) ≤ current (c_seq w') ∧ (∀ q, failErr (c_seq w) = Some q → failErr (c_seq w') = Some q) ∧
  (c_done w = true → c_done w' = true).
Lemma stands_later p w w' r : later w w' → stands p w r → stands p w' r.
Proof. intros (? & ? & ?). destruct r; simpl; naive_solver lia. Qed.
Lemma wakes_ok p s d s' d' c c' : later (mkCall s d c) (mkCall s' d' c') → 0 ≤ p < phaseCount → seq_ok s' →
  call_ok p (mkCall s d c) → wakes p s' d' c c' → call_ok p (mkCall s' d' c').
Proof.
  intros Hl Hp Hok' [_ Hc] Hw. split; [done|]. inversion Hw as [r Hr|Hr|c0 Hne]; subst; simpl in *.
  - by eapply readyCases_spec.
  - done.
  - destruct c'; [done|done|done|]. by eapply stands_later.
Qed.
Lemma call_step_ok p w w' : 0 ≤ p < phaseCount → call_ok p w → call_step p w w' → call_ok p w' ∧ later w w'.
Proof.
  intros Hp Hw Hst. destruct Hst as [s d c c' Ha|s s' d c c' Hs Hwk|s d c c' Hwk].
  - split; [|split; [simpl; lia|done]]. destruct Hw as [Hok _]. split; [done|]. simpl in *.
    inversion Ha as [|r Hr|Hr]; subst; [|by eapply readyCases_spec|done].
    rewrite /firstSelect reachedCh_iff // decide_False; [lia|]. case_bool_decide; done.
  - destruct (seq_step_ok s s' (proj1 Hw) Hs) as (Hok' & Hle & Hf).
    assert (later (mkCall s d c) (mkCall s' d c')) as Hl by (split_and!; done).
    split; [|done]. by eapply wakes_ok.
  - assert (later (mkCall s d c) (mkCall s true c')) as Hl by (split_and!; simpl; [lia|done|done]).
    split; [|done]. eapply wakes_ok; [done|done|apply Hw|done|done].
Qed.
Lemma call_steps_ok p w w' : 0 ≤ p < phaseCount → call_ok p w → rtc (call_step p) w w' →
  call_ok p w' ∧ later w w'.
Proof.
  intros Hp Hw Hr. induction Hr as [w|w w1 w2 H1 _ IH].
  { split; [done|]. split; [lia|done]. }
  destruct (call_step_ok p w w1 Hp Hw H1) as [Hw1 (? & ? & ?)]. destruct (IH Hw1) as [? (? & ? & ?)].
  split; [done|]. split_and!; [lia|naive_solver..].
Qed.

(** A call whose first select answers never leaves it. *)
Lemma answered_at_once p s w w' a : seq_ok s → rtc (call_step p) w w' → seq_ok (c_seq w) →
  (∀ s', seq_ok s' → current s ≤ current s' → firstSelect p s' = Returned a) → current s ≤ current (c_seq w) →
  c_at w = Called ∨ c_at w = Returned a → c_at w' = Called ∨ c_at w' = Returned a.
Proof.
  intros Hs Hr. induction Hr as [w|w w1 w2 H1 _ IH]; [done|]. intros Hok Hf Hle Hw.
  destruct H1 as [s0 d c c' Ha|s0 s' d c c' Hst Hwk|s0 d c c' Hwk]; simpl in *.
  - apply IH; [done..|]. destruct Hw as [-> | ->]; inversion Ha; subst. right. by apply Hf.
  - destruct (seq_step_ok s0 s' Hok Hst) as (? & ? & _). apply IH; [done|done|lia|].
    destruct Hw as [-> | ->]; inversion Hwk; subst; [by left|by right].
  - apply IH; [done..|]. destruct Hw as [-> | ->]; inversion Hwk; subst; [by left|by right].
Qed.
(** The closing that wakes a blocked call leaves it one answer. *)
Lemma woken_once p w w' : 0 ≤ p < phaseCount → call_ok p w → c_at w = Parked → call_step p w w' →
  (c_at w' = Parked ∧ ∀ r, ¬ stands p w' r) ∨
  ∃ r, c_at w' = Returned r ∧ stands p w' r ∧ ∀ r', stands p w' r' → r' = r.
Proof.
  intros Hp [Hok Hw] Hat Hst. rewrite Hat in Hw. apply readyCases_nil in Hw as (Hlt & Hnf & Hnd); [|done..].
  assert (∀ s d c c', wakes p s d Parked c' → seq_ok s → (∀ r r', stands p (mkCall s d c) r →
    stands p (mkCall s d c) r' → r' = r) → (c' = Parked ∧ ∀ r, ¬ stands p (mkCall s d c) r) ∨
    ∃ r, c' = Returned r ∧ stands p (mkCall s d c) r ∧ ∀ r', stands p (mkCall s d c) r' → r' = r) as Hgo.
  { intros s d c c' Hwk Hs Hu. inversion Hwk as [r Hr|Hr|? Hne]; subst; [right|left|done].
    - exists r. apply (readyCases_spec p s d c) in Hr; [|done..]. naive_solver.
    - split; [done|]. intros r Hr'. apply (readyCases_spec p s d c) in Hr'; [|done..].
      rewrite Hr in Hr'. by apply elem_of_nil in Hr'. }
  destruct Hst as [s d c c' Ha|s s' d c c' Hs Hwk|s d c c' Hwk]; simpl in *; subst.
  - inversion Ha.
  - destruct (seq_step_ok s s' Hok Hs) as (Hok' & _ & _). eapply Hgo; [done|done|].
    destruct Hs as [next s0 s1 E|next s0 E|p0 e s0].
    + destruct (Advance_fields next s0 Hok) as [-> Hn]; [by rewrite E|].
      pose proof (Advance_next s0 Hok) as H. rewrite E decide_True // in H. destruct H as (_ & _ & Hf & _).
      intros [] []; simpl; try done; congruence.
    + intros [] []; simpl; try done; try lia; congruence.
    + rewrite /Fail Hnf. intros [] []; simpl; try done; try lia; congruence.
  - eapply Hgo; [done|done|]. intros [] []; simpl; try done; try lia; congruence.
Qed.
(** A case being ready, the call returns by its own steps. *)
Lemma call_returns p w r : 0 ≤ p < phaseCount → call_ok p w → stands p w r →
  ∃ w' r', rtc (own_step p) w w' ∧ c_at w' = Returned r'.
Proof.
  destruct w as [s d c]. intros Hp [Hok Hc] Hr. simpl in *.
  assert (r ∈ readyCases p s d) as Hin by (by eapply readyCases_spec).
  assert (own_step p (mkCall s d Between) (mkCall s d (Returned r))) as Hb.
  { split_and!; [done|done|]. by apply await_take. }
  destruct c as [| | |r0].
  - assert (own_step p (mkCall s d Called) (mkCall s d (firstSelect p s))) as Ha.
    { split_and!; [done|done|]. apply await_first. }
    rewrite /firstSelect decide_False in Ha; [lia|]. destruct (reachedCh p s).
    + exists (mkCall s d (Returned Reached)), Reached. split; [by apply rtc_once|done].
    + exists (mkCall s d (Returned r)), r. split; [|done]. eapply rtc_l; [exact Ha|]. by apply rtc_once.
  - exists (mkCall s d (Returned r)), r. split; [by apply rtc_once|done].
  - rewrite Hc in Hin. by apply elem_of_nil in Hin.
  - by exists (mkCall s d (Returned r0)), r0.
Qed.

(** C14: The sequencer is a barrier.  A phase is only advanced to from the one before
    it.  Take a call of [Await] made in any state the goroutines can bring the
    sequencer to, and any interleaving of its two selects with their advances,
    failures and cancellations.  An answer nil is given only when the phase is
    reached, an error only when it is the failure reported, the first one and never
    replaced, or the context's; a phase reached when the call is made is answered
    nil, whatever happens after; a call is blocked only while the phase is not
    reached, nothing failed and its context lives, and the event that ends this wakes
    it with the one answer that stands then, so a blocked awaiter of a phase that is
    reached answers nil; and a call with something to answer returns by its own
    steps, so a failure or a cancellation leaves none blocked.  A phase outside the
    enumeration is refused at once.  What is not claimed, and is false: that a
    phase reached between the two selects always wins over a failure reported
    there too ([BootExamples.reached_and_aborted]). *)
Theorem sequencer_barrier p s d w : reachable s → rtc (call_step p) (mkCall s d Called) w →
  (∀ next, (Advance next s).2 = Advanced ↔ next = current s + 1 ∧ next < phaseCount) ∧
  if decide (0 ≤ p < phaseCount) then
    (∀ r, c_at w = Returned r → match r with
       | Reached => p ≤ current (c_seq w)
       | InvalidPhase => False
       | Aborted q e => failErr (c_seq w) = Some (q, e)
       | Cancelled => c_done w = true
       end) ∧
    (∀ q e, failErr s = Some (q, e) → failErr (c_seq w) = Some (q, e)) ∧
    (p ≤ current s → c_at w = Called ∨ c_at w = Returned Reached) ∧
    (c_at w = Parked → current (c_seq w) < p ∧ failErr (c_seq w) = None ∧ c_done w = false) ∧
    (c_at w = Parked → ∀ w', call_step p w w' → (c_at w' = Parked ∧ ∀ r, ¬ stands p w' r) ∨
       ∃ r, c_at w' = Returned r ∧ stands p w' r ∧ ∀ r', stands p w' r' → r' = r) ∧
    (p ≤ current (c_seq w) ∨ is_Some (failErr (c_seq w)) ∨ c_done w = true →
       ∃ w' r, rtc (own_step p) w w' ∧ c_at w' = Returned r)
  else c_at w = Called ∨ c_at w = Returned InvalidPhase.
Proof.
  intros Hs Hr. destruct (steps_ok _ _ NewSequencer_ok Hs) as (Hok & _ & _). split.
  { intros next. split.
    - intros E. destruct (Advance_fields next s) as [-> ?]; [done..|lia].
    - intros [-> Hlt]. pose proof (Advance_next s Hok) as H. destruct (Advance _ s) as [s1 r].
      rewrite decide_True // in H. by apply H. }
  case_decide as Hp.
  - destruct (call_steps_ok p (mkCall s d Called) w Hp (conj Hok I) Hr) as [Hw (Hle & Hf & _)]. split_and!.
    + intros r E. destruct Hw as [_ Hc]. rewrite E in Hc. exact Hc.
    + naive_solver.
    + intros Hreach. eapply (answered_at_once p s _ w Reached Hok Hr); [done| |simpl; lia|by left].
      intros s' Hs' Hle'. rewrite /firstSelect decide_False; [lia|]. rewrite reachedCh_iff // bool_decide_true //. lia.
    + intros E. destruct Hw as [Hw Hc]. rewrite E in Hc. by apply readyCases_nil.
    + intros E w'. by apply woken_once.
    + intros Hany. assert (∃ r, stands p w r) as [r Hst].
      { destruct Hany as [?|[[[q e] ?]|?]]; [by exists Reached|by exists (Aborted q e)|by exists Cancelled]. }
      by apply (call_returns p w r).
  - eapply (answered_at_once p s _ w InvalidPhase Hok Hr); [done| |simpl; lia|by left].
    intros s' _ _. rewrite /firstSelect decide_True //. lia.
Qed.
End sequencer.

(** ** Retry with backoff (retry.go) *)

(** What a fetch fails with: an HTTP status outside the expected ones, or anything
    else (network, DNS, TLS, parse). *)
Inductive fetchErr := ErrUnexpectedResponseCode (actual : Z) | OtherErr (text : string).
Definition isRetryableNeutronErr (err : option fetchErr) : bool :=
  match err with
  | None => false
  | Some (ErrUnexpectedResponseCode actual) => bool_decide (500 ≤ actual ∨ actual = 429)
  | Some (OtherErr _) => true
  end.
Definition neutronBackoffInitial : Z := 1 * second.
Definition neutronBackoffMax : Z := 30 * second.

Inductive retried := Succeeded | GaveUp (e : fetchErr) | ContextDone.
(** One attempt: what the fetch answers, and whether the context is cancelled
    during the wait after it. *)
Definition attempt : Type := option fetchErr * bool.
(** The delays waited for in full or in part and, unless the attempts given run
    out, how the loop ends. *)
Fixpoint retryWithBackoff (delay max : Z) (attempts : list attempt) : list Z * option retried :=
  match attempts with
  | [] => ([], None)
  | (None, _) :: _ => ([], Some Succeeded)
  | (Some e, cancelled) :: rest =>
      if negb (isRetryableNeutronErr (Some e)) then ([], Some (GaveUp e))
      else if cancelled : bool then ([delay], Some ContextDone)
      else
        let doubled := i64 (delay * 2) in
        let '(waits, r) := retryWithBackoff (if decide (max < doubled) then max else doubled) max rest in
        (delay :: waits, r)
  end.

(** An attempt after which the loop goes on. *)
Definition goes_on (a : attempt) : bool := isRetryableNeutronErr a.1 && negb a.2.
Definition ends_with (a : attempt) : retried :=
  match a.1 with
  | None => Succeeded
  | Some e => if isRetryableNeutronErr (Some e) then ContextDone else GaveUp e
  end.
Lemma retry_result delay max pre a rest : Forall goes_on pre → goes_on a = false →
  (retryWithBackoff delay max (pre ++ a :: rest)).2 = Some (ends_with a).
Proof.
  intros Hpre Ha. induction Hpre as [|[e c] pre Hp _ IH] in delay |- *.
  - destruct a as [[e|] c]; simpl; [|done]. rewrite /goes_on /ends_with /= in Ha |- *.
    destruct (isRetryableNeutronErr (Some e)) eqn:E; simpl in *; rewrite E /=; [|done].
    destruct c; [done|]. by rewrite E in Ha.
  - rewrite /goes_on /= in Hp. apply andb_prop_elim in Hp as [He Hc]. apply Is_true_true in He.
    destruct e as [e|]; [|done]. simpl in *. rewrite He /=. destruct c; [done|].
    specialize (IH (if decide (max < i64 (delay * 2)) then max else i64 (delay * 2))).
    by destruct (retryWithBackoff _ _ (pre ++ a :: rest)).
Qed.
Lemma retry_waits delay max attempts i w : 0 ≤ delay ≤ max → max < 2 ^ 62 →
  (retryWithBackoff delay max attempts).1 !! i = Some w → w = Z.min (delay * 2 ^ Z.of_nat i) max.
Proof.
  intros Hd Hm. induction attempts as [|[[e|] c] attempts IH] in delay, Hd, i |- *; [done| |done].
  cbn [retryWithBackoff]. destruct (isRetryableNeutronErr (Some e)); cbn [negb]; [|done].
  destruct c; [intros Hw; apply list_lookup_singleton_Some in Hw as [-> <-]; lia|].
  rewrite i64_id; first lia.
  destruct (retryWithBackoff _ _ _) as [ws r] eqn:E. simpl. destruct i as [|i]; simpl.
  { intros [= <-]. lia. }
  specialize (IH (if decide (max < delay * 2) then max else delay * 2) i).
  rewrite E /= in IH. intros Hw. rewrite (IH ltac:(case_decide; lia) Hw).
  rewrite Nat2Z.inj_succ Z.pow_succ_r; [lia|].
  assert (1 ≤ 2 ^ Z.of_nat i) by (pose proof (Z.pow_pos_nonneg 2 (Z.of_nat i)); lia).
  case_decide; nia.
Qed.

(** The loop ends at the first attempt that succeeds, fails for good or is
    cut short by the context, with that outcome, and its waits double from one
    second to a ceiling of thirty, so no wait overflows or is zero. *)
Theorem retry_exact pre a rest : Forall goes_on pre → goes_on a = false →
  let r := retryWithBackoff neutronBackoffInitial neutronBackoffMax (pre ++ a :: rest) in
  r.2 = Some (ends_with a) ∧
  (∀ i w, r.1 !! i = Some w → w = Z.min (second * 2 ^ Z.of_nat i) (30 * second) ∧ second ≤ w) ∧
  (∀ e, ends_with a = GaveUp e →
     ∃ code, e = ErrUnexpectedResponseCode code ∧ code < 500 ∧ code ≠ 429).
Proof.
  intros Hpre Ha r. split_and!.
  - by apply retry_result.
  - intros i w Hw. apply retry_waits in Hw; [|by vm_compute..].
    rewrite /neutronBackoffInitial /neutronBackoffMax in Hw.
    assert (1 ≤ 2 ^ Z.of_nat i) by (pose proof (Z.pow_pos_nonneg 2 (Z.of_nat i)); lia).
    rewrite /second /millisecond in Hw |- *. lia.
  - intros e. destruct a as [[[code|t]|] c]; rewrite /ends_with /=; try done.
    case_bool_decide; [done|]. intros [= <-]. exists code. split; [done|lia].
Qed.

(** ** The list of boot steps ([bootstrapper.run]) *)

Section steps.
Context {S Err : Type} (closeCollection : S → S).
Definition step : Type := string * (S → S * option Err).
(** The first failure ends the boot, under the step's name, after the collection is
    closed. *)
Fixpoint run (steps : list step) (b : S) : S * option (string * Err) :=
  match steps with
  | [] => (b, None)
  | (name, fn) :: rest =>
      match fn b with
      | (b, Some err) => (closeCollection b, Some (name, err))
      | (b, None) => run rest b
      end
  end.
Lemma run_steps l1 l2 b b1 : run l1 b = (b1, None) → run (l1 ++ l2) b = run l2 b1.
Proof.
  induction l1 as [|[n f] l1 IH] in b |- *; simpl; [by intros [= ->]|].
  destruct (f b) as [b' [e|]]; [done|apply IH].
Qed.
(** A successful boot ran every step, each from the state the one before left. *)
Lemma run_ok l b b' : run l b = (b', None) →
  b' = foldl (λ b s, (s.2 b).1) b l ∧
  ∀ l1 s l2, l = l1 ++ s :: l2 → (s.2 (foldl (λ b s, (s.2 b).1) b l1)).2 = None.
Proof.
  induction l as [|[n f] l IH] in b |- *; simpl.
  { intros [= ->]. split; [done|]. by intros [] ? ?. }
  destruct (f b) as [b1 [e|]] eqn:E; [done|]. intros Hr. destruct (IH b1 Hr) as [-> H2].
  split; [done|]. intros [|s1 l1] s l2 [= <- Hl]; simpl; [by rewrite E|].
  rewrite E /=. by eapply H2.
Qed.
End steps.

(** ** Workers and their drain (worker.go) *)

Record worker := mkWorker { name : string; enabled : bool }.
Inductive drainEvent := Cancel (w : string) | Stopped (w : string) | OverBudget (w : string).
(** [workers]: the rows in drain order, with the conditions that enable them. *)
Definition workers (netlink gc kafka reconcile wal : bool) : list worker := [
  mkWorker "netlink subscriber" netlink; mkWorker "ghost sweeper" gc;
  mkWorker "kafka consumer" kafka; mkWorker "reconciler" reconcile;
  mkWorker "scraper" true; mkWorker "wal" wal].
(** [await]: the row's goroutine ends within the shutdown budget of its wait, or
    does not; a disabled row is over from the start. *)
Definition await (inTime : string → bool) (w : worker) : drainEvent :=
  if negb (enabled w) || inTime (name w) then Stopped (name w) else OverBudget (name w).
Definition drainWorkers (inTime : string → bool) (ws : list worker) : list drainEvent :=
  w ← ws; [Cancel (name w); await inTime w].

Lemma drain_lookup inTime ws i w : ws !! i = Some w →
  drainWorkers inTime ws !! (2 * i)%nat = Some (Cancel (name w)) ∧
  drainWorkers inTime ws !! (2 * i + 1)%nat = Some (await inTime w).
Proof.
  induction ws as [|w0 ws IH] in i |- *; [done|]. destruct i as [|i]; [by intros [= <-]|].
  intros Hi. destruct (IH i Hi) as [H1 H2].
  replace (2 * S i)%nat with (S (S (2 * i))) by lia. split; [exact H1|].
  replace (S (S (2 * i)) + 1)%nat with (S (S (2 * i + 1))) by lia. exact H2.
Qed.
(** A row is only cancelled once every row above it has ended or used up its
    budget. *)
Lemma drain_order inTime ws i j wi wj : ws !! i = Some wi → ws !! j = Some wj → (i < j)%nat →
  ∃ a b, drainWorkers inTime ws !! a = Some (await inTime wi) ∧
    drainWorkers inTime ws !! b = Some (Cancel (name wj)) ∧ (a < b)%nat.
Proof.
  intros Hi Hj Hlt. exists (2 * i + 1)%nat, (2 * j)%nat.
  split_and!; [by apply drain_lookup..|lia].
Qed.
(** The final flush starts after the scraper's last tick, unless the scraper is
    stuck. *)
Example wal_after_scraper netlink gc kafka reconcile wal inTime : inTime "scraper" = true →
  ∃ a b, drainWorkers inTime (workers netlink gc kafka reconcile wal) !! a = Some (Stopped "scraper") ∧
    drainWorkers inTime (workers netlink gc kafka reconcile wal) !! b = Some (Cancel "wal") ∧ (a < b)%nat.
Proof.
  intros Hs.
  destruct (drain_order inTime (workers netlink gc kafka reconcile wal) 4 5
    (mkWorker "scraper" true) (mkWorker "wal" wal)) as (a & b & Ha & Hb & Hab); [done..|lia|].
  exists a, b. split; [|done]. by rewrite Ha /await /= Hs.
Qed.

Module BootExamples.
Definition up_to (l : list Z) : Sequencer (Err := string) := foldl (λ s p, (Advance p s).1) NewSequencer l.
Definition booted : Sequencer (Err := string) :=
  up_to [PhaseBPFLoaded; PhaseMetadataReady; PhaseAttached; PhaseStateRestored].
Definition halfway : Sequencer (Err := string) := up_to [PhaseBPFLoaded; PhaseMetadataReady].
Lemma halfway_reachable : reachable halfway.
Proof.
  eapply rtc_l; [by apply (step_advance PhaseBPFLoaded)|].
  eapply rtc_l; [by apply (step_advance PhaseMetadataReady)|]. apply rtc_refl.
Qed.
Lemma halfway_fails : rtc seq_step halfway (Fail PhaseAttached "no clsact" halfway).
Proof. eapply rtc_l; [apply step_fail|apply rtc_refl]. Qed.
(** A sweeper waits for the restore while the attach fails: it is woken with the
    failure; and a call for the metadata, ready before, still answers nil after it. *)
Definition failed : Sequencer := Fail PhaseAttached "no clsact" halfway.
Lemma sweeper_woken : rtc (call_step PhaseStateRestored) (mkCall halfway false Called)
  (mkCall failed false (Returned (Aborted PhaseAttached "no clsact"))).
Proof.
  eapply rtc_l; [apply step_own, await_first|]. eapply rtc_l; [apply step_own, await_park; reflexivity|].
  apply rtc_once, step_other; [apply step_fail|]. apply wakes_case. by left.
Qed.
Lemma metadata_called : rtc (call_step PhaseMetadataReady) (mkCall halfway false Called) (mkCall failed false Called).
Proof. apply rtc_once, step_other; [apply step_fail|]. by apply wakes_running. Qed.
Lemma sequencer_barrier_witness :
  reachable halfway ∧
  rtc (call_step PhaseStateRestored) (mkCall halfway false Called)
    (mkCall failed false (Returned (Aborted PhaseAttached "no clsact"))) ∧
  failErr failed = Some (PhaseAttached, "no clsact") ∧
  rtc (call_step PhaseMetadataReady) (mkCall halfway false Called) (mkCall failed false Called) ∧
  ∃ w r, rtc (own_step PhaseMetadataReady) (mkCall failed false Called) w ∧ c_at w = Returned r.
Proof.
  split; [exact halfway_reachable|]. split; [exact sweeper_woken|]. split.
  - destruct (sequencer_barrier _ _ _ _ halfway_reachable sweeper_woken) as [_ H].
    exact (proj1 H _ eq_refl).
  - split; [exact metadata_called|].
    destruct (sequencer_barrier _ _ _ _ halfway_reachable metadata_called) as [_ H].
    apply (proj2 (proj2 (proj2 (proj2 (proj2 H))))). left. discriminate.
Defined.
(** The phase is reached and a failure reported while a call is between its two
    selects: the second select may take the failure, although the phase holds. *)
Example reached_and_aborted :
  let s := Fail PhaseAttached "no qdisc" (Advance PhaseAttached halfway).1 in
  rtc (call_step PhaseAttached) (mkCall halfway false Called)
    (mkCall s false (Returned (Aborted PhaseAttached "no qdisc"))) ∧ PhaseAttached ≤ current s.
Proof.
  split; [|done]. eapply rtc_l; [apply step_own, await_first|].
  eapply rtc_l; [apply step_other; [by apply (step_advance PhaseAttached)|by apply wakes_running]|].
  eapply rtc_l; [apply step_other; [apply step_fail|by apply wakes_running]|].
  apply rtc_once, step_own, await_take. right. by left.
Qed.
(** Advancing past the last phase indexes out of range. *)
Example past_the_end : (Advance 5 booted).2 = Panics.
Proof. done. Qed.
Example skip_refused : Advance PhaseAttached (NewSequencer (Err := string)) = (NewSequencer, NotNext).
Proof. done. Qed.

Definition unreachable : attempt := (Some (OtherErr "connection refused"), false).
Lemma retry_exact_witness :
  let r := retryWithBackoff neutronBackoffInitial neutronBackoffMax
    (replicate 6 unreachable ++ (Some (ErrUnexpectedResponseCode 401), false) :: []) in
  r.2 = Some (GaveUp (ErrUnexpectedResponseCode 401)) ∧ r.1 = (λ n, n * second) <$> [1; 2; 4; 8; 16; 30].
Proof.
  split; [|vm_compute; reflexivity].
  refine (proj1 (retry_exact (replicate 6 unreachable) (Some (ErrUnexpectedResponseCode 401), false) [] _ eq_refl)).
  repeat constructor.
Defined.
End BootExamples.
