(* ===== verification/ColdStart.v ===== *)
(** * Cold start (internal/agent/coldstart_linux.go, [wireReconcile])

    The first sync of a boot: the metadata store, the router map and the kernel maps
    are filled from one snapshot before any packet is classified, and handed to the
    reconciler.  What the boot leaves, reconcile passes keep in step with the last
    snapshot that was answered, each kernel map as far as its calls succeed. *)
From S2P Require Import Prelude.
From S2P Require Import GoStrings.
From S2P Require Import NetIP.
From S2P Require Import Bpf.
From S2P Require Import State.
From S2P Require Import Metadata.
From S2P Require Import Neutron.
From S2P Require Import Trie.
From S2P Require Import Attribution.
From S2P Require Import KernelMap.
From S2P Require Import KernelWriter.
From S2P Require Import Sync.
From S2P Require Import Reconcile.
From S2P Require Import GoArgs.
From S2P Require Import Boot.

(** ** The agent's state a cold start fills *)

(** The maps of the loaded collection; [None] is a map missing from it. *)
Record coldAgent (M : Type) := mkCold {
  ca_neutron : Neutron; ca_meta : M; ca_routers : RouterMap; ca_interner : TenantInterner;
  ca_mac : option (kmap Z Z); ca_trie : option (kmap LpmKey Z); ca_amphora : option (kmap AmphoraKey Z);
  ca_fill : gmap string Z;                   (* bpf map fill gauges *)
  ca_amphoraPorts : Z; ca_trunkSubports : Z; ca_unknownOwners : list string }.
Arguments mkCold {_} _ _ _ _ _ _ _ _ _ _ _.
Arguments ca_neutron {_} _.
Arguments ca_meta {_} _.
Arguments ca_routers {_} _.
Arguments ca_interner {_} _.
Arguments ca_mac {_} _.
Arguments ca_trie {_} _.
Arguments ca_amphora {_} _.
Arguments ca_fill {_} _.
Arguments ca_amphoraPorts {_} _.
Arguments ca_trunkSubports {_} _.
Arguments ca_unknownOwners {_} _.

Record populateStats := mkStats { inserted : Z; skipped : Z; unknownOwners : Z; amphoraPorts : Z }.

Inductive coldErr (Err : Type) :=
  | SyncErr (e : retried)
  | MapMissing (name : string)
  | WriteFailed (name : string) (wrote : Z) (e : kerr Err)
  | AmbiguousRoutes (hits : nat).
Arguments SyncErr {_} _.
Arguments MapMissing {_} _.
Arguments WriteFailed {_} _ _ _.
Arguments AmbiguousRoutes {_} _.

Section cold.
Context `{GoRange} `{MetaStore M} {Err : Type} (endian : Endian).
(** The failures of the MAC map, the trie and the Amphora map. *)
Variables faultM faultT faultA : nat → option Err.
Notation agent := (coldAgent M).

(** *** Userspace metadata *)

(** What the audit counts of one port. *)
Definition auditPort (acc : Z * Z * Z * list string) (p : Port) : Z * Z * Z * list string :=
  let '(skipped, unknown, trunks, owners) := acc in
  if decide (IsVMPort (Port_DeviceOwner p) = false ∨ Port_ProjectID p = "" ∨ Port_MACAddress p = "")
  then acc
  else match ParseMAC (Port_MACAddress p) with
       | None => (skipped + 1, unknown, trunks, owners)
       | Some _ =>
           let '(unknown, owners) :=
             if IsKnownVMOwner (Port_DeviceOwner p) then (unknown, owners)
             else (unknown + 1, owners ++ [Port_DeviceOwner p]) in
           (skipped, unknown, if IsTrunkSubport (Port_DeviceOwner p) then trunks + 1 else trunks, owners)
       end.
Definition auditPorts (snap : Snapshot) : Z * Z * Z * list string := foldl auditPort (0, 0, 0, []) (Ports snap).

Definition populateMetadataFromPorts (snap : Snapshot) (a : agent) : agent * populateStats :=
  let desired := DesiredMACs snap in
  let meta := foldl (λ m kv, ms_Insert kv.1 kv.2 m) (ca_meta a) (go_range desired) in
  let ports := amphoraCount desired in
  let '(skipped, unknown, trunks, owners) := auditPorts snap in
  (mkCold (ca_neutron a) meta (ca_routers a) (ca_interner a) (ca_mac a) (ca_trie a) (ca_amphora a)
     (ca_fill a) ports trunks (ca_unknownOwners a ++ owners),
   mkStats (Z.of_nat (length (go_range desired))) skipped unknown ports).

(** *** The kernel maps *)

Definition setRouters (routers : RouterMap) (a : agent) : agent :=
  mkCold (ca_neutron a) (ca_meta a) routers (ca_interner a) (ca_mac a) (ca_trie a) (ca_amphora a)
    (ca_fill a) (ca_amphoraPorts a) (ca_trunkSubports a) (ca_unknownOwners a).
Definition setKernel (t : TenantInterner) mac trie amphora (a : agent) : agent :=
  mkCold (ca_neutron a) (ca_meta a) (ca_routers a) t mac trie amphora
    (ca_fill a) (ca_amphoraPorts a) (ca_trunkSubports a) (ca_unknownOwners a).
Definition SetCurrent (name : string) (n : Z) (a : agent) : agent :=
  mkCold (ca_neutron a) (ca_meta a) (ca_routers a) (ca_interner a) (ca_mac a) (ca_trie a) (ca_amphora a)
    (<[name := n]> (ca_fill a)) (ca_amphoraPorts a) (ca_trunkSubports a) (ca_unknownOwners a).
Definition setNeutron (n : Neutron) (a : agent) : agent :=
  mkCold n (ca_meta a) (ca_routers a) (ca_interner a) (ca_mac a) (ca_trie a) (ca_amphora a)
    (ca_fill a) (ca_amphoraPorts a) (ca_trunkSubports a) (ca_unknownOwners a).


(** Single-shot: the first failing writer ends it, and leaves what was written. *)
Definition pushToKernel (result : SyncResult) (a : agent) : agent * Z * Z * option (coldErr Err) :=
  match ca_mac a with
  | None => (a, 0, 0, Some (MapMissing MapMacTenant))
  | Some macMap =>
  match ca_trie a with
  | None => (a, 0, 0, Some (MapMissing MapSubnetZoneTrie))
  | Some trieMap =>
      let '(w, t) := WriteMacTenantMap faultM macMap (ca_meta a) (ca_interner a) in
      let nMac := w_written w in
      let a := setKernel t (Some (w_map w)) (Some trieMap) (ca_amphora a) a in
      match w_err w with
      | Some e => (a, nMac, 0, Some (WriteFailed MapMacTenant nMac e))
      | None =>
          let '(wt, t) := WriteSubnetZoneTrie faultT endian trieMap (SR_Entries result) t in
          let nTrie := w_written wt in
          let a := setKernel t (ca_mac a) (Some (w_map wt)) (ca_amphora a) a in
          match w_err wt with
          | Some e => (a, nMac, nTrie, Some (WriteFailed MapSubnetZoneTrie nTrie e))
          | None =>
          match ca_amphora a with
          | None => (a, nMac, nTrie, Some (MapMissing MapAmphoraBaseIP))
          | Some amphoraMap =>
              let '(wa, t) := WriteAmphoraBaseIPs faultA endian amphoraMap
                                (AmphoraBaseIPs (SR_Snapshot result)) t in
              let nAmp := w_written wa in
              let a := setKernel t (ca_mac a) (ca_trie a) (Some (w_map wa)) a in
              match w_err wa with
              | Some e => (a, nMac, nTrie, Some (WriteFailed MapAmphoraBaseIP nAmp e))
              | None => (SetCurrent MapAmphoraBaseIP nAmp a, nMac, nTrie, None)
              end
          end
          end
      end
  end
  end.

Definition enforceAmbiguityPolicy (unsafeAllow : bool) (ambiguities : list AmbiguityHit) : option (coldErr Err) :=
  if decide (length ambiguities = 0%nat) then None
  else if negb unsafeAllow then Some (AmbiguousRoutes (length ambiguities))
  else None.

(** One attempt of the first sync: its answer, and whether the context is cancelled
    during the wait after it. *)
Definition syncAttempt : Type := (fetchErr + SyncResult) * bool.
Definition failureOf (s : syncAttempt) : attempt :=
  (match s.1 with inl e => Some e | inr _ => None end, s.2).
Definition firstResult (l : list syncAttempt) : option SyncResult :=
  head (omap (λ s, match s.1 with inr r => Some r | inl _ => None end) l).

(** [None]: the attempts given all failed and the loop goes on. *)
Definition coldStartNeutron (enabled unsafeAllow : bool) (attempts : list syncAttempt) (now : Z) (a : agent) :
    agent * option (option (coldErr Err)) :=
  if negb enabled then (a, Some None)
  else
    match (retryWithBackoff neutronBackoffInitial neutronBackoffMax (failureOf <$> attempts)).2 with
    | None => (a, None)
    | Some Succeeded =>
        match firstResult attempts with
        | None => (a, None)
        | Some result =>
            let '(a, _) := populateMetadataFromPorts (SR_Snapshot result) a in
            let a := setRouters (RouterExtMACs (SR_Snapshot result)) a in
            let '(a, nMac, nTrie, err) := pushToKernel result a in
            match err with
            | Some e => (a, Some (Some e))
            | None =>
                match enforceAmbiguityPolicy unsafeAllow (SR_Ambiguities result) with
                | Some e => (a, Some (Some e))
                | None =>
                    let a := SetCurrent MapMacTenant nMac a in
                    let a := SetCurrent MapSubnetZoneTrie nTrie a in
                    (setNeutron (Commit result now (ca_neutron a)) a, Some None)
                end
            end
        end
    | Some r => (a, Some (Some (SyncErr r)))
    end.

(** [wireReconcile]: the reconciler over the same maps and stores. *)
Definition wireReconcile (enabled : bool) (settler : GlobalState) (a : agent) :
    option (Reconciler M) + coldErr Err :=
  if negb enabled then inl None
  else match ca_trie a with
  | None => inr (MapMissing MapSubnetZoneTrie)
  | Some trieMap =>
  match ca_mac a with
  | None => inr (MapMissing MapMacTenant)
  | Some macMap =>
  match ca_amphora a with
  | None => inr (MapMissing MapAmphoraBaseIP)
  | Some amphoraMap =>
      inl (Some (mkReconciler (ca_neutron a) trieMap (Some amphoraMap) (Some (ca_meta a)) (Some macMap)
        (Some (ca_routers a)) (Some settler) (ca_interner a) (Some (ca_amphoraPorts a)) (Some (ca_fill a)) []))
  end
  end
  end.
End cold.

(** ** The metadata a snapshot stands for *)

Section metadata.
Context `{GoRange} `{MetaStore M}.

Lemma populate_view snap (m : M) : ms_ok m → ms_view m = ∅ →
  let m' := foldl (λ m kv, ms_Insert kv.1 kv.2 m) m (go_range (DesiredMACs snap)) in
  ms_ok m' ∧ ms_view m' = DesiredMACs snap.
Proof.
  intros Hok He. cbn zeta.
  assert (∀ l m, ms_ok m → ms_ok (foldl (λ m kv, ms_Insert kv.1 kv.2 m) m l) ∧
    ms_view (foldl (λ m kv, ms_Insert kv.1 kv.2 m) m l) = insertAll l (ms_view m)) as Hl.
  { clear. induction l as [|[k v] l IH]; intros m Hm; [done|]. simpl.
    destruct (ms_Insert_view m k v Hm) as [H1 H2]. destruct (IH _ H1) as [? ->]. by rewrite H2. }
  destruct (Hl (go_range (DesiredMACs snap)) m Hok) as [? ->]. split; [done|].
  by rewrite He insertAll_range.
Qed.

(** The owner of a load balancer is never empty, nor is an admitted port's. *)
Lemma amphora_owner_named snap id o : AmphoraOwnerByPort snap !! id = Some o → o ≠ "".
Proof.
  assert (∀ lb o, amphoraLBOwners snap !! lb = Some o → o ≠ "") as Hlb.
  { intros lb o'. rewrite /amphoraLBOwners.
    rewrite (foldl_insertAll (λ lb, if decide (LB_ID lb = "" ∨ LB_ProjectID lb = "") then None
      else if isAmphoraProvider (LB_Provider lb) then Some (LB_ID lb, LB_ProjectID lb) else None)).
    { intros m x. case_decide; [done|]. by case_match. }
    intros [(x & _ & E)|E]%insert_loop_Some; [|by rewrite lookup_empty in E].
    case_decide; [done|]. case_match; [|done]. injection E as _ <-. tauto. }
  assert (∀ k b, amphoraBindings snap (amphoraLBOwners snap) !! k = Some b → owner b ≠ "") as Hb.
  { intros k b. rewrite /amphoraBindings.
    rewrite (foldl_insertAll (λ a, if decide (Amp_ComputeID a = "" ∨ EqualFold (Amp_Status a) "DELETED" = true)
      then None else (λ o, (Amp_ComputeID a, mkBinding o (Amp_LBNetworkIP a))) <$>
        amphoraLBOwners snap !! Amp_LoadBalancerID a)).
    { intros m x. case_decide; [done|]. by destruct (amphoraLBOwners snap !! _). }
    intros [(x & _ & E)|E]%insert_loop_Some; [|by rewrite lookup_empty in E].
    case_decide; [done|]. apply fmap_Some in E as (o' & Ho & E). injection E as -> ->. simpl. by eapply Hlb. }
  rewrite /AmphoraOwnerByPort /amphoraDataPorts.
  rewrite (foldl_insertAll (λ p, amp ← amphoraBindings snap (amphoraLBOwners snap) !! Port_DeviceID p;
    if isManagementPort amp p then None else Some (Port_ID p, owner amp))).
  { intros m x. destruct (_ !! Port_DeviceID x); [simpl|done]. by case_match. }
  intros [(x & _ & E)|E]%insert_loop_Some; [|by rewrite lookup_empty in E].
  apply bind_Some in E as (amp & Ha & E). case_match; [done|]. injection E as _ <-. by eapply Hb.
Qed.
Lemma desired_named snap mac m : DesiredMACs snap !! mac = Some m → ProjectID m ≠ "".
Proof.
  intros (p & _ & Hr)%DesiredMACs_in. rewrite /desiredRow in Hr. case_decide as Hp; [done|].
  destruct (ParseMAC _); [|done].
  destruct (AmphoraOwnerByPort snap !! Port_ID p) as [o|] eqn:E; injection Hr as _ <-; simpl; [|tauto].
  by eapply amphora_owner_named.
Qed.
End metadata.

(** ** The writers, started from what the kernel and the interner hold *)

Section writers.
Context `{GoRange} `{MetaStore M} {Err : Type} (fault : nat → option Err) (endian : Endian).

Lemma write_macs (store : M) km t : ms_ok store → krows km = ∅ → interner_ok t →
  nextID t + Z.of_nat (size (ms_view store)) < 2 ^ 32 →
  (∀ mac m, ms_view store !! mac = Some m → ProjectID m ≠ "") →
  let '(w, t') := WriteMacTenantMap fault km store t in
  interner_ok t' ∧ ext t t' ∧ nextID t' ≤ nextID t + Z.of_nat (size (ms_view store)) ∧
  (w_err w = None → mirrors t' (ms_view store) (krows (w_map w)) ∧
     w_written w = Z.of_nat (size (ms_view store))) ∧
  ((∀ i, fault i = None) → w_err w = None).
Proof.
  intros Hst Hkm Hok Hmax Hnamed. rewrite /WriteMacTenantMap.
  pose proof (ms_Range_view store Hst) as Hperm.
  assert (length (ms_Range store) = size (ms_view store)) as Hlen by by rewrite Hperm length_map_to_list.
  pose proof (macPairs_spec (ms_Range store) t Hok) as Hp. rewrite Hlen in Hp. specialize (Hp Hmax).
  destruct (macPairs (ms_Range store) t) as [pairs t']. destruct Hp as (Hok' & Hle & He & Hk & ->).
  assert (∀ x, x ∈ ms_Range store → ms_view store !! x.1 = Some x.2) as Hin.
  { intros [mac m]. by rewrite Hperm elem_of_map_to_list. }
  set (f := λ x : Z * TenantMeta, _).
  assert (omap f (ms_Range store) = (λ x, (x.1, kernel_value t' x.2)) <$> ms_Range store) as ->.
  { clear -Hin Hnamed. induction (ms_Range store) as [|x l IH]; csimpl; [done|].
    rewrite /f decide_False; first by eapply Hnamed, Hin; left.
    f_equal. apply IH. intros y Hy. apply Hin. by right. }
  split_and!; [done..| |].
  - destruct (writeRows_spec fault ((λ x, (x.1, kernel_value t' x.2)) <$> ms_Range store) km) as (Hrows & _).
    intros E. destruct (Hrows E) as [-> ->]. rewrite length_fmap Hlen Hkm. split; [|done]. split.
    + intros mac m Hm. apply (Hk (mac, m)). by rewrite Hperm elem_of_map_to_list.
    + apply map_eq. intros mac. rewrite lookup_fmap.
      assert (((λ x, (x.1, kernel_value t' x.2)) <$> ms_Range store).*1 = (ms_Range store).*1) as Hfst
        by (rewrite -list_fmap_compose; by apply list_fmap_ext).
      assert (NoDup (ms_Range store).*1) as Hnd by (rewrite Hperm; apply NoDup_fst_map_to_list).
      destruct (ms_view store !! mac) as [m|] eqn:Em; simpl.
      * apply insertAll_lookup; [by rewrite Hfst|]. apply list_elem_of_fmap. exists (mac, m).
        by rewrite Hperm elem_of_map_to_list.
      * rewrite insertAll_notin ?lookup_empty //. rewrite Hfst.
        intros ([mac' m] & -> & Hx)%list_elem_of_fmap. apply Hin in Hx. simpl in *. congruence.
  - apply writeRows_spec.
Qed.

(** The Amphora writer's key for an address, under an interner. *)
Definition amphoraKey (t : TenantInterner) (e : AmphoraBaseIP) : AmphoraKey :=
  mkAmphoraKey (tid t (Base_ProjectID e)) (native_uint32 endian (As4 (Base_Addr e))).
Lemma write_amphora es km t : interner_ok t → nextID t + Z.of_nat (length es) < 2 ^ 32 →
  let '(w, t') := WriteAmphoraBaseIPs fault endian km es t in
  interner_ok t' ∧ ext t t' ∧ nextID t' ≤ nextID t + Z.of_nat (length es) ∧
  (∀ e, e ∈ es → knows t' (Base_ProjectID e)) ∧
  (w_err w = None → ∀ e, e ∈ es → Base_ProjectID e ≠ "" → krows (w_map w) !! amphoraKey t' e = Some 1) ∧
  ((∀ i, fault i = None) → w_err w = None).
Proof.
  intros Hok Hmax. rewrite /WriteAmphoraBaseIPs. induction es as [|e es IH] using rev_ind; simpl.
  { split_and!; [done..|lia| | |done]; [|intros _]; intros e He; by apply elem_of_nil in He. }
  rewrite length_app /= in Hmax. rewrite foldl_app length_app /=.
  destruct (foldl _ (mkW km 0 None, t) es) as [w t1].
  destruct IH as (Hok1 & He1 & Hle1 & Hk1 & Hrows & Hf); first lia. simpl. case_decide as Hp.
  { split_and!; [done..|lia| | |done].
    - intros e' [?| ->%list_elem_of_singleton]%elem_of_app; [by apply Hk1|by left].
    - intros Ew e' [?| ->%list_elem_of_singleton]%elem_of_app ?; [|done]. by apply Hrows. }
  destruct (Intern_step (Base_ProjectID e) t1) as (Hok2 & Hle2 & He2 & Hk2 & Hid); [done|lia|].
  destruct (Intern (Base_ProjectID e) t1) as [id t2]; simpl in *.
  split_and!; [done|by etrans|lia| | |].
  - intros e' [?| ->%list_elem_of_singleton]%elem_of_app; [|done].
    eapply knows_ext; [done|by apply Hk1].
  - rewrite /writeRow /Update. destruct (fault _) as [x|]; simpl; [by destruct (w_err w)|].
    intros Ew e' Hin Hne. rewrite Hid. apply elem_of_app in Hin as [Hin| ->%list_elem_of_singleton].
    + specialize (Hrows Ew e' Hin Hne).
      assert (amphoraKey t2 e' = amphoraKey t1 e') as Ek.
      { rewrite /amphoraKey (tid_ext t1 t2) //. by apply Hk1. }
      destruct (decide (amphoraKey t2 e = amphoraKey t2 e')) as [Heq|Hne'].
      * rewrite -Heq /amphoraKey. by rewrite lookup_insert_eq.
      * rewrite lookup_insert_ne //. by rewrite Ek.
    + by rewrite lookup_insert_eq.
  - intros Hnone. rewrite /writeRow /Update Hnone /=. by apply Hf.
Qed.
End writers.

(** ** What a cold start leaves *)

(** The kernel's MACs are the store's and its trie is the committed one, in the ids
    of the interner. *)
Definition steady `{MetaStore M} (endian : Endian) (n : Neutron) (t : TenantInterner) (meta : M)
    (mac : kmap Z Z) (trie : kmap LpmKey Z) : Prop :=
  ms_ok meta ∧ interner_ok t ∧ mirrors t (ms_view meta) (krows mac) ∧
  entries_ok (Neutron_Trie n) ∧ knows_all t (Neutron_Trie n) ∧
  represents endian (rowsOf t (Neutron_Trie n)) (krows trie).

Lemma result_entries_ok `{GoRange} maxHops snap : entries_ok (SR_Entries (resultFor maxHops snap)).
Proof.
  rewrite /resultFor. destruct (buildTrie snap maxHops) as [[es ambs] cycs] eqn:E.
  intros e He. simpl in He. assert (e ∈ (buildTrie snap maxHops).1.1) as He' by by rewrite E.
  apply elem_of_buildTrie, row_prefix_ok in He'. apply He'.
Qed.
Lemma resultFor_snapshot `{GoRange} maxHops snap : SR_Snapshot (resultFor maxHops snap) = snap.
Proof. rewrite /resultFor. by destruct (buildTrie snap maxHops) as [[es ambs] cycs]. Qed.
Lemma firstResult_app pre r c rest : Forall (λ s, goes_on (failureOf s)) pre →
  firstResult (pre ++ (inr r, c) :: rest) = Some r.
Proof.
  intros Hpre. rewrite /firstResult omap_app.
  match goal with |- context [omap ?f pre] => assert (omap f pre = []) as -> end; [|done].
  induction Hpre as [|[[e|r0] c0] pre H _ IH]; csimpl; [done|done|].
  rewrite /goes_on /failureOf /= in H. by destruct c0.
Qed.

(** What does not depend on the kernel. *)
Definition same_userspace {M} (a b : coldAgent M) : Prop :=
  ca_neutron a = ca_neutron b ∧ ca_meta a = ca_meta b ∧ ca_routers a = ca_routers b.

Section push.
Context `{GoRange} `{MetaStore M} {Err : Type} (endian : Endian).
Variables faultM faultT faultA : nat → option Err.
Variables (a : coldAgent M) (mac : kmap Z Z) (trie : kmap LpmKey Z) (amphora : kmap AmphoraKey Z).
Variables (result : SyncResult).
Notation t := (ca_interner a).
Notation bases := (AmphoraBaseIPs (SR_Snapshot result)).
Hypothesis have_mac : ca_mac a = Some mac.
Hypothesis have_trie : ca_trie a = Some trie.
Hypothesis have_amphora : ca_amphora a = Some amphora.
Hypothesis empty_mac : krows mac = ∅.
Hypothesis empty_trie : krows trie = ∅.
Hypothesis meta_ok : ms_ok (ca_meta a).
Hypothesis named : ∀ mac m, ms_view (ca_meta a) !! mac = Some m → ProjectID m ≠ "".
Hypothesis interner : interner_ok t.
Hypothesis prefixes : entries_ok (SR_Entries result).
Hypothesis capacity :
  nextID t + Z.of_nat (size (ms_view (ca_meta a)) + length (SR_Entries result) + length bases) < 2 ^ 32.
Notation out := (pushToKernel endian faultM faultT faultA result a).

Lemma push_exact :
  same_userspace out.1.1.1 a ∧
  (out.2 = None → ∃ mac' trie' amphora', ca_mac out.1.1.1 = Some mac' ∧ ca_trie out.1.1.1 = Some trie' ∧
     ca_amphora out.1.1.1 = Some amphora' ∧ interner_ok (ca_interner out.1.1.1) ∧
     mirrors (ca_interner out.1.1.1) (ms_view (ca_meta a)) (krows mac') ∧
     knows_all (ca_interner out.1.1.1) (SR_Entries result) ∧
     represents endian (rowsOf (ca_interner out.1.1.1) (SR_Entries result)) (krows trie') ∧
     (∀ e, e ∈ bases → knows (ca_interner out.1.1.1) (Base_ProjectID e)) ∧
     ∀ e, e ∈ bases → Base_ProjectID e ≠ "" →
       krows amphora' !! amphoraKey endian (ca_interner out.1.1.1) e = Some 1) ∧
  ((∀ i, faultM i = None) → (∀ i, faultT i = None) → (∀ i, faultA i = None) → out.2 = None).
Proof.
  rewrite /pushToKernel have_mac have_trie.
  pose proof (write_macs faultM (ca_meta a) mac t meta_ok empty_mac interner ltac:(lia) named) as Hw1.
  destruct (WriteMacTenantMap faultM mac (ca_meta a) t) as [w1 t1].
  destruct Hw1 as (Hi1 & He1 & Hle1 & Hrows1 & Hf1).
  destruct (w_err w1) as [e1|].
  { split; [done|]. split; [done|]. intros Hf. by specialize (Hf1 Hf). }
  destruct (Hrows1 eq_refl) as [Hm _]. clear Hrows1 Hf1.
  pose proof (cold_start_rows faultT endian (SR_Entries result) trie t1 empty_trie Hi1 ltac:(lia) prefixes) as Hw2.
  destruct (WriteSubnetZoneTrie faultT endian trie (SR_Entries result) t1) as [w2 t2].
  destruct Hw2 as (Hi2 & Hle2 & He2 & Hk2 & Hrows2 & Hf2).
  destruct (w_err w2) as [e2|].
  { split; [done|]. split; [done|]. intros _ Hf. by specialize (Hf2 Hf). }
  destruct (Hrows2 eq_refl) as [Ht _]. clear Hrows2 Hf2.
  cbn [setKernel ca_amphora ca_mac ca_trie]. rewrite have_amphora.
  pose proof (write_amphora faultA endian bases amphora t2 Hi2 ltac:(lia)) as Hw3.
  destruct (WriteAmphoraBaseIPs faultA endian amphora bases t2) as [w3 t3].
  destruct Hw3 as (Hi3 & He3 & Hle3 & Hk3 & Hrows3 & Hf3).
  destruct (w_err w3) as [e3|].
  { split; [done|]. split; [done|]. intros _ _ Hf. by specialize (Hf3 Hf). }
  split; [done|]. split; [intros _|done].
  exists (w_map w1), (w_map w2), (w_map w3). cbn [fst setKernel SetCurrent ca_mac ca_trie ca_amphora ca_interner].
  split_and!; try done.
  - eapply mirrors_ext; [|exact Hm]. by etrans.
  - intros e He. eapply knows_ext; [exact He3|by apply Hk2].
  - rewrite (rowsOf_ext t2 t3) //.
  - by apply Hrows3.
Qed.
End push.
Lemma populate_fields `{GoRange} `{MetaStore M} snap (a : coldAgent M) :
  let a1 := (populateMetadataFromPorts snap a).1 in
  ca_neutron a1 = ca_neutron a ∧
  ca_meta a1 = foldl (λ m kv, ms_Insert kv.1 kv.2 m) (ca_meta a) (go_range (DesiredMACs snap)) ∧
  ca_interner a1 = ca_interner a ∧ ca_mac a1 = ca_mac a ∧ ca_trie a1 = ca_trie a ∧ ca_amphora a1 = ca_amphora a.
Proof. cbn zeta. rewrite /populateMetadataFromPorts. by destruct (auditPorts snap) as [[[sk unk] tr] ow]. Qed.

Section first_sync.
Context `{GoRange} `{MetaStore M} {Err : Type} (endian : Endian).
Variables faultM faultT faultA : nat → option Err.
(** A fresh agent over an empty, complete collection. *)
Variables (a : coldAgent M) (mac : kmap Z Z) (trie : kmap LpmKey Z) (amphora : kmap AmphoraKey Z).
Hypothesis have_maps : ca_mac a = Some mac ∧ ca_trie a = Some trie ∧ ca_amphora a = Some amphora.
Hypothesis empty_maps : krows mac = ∅ ∧ krows trie = ∅.
Hypothesis fresh : ms_ok (ca_meta a) ∧ ms_view (ca_meta a) = ∅ ∧ interner_ok (ca_interner a).
(** The first attempt that answers. *)
Variables (unsafeAllow cancelled : bool) (now maxHops : Z) (snap : Snapshot) (pre rest : list syncAttempt).
Notation result := (resultFor maxHops snap).
Hypothesis retried_so_far : Forall (λ s, goes_on (failureOf s)) pre.
Hypothesis capacity : nextID (ca_interner a) +
  Z.of_nat (size (DesiredMACs snap) + length (SR_Entries result) + length (AmphoraBaseIPs snap)) < 2 ^ 32.
Notation out := (coldStartNeutron endian faultM faultT faultA true unsafeAllow
  (pre ++ (inr result, cancelled) :: rest) now a).

Lemma cold_start_done :
  (out.2 = Some None →
     ca_neutron out.1 = Commit result now (ca_neutron a) ∧
     ms_view (ca_meta out.1) = DesiredMACs snap ∧ ca_routers out.1 = RouterExtMACs snap ∧
     (SR_Ambiguities result = [] ∨ unsafeAllow = true) ∧
     ∃ mac' trie' amphora', ca_mac out.1 = Some mac' ∧ ca_trie out.1 = Some trie' ∧
       ca_amphora out.1 = Some amphora' ∧
       steady endian (ca_neutron out.1) (ca_interner out.1) (ca_meta out.1) mac' trie' ∧
       (∀ e, e ∈ AmphoraBaseIPs snap → knows (ca_interner out.1) (Base_ProjectID e)) ∧
       ∀ e, e ∈ AmphoraBaseIPs snap → Base_ProjectID e ≠ "" →
         krows amphora' !! amphoraKey endian (ca_interner out.1) e = Some 1) ∧
  (∀ e, out.2 = Some (Some e) → ca_neutron out.1 = ca_neutron a) ∧
  ((∀ i, faultM i = None ∧ faultT i = None ∧ faultA i = None) →
     out.2 = Some None ↔ SR_Ambiguities result = [] ∨ unsafeAllow = true).
Proof.
  destruct have_maps as (Em & Et & Ea), empty_maps as (Hm0 & Ht0), fresh as (Hok & Hv & Hi).
  pose proof (resultFor_snapshot maxHops snap) as Hsnap. pose proof (result_entries_ok maxHops snap) as Hes.
  generalize dependent (resultFor maxHops snap). intros res Hcap Hsnap Hes.
  rewrite /coldStartNeutron fmap_app. cbn [negb fmap list_fmap].
  rewrite (retry_result _ _ (failureOf <$> pre) (failureOf (inr res, cancelled))); [by apply Forall_fmap|done|].
  cbn [ends_with failureOf fst]. rewrite firstResult_app // Hsnap.
  destruct (populate_fields snap a) as (Hn1 & Hm1 & Hi1 & Hk1 & Ht1 & Hx1).
  destruct (populateMetadataFromPorts snap a) as [a1 stats]. cbn [fst] in Hn1, Hm1, Hi1, Hk1, Ht1, Hx1.
  destruct (populate_view snap (ca_meta a) Hok Hv) as [Hok1 Hv1]. rewrite -Hm1 in Hok1 Hv1.
  set (a2 := setRouters (RouterExtMACs snap) a1).
  assert (ca_neutron a2 = ca_neutron a) as Hn2 by exact Hn1.
  assert (ca_routers a2 = RouterExtMACs snap) as Hr2 by reflexivity.
  destruct (push_exact endian faultM faultT faultA a2 mac trie amphora res) as ((Hn3 & Hm3 & Hr3) & Hsome & Hnone).
  { exact (eq_trans Hk1 Em). }
  { exact (eq_trans Ht1 Et). }
  { exact (eq_trans Hx1 Ea). }
  { done. } { done. } { exact Hok1. }
  { intros m v. change (ca_meta a2) with (ca_meta a1). rewrite Hv1. apply desired_named. }
  { exact (eq_ind_r interner_ok Hi Hi1). }
  { done. }
  { change (ca_meta a2) with (ca_meta a1). change (ca_interner a2) with (ca_interner a1).
    rewrite Hsnap Hv1 Hi1. lia. }
  change (ca_meta a2) with (ca_meta a1) in *. rewrite Hv1 Hsnap in Hsome. clearbody a2.
  destruct (pushToKernel endian faultM faultT faultA res a2) as [[[a3 nMac] nTrie] [e3|]].
  { cbn [fst snd] in *. split; [done|]. split; [intros e _; by etrans|].
    intros Hf. by specialize (Hnone (λ i, proj1 (Hf i)) (λ i, proj1 (proj2 (Hf i))) (λ i, proj2 (proj2 (Hf i)))). }
  cbn [fst snd] in *. destruct (Hsome eq_refl) as (mac' & trie' & amp' & Hmac & Htrie & Hamp & Hi3 & Hmir & Hkn & Hrep & Hkb & Hbase).
  set (a4 := setNeutron _ _).
  assert (ca_neutron a4 = Commit res now (ca_neutron a)) as Hn4 by (rewrite -Hn2 -Hn3; reflexivity).
  assert (ca_meta a4 = ca_meta a1) as Hm4 by exact Hm3.
  assert (ca_routers a4 = RouterExtMACs snap) as Hr4 by (rewrite -Hr2 -Hr3; reflexivity).
  assert (ca_mac a4 = Some mac' ∧ ca_trie a4 = Some trie' ∧ ca_amphora a4 = Some amp' ∧
    ca_interner a4 = ca_interner a3) as (Hmac4 & Htrie4 & Hamp4 & Hi4) by exact (conj Hmac (conj Htrie (conj Hamp eq_refl))).
  clearbody a4. rewrite -Hi4 in Hi3 Hmir Hkn Hrep Hkb Hbase.
  assert (ca_neutron a4 = Commit res now (ca_neutron a) ∧ ms_view (ca_meta a4) = DesiredMACs snap ∧
    ca_routers a4 = RouterExtMACs snap ∧ ∃ mac' trie' amphora', ca_mac a4 = Some mac' ∧
      ca_trie a4 = Some trie' ∧ ca_amphora a4 = Some amphora' ∧
      steady endian (ca_neutron a4) (ca_interner a4) (ca_meta a4) mac' trie' ∧
      (∀ e, e ∈ AmphoraBaseIPs snap → knows (ca_interner a4) (Base_ProjectID e)) ∧
      ∀ e, e ∈ AmphoraBaseIPs snap → Base_ProjectID e ≠ "" →
        krows amphora' !! amphoraKey endian (ca_interner a4) e = Some 1) as Hgood.
  { split; [done|]. split; [by rewrite Hm4|]. split; [done|]. exists mac', trie', amp'.
    split; [exact Hmac4|]. split; [exact Htrie4|]. split; [exact Hamp4|]. split; [|exact (conj Hkb Hbase)].
    assert (Neutron_Trie (ca_neutron a4) = SR_Entries res) as Htr by by rewrite Hn4.
    unfold steady. rewrite Htr Hm4 Hv1. split_and!; assumption. }
  destruct Hgood as (G1 & G2 & G3 & G4). clear -G1 G2 G3 G4 Hn2 Hn3.
  rewrite /enforceAmbiguityPolicy.
  destruct (SR_Ambiguities res) as [|hit hits]; [|destruct unsafeAllow]; cbn [length decide negb fst snd].
  - split; [intros _; exact (conj G1 (conj G2 (conj G3 (conj (or_introl eq_refl) G4))))|].
    split; [discriminate|]. intros _. split; [by left|reflexivity].
  - destruct (decide _) as [E|_]; [discriminate E|]. cbn [fst snd].
    split; [intros _; exact (conj G1 (conj G2 (conj G3 (conj (or_intror eq_refl) G4))))|].
    split; [discriminate|]. intros _. split; [by right|reflexivity].
  - destruct (decide _) as [E|_]; [discriminate E|]. cbn [fst snd].
    split; [discriminate|]. split; [intros e _; congruence|]. intros _.
    split; [discriminate|]. by intros [|].
Qed.

(** The cold start of a boot.  When it succeeds, the store holds exactly the
    attribution of every admitted port, the router map is the snapshot's, the kernel
    holds the packed tenant of exactly those MACs, exactly the trie's rows and every
    Amphora address, in ids the interner knows, and the sync is committed; routes
    were ambiguous only if the operator allows it.  When it fails, nothing is
    committed.  It fails only for a failed kernel call or such routes. *)
Theorem cold_start_exact :
  (out.2 = Some None →
     ca_neutron out.1 = Commit result now (ca_neutron a) ∧
     ms_view (ca_meta out.1) = DesiredMACs snap ∧ ca_routers out.1 = RouterExtMACs snap ∧
     (SR_Ambiguities result = [] ∨ unsafeAllow = true) ∧
     ∃ mac' trie' amphora', ca_mac out.1 = Some mac' ∧ ca_trie out.1 = Some trie' ∧
       ca_amphora out.1 = Some amphora' ∧
       steady endian (ca_neutron out.1) (ca_interner out.1) (ca_meta out.1) mac' trie' ∧
       (∀ e, e ∈ AmphoraBaseIPs snap → knows (ca_interner out.1) (Base_ProjectID e)) ∧
       ∀ e, e ∈ AmphoraBaseIPs snap → Base_ProjectID e ≠ "" →
         krows amphora' !! amphoraKey endian (ca_interner out.1) e = Some 1) ∧
  (∀ e, out.2 = Some (Some e) → ca_neutron out.1 = ca_neutron a) ∧
  ((∀ i, faultM i = None ∧ faultT i = None ∧ faultA i = None) →
     out.2 = Some None ↔ SR_Ambiguities result = [] ∨ unsafeAllow = true).
Proof. exact cold_start_done. Qed.
End first_sync.

(** ** What every pass keeps *)

Section follow.
Context `{GoRange} `{MetaStore M} {Err : Type} (endian : Endian).
Variables faultM faultT faultA : nat → option Err.
Implicit Types (r : Reconciler M).

Definition core r := (rc_src r, rc_interner r, rc_meta r, rc_macWriter r, rc_trie r).
Definition side r := (rc_amphoraIPs r, rc_routers r, rc_runs r).
Lemma core_fields r n t m k tr : core r = (n, t, m, k, tr) →
  rc_src r = n ∧ rc_interner r = t ∧ rc_meta r = m ∧ rc_macWriter r = k ∧ rc_trie r = tr.
Proof. by intros [= -> -> -> -> ->]. Qed.
Lemma side_fields r a ro ru : side r = (a, ro, ru) → rc_amphoraIPs r = a ∧ rc_routers r = ro ∧ rc_runs r = ru.
Proof. by intros [= -> -> ->]. Qed.
Lemma routers_core snap r : core (reconcileRouterMACs snap r).1 = core r.
Proof. rewrite /reconcileRouterMACs. destruct (rc_routers r); [|done]. by case_decide. Qed.
(** The router map ends as the snapshot's, swapped or found the same. *)
Lemma routers_side snap old r : rc_routers r = Some old →
  side (reconcileRouterMACs snap r).1 = (rc_amphoraIPs r, Some (RouterExtMACs snap), rc_runs r).
Proof.
  intros Er. rewrite /reconcileRouterMACs Er. case_decide as E; [|done]. rewrite /side /= Er.
  assert (old = RouterExtMACs snap) as ->; [|done].
  apply map_eq. intros x. apply dec_stable. intros Hne.
  assert (x ∈ changedRouters (RouterExtMACs snap) old) as Hin.
  { rewrite (elem_of_changedRouters (λ _, True) (λ _, True)). congruence. }
  apply size_empty_inv in E. set_solver.
Qed.
Lemma prunes_core servers projects r :
  core (pruneTenantSettled projects (pruneServerSettled servers r)) = core r ∧
  side (pruneTenantSettled projects (pruneServerSettled servers r)) = side r.
Proof. rewrite /pruneTenantSettled /pruneServerSettled. by repeat case_decide. Qed.
Lemma gauges_core trieRows amphoraRows r :
  core (refreshMapGauges trieRows amphoraRows r) = core r ∧ side (refreshMapGauges trieRows amphoraRows r) = side r.
Proof. rewrite /refreshMapGauges. by destruct (rc_bpfGauge r). Qed.

(** Every address's key is in the Amphora map, in the interner's ids. *)
Definition bases_in (t : TenantInterner) (snap : Snapshot) (km : kmap AmphoraKey Z) : Prop :=
  ∀ e, e ∈ AmphoraBaseIPs snap → Base_ProjectID e ≠ "" → krows km !! amphoraKey endian t e = Some 1.
Definition knows_bases (t : TenantInterner) (snap : Snapshot) : Prop :=
  ∀ e, e ∈ AmphoraBaseIPs snap → knows t (Base_ProjectID e).
Lemma bases_ext t t' snap km : ext t t' → knows_bases t snap →
  knows_bases t' snap ∧ (bases_in t snap km → bases_in t' snap km).
Proof.
  intros He Hk. split; [intros e Hin; eapply knows_ext; [exact He|by apply Hk]|].
  intros Hb e Hin Hne. rewrite -(Hb e Hin Hne). f_equal. rewrite /amphoraKey (tid_ext t t') //. by apply Hk.
Qed.
Lemma amphora_core snap km r : rc_amphoraIPs r = Some km → interner_ok (rc_interner r) →
  nextID (rc_interner r) + Z.of_nat (length (AmphoraBaseIPs snap)) < 2 ^ 32 →
  let r' := (reconcileAmphoraIPs endian faultA snap r).1 in
  core r' = (rc_src r, rc_interner r', rc_meta r, rc_macWriter r, rc_trie r) ∧
  interner_ok (rc_interner r') ∧ ext (rc_interner r) (rc_interner r') ∧
  ∃ km', side r' = (Some km', rc_routers r, rc_runs r) ∧ knows_bases (rc_interner r') snap ∧
    ((∀ i, faultA i = None) → bases_in (rc_interner r') snap km').
Proof.
  intros Ea Hi Hcap. cbn zeta. rewrite /reconcileAmphoraIPs Ea.
  pose proof (write_amphora faultA endian (AmphoraBaseIPs snap) km (rc_interner r) Hi Hcap) as Hw.
  destruct (WriteAmphoraBaseIPs _ _ _ _ _) as [w t']. destruct Hw as (Hi' & He' & _ & Hk & Hrows & Hf).
  split; [done|]. split; [done|]. split; [done|]. exists (w_map w). split; [done|]. split; [done|].
  intros Hn. exact (Hrows (Hf Hn)).
Qed.

(** Learning rows only adds to the interner, whatever the kernel answers. *)
Lemma learn_rows_interner routers l (c : macs M) : ms_ok (mc_meta c) → Forall (λ kv, DeleteAt kv.2 = 0) l →
  interner_ok (mc_interner c) → nextID (mc_interner c) + Z.of_nat (length l) < 2 ^ 32 →
  let c' := foldl (learnMAC faultM routers) c l in
  interner_ok (mc_interner c') ∧ ext (mc_interner c) (mc_interner c') ∧
  nextID (mc_interner c') ≤ nextID (mc_interner c) + Z.of_nat (length l).
Proof.
  induction l as [|[mac want] l IH] in c |- *; intros Hok Hall Hi Hcap.
  { split_and!; [done..|simpl; lia]. }
  apply Forall_cons in Hall as [Hlive Hall]. cbn [length] in Hcap |- *. cbn [foldl]. simpl in Hlive.
  destruct (learnMAC_view faultM routers c mac want Hok Hlive) as [Hok1 _].
  destruct (Intern_step (ProjectID want) (mc_interner c) Hi) as (Hi1 & Hle & He1 & _); [lia|].
  set (c1 := learnMAC faultM routers c (mac, want)) in *.
  assert (interner_ok (mc_interner c1) ∧ ext (mc_interner c) (mc_interner c1) ∧
    nextID (mc_interner c1) ≤ nextID (mc_interner c) + 1) as (Hi2 & He2 & Hle2).
  { destruct (learnMAC_kernel faultM routers c mac want Hok Hlive) as [(_ & Ei & _)|(Ei & _ & _)];
      fold c1 in Ei; rewrite Ei; (split; [done|]); (split; [done|lia]). }
  destruct (IH c1 Hok1 Hall Hi2) as (? & He & ?); [lia|]. split_and!; [done|by etrans|lia].
Qed.
Lemma macs_core grace snap now r meta mac :
  rc_meta r = Some meta → rc_macWriter r = Some mac → ms_ok meta → interner_ok (rc_interner r) →
  nextID (rc_interner r) + Z.of_nat (size (DesiredMACs snap)) < 2 ^ 32 →
  let r' := (reconcileMACs faultM grace snap now r).1 in
  ∃ meta' mac', core r' = (rc_src r, rc_interner r', Some meta', Some mac', rc_trie r) ∧ side r' = side r ∧
    ms_ok meta' ∧ interner_ok (rc_interner r') ∧ ext (rc_interner r) (rc_interner r') ∧
    nextID (rc_interner r') ≤ nextID (rc_interner r) + Z.of_nat (size (DesiredMACs snap)) ∧
    (dom (krows mac) ⊆ dom (ms_view meta) → dom (krows mac') ⊆ dom (ms_view meta')) ∧
    ((∀ i, faultM i = None) → mirrors (rc_interner r) (ms_view meta) (krows mac) →
       mirrors (rc_interner r') (ms_view meta') (krows mac')) ∧
    (∀ m, ms_view meta' !! m = match DesiredMACs snap !! m with
       | Some want => Some want
       | None => ghosted (DesiredMACs snap) (now + grace) m <$> ms_view meta !! m
       end).
Proof.
  intros Em Ek Hok Hi Hcap. cbn zeta.
  destruct (reconcileMACs_view faultM grace now snap r meta mac Em Ek Hok)
    as (meta' & mac' & Em' & Ek' & Hok' & Hv' & Hd' & Hmir').
  destruct (reconcileMACs_parts faultM grace now snap r meta mac Em Ek) as (_ & _ & Et & _ & Ero & Es & Ert & Eru).
  pose proof (learn_rows_interner (rc_routers r) (go_range (DesiredMACs snap))
    (mkMacs meta mac (rc_interner r) (rc_settler r) 0 0) Hok (desired_rows snap) Hi) as Hl.
  rewrite length_go_range in Hl. destruct (Hl Hcap) as (Hi' & He & Hle).
  exists meta', mac'. rewrite /core /side Em' Ek' Es Ert Ero Eru. split; [done|].
  split; [by rewrite /reconcileMACs Em Ek; destruct (ghostGoneMACs _ _ _ _) as [[? ?] ?]|].
  split; [done|]. rewrite Et. split; [exact Hi'|]. split; [exact He|]. split; [exact Hle|].
  split; [exact Hd'|]. split; [|exact Hv']. rewrite -Et. intros Hf Hm. by apply Hmir'.
Qed.

(** The store stands for a snapshot: every port it admits has its attribution, and
    any other entry is a ghost, on its way out. *)
Definition stands_for (snap : Snapshot) (view : gmap Z TenantMeta) : Prop :=
  ∀ m, match DesiredMACs snap !! m with
       | Some want => view !! m = Some want
       | None => ∀ e, view !! m = Some e → DeleteAt e ≠ 0
       end.
(** How far a reconciler is in step with one sync's result: userspace always, each
    kernel map as far as its calls did not fail. *)
Definition in_step (res : SyncResult) r : Prop :=
  ∃ meta mac amphora, core r = (rc_src r, rc_interner r, Some meta, Some mac, rc_trie r) ∧
    side r = (Some amphora, Some (RouterExtMACs (SR_Snapshot res)), rc_runs r) ∧
    ms_ok meta ∧ interner_ok (rc_interner r) ∧
    (Neutron_Trie (rc_src r) = SR_Entries res ∧ entries_ok (SR_Entries res) ∧
     knows_all (rc_interner r) (SR_Entries res) ∧ knows_bases (rc_interner r) (SR_Snapshot res)) ∧
    stands_for (SR_Snapshot res) (ms_view meta) ∧
    ("apply_error" ∉ rc_runs r → represents endian (rowsOf (rc_interner r) (SR_Entries res)) (krows (rc_trie r))) ∧
    ((∀ i, faultT i = None) → "apply_error" ∉ rc_runs r) ∧
    dom (krows mac) ⊆ dom (ms_view meta) ∧
    ((∀ i, faultM i = None) → mirrors (rc_interner r) (ms_view meta) (krows mac)) ∧
    ((∀ i, faultA i = None) → bases_in (rc_interner r) (SR_Snapshot res) amphora).
(** What a sync answers a pass: a failure, or the result of a snapshot small enough
    for the interner's remaining ids. *)
Definition fits (maxHops : Z) r (answer : Err + Snapshot) : Prop :=
  match answer with
  | inl _ => True
  | inr snap => nextID (rc_interner r) + Z.of_nat (length (SR_Entries (resultFor maxHops snap)) +
      length (Neutron_Trie (rc_src r)) + size (DesiredMACs snap) + length (AmphoraBaseIPs snap)) < 2 ^ 32
  end.
Definition synced (maxHops : Z) (answer : Err + Snapshot) : Err + SyncResult :=
  match answer with inl e => inl e | inr snap => inr (resultFor maxHops snap) end.
Notation pass grace maxHops now answer r :=
  (reconcileOnce endian faultM faultT faultA grace (synced maxHops answer) now r).

(** The result in force after a pass that left [r']: a pass that ended well puts
    its own in force. *)
Definition in_force (maxHops : Z) (answer : Err + Snapshot) r' (res : SyncResult) : SyncResult :=
  match answer with
  | inl _ => res
  | inr snap => if decide (list.last (rc_runs r') = Some "ok") then resultFor maxHops snap else res
  end.
(** A pass the fetch or the trie cuts short keeps the result in force. *)
Lemma cut_short_in_step res r r' t' tr' run : in_step res r → ext (rc_interner r) t' → interner_ok t' →
  (run = "apply_error" → ¬ ∀ i, faultT i = None) → (run = "apply_error" ∨ tr' = rc_trie r) →
  core r' = (rc_src r, t', rc_meta r, rc_macWriter r, tr') →
  side r' = (rc_amphoraIPs r, rc_routers r, rc_runs r ++ [run]) → in_step res r'.
Proof.
  intros (meta & mac & amp & Ec & Es & Hok & Hi & (Hn & Hes & Hk & Hb) & Hst & Hrep & Hnof & Hd & Hm & Ha)
    He Hi' Hrun Htr Ec' Es'.
  injection Ec as Em Ek. injection Es as Ea Er. rewrite Em Ek in Ec'. rewrite Ea Er in Es'.
  destruct (core_fields _ _ _ _ _ _ Ec') as (E1 & E2 & E3 & E4 & E5).
  destruct (side_fields _ _ _ _ Es') as (E6 & E7 & E8).
  exists meta, mac, amp. rewrite /core /side E1 E2 E3 E4 E5 E6 E7 E8.
  destruct (bases_ext _ _ (SR_Snapshot res) amp He Hb) as [Hb' Hin'].
  split_and!; try done.
  - intros e Hin. eapply knows_ext; [exact He|by apply Hk].
  - rewrite not_elem_of_app list_elem_of_singleton. intros [Hne Hne']. destruct Htr as [->| ->]; [done|].
    rewrite (rowsOf_ext (rc_interner r) t') //. by apply Hrep.
  - intros Hf. rewrite not_elem_of_app list_elem_of_singleton. split; [by apply Hnof|].
    intros E. by apply (Hrun (eq_sym E)).
  - intros Hf. eapply mirrors_ext; [exact He|by apply Hm].
  - intros Hf. by apply Hin', Ha.
Qed.
(** A pass from the moment the trie is written. *)
Definition after_trie grace now (res : SyncResult) r : Reconciler M :=
  let snap := SR_Snapshot res in
  let '(r, _) := reconcileMACs faultM grace snap now r in
  let '(r, _) := reconcileRouterMACs snap r in
  let '(r, nAmp) := reconcileAmphoraIPs endian faultA snap r in
  let r := withRun "ok" (commit res now r) in
  let r := pruneServerSettled (Servers snap) r in
  let r := pruneTenantSettled (Projects snap) r in
  refreshMapGauges (Z.of_nat (length (SR_Entries res))) nAmp r.
Lemma after_trie_fields grace now res r meta mac amp old :
  rc_meta r = Some meta → rc_macWriter r = Some mac → rc_amphoraIPs r = Some amp → rc_routers r = Some old →
  ms_ok meta → interner_ok (rc_interner r) →
  nextID (rc_interner r) + Z.of_nat (size (DesiredMACs (SR_Snapshot res)) +
    length (AmphoraBaseIPs (SR_Snapshot res))) < 2 ^ 32 →
  let r' := after_trie grace now res r in
  ∃ meta' mac' amp', core r' = (Commit res now (rc_src r), rc_interner r', Some meta', Some mac', rc_trie r) ∧
    side r' = (Some amp', Some (RouterExtMACs (SR_Snapshot res)), rc_runs r ++ ["ok"]) ∧
    ms_ok meta' ∧ interner_ok (rc_interner r') ∧ ext (rc_interner r) (rc_interner r') ∧
    knows_bases (rc_interner r') (SR_Snapshot res) ∧
    (dom (krows mac) ⊆ dom (ms_view meta) → dom (krows mac') ⊆ dom (ms_view meta')) ∧
    ((∀ i, faultM i = None) → mirrors (rc_interner r) (ms_view meta) (krows mac) →
       mirrors (rc_interner r') (ms_view meta') (krows mac')) ∧
    (∀ m, ms_view meta' !! m = match DesiredMACs (SR_Snapshot res) !! m with
       | Some want => Some want
       | None => ghosted (DesiredMACs (SR_Snapshot res)) (now + grace) m <$> ms_view meta !! m
       end) ∧
    ((∀ i, faultA i = None) → bases_in (rc_interner r') (SR_Snapshot res) amp').
Proof.
  intros Em Ek Ea Er Hok Hi Hcap. cbv zeta. rewrite /after_trie.
  destruct (macs_core grace (SR_Snapshot res) now r meta mac Em Ek Hok Hi)
    as (meta' & mac' & Ec2 & Es2 & Hok2 & Hi2 & He2 & Hle2 & Hd2 & Hm2 & Hv2); [lia|].
  destruct (reconcileMACs faultM grace _ now r) as [r2 delta]. cbn [fst] in *.
  assert (rc_routers r2 = Some old ∧ rc_amphoraIPs r2 = Some amp ∧ rc_runs r2 = rc_runs r) as (Er2 & Ea2 & Eru2).
  { injection Es2 as -> -> ->. by rewrite Er Ea. }
  pose proof (routers_core (SR_Snapshot res) r2) as Ec3. pose proof (routers_side (SR_Snapshot res) old r2 Er2) as Es3.
  destruct (reconcileRouterMACs _ r2) as [r3 n3]. cbn [fst] in Ec3, Es3. rewrite Ec2 in Ec3. clear Ec2 Es2.
  rewrite Ea2 Eru2 in Es3. injection Ec3 as Es3' Ei3 Em3 Ek3 Et3. injection Es3 as Ea3 Ero3 Eru3.
  destruct (amphora_core (SR_Snapshot res) amp r3 Ea3) as (Ec4 & Hi4 & He4 & km' & Es4 & Hb4 & Hbi4);
    [by rewrite Ei3|rewrite Ei3; lia|].
  destruct (reconcileAmphoraIPs endian faultA _ r3) as [r4 nAmp]. cbn [fst] in *.
  injection Ec4 as Es4' Em4 Ek4 Et4. injection Es4 as Ea4 Ero4 Eru4. rewrite Ei3 in He4.
  set (r5 := withRun "ok" _).
  destruct (prunes_core (Servers (SR_Snapshot res)) (Projects (SR_Snapshot res)) r5) as [Ec6 Es6].
  destruct (gauges_core (Z.of_nat (length (SR_Entries res))) nAmp
    (pruneTenantSettled (Projects (SR_Snapshot res)) (pruneServerSettled (Servers (SR_Snapshot res)) r5))) as [Ec7 Es7].
  rewrite Ec6 in Ec7. rewrite Es6 in Es7.
  change (core r5) with (Commit res now (rc_src r4), rc_interner r4, rc_meta r4, rc_macWriter r4, rc_trie r4) in Ec7.
  change (side r5) with (rc_amphoraIPs r4, rc_routers r4, rc_runs r4 ++ ["ok"]) in Es7.
  destruct (core_fields _ _ _ _ _ _ Ec7) as (_ & Ei7 & _). rewrite Ec7 Es7 Ei7.
  exists meta', mac', km'. rewrite Es4' Es3' Em4 Em3 Ek4 Ek3 Et4 Et3 Ea4 Ero4 Ero3 Eru4 Eru3.
  split_and!; try done; [by etrans|]. intros Hf Hmir. eapply mirrors_ext; [exact He4|by apply Hm2].
Qed.
Lemma pass_in_step grace maxHops now answer res0 r : in_step res0 r → fits maxHops r answer → now + grace ≠ 0 →
  in_step (in_force maxHops answer (pass grace maxHops now answer r) res0) (pass grace maxHops now answer r).
Proof.
  intros Hstep Hfit Hgrace.
  pose proof Hstep as (meta & mac & amp & Ec & Es & Hok & Hi & (Hn & Hes0 & Hk & Hb) & Hst & Hrep & Hnof & Hd & Hm & Ha).
  destruct answer as [e|snap].
  { by eapply (cut_short_in_step res0 r _ (rc_interner r) (rc_trie r) "sync_error"); [done..|right| |]. }
  pose proof (resultFor_snapshot maxHops snap) as Hsnap. pose proof (result_entries_ok maxHops snap) as Hes.
  rewrite /synced /in_force. rewrite /fits in Hfit. generalize dependent (resultFor maxHops snap).
  intros res Hsnap Hes Hfit. rewrite /reconcileOnce /fetch /applyTrie Hn. rewrite Hn in Hfit.
  destruct (apply_interner faultT endian (rc_interner r) (SR_Entries res0) (SR_Entries res) (rc_trie r) Hi
    ltac:(lia) Hk) as (Hi1 & He1 & Hk1 & _).
  pose proof (apply_nextID faultT endian (rc_interner r) (SR_Entries res0) (SR_Entries res) (rc_trie r)
    Hi ltac:(lia)) as Hle1.
  assert ("apply_error" ∉ rc_runs r → _) as Hrows by exact (λ Hne, apply_delta_rows faultT endian (rc_interner r)
    (SR_Entries res0) (SR_Entries res) (rc_trie r) Hi ltac:(lia) Hes0 Hes Hk (Hrep Hne)).
  destruct (ApplyTrieDelta _ _ _ _ _ _) as [d t1]. cbn [fst snd] in *.
  destruct (d_err d) as [derr|] eqn:Ederr.
  { cbn [withRun rc_runs]. rewrite last_snoc. destruct (decide (Some "apply_error" = Some "ok")) as [|_]; [done|].
    eapply (cut_short_in_step res0 r _ t1 (d_map d) "apply_error"); try done; [|by left].
    intros _ Hf. by specialize (proj2 (proj2 (proj2 (proj2 (Hrows (Hnof Hf))))) Hf). }
  set (r1 := mkReconciler _ _ _ _ _ _ _ _ _ _ _). fold (after_trie grace now res r1).
  assert (Hcap : nextID (rc_interner r1) + Z.of_nat (size (DesiredMACs (SR_Snapshot res)) +
    length (AmphoraBaseIPs (SR_Snapshot res))) < 2 ^ 32) by (rewrite Hsnap; simpl; lia).
  injection Ec as Em Ek. injection Es as Ea Er.
  destruct (after_trie_fields grace now res r1 meta mac amp _ Em Ek Ea Er Hok Hi1 Hcap)
    as (meta' & mac' & amp' & Ec' & Es' & Hok' & Hi' & He' & Hb' & Hd' & Hm' & Hv' & Ha').
  destruct (core_fields _ _ _ _ _ _ Ec') as (E1 & _ & _ & _ & E5). destruct (side_fields _ _ _ _ Es') as (_ & _ & E8).
  rewrite E8 last_snoc. destruct (decide (Some "ok" = Some "ok")) as [_|[]]; [|done]. exists meta', mac', amp'. rewrite E8 E5 E1. simpl in He'.
  split_and!; try done.
  - intros e Hin. eapply knows_ext; [exact He'|by apply Hk1].
  - intros m. specialize (Hv' m). rewrite Hsnap in Hv'. rewrite Hsnap. destruct (DesiredMACs snap !! m) as [want|] eqn:Ed; [done|].
    intros e. rewrite Hv'. intros (e0 & _ & ->)%fmap_Some. rewrite /ghosted. case_decide as Hc; [done|]. intros E0. by apply Hc.
  - rewrite not_elem_of_app. intros [Hne _]. rewrite (rowsOf_ext t1) //. by apply (Hrows Hne).
  - intros Hf. rewrite not_elem_of_app list_elem_of_singleton. split; [by apply Hnof|done].
  - by apply Hd'.
  - intros Hf. apply Hm'; [done|]. eapply mirrors_ext; [exact He1|by apply Hm].
Qed.

(** Any number of passes, each with its own answer, instant and live knobs. *)
Inductive passes (res0 : SyncResult) (r0 : Reconciler M) : SyncResult → Reconciler M → Prop :=
  | passes_none : passes res0 r0 res0 r0
  | passes_one res r grace maxHops now answer : passes res0 r0 res r → fits maxHops r answer → now + grace ≠ 0 →
      passes res0 r0 (in_force maxHops answer (pass grace maxHops now answer r) res) (pass grace maxHops now answer r).
Lemma in_force_ended maxHops snap r' res : list.last (rc_runs r') = Some "ok" →
  in_force maxHops (inr snap) r' res = resultFor maxHops snap.
Proof. rewrite /in_force. by case_decide. Qed.
Lemma passes_unanswered res0 r0 res r grace maxHops now e : passes res0 r0 res r → now + grace ≠ 0 →
  passes res0 r0 res (pass grace maxHops now (inl e) r).
Proof. intros Hp Hg. exact (passes_one res0 r0 res r grace maxHops now (inl e) Hp I Hg). Qed.
Lemma passes_ended res0 r0 res r grace maxHops now snap : passes res0 r0 res r → fits maxHops r (inr snap) →
  now + grace ≠ 0 → list.last (rc_runs (pass grace maxHops now (inr snap) r)) = Some "ok" →
  passes res0 r0 (resultFor maxHops snap) (pass grace maxHops now (inr snap) r).
Proof.
  intros Hp Hf Hg Hok. pose proof (passes_one res0 r0 res r grace maxHops now (inr snap) Hp Hf Hg) as Hs.
  by rewrite (in_force_ended _ _ _ _ Hok) in Hs.
Qed.
Lemma passes_in_step res0 r0 res r : in_step res0 r0 → passes res0 r0 res r → in_step res r.
Proof. induction 2; [done|by apply pass_in_step]. Qed.
End follow.

Section boot_then_passes.
Context `{GoRange} `{MetaStore M} {Err : Type} (endian : Endian).
Variables faultM faultT faultA : nat → option Err.
(** After boot, any of the kernel calls may fail. *)
Variables laterM laterT laterA : nat → option Err.
Variables (a : coldAgent M) (mac : kmap Z Z) (trie : kmap LpmKey Z) (amphora : kmap AmphoraKey Z).
Hypothesis have_maps : ca_mac a = Some mac ∧ ca_trie a = Some trie ∧ ca_amphora a = Some amphora.
Hypothesis empty_maps : krows mac = ∅ ∧ krows trie = ∅.
Hypothesis fresh : ms_ok (ca_meta a) ∧ ms_view (ca_meta a) = ∅ ∧ interner_ok (ca_interner a).
Variables (unsafeAllow cancelled : bool) (now maxHops : Z) (snap : Snapshot) (pre rest : list syncAttempt).
Notation result := (resultFor maxHops snap).
Hypothesis retried_so_far : Forall (λ s, goes_on (failureOf s)) pre.
Hypothesis capacity : nextID (ca_interner a) +
  Z.of_nat (size (DesiredMACs snap) + length (SR_Entries result) + length (AmphoraBaseIPs snap)) < 2 ^ 32.
Notation out := (coldStartNeutron endian faultM faultT faultA true unsafeAllow
  (pre ++ (inr result, cancelled) :: rest) now a).

Lemma boot_hands_over settler r0 : out.2 = Some None → wireReconcile (Err := Err) true settler out.1 = inl (Some r0) →
  in_step endian laterM laterT laterA result r0.
Proof.
  intros Hok Hwire.
  destruct (cold_start_done endian faultM faultT faultA a mac trie amphora have_maps empty_maps fresh
    unsafeAllow cancelled now maxHops snap pre rest retried_so_far capacity) as (Hgood & _ & _).
  destruct (Hgood Hok) as (Hn & Hv & Hro & _ & mac' & trie' & amp' & Hmac & Htrie & Hamp & Hst & Hkb & Hb).
  rewrite /wireReconcile Htrie Hmac Hamp in Hwire. cbn [negb] in Hwire. injection Hwire as <-.
  destruct Hst as (Hmok & Hi & Hmir & Hes & Hkn & Hrep).
  assert (Neutron_Trie (ca_neutron out.1) = SR_Entries result) as Htr by by rewrite Hn.
  rewrite Htr in Hes Hkn Hrep.
  exists (ca_meta out.1), mac', amp'. rewrite resultFor_snapshot -Hro. split_and!; try done.
  - intros m. rewrite Hv. destruct (DesiredMACs snap !! m); [done|by intros].
  - intros _. by apply not_elem_of_nil.
  - destruct Hmir as [_ ->]. by rewrite dom_fmap.
Qed.

(** C4: The kernel follows Neutron.  Take a successful cold start of a fresh agent over
    empty maps, and any number of reconcile passes, each of them answered or not, with
    any of their kernel calls failing, no ghost swept in between, interner ids left for
    the tenants they meet and ghost deadlines that are not zero; the snapshot in force is the one of the
    last pass that ran to its end, the boot's at first.  Whatever failed: the store
    holds every port the snapshot in force admits with its attribution, and any other
    entry is a ghost, marked for removal; the router map is that snapshot's; the trie
    committed is its trie; and no MAC is in the kernel that is not in the store.
    Unless a pass recorded an apply error, which none does while no trie call fails,
    the kernel trie holds exactly the rows built from the snapshot in force.  While no
    call on the MAC map fails, the kernel's MACs are exactly the store's, so the ports
    of that snapshot and the ghosts in their grace, each with its packed tenant.
    While no call on the Amphora map fails, every Amphora address of the snapshot whose
    project is known is in it.  Nothing more is claimed once a call has failed, nor that
    Amphora addresses leave: later passes need not repair a trie left half written or a
    MAC write that failed (KernelWriter.v, [stale_after_failure]; Reconcile.v,
    [failed_write_not_retried]). *)
Theorem kernel_follows_neutron settler r0 res r :
  out.2 = Some None → wireReconcile (Err := Err) true settler out.1 = inl (Some r0) →
  passes endian laterM laterT laterA result r0 res r →
  ∃ meta mac' amphora', rc_meta r = Some meta ∧ rc_macWriter r = Some mac' ∧ rc_amphoraIPs r = Some amphora' ∧
    (∀ m, match DesiredMACs (SR_Snapshot res) !! m with
          | Some want => ms_Lookup m meta = Some want
          | None => ∀ e, ms_Lookup m meta = Some e → DeleteAt e ≠ 0
          end) ∧
    rc_routers r = Some (RouterExtMACs (SR_Snapshot res)) ∧
    Neutron_Trie (rc_src r) = SR_Entries res ∧
    (∀ m, is_Some (krows mac' !! m) → is_Some (ms_Lookup m meta)) ∧
    ("apply_error" ∉ rc_runs r → represents endian (rowsOf (rc_interner r) (SR_Entries res)) (krows (rc_trie r))) ∧
    ((∀ i, laterT i = None) → "apply_error" ∉ rc_runs r) ∧
    ((∀ i, laterM i = None) → ∀ m v, krows mac' !! m = Some v ↔
       ∃ e, ms_Lookup m meta = Some e ∧ v = TenantValue (tid (rc_interner r) (ProjectID e)) (IsAmphora e)) ∧
    ((∀ i, laterA i = None) → ∀ e, e ∈ AmphoraBaseIPs (SR_Snapshot res) → Base_ProjectID e ≠ "" →
       krows amphora' !! amphoraKey endian (rc_interner r) e = Some 1).
Proof.
  intros Hok Hwire Hp. pose proof (boot_hands_over settler r0 Hok Hwire) as Hb0.
  destruct (passes_in_step endian laterM laterT laterA _ _ res r Hb0 Hp)
    as (meta & k & amp & Ec & Es & Hmok & Hi & (Htr & _) & Hst & Hrep & Hnof & Hd & Hm & Ha).
  injection Ec as Em Ek. injection Es as Ea Er. exists meta, k, amp. split_and!; try done.
  - intros m. rewrite ms_Lookup_view //. exact (Hst m).
  - intros m [v Hv]. rewrite ms_Lookup_view //. apply elem_of_dom, Hd, elem_of_dom. by exists v.
  - intros Hf m v. destruct (Hm Hf) as [_ ->]. rewrite lookup_fmap fmap_Some ms_Lookup_view //.
Qed.
End boot_then_passes.

Module ColdStartExamples.
#[local] Existing Instance list_range.
Import Demo.
Definition ok_calls : nat → option string := λ _, None.
Definition fresh_agent : coldAgent ShardedMetadataMap :=
  mkCold NewNeutron ms_new ∅ NewTenantInterner (Some (mkKmap ∅ 0 [])) (Some (mkKmap ∅ 0 []))
    (Some (mkKmap ∅ 0 [])) ∅ 0 0 [].
(** Neutron is down for two attempts. *)
Definition down : list syncAttempt :=
  [(inl (OtherErr "connection refused"), false); (inl (ErrUnexpectedResponseCode 503), false)].
Notation cold := (coldStartNeutron LittleEndian ok_calls ok_calls ok_calls true false
  (down ++ (inr (resultFor 16 snap), false) :: []) 1000 fresh_agent).
Definition tenant_ids : list (string * Z) := [("tA", 1); ("tB", 2)].
Lemma maps_there : ca_mac fresh_agent = Some (mkKmap ∅ 0 []) ∧ ca_trie fresh_agent = Some (mkKmap ∅ 0 []) ∧
  ca_amphora fresh_agent = Some (mkKmap ∅ 0 []).
Proof. split_and!; reflexivity. Qed.
Lemma maps_empty : krows (mkKmap (∅ : gmap Z Z) 0 []) = ∅ ∧ krows (mkKmap (∅ : gmap LpmKey Z) 0 []) = ∅.
Proof. split; reflexivity. Qed.
Lemma agent_fresh : ms_ok (ca_meta fresh_agent) ∧ ms_view (ca_meta fresh_agent) = ∅ ∧
  interner_ok (ca_interner fresh_agent).
Proof. split_and!; [apply ms_new_ok|apply ms_new_ok|apply NewTenantInterner_ok]. Qed.
Lemma down_goes_on : Forall (λ s, goes_on (failureOf s)) down.
Proof. repeat constructor. Qed.
Lemma snap_fits : nextID (ca_interner fresh_agent) + Z.of_nat (size (DesiredMACs snap) +
  length (SR_Entries (resultFor 16 snap)) + length (AmphoraBaseIPs snap)) < 2 ^ 32.
Proof. by vm_compute. Qed.
Lemma cold_ok : cold.2 = Some None.
Proof. vm_compute. reflexivity. Qed.
Lemma cold_start_exact_witness :
  cold.2 = Some None ∧ ms_view (ca_meta cold.1) = DesiredMACs snap.
Proof.
  split; [exact cold_ok|].
  destruct (cold_start_exact LittleEndian ok_calls ok_calls ok_calls fresh_agent _ _ _ maps_there maps_empty
    agent_fresh false false 1000 16 snap down [] down_goes_on snap_fits) as (Hgood & _).
  exact (proj1 (proj2 (Hgood cold_ok))).
Defined.
(** A missing map, and bad credentials, end the boot. *)
Example no_trie_map : (coldStartNeutron LittleEndian ok_calls ok_calls ok_calls true false
  [(inr (resultFor 16 snap), false)] 1000
  (setKernel NewTenantInterner (Some (mkKmap ∅ 0 [])) None None fresh_agent)).2 =
  Some (Some (MapMissing "subnet_zone_trie")).
Proof. vm_compute. reflexivity. Qed.
Example bad_password : (coldStartNeutron LittleEndian ok_calls ok_calls ok_calls true false
  [(inl (ErrUnexpectedResponseCode 401), false)] 1000 fresh_agent).2 =
  Some (Some (SyncErr (GaveUp (ErrUnexpectedResponseCode 401)))).
Proof. vm_compute. reflexivity. Qed.

Definition settler : GlobalState := New.
(** The reconciler wired over what the boot left. *)
Definition booted : Reconciler ShardedMetadataMap :=
  match wireReconcile (Err := string) true settler cold.1 with
  | inl (Some r) => r
  | _ => mkReconciler NewNeutron (mkKmap ∅ 0 []) None None None None None NewTenantInterner None None []
  end.
Lemma wired_up : wireReconcile (Err := string) true settler cold.1 = inl (Some booted).
Proof. by vm_compute. Qed.
(** The next snapshot: the extra route is gone. *)
Definition snap2 : Snapshot := mkSnapshot (Networks snap) (Subnets snap) (Ports snap) [] (FloatingIPs snap)
  (Projects snap) (Servers snap) (LoadBalancers snap) (Amphorae snap).
(** A pass that does not answer, then one that answers with the next snapshot and
    whose every write of the MAC map fails. *)
Definition mac_full : nat → option string := λ _, Some "E2BIG".
Notation pass1 := (reconcileOnce LittleEndian mac_full ok_calls ok_calls 60 (synced 16 (inl "timeout")) 1030 booted).
Notation pass2 := (reconcileOnce LittleEndian mac_full ok_calls ok_calls 60 (synced 16 (inr snap2)) 1060 pass1).
Lemma snap2_fits : fits (Err := string) 16 pass1 (inr snap2).
Proof. by vm_compute. Qed.
Lemma pass2_ok : list.last (rc_runs pass2) = Some "ok" ∧ "apply_error" ∉ rc_runs pass2.
Proof. split; [by vm_compute|]. apply (bool_decide_unpack _). by vm_compute. Qed.
Lemma two_passes : passes LittleEndian mac_full ok_calls ok_calls (resultFor 16 snap) booted
  (resultFor 16 snap2) pass2.
Proof.
  apply (passes_ended _ _ _ _ _ _ (resultFor 16 snap)); [|exact snap2_fits|done|apply pass2_ok].
  apply passes_unanswered; [apply passes_none|done].
Qed.
Lemma kernel_follows_neutron_witness :
  cold.2 = Some None ∧ wireReconcile (Err := string) true settler cold.1 = inl (Some booted) ∧
  passes LittleEndian mac_full ok_calls ok_calls (resultFor 16 snap) booted (resultFor 16 snap2) pass2 ∧
  represents LittleEndian (rowsOf (rc_interner pass2) (SR_Entries (resultFor 16 snap2))) (krows (rc_trie pass2)) ∧
  rc_routers pass2 = Some (RouterExtMACs (SR_Snapshot (resultFor 16 snap2))).
Proof.
  split; [exact cold_ok|]. split; [exact wired_up|]. split; [exact two_passes|].
  destruct (kernel_follows_neutron LittleEndian ok_calls ok_calls ok_calls mac_full ok_calls ok_calls
    fresh_agent _ _ _ maps_there maps_empty
    agent_fresh false false 1000 16 snap down [] down_goes_on snap_fits settler booted _ _ cold_ok wired_up two_passes)
    as (meta & mac' & amp' & _ & _ & _ & _ & Hro & _ & _ & Hrep & _).
  split; [exact (Hrep (proj2 pass2_ok))|exact Hro].
Defined.
End ColdStartExamples.
