(* ===== verification/Kick.v ===== *)
(** * Kicks and the reconcile loop (internal/kafka, [Reconciler.Kick] and [Run])

    A committed Neutron notification asks for a pass; the loop debounces such
    requests, up to a maximal wait, and runs one pass at a time.  Instants and
    durations are nanoseconds; the pass itself is in file Reconcile. *)
From S2P Require Import Prelude.
From S2P Require Import GoStrings.
From S2P Require Import GoJson.
From S2P Require Import GoArgs.

(** ** Notifications (envelope.go, consumer.go) *)

Section envelope.
(** What the standard library's decoder makes of a text. *)
Variable parseText : string → option Json.

Definition osloFields : list (field string) := [fld "oslo.message" id (λ x _, x) dec_string].
Definition innerFields : list (field (string * string)) := [
  fld "event_type" fst (λ x w, (x, w.2)) dec_string; fld "publisher_id" snd (λ x w, (w.1, x)) dec_string].
Definition decodeEvent (value : string) : option (string * string) :=
  j ← parseText value;
  message ← dec_struct osloFields j "";
  if decide (message = "") then None
  else j ← parseText message; dec_struct innerFields j ("", "").

Definition neutronPublisherPrefix : string := "network".
Definition committedSuffix : string := ".end".
Definition metadataEventPrefixes : list string := ["port."; "subnet."; "router."; "network."].
Definition isNeutronChange (eventType publisherID : string) : bool :=
  if negb (HasPrefix publisherID neutronPublisherPrefix) then false
  else if negb (HasSuffix eventType committedSuffix) then false
  else existsb (HasPrefix eventType) metadataEventPrefixes.

(** Whether a message kicks the reconciler. *)
Definition handle (value : string) : bool :=
  match decodeEvent value with
  | None => false
  | Some (eventType, publisherID) => isNeutronChange eventType publisherID
  end.
(** The consumer's loop over what the reader answers, an error or a message's
    value: an error is waited out and the loop goes on.  The kicks it makes. *)
Fixpoint consume (reads : list (unit + string)) : nat :=
  match reads with
  | [] => 0
  | inl _ :: reads => consume reads
  | inr value :: reads => ((if handle value then 1 else 0) + consume reads)%nat
  end.
End envelope.

(** ** The loop *)

Definition kickMaxWait : Z := 5 * second.

(** The kick channel holds one request at most; [settle] is when the debounce timer
    fires, while a request waits; [asked] and [started] are the instants of the
    kicks made and of the passes begun. *)
Record loop := mkLoop {
  kick : bool; settle : option Z; deadline : Z; now : Z; asked : list Z; started : list Z }.
Definition Start (now : Z) : loop := mkLoop false None 0 now [] [].

(** [Kick], from any goroutine: a request already in the channel absorbs it. *)
Definition Kick (s : loop) : loop :=
  mkLoop true (settle s) (deadline s) (now s) (now s :: asked s) (started s).
(** [timedPass]: it reads the state from this instant on. *)
Definition timedPass (s : loop) : loop :=
  mkLoop (kick s) (settle s) (deadline s) (now s) (asked s) (now s :: started s).
Definition setSettle (due : option Z) (s : loop) : loop :=
  mkLoop (kick s) due (deadline s) (now s) (asked s) (started s).
Definition setDeadline (d : Z) (s : loop) : loop :=
  mkLoop (kick s) (settle s) d (now s) (asked s) (started s).
Definition drainKick (s : loop) : loop :=
  mkLoop false (settle s) (deadline s) (now s) (asked s) (started s).

(** The three cases of the select. *)
Definition onTick (s : loop) : loop := setSettle None (timedPass s).
Definition onKick (window : Z) (s : loop) : loop :=
  let s := drainKick s in
  if decide (window ≤ 0) then timedPass s
  else
    let s := match settle s with None => setDeadline (now s + kickMaxWait) s | Some _ => s end in
    setSettle (Some (now s + Z.min window (deadline s - now s))) s.
Definition onSettle (s : loop) : loop := timedPass (setSettle None s).

(** One thing that happens: time passing (a pass takes time too), a kick, or the
    loop taking a ready case; the window is the live knob at that instant. *)
Inductive loop_step : loop → loop → Prop :=
  | at_later t s : now s ≤ t → loop_step s (mkLoop (kick s) (settle s) (deadline s) t (asked s) (started s))
  | at_kick s : loop_step s (Kick s)
  | at_tick s : loop_step s (onTick s)
  | at_drain window s : kick s = true → loop_step s (onKick window s)
  | at_settle due s : settle s = Some due → due ≤ now s → loop_step s (onSettle s).
Definition runs (t0 : Z) : loop → Prop := rtc loop_step (Start t0).

(** A kick is answered once a pass started at its instant or later. *)
Definition answered (s : loop) (k : Z) : Prop := ∃ p, p ∈ started s ∧ k ≤ p.
Definition loop_ok (s : loop) : Prop :=
  (∀ k, k ∈ asked s → k ≤ now s) ∧
  (∀ due, settle s = Some due → due ≤ deadline s ≤ now s + kickMaxWait) ∧
  (∀ k, k ∈ asked s → answered s k ∨ kick s = true ∨ is_Some (settle s)).

Lemma pass_answers s k : k ∈ asked s → (∀ k, k ∈ asked s → k ≤ now s) → answered (timedPass s) k.
Proof. intros Hk Hle. exists (now s). split; [by left|by apply Hle]. Qed.
Lemma answered_more s k : answered s k → answered (timedPass s) k.
Proof. intros (p & Hp & ?). exists p. split; [by right|done]. Qed.
Lemma loop_step_ok s s' : loop_step s s' → loop_ok s → loop_ok s' ∧ now s ≤ now s'.
Proof.
  intros Hst (Hle & Hd & Hk). destruct Hst as [t s Ht|s|s|window s Hpend|due s Hs Hdue].
  - split; [|done]. split_and!; simpl.
    + intros k Hin. specialize (Hle k Hin). lia.
    + intros due Hs. specialize (Hd due Hs). lia.
    + exact Hk.
  - split; [|done]. split_and!; simpl.
    + intros k [->|Hin]%elem_of_cons; [lia|by apply Hle].
    + exact Hd.
    + intros k _. by right; left.
  - split; [|done]. split_and!; simpl; [done|done|].
    intros k Hin. left. by apply (pass_answers s).
  - split; [|by rewrite /onKick; repeat (case_decide || case_match)].
    rewrite /onKick. case_decide as Hw.
    + split_and!; [done|done|]. intros k Hin. left. by apply (pass_answers (drainKick s)).
    + split_and!.
      * by destruct (settle s) eqn:E; rewrite /= E.
      * rewrite /kickMaxWait /second /millisecond in Hd |- *.
        destruct (settle s) as [d|] eqn:E; rewrite /= E; simpl; intros due [= <-]; [specialize (Hd d eq_refl)|]; lia.
      * intros k Hin. right. right. by eexists.
  - split; [|done]. split_and!; simpl; [done|done|].
    intros k Hin. left. by apply (pass_answers (setSettle None s)).
Qed.
Lemma runs_ok s s' : loop_ok s → rtc loop_step s s' → loop_ok s' ∧ now s ≤ now s'.
Proof.
  intros Hok Hr. induction Hr as [s|s s1 s2 H1 _ IH]; [done|].
  destruct (loop_step_ok s s1 H1 Hok) as [Hok1 ?]. destruct (IH Hok1). split; [done|lia].
Qed.

(** What was asked stays on record. *)
Lemma loop_asked s s' k : loop_step s s' → k ∈ asked s → k ∈ asked s'.
Proof.
  destruct 1 as [t s Ht|s|s|window s Hk|due s Hs Hd]; try done; [by right|].
  rewrite /onKick. case_decide; [done|]. by destruct (settle (drainKick s)).
Qed.

(** ** The loop in time

    The steps above say nothing of when the loop gets to its select.  Here a pass
    holds the loop for at most [D], and once it is back a ready case is taken before
    the clock moves on: the machine's promptness is the assumption, not a promise of
    the code.  Which ready case is taken stays open, as are the kicks, the ticks, the
    knob and each pass's length. *)
Section timed.
Variable D : Z.

(** [until]: while a pass runs, the instant it is over by. *)
Record timed := mkTimed { lp : loop; until : option Z }.
Definition at_instant (t : Z) (s : loop) : loop :=
  mkLoop (kick s) (settle s) (deadline s) t (asked s) (started s).
Definition begun (s : loop) : timed := mkTimed s (Some (now s + D)).
Inductive timed_step : timed → timed → Prop :=
  | in_pass t s u : now s ≤ t ≤ u → timed_step (mkTimed s (Some u)) (mkTimed (at_instant t s) (Some u))
  | pass_over s u : timed_step (mkTimed s (Some u)) (mkTimed s None)
  | idle t s : now s ≤ t → kick s = false → (∀ due, settle s = Some due → t ≤ due) →
      timed_step (mkTimed s None) (mkTimed (at_instant t s) None)
  | kicked s b : timed_step (mkTimed s b) (mkTimed (Kick s) b)
  | take_tick s : timed_step (mkTimed s None) (begun (onTick s))
  | take_kick window s : kick s = true → timed_step (mkTimed s None)
      (if decide (window ≤ 0) then begun (onKick window s) else mkTimed (onKick window s) None)
  | take_settle due s : settle s = Some due → due ≤ now s → timed_step (mkTimed s None) (begun (onSettle s)).
Definition timed_runs (t0 : Z) : timed → Prop := rtc timed_step (mkTimed (Start t0) None).

(** The timed loop is the loop, at the times it has. *)
Lemma timed_step_loop w w' : timed_step w w' → loop_step (lp w) (lp w') ∨ lp w' = lp w.
Proof.
  destruct 1 as [t s u Ht|s u|t s Ht _ _|s b|s|window s Hk|due s Hs Hd]; [left; apply at_later; lia|by right|left..].
  - by apply at_later.
  - apply at_kick.
  - apply at_tick.
  - case_decide; by apply at_drain.
  - by eapply at_settle.
Qed.

Lemma timed_asked w w' k : timed_step w w' → k ∈ asked (lp w) → k ∈ asked (lp w').
Proof. intros [Hl| ->]%timed_step_loop; [by apply loop_asked|done]. Qed.

(** Answered by a pass begun in time. *)
Definition answered_by (s : loop) (k : Z) : Prop := ∃ p, p ∈ started s ∧ k ≤ p ≤ k + D + kickMaxWait.
(** A kick not answered yet is in the channel, and the pass in flight, which began
    before it, is over in time; or it waits for the timer, whose deadline is in time. *)
Definition on_time (w : timed) (k : Z) : Prop :=
  answered_by (lp w) k ∨
  (kick (lp w) = true ∧ default (now (lp w)) (until w) ≤ k + D) ∨
  (is_Some (settle (lp w)) ∧ until w = None ∧ deadline (lp w) ≤ k + D + kickMaxWait ∧
   now (lp w) ≤ k + D + kickMaxWait).
Definition timed_ok (w : timed) : Prop :=
  (∀ k, k ∈ asked (lp w) → k ≤ now (lp w) ∧ on_time w k) ∧
  (∀ due, settle (lp w) = Some due → due ≤ deadline (lp w) ≤ now (lp w) + kickMaxWait) ∧
  (∀ u, until w = Some u → now (lp w) ≤ u ≤ now (lp w) + D).

(** Starting a pass answers every kick made so far, in time. *)
Lemma begun_ok w s : 0 ≤ D → timed_ok w → asked s = asked (lp w) → started s = now (lp w) :: started (lp w) →
  now s = now (lp w) → (∀ due, settle s = Some due → due ≤ deadline s ≤ now s + kickMaxWait) → timed_ok (begun s).
Proof.
  intros HD (Hk & Hd & Hu) Ha Hst Hn Hset. split_and!; simpl; [|done|intros u [= <-]; lia].
  rewrite Ha Hn. intros k Hin. destruct (Hk k Hin) as [Hle Hot]. split; [done|]. left.
  destruct Hot as [(p & Hp & ?)|[[_ Hot]|(_ & _ & _ & ?)]].
  - exists p. rewrite /= Hst. split; [by right|done].
  - exists (now (lp w)). rewrite /= Hst. split; [by left|]. split; [done|].
    rewrite /kickMaxWait /second /millisecond. destruct (until w) as [u|]; simpl in Hot; [specialize (Hu u eq_refl)|]; lia.
  - exists (now (lp w)). rewrite /= Hst. split; [by left|lia].
Qed.
Lemma in_pass_ok t s u : now s ≤ t ≤ u → timed_ok (mkTimed s (Some u)) → timed_ok (mkTimed (at_instant t s) (Some u)).
Proof.
  intros Ht (Hk & Hd & Hu). simpl in *. split_and!; simpl.
  - intros k Hin. destruct (Hk k Hin) as [Hle Hot]. split; [lia|].
    destruct Hot as [?|[?|(_ & ? & _)]]; [by left|by right; left|done].
  - intros due Hs. specialize (Hd due Hs). lia.
  - intros u' [= <-]. specialize (Hu u eq_refl). lia.
Qed.
Lemma idle_ok t s : now s ≤ t → kick s = false → (∀ due, settle s = Some due → t ≤ due) →
  timed_ok (mkTimed s None) → timed_ok (mkTimed (at_instant t s) None).
Proof.
  intros Ht Hck Hdue (Hk & Hd & Hu). simpl in *. split_and!; simpl; [| |done].
  - intros k Hin. destruct (Hk k Hin) as [Hle Hot]. split; [lia|].
    destruct Hot as [?|[[Hc _]|(Hs & _ & Hdl & _)]]; simpl in *; [by left|by rewrite Hck in Hc|].
    right; right. destruct (settle s) as [due|] eqn:E; [|by destruct Hs].
    specialize (Hd due eq_refl). specialize (Hdue due eq_refl). simpl. rewrite E. split_and!; [done|done|done|lia].
  - intros due Hs. specialize (Hd due Hs). lia.
Qed.
(** Receiving a kick with a window: the timer is set, its deadline kept or new. *)
Lemma take_kick_ok window s : 0 ≤ D → 0 < window → timed_ok (mkTimed s None) →
  timed_ok (mkTimed (onKick window s) None).
Proof.
  intros HD Hw (Hk & Hd & _). simpl in *. rewrite /onKick decide_False; [lia|].
  set (s1 := match settle (drainKick s) with None => setDeadline _ _ | Some _ => _ end).
  assert (now s1 = now s ∧ asked s1 = asked s ∧ started s1 = started s ∧ deadline s1 ≤ now s + kickMaxWait ∧
    (is_Some (settle s) → deadline s1 = deadline s)) as (En & Ea & Es & Hdl & Hkeep).
  { rewrite /s1 /=. destruct (settle s) as [due|] eqn:E; simpl.
    - destruct (Hd due eq_refl). by split_and!.
    - split_and!; [done..|lia|by intros []]. }
  split_and!; simpl; [| |done].
  - rewrite Ea En. intros k Hin. destruct (Hk k Hin) as [Hle Hot]. split; [done|].
    destruct Hot as [(p & Hp & ?)|[[_ Hot]|(Hs & _ & Hot & ?)]]; simpl in *.
    + left. exists p. by rewrite /= Es.
    + right; right. simpl. rewrite En. split_and!; [by eexists|done|lia|].
      rewrite /kickMaxWait /second /millisecond. lia.
    + right; right. simpl. rewrite En (Hkeep Hs). split_and!; [by eexists|done..].
  - rewrite En. intros due [= <-]. lia.
Qed.
Lemma timed_step_ok w w' : 0 ≤ D → timed_step w w' → timed_ok w → timed_ok w'.
Proof.
  intros HD Hst Hw. destruct Hst as [t s u Ht|s u|t s Ht Hc Hdue|s b|s|window s Hc|due s Hs Hdue].
  - by apply in_pass_ok.
  - destruct Hw as (Hk & Hd & Hu). simpl in *. split_and!; simpl; [|done|done].
    intros k Hin. destruct (Hk k Hin) as [Hle Hot]. split; [done|]. specialize (Hu u eq_refl).
    destruct Hot as [?|[[? Hot]|(_ & ? & _)]]; [by left|right; left; simpl in *; split; [done|lia]|done].
  - by apply idle_ok.
  - destruct Hw as (Hk & Hd & Hu). simpl in *. split_and!; simpl; [|done|done].
    intros k [->|Hin]%elem_of_cons.
    + split; [lia|]. right; left. split; [done|]. simpl. destruct b as [u|]; simpl; [specialize (Hu u eq_refl)|]; lia.
    + destruct (Hk k Hin) as [Hle Hot]. split; [done|].
      destruct Hot as [?|[[_ ?]|?]]; [by left|by right; left|by right; right].
  - by eapply (begun_ok (mkTimed s None)).
  - case_decide as Hwin; [|apply take_kick_ok; [done|lia|done]].
    eapply (begun_ok (mkTimed s None)); [done|done|rewrite /onKick decide_True //..].
    intros due Hs. simpl in Hs. destruct Hw as (_ & Hd & _). exact (Hd due Hs).
  - by eapply (begun_ok (mkTimed s None)).
Qed.
Lemma timed_runs_ok w w' : 0 ≤ D → timed_ok w → rtc timed_step w w' → timed_ok w'.
Proof. intros HD Hw Hr. induction Hr; eauto using timed_step_ok. Qed.

(** Idle with nothing waiting, any instant is reached; and any state gets there. *)
Lemma reaches_instant w t : ∃ w', rtc timed_step w w' ∧ t ≤ now (lp w').
Proof.
  assert (∀ s, kick s = false → settle s = None → ∃ w', rtc timed_step (mkTimed s None) w' ∧ t ≤ now (lp w')) as Hfree.
  { intros s Hk Hs. exists (mkTimed (at_instant (Z.max t (now s)) s) None). split; [|simpl; lia].
    apply rtc_once, idle; [lia|done|by rewrite Hs]. }
  assert (∀ s, kick s = false → ∃ w', rtc timed_step (mkTimed s None) w' ∧ t ≤ now (lp w')) as Hwait.
  { intros s Hk. destruct (settle s) as [due|] eqn:E; [|by apply Hfree].
    assert (rtc timed_step (mkTimed s None) (mkTimed (at_instant (Z.max due (now s)) s) None)) as Hr.
    { destruct (decide (now s ≤ due)); [rewrite Z.max_l; [lia|]|rewrite Z.max_r; [lia|]].
      - apply rtc_once, idle; [done|done|]. rewrite E. intros ? [= <-]. lia.
      - by destruct s. }
    set (s1 := at_instant _ s) in *. destruct (Hfree (onSettle s1)) as (w' & Hr' & Ht); [done|done|].
    exists w'. split; [|done]. etrans; [exact Hr|]. eapply rtc_l; [apply (take_settle due); [done|simpl; lia]|].
    eapply rtc_l; [apply pass_over|]. exact Hr'. }
  assert (∀ s, ∃ w', rtc timed_step (mkTimed s None) w' ∧ t ≤ now (lp w')) as Hidle.
  { intros s. destruct (kick s) eqn:Hk; [|by apply Hwait].
    pose proof (take_kick 1 s Hk) as Hst. destruct (decide (1 ≤ 0)) as [|_] in Hst; [lia|].
    destruct (Hwait (onKick 1 s)) as (w' & Hr & Ht); [rewrite /onKick; case_decide; [lia|]; by destruct (settle (drainKick s))|].
    exists w'. split; [|done]. by eapply rtc_l. }
  destruct w as [s [u|]]; [|apply Hidle].
  destruct (Hidle s) as (w' & Hr & Ht). exists w'. split; [|done]. eapply rtc_l; [apply pass_over|done].
Qed.
End timed.

(** C12: No kick is lost, and none waits long.  Whatever the scheduling, a kick made
    so far is answered by a pass started since, or is in the channel, or waits for the
    debounce timer.  And when a pass lasts at most [D] and the loop takes a ready case
    without delay, which of them being open, then however many kicks keep coming and
    whatever the knob is set to, every kick is answered by a pass started no later than
    [D] and five seconds after it: until then it is pending, and past that instant it
    is answered.  The bound is not one of a clock that stands still: from every state
    any later instant is reached. *)
Theorem kicks_answered t0 :
  (∀ s, runs t0 s → ∀ k, k ∈ asked s → answered s k ∨ kick s = true ∨ is_Some (settle s)) ∧
  ∀ D w, 0 ≤ D → timed_runs D t0 w →
    (∀ k, k ∈ asked (lp w) →
       (∃ p, p ∈ started (lp w) ∧ k ≤ p ≤ k + D + kickMaxWait) ∨
       ((kick (lp w) = true ∨ is_Some (settle (lp w))) ∧ now (lp w) ≤ k + D + kickMaxWait)) ∧
    (∀ k, k ∈ asked (lp w) → ∀ w', rtc (timed_step D) w w' → k + D + kickMaxWait < now (lp w') →
       ∃ p, p ∈ started (lp w') ∧ k ≤ p ≤ k + D + kickMaxWait) ∧
    ∀ t, ∃ w', rtc (timed_step D) w w' ∧ t ≤ now (lp w').
Proof.
  split.
  { intros s Hs. destruct (runs_ok (Start t0) s) as [Hok _]; [|done|apply Hok].
    split_and!; simpl; [|done|]; intros k Hk; by apply elem_of_nil in Hk. }
  intros D w HD Hr. assert (timed_ok D (mkTimed (Start t0) None)) as H0.
  { split_and!; simpl; [|done|done]. intros k Hk. by apply elem_of_nil in Hk. }
  assert (∀ w k, timed_ok D w → k ∈ asked (lp w) → answered_by D (lp w) k ∨
    ((kick (lp w) = true ∨ is_Some (settle (lp w))) ∧ now (lp w) ≤ k + D + kickMaxWait)) as Hgo.
  { intros w1 k (Hk & _ & Hu) Hin. destruct (Hk k Hin) as [_ [?|[[? Hot]|(? & _ & _ & ?)]]]; [by left|right..].
    - split; [by left|]. rewrite /kickMaxWait /second /millisecond.
      destruct (until w1) as [u|]; simpl in Hot; [specialize (Hu u eq_refl)|]; lia.
    - split; [by right|done]. }
  pose proof (timed_runs_ok D _ w HD H0 Hr) as Hw. split_and!.
  - intros k. by apply Hgo.
  - intros k Hin w' Hr' Hlt. destruct (Hgo w' k) as [?|[_ ?]]; [by eapply timed_runs_ok| |done|lia].
    clear -Hin Hr'. induction Hr' as [w|w w1 w2 H1 _ IH]; [done|]. apply IH. by eapply timed_asked.
  - apply reaches_instant.
Qed.

(** ** A burst costs one pass *)

(** The loop receives kicks at these instants, with a window the same throughout. *)
Definition receive (window : Z) (s : loop) (t : Z) : loop :=
  onKick window (Kick (mkLoop (kick s) (settle s) (deadline s) t (asked s) (started s))).
Lemma burst_waits window first ts t s : 0 < window →
  settle s = Some (Z.min (now s + window) (first + kickMaxWait)) → deadline s = first + kickMaxWait →
  let s' := foldl (receive window) s (ts ++ [t]) in
  settle s' = Some (Z.min (t + window) (first + kickMaxWait)) ∧
  deadline s' = first + kickMaxWait ∧ now s' = t ∧ started s' = started s ∧ kick s' = false.
Proof.
  intros Hw. induction ts as [|u ts IH] in s |- *; intros Hs Hd.
  - simpl. rewrite /receive /onKick decide_False; [lia|]. simpl. rewrite Hs /= Hd. split_and!; try done.
    f_equal. lia.
  - cbn [foldl app]. assert (receive window s u =
      mkLoop false (Some (Z.min (u + window) (first + kickMaxWait))) (first + kickMaxWait) u
        (u :: asked s) (started s)) as Eu.
    { rewrite /receive /onKick decide_False; [lia|]. rewrite /= Hs /setSettle /= Hd. do 2 f_equal. lia. }
    rewrite Eu. exact (IH (mkLoop _ _ _ _ _ _) eq_refl eq_refl).
Qed.
Lemma burst_state window t0 ts : 0 < window →
  let s := foldl (receive window) (Start t0) (t0 :: ts) in
  started s = [] ∧ kick s = false ∧ deadline s = t0 + kickMaxWait ∧
  settle s = Some (Z.min (default t0 (list.last ts) + window) (t0 + kickMaxWait)).
Proof.
  intros Hw s. assert (receive window (Start t0) t0 =
    mkLoop false (Some (Z.min (t0 + window) (t0 + kickMaxWait))) (t0 + kickMaxWait) t0 [t0] []) as E0.
  { rewrite /receive /onKick decide_False; [lia|]. rewrite /= /setSettle /setDeadline /=. do 2 f_equal. lia. }
  rewrite /s. cbn [foldl]. rewrite E0. destruct ts as [|u ts _] using rev_ind; [done|].
  destruct (burst_waits window t0 ts u (mkLoop false (Some (Z.min (t0 + window) (t0 + kickMaxWait)))
    (t0 + kickMaxWait) t0 [t0] [])) as (E1 & E2 & _ & E4 & E5); [done..|].
  by rewrite last_snoc /= E1 E2 E4 E5.
Qed.
(** A burst: each kick comes within the window of the one before it, and all within
    the maximal wait of the first. *)
Definition burst (window t0 : Z) (ts : list Z) : Prop :=
  ∀ l1 u l2, ts = l1 ++ u :: l2 →
    default t0 (list.last l1) ≤ u < Z.min (default t0 (list.last l1) + window) (t0 + kickMaxWait).
Lemma burst_le window t0 ts k : burst window t0 ts → k ∈ t0 :: ts → k ≤ default t0 (list.last ts).
Proof.
  induction ts as [|u ts IH] using rev_ind; intros Hb.
  { intros ->%list_elem_of_singleton. simpl. lia. }
  destruct (Hb ts u [] eq_refl) as [Hle _]. rewrite last_snoc /= app_comm_cons elem_of_app list_elem_of_singleton.
  intros [Hk| ->]; [|lia]. transitivity (default t0 (list.last ts)); [|done]. apply IH; [|done].
  intros l1 v l2 ->. apply (Hb l1 v (l2 ++ [u])). by rewrite -app_assoc.
Qed.
(** A burst of kicks costs one pass.  Between two kicks of the burst the timer
    is not due, so none starts; after the last it is due a window later, or five
    seconds after the first if that is sooner; and the pass that then starts answers
    every kick of the burst and leaves nothing waiting. *)
Theorem burst_costs_one_pass window t0 ts : 0 < window → burst window t0 ts →
  let state l := foldl (receive window) (Start t0) (t0 :: l) in
  (∀ l1 u l2 t, ts = l1 ++ u :: l2 → t ≤ u →
     started (state l1) = [] ∧ ∀ due, settle (state l1) = Some due → t < due) ∧
  settle (state ts) = Some (Z.min (default t0 (list.last ts) + window) (t0 + kickMaxWait)) ∧
  ∀ t, default t0 (list.last ts) ≤ t →
    let s := state ts in
    let s' := onSettle (mkLoop (kick s) (settle s) (deadline s) t (asked s) (started s)) in
    started s' = [t] ∧ settle s' = None ∧ kick s' = false ∧ ∀ k, k ∈ t0 :: ts → answered s' k.
Proof.
  intros Hw Hb state. split_and!.
  - intros l1 u l2 t E Ht. destruct (burst_state window t0 l1 Hw) as (Hst & _ & _ & Hse).
    split; [exact Hst|]. intros due. rewrite Hse. intros [= <-]. specialize (Hb l1 u l2 E). lia.
  - apply (burst_state window t0 ts Hw).
  - intros t Ht. destruct (burst_state window t0 ts Hw) as (Hst & Hki & _). cbv zeta.
    fold (state ts) in Hst, Hki. rewrite /onSettle /setSettle /timedPass /= Hst Hki. split_and!; try done.
    intros k Hk. exists t. split; [by left|]. pose proof (burst_le window t0 ts k Hb Hk). lia.
Qed.

Module KickExamples.
(** A file [Oslo messaging] would send, as the decoder sees it. *)
Definition outer : string := "{outer}".
Definition inner : string := "{inner}".
Definition texts (eventType : string) (s : string) : option Json :=
  if decide (s = outer) then Some (JObj [("oslo.version", JStr "2.0"); ("oslo.message", JStr inner)])
  else if decide (s = inner) then Some (JObj [("event_type", JStr eventType); ("publisher_id", JStr "network.ctl1")])
  else None.
Example committed_port : handle (texts "port.create.end") outer = true.
Proof. by vm_compute. Qed.
Example started_port : handle (texts "port.create.start") outer = false.
Proof. by vm_compute. Qed.
Example other_service : handle (texts "floatingip.create.end") outer = false.
Proof. by vm_compute. Qed.
Example garbage : consume (texts "port.create.end") [inr "x"; inl (); inr outer; inr outer] = 2%nat.
Proof. by vm_compute. Qed.

(** Three kicks half a second apart, with a window of one. *)
Definition ms (n : Z) : Z := n * millisecond.
Definition three : list Z := [ms 500; ms 1000].
Lemma three_burst : burst (ms 1000) 0 three.
Proof.
  intros l1 u l2 E. destruct l1 as [|a [|b [|c l1]]]; [| | |by destruct l1]; injection E as; subst; simpl.
  - rewrite /ms /millisecond /kickMaxWait /second /millisecond. lia.
  - rewrite /ms /millisecond /kickMaxWait /second /millisecond. lia.
  - done.
Qed.
Lemma burst_costs_one_pass_witness :
  0 < ms 1000 ∧ burst (ms 1000) 0 three ∧
  settle (foldl (receive (ms 1000)) (Start 0) (0 :: three)) = Some (ms 2000).
Proof.
  assert (0 < ms 1000) as Hw by reflexivity. split; [exact Hw|]. split; [exact three_burst|].
  destruct (burst_costs_one_pass (ms 1000) 0 three Hw three_burst) as (_ & Hs & _).
  rewrite Hs. reflexivity.
Defined.
(** A pass of two seconds is running; a kick comes half a second into it. *)
Definition D : Z := ms 2000.
Definition kicked_in_pass : timed :=
  mkTimed (Kick (at_instant (ms 500) (onTick (Start 0)))) (Some D).
Lemma kicked_in_pass_runs : timed_runs D 0 kicked_in_pass.
Proof.
  eapply rtc_l; [apply take_tick|]. eapply rtc_l; [apply (in_pass D (ms 500)); vm_compute; split; discriminate|].
  apply rtc_once, kicked.
Qed.
(** The pass over, the kick is taken, waits its window out and is answered. *)
Definition answered_run : timed :=
  begun D (onSettle (at_instant (ms 3000) (onKick (ms 1000) (at_instant (ms 2000) (lp kicked_in_pass))))).
Lemma answered_run_runs : rtc (timed_step D) kicked_in_pass answered_run.
Proof.
  eapply rtc_l; [apply (in_pass D (ms 2000)); vm_compute; split; discriminate|].
  eapply rtc_l; [apply pass_over|]. eapply rtc_l; [by apply (take_kick D (ms 1000))|].
  eapply rtc_l; [apply (idle D (ms 3000)); [by vm_compute|done|intros ? [= <-]; by vm_compute]|].
  apply rtc_once. by apply (take_settle D (ms 3000)).
Qed.
Lemma kicks_answered_witness :
  0 ≤ D ∧ timed_runs D 0 kicked_in_pass ∧ rtc (timed_step D) kicked_in_pass answered_run ∧
  (kick (lp kicked_in_pass) = true ∨ is_Some (settle (lp kicked_in_pass))) ∧
  ∃ w, rtc (timed_step D) kicked_in_pass w ∧ ms 8000 ≤ now (lp w) ∧
    ∃ p, p ∈ started (lp w) ∧ ms 500 ≤ p ≤ ms 500 + D + kickMaxWait.
Proof.
  assert (0 ≤ D) as HD by (by vm_compute). split; [exact HD|]. split; [exact kicked_in_pass_runs|].
  split; [exact answered_run_runs|]. split; [by left|].
  destruct (kicks_answered 0) as [_ H]. destruct (H D _ HD kicked_in_pass_runs) as (_ & Hin & Hlater).
  destruct (Hlater (ms 8000)) as (w & Hr & Ht). exists w. split; [exact Hr|]. split; [exact Ht|].
  apply Hin; [by left|exact Hr|]. eapply Z.lt_le_trans; [|exact Ht]. by vm_compute.
Defined.
End KickExamples.
