(* ===== verification/TcAttach.v ===== *)
(** * Attaching the telemetry programs (internal/tcattach, internal/zombie)

    Replacing the clsact qdisc and the two BPF filters of a link, the roll-back of
    a half-done attach, the question whether a link carries the pair, and the hunt
    for filters a crashed agent left.  The netlink library and the kernel's traffic
    control behind it are the interface [TcKernel]; what the code relies on is
    stated by [TcLaws]: a call changes what it names or, when it fails, nothing,
    and a link may vanish with its filters during any call. *)
From S2P Require Import Prelude.

(** ** The netlink library's values *)

Record NetLink := mkLink { Index : Z; LName : string; LType : string }.
Record FilterAttrs := mkAttrs {
  LinkIndex : Z; Parent : Z; Handle : Z; Priority : Z; Protocol : Z }.
Record BpfFilter := mkBpf { BAttrs : FilterAttrs; Fd : Z; BName : string; DirectAction : bool }.
(** A filter as the library's interface value: a BPF filter or any other kind. *)
Inductive Filter := FBpf (f : BpfFilter) | FOther (a : FilterAttrs) (kind : string).
Record GenericQdisc := mkQdisc { QLinkIndex : Z; QHandle : Z; QParent : Z; QdiscType : string }.
#[export] Instance NetLink_dec : EqDecision NetLink. Proof. solve_decision. Defined.
#[export] Instance FilterAttrs_dec : EqDecision FilterAttrs. Proof. solve_decision. Defined.
#[export] Instance BpfFilter_dec : EqDecision BpfFilter. Proof. solve_decision. Defined.
#[export] Instance Filter_dec : EqDecision Filter. Proof. solve_decision. Defined.

Definition Attrs (f : Filter) : FilterAttrs :=
  match f with FBpf b => BAttrs b | FOther a _ => a end.
(** What a dump shows of a filter: its attributes and, for a BPF filter, its name
    (not the descriptor it was installed through). *)
Definition shown (f : Filter) : FilterAttrs * option string :=
  (Attrs f, match f with FBpf b => Some (BName b) | FOther _ _ => None end).

Inductive dumpErr := ErrDumpInterrupted | DumpFailed (e : string).
#[export] Instance dumpErr_dec : EqDecision dumpErr. Proof. solve_decision. Defined.

(** The calls.  [K] is the kernel with whatever decides what the calls answer. *)
Class TcKernel (K : Type) := {
  HANDLE_CLSACT : Z; HANDLE_MIN_INGRESS : Z; HANDLE_MIN_EGRESS : Z; ETH_P_ALL : Z;
  MakeHandle : Z → Z → Z;
  QdiscReplace : GenericQdisc → K → K * option string;
  FilterReplace : BpfFilter → K → K * option string;
  FilterDel : Filter → K → K * option string;
  FilterList : Z → Z → K → K * (list Filter * option dumpErr);
  LinkList : K → K * (list NetLink * option dumpErr);
  (** Whether looking the index up answers that no such link exists. *)
  LinkNotFound : Z → K → K * bool }.

(** The filters there were, with one put in its slot or one slot emptied. *)
Definition put (f : Filter) (S : Filter → Prop) (g : Filter) : Prop :=
  g = f ∨ S g ∧ Attrs g ≠ Attrs f.
Definition cut (a : FilterAttrs) (S : Filter → Prop) (g : Filter) : Prop := S g ∧ Attrs g ≠ a.

Class TcLaws (K : Type) `{TcKernel K} := {
  holds : K → Filter → Prop;
  gone : K → Z → Prop;
  hooks_differ : HANDLE_MIN_INGRESS ≠ HANDLE_MIN_EGRESS;
  holds_present k g : holds k g → ¬ gone k (LinkIndex (Attrs g));
  slot_unique k g g' : holds k g → holds k g' → Attrs g = Attrs g' → g = g';
  qdisc_law q k k' err : QdiscReplace q k = (k', err) →
    (∀ i, gone k i → gone k' i) ∧ ∀ g, holds k' g ↔ holds k g ∧ ¬ gone k' (LinkIndex (Attrs g));
  replace_law f k k' err : FilterReplace f k = (k', err) →
    (∀ i, gone k i → gone k' i) ∧ ∀ g, holds k' g ↔
      match err with None => put (FBpf f) (holds k) g | Some _ => holds k g end ∧
      ¬ gone k' (LinkIndex (Attrs g));
  del_law f k k' err : FilterDel f k = (k', err) →
    (∀ i, gone k i → gone k' i) ∧ ∀ g, holds k' g ↔
      match err with None => cut (Attrs f) (holds k) g | Some _ => holds k g end ∧
      ¬ gone k' (LinkIndex (Attrs g));
  list_law i p k k' fs err : FilterList i p k = (k', (fs, err)) →
    (∀ i, gone k i → gone k' i) ∧
    (∀ g, holds k' g ↔ holds k g ∧ ¬ gone k' (LinkIndex (Attrs g))) ∧
    (∀ f, f ∈ fs → LinkIndex (Attrs f) = i ∧ Parent (Attrs f) = p ∧
       ∃ g, holds k g ∧ shown g = shown f) ∧
    (err = None → ∀ g, holds k g → LinkIndex (Attrs g) = i → Parent (Attrs g) = p →
       shown g ∈ shown <$> fs);
  links_law k k' ls err : LinkList k = (k', (ls, err)) →
    (∀ i, gone k i → gone k' i) ∧ (∀ g, holds k' g ↔ holds k g ∧ ¬ gone k' (LinkIndex (Attrs g))) ∧
    (err = None → NoDup (Index <$> ls) ∧ ∀ g, holds k g → LinkIndex (Attrs g) ∈ Index <$> ls);
  lookup_law i k k' b : LinkNotFound i k = (k', b) →
    (∀ i, gone k i → gone k' i) ∧ (∀ g, holds k' g ↔ holds k g ∧ ¬ gone k' (LinkIndex (Attrs g))) ∧
    (b = true → gone k' i) }.

(** ** tcattach *)

Definition Direction : Type := Z.
Definition Ingress : Direction := 0.
Definition Egress : Direction := 1.
Definition FilterHandle : Z := 1.
Definition FilterPriority : Z := 1.
Definition FilterIngressName : string := "telemetry_in".
Definition FilterEgressName : string := "telemetry_out".
Record Hook := mkHook { HName : string; HParent : Z }.

Section tcattach.
Context {K : Type} `{!TcKernel K}.
Implicit Types k : K.

Definition Hooks : list Hook :=
  [mkHook FilterIngressName HANDLE_MIN_INGRESS; mkHook FilterEgressName HANDLE_MIN_EGRESS].
Definition IsTelemetryFilterName (name : string) : bool :=
  existsb (λ h, bool_decide (name = HName h)) Hooks.

Definition clsactHandle : Z := MakeHandle 0xffff 0.
Definition ensureClsact (link : NetLink) (k : K) : K * option string :=
  QdiscReplace (mkQdisc (Index link) clsactHandle HANDLE_CLSACT "clsact") k.
Definition parentTCHandle (dir : Direction) : option Z :=
  if decide (dir = Ingress) then Some HANDLE_MIN_INGRESS
  else if decide (dir = Egress) then Some HANDLE_MIN_EGRESS
  else None.
(** The slot a direction's filter lives in. *)
Definition slotAt (link : NetLink) (parent : Z) : FilterAttrs :=
  mkAttrs (Index link) parent FilterHandle FilterPriority ETH_P_ALL.
Definition badDirection : string := "tcattach: bad direction".
Definition replaceFilter (link : NetLink) (prog : Z) (dir : Direction) (name : string) (k : K)
    : K * option string :=
  match parentTCHandle dir with
  | None => (k, Some badDirection)
  | Some parent => FilterReplace (mkBpf (slotAt link parent) prog name true) k
  end.
Definition removeFilter (link : NetLink) (dir : Direction) (k : K) : K * option string :=
  match parentTCHandle dir with
  | None => (k, Some badDirection)
  | Some parent => FilterDel (FBpf (mkBpf (slotAt link parent) 0 "" false)) k
  end.
Definition Replace (link : NetLink) (prog : Z) (dir : Direction) (name : string) (k : K)
    : K * option string :=
  let '(k, err) := ensureClsact link k in
  match err with
  | Some e => (k, Some e)
  | None => replaceFilter link prog dir name k
  end.
(** The error, and whether the roll-back failed too (the warning it logs). *)
Definition AttachTelemetry (link : NetLink) (ingress egress : Z) (k : K)
    : K * (option string * bool) :=
  let '(k, err) := Replace link ingress Ingress FilterIngressName k in
  match err with
  | Some e => (k, (Some e, false))
  | None =>
      let '(k, err) := Replace link egress Egress FilterEgressName k in
      match err with
      | Some e =>
          let '(k, rerr) := removeFilter link Ingress k in
          (k, (Some e, bool_decide (rerr ≠ None)))
      | None => (k, (None, false))
      end
  end.

Definition telemetryFilter (f : Filter) : option BpfFilter :=
  match f with
  | FBpf bf => if IsTelemetryFilterName (BName bf) then Some bf else None
  | FOther _ _ => None
  end.
(** One retry of an interrupted dump; another error yields nothing. *)
Definition hookFilters (link : NetLink) (parent : Z) (k : K)
    : K * (list BpfFilter * option dumpErr) :=
  let '(k, (filters, err)) := FilterList (Index link) parent k in
  let '(k, (filters, err)) :=
    if decide (err = Some ErrDumpInterrupted) then FilterList (Index link) parent k
    else (k, (filters, err)) in
  match err with
  | Some (DumpFailed _) => (k, ([], None))
  | _ => (k, (omap telemetryFilter filters, err))
  end.
Fixpoint telemetryOn (link : NetLink) (hooks : list Hook) (k : K) : K * list BpfFilter :=
  match hooks with
  | [] => (k, [])
  | h :: hooks =>
      let '(k, (fs, _)) := hookFilters link (HParent h) k in
      let '(k, out) := telemetryOn link hooks k in
      (k, fs ++ out)
  end.
Definition TelemetryFilters (link : NetLink) : K → K * list BpfFilter := telemetryOn link Hooks.
Definition inSlot (h : Hook) (f : BpfFilter) : bool :=
  bool_decide (BName f = HName h ∧ Handle (BAttrs f) = FilterHandle ∧
    Priority (BAttrs f) = FilterPriority).
Fixpoint hasOn (link : NetLink) (hooks : list Hook) (k : K) : K * (bool * option dumpErr) :=
  match hooks with
  | [] => (k, (true, None))
  | h :: hooks =>
      let '(k, (fs, err)) := hookFilters link (HParent h) k in
      match err with
      | Some e => (k, (false, Some e))
      | None => if existsb (inSlot h) fs then hasOn link hooks k else (k, (false, None))
      end
  end.
Definition HasTelemetry (link : NetLink) : K → K * (bool * option dumpErr) := hasOn link Hooks.

(** ** The zombie hunt *)

Inductive huntErr := ListLinksFailed (e : dumpErr) | DeletesFailed (es : list string).
(** One delete, on the kernel, the count and the failures so far. *)
Definition reap (acc : K * (Z * list string)) (f : BpfFilter) : K * (Z * list string) :=
  let '(k, (cleaned, delErrs)) := acc in
  let '(k, derr) := FilterDel (FBpf f) k in
  match derr with
  | Some e => (k, (cleaned, delErrs ++ [e]))
  | None => (k, (cleaned + 1, delErrs))
  end.
Definition huntLink (acc : K * (Z * list string)) (link : NetLink) : K * (Z * list string) :=
  let '(k, res) := acc in
  let '(k, fs) := TelemetryFilters link k in
  foldl reap (k, res) fs.
Definition Hunt (k : K) : K * (Z * option huntErr) :=
  let '(k, (links, err)) := LinkList k in
  match err with
  | Some e => (k, (0, Some (ListLinksFailed e)))
  | None =>
      let '(k, (cleaned, delErrs)) := foldl huntLink (k, (0, [])) links in
      (k, (cleaned, match delErrs with [] => None | _ => Some (DeletesFailed delErrs) end))
  end.
End tcattach.

(** ** How the filters evolve *)

Section laws.
Context {K : Type} `{HK : !TcKernel K} `{HL : !TcLaws K}.
Implicit Types k : K.

(** From [k] to [k'] the filters become [S], less those of vanished links. *)
Definition evolves (k k' : K) (S : Filter → Prop) : Prop :=
  (∀ i, gone k i → gone k' i) ∧ ∀ g, holds k' g ↔ S g ∧ ¬ gone k' (LinkIndex (Attrs g)).
Definition quiet (k k' : K) : Prop := evolves k k' (holds k).
(** The filter the attach installs on a hook. *)
Definition installed (link : NetLink) (parent prog : Z) (name : string) : Filter :=
  FBpf (mkBpf (slotAt link parent) prog name true).
Definition ingressFilter (link : NetLink) (prog : Z) : Filter :=
  installed link HANDLE_MIN_INGRESS prog FilterIngressName.
Definition egressFilter (link : NetLink) (prog : Z) : Filter :=
  installed link HANDLE_MIN_EGRESS prog FilterEgressName.
(** A link carries the pair: on each hook a BPF filter of the hook's name in the
    attach slot. *)
Definition carries (k : K) (i : Z) : Prop := ∀ h, h ∈ Hooks → ∃ f, holds k (FBpf f) ∧
  LinkIndex (BAttrs f) = i ∧ Parent (BAttrs f) = HParent h ∧ inSlot h f = true.
(** A filter of the agent's on a hook of the agent's. *)
Definition telemetryNamed (g : Filter) : Prop := ∃ f, g = FBpf f ∧
  IsTelemetryFilterName (BName f) = true ∧ Parent (BAttrs f) ∈ HParent <$> Hooks.

Lemma quiet_refl k : quiet k k.
Proof. split; [done|]. intros g. pose proof (holds_present k g). naive_solver. Qed.
Lemma evolves_quiet k k1 k2 S : evolves k k1 S → quiet k1 k2 → evolves k k2 S.
Proof.
  intros [G1 H1] [G2 H2]. split; [by eauto|]. intros g. specialize (H1 g). specialize (H2 g).
  specialize (G2 (LinkIndex (Attrs g))). tauto.
Qed.
Lemma evolves_put k k1 k2 S f : evolves k k1 S → evolves k1 k2 (put f (holds k1)) →
  evolves k k2 (put f S).
Proof.
  intros [G1 H1] [G2 H2]. split; [by eauto|]. intros g. specialize (H1 g). specialize (H2 g).
  specialize (G2 (LinkIndex (Attrs g))). rewrite /put in H2 *. tauto.
Qed.
Lemma evolves_cut k k1 k2 S a : evolves k k1 S → evolves k1 k2 (cut a (holds k1)) →
  evolves k k2 (cut a S).
Proof.
  intros [G1 H1] [G2 H2]. split; [by eauto|]. intros g. specialize (H1 g). specialize (H2 g).
  specialize (G2 (LinkIndex (Attrs g))). rewrite /cut in H2 *. tauto.
Qed.
Lemma evolves_ext k k' S S' : (∀ g, S g ↔ S' g) → evolves k k' S → evolves k k' S'.
Proof. intros E [G H]. split; [done|]. intros g. by rewrite H E. Qed.
Lemma put_ext f S S' g : (S g ↔ S' g) → put f S g ↔ put f S' g.
Proof. rewrite /put. tauto. Qed.

Lemma Replace_spec link prog dir name p k k' err : parentTCHandle dir = Some p →
  Replace link prog dir name k = (k', err) →
  evolves k k' (match err with
    | None => put (installed link p prog name) (holds k)
    | Some _ => holds k end).
Proof.
  intros Hp. rewrite /Replace /ensureClsact. destruct (QdiscReplace _ k) as [k1 [e|]] eqn:E1;
    apply qdisc_law in E1.
  - by intros [= <- <-].
  - rewrite /replaceFilter Hp. intros E2. apply replace_law in E2. destruct err.
    + by apply (evolves_quiet k k1).
    + by apply (evolves_put k k1).
Qed.
Lemma slots_differ link f : Attrs f = slotAt link HANDLE_MIN_INGRESS →
  Attrs f ≠ slotAt link HANDLE_MIN_EGRESS.
Proof. intros ->. intros [= E]. by apply hooks_differ in E. Qed.

Lemma AttachTelemetry_cases link ingress egress k k' err warned :
  AttachTelemetry link ingress egress k = (k', (err, warned)) →
  match err, warned with
  | None, _ => warned = false ∧
      evolves k k' (put (egressFilter link egress) (put (ingressFilter link ingress) (holds k)))
  | Some _, false => quiet k k' ∨ evolves k k' (cut (slotAt link HANDLE_MIN_INGRESS) (holds k))
  | Some _, true => evolves k k' (put (ingressFilter link ingress) (holds k))
  end.
Proof.
  rewrite /AttachTelemetry. destruct (Replace _ _ Ingress _ k) as [k1 [e|]] eqn:E1;
    apply (Replace_spec _ _ _ _ HANDLE_MIN_INGRESS) in E1; [|done| |done].
  { intros [= <- <- <-]. by left. }
  destruct (Replace _ _ Egress _ k1) as [k2 [e|]] eqn:E2;
    apply (Replace_spec _ _ _ _ HANDLE_MIN_EGRESS) in E2; [|done| |done].
  - pose proof (evolves_quiet _ _ _ _ E1 E2) as E12.
    rewrite /removeFilter /=. destruct (FilterDel _ k2) as [k3 rerr] eqn:E3.
    apply del_law in E3. intros [= <- <- <-]. destruct rerr as [e'|]; simpl.
    + by apply (evolves_quiet k k2).
    + right. apply (evolves_ext _ _ (cut (slotAt link HANDLE_MIN_INGRESS)
        (put (ingressFilter link ingress) (holds k)))); [|by apply (evolves_cut k k2)].
      intros g. rewrite /cut /put /=. split; [|tauto]. intros [[->|[? _]] Hne]; done.
  - intros [= <- <- <-]. split; [done|]. by apply (evolves_put k k1).
Qed.
(** C35: Attaching is all or nothing, up to the roll-back.  Whatever the kernel
    answers, the attach touches no filter outside the link's two slots (a link
    vanishing apart).  When it succeeds, the two slots hold the two programs under
    their own names.  When it fails, either nothing has changed or the ingress slot
    is left empty; only if the roll-back failed too, which is logged, does the new
    ingress filter stay. *)
Theorem attach_all_or_nothing link ingress egress k k' err warned :
  AttachTelemetry link ingress egress k = (k', (err, warned)) →
  match err, warned with
  | None, _ => warned = false ∧
      evolves k k' (put (egressFilter link egress) (put (ingressFilter link ingress) (holds k)))
  | Some _, false => quiet k k' ∨ evolves k k' (cut (slotAt link HANDLE_MIN_INGRESS) (holds k))
  | Some _, true => evolves k k' (put (ingressFilter link ingress) (holds k))
  end.
Proof. apply AttachTelemetry_cases. Qed.

(** ** What a dump tells *)

Lemma holds_quiet k k' g : quiet k k' → holds k' g → holds k g.
Proof. intros [_ H]. by intros [? _]%H. Qed.
Lemma hookFilters_spec link p k k' fs err : hookFilters link p k = (k', (fs, err)) →
  quiet k k' ∧ ∀ f, f ∈ fs → IsTelemetryFilterName (BName f) = true ∧
    LinkIndex (BAttrs f) = Index link ∧ Parent (BAttrs f) = p ∧
    ∃ g, holds k (FBpf g) ∧ BAttrs g = BAttrs f ∧ BName g = BName f.
Proof.
  rewrite /hookFilters. destruct (FilterList _ p k) as [k1 [l1 e1]] eqn:E1.
  destruct (if decide _ then _ else _) as [k2 [l2 e2]] eqn:E2.
  assert (quiet k k2 ∧ ∀ f, f ∈ l2 → LinkIndex (Attrs f) = Index link ∧ Parent (Attrs f) = p ∧
    ∃ g, holds k g ∧ shown g = shown f) as [Hq Hl].
  { apply list_law in E1. destruct E1 as (G1 & H1 & L1 & _). case_decide.
    - apply list_law in E2. destruct E2 as (G2 & H2 & L2 & _). split.
      + by apply (evolves_quiet k k1).
      + intros f (? & ? & g & ? & ?)%L2. split_and!; [done..|]. exists g. split; [|done].
        by apply (holds_quiet k k1).
    - injection E2 as <- <- <-. done. }
  assert (∀ f, f ∈ omap telemetryFilter l2 → IsTelemetryFilterName (BName f) = true ∧
    LinkIndex (BAttrs f) = Index link ∧ Parent (BAttrs f) = p ∧
    ∃ g, holds k (FBpf g) ∧ BAttrs g = BAttrs f ∧ BName g = BName f) as Hom.
  { intros f (x & Hx & Ef)%list_elem_of_omap. destruct (Hl x Hx) as (? & ? & g & Hg & Es).
    destruct x as [b|]; simpl in Ef; [|done]. destruct (IsTelemetryFilterName (BName b)) eqn:En; [|done].
    injection Ef as <-. split_and!; [done..|]. destruct g as [g|]; [|done].
    injection Es as Ea En'. by exists g. }
  destruct e2 as [[|e]|]; intros [= <- <- <-]; (split; [done|]); try done.
  intros f []%not_elem_of_nil.
Qed.
Lemma hasOn_spec link hooks k k' b err : hasOn link hooks k = (k', (b, err)) →
  quiet k k' ∧ (b = true → err = None ∧ ∀ h, h ∈ hooks → ∃ f, holds k (FBpf f) ∧
    LinkIndex (BAttrs f) = Index link ∧ Parent (BAttrs f) = HParent h ∧ inSlot h f = true).
Proof.
  induction hooks as [|h hooks IH] in k |- *; simpl.
  { intros [= <- <- <-]. split; [apply quiet_refl|]. intros _. split; [done|]. intros h []%not_elem_of_nil. }
  destruct (hookFilters _ _ k) as [k1 [fs e1]] eqn:E1. apply hookFilters_spec in E1 as [Hq Hf].
  destruct e1 as [e|]; [by intros [= <- <- <-]|].
  destruct (existsb (inSlot h) fs) eqn:Ex; [|by intros [= <- <- <-]].
  intros [Hq' IHb]%IH. split; [by apply (evolves_quiet k k1)|]. intros [-> Hh]%IHb. split; [done|].
  apply existsb_exists in Ex as (f & Hin%list_elem_of_In & Hs).
  destruct (Hf f Hin) as (_ & Ei & Ep & g & Hg & Ea & En).
  intros h' [->|Hin']%elem_of_cons.
  - exists g. rewrite Ea. split_and!; [done..|]. by rewrite /inSlot Ea En.
  - destruct (Hh h' Hin') as (f' & Hf' & ?). exists f'. split; [|done]. by apply (holds_quiet k k1).
Qed.
(** An answer that the link carries the pair is right. *)
Lemma HasTelemetry_sound link k k' b err : HasTelemetry link k = (k', (b, err)) →
  quiet k k' ∧ (b = true → err = None ∧ carries k (Index link)).
Proof. apply hasOn_spec. Qed.

Lemma carries_keep k k' i (S : Filter → Prop) : evolves k k' S →
  (∀ g, LinkIndex (Attrs g) = i → holds k g → S g) →
  carries k i → ¬ gone k' i → carries k' i.
Proof.
  intros [_ H] HS Hc Hg h Hh. destruct (Hc h Hh) as (f & Hf & Ei & ?). exists f. split; [|done].
  apply H. simpl. rewrite Ei. split; [|done]. by apply HS.
Qed.
Lemma carries_back k k' i (S : Filter → Prop) : evolves k k' S →
  (∀ g, LinkIndex (Attrs g) = i → S g → holds k g) → carries k' i → carries k i.
Proof.
  intros [_ H] HS Hc h Hh. destruct (Hc h Hh) as (f & [Hf ?]%H & Ei & ?). exists f. split; [|done].
  by apply HS.
Qed.
Lemma put_other f S g : LinkIndex (Attrs g) ≠ LinkIndex (Attrs f) → put f S g ↔ S g.
Proof.
  intros Hne. rewrite /put. split; [by intros [->|[??]]|]. intros ?. right. split; [done|].
  by intros E; rewrite E in Hne.
Qed.
Lemma cut_other a S g : LinkIndex (Attrs g) ≠ LinkIndex a → cut a S g ↔ S g.
Proof. intros Hne. rewrite /cut. split; [tauto|]. intros ?. split; [done|]. by intros E; rewrite E in Hne. Qed.
(** On every other link an attach leaves things as they are. *)
Lemma AttachTelemetry_frame link ingress egress k k' res :
  AttachTelemetry link ingress egress k = (k', res) → ∃ S, evolves k k' S ∧
  ∀ g, LinkIndex (Attrs g) ≠ Index link → S g ↔ holds k g.
Proof.
  destruct res as [err warned]. intros H%AttachTelemetry_cases.
  destruct err as [e|], warned; [| |by destruct H|].
  - eexists. split; [exact H|]. intros g Hg. by apply put_other.
  - destruct H as [H|H]; eexists; (split; [exact H|]); intros g Hg; [done|]. by apply cut_other.
  - destruct H as [_ H]. eexists. split; [exact H|]. intros g Hg. rewrite put_other //. by apply put_other.
Qed.
Lemma AttachTelemetry_carries link ingress egress k k' warned :
  AttachTelemetry link ingress egress k = (k', (None, warned)) →
  ¬ gone k' (Index link) → carries k' (Index link).
Proof.
  intros [_ [_ H]]%AttachTelemetry_cases Hg h Hh.
  rewrite !elem_of_cons elem_of_nil in Hh. destruct Hh as [->|[->|[]]].
  - exists (mkBpf (slotAt link HANDLE_MIN_INGRESS) ingress FilterIngressName true).
    split; [|done]. apply H. split; [|done]. right. split; [by left|]. by apply slots_differ.
  - exists (mkBpf (slotAt link HANDLE_MIN_EGRESS) egress FilterEgressName true).
    split; [|done]. apply H. split; [|done]. by left.
Qed.

(** ** The hunt *)

(** From [k] to [k'] filters only go, and only doomed ones or those of vanished
    links. *)
Definition shrinks (k k' : K) (doomed : Filter → Prop) : Prop :=
  (∀ i, gone k i → gone k' i) ∧ (∀ g, holds k' g → holds k g) ∧
  (∀ g, holds k g → ¬ doomed g → ¬ gone k' (LinkIndex (Attrs g)) → holds k' g).
(** A dump that fails has nothing to show. *)
Definition wholeDumps : Prop := ∀ i p k k' fs e g, FilterList i p k = (k', (fs, Some e)) →
  holds k g → LinkIndex (Attrs g) = i → Parent (Attrs g) ≠ p.

Lemma shrinks_quiet k k' D : quiet k k' → shrinks k k' D.
Proof.
  intros [G H]. split_and!; [done| |].
  - by intros g [??]%H.
  - intros g ? _ ?. by apply H.
Qed.
Lemma shrinks_trans k k1 k2 (D : Filter → Prop) : shrinks k k1 D → shrinks k1 k2 D → shrinks k k2 D.
Proof.
  intros (G1 & A1 & B1) (G2 & A2 & B2). split_and!; [by eauto..|].
  intros g Hg Hd Hn. apply B2; [|done..]. apply B1; [done..|]. by intros ?%G2.
Qed.
Lemma shrinks_weaken k k' (D D' : Filter → Prop) : shrinks k k' D →
  (∀ g, holds k g → D g → D' g) → shrinks k k' D'.
Proof. intros (G & A & B) Hw. split_and!; [done..|]. intros g Hg Hd. apply B; [done|]. eauto. Qed.

Lemma reap_fold fs k n es k' n' es' : foldl reap (k, (n, es)) fs = (k', (n', es')) →
  shrinks k k' (λ g, Attrs g ∈ BAttrs <$> fs) ∧
  n' + Z.of_nat (length es') = n + Z.of_nat (length es) + Z.of_nat (length fs) ∧
  (es' = [] → es = [] ∧ ∀ g, holds k' g → Attrs g ∉ BAttrs <$> fs).
Proof.
  induction fs as [|f fs IH] in k, n, es |- *; cbn [foldl].
  { intros [= <- <- <-]. split_and!; [by apply shrinks_quiet, quiet_refl|simpl; lia|].
    intros ->. split; [done|]. intros g _. apply not_elem_of_nil. }
  rewrite {2}/reap. destruct (FilterDel (FBpf f) k) as [k1 derr] eqn:E1. apply del_law in E1 as [G1 H1].
  assert (shrinks k k1 (λ g, Attrs g ∈ BAttrs <$> f :: fs)) as Hk1.
  { split_and!; [done| |].
    - intros g Hg. apply H1 in Hg as [Hg _]. destruct derr; [done|]. by destruct Hg.
    - intros g Hg Hd Hn. apply H1. split; [|done]. destruct derr; [done|]. split; [done|].
      intros E. apply Hd. simpl. rewrite E. apply elem_of_cons. by left. }
  intros E. destruct derr as [e|]; apply IH in E as (Hs & Hn & He); clear IH.
  - split_and!.
    + eapply shrinks_trans; [done|]. eapply shrinks_weaken; [done|]. intros g _ ?. simpl.
      apply elem_of_cons. by right.
    + rewrite length_app /= in Hn *. lia.
    + intros [[]%app_eq_nil ?]%He. done.
  - split_and!.
    + eapply shrinks_trans; [done|]. eapply shrinks_weaken; [done|]. intros g _ ?. simpl.
      apply elem_of_cons. by right.
    + simpl. lia.
    + intros [-> Hf]%He. split; [done|]. intros g Hg. simpl. rewrite elem_of_cons. intros [E|Hin].
      * apply Hs in Hg as Hg1. apply H1 in Hg1 as [[_ Hne] _]. done.
      * by apply (Hf g).
Qed.

Lemma hookFilters_whole link p k k' fs err : hookFilters link p k = (k', (fs, err)) →
  (∀ i p k k' fs e g, FilterList i p k = (k', (fs, Some e)) →
     holds k g → LinkIndex (Attrs g) = i → Parent (Attrs g) ≠ p) →
  ∀ g, holds k' (FBpf g) → LinkIndex (BAttrs g) = Index link → Parent (BAttrs g) = p →
    IsTelemetryFilterName (BName g) = true → BAttrs g ∈ BAttrs <$> fs.
Proof.
  rewrite /hookFilters. destruct (FilterList _ p k) as [k1 [l1 e1]] eqn:E1.
  intros Eh Hw g Hg Hi Hp Hn. destruct e1 as [e|].
  - assert (quiet k k') as Hq.
    { apply (hookFilters_spec link p k k' fs err). by rewrite /hookFilters E1. }
    exfalso. eapply (Hw _ _ _ _ _ _ (FBpf g)); [exact E1| |done..]. by apply (holds_quiet k k').
  - injection Eh as <- <- <-. apply list_law in E1 as (_ & H1 & _ & L). apply H1 in Hg as [Hg _].
    specialize (L eq_refl _ Hg Hi Hp). apply list_elem_of_fmap in L as (x & Es & Hx).
    destruct x as [b|]; [|done]. injection Es as Ea En. rewrite Ea. apply list_elem_of_fmap_2.
    apply list_elem_of_omap. exists (FBpf b). split; [done|]. simpl. by rewrite -En Hn.
Qed.

Lemma telemetryOn_spec link hooks k k' out : telemetryOn link hooks k = (k', out) →
  quiet k k' ∧
  (∀ f, f ∈ out → ∃ g, holds k (FBpf g) ∧ BAttrs g = BAttrs f ∧
     IsTelemetryFilterName (BName g) = true ∧ Parent (BAttrs g) ∈ HParent <$> hooks) ∧
  (wholeDumps → ∀ g, holds k' (FBpf g) → LinkIndex (BAttrs g) = Index link →
     IsTelemetryFilterName (BName g) = true → Parent (BAttrs g) ∈ HParent <$> hooks →
     BAttrs g ∈ BAttrs <$> out).
Proof.
  induction hooks as [|h hooks IH] in k, out |- *; simpl.
  { intros [= <- <-]. split_and!; [apply quiet_refl|by intros f []%not_elem_of_nil|].
    by intros _ g _ _ _ []%not_elem_of_nil. }
  destruct (hookFilters _ _ k) as [k1 [fs e]] eqn:E1.
  pose proof (hookFilters_whole _ _ _ _ _ _ E1) as Hw. apply hookFilters_spec in E1 as [Hq Hf].
  destruct (telemetryOn link hooks k1) as [k2 out'] eqn:E2. intros [= <- <-].
  apply IH in E2 as (Hq2 & Ho & Hc). split_and!.
  - by apply (evolves_quiet k k1).
  - intros f [Hin|Hin]%elem_of_app.
    + destruct (Hf f Hin) as (Hn & _ & Hp & g & ? & Ea & En). exists g. rewrite En Ea.
      split_and!; [done..|]. rewrite Hp. apply elem_of_cons. by left.
    + destruct (Ho f Hin) as (g & ? & ? & ? & ?). exists g. split_and!; [|done..|].
      * by apply (holds_quiet k k1).
      * apply elem_of_cons. by right.
  - intros Hwd g Hg Hi Hn [Hp|Hp]%elem_of_cons; rewrite fmap_app elem_of_app.
    + left. apply Hw; [done| |done..]. by apply (holds_quiet k1 k2).
    + right. by apply Hc.
Qed.

Lemma huntLink_spec link k n es k' n' es' : huntLink (k, (n, es)) link = (k', (n', es')) →
  shrinks k k' telemetryNamed ∧
  (es' = [] → es = [] ∧ (wholeDumps → ∀ g, holds k' g → LinkIndex (Attrs g) = Index link →
     ¬ telemetryNamed g)).
Proof.
  rewrite /huntLink. destruct (TelemetryFilters link k) as [k1 fs] eqn:E1.
  apply telemetryOn_spec in E1 as (Hq & Hf & Hc). intros (Hs & _ & He)%reap_fold. split.
  - apply (shrinks_trans _ k1); [by apply shrinks_quiet|]. eapply shrinks_weaken; [done|].
    intros g Hg (f & Ea & (g0 & Hg0 & E0 & ? & ?)%Hf)%list_elem_of_fmap.
    exists g0. split_and!; [|done..]. apply (slot_unique k); [by apply (holds_quiet k k1)|done|].
    simpl. by rewrite E0.
  - intros [-> Hn]%He. split; [done|]. intros Hw g Hg Hi (f & -> & Hnm & Hp).
    apply (Hn _ Hg), Hc; [done| |done..]. by apply Hs.
Qed.
Lemma hunt_fold links k n es k' n' es' : foldl huntLink (k, (n, es)) links = (k', (n', es')) →
  shrinks k k' telemetryNamed ∧
  (es' = [] → es = [] ∧ (wholeDumps → ∀ g, holds k' g → LinkIndex (Attrs g) ∈ Index <$> links →
     ¬ telemetryNamed g)).
Proof.
  induction links as [|l links IH] in k, n, es |- *; cbn [foldl].
  { intros [= <- <- <-]. split; [by apply shrinks_quiet, quiet_refl|]. intros ->. split; [done|].
    by intros _ g _ []%not_elem_of_nil. }
  destruct (huntLink (k, (n, es)) l) as [k1 [n1 es1]] eqn:E1. apply huntLink_spec in E1 as (Hs & He).
  intros (Hs' & He')%IH. split; [by eapply shrinks_trans|].
  intros [-> Hr]%He'. destruct He as [-> Hl]; [done|]. split; [done|].
  intros Hw g Hg [Hi|Hi]%elem_of_cons.
  - apply Hl; [done| |done]. by apply Hs'.
  - by apply Hr.
Qed.

(** The hunt removes the agent's orphans and nothing else.  Whatever fails, a
    filter that does not carry one of the agent's names on one of its hooks
    survives (unless its link vanishes), and no filter appears.  When the hunt
    reports no error and no dump of a hook failed over filters it held, what is
    left is exactly what there was without the telemetry-named filters. *)
Theorem hunt_exact k k' n err : Hunt k = (k', (n, err)) →
  (∀ g, holds k' g → holds k g) ∧
  (∀ g, holds k g → ¬ telemetryNamed g → ¬ gone k' (LinkIndex (Attrs g)) → holds k' g) ∧
  (err = None → wholeDumps → ∀ g, holds k' g ↔
     holds k g ∧ ¬ telemetryNamed g ∧ ¬ gone k' (LinkIndex (Attrs g))).
Proof.
  rewrite /Hunt. destruct (LinkList k) as [k1 [ls e1]] eqn:E1. apply links_law in E1 as (G1 & H1 & L1).
  destruct e1 as [e|].
  { intros [= <- <- <-]. split_and!; [by intros g [? _]%H1|intros; by apply H1|done]. }
  destruct (foldl _ _ _) as [k2 [n2 es]] eqn:E2. apply hunt_fold in E2 as [Hs He].
  assert (shrinks k k2 telemetryNamed) as (G & A & B).
  { eapply shrinks_trans; [|done]. by apply shrinks_quiet. }
  intros [= <- <- <-]. split_and!; [done..|]. intros Hn Hw g.
  destruct es as [|? ?]; [|done]. destruct He as [_ He]; [done|]. split.
  - intros Hg. split_and!; [by apply A| |by apply (holds_present k2)].
    apply He; [done..|]. apply L1; [done|]. by apply A.
  - intros (? & ? & ?). by apply B.
Qed.
End laws.

(** ** A kernel that plays a script

    A concrete kernel for the interface: a list of filters (the first in a slot
    counts), the links, and for each coming call whether it fails and whether a
    link vanishes during it. *)
Module TcSim.
Record sim := mkSim {
  s_held : list Filter; s_gone : list Z; s_links : list NetLink;
  s_script : list (option string * option Z) }.

Definition slotFilter (a : FilterAttrs) (l : list Filter) : option Filter :=
  find (λ x, bool_decide (Attrs x = a)) l.
Definition sholds (k : sim) (g : Filter) : Prop :=
  slotFilter (Attrs g) (s_held k) = Some g ∧ LinkIndex (Attrs g) ∉ s_gone k.
#[export] Instance sholds_dec k g : Decision (sholds k g). Proof. solve_decision. Defined.
Definition refusal (k : sim) : option string :=
  match s_script k with (e, _) :: _ => e | [] => None end.
Definition after (held : list Filter) (k : sim) : sim :=
  mkSim held (match s_script k with (_, Some i) :: _ => i :: s_gone k | _ => s_gone k end)
    (s_links k) (tail (s_script k)).
Definition linkIndexes (k : sim) : list Z :=
  filter (λ i, i ∉ s_gone k) (remove_dups ((Index <$> s_links k) ++ (LinkIndex ∘ Attrs <$> s_held k))).
Definition linkAt (k : sim) (i : Z) : NetLink :=
  default (mkLink i "" "") (find (λ l, bool_decide (Index l = i)) (s_links k)).
(** An interrupted dump shows all but the first. *)
Definition dump {A} (k : sim) (l : list A) : list A * option dumpErr :=
  match refusal k with
  | None => (l, None)
  | Some e => if decide (e = "interrupted"%string) then (tail l, Some ErrDumpInterrupted)
              else ([], Some (DumpFailed e))
  end.

#[export] Instance sim_kernel : TcKernel sim := {|
  HANDLE_CLSACT := 0xfffffff1; HANDLE_MIN_INGRESS := 0xfffffff2; HANDLE_MIN_EGRESS := 0xfffffff3;
  ETH_P_ALL := 3; MakeHandle major minor := Z.lor (Z.shiftl major 16) minor;
  QdiscReplace _ k := (after (s_held k) k, refusal k);
  FilterReplace f k :=
    (after (match refusal k with None => FBpf f :: s_held k | Some _ => s_held k end) k, refusal k);
  FilterDel f k :=
    (after (match refusal k with
            | None => filter (λ g, Attrs g ≠ Attrs f) (s_held k) | Some _ => s_held k end) k, refusal k);
  FilterList i p k :=
    (after (s_held k) k,
     dump k (filter (λ g, sholds k g ∧ LinkIndex (Attrs g) = i ∧ Parent (Attrs g) = p) (s_held k)));
  LinkList k := (after (s_held k) k, dump k (linkAt k <$> linkIndexes k));
  LinkNotFound i k := (after (s_held k) k, bool_decide (i ∈ s_gone k)) |}.

Lemma after_gone held k i : i ∈ s_gone k → i ∈ s_gone (after held k).
Proof.
  rewrite /after /=. destruct (s_script k) as [|[e [j|]] ?]; [done| |done].
  intros ?. apply elem_of_cons. by right.
Qed.
Lemma after_holds held k g : sholds (after held k) g ↔
  slotFilter (Attrs g) held = Some g ∧ LinkIndex (Attrs g) ∉ s_gone (after held k).
Proof. done. Qed.
Lemma after_quiet k g : sholds (after (s_held k) k) g ↔
  sholds k g ∧ LinkIndex (Attrs g) ∉ s_gone (after (s_held k) k).
Proof.
  rewrite after_holds /sholds. split; [|tauto]. intros [? Hn]. split_and!; [done| |done].
  by intros ?%(after_gone (s_held k)).
Qed.
Lemma slotFilter_in a l g : slotFilter a l = Some g → g ∈ l ∧ Attrs g = a.
Proof. intros [Hin E]%find_some. apply bool_decide_eq_true in E. by rewrite list_elem_of_In. Qed.
Lemma slotFilter_cut a b l : slotFilter b (filter (λ g, Attrs g ≠ a) l) =
  if decide (b = a) then None else slotFilter b l.
Proof.
  induction l as [|x l IH]; [by case_decide|]. rewrite filter_cons.
  destruct (decide (Attrs x ≠ a)) as [Hx|Hx]; csimpl.
  - case_bool_decide as Hb; [|done]. rewrite decide_False //. congruence.
  - rewrite IH. apply dec_stable in Hx. destruct (decide (b = a)) as [|Hba]; [done|].
    rewrite bool_decide_false //. congruence.
Qed.
Lemma dump_in {A} k (l : list A) x l' err : dump k l = (l', err) → x ∈ l' → x ∈ l.
Proof.
  rewrite /dump. destruct (refusal k) as [e|]; [|by intros [= <- <-]].
  case_decide; intros [= <- <-]; [|by intros []%not_elem_of_nil].
  destruct l; [done|]. intros ?. apply elem_of_cons. by right.
Qed.
Lemma dump_whole {A} k (l l' : list A) : dump k l = (l', None) → l' = l.
Proof. rewrite /dump. destruct (refusal k); [by case_decide|]. by intros [= <-]. Qed.
Lemma linkAt_Index k i : Index (linkAt k i) = i.
Proof.
  rewrite /linkAt. destruct (find _ _) as [l|] eqn:E; [|done]. simpl.
  apply find_some in E as [_ E]. by apply bool_decide_eq_true in E.
Qed.
Lemma links_Index k : Index <$> (linkAt k <$> linkIndexes k) = linkIndexes k.
Proof.
  rewrite -list_fmap_compose. rewrite -{2}(list_fmap_id (linkIndexes k)). apply list_fmap_ext.
  intros ? i _. apply linkAt_Index.
Qed.

#[export, refine] Instance sim_laws : TcLaws sim := {|
  holds := sholds; gone k i := i ∈ s_gone k |}.
Proof.
  - done.
  - by intros k g [_ ?].
  - intros k g g' [Hg _] [Hg' _] E. rewrite E Hg' in Hg. by injection Hg.
  - intros q k k' err [= <- _]. split; [apply after_gone|]. apply after_quiet.
  - intros f k k' err. cbn [FilterReplace sim_kernel]. intros [= <- <-]. split; [by intros; apply after_gone|].
    intros g. destruct (refusal k); [apply after_quiet|]. rewrite after_holds /put /sholds. simpl.
    pose proof (after_gone (FBpf f :: s_held k) k (LinkIndex (Attrs g))) as Hm.
    case_bool_decide as E; simpl in E.
    + split; [|by intros [[->|[_ []]] ?]]. intros [[= <-] ?]. split; [by left|done].
    + split; [|by intros [[->|[[??]?]] ?]]. intros [? Hn]. split; [right|done].
      split_and!; [done| |done]. by intros ?%Hm.
  - intros f k k' err. cbn [FilterDel sim_kernel]. intros [= <- <-]. split; [by intros; apply after_gone|].
    intros g. destruct (refusal k); [apply after_quiet|]. rewrite after_holds /cut /sholds slotFilter_cut.
    case_decide as E; [naive_solver|]. split; [|naive_solver]. intros [? Hn]. split_and!; try done.
    by intros ?%(after_gone (filter (λ g, Attrs g ≠ Attrs f) (s_held k))).
  - intros i p k k' fs err. cbn [FilterList sim_kernel]. intros [= <- Ed].
    split_and!; [by intros; apply after_gone|apply after_quiet| |].
    + intros f Hf. eapply dump_in in Hf; [|done]. apply list_elem_of_filter in Hf as [(? & ? & ?) ?].
      split_and!; [done..|]. by exists f.
    + intros -> g Hg Hi Hp. apply dump_whole in Ed as ->. apply list_elem_of_fmap_2.
      apply list_elem_of_filter. split; [done|]. by destruct Hg as [[? _]%slotFilter_in _].
  - intros k k' ls err. cbn [LinkList sim_kernel]. intros [= <- Ed].
    split_and!; [by intros; apply after_gone|apply after_quiet|].
    intros ->. apply dump_whole in Ed as ->. rewrite links_Index. split.
    + apply NoDup_filter, NoDup_remove_dups.
    + intros g [[Hin _]%slotFilter_in Hg]. apply list_elem_of_filter. split; [done|].
      apply elem_of_remove_dups, elem_of_app. right. apply list_elem_of_fmap. by exists g.
  - intros i k k' b. cbn [LinkNotFound sim_kernel]. intros [= <- <-].
    split_and!; [by intros; apply after_gone|apply after_quiet|].
    intros ?%bool_decide_eq_true. by apply after_gone.
Defined.
End TcSim.

Module TcExamples.
Import TcSim.
Definition tapA : NetLink := mkLink 5 "tapA" "tun".
Definition egressOld : Filter := egressFilter tapA 3.
(** A filter of someone else's on the ingress hook. *)
Definition foreign : Filter :=
  FBpf (mkBpf (mkAttrs 5 0xfffffff2 2 10 3) 9 "policer" true).
(** The fourth call, the egress filter's, fails. *)
Definition egressFails : list (option string * option Z) :=
  [(None, None); (None, None); (None, None); (Some "EBUSY"%string, None)].
Definition fresh : sim := mkSim [foreign] [] [tapA] egressFails.
Definition halfThere : sim := mkSim [foreign; egressOld] [] [tapA] egressFails.
(** An orphan of an older build, at another priority, and a pair. *)
Definition orphan : Filter :=
  FBpf (mkBpf (mkAttrs 5 0xfffffff3 1 49152 3) 4 "telemetry_out" true).
Definition crashed : sim := mkSim [foreign; orphan; egressOld; ingressFilter tapA 2] [] [tapA] [].

Lemma attach_all_or_nothing_witness :
  let r := AttachTelemetry tapA 7 8 fresh in
  r.2 = (Some "EBUSY"%string, false) ∧
  (quiet fresh r.1 ∨ evolves fresh r.1 (cut (slotAt tapA HANDLE_MIN_INGRESS) (holds fresh))) ∧
  ¬ sholds r.1 (ingressFilter tapA 7) ∧ sholds r.1 foreign.
Proof.
  split; [by vm_compute|]. split; [|split; simpl; by apply (bool_decide_unpack _); vm_compute].
  by apply (attach_all_or_nothing tapA 7 8 fresh _ (Some "EBUSY"%string) false).
Defined.
(** A failed attach of a link that had lost only its ingress filter: the roll-back
    leaves it with the old egress filter alone. *)
Example one_filter_left :
  let r := AttachTelemetry tapA 7 8 halfThere in
  r.2 = (Some "EBUSY"%string, false) ∧ sholds r.1 egressOld ∧ ¬ sholds r.1 (ingressFilter tapA 7).
Proof. split; [by vm_compute|]. split; simpl; by apply (bool_decide_unpack _); vm_compute. Qed.
Lemma hunt_exact_witness :
  let r := Hunt crashed in
  r.2 = (3, None) ∧ (∀ g, holds r.1 g → holds crashed g) ∧ sholds r.1 foreign ∧ s_held r.1 = [foreign].
Proof.
  split; [by vm_compute|]. split; [|split; simpl; [by apply (bool_decide_unpack _); vm_compute|by vm_compute]].
  by destruct (hunt_exact crashed (Hunt crashed).1 3 None ltac:(by vm_compute)) as [H _].
Defined.
End TcExamples.
