(* ===== verification/Link.v ===== *)
(** * The netlink watcher (internal/netlink)

    The allowlist, the registry of attached interfaces, the handling of link
    events, the attach-presence sweep, and the re-subscribing loop with its
    backoff.  What the watcher asks of the attach machinery is the interface
    [Attacher]; its promises are [AttacherLaws], against which the sweep's theorem
    is proved, and which the component TcAttach discharges.  The socket is an
    explicit sequence of sessions; between two events the world may do anything
    to the kernel. *)
From S2P Require Import Prelude.
From S2P Require Import GoStrings.
From S2P Require Import GoArgs.
From S2P Require Import TcAttach.

(** ** The allowlist (match.go, schema.go) *)

Definition ifaceKindTap : string := "tap".
Definition ifaceKindOther : string := "other".
Definition outcomeHealed : string := "healed".
Definition outcomeFailed : string := "failed".
Definition linkTypeVeth : string := "veth".
Definition skipReasonVeth : string := "veth".

Definition matchesPrefix (iface : string) (prefixes : list string) : bool :=
  existsb (λ p, bool_decide (p ≠ "") && HasPrefix iface p) prefixes.
Definition ShouldAttach (iface linkType : string) (prefixes explicit : list string) : bool * string :=
  if existsb (λ name, bool_decide (iface = name)) explicit then (true, "")
  else if negb (matchesPrefix iface prefixes) then (false, "")
  else if bool_decide (linkType = linkTypeVeth) then (false, skipReasonVeth)
  else (true, "").

(** ** The registry (registry.go) *)

Definition Registry : Type := gset string.
Definition NewRegistry : Registry := ∅.
Definition MarkAttached (iface : string) (r : Registry) : Registry := {[iface]} ∪ r.
Definition IsAttached (iface : string) (r : Registry) : bool := bool_decide (iface ∈ r).
Definition Forget (iface : string) (r : Registry) : Registry := r ∖ {[iface]}.
Definition ReplaceAll (names : list string) : Registry := list_to_set names.
Definition Len (r : Registry) : Z := Z.of_nat (size r).
Definition Snapshot (r : Registry) : list string := sort_strings (elements r).

(** ** The instruments (metrics.go) *)

Record Metrics := mkMetrics {
  attachFailures : gmap string Z; unattached : gmap string Z;
  reattaches : gmap (string * string) Z; restarts : Z; skippedCount : gmap string Z }.
Definition NewMetrics : Metrics := mkMetrics
  {[ifaceKindTap := 0; ifaceKindOther := 0]} {[ifaceKindTap := 0; ifaceKindOther := 0]}
  {[(ifaceKindTap, outcomeHealed) := 0; (ifaceKindTap, outcomeFailed) := 0;
    (ifaceKindOther, outcomeHealed) := 0; (ifaceKindOther, outcomeFailed) := 0]}
  0 {[skipReasonVeth := 0]}.
Definition inc `{Countable L} (k : L) (m : gmap L Z) : gmap L Z := <[k := default 0 (m !! k) + 1]> m.
Definition recordAttachFailure (kind : string) (m : Metrics) : Metrics :=
  mkMetrics (inc kind (attachFailures m)) (unattached m) (reattaches m) (restarts m) (skippedCount m).
Definition recordReattach (kind outcome : string) (m : Metrics) : Metrics :=
  mkMetrics (attachFailures m) (unattached m) (inc (kind, outcome) (reattaches m)) (restarts m)
    (skippedCount m).
Definition setUnattached (byKind : gmap string Z) (m : Metrics) : Metrics :=
  mkMetrics (attachFailures m) (byKind ∪ unattached m) (reattaches m) (restarts m) (skippedCount m).
Definition recordRestart (m : Metrics) : Metrics :=
  mkMetrics (attachFailures m) (unattached m) (reattaches m) (restarts m + 1) (skippedCount m).
Definition recordSkip (reason : string) (m : Metrics) : Metrics :=
  mkMetrics (attachFailures m) (unattached m) (reattaches m) (restarts m) (inc reason (skippedCount m)).

(** ** The subscriber (subscriber_linux.go) *)

Class Attacher (K : Type) := {
  Attach : NetLink → K → K * option string;
  Attached : NetLink → K → K * (bool * option dumpErr) }.

Record Options := mkOptions {
  Prefixes : list string; Explicit : list string; ResyncInterval : Z }.
Record linuxSubscriber := mkSub {
  registry : Registry; metrics : Metrics; failing : gset string; skipped : gset string }.
Definition newLinuxSubscriber : linuxSubscriber := mkSub NewRegistry NewMetrics ∅ ∅.
Definition setRegistry (r : Registry) (s : linuxSubscriber) : linuxSubscriber :=
  mkSub r (metrics s) (failing s) (skipped s).
Definition setMetrics (m : Metrics) (s : linuxSubscriber) : linuxSubscriber :=
  mkSub (registry s) m (failing s) (skipped s).

Inductive msgType := RTM_NEWLINK | RTM_DELLINK | RTM_OTHER (n : Z).
#[export] Instance msgType_dec : EqDecision msgType. Proof. solve_decision. Defined.

Record backoffPolicy := mkBackoff { bmin : Z; bmax : Z }.
Definition resubscribeBackoffMin : Z := second.
Definition resubscribeBackoffMax : Z := 30 * second.
Definition next (b : backoffPolicy) (d : Z) : Z := Z.min (i64 (2 * d)) (bmax b).

Section subscriber.
Context {K : Type} `{HK : !TcKernel K} `{HA : !Attacher K} (opts : Options).
Implicit Types (k : K) (s : linuxSubscriber).

Definition kindFor (name : string) : string :=
  if matchesPrefix name (Prefixes opts) then ifaceKindTap else ifaceKindOther.
Definition allowed (link : NetLink) : bool :=
  (ShouldAttach (LName link) (LType link) (Prefixes opts) (Explicit opts)).1.
Definition linkGone (index : Z) (k : K) : K * bool := LinkNotFound index k.

Definition onNewLink (link : NetLink) (s : linuxSubscriber) (k : K) : linuxSubscriber * K :=
  let name := LName link in
  if IsAttached name (registry s) then (s, k)
  else
    let '(k, err) := Attach link k in
    match err with
    | Some e =>
        let '(k, isGone) := linkGone (Index link) k in
        if isGone : bool then (s, k)
        else (setMetrics (recordAttachFailure (kindFor name) (metrics s)) s, k)
    | None => (setRegistry (MarkAttached name (registry s)) s, k)
    end.
Definition onDelLink (name : string) (s : linuxSubscriber) : linuxSubscriber :=
  if negb (IsAttached name (registry s)) then s else setRegistry (Forget name (registry s)) s.
Definition onSkip (msg : msgType) (name reason : string) (s : linuxSubscriber) : linuxSubscriber :=
  if decide (msg = RTM_DELLINK) then mkSub (registry s) (metrics s) (failing s) (skipped s ∖ {[name]})
  else if decide (name ∈ skipped s) then s
  else mkSub (registry s) (recordSkip reason (metrics s)) (failing s) ({[name]} ∪ skipped s).
Definition handle (msg : msgType) (link : NetLink) (s : linuxSubscriber) (k : K)
    : linuxSubscriber * K :=
  let name := LName link in
  let '(attach, skip) := ShouldAttach name (LType link) (Prefixes opts) (Explicit opts) in
  if negb attach then
    if decide (skip ≠ ""%string) then (onSkip msg name skip s, k) else (s, k)
  else
    match msg with
    | RTM_NEWLINK => onNewLink link s k
    | RTM_DELLINK => (onDelLink name s, k)
    | RTM_OTHER _ => (s, k)
    end.

(** What a sweep gathers. *)
Record sweepState := mkSweep {
  sw_attached : list string; sw_unattached : gmap string Z; sw_failing : gset string;
  sw_healed : Z; sw_undecided : Z; sw_mx : Metrics }.
Definition addAttached (name : string) (w : sweepState) : sweepState :=
  mkSweep (sw_attached w ++ [name]) (sw_unattached w) (sw_failing w) (sw_healed w) (sw_undecided w) (sw_mx w).
Definition addFailing (name kind : string) (w : sweepState) : sweepState :=
  mkSweep (sw_attached w) (inc kind (sw_unattached w)) ({[name]} ∪ sw_failing w) (sw_healed w)
    (sw_undecided w) (sw_mx w).
Definition addUndecided (w : sweepState) : sweepState :=
  mkSweep (sw_attached w) (sw_unattached w) (sw_failing w) (sw_healed w) (sw_undecided w + 1) (sw_mx w).
Definition addHealed (w : sweepState) : sweepState :=
  mkSweep (sw_attached w) (sw_unattached w) (sw_failing w) (sw_healed w + 1) (sw_undecided w) (sw_mx w).
Definition countReattach (kind outcome : string) (w : sweepState) : sweepState :=
  mkSweep (sw_attached w) (sw_unattached w) (sw_failing w) (sw_healed w) (sw_undecided w)
    (recordReattach kind outcome (sw_mx w)).

(** The loop body of [resync]. *)
Definition visit (s : linuxSubscriber) (acc : K * sweepState) (link : NetLink) : K * sweepState :=
  let '(k, w) := acc in
  let name := LName link in
  if negb (allowed link) then (k, w)
  else
    let kind := kindFor name in
    let '(k, (ok, err)) := Attached link k in
    match err with
    | Some _ =>
        let w := addUndecided w in
        let w := if IsAttached name (registry s) then addAttached name w else w in
        (k, if decide (name ∈ failing s) then addFailing name kind w else w)
    | None =>
        if ok : bool then (k, addAttached name w)
        else
          let '(k, err) := Attach link k in
          match err with
          | Some e =>
              let '(k, isGone) := linkGone (Index link) k in
              if isGone : bool then (k, w)
              else (k, countReattach kind outcomeFailed (addFailing name kind w))
          | None => (k, countReattach kind outcomeHealed (addHealed (addAttached name w)))
          end
    end.
(** The listing, retried once when interrupted. *)
Definition listTwice (k : K) : K * (list NetLink * option dumpErr) :=
  let '(k, (links, err)) := LinkList k in
  if decide (err = Some ErrDumpInterrupted) then LinkList k else (k, (links, err)).
Definition sweepAll (s : linuxSubscriber) (links : list NetLink) (k : K) : K * sweepState :=
  foldl (visit s)
    (k, mkSweep [] {[ifaceKindTap := 0; ifaceKindOther := 0]} ∅ 0 0 (metrics s)) links.
Definition resync (s : linuxSubscriber) (k : K) : linuxSubscriber * K :=
  let '(k, (links, err)) := listTwice k in
  match err with
  | Some _ => (s, k)
  | None =>
      let '(k, w) := sweepAll s links k in
      (mkSub (ReplaceAll (sw_attached w)) (setUnattached (sw_unattached w) (sw_mx w))
         (sw_failing w) (skipped s), k)
  end.

(** What a session's select receives, and what the world does between. *)
Inductive streamEvent := Tick | LinkUpdate (msg : msgType) (link : NetLink) | World (step : K → K).
Definition onEvent (acc : linuxSubscriber * K) (ev : streamEvent) : linuxSubscriber * K :=
  let '(s, k) := acc in
  match ev with
  | Tick => if decide (0 < ResyncInterval opts) then resync s k else (s, k)
  | LinkUpdate msg link => handle msg link s k
  | World step => (s, step k)
  end.
(** One subscription: whether it could be opened, what it received until it was
    lost, how long it lasted; then whether the context was done when it ended, or
    is done during the wait after it. *)
Record session := mkSession {
  subscribed : bool; received : list streamEvent; lasted : Z; ctxDone : bool; waitDone : bool }.
Definition runStream (resyncFirst : bool) (ses : session) (s : linuxSubscriber) (k : K)
    : linuxSubscriber * K :=
  if negb (subscribed ses) then (s, k)
  else
    let '(s, k) := if resyncFirst && bool_decide (0 < ResyncInterval opts) then resync s k else (s, k) in
    foldl onEvent (s, k) (received ses).
(** The state, the delays waited for and, unless the sessions given run out,
    whether the loop has returned. *)
Fixpoint Run (b : backoffPolicy) (delay : Z) (resyncFirst : bool) (sessions : list session)
    (s : linuxSubscriber) (k : K) : linuxSubscriber * K * list Z * bool :=
  match sessions with
  | [] => (s, k, [], false)
  | ses :: sessions =>
      let '(s, k) := runStream resyncFirst ses s k in
      if ctxDone ses then (s, k, [], true)
      else
        let delay := if decide (bmax b ≤ lasted ses) then bmin b else delay in
        let s := setMetrics (recordRestart (metrics s)) s in
        if waitDone ses then (s, k, [delay], true)
        else
          let '(s, k, waits, returned) := Run b (next b delay) true sessions s k in
          (s, k, delay :: waits, returned)
  end.
End subscriber.

(** ** What the sweep relies on *)

(** Calls about one link leave every other link as it was, links vanishing apart;
    an attach that succeeds, and an answer that the programs are there, are true. *)
Class AttacherLaws (K : Type) `{!TcKernel K, !Attacher K} := {
  carried : K → Z → Prop;
  vanished : K → Z → Prop;
  attach_law link k k' err : Attach link k = (k', err) →
    (∀ i, vanished k i → vanished k' i) ∧
    (∀ i, i ≠ Index link → carried k' i → carried k i) ∧
    (∀ i, i ≠ Index link → carried k i → ¬ vanished k' i → carried k' i) ∧
    (err = None → ¬ vanished k' (Index link) → carried k' (Index link));
  attached_law link k k' b err : Attached link k = (k', (b, err)) →
    (∀ i, vanished k i → vanished k' i) ∧ (∀ i, carried k' i → carried k i) ∧
    (∀ i, carried k i → ¬ vanished k' i → carried k' i) ∧
    (b = true → ¬ vanished k' (Index link) → carried k' (Index link));
  lookup_gone i k k' b : LinkNotFound i k = (k', b) →
    (∀ i, vanished k i → vanished k' i) ∧ (∀ i, carried k' i → carried k i) ∧
    (∀ i, carried k i → ¬ vanished k' i → carried k' i) ∧ (b = true → vanished k' i);
  listing_law k k' links err : LinkList k = (k', (links, err)) →
    (∀ i, vanished k i → vanished k' i) ∧ (∀ i, carried k' i → carried k i) ∧
    (∀ i, carried k i → ¬ vanished k' i → carried k' i) ∧
    (err = None → NoDup (Index <$> links)) }.

Section sweep_laws.
Context {K : Type} `{HK : !TcKernel K} `{HA : !Attacher K} `{HL : !AttacherLaws K} (opts : Options).
Implicit Types (k : K) (s : linuxSubscriber) (w : sweepState).

(** From [k] to [k'] only the links in [D] may have been attached to, and no link
    outside it lost the programs without vanishing. *)
Definition frame (k k' : K) (D : Z → Prop) : Prop :=
  (∀ i, vanished k i → vanished k' i) ∧ (∀ i, ¬ D i → carried k' i → carried k i) ∧
  (∀ i, ¬ D i → carried k i → ¬ vanished k' i → carried k' i).
Lemma frame_refl k D : frame k k D.
Proof. by split_and!. Qed.
Lemma frame_trans k k1 k2 D : frame k k1 D → frame k1 k2 D → frame k k2 D.
Proof.
  intros (V1 & B1 & F1) (V2 & B2 & F2). split_and!; [by eauto..|].
  intros i Hd Hc Hn. apply F2; [done| |done]. apply F1; [done..|]. by intros ?%V2.
Qed.
Lemma frame_weaken k k' (D D' : Z → Prop) : frame k k' D → (∀ i, D i → D' i) → frame k k' D'.
Proof. intros (V & B & F) Hd. split_and!; [done|intros i ?; apply B|intros i ?; apply F]; by eauto. Qed.

Definition grows w w' : Prop :=
  (∀ n, n ∈ sw_attached w → n ∈ sw_attached w') ∧ sw_failing w ⊆ sw_failing w' ∧
  sw_undecided w ≤ sw_undecided w'.
Lemma grows_refl w : grows w w.
Proof. by split_and!. Qed.
Lemma grows_trans w w1 w2 : grows w w1 → grows w1 w2 → grows w w2.
Proof. intros (?&?&?) (?&?&?). split_and!; [by eauto|by etrans|lia]. Qed.

(** What a visit leaves: each name it adds is the link's, which then carries the
    programs unless it could not be asked; a link it does not add is failing,
    undecided or gone. *)
Lemma visit_spec s k w link k' w' : visit opts s (k, w) link = (k', w') → grows w w' ∧
  if allowed opts link then
    frame k k' (λ i, i = Index link) ∧
    (∀ n, n ∈ sw_attached w' → n ∈ sw_attached w ∨ n = LName link ∧
       ((¬ vanished k' (Index link) → carried k' (Index link)) ∨
        n ∈ registry s ∧ sw_undecided w < sw_undecided w')) ∧
    (¬ vanished k' (Index link) →
       carried k' (Index link) ∧ LName link ∈ sw_attached w' ∨
       LName link ∈ sw_failing w' ∨ sw_undecided w < sw_undecided w')
  else k' = k ∧ w' = w.
Proof.
  rewrite /visit. destruct (allowed opts link); simpl; [|by intros [= <- <-]].
  destruct (Attached link k) as [k1 [ok err]] eqn:E1. apply attached_law in E1 as (V1 & B1 & F1 & C1).
  assert (∀ D, frame k k1 D) as Hf1 by (intros D; split_and!; eauto).
  destruct err as [e|].
  { intros [= <- <-]. split; [|split; [done|]].
    - rewrite /IsAttached. case_bool_decide; case_decide; (split_and!; simpl; [|set_solver|lia]);
        set_solver.
    - split.
      + rewrite /IsAttached. intros n. case_bool_decide; case_decide; simpl; rewrite ?elem_of_app;
          (intros [?|?%list_elem_of_singleton] || intros ?); try (by left); right;
          (split; [done|]); right; subst; (split; [done|lia]).
      + intros _. right. right. rewrite /IsAttached. case_bool_decide; case_decide; simpl; lia. }
  destruct ok.
  { intros [= <- <-]. split; [split_and!; simpl; [set_solver|done|lia]|]. split_and!; [done| |].
    - simpl. intros n [?|?%list_elem_of_singleton]%elem_of_app; [by left|]. right. split; [done|].
      left. by apply C1.
    - intros Hn. left. split; [by apply C1|]. simpl. set_solver. }
  destruct (Attach link k1) as [k2 err] eqn:E2. apply attach_law in E2 as (V2 & B2 & F2 & C2).
  assert (frame k k2 (λ i, i = Index link)) as Hf2 by (by apply (frame_trans _ k1); [|split_and!]).
  destruct err as [e|].
  - destruct (linkGone _ k2) as [k3 b] eqn:E3. apply lookup_gone in E3 as (V3 & B3 & F3 & C3).
    assert (frame k k3 (λ i, i = Index link)) as Hf3.
    { apply (frame_trans _ k2); [done|]. split_and!; eauto. }
    destruct b; intros [= <- <-].
    + split; [split_and!; [done..|lia]|]. split_and!; [done|by left|]. intros []. by apply C3.
    + split; [split_and!; simpl; [done|apply union_subseteq_r|lia]|]. split_and!; [done|by left|].
      intros _. right. left. by apply elem_of_union_l, elem_of_singleton.
  - intros [= <- <-]. split; [split_and!; simpl; [set_solver|done|lia]|]. split_and!; [done| |].
    + simpl. intros n [?|?%list_elem_of_singleton]%elem_of_app; [by left|]. right. split; [done|].
      left. by apply C2.
    + intros Hn. left. split; [by apply C2|]. simpl. set_solver.
Qed.
Lemma sweep_fold s links k w k' w' : NoDup (Index <$> links) →
  foldl (visit opts s) (k, w) links = (k', w') → grows w w' ∧
  frame k k' (λ i, ∃ link, link ∈ links ∧ allowed opts link = true ∧ i = Index link) ∧
  (∀ n, n ∈ sw_attached w' → n ∈ sw_attached w ∨ ∃ link, link ∈ links ∧
     allowed opts link = true ∧ n = LName link ∧
     ((¬ vanished k' (Index link) → carried k' (Index link)) ∨
      n ∈ registry s ∧ sw_undecided w < sw_undecided w')) ∧
  (∀ link, link ∈ links → allowed opts link = true → ¬ vanished k' (Index link) →
     carried k' (Index link) ∧ LName link ∈ sw_attached w' ∨
     LName link ∈ sw_failing w' ∨ sw_undecided w < sw_undecided w').
Proof.
  induction links as [|l links IH] in k, w |- *; cbn [foldl fmap list_fmap].
  { intros _ [= <- <-]. split; [apply grows_refl|]. split_and!; [apply frame_refl|by left|].
    by intros link []%not_elem_of_nil. }
  intros [Hl Hnd]%NoDup_cons. destruct (visit opts s (k, w) l) as [k1 w1] eqn:E1.
  apply visit_spec in E1 as [Hg1 H1]. intros (Hg & Hf & Ha & Hc)%IH; [|done]. clear IH.
  assert (∀ link, link ∈ links → Index link ≠ Index l) as Hne.
  { intros link Hin E. apply Hl. rewrite -E. by apply list_elem_of_fmap_2. }
  pose proof Hf as (V & B & F). assert (¬ (∃ link, link ∈ links ∧ allowed opts link = true ∧
    Index l = Index link)) as Hout by (intros (x & Hx & _ & E); by apply (Hne x)).
  destruct Hg1 as (A1 & Fl1 & U1), Hg as (A2 & Fl2 & U2).
  split; [split_and!; [by eauto|by etrans|lia]|]. split_and!.
  - apply (frame_trans _ k1).
    + destruct (allowed opts l) eqn:El; [|destruct H1 as [-> ->]; apply frame_refl].
      destruct H1 as [H1 _]. eapply frame_weaken; [done|]. simpl. intros i ->. exists l.
      split_and!; [by left|done..].
    + eapply frame_weaken; [done|]. simpl. intros i (x & ? & ?). exists x. split; [by right|done].
  - intros n [Hn|(x & Hx & Hax & -> & Hor)]%Ha.
    + destruct (allowed opts l) eqn:El; [|destruct H1 as [-> ->]; by left].
      destruct H1 as (_ & H1 & _). apply H1 in Hn as [?|[-> Hor]]; [by left|]. right. exists l.
      split_and!; [by left|done..|]. destruct Hor as [Hor|[? ?]]; [left|right; split; [done|lia]].
      intros Hv. apply F; [done| |done]. apply Hor. by intros ?%V.
    + right. exists x. split_and!; [by right|done..|]. destruct Hor as [?|[? ?]]; [by left|].
      right. split; [done|lia].
  - intros x [->|Hx]%elem_of_cons Hax Hv.
    + rewrite Hax in H1. destruct H1 as (_ & _ & H1).
      destruct H1 as [[H1 H2]|[H1|H1]]; [by intros ?%V| | |].
      * left. split; [by apply F|by apply A2].
      * right. left. by apply Fl2.
      * right. right. lia.
    + destruct (Hc x Hx Hax Hv) as [?|[?|?]]; [by left|by right; left|]. right. right. lia.
Qed.
Lemma listTwice_spec k k' links : listTwice k = (k', (links, None)) →
  frame k k' (λ _, False) ∧ NoDup (Index <$> links).
Proof.
  rewrite /listTwice. destruct (LinkList k) as [k1 [l1 e1]] eqn:E1.
  apply listing_law in E1 as (V1 & B1 & F1 & N1). case_decide.
  - intros (V2 & B2 & F2 & N2)%listing_law. split; [|by apply N2].
    apply (frame_trans _ k1); split_and!; eauto.
  - intros [= <- <- ->]. split; [split_and!; eauto|by apply N1].
Qed.

(** C24: After a sweep the registry is what the kernel carries.  Given a listing
    (retried once) that is not interrupted, and with every link answering for
    itself, at the end of the sweep: the registry holds exactly names of listed,
    allowlisted links, each carrying the programs unless it vanished meanwhile; each
    listed, allowlisted link that still exists carries the programs and is in the
    registry, or its re-attach failed and it is among the failing; and no other
    link has been attached to or has lost anything. *)
Theorem resync_exact s k kl links k' w : listTwice k = (kl, (links, None)) →
  sweepAll opts s links kl = (k', w) → sw_undecided w = 0 →
  let s' := (resync opts s k).1 in
  (resync opts s k).2 = k' ∧
  (∀ n, n ∈ registry s' → ∃ link, link ∈ links ∧ allowed opts link = true ∧ n = LName link ∧
     (¬ vanished k' (Index link) → carried k' (Index link))) ∧
  (∀ link, link ∈ links → allowed opts link = true → ¬ vanished k' (Index link) →
     carried k' (Index link) ∧ LName link ∈ registry s' ∨ LName link ∈ failing s') ∧
  frame k k' (λ i, ∃ link, link ∈ links ∧ allowed opts link = true ∧ i = Index link).
Proof.
  intros El Ew Hu. rewrite /resync El Ew. simpl. apply listTwice_spec in El as [Hf Hnd].
  apply sweep_fold in Ew as (_ & Hf' & Ha & Hc); [|done]. simpl in *. split_and!; [done| | |].
  - intros n [[]%not_elem_of_nil|(x & ? & ? & ? & [?|[_ ?]])]%elem_of_list_to_set%Ha; [|lia].
    by exists x.
  - intros x Hx Hax Hv. destruct (Hc x Hx Hax Hv) as [[? ?]|[?|?]]; [|by right|lia].
    left. split; [done|]. by apply elem_of_list_to_set.
  - eapply frame_trans; [|done]. by eapply frame_weaken.
Qed.
End sweep_laws.

(** ** The attach machinery discharges the interface *)

Section link_attacher.
Context {K : Type} `{HK : !TcKernel K} `{HL : !TcLaws K} (ingress egress : Z).

Definition LinkAttacher : Attacher K := {|
  Attach link k := let '(k, (err, _)) := AttachTelemetry link ingress egress k in (k, err);
  Attached := HasTelemetry |}.
#[local] Existing Instance LinkAttacher.
Lemma quiet_carries (k k' : K) : quiet k k' →
  (∀ i, carries k' i → carries k i) ∧ (∀ i, carries k i → ¬ gone k' i → carries k' i).
Proof.
  intros Hq. split; intros i; [by apply (carries_back k k' i (holds k))|].
  by apply (carries_keep k k' i (holds k)).
Qed.
Definition LinkAttacher_laws : AttacherLaws K.
Proof.
  refine {| carried := carries; vanished := gone |}.
  - intros link k k' err. cbn [Attach LinkAttacher].
    destruct (AttachTelemetry _ _ _ k) as [k1 [err' warned]] eqn:E. intros [= <- <-].
    destruct (AttachTelemetry_frame _ _ _ _ _ _ E) as (S & HS & Hne).
    split_and!.
    + apply HS.
    + intros i Hi. apply (carries_back _ _ _ S); [done|]. intros g Eg. apply Hne. by rewrite Eg.
    + intros i Hi. apply (carries_keep _ _ _ S); [done|]. intros g Eg. apply Hne. by rewrite Eg.
    + intros ->. by eapply AttachTelemetry_carries.
  - intros link k k' b err E. apply HasTelemetry_sound in E as [Hq Hb].
    destruct (quiet_carries _ _ Hq) as [Hback Hkeep]. split_and!; [apply Hq|done..|].
    intros [_ Hc]%Hb. by apply Hkeep.
  - intros i k k' b (V & H & Hb)%lookup_law.
    destruct (quiet_carries k k') as [Hback Hkeep]; [done|]. by split_and!.
  - intros k k' links err (V & H & Hn)%links_law.
    destruct (quiet_carries k k') as [Hback Hkeep]; [done|]. split_and!; [done..|].
    intros E. by destruct (Hn E).
Defined.
End link_attacher.

(** ** The backoff *)

(** The delays in closed form: the minimum, doubled for each consecutive loss of a
    session shorter than the maximum, capped; [n] losses so far. *)
Fixpoint expectedDelays {K} (b : backoffPolicy) (n : Z) (sessions : list (session (K := K))) : list Z :=
  match sessions with
  | [] => []
  | ses :: sessions =>
      if ctxDone ses then []
      else
        let n := if decide (bmax b ≤ lasted ses) then 0 else n in
        Z.min (bmin b * 2 ^ n) (bmax b) ::
          (if waitDone ses then [] else expectedDelays b (n + 1) sessions)
  end.
Section backoff.
Context {K : Type} `{HK : !TcKernel K} `{HA : !Attacher K} (opts : Options).

Lemma next_closed b n : 0 < bmin b ≤ bmax b → bmax b < 2 ^ 62 → 0 ≤ n →
  next b (Z.min (bmin b * 2 ^ n) (bmax b)) = Z.min (bmin b * 2 ^ (n + 1)) (bmax b).
Proof.
  intros Hb Hm Hn. rewrite /next Z.pow_add_r // Z.pow_1_r.
  pose proof (Z.pow_pos_nonneg 2 n ltac:(lia) Hn) as Hp.
  rewrite i64_id; [split; [|apply Z.le_lt_trans with (2 * bmax b)]; lia || nia|]. nia.
Qed.
Lemma Run_delays b n delay first sessions s (k : K) : 0 < bmin b ≤ bmax b → bmax b < 2 ^ 62 →
  0 ≤ n → delay = Z.min (bmin b * 2 ^ n) (bmax b) →
  (Run opts b delay first sessions s k).1.2 = expectedDelays b n sessions.
Proof.
  intros Hb Hm. induction sessions as [|ses sessions IH] in n, delay, first, s, k |- *; intros Hn ->; [done|].
  simpl. destruct (runStream _ _ _ _ _) as [s1 k1]. destruct (ctxDone ses); [done|].
  set (n' := if decide (bmax b ≤ lasted ses) then 0 else n).
  assert (0 ≤ n' ∧ (if decide (bmax b ≤ lasted ses) then bmin b else Z.min (bmin b * 2 ^ n) (bmax b)) =
    Z.min (bmin b * 2 ^ n') (bmax b)) as [Hn' ->].
  { rewrite /n'. case_decide; [|done]. split; [done|]. rewrite Z.pow_0_r. lia. }
  destruct (waitDone ses); [done|].
  specialize (IH (n' + 1) (next b (Z.min (bmin b * 2 ^ n') (bmax b))) true
    (setMetrics (recordRestart (metrics s1)) s1) k1 ltac:(lia) (next_closed b n' Hb Hm Hn')).
  destruct (Run _ _ _ _ _ _ _) as [[[? ?] waits] ?]. simpl in *. by rewrite IH.
Qed.
Lemma expectedDelays_bounded b n (sessions : list (session (K := K))) : 0 < bmin b ≤ bmax b → 0 ≤ n →
  Forall (λ d, bmin b ≤ d ≤ bmax b) (expectedDelays b n sessions).
Proof.
  intros Hb. induction sessions as [|ses sessions IH] in n |- *; intros Hn; simpl; [done|].
  destruct (ctxDone ses); [done|].
  assert (∀ m, 0 ≤ m → bmin b ≤ Z.min (bmin b * 2 ^ m) (bmax b) ≤ bmax b) as Hd.
  { intros m Hpos. pose proof (Z.pow_pos_nonneg 2 m ltac:(lia) Hpos). nia. }
  constructor; [apply Hd; by case_decide|]. destruct (waitDone ses); [done|].
  apply IH. case_decide; lia.
Qed.

(** However often the subscription is lost, the waits between two attempts are
    those of the documented schedule: they start at a second, double with each
    consecutive loss of a session shorter than thirty seconds, start over after a
    longer one, and never leave the interval from a second to thirty. *)
Theorem resubscribe_schedule sessions s (k : K) :
  let b := mkBackoff resubscribeBackoffMin resubscribeBackoffMax in
  let waits := (Run opts b (bmin b) false sessions s k).1.2 in
  waits = expectedDelays b 0 sessions ∧
  Forall (λ d, resubscribeBackoffMin ≤ d ≤ resubscribeBackoffMax) waits.
Proof.
  intros b waits. assert (waits = expectedDelays b 0 sessions) as E.
  { by apply Run_delays. }
  split; [done|]. rewrite E. by apply (expectedDelays_bounded b).
Qed.
End backoff.

Module LinkExamples.
Import TcSim TcExamples.
#[local] Existing Instance LinkAttacher.
#[local] Existing Instance LinkAttacher_laws.
Definition opts : Options := mkOptions ["tap"] ["uplink0"] (60 * second).
Definition tapB : NetLink := mkLink 6 "tapB" "tun".
Definition tapC : NetLink := mkLink 7 "tapC" "tun".
Definition proxyVeth : NetLink := mkLink 8 "tap-meta" "veth".
Definition uplink0 : NetLink := mkLink 9 "uplink0" "veth".
(** tapA has lost its ingress filter, tapB carries the pair, tapC refuses the
    programs (the fourth call, for its ingress filter, fails). *)
Definition host : sim := mkSim
  [foreign; egressOld; ingressFilter tapB 7; egressFilter tapB 8] []
  [tapA; tapB; tapC; proxyVeth; uplink0]
  (replicate 3 (None, None) ++ [(Some "EPERM"%string, None)]).
#[local] Instance programs : Attacher sim := LinkAttacher 7 8.
#[local] Instance programs_laws : AttacherLaws sim := LinkAttacher_laws 7 8.
(** The registry a missed event and an out-of-band removal left. *)
Definition stale : linuxSubscriber := mkSub {["tapA"; "tapOld"]} NewMetrics ∅ ∅.

Example allowlist :
  ShouldAttach "tapA" "tun" ["tap"] [] = (true, "") ∧
  ShouldAttach "tap-meta" "veth" ["tap"] [] = (false, skipReasonVeth) ∧
  ShouldAttach "tap-meta" "veth" ["tap"] ["tap-meta"] = (true, "") ∧
  ShouldAttach "eth0" "device" [""; "tap"] [] = (false, "").
Proof. by vm_compute. Qed.
(** A refused link is reported once per appearance. *)
Example skip_once :
  let ev msg := LinkUpdate (K := sim) msg proxyVeth in
  let '(s, k) := foldl (onEvent opts) (newLinuxSubscriber, host)
    [ev RTM_NEWLINK; ev RTM_NEWLINK; ev RTM_DELLINK; ev RTM_NEWLINK] in
  skippedCount (metrics s) !! skipReasonVeth = Some 2 ∧ Snapshot (registry s) = [].
Proof. by vm_compute. Qed.
Example sweep_host :
  let '(s, k) := resync opts stale host in
  Snapshot (registry s) = ["tapA"; "tapB"; "uplink0"] ∧ elements (failing s) = ["tapC"] ∧
  unattached (metrics s) !! ifaceKindTap = Some 1 ∧
  reattaches (metrics s) !! (ifaceKindTap, outcomeHealed) = Some 1 ∧
  reattaches (metrics s) !! (ifaceKindOther, outcomeHealed) = Some 1.
Proof. by vm_compute. Qed.
Lemma resync_exact_witness :
  let ls := listTwice host in
  let w := sweepAll opts stale ls.2.1 ls.1 in
  let s' := (resync opts stale host).1 in
  ls.2.2 = None ∧ sw_undecided w.2 = 0 ∧ registry s' = {["tapA"; "tapB"; "uplink0"]} ∧
  ∀ n, n ∈ registry s' → ∃ link, link ∈ ls.2.1 ∧ allowed opts link = true ∧ n = LName link ∧
    (¬ vanished w.1 (Index link) → carried w.1 (Index link)).
Proof.
  intros ls w s'. split; [by vm_compute|]. split; [by vm_compute|]. split; [by vm_compute|].
  destruct (resync_exact opts stale host ls.1 ls.2.1 w.1 w.2) as (_ & H & _);
    [by vm_compute|by rewrite /w; destruct (sweepAll _ _ _ _)|by vm_compute|exact H].
Defined.
End LinkExamples.
