(* ===== verification/Debug.v ===== *)
(** * The debug pages (internal/debug: index, lookup, flows, zones, anomalies)

    The view models behind /debug: what each page shows of the committed sync, of
    the metadata and of the live counters.  Templates, routing and the encoding of
    a model as JSON are left out.  A query by an IPv6 address is outside the model,
    as in file Lookup. *)
From S2P Require Import Prelude GoStrings GoArgs NetIP Bpf State Metadata Neutron Trie Lookup Sync.
From Stdlib Require Import Ascii.
From Stdlib Require String.

(** ** View models (schema.go) *)

Record indexCounts := mkIndexCounts {
  IC_Tenants : Z; IC_Networks : Z; IC_Subnets : Z; IC_Ports : Z; IC_Routers : Z; IC_TrieRows : Z }.
Record anomalyCounts := mkAnomalyCounts {
  AC_Total : Z; AC_Cycles : Z; AC_Ambiguities : Z; AC_DanglingRoutes : Z; AC_ZeroTrieTenants : Z;
  AC_DuplicateRouterMACs : Z; AC_MultiExternalPaths : Z }.
Record lookupQuery := mkQuery { LQ_IP : string; LQ_MAC : string; LQ_Tenant : string }.
Record lookupTrieRow := mkLookupTrieRow {
  LT_TenantID : string; LT_TenantName : string; LT_Prefix : string; LT_Zone : string }.
Record lookupZone := mkLookupZone { LZ_Code : string; LZ_Via : string; LZ_Match : lookupTrieRow }.
Record lookupSubnet := mkLookupSubnet { LS_ID : string; LS_CIDR : string; LS_GatewayIP : string }.
Record lookupNetwork := mkLookupNetwork {
  LN_ID : string; LN_Name : string; LN_Shared : bool; LN_IsExternal : bool }.
Record lookupPort := mkLookupPort {
  LP_ID : string; LP_MAC : string; LP_DeviceOwner : string; LP_DeviceID : string }.
Record lookupTenant := mkLookupTenant { LO_ID : string; LO_Name : string }.
Record lookupNeutron := mkLookupNeutron {
  LNe_Subnet : option lookupSubnet; LNe_Network : option lookupNetwork;
  LNe_Port : option lookupPort; LNe_Owner : option lookupTenant }.
Record lookupMACEntry := mkLookupMACEntry {
  LM_Found : bool; LM_TenantID : string; LM_TenantName : string; LM_PortID : string;
  LM_IsAmphora : bool }.
Record lookupResult := mkLookupResult {
  LR_Query : lookupQuery; LR_Zone : option lookupZone; LR_Neutron : option lookupNeutron;
  LR_MAC : option lookupMACEntry }.
Record indexModel := mkIndexModel {
  IM_Synced : bool; IM_LastSync : option Z; IM_SyncAgeText : string; IM_SyncStale : bool;
  IM_Counts : indexCounts; IM_Anomalies : anomalyCounts }.

Record cycleRow := mkCycleRow {
  CR_SourceTenant : string; CR_SourceTenantName : string; CR_SourceRouter : string;
  CR_Destination : string; CR_LoopRouter : string }.
Record ambiguityRow := mkAmbiguityRow {
  AR_SourceTenant : string; AR_SourceTenantName : string; AR_RouterID : string;
  AR_Destination : string; AR_Owners : list string; AR_OwnersDisplay : string }.
Record danglingRowView := mkDanglingRow {
  DR_SourceTenant : string; DR_SourceTenantName : string; DR_SourceRouter : string;
  DR_Destination : string; DR_Nexthop : string }.
Record zeroTrieRow := mkZeroTrieRow {
  ZR_TenantID : string; ZR_TenantName : string; ZR_Networks : Z; ZR_Routers : Z; ZR_Ports : Z }.
Record dupMACRow := mkDupMACRow {
  MR_MAC : string; MR_PortIDs : list string; MR_RouterIDs : list string; MR_PortsDisplay : string;
  MR_RoutersDisplay : string }.
Record multiExternalPathRow := mkMultiExternalPathRow {
  ER_PortID : string; ER_ServerID : string; ER_ProjectID : string; ER_TenantName : string;
  ER_Candidates : list string; ER_Picked : string; ER_CandidatesDisplay : string }.
Record anomaliesModel := mkAnomaliesModel {
  AM_Total : Z; AM_Cycles : list cycleRow; AM_Ambiguities : list ambiguityRow;
  AM_DanglingRoutes : list danglingRowView; AM_ZeroTrieTenants : list zeroTrieRow;
  AM_DuplicateRouterMACs : list dupMACRow; AM_MultiExternalPaths : list multiExternalPathRow }.

Record tenantOption := mkTenantOption { TO_ID : string; TO_Label : string }.
Record zoneRow := mkZoneRow {
  ZoR_Tenant : string; ZoR_TenantName : string; ZoR_Prefix : string; ZoR_Zone : string }.
Record zonesModel := mkZonesModel {
  ZM_Synced : bool; ZM_LastSync : option Z; ZM_Tenants : list tenantOption; ZM_Rows : list zoneRow }.

Record flowRow := mkFlowRow {
  FR_SrcMAC : string; FR_DstMAC : string; FR_Direction : string; FR_Zone : string;
  FR_Bytes : Z; FR_Packets : Z }.
Record flowsResult := mkFlowsResult { FS_MAC : string; FS_Total : Z; FS_Rows : list flowRow }.

Definition syncStaleThreshold : Z := 5 * minute.

(** What the accessors of [Options] answer during a request; [New] replaces a nil
    accessor by one that answers nothing.  A zero time is [None]. *)
Record Options := mkOptions {
  O_Snapshot : option Snapshot; O_Trie : list TrieEntry; O_Anomalies : option Anomalies;
  O_LastSync : option Z; O_MACLookup : Z → option TenantMeta;
  O_Flows : option (list (FlowKey * FlowMetrics)); O_StaleAfter : option Z }.

(** ** Names and texts *)

Definition projectName (snap : option Snapshot) (id : string) : string :=
  match snap with None => "" | Some s => ProjectName s id end.
(** The first eight bytes and an ellipsis. *)
Definition shortID (id : string) : string :=
  if decide (8 < String.length id)%nat then String.substring 0 8 id +:+ "…" else id.
Definition tenantDisplay (id : string) (snap : option Snapshot) : string :=
  if decide (id = "") then "(global)"
  else let name := projectName snap id in if decide (name ≠ "") then name else id.
Definition tenantLabel (id : string) (snap : option Snapshot) : string :=
  if decide (id = "") then "(global)"
  else
    let name := projectName snap id in
    if decide (name = "") then shortID id else name +:+ " (" +:+ shortID id +:+ ")".
Definition ownersDisplay (ids : list string) (snap : option Snapshot) : string :=
  String.concat ", " ((λ id,
    let name := projectName snap id in
    if decide (name ≠ "") then name +:+ " (" +:+ id +:+ ")" else id) <$> ids).
Definition hexDigit (z : Z) : ascii :=
  if decide (z < 10) then ascii_of_N (Z.to_N (48 + z)) else ascii_of_N (Z.to_N (87 + z)).
Definition hexByte (z : Z) : string :=
  String (hexDigit (z / 16)) (String (hexDigit (z `mod` 16)) EmptyString).
(** [net.HardwareAddr.String]. *)
Definition macString (m : MacAddr) : string :=
  String.concat ":" (hexByte <$> [mb0 m; mb1 m; mb2 m; mb3 m; mb4 m; mb5 m]).

Definition humanAge (d : Z) : string :=
  let d := if decide (d < 0) then 0 else d in
  if decide (d < minute) then print_dec (d / second) +:+ "s"
  else if decide (d < hour) then print_dec (d / minute) +:+ "m"
  else
    let h := d / hour in
    let m := d `mod` hour / minute in
    if decide (m = 0) then print_dec h +:+ "h" else print_dec h +:+ "h" +:+ print_dec m +:+ "m".
(** [time.Time.Sub] saturates. *)
Definition timeSub (t u : Z) : Z := Z.max (- 2 ^ 63) (Z.min (t - u) (2 ^ 63 - 1)).

(** ** The index page (index.go) *)

Definition staleAfter (o : Options) : Z := default syncStaleThreshold (O_StaleAfter o).
Definition countTenants (snap : Snapshot) : Z :=
  let set := foldl (λ m n, addTenant m (Net_ProjectID n)) ∅ (Networks snap) in
  let set := foldl (λ m r, addTenant m (Router_ProjectID r)) set (Routers snap) in
  let set := foldl (λ m p, addTenant m (Port_ProjectID p)) set (Ports snap) in
  Z.of_nat (size set).
Definition lenZ {A} (l : list A) : Z := Z.of_nat (length l).
Definition buildIndexModel (snap : option Snapshot) (trie : list TrieEntry)
    (anomalies : option Anomalies) (last : option Z) (now stale : Z) : indexModel :=
  let counts := match snap with
    | None => mkIndexCounts 0 0 0 0 0 (lenZ trie)
    | Some s => mkIndexCounts (countTenants s) (lenZ (Networks s)) (lenZ (Subnets s)) (lenZ (Ports s))
                  (lenZ (Routers s)) (lenZ trie)
    end in
  let classes := match anomalies with
    | None => mkAnomalyCounts 0 0 0 0 0 0 0
    | Some a => mkAnomalyCounts (Anomalies_Total a) (lenZ (An_Cycles a)) (lenZ (An_Ambiguities a))
                  (lenZ (An_DanglingRoutes a)) (lenZ (An_ZeroTrieTenants a))
                  (lenZ (An_DuplicateRouterMACs a)) (lenZ (An_MultiExternalPaths a))
    end in
  match last with
  | None => mkIndexModel false None "" false counts classes
  | Some t =>
      let age := timeSub now t in
      mkIndexModel true (Some t) (humanAge age +:+ " ago") (bool_decide (stale < age)) counts classes
  end.

(** ** The anomalies page (anomalies.go) *)

Definition buildAnomaliesModel (a : option Anomalies) (snap : option Snapshot) : anomaliesModel :=
  match a with
  | None => mkAnomaliesModel 0 [] [] [] [] [] []
  | Some a => mkAnomaliesModel (Anomalies_Total a)
      ((λ h, mkCycleRow (Cyc_SourceTenant h) (projectName snap (Cyc_SourceTenant h))
          (Cyc_SourceRouter h) (Prefix_String (Cyc_Destination h)) (Cyc_LoopRouter h)) <$> An_Cycles a)
      ((λ h, mkAmbiguityRow (Amb_SourceTenant h) (projectName snap (Amb_SourceTenant h)) (Amb_RouterID h)
          (Prefix_String (Amb_Destination h)) (Amb_Owners h) (ownersDisplay (Amb_Owners h) snap))
         <$> An_Ambiguities a)
      ((λ h, mkDanglingRow (Dang_SourceTenant h) (projectName snap (Dang_SourceTenant h))
          (Dang_SourceRouter h) (Dang_Destination h) (Dang_Nexthop h)) <$> An_DanglingRoutes a)
      ((λ h, mkZeroTrieRow (ZT_TenantID h) (projectName snap (ZT_TenantID h)) (ZT_Networks h)
          (ZT_Routers h) (ZT_Ports h)) <$> An_ZeroTrieTenants a)
      ((λ h, mkDupMACRow (Dup_MAC h) (Dup_PortIDs h) (Dup_RouterIDs h)
          (String.concat ", " (Dup_PortIDs h)) (String.concat ", " (Dup_RouterIDs h)))
         <$> An_DuplicateRouterMACs a)
      ((λ h, mkMultiExternalPathRow (MX_PortID h) (MX_ServerID h) (MX_ProjectID h)
          (projectName snap (MX_ProjectID h)) (MX_Candidates h) (MX_Picked h)
          (String.concat ", " (MX_Candidates h))) <$> An_MultiExternalPaths a)
  end.

(** ** The zones page (zones.go) *)

Section zones.
Context `{GoRange}.

Definition buildZonesModel (entries : list TrieEntry) (snap : option Snapshot) (lastSync : option Z)
    : zonesModel :=
  let synced := bool_decide (lastSync ≠ None) in
  match entries with
  | [] => mkZonesModel synced lastSync [] []
  | _ =>
      let seen : gmap string () := foldl (λ seen e, <[TE_TenantID e := ()]> seen) ∅ entries in
      let ids := sort_strings (go_range seen).*1 in
      mkZonesModel synced lastSync ((λ id, mkTenantOption id (tenantLabel id snap)) <$> ids)
        ((λ e, mkZoneRow (TE_TenantID e) (tenantDisplay (TE_TenantID e) snap)
            (Prefix_String (TE_Prefix e)) (ZoneCode_String (TE_Zone e))) <$> entries)
  end.
End zones.

(** ** The lookup (lookup.go) *)

(** [netip.ParseAddr]: the first dot, colon or percent sign decides the form. *)
Inductive parsedAddr := AddrBad | AddrV4 (ip : Z) | AddrV6.
Fixpoint addrForm (s : string) : option ascii :=
  match s with
  | EmptyString => None
  | String a s =>
      if decide (a = "."%char ∨ a = ":"%char ∨ a = "%"%char) then Some a else addrForm s
  end.
Definition parseAddr (s : string) : parsedAddr :=
  match addrForm s with
  | Some a =>
      if decide (a = ":"%char) then AddrV6
      else if decide (a = "%"%char) then AddrBad
      else match ParseAddr4 s with Some ip => AddrV4 ip | None => AddrBad end
  | None => AddrBad
  end.

Definition neutronSectionFrom (snap : option Snapshot) (m : ResourceMatch) : option lookupNeutron :=
  match M_Subnet m, M_Network m, M_Port m with
  | None, None, None => None
  | subnet, network, port =>
      let ownerID :=
        match port, network with
        | Some p, _ =>
            if decide (Port_ProjectID p ≠ "") then Port_ProjectID p
            else match network with Some n => Net_ProjectID n | None => "" end
        | None, Some n => Net_ProjectID n
        | None, None => ""
        end in
      Some (mkLookupNeutron
        ((λ s, mkLookupSubnet (Sub_ID s) (Sub_CIDR s) (Sub_GatewayIP s)) <$> subnet)
        ((λ n, mkLookupNetwork (Net_ID n) (Net_Name n) (Net_Shared n) (Net_IsExternal n)) <$> network)
        ((λ p, mkLookupPort (Port_ID p) (Port_MACAddress p) (Port_DeviceOwner p) (Port_DeviceID p)) <$> port)
        (if decide (ownerID ≠ "") then Some (mkLookupTenant ownerID (projectName snap ownerID)) else None))
  end.
Definition fillIPLookup (o : Options) (q : lookupQuery) (ip : Z) (tenant : string) : lookupResult :=
  let zone :=
    match LookupZone (O_Trie o) ip tenant with
    | (Some row, via) => Some (mkLookupZone (ZoneCode_String (TE_Zone row)) via
        (mkLookupTrieRow (TE_TenantID row) (projectName (O_Snapshot o) (TE_TenantID row))
           (Prefix_String (TE_Prefix row)) (ZoneCode_String (TE_Zone row))))
    | (None, _) => None
    end in
  mkLookupResult q zone (neutronSectionFrom (O_Snapshot o) (LookupResource (O_Snapshot o) ip tenant)) None.
Definition fillMACLookup (o : Options) (q : lookupQuery) (hw : MacAddr) (canon : string) : lookupResult :=
  let entry :=
    match O_MACLookup o (MACKey hw) with
    | Some meta => mkLookupMACEntry true (ProjectID meta)
        (projectName (O_Snapshot o) (ProjectID meta)) (PortID meta) (IsAmphora meta)
    | None => mkLookupMACEntry false "" "" "" false
    end in
  mkLookupResult q None (neutronSectionFrom (O_Snapshot o) (LookupPortByMAC (O_Snapshot o) canon)) (Some entry).

Inductive lookupError := NotBoth | InvalidIP | InvalidMAC | NoParameter.
Inductive lookupAnswer :=
  | Answer (r : lookupResult) | Refused (e : lookupError) | Blank | OutsideModel.
Definition runLookup (o : Options) (ip mac tenant : string) : lookupAnswer :=
  if decide (ip = "" ∧ mac = "") then Blank
  else if decide (ip ≠ "" ∧ mac ≠ "") then Refused NotBoth
  else if decide (ip ≠ "") then
    match parseAddr ip with
    | AddrBad => Refused InvalidIP
    | AddrV4 addr => Answer (fillIPLookup o (mkQuery ip mac tenant) addr tenant)
    | AddrV6 => OutsideModel
    end
  else
    match ParseMAC mac with
    | None => Refused InvalidMAC
    | Some hw => Answer (fillMACLookup o (mkQuery ip (macString hw) tenant) hw (macString hw))
    end.
(** The status and the body of /debug/lookup. *)
Definition handleLookup (o : Options) (ip mac tenant : string) : Z * lookupAnswer :=
  let ip := TrimSpace ip in let mac := TrimSpace mac in let tenant := TrimSpace tenant in
  if decide (ip = "" ∧ mac = "") then (400, Refused NoParameter)
  else match runLookup o ip mac tenant with
       | Refused e => (400, Refused e)
       | a => (200, a)
       end.
(** The index page: its model, and the query it echoes with the lookup's answer. *)
Definition handleIndex (o : Options) (now : Z) (ip mac tenant : string)
    : indexModel * (lookupQuery * lookupAnswer) :=
  let model := buildIndexModel (O_Snapshot o) (O_Trie o) (O_Anomalies o) (O_LastSync o) now (staleAfter o) in
  let ip := TrimSpace ip in let mac := TrimSpace mac in let tenant := TrimSpace tenant in
  (model,
   if decide (ip ≠ "" ∨ mac ≠ "") then
     match runLookup o ip mac tenant with
     | Answer r => (mkQuery ip (LQ_MAC (LR_Query r)) tenant, Answer r)
     | a => (mkQuery ip mac tenant, a)
     end
   else (mkQuery "" "" "", Blank)).

(** ** The flows of a MAC (flows.go) *)

(** [sort.Slice] by falling bytes, up to the order of ties. *)
Definition bytes_ge (a b : flowRow) : Prop := FR_Bytes b ≤ FR_Bytes a.
#[export] Instance bytes_ge_dec : RelDecision bytes_ge.
Proof. intros a b. rw /bytes_ge. apply _. Defined.
Definition flowRowOf (e : FlowKey * FlowMetrics) : flowRow :=
  mkFlowRow (macString (SrcMac e.1)) (macString (DstMac e.1)) (Direction_String (Direction_ e.1))
    (ZoneCode_String (DstZone e.1)) (Bytes e.2) (Packets e.2).
Definition handleFlows (o : Options) (mac : string) : Z * (flowsResult + lookupError) :=
  let q := TrimSpace mac in
  if decide (q = "") then (400, inr NoParameter)
  else
    match ParseMAC q with
    | None => (400, inr InvalidMAC)
    | Some hw =>
        let want := MACKey hw in
        let rows := flowRowOf <$> filter (λ e : FlowKey * FlowMetrics,
          MACKey (SrcMac e.1) = want ∨ MACKey (DstMac e.1) = want) (default [] (O_Flows o)) in
        let rows := merge_sort bytes_ge rows in
        (200, inl (mkFlowsResult (macString hw) (lenZ rows) rows))
    end.

(** ** MAC addresses in print *)

Lemma hexDigit_value z : 0 ≤ z < 16 → hex_value (hexDigit z) = Some z ∧ hexDigit z ≠ ":"%char.
Proof.
  intros Hz. assert (z ∈ seqZ 0 16) as Hin by (by apply elem_of_seqZ). clear Hz. revert z Hin.
  apply list.Forall_forall. by apply (bool_decide_unpack _); vm_compute.
Qed.
Lemma hexByte_parse z : u8_range z → parse_byte (hexByte z) = Some z.
Proof.
  rewrite /u8_range => Hz. rewrite /hexByte /parse_byte /hex_byte.
  destruct (hexDigit_value (z / 16)) as [-> _]; [split; [apply Z.div_pos; lia|apply Z.div_lt_upper_bound; lia]|].
  destruct (hexDigit_value (z `mod` 16)) as [-> _]; [apply Z.mod_pos_bound; lia|]. simpl. f_equal.
  pose proof (Z_div_mod_eq_full z 16). lia.
Qed.
Lemma split_hexByte z s : u8_range z →
  split_on ":" (hexByte z +:+ String ":" s) = hexByte z :: split_on ":" s ∧
  split_on ":" (hexByte z) = [hexByte z].
Proof.
  rewrite /u8_range => Hz. rewrite /hexByte /=.
  destruct (hexDigit_value (z / 16)) as [_ H1]; [split; [apply Z.div_pos; lia|apply Z.div_lt_upper_bound; lia]|].
  destruct (hexDigit_value (z `mod` 16)) as [_ H2]; [apply Z.mod_pos_bound; lia|].
  rewrite !(decide_False _ _ H1) !(decide_False _ _ H2). done.
Qed.

(** The canonical text of a MAC address parses to the address. *)
Lemma macString_parse m : mac_ok m → ParseMAC (macString m) = Some m.
Proof.
  destruct m as [a b c d e f]. rewrite /mac_ok /=. intros (Ha & Hb & Hc & Hd & He & Hf).
  rewrite /ParseMAC /macString. cbn [mb0 mb1 mb2 mb3 mb4 mb5 fmap list_fmap String.concat].
  change (":"%string) with (String ":" ""). cbn [String.append].
  rewrite !(proj1 (split_hexByte _ _ _)) // (proj2 (split_hexByte f "" Hf)).
  by rewrite /mac_of_fields !hexByte_parse.
Qed.
(** ** What the pages answer *)

#[export] Instance bytes_ge_total : base.Total bytes_ge.
Proof. intros a b. rewrite /bytes_ge. lia. Qed.
#[export] Instance bytes_ge_trans : Transitive bytes_ge.
Proof. intros a b c. rewrite /bytes_ge. lia. Qed.

Lemma filter_ext_in {A} (P Q : A → Prop) `{∀ x, Decision (P x), ∀ x, Decision (Q x)} (l : list A) :
  (∀ x, x ∈ l → P x ↔ Q x) → filter P l = filter Q l.
Proof.
  induction l as [|x l IH]; intros Hl; [done|]. rewrite !filter_cons IH.
  - intros y Hy. apply Hl. by right.
  - pose proof (Hl x ltac:(by left)). repeat case_decide; tauto.
Qed.

(** The flows page shows every flow of the MAC and no other.  For a query that
    parses to a MAC, the rows are the live counters with the MAC on either side,
    each decoded once, in order of falling bytes, with their number; the address
    echoed parses to the one asked for; an agent without the accessor answers an
    empty page; any other query is refused. *)
Theorem flows_exact o mac :
  (∀ e, e ∈ default [] (O_Flows o) → mac_ok (SrcMac e.1) ∧ mac_ok (DstMac e.1)) →
  match ParseMAC (TrimSpace mac), handleFlows o mac with
  | Some hw, (status, inl r) => status = 200 ∧ ParseMAC (FS_MAC r) = Some hw ∧
      FS_Total r = lenZ (FS_Rows r) ∧ StronglySorted bytes_ge (FS_Rows r) ∧
      FS_Rows r ≡ₚ flowRowOf <$>
        filter (λ e : FlowKey * FlowMetrics, SrcMac e.1 = hw ∨ DstMac e.1 = hw) (default [] (O_Flows o))
  | None, (status, inr _) => status = 400
  | _, _ => False
  end.
Proof.
  intros Hok. rewrite /handleFlows. destruct (ParseMAC (TrimSpace mac)) as [hw|] eqn:Ep.
  - rewrite decide_False; [by intros E; rewrite E in Ep|]. pose proof (ParseMAC_ok _ _ Ep) as Hhw. simpl.
    split_and!; [done|by apply macString_parse|done|apply (StronglySorted_merge_sort bytes_ge)|].
    rewrite merge_sort_Permutation. f_equiv.
    rewrite (filter_ext_in _ (λ e : FlowKey * FlowMetrics, SrcMac e.1 = hw ∨ DstMac e.1 = hw)) //.
    intros e [Hs Hd]%Hok. split; (intros [E|E]; [left|right]);
      [by apply MACKey_inj|by apply MACKey_inj|by rewrite E|by rewrite E].
  - by case_decide.
Qed.

(** Every spelling of a MAC address gets the same answer, that of its canonical
    text, which is what the page echoes.  The answer names the port Neutron has for
    the address and what the store attributes to it. *)
Theorem lookup_by_mac o mac tenant hw : ParseMAC mac = Some hw →
  runLookup o "" mac tenant = runLookup o "" (macString hw) tenant ∧
  ∃ r, runLookup o "" mac tenant = Answer r ∧ LQ_MAC (LR_Query r) = macString hw ∧ LR_Zone r = None ∧
    LR_Neutron r = neutronSectionFrom (O_Snapshot o) (LookupPortByMAC (O_Snapshot o) (macString hw)) ∧
    match O_MACLookup o (MACKey hw), LR_MAC r with
    | Some meta, Some e => LM_Found e = true ∧ LM_TenantID e = ProjectID meta ∧ LM_PortID e = PortID meta
    | None, Some e => LM_Found e = false
    | _, None => False
    end.
Proof.
  intros Ep. pose proof (ParseMAC_ok _ _ Ep) as Hok. pose proof (macString_parse _ Hok) as Ep'.
  assert (∀ s, ParseMAC s = Some hw → runLookup o "" s tenant =
    Answer (fillMACLookup o (mkQuery "" (macString hw) tenant) hw (macString hw))) as Hrun.
  { intros s Es. rewrite /runLookup decide_False; [intros [_ ->]; done|].
    by rewrite Es. }
  rewrite !Hrun //. split; [done|]. eexists. split; [done|]. rewrite /fillMACLookup. simpl.
  by destruct (O_MACLookup o (MACKey hw)).
Qed.

(** Asked for an IPv4 address, the page shows the row the trie answers with: the
    tenant's longest row that contains the address, failing that the longest global
    one; no zone at all exactly when neither exists. *)
Theorem lookup_by_ip o ip tenant addr : parseAddr ip = AddrV4 addr →
  (∀ e, e ∈ O_Trie o → prefix4_ok (TE_Prefix e)) →
  ∃ r, runLookup o ip "" tenant = Answer r ∧ LR_MAC r = None ∧
    match LR_Zone r with
    | Some z => ∃ e, LZ_Code z = ZoneCode_String (TE_Zone e) ∧
        LT_Prefix (LZ_Match z) = Prefix_String (TE_Prefix e) ∧ LT_TenantID (LZ_Match z) = TE_TenantID e ∧
        (LZ_Via z = "tenant" ∧ tenant ≠ "" ∧ longest (O_Trie o) addr tenant e ∨
         LZ_Via z = "global" ∧ longest (O_Trie o) addr "" e ∧
           (tenant ≠ "" → ∀ f, ¬ matching (O_Trie o) addr tenant f))
    | None => ∀ f, ¬ matching (O_Trie o) addr tenant f ∧ ¬ matching (O_Trie o) addr "" f
    end.
Proof.
  intros Ea Hok. assert (ip ≠ "") as Hip by (by intros ->).
  exists (fillIPLookup o (mkQuery ip "" tenant) addr tenant). split.
  { rewrite /runLookup decide_False; [by intros []|]. rewrite decide_False; [by intros [_ []]|].
    by rewrite decide_True // Ea. }
  split; [done|]. rewrite /fillIPLookup /=. pose proof (LookupZone_spec (O_Trie o) addr tenant Hok) as Hz.
  destruct (LookupZone (O_Trie o) addr tenant) as [[e|] via].
  - by exists e.
  - destruct Hz as (_ & ? & ?). by split.
Qed.

Lemma unit_map_ext `{Countable A} (m1 m2 : gmap A ()) :
  (∀ t, is_Some (m1 !! t) ↔ is_Some (m2 !! t)) → m1 = m2.
Proof.
  intros Hm. apply map_eq. intros t. specialize (Hm t).
  destruct (m1 !! t) as [[]|], (m2 !! t) as [[]|]; [done| | |done];
    [by destruct (proj1 Hm ltac:(done))|by destruct (proj2 Hm ltac:(done))].
Qed.
(** The tenants the index page counts are those the trie builder serves. *)
Lemma countTenants_collect `{GoRange} snap :
  countTenants snap = lenZ (collectTenants (Networks snap) (Ports snap) (Routers snap)).
Proof.
  rewrite /countTenants /lenZ. f_equal.
  rewrite (Permutation_length (sort_strings_perm _)) length_fmap length_go_range. f_equal.
  apply unit_map_ext. intros t. rewrite !addTenant_Some. tauto.
Qed.

Module DebugExamples.
Import Demo.
Definition macA : MacAddr := mkMac 2 0 0 0 0 10.
Definition macB : MacAddr := mkMac 2 0 0 0 0 11.
Definition macX : MacAddr := mkMac 2 0 0 0 0 255.
Definition flowAB : FlowKey * FlowMetrics := (mkFlowKey macA macB 2048 0 1 6 0, mkFlowMetrics 100 2 5 1).
Definition flowXA : FlowKey * FlowMetrics := (mkFlowKey macX macA 2048 1 2 17 0, mkFlowMetrics 900 3 6 2).
Definition flowXB : FlowKey * FlowMetrics := (mkFlowKey macX macB 2048 1 2 17 0, mkFlowMetrics 700 3 6 2).
Definition rowA : TrieEntry := mkTrieEntry "tA" (mkPrefix4 167772416 24) 1.
Definition rowAll : TrieEntry := mkTrieEntry "" catchall 3.
Definition opts : Options := mkOptions (Some snap) [rowAll; rowA] None (Some 1000)
  (λ k, if decide (k = MACKey macA) then Some (mkMeta "tA" "srvA" "vmA" "ext" false 0) else None)
  (Some [flowAB; flowXA; flowXB]) None.

Example texts :
  macString macX = "02:00:00:00:00:ff" ∧ humanAge (47 * second) = "47s" ∧
  humanAge (3 * minute + second) = "3m" ∧ humanAge (2 * hour + 13 * minute) = "2h13m" ∧
  tenantLabel "abcdefghij" None = "abcdefgh…" ∧ tenantLabel "" None = "(global)".
Proof. by vm_compute. Qed.
Example queries :
  runLookup opts "10.0.1.7" "02:00:00:00:00:0a" "" = Refused NotBoth ∧
  runLookup opts "10.0.1" "" "" = Refused InvalidIP ∧ runLookup opts "" "02-00" "" = Refused InvalidMAC ∧
  handleLookup opts " " "" "" = (400, Refused NoParameter) ∧ (handleLookup opts "::1" "" "").1 = 200.
Proof. by vm_compute. Qed.
Lemma flows_exact_witness :
  ∃ r, handleFlows opts " 02-00-00-00-00-0A " = (200, inl r) ∧
  FS_MAC r = "02:00:00:00:00:0a" ∧ (FR_Bytes <$> FS_Rows r) = [900; 100] ∧
  FS_Rows r ≡ₚ flowRowOf <$>
    filter (λ e : FlowKey * FlowMetrics, SrcMac e.1 = macA ∨ DstMac e.1 = macA) [flowAB; flowXA; flowXB].
Proof.
  eexists. split; [by vm_compute|]. split; [by vm_compute|]. split; [by vm_compute|].
  refine (proj2 (proj2 (proj2 (proj2 (flows_exact opts " 02-00-00-00-00-0A " _))))).
  intros e He. rewrite !elem_of_cons elem_of_nil in He. destruct He as [->|[->|[->|[]]]];
    by repeat split.
Defined.
End DebugExamples.
