(* ===== verification/Topology.v ===== *)
(** * The topology pages (internal/debug: topology.go, topology_tenant.go)

    The directory of tenants with the counts of what they own and of the edges to
    other tenants, and the page of one tenant.  The two count the same edges
    independently; [directory_agrees] shows that they agree. *)
From S2P Require Import Prelude GoStrings Neutron Lookup Debug.
From Stdlib Require String.

(** ** View models (schema.go) *)

Record directoryRow := mkDirectoryRow {
  Dir_TenantID : string; Dir_TenantName : string; Dir_Networks : Z; Dir_Routers : Z;
  Dir_OutAttach : Z; Dir_InAttach : Z; Dir_OutExtra : Z; Dir_InExtra : Z; Dir_CrossTotal : Z }.
Record topologyDirectoryModel := mkDirectory {
  TD_Synced : bool; TD_LastSync : option Z; TD_Rows : list directoryRow }.
Record tenantSummary := mkSummary {
  Sum_Networks : Z; Sum_Routers : Z; Sum_Attachments : Z; Sum_Extraroutes : Z;
  Sum_CrossAttach : Z; Sum_CrossExtraroute : Z }.
Record tenantNetworkRow := mkNetworkRow {
  NR_ID : string; NR_Name : string; NR_CIDRs : list string; NR_Kind : string }.
Record routerAttachmentRow := mkAttachment {
  At_NetworkID : string; At_NetworkName : string; At_NetworkTenantID : string;
  At_NetworkTenantName : string; At_IP : string; At_CrossTenant : bool }.
Record routerExtrarouteRow := mkExtraroute {
  Ex_Destination : string; Ex_Nexthop : string; Ex_NextRouterID : string;
  Ex_NextRouterTenantID : string; Ex_NextRouterTenantName : string; Ex_CrossTenant : bool }.
Record tenantRouterCard := mkCard {
  Card_ID : string; Card_Name : string; Card_GatewayID : string; Card_GatewayName : string;
  Card_Attachments : list routerAttachmentRow; Card_Extraroutes : list routerExtrarouteRow }.
Record extrarouteRow := mkExtrarouteRow {
  XR_Direction : string; XR_SourceRouterID : string; XR_SourceTenantID : string;
  XR_SourceTenantName : string; XR_Destination : string; XR_Nexthop : string;
  XR_TargetRouterID : string; XR_TargetTenantID : string; XR_TargetTenantName : string }.
Record topologyTenantModel := mkTenantModel {
  TM_Synced : bool; TM_LastSync : option Z; TM_TenantID : string; TM_TenantName : string;
  TM_NotFound : bool; TM_Summary : tenantSummary; TM_Networks : list tenantNetworkRow;
  TM_Routers : list tenantRouterCard; TM_Extraroutes : list extrarouteRow }.
Definition extrarouteOut : string := "out".
Definition extrarouteIn : string := "in".

(** ** The indexes of the builders: a later entry replaces an earlier one *)

Definition displayName (name id : string) : string := if decide (name ≠ "") then name else shortID id.
Definition indexNetworks (snap : Snapshot) : gmap string Network :=
  foldl (λ m n, <[Net_ID n := n]> m) ∅ (Networks snap).
Definition indexRouters (snap : Snapshot) : gmap string Router :=
  foldl (λ m r, <[Router_ID r := r]> m) ∅ (Routers snap).
Definition indexPortsByIP (snap : Snapshot) : gmap string Port :=
  foldl (λ m p, foldl (λ m f, <[Fip_IPAddress f := p]> m) m (Port_FixedIPs p)) ∅ (Ports snap).
Definition indexSubnetsByNetwork (snap : Snapshot) : gmap string (list string) :=
  foldl (λ m s, <[Sub_NetworkID s := default [] (m !! Sub_NetworkID s) ++ [Sub_CIDR s]]> m) ∅
    (Subnets snap).

(** The router and the network a router-interface port joins, when both are known. *)
Definition attachmentOf (snap : Snapshot) (p : Port) : option (Router * Network) :=
  if decide (Port_DeviceOwner p ≠ DeviceOwnerRouterInterface) then None
  else
    router ← indexRouters snap !! Port_DeviceID p;
    network ← indexNetworks snap !! Port_NetworkID p;
    Some (router, network).
(** The router a route's next hop is an interface of. *)
Definition nextRouterOf (snap : Snapshot) (route : Route) : option Router :=
  np ← indexPortsByIP snap !! Route_Nexthop route;
  if decide (Port_DeviceOwner np ≠ DeviceOwnerRouterInterface) then None
  else indexRouters snap !! Port_DeviceID np.

(** ** The directory (topology.go) *)

Record stats := mkStats {
  st_networks : Z; st_routers : Z; st_outAttach : Z; st_inAttach : Z; st_outExtra : Z; st_inExtra : Z }.
Definition noStats : stats := mkStats 0 0 0 0 0 0.
Definition incNetworks (s : stats) := mkStats (st_networks s + 1) (st_routers s) (st_outAttach s)
  (st_inAttach s) (st_outExtra s) (st_inExtra s).
Definition incRouters (s : stats) := mkStats (st_networks s) (st_routers s + 1) (st_outAttach s)
  (st_inAttach s) (st_outExtra s) (st_inExtra s).
Definition incOutAttach (s : stats) := mkStats (st_networks s) (st_routers s) (st_outAttach s + 1)
  (st_inAttach s) (st_outExtra s) (st_inExtra s).
Definition incInAttach (s : stats) := mkStats (st_networks s) (st_routers s) (st_outAttach s)
  (st_inAttach s + 1) (st_outExtra s) (st_inExtra s).
Definition incOutExtra (s : stats) := mkStats (st_networks s) (st_routers s) (st_outAttach s)
  (st_inAttach s) (st_outExtra s + 1) (st_inExtra s).
Definition incInExtra (s : stats) := mkStats (st_networks s) (st_routers s) (st_outAttach s)
  (st_inAttach s) (st_outExtra s) (st_inExtra s + 1).
(** [get(t).field++]. *)
Definition touch (t : string) (inc : stats → stats) (m : gmap string stats) : gmap string stats :=
  <[t := inc (default noStats (m !! t))]> m.

Definition countAttachment (snap : Snapshot) (m : gmap string stats) (p : Port) : gmap string stats :=
  match attachmentOf snap p with
  | Some (router, network) =>
      if decide (Router_ProjectID router = Net_ProjectID network) then m
      else touch (Net_ProjectID network) incInAttach (touch (Router_ProjectID router) incOutAttach m)
  | None => m
  end.
Definition countExtraroute (snap : Snapshot) (m : gmap string stats) (rr : Router * Route) : gmap string stats :=
  match nextRouterOf snap rr.2 with
  | Some nextRouter =>
      if decide (Router_ProjectID rr.1 = Router_ProjectID nextRouter) then m
      else touch (Router_ProjectID nextRouter) incInExtra (touch (Router_ProjectID rr.1) incOutExtra m)
  | None => m
  end.
(** The routes of all routers, in the order of the nested loops. *)
Definition allRoutes (snap : Snapshot) : list (Router * Route) :=
  Routers snap ≫= λ r, (λ route, (r, route)) <$> Router_Routes r.
Definition perTenant (snap : Snapshot) : gmap string stats :=
  let m := foldl (λ m n, touch (Net_ProjectID n) incNetworks m) ∅ (Networks snap) in
  let m := foldl (λ m r, touch (Router_ProjectID r) incRouters m) m (Routers snap) in
  let m := foldl (countAttachment snap) m (Ports snap) in
  foldl (countExtraroute snap) m (allRoutes snap).
Definition directoryRowOf (snap : Snapshot) (kv : string * stats) : directoryRow :=
  let '(tid, s) := kv in
  mkDirectoryRow tid (tenantDisplay tid (Some snap)) (st_networks s) (st_routers s) (st_outAttach s)
    (st_inAttach s) (st_outExtra s) (st_inExtra s)
    (st_outAttach s + st_inAttach s + st_outExtra s + st_inExtra s).
(** [sort.Slice]'s order, up to ties: more cross-tenant edges first, then by name. *)
Definition directory_le (a b : directoryRow) : Prop :=
  if decide (Dir_CrossTotal a ≠ Dir_CrossTotal b) then Dir_CrossTotal b < Dir_CrossTotal a
  else string_le (Dir_TenantName a) (Dir_TenantName b).
#[export] Instance directory_le_dec : RelDecision directory_le.
Proof. intros a b. rewrite /directory_le. case_decide; apply _. Defined.

Section topology.
Context `{GoRange}.

Definition buildTopologyDirectoryModel (snap : option Snapshot) (lastSync : option Z)
    : topologyDirectoryModel :=
  let synced := bool_decide (lastSync ≠ None) in
  match snap with
  | None => mkDirectory synced lastSync []
  | Some s => mkDirectory synced lastSync
      (merge_sort directory_le (directoryRowOf s <$> go_range (perTenant s)))
  end.

(** ** The page of one tenant (topology_tenant.go) *)

Definition networkRowOf (snap : Snapshot) (n : Network) : tenantNetworkRow :=
  mkNetworkRow (Net_ID n) (displayName (Net_Name n) (Net_ID n))
    (default [] (indexSubnetsByNetwork snap !! Net_ID n))
    (if Net_IsExternal n then "external" else if Net_Shared n then "shared" else "").
Definition name_le (a b : tenantNetworkRow) : Prop := string_le (NR_Name a) (NR_Name b).
#[export] Instance name_le_dec : RelDecision name_le.
Proof. intros a b. rewrite /name_le. apply _. Defined.

Definition cardOf (snap : Snapshot) (r : Router) : tenantRouterCard :=
  mkCard (Router_ID r) (Router_Name r) (Router_ExternalNetworkID r)
    (if decide (Router_ExternalNetworkID r ≠ "") then
       match indexNetworks snap !! Router_ExternalNetworkID r with Some ext => Net_Name ext | None => "" end
     else "") [] [].
Definition addAttachment (row : routerAttachmentRow) (c : tenantRouterCard) : tenantRouterCard :=
  mkCard (Card_ID c) (Card_Name c) (Card_GatewayID c) (Card_GatewayName c)
    (Card_Attachments c ++ [row]) (Card_Extraroutes c).
Definition addExtraroute (row : routerExtrarouteRow) (c : tenantRouterCard) : tenantRouterCard :=
  mkCard (Card_ID c) (Card_Name c) (Card_GatewayID c) (Card_GatewayName c)
    (Card_Attachments c) (Card_Extraroutes c ++ [row]).

(** The state of the builder's loops: the summary's four edge counts, the cards by
    router, the flat table. *)
Record building := mkBuilding {
  b_attach : Z; b_extra : Z; b_crossAttach : Z; b_crossExtra : Z;
  b_cards : gmap string tenantRouterCard; b_flat : list extrarouteRow }.
Definition one (b : bool) : Z := if b then 1 else 0.
Definition visitPort (snap : Snapshot) (tenant : string) (b : building) (p : Port) : building :=
  match attachmentOf snap p with
  | None => b
  | Some (router, network) =>
      if decide (Router_ProjectID router ≠ tenant ∧ Net_ProjectID network ≠ tenant) then b
      else
        let cross := bool_decide (Router_ProjectID router ≠ Net_ProjectID network) in
        let cards :=
          if decide (Router_ProjectID router = tenant) then
            let ip := match Port_FixedIPs p with f :: _ => Fip_IPAddress f | [] => "" end in
            alter (addAttachment (mkAttachment (Net_ID network)
              (displayName (Net_Name network) (Net_ID network)) (Net_ProjectID network)
              (ProjectName snap (Net_ProjectID network)) ip cross)) (Router_ID router) (b_cards b)
          else b_cards b in
        mkBuilding (b_attach b + 1) (b_extra b) (b_crossAttach b + one cross) (b_crossExtra b) cards
          (b_flat b)
  end.
Definition visitRoute (snap : Snapshot) (tenant : string) (b : building) (rr : Router * Route) : building :=
  let '(r, route) := rr in
  let nextRouter := nextRouterOf snap route in
  if decide (Router_ProjectID r ≠ tenant ∧ (Router_ProjectID <$> nextRouter) ≠ Some tenant) then b
  else
    let cross := match nextRouter with
                 | Some n => bool_decide (Router_ProjectID r ≠ Router_ProjectID n)
                 | None => false
                 end in
    let cards :=
      if decide (Router_ProjectID r = tenant) then
        alter (addExtraroute
          (match nextRouter with
           | Some n => mkExtraroute (Route_Destination route) (Route_Nexthop route) (Router_ID n)
                         (Router_ProjectID n) (ProjectName snap (Router_ProjectID n)) cross
           | None => mkExtraroute (Route_Destination route) (Route_Nexthop route) "" "" "" cross
           end)) (Router_ID r) (b_cards b)
      else b_cards b in
    let flat :=
      match nextRouter with
      | Some n =>
          if cross then b_flat b ++ [mkExtrarouteRow
            (if decide (Router_ProjectID r = tenant) then extrarouteOut else extrarouteIn)
            (Router_ID r) (Router_ProjectID r) (ProjectName snap (Router_ProjectID r))
            (Route_Destination route) (Route_Nexthop route) (Router_ID n) (Router_ProjectID n)
            (ProjectName snap (Router_ProjectID n))]
          else b_flat b
      | None => b_flat b
      end in
    mkBuilding (b_attach b) (b_extra b + 1) (b_crossAttach b) (b_crossExtra b + one cross) cards flat.

Definition cardCrossCount (c : tenantRouterCard) : Z :=
  lenZ (filter (λ a, At_CrossTenant a = true) (Card_Attachments c)) +
  lenZ (filter (λ e, Ex_CrossTenant e = true) (Card_Extraroutes c)).
Definition flat_le (a b : extrarouteRow) : Prop :=
  if decide (XR_Direction a ≠ XR_Direction b) then XR_Direction a = extrarouteOut
  else string_le (XR_SourceRouterID a) (XR_SourceRouterID b).
#[export] Instance flat_le_dec : RelDecision flat_le.
Proof. intros a b. rewrite /flat_le. case_decide; apply _. Defined.
Definition card_le (a b : tenantRouterCard) : Prop :=
  if decide (cardCrossCount a ≠ cardCrossCount b) then cardCrossCount b < cardCrossCount a
  else string_le (Card_ID a) (Card_ID b).
#[export] Instance card_le_dec : RelDecision card_le.
Proof. intros a b. rewrite /card_le. case_decide; apply _. Defined.

Definition buildEdges (snap : Snapshot) (tenant : string) : building :=
  let cards := foldl (λ m r, if decide (Router_ProjectID r ≠ tenant) then m
                             else <[Router_ID r := cardOf snap r]> m) ∅ (Routers snap) in
  let b := foldl (visitPort snap tenant) (mkBuilding 0 0 0 0 cards []) (Ports snap) in
  foldl (visitRoute snap tenant) b (allRoutes snap).
Definition buildTopologyTenantModel (snap : option Snapshot) (tenant : string) (lastSync : option Z)
    : topologyTenantModel :=
  let synced := bool_decide (lastSync ≠ None) in
  match snap with
  | None => mkTenantModel synced lastSync tenant "" true (mkSummary 0 0 0 0 0 0) [] [] []
  | Some s =>
      let networks := merge_sort name_le
        (networkRowOf s <$> filter (λ n, Net_ProjectID n = tenant) (Networks s)) in
      let b := buildEdges s tenant in
      let routers := merge_sort card_le (go_range (b_cards b)).*2 in
      let summary := mkSummary (lenZ networks) (lenZ routers) (b_attach b) (b_extra b)
        (b_crossAttach b) (b_crossExtra b) in
      mkTenantModel synced lastSync tenant (ProjectName s tenant)
        (bool_decide (Sum_Networks summary = 0 ∧ Sum_Routers summary = 0 ∧
           Sum_CrossAttach summary = 0 ∧ Sum_CrossExtraroute summary = 0))
        summary networks routers (merge_sort flat_le (b_flat b))
  end.
End topology.

(** ** Counting in loops *)

Fixpoint sumZ (l : list Z) : Z := match l with [] => 0 | z :: l => z + sumZ l end.
Lemma fold_count {A S} (f : S → A → S) (proj : S → Z) (c : A → Z) l s :
  (∀ s x, proj (f s x) = proj s + c x) → proj (foldl f s l) = proj s + sumZ (c <$> l).
Proof.
  intros Hf. induction l as [|x l IH] in s |- *; csimpl; [lia|]. rewrite IH Hf. lia.
Qed.
Lemma sumZ_zero {A} (c : A → Z) l : (∀ x, c x = 0) → sumZ (c <$> l) = 0.
Proof. intros Hc. induction l as [|x l IH]; csimpl; [done|]. by rewrite Hc IH. Qed.
Lemma sumZ_ext {A} (c c' : A → Z) l : (∀ x, c x = c' x) → sumZ (c <$> l) = sumZ (c' <$> l).
Proof. intros Hc. f_equal. apply list_fmap_ext. intros _ x _. apply Hc. Qed.
Lemma sumZ_count {A} (P : A → Prop) `{∀ x, Decision (P x)} (l : list A) :
  sumZ ((λ x, one (bool_decide (P x))) <$> l) = lenZ (filter P l).
Proof.
  induction l as [|x l IH]; [done|]. rewrite filter_cons. csimpl. rewrite IH /lenZ.
  destruct (decide (P x)) as [Hx|Hx]; [rewrite (bool_decide_true _ Hx)|rewrite (bool_decide_false _ Hx)];
    simpl; lia.
Qed.

(** A tenant's numbers in the directory's table. *)
Definition at_ (t : string) (m : gmap string stats) : stats := default noStats (m !! t).
Lemma at_touch t u inc m : at_ t (touch u inc m) = if decide (u = t) then inc (at_ t m) else at_ t m.
Proof.
  rewrite /at_ /touch. case_decide as E; [subst; by rewrite lookup_insert_eq|by rewrite lookup_insert_ne].
Qed.
(** How often a port is a cross-tenant edge that touches the tenant, and a route. *)
Definition portEdge (snap : Snapshot) (t : string) (p : Port) : Z :=
  match attachmentOf snap p with
  | Some (router, network) => one (bool_decide (Router_ProjectID router ≠ Net_ProjectID network ∧
      (Router_ProjectID router = t ∨ Net_ProjectID network = t)))
  | None => 0
  end.
Definition routeEdge (snap : Snapshot) (t : string) (rr : Router * Route) : Z :=
  match nextRouterOf snap rr.2 with
  | Some n => one (bool_decide (Router_ProjectID rr.1 ≠ Router_ProjectID n ∧
      (Router_ProjectID rr.1 = t ∨ Router_ProjectID n = t)))
  | None => 0
  end.

Section counts.
Context (snap : Snapshot) (t : string).

Lemma perTenant_sum (q : stats → Z) (cn : Network → Z) (cr : Router → Z) (cp : Port → Z)
    (cx : Router * Route → Z) :
  (∀ m n, q (at_ t (touch (Net_ProjectID n) incNetworks m)) = q (at_ t m) + cn n) →
  (∀ m r, q (at_ t (touch (Router_ProjectID r) incRouters m)) = q (at_ t m) + cr r) →
  (∀ m p, q (at_ t (countAttachment snap m p)) = q (at_ t m) + cp p) →
  (∀ m rr, q (at_ t (countExtraroute snap m rr)) = q (at_ t m) + cx rr) →
  q (at_ t (perTenant snap)) = q noStats + sumZ (cn <$> Networks snap) + sumZ (cr <$> Routers snap) +
    sumZ (cp <$> Ports snap) + sumZ (cx <$> allRoutes snap).
Proof.
  intros Hn Hr Hp Hx. rewrite /perTenant. set (proj m := q (at_ t m)).
  change (q (at_ t ?m)) with (proj m).
  rewrite (fold_count _ proj cx) // (fold_count _ proj cp) // (fold_count _ proj cr) // (fold_count _ proj cn) //.
Qed.
(** The contribution of one loop step. *)
Ltac contribution :=
  intros ? ?; rewrite /countAttachment /countExtraroute /portEdge /routeEdge ?at_touch;
  repeat (case_match || case_decide || case_bool_decide); rewrite ?at_touch;
  repeat case_decide; simpl; first [lia | naive_solver lia].

Lemma perTenant_counts :
  let s := at_ t (perTenant snap) in
  st_networks s = lenZ (filter (λ n, Net_ProjectID n = t) (Networks snap)) ∧
  st_routers s = lenZ (filter (λ r, Router_ProjectID r = t) (Routers snap)) ∧
  st_outAttach s + st_inAttach s = sumZ (portEdge snap t <$> Ports snap) ∧
  st_outExtra s + st_inExtra s = sumZ (routeEdge snap t <$> allRoutes snap).
Proof.
  rewrite -!sumZ_count. cbn zeta. split_and!.
  - rewrite (perTenant_sum st_networks (λ n, one (bool_decide (Net_ProjectID n = t))) (λ _, 0) (λ _, 0)
      (λ _, 0)); [contribution..|]. rewrite !(sumZ_zero (λ _, 0)) //=. lia.
  - rewrite (perTenant_sum st_routers (λ _, 0) (λ r, one (bool_decide (Router_ProjectID r = t))) (λ _, 0)
      (λ _, 0)); [contribution..|]. rewrite !(sumZ_zero (λ _, 0)) //=. lia.
  - rewrite (perTenant_sum (λ s, st_outAttach s + st_inAttach s) (λ _, 0) (λ _, 0) (portEdge snap t)
      (λ _, 0)); [contribution..|]. rewrite !(sumZ_zero (λ _, 0)) //=. lia.
  - rewrite (perTenant_sum (λ s, st_outExtra s + st_inExtra s) (λ _, 0) (λ _, 0) (λ _, 0)
      (routeEdge snap t)); [contribution..|]. rewrite !(sumZ_zero (λ _, 0)) //=.
Qed.
End counts.

(** A tenant has a row only when something is counted for it. *)
Definition total_of (s : stats) : Z :=
  st_networks s + st_routers s + (st_outAttach s + st_inAttach s) + (st_outExtra s + st_inExtra s).
Definition busy (m : gmap string stats) : Prop := ∀ t s, m !! t = Some s → 0 < total_of s.
Lemma busy_touch u inc m : (∀ s, total_of (inc s) = total_of s + 1) → busy m → busy (touch u inc m).
Proof.
  intros Hinc Hm t s. rewrite /touch lookup_insert_Some. intros [[<- <-]|[_ E]]; [|by apply (Hm t)].
  rewrite Hinc. destruct (m !! u) as [s'|] eqn:E; [|done]. apply Hm in E. simpl. lia.
Qed.
Lemma foldl_keeps {A S} (P : S → Prop) (f : S → A → S) l s :
  (∀ s x, P s → P (f s x)) → P s → P (foldl f s l).
Proof. intros Hf. induction l as [|x l IH] in s |- *; simpl; auto. Qed.
Lemma perTenant_busy snap : busy (perTenant snap).
Proof.
  assert (∀ u m, busy m → busy (touch u incNetworks m) ∧ busy (touch u incRouters m) ∧
    busy (touch u incOutAttach m) ∧ busy (touch u incInAttach m) ∧ busy (touch u incOutExtra m) ∧
    busy (touch u incInExtra m)) as Ht.
  { intros u m Hm. repeat split; (apply busy_touch; [intros s; rewrite /total_of /=; lia|exact Hm]). }
  rewrite /perTenant. repeat apply foldl_keeps.
  - intros m rr Hm. rewrite /countExtraroute. case_match; [|done]. case_decide; [done|]. by apply Ht, Ht.
  - intros m p Hm. rewrite /countAttachment. destruct (attachmentOf snap p) as [[r n]|]; [|done].
    case_decide; [done|].
    by apply Ht, Ht.
  - intros m r Hm. by apply Ht.
  - intros m n Hm. by apply Ht.
  - by intros t s.
Qed.

(** ** What the tenant's page counts *)

Section page.
Context (snap : Snapshot) (t : string).

Lemma visitPort_fields b p : let b' := visitPort snap t b p in
  b_crossAttach b' = b_crossAttach b + portEdge snap t p ∧ b_crossExtra b' = b_crossExtra b + 0 ∧
  dom (b_cards b') = dom (b_cards b).
Proof.
  rewrite /visitPort /portEdge. destruct (attachmentOf snap p) as [[r n]|]; [|split_and!; simpl; [lia..|done]].
  case_decide as Hc; [rewrite bool_decide_false; [tauto|]; split_and!; simpl; [lia..|done]|].
  split_and!; simpl; [|lia|by case_decide; rewrite ?dom_alter_L].
  f_equal. f_equal. apply bool_decide_ext.
  destruct (decide (Router_ProjectID r = t)), (decide (Net_ProjectID n = t)); tauto.
Qed.
Lemma visitRoute_fields b rr : let b' := visitRoute snap t b rr in
  b_crossAttach b' = b_crossAttach b + 0 ∧ b_crossExtra b' = b_crossExtra b + routeEdge snap t rr ∧
  dom (b_cards b') = dom (b_cards b).
Proof.
  destruct rr as [r route]. rewrite /visitRoute /routeEdge. simpl.
  destruct (nextRouterOf snap route) as [n|]; simpl.
  - case_decide as Hc.
    + rewrite bool_decide_false; [intros [_ [?|?]]; [tauto|apply (proj2 Hc); congruence]|].
      split_and!; simpl; [lia..|done].
    + split_and!; simpl; [lia| |by case_decide; rewrite ?dom_alter_L].
      f_equal. f_equal. apply bool_decide_ext. split; [|tauto]. intros Hne. split; [done|].
      destruct (decide (Router_ProjectID r = t)); [by left|]. right. apply dec_stable. intros Hn.
      apply Hc. split; [done|]. congruence.
  - case_decide as Hc; split_and!; simpl; try lia; try done. by case_decide; rewrite ?dom_alter_L.
Qed.
Lemma buildEdges_counts : let b := buildEdges snap t in
  b_crossAttach b = sumZ (portEdge snap t <$> Ports snap) ∧
  b_crossExtra b = sumZ (routeEdge snap t <$> allRoutes snap) ∧
  dom (b_cards b) = list_to_set (Router_ID <$> filter (λ r, Router_ProjectID r = t) (Routers snap)).
Proof.
  rewrite /buildEdges. cbn zeta. set (cards := foldl _ ∅ (Routers snap)). split_and!.
  - rewrite (fold_count _ b_crossAttach (λ _, 0)); [apply visitRoute_fields|].
    rewrite (fold_count _ b_crossAttach (portEdge snap t)); [apply visitPort_fields|].
    rewrite (sumZ_zero (λ _, 0)) //=. lia.
  - rewrite (fold_count _ b_crossExtra (routeEdge snap t)); [apply visitRoute_fields|].
    rewrite (fold_count _ b_crossExtra (λ _, 0)); [apply visitPort_fields|].
    by rewrite (sumZ_zero (λ _, 0)).
  - apply (foldl_keeps (λ b, dom (b_cards b) = _)).
    { intros b rr <-. apply visitRoute_fields. }
    apply (foldl_keeps (λ b, dom (b_cards b) = _)).
    { intros b p <-. apply visitPort_fields. }
    simpl. rewrite /cards. clear cards.
    assert (∀ l (m : gmap string tenantRouterCard), dom (foldl (λ m r, if decide (Router_ProjectID r ≠ t) then m
        else <[Router_ID r := cardOf snap r]> m) m l) =
      dom m ∪ list_to_set (Router_ID <$> filter (λ r, Router_ProjectID r = t) l) :> gset string) as Hd.
    { intros l. induction l as [|r l IH]; intros m; simpl; [set_solver|]. rewrite IH filter_cons.
      destruct (decide (Router_ProjectID r = t)) as [E|E].
      - rewrite decide_False; [by intros []|]. rewrite dom_insert_L. csimpl. set_solver.
      - by rewrite decide_True. }
    rewrite Hd. set_solver.
Qed.
End page.

Section agree.
Context `{GoRange}.

(** The directory and the tenant's page count the same things independently and
    agree.  In a snapshot whose routers have distinct ids, for every tenant: it has
    a row in the directory exactly when its page is not the not-found page; the row
    shows as many networks and routers as the page lists, and its attachments and
    static routes to and from other tenants add up to the page's cross-tenant
    counts. *)
Theorem directory_agrees snap t lastSync : NoDup (Router_ID <$> Routers snap) →
  let page := buildTopologyTenantModel (Some snap) t lastSync in
  let rows := TD_Rows (buildTopologyDirectoryModel (Some snap) lastSync) in
  (TM_NotFound page = false ↔ t ∈ Dir_TenantID <$> rows) ∧
  ∀ row, row ∈ rows → Dir_TenantID row = t →
    Dir_Networks row = lenZ (TM_Networks page) ∧ Dir_Routers row = lenZ (TM_Routers page) ∧
    Dir_OutAttach row + Dir_InAttach row = Sum_CrossAttach (TM_Summary page) ∧
    Dir_OutExtra row + Dir_InExtra row = Sum_CrossExtraroute (TM_Summary page) ∧
    Dir_CrossTotal row = Sum_CrossAttach (TM_Summary page) + Sum_CrossExtraroute (TM_Summary page).
Proof.
  intros Hnd. cbn zeta. destruct (perTenant_counts snap t) as (Hn & Hr & Ha & Hx).
  destruct (buildEdges_counts snap t) as (Ba & Bx & Bd).
  set (page := buildTopologyTenantModel _ _ _).
  assert (lenZ (TM_Networks page) = st_networks (at_ t (perTenant snap))) as Pn.
  { rewrite Hn /page /lenZ /=. by rewrite merge_sort_Permutation length_fmap. }
  assert (lenZ (TM_Routers page) = st_routers (at_ t (perTenant snap))) as Pr.
  { rewrite Hr /page /lenZ /=. rewrite merge_sort_Permutation length_fmap length_go_range.
    rewrite -size_dom Bd size_list_to_set ?length_fmap //.
    apply (sublist_NoDup _ _ Hnd), fmap_sublist, sublist_filter. }
  assert (Sum_CrossAttach (TM_Summary page) =
    st_outAttach (at_ t (perTenant snap)) + st_inAttach (at_ t (perTenant snap))) as Pa by (by rewrite Ha -Ba).
  assert (Sum_CrossExtraroute (TM_Summary page) =
    st_outExtra (at_ t (perTenant snap)) + st_inExtra (at_ t (perTenant snap))) as Px by (by rewrite Hx -Bx).
  assert (∀ row, row ∈ TD_Rows (buildTopologyDirectoryModel (Some snap) lastSync) ↔
    ∃ u s, perTenant snap !! u = Some s ∧ row = directoryRowOf snap (u, s)) as Hrows.
  { intros row. simpl. rewrite merge_sort_Permutation list_elem_of_fmap. split.
    - intros ([u s] & -> & Hin%elem_of_go_range). by exists u, s.
    - intros (u & s & Hs & ->). exists (u, s). by rewrite elem_of_go_range. }
  split.
  - rewrite list_elem_of_fmap. rewrite /at_ in Pn Pr Pa Px. pose proof (perTenant_busy snap t) as Hb.
    assert (TM_NotFound page = bool_decide (lenZ (TM_Networks page) = 0 ∧ lenZ (TM_Routers page) = 0 ∧
      Sum_CrossAttach (TM_Summary page) = 0 ∧ Sum_CrossExtraroute (TM_Summary page) = 0)) as -> by done.
    rewrite Pn Pr Pa Px bool_decide_eq_false. split.
    + intros Hz. destruct (perTenant snap !! t) as [s|] eqn:E; [|by destruct Hz].
      exists (directoryRowOf snap (t, s)). split; [done|]. apply Hrows. by exists t, s.
    + intros (row & -> & (u & s & Hs & ->)%Hrows). simpl in *. rewrite Hs in Hb |- *. simpl.
      specialize (Hb s eq_refl). rewrite /total_of in Hb. lia.
  - intros row (u & s & Hs & ->)%Hrows <-. simpl in *.
    rewrite /at_ Hs /= in Pn Pr Pa Px. rewrite Pn Pr Pa Px. split_and!; lia.
Qed.
End agree.

Module TopologyExamples.
Import Demo.
#[local] Existing Instance list_range.
Definition dir : topologyDirectoryModel := buildTopologyDirectoryModel (Some snap) (Some 1000).
Definition pageOf (t : string) : topologyTenantModel := buildTopologyTenantModel (Some snap) t (Some 1000).
(** Both routers attach to the operator's shared network and route through each
    other. *)
Example demo_rows :
  (λ r, (Dir_TenantID r, Dir_OutAttach r, Dir_InAttach r, Dir_OutExtra r, Dir_InExtra r)) <$> TD_Rows dir =
  [("tA", 1, 0, 1, 1); ("tB", 1, 0, 1, 1); ("ops", 0, 2, 0, 0)].
Proof. by vm_compute. Qed.
Example demo_pages :
  TM_NotFound (pageOf "nobody") = true ∧ length (TM_Extraroutes (pageOf "tA")) = 2%nat ∧
  XR_Direction <$> TM_Extraroutes (pageOf "tA") = [extrarouteOut; extrarouteIn].
Proof. by vm_compute. Qed.
Lemma directory_agrees_witness :
  (TM_NotFound (pageOf "tA") = false ↔ "tA" ∈ Dir_TenantID <$> TD_Rows dir) ∧
  Sum_CrossAttach (TM_Summary (pageOf "tA")) = 1 ∧ Sum_CrossExtraroute (TM_Summary (pageOf "tA")) = 2.
Proof.
  split; [|by vm_compute].
  refine (proj1 (directory_agrees snap "tA" (Some 1000) _)).
  by apply (bool_decide_unpack _); vm_compute.
Defined.
End TopologyExamples.
