(* ===== verification/OpenStack.v ===== *)
(** * The OpenStack client (internal/osclient, internal/neutron: client.go, list.go,
    credentials.go, metrics.go)

    The credentials and where they come from, the services a client is built with,
    the conversion of the API's resources into the snapshot's, and the count of API
    errors.  The library behind (gophercloud) is an argument: what each of its calls
    answers, as the fields the code reads. *)
From Stdlib Require Import Ascii.
From Stdlib Require String.
From S2P Require Import Prelude GoStrings GoArgs NetIP Neutron Sync.
From S2P Require Config Boot.

(** ** Credentials (osclient/schema.go, openrc.go) *)

Record Credentials := mkCreds {
  AuthURL : string; Username : string; Password : string; ProjectName_ : string;
  UserDomain : string; ProjectDomain : string; Region : string; Interface : string }.
Definition defaultDomain : string := "default".

Definition newline : ascii := ascii_of_N 10.
Definition carriage : ascii := ascii_of_N 13.
Definition dquote : ascii := ascii_of_N 34.
Definition squote : ascii := ascii_of_N 39.

(** [bufio.ScanLines]: no token for an empty last line, a carriage return before
    the newline is dropped; [bufio.Scanner] gives up at a line of 64 KiB. *)
Definition dropCR (s : string) : string :=
  match reverse s with
  | String a r => if decide (a = carriage) then reverse r else s
  | EmptyString => s
  end.
Definition scanLines (s : string) : list string :=
  let parts := split_on newline s in
  match last parts with Some "" => List.removelast parts | _ => parts end.
Definition maxScanTokenSize : Z := 65536.

Definition unquote (s : string) : string :=
  match s with
  | String q rest =>
      if decide (q = dquote ∨ q = squote) then
        match reverse rest with
        | String q' mid => if decide (q' = q) then reverse mid else s
        | EmptyString => s
        end
      else s
  | EmptyString => s
  end.

Inductive openrcErr :=
  | OpenFailed | NoEquals (lineNo : Z) | EmptyKey (lineNo : Z) | LineTooLong | MissingKeys (keys : list string).
(** The loop over the lines read so far. *)
Fixpoint parseLines (lineNo : Z) (lines : list string) (env : gmap string string)
    : openrcErr + gmap string string :=
  match lines with
  | [] => inr env
  | raw :: lines =>
      if decide (maxScanTokenSize ≤ Z.of_nat (String.length raw)) then inl LineTooLong
      else
        let line := TrimSpace (dropCR raw) in
        if decide (line = "" ∨ HasPrefix line "#" = true) then parseLines (lineNo + 1) lines env
        else
          let line := TrimSpace (TrimPrefix line "export ") in
          match cut "=" line with
          | None => inl (NoEquals lineNo)
          | Some (k, v) =>
              let key := TrimSpace k in
              let val := unquote (TrimSpace v) in
              if decide (key = "") then inl (EmptyKey lineNo)
              else parseLines (lineNo + 1) lines (<[key := val]> env)
          end
  end.
Definition requireFields (c : Credentials) : list string :=
  (if decide (AuthURL c = "") then ["OS_AUTH_URL"] else []) ++
  (if decide (Username c = "") then ["OS_USERNAME"] else []) ++
  (if decide (Password c = "") then ["OS_PASSWORD"] else []) ++
  (if decide (ProjectName_ c = "") then ["OS_PROJECT_NAME"] else []).
Definition orDefault (s : string) : string := if decide (s = "") then defaultDomain else s.
(** [file] is what the path holds, [None] when it cannot be opened. *)
Definition ParseOpenRC (file : option string) : openrcErr + Credentials :=
  match file with
  | None => inl OpenFailed
  | Some text =>
      match parseLines 1 (scanLines text) ∅ with
      | inl e => inl e
      | inr env =>
          let get k := default "" (env !! k) in
          let c := mkCreds (get "OS_AUTH_URL") (get "OS_USERNAME") (get "OS_PASSWORD")
            (get "OS_PROJECT_NAME") (orDefault (get "OS_USER_DOMAIN_NAME"))
            (orDefault (get "OS_PROJECT_DOMAIN_NAME")) (get "OS_REGION_NAME") (get "OS_INTERFACE") in
          match requireFields c with
          | [] => inr c
          | missing => inl (MissingKeys missing)
          end
      end
  end.

(** credentials.go *)
Definition FromConfig (c : Config.NeutronConfig) (readFile : string → option string)
    : openrcErr + Credentials :=
  if decide (Config.CredentialsFile c ≠ "") then ParseOpenRC (readFile (Config.CredentialsFile c))
  else inr (mkCreds (Config.AuthURL c) (Config.Username c) (Config.Password c) (Config.ProjectName c)
    (Config.UserDomain c) (Config.ProjectDomain c) (Config.Region c) (Config.Interface c)).

(** ** The client (osclient/auth.go, client.go) *)

(** The library's three availabilities. *)
Definition availabilities : list string := ["internal"; "public"; "admin"].
Definition EndpointOpts (c : Credentials) (fallbackInterface : string) : option (string * string) :=
  let iface := if decide (Interface c = "") then fallbackInterface else Interface c in
  if decide (iface ∈ availabilities) then Some (Region c, iface) else None.
Definition defaultInterface : string := "internal".

Section client.
Context {Err : Type}.

Inductive clientErr := InvalidInterface | AuthErr (e : Err) | NetworkEndpoint (e : Err) | IdentityEndpoint (e : Err).
(** What authentication and the discovery of each endpoint fail with. *)
Record catalog := mkCatalog {
  cat_auth : option Err; cat_network : option Err; cat_identity : option Err;
  cat_compute : option Err; cat_loadbalancer : option Err }.
(** Network and identity clients exist in every client; the other two may be nil. *)
Record serviceClient := mkServiceClient { hasCompute : bool; hasLoadbalancer : bool }.
Definition NewClient (creds : Credentials) (cat : catalog) : clientErr + serviceClient :=
  match EndpointOpts creds defaultInterface with
  | None => inl InvalidInterface
  | Some _ =>
      match cat_auth cat, cat_network cat, cat_identity cat with
      | Some e, _, _ => inl (AuthErr e)
      | None, Some e, _ => inl (NetworkEndpoint e)
      | None, None, Some e => inl (IdentityEndpoint e)
      | None, None, None => inr (mkServiceClient
          (bool_decide (cat_compute cat = None)) (bool_decide (cat_loadbalancer cat = None)))
      end
  end.
End client.

(** ** The resource lists (list.go) *)

(** project_id when set, else tenant_id. *)
Definition preferProjectID (projectID tenantID : string) : string :=
  if decide (projectID ≠ "") then projectID else tenantID.

(** The library's resources: the fields read. *)
Record apiNetwork := mkApiNetwork {
  aN_ID : string; aN_ProjectID : string; aN_TenantID : string; aN_Name : string; aN_Shared : bool;
  aN_External : bool }.
Record apiSubnet := mkApiSubnet {
  aS_ID : string; aS_NetworkID : string; aS_ProjectID : string; aS_TenantID : string; aS_CIDR : string;
  aS_GatewayIP : string; aS_IPVersion : Z }.
Record apiPort := mkApiPort {
  aP_ID : string; aP_NetworkID : string; aP_ProjectID : string; aP_TenantID : string;
  aP_MACAddress : string; aP_DeviceOwner : string; aP_DeviceID : string;
  aP_FixedIPs : list (string * string) }.
Record apiRouter := mkApiRouter {
  aR_ID : string; aR_ProjectID : string; aR_TenantID : string; aR_Name : string;
  aR_GatewayNetworkID : string; aR_Routes : list (string * string) }.
Record apiFloatingIP := mkApiFloatingIP { aF_ID : string; aF_PortID : string; aF_FloatingNetworkID : string }.
Record apiProject := mkApiProject { aJ_ID : string; aJ_Name : string }.
Record apiServer := mkApiServer { aV_ID : string; aV_Name : string; aV_TenantID : string }.
Record apiLoadBalancer := mkApiLoadBalancer { aL_ID : string; aL_ProjectID : string; aL_Provider : string }.
Record apiAmphora := mkApiAmphora {
  aA_ID : string; aA_LoadbalancerID : string; aA_ComputeID : string; aA_LBNetworkIP : string;
  aA_Status : string }.

Definition toNetwork (n : apiNetwork) : Network :=
  mkNetwork (aN_ID n) (preferProjectID (aN_ProjectID n) (aN_TenantID n)) (aN_Name n) (aN_Shared n)
    (aN_External n).
Definition toSubnet (s : apiSubnet) : Subnet :=
  mkSubnet (aS_ID s) (aS_NetworkID s) (preferProjectID (aS_ProjectID s) (aS_TenantID s)) (aS_CIDR s)
    (aS_GatewayIP s) (aS_IPVersion s).
Definition toPort (p : apiPort) : Port :=
  mkPort (aP_ID p) (aP_NetworkID p) (preferProjectID (aP_ProjectID p) (aP_TenantID p))
    (aP_MACAddress p) (aP_DeviceOwner p) (aP_DeviceID p)
    ((λ f : string * string, mkFixedIP f.1 f.2) <$> aP_FixedIPs p).
Definition toRouter (r : apiRouter) : Router :=
  mkRouter (aR_ID r) (preferProjectID (aR_ProjectID r) (aR_TenantID r)) (aR_Name r)
    (aR_GatewayNetworkID r) ((λ f : string * string, mkRoute f.1 f.2) <$> aR_Routes r).
Definition toFloatingIP (f : apiFloatingIP) : FloatingIP :=
  mkFloatingIP (aF_ID f) (aF_PortID f) (aF_FloatingNetworkID f).
Definition toProject (p : apiProject) : Project := mkProject (aJ_ID p) (aJ_Name p).
Definition toServer (s : apiServer) : Server := mkServer (aV_ID s) (aV_Name s) (aV_TenantID s).
Definition toLoadBalancer (lb : apiLoadBalancer) : LoadBalancer :=
  mkLoadBalancer (aL_ID lb) (aL_ProjectID lb) (aL_Provider lb).
Definition toAmphora (a : apiAmphora) : Amphora :=
  mkAmphora (aA_ID a) (aA_LoadbalancerID a) (aA_ComputeID a) (aA_LBNetworkIP a) (aA_Status a).

Section lists.
Context {Err : Type}.

(** What draining the pages of each list and extracting them answers. *)
Record api := mkApi {
  api_networks : Err + list apiNetwork; api_subnets : Err + list apiSubnet; api_ports : Err + list apiPort;
  api_routers : Err + list apiRouter; api_floatingips : Err + list apiFloatingIP;
  api_projects : Err + list apiProject; api_servers : Err + list apiServer;
  api_loadbalancers : Err + list apiLoadBalancer; api_amphorae : Err + list apiAmphora }.
Definition convert {A B} (f : A → B) (answer : Err + list A) : Err + list B :=
  match answer with inl e => inl e | inr l => inr (f <$> l) end.
(** A list of a service the catalog lacks is empty. *)
Definition tolerant {A B} (present : bool) (f : A → B) (answer : Err + list A) : Err + list B :=
  if present then convert f answer else inr [].
Definition clientOf (c : serviceClient) (a : api) : Client Err :=
  @mkClient Err (convert toNetwork (api_networks a)) (convert toSubnet (api_subnets a))
    (convert toPort (api_ports a)) (convert toRouter (api_routers a))
    (convert toFloatingIP (api_floatingips a)) (convert toProject (api_projects a))
    (tolerant (hasCompute c) toServer (api_servers a))
    (tolerant (hasLoadbalancer c) toLoadBalancer (api_loadbalancers a))
    (tolerant (hasLoadbalancer c) toAmphora (api_amphorae a)).
End lists.
Arguments api : clear implicits.
Arguments catalog : clear implicits.
Arguments clientErr : clear implicits.

(** ** The count of API errors (metrics.go) *)

Definition codeNetwork : string := "network".
Definition errCodeLabel (err : Boot.fetchErr) : string :=
  match err with
  | Boot.ErrUnexpectedResponseCode actual => pretty actual
  | Boot.OtherErr _ => codeNetwork
  end.
Definition endpointNetworks : string := "networks".
Definition endpointSubnets : string := "subnets".
Definition endpointPorts : string := "ports".
Definition endpointRouters : string := "routers".
Definition endpointProjects : string := "projects".
Definition endpointFloatingIPs : string := "floatingips".
Definition endpointServers : string := "servers".
Definition endpointLoadBalancers : string := "loadbalancers".
Definition endpointAmphorae : string := "amphorae".
Definition endpointKeystone : string := "keystone".
Definition RecordAPIError (endpoint : string) (err : option Boot.fetchErr) (m : gmap (string * string) Z)
    : gmap (string * string) Z :=
  match err with
  | None => m
  | Some e => <[(endpoint, errCodeLabel e) := default 0 (m !! (endpoint, errCodeLabel e)) + 1]> m
  end.
Definition errOf {Err A} (answer : Err + A) : option Err :=
  match answer with inl e => Some e | inr _ => None end.
(** The errors a pass of [fetchAll] counts: the calls are made in order, and one of
    the first six that fails is the last made. *)
Fixpoint recordUntilError (calls : list (string * option Boot.fetchErr)) (m : gmap (string * string) Z)
    : gmap (string * string) Z * bool :=
  match calls with
  | [] => (m, false)
  | (endpoint, Some e) :: _ => (RecordAPIError endpoint (Some e) m, true)
  | (endpoint, None) :: calls => recordUntilError calls m
  end.
Definition fetchErrors (c : Client Boot.fetchErr) (m : gmap (string * string) Z)
    : gmap (string * string) Z :=
  let '(m, failed) := recordUntilError
    [(endpointNetworks, errOf (ListNetworks _ c)); (endpointSubnets, errOf (ListSubnets _ c));
     (endpointPorts, errOf (ListPorts _ c)); (endpointRouters, errOf (ListRouters _ c));
     (endpointFloatingIPs, errOf (ListFloatingIPs _ c)); (endpointProjects, errOf (ListProjects _ c))] m in
  if failed : bool then m
  else RecordAPIError endpointAmphorae (errOf (ListAmphorae _ c))
    (RecordAPIError endpointLoadBalancers (errOf (ListLoadBalancers _ c))
       (RecordAPIError endpointServers (errOf (ListServers _ c)) m)).

(** ** A client without Nova or Octavia *)

(** Nova and Octavia never decide whether the agent can bill.  Whatever services
    the catalog lacks and whatever their lists answer, two syncs whose six billing
    lists agree either fail with the same error or yield the same rows of the trie,
    the same ambiguities and cycles, and the same networks, subnets, ports, routers
    and floating IPs. *)
Theorem optional_services_never_block `{GoRange} {Err} maxHops (c1 c2 : serviceClient) (a1 a2 : api Err) :
  api_networks a1 = api_networks a2 → api_subnets a1 = api_subnets a2 → api_ports a1 = api_ports a2 →
  api_routers a1 = api_routers a2 → api_floatingips a1 = api_floatingips a2 →
  api_projects a1 = api_projects a2 →
  match Sync maxHops None (clientOf c1 a1), Sync maxHops None (clientOf c2 a2) with
  | inl e1, inl e2 => e1 = e2
  | inr r1, inr r2 =>
      (SR_Entries r1, SR_Ambiguities r1, SR_Cycles r1) = (SR_Entries r2, SR_Ambiguities r2, SR_Cycles r2) ∧
      let s1 := SR_Snapshot r1 in let s2 := SR_Snapshot r2 in
      Networks s1 = Networks s2 ∧ Subnets s1 = Subnets s2 ∧ Ports s1 = Ports s2 ∧
      Routers s1 = Routers s2 ∧ FloatingIPs s1 = FloatingIPs s2 ∧ Projects s1 = Projects s2
  | _, _ => False
  end.
Proof.
  intros En Es Ep Er Ef Ej. rewrite /Sync /fetchAll /clientOf /=.
  rewrite En Es Ep Er Ef Ej. clear En Es Ep Er Ef Ej.
  destruct (api_networks a2) as [|ns]; [done|]. destruct (api_subnets a2) as [|ss]; [done|].
  destruct (api_ports a2) as [|ps]; [done|]. destruct (api_routers a2) as [|rs]; [done|].
  destruct (api_floatingips a2) as [|fs]; [done|]. destruct (api_projects a2) as [|js]; [done|].
  cbn [convert andThen]. rewrite /resultFor.
  set (s1 := mkSnapshot _ _ _ _ _ _ _ _ _). set (s2 := mkSnapshot _ _ _ _ _ _ _ _ _).
  assert (Trie.buildTrie s1 maxHops = Trie.buildTrie s2 maxHops) as -> by reflexivity.
  destruct (Trie.buildTrie s2 maxHops) as [[es ambs] cycs]. done.
Qed.

(** ** Reading back a credentials file *)

Lemma list_ascii_app a b :
  String.list_ascii_of_string (a +:+ b) = String.list_ascii_of_string a ++ String.list_ascii_of_string b.
Proof. induction a as [|x a IH]; [done|]. simpl. by rewrite IH. Qed.
Lemma string_of_list_app a b :
  String.string_of_list_ascii (a ++ b) = String.string_of_list_ascii a +:+ String.string_of_list_ascii b.
Proof. induction a as [|x a IH]; [done|]. simpl. by rewrite IH. Qed.
Lemma reverse_append a b : reverse (a +:+ b) = reverse b +:+ reverse a.
Proof. by rewrite /reverse list_ascii_app rev_app_distr string_of_list_app. Qed.
Lemma reverse_twice s : reverse (reverse s) = s.
Proof.
  by rewrite /reverse String.list_ascii_of_string_of_list_ascii rev_involutive
    String.string_of_list_ascii_of_string.
Qed.
(** A text that begins and ends with something other than a space. *)
Lemma TrimSpace_solid a m z : is_space a = false → is_space z = false →
  TrimSpace (String a (m +:+ String z "")) = String a (m +:+ String z "").
Proof.
  intros Ha Hz. rewrite /TrimSpace. assert (trimLeft (String a (m +:+ String z "")) =
    String a (m +:+ String z "")) as -> by (by rewrite /= Ha).
  change (String a (m +:+ String z "")) with (String a m +:+ String z ""). rewrite reverse_append.
  change (reverse (String z "") +:+ reverse (String a m)) with (String z (reverse (String a m))).
  assert (trimLeft (String z (reverse (String a m))) = String z (reverse (String a m))) as -> by (by rewrite /= Hz).
  change (String z (reverse (String a m))) with (reverse (String z "") +:+ reverse (String a m)).
  by rewrite -reverse_append reverse_twice.
Qed.
Lemma dropCR_solid s z : z ≠ carriage → dropCR (s +:+ String z "") = s +:+ String z "".
Proof. intros Hz. rewrite /dropCR reverse_append. simpl. by rewrite decide_False. Qed.
Lemma unquote_quoted v : unquote (String squote (v +:+ String squote "")) = v.
Proof. rewrite /unquote reverse_append. simpl. apply reverse_twice. Qed.
Lemma cut_app c k s : has_char c k = false → cut c (k +:+ String c s) = Some (k, s).
Proof.
  induction k as [|a k IH]; simpl; [by rewrite decide_True|].
  rewrite orb_false_iff => -[/bool_decide_eq_false Ha Hk]. by rewrite decide_False // IH.
Qed.
Lemma substring_all s : String.substring 0 (String.length s) s = s.
Proof. induction s as [|a s IH]; [done|]. simpl. by rewrite IH. Qed.
Lemma length_append a b : String.length (a +:+ b) = (String.length a + String.length b)%nat.
Proof. induction a as [|x a IH]; [done|]. simpl. by rewrite IH. Qed.

Lemma append_assoc (a b c : string) : (a +:+ b) +:+ c = a +:+ (b +:+ c).
Proof. induction a as [|x a IH]; [done|]. by change (String x ((a +:+ b) +:+ c) = String x (a +:+ (b +:+ c))); rewrite IH. Qed.
Lemma append_nil a : a +:+ "" = a.
Proof. induction a as [|x a IH]; [done|]. by change (String x (a +:+ "") = String x a); rewrite IH. Qed.
Lemma TrimPrefix_app p s : TrimPrefix (p +:+ s) p = s.
Proof.
  assert (HasPrefix (p +:+ s) p = true) as Hp.
  { rewrite /HasPrefix. induction p as [|x p IH]; [by destruct s|].
    change (String x p +:+ s) with (String x (p +:+ s)). simpl. by destruct (ascii_dec x x). }
  rewrite /TrimPrefix Hp length_append. replace (_ + _ - _)%nat with (String.length s) by lia. clear Hp.
  induction p as [|x p IH]; [apply substring_all|].
  by change (String x p +:+ s) with (String x (p +:+ s)); simpl.
Qed.
(** A line that exports a key, its value between single quotes. *)
Definition openrcLine (kv : string * string) : string :=
  "export " +:+ kv.1 +:+ String "=" (String squote (kv.2 +:+ String squote "")).
Definition renderOpenRC (c : Credentials) : string :=
  String.concat "" ((λ kv, openrcLine kv +:+ String newline "") <$>
    [("OS_AUTH_URL", AuthURL c); ("OS_USERNAME", Username c); ("OS_PASSWORD", Password c);
     ("OS_PROJECT_NAME", ProjectName_ c); ("OS_USER_DOMAIN_NAME", UserDomain c);
     ("OS_PROJECT_DOMAIN_NAME", ProjectDomain c); ("OS_REGION_NAME", Region c);
     ("OS_INTERFACE", Interface c)]).
(** A key without an equals sign or spaces; a value on one line, within the
    scanner's buffer. *)
Definition key_ok (k : string) : Prop :=
  has_char "=" k = false ∧ TrimSpace k = k ∧ ∃ a r, k = String a r ∧ is_space a = false.
Definition value_ok (v : string) : Prop := has_char newline v = false ∧ Z.of_nat (String.length v) < 65000.

Lemma parseLines_line n kv lines env : key_ok kv.1 → Z.of_nat (String.length kv.1) < 100 → value_ok kv.2 →
  parseLines n (openrcLine kv :: lines) env = parseLines (n + 1) lines (<[kv.1 := kv.2]> env).
Proof.
  destruct kv as [k v]. cbn [fst snd]. intros (Heq & Htrim & a & r & Ek & Ha) Hlen [_ Hv].
  assert (openrcLine (k, v) = String "e" (("xport " +:+ k +:+ String "=" (String squote v)) +:+
    String squote "")) as El by (by rewrite /openrcLine !append_assoc).
  assert (k +:+ String "=" (String squote (v +:+ String squote "")) =
    String a ((r +:+ String "=" (String squote v)) +:+ String squote "")) as Er
    by (by rewrite Ek !append_assoc).
  cbn [parseLines]. rewrite decide_False.
  { rewrite /openrcLine /= !length_append /= !length_append /=. rewrite /maxScanTokenSize. lia. }
  assert (TrimSpace (dropCR (openrcLine (k, v))) = openrcLine (k, v)) as ->.
  { rewrite El. change (String "e" (?m +:+ String squote "")) with (String "e" m +:+ String squote "").
    rewrite dropCR_solid; [done|]. by apply TrimSpace_solid. }
  destruct (decide (openrcLine (k, v) = "" ∨ HasPrefix (openrcLine (k, v)) "#" = true)) as [[H|H]|_]; [done..|].
  assert (TrimPrefix (openrcLine (k, v)) "export " = k +:+ String "=" (String squote (v +:+ String squote "")))
    as ->.
  { apply TrimPrefix_app. }
  rewrite Er TrimSpace_solid // -Er cut_app // Htrim.
  rewrite decide_False; [by rewrite Ek|].
  assert (TrimSpace (String squote (v +:+ String squote "")) = String squote (v +:+ String squote "")) as ->
    by (by apply TrimSpace_solid).
  by rewrite unquote_quoted.
Qed.
Lemma scanLines_lines lines : Forall (λ l, has_char newline l = false) lines →
  scanLines (String.concat "" ((λ l, l +:+ String newline "") <$> lines)) = lines.
Proof.
  intros Hl. rewrite /scanLines.
  assert (split_on newline (String.concat "" ((λ l, l +:+ String newline "") <$> lines)) = lines ++ [""]) as ->.
  { induction Hl as [|l lines H1 _ IH]; [done|].
    assert (∀ a ls, String.concat "" (a :: ls) = a +:+ String.concat "" ls) as Hc.
    { intros x [|y ls]; [|done]. simpl. by rewrite append_nil. }
    rewrite fmap_cons Hc append_assoc.
    change (String newline "" +:+ ?s) with (String newline s). by rewrite split_on_app // IH. }
  by rewrite last_snoc List.removelast_last.
Qed.

(** A credentials file reads back what was written to it.  A file that exports
    the eight variables, one a line, each value between single quotes, gives exactly
    those credentials, whatever else than a newline the values contain: hash signs,
    equals signs, spaces and quotes survive. *)
Theorem openrc_roundtrip c :
  Forall value_ok [AuthURL c; Username c; Password c; ProjectName_ c; UserDomain c; ProjectDomain c;
    Region c; Interface c] →
  AuthURL c ≠ "" → Username c ≠ "" → Password c ≠ "" → ProjectName_ c ≠ "" →
  UserDomain c ≠ "" → ProjectDomain c ≠ "" →
  ParseOpenRC (Some (renderOpenRC c)) = inr c.
Proof.
  intros Hv Ha Hu Hp Hn Hud Hpd. rewrite !Forall_cons in Hv.
  destruct Hv as (V1 & V2 & V3 & V4 & V5 & V6 & V7 & V8 & _).
  rewrite /ParseOpenRC /renderOpenRC (list_fmap_compose openrcLine (λ l, l +:+ String newline "")).
  rewrite scanLines_lines.
  { repeat constructor; rewrite /openrcLine /= has_char_app /=; by rewrite orb_false_r; apply V1 || apply V2 ||
      apply V3 || apply V4 || apply V5 || apply V6 || apply V7 || apply V8. }
  rewrite !fmap_cons fmap_nil.
  rewrite !parseLines_line; try (split_and!; [done|by vm_compute|by do 2 eexists]); try done.
  cbn [parseLines fst snd]. set (env := <["OS_INTERFACE" := _]> _).
  assert (env !! "OS_AUTH_URL" = Some (AuthURL c) ∧ env !! "OS_USERNAME" = Some (Username c) ∧
    env !! "OS_PASSWORD" = Some (Password c) ∧ env !! "OS_PROJECT_NAME" = Some (ProjectName_ c) ∧
    env !! "OS_USER_DOMAIN_NAME" = Some (UserDomain c) ∧
    env !! "OS_PROJECT_DOMAIN_NAME" = Some (ProjectDomain c) ∧
    env !! "OS_REGION_NAME" = Some (Region c) ∧ env !! "OS_INTERFACE" = Some (Interface c))
    as (-> & -> & -> & -> & -> & -> & -> & ->).
  { rewrite /env. split_and!; repeat (rewrite lookup_insert_ne; [done|]); by rewrite lookup_insert_eq. }
  destruct c as [c1 c2 c3 c4 c5 c6 c7 c8]. cbn [default AuthURL Username Password ProjectName_ UserDomain
    ProjectDomain Region Interface] in *.
  rewrite /orDefault (decide_False _ _ Hud) (decide_False _ _ Hpd) /requireFields.
  cbn [AuthURL Username Password ProjectName_].
  by rewrite (decide_False _ _ Ha) (decide_False _ _ Hu) (decide_False _ _ Hp) (decide_False _ _ Hn).
Qed.

Module OpenStackExamples.
#[local] Existing Instance Prelude.list_range.
Definition creds : Credentials := mkCreds "http://keystone:5000/v3" "agent" "p#ss=w'rd x" "admin"
  "default" "default" "" "public".
Example spellings :
  ParseOpenRC (Some ("# admin" +:+ String newline "export OS_AUTH_URL=u" +:+ String carriage (String newline
    "OS_USERNAME = me") +:+ String newline "OS_PASSWORD=a#b" +:+ String newline "export OS_PROJECT_NAME=p"))
  = inr (mkCreds "u" "me" "a#b" "p" "default" "default" "" "") ∧
  ParseOpenRC (Some "OS_AUTH_URL") = inl (NoEquals 1) ∧ ParseOpenRC (Some "=x") = inl (EmptyKey 1) ∧
  ParseOpenRC (Some "") = inl (MissingKeys ["OS_AUTH_URL"; "OS_USERNAME"; "OS_PASSWORD"; "OS_PROJECT_NAME"]) ∧
  EndpointOpts creds defaultInterface = Some ("", "public").
Proof. by vm_compute. Qed.
Lemma openrc_roundtrip_witness : ParseOpenRC (Some (renderOpenRC creds)) = inr creds.
Proof.
  apply openrc_roundtrip; try done. repeat constructor; by vm_compute.
Defined.
Definition bare : api string := mkApi (inr [mkApiNetwork "n" "" "t" "blue" false false])
  (inr [mkApiSubnet "s" "n" "t" "" "10.0.0.0/24" "10.0.0.1" 4]) (inr []) (inr []) (inr []) (inr [])
  (inl "503") (inr []) (inl "403").
Definition full : api string := mkApi (api_networks bare) (api_subnets bare) (inr []) (inr []) (inr [])
  (inr []) (inr [mkApiServer "v" "web" "t"]) (inr [mkApiLoadBalancer "lb" "t" "amphora"]) (inr []).
Lemma optional_services_never_block_witness :
  match Sync 16 None (clientOf (mkServiceClient false true) bare),
    Sync 16 None (clientOf (mkServiceClient true true) full) with
  | inr r1, inr r2 => SR_Entries r1 = SR_Entries r2 ∧ Servers (SR_Snapshot r1) = [] ∧
      Servers (SR_Snapshot r2) = [mkServer "v" "web" "t"] ∧ length (SR_Entries r1) = 4%nat
  | _, _ => False
  end.
Proof.
  pose proof (optional_services_never_block 16 (mkServiceClient false true)
    (mkServiceClient true true) bare full eq_refl eq_refl eq_refl eq_refl eq_refl eq_refl) as H.
  vm_compute in H |- *. destruct H as [_ _]. by split_and!.
Defined.
End OpenStackExamples.
