(* ===== verification/Pins.v ===== *)
(** * Loading the kernel maps over their pins ([loadCollection] and its helpers,
    internal/agent/bootstrap_linux.go)

    The maps that hold counters are pinned in a directory of the kernel's BPF file
    system, so that an agent that restarts finds the kernel's counters again.  The
    library that loads a collection is a parameter: [EbpfLoader] states what its
    documentation promises about pins. *)
From S2P Require Import Prelude Bpf.

(** ** Specs, objects and the pin directory *)

Inductive PinType := PinNone | PinByName.
#[export] Instance PinType_dec : EqDecision PinType. Proof. solve_decision. Defined.
(** What the kernel fixes when a map is created. *)
Record MapShape := mkShape { MapKind : string; KeySize : Z; ValueSize : Z; MaxEntries : Z }.
#[export] Instance MapShape_dec : EqDecision MapShape. Proof. solve_decision. Defined.
Record MapSpec := mkMapSpec { Shape : MapShape; Pinning : PinType }.
Definition Specs : Type := gmap string MapSpec.

(** [objects]: the kernel's maps; [pins]: the files of the pin directory, each naming
    an object (one outside [objects] is not a map); [os_faults]: what the next calls
    of package os answer, none being success. *)
Record Host := mkHost {
  pins : gmap string positive; objects : gmap positive MapShape; os_faults : list (option string) }.

Inductive loadErr := ErrMapIncompatible (name : string) | LoadFailed (e : string).
Definition Coll : Type := gmap string positive.

Class EbpfLoader (NewCollection : Specs → Host → Host * (loadErr + Coll)) := {
  (** Whatever happens, no pin is replaced and no map changes its shape. *)
  load_keeps spec h h' r : NewCollection spec h = (h', r) →
    pins h ⊆ pins h' ∧ objects h ⊆ objects h';
  (** A pin that was not there is one of a map asked to be pinned by name, and is
      of that map's shape. *)
  load_new_pin spec h h' r name id : NewCollection spec h = (h', r) →
    pins h !! name = None → pins h' !! name = Some id →
    ∃ ms, spec !! name = Some ms ∧ Pinning ms = PinByName ∧ objects h' !! id = Some (Shape ms);
  (** A collection has the maps of its specs: of their shapes, pinned under their
      names when that was asked and the very object of the pin where there was one,
      and otherwise a new object. *)
  load_maps spec h h' coll : NewCollection spec h = (h', inr coll) → dom coll = dom spec ∧
    ∀ name ms id, spec !! name = Some ms → coll !! name = Some id →
      objects h' !! id = Some (Shape ms) ∧
      match Pinning ms with
      | PinByName => pins h' !! name = Some id ∧
          objects h !! id = match pins h !! name with Some _ => Some (Shape ms) | None => None end
      | PinNone => objects h !! id = None ∧ ∀ other, pins h' !! other ≠ Some id
      end;
  (** The incompatibility reported is there. *)
  load_incompatible spec h h' name : NewCollection spec h = (h', inl (ErrMapIncompatible name)) →
    ∃ ms id, spec !! name = Some ms ∧ Pinning ms = PinByName ∧ pins h !! name = Some id ∧
      objects h !! id ≠ Some (Shape ms) }.

(** ** The operations *)

Definition pinnedMaps : list string := [MapTelemetry; MapTelemetryStats].

Inductive pinErr :=
  | NoPinDir (e : string) | NotInSpec (name : string) | LoadPinned (e : loadErr)
  | RemovalFailed (first : pinErr) (removals : list (string * string)).
Fixpoint isIncompatible (e : pinErr) : bool :=
  match e with
  | LoadPinned (ErrMapIncompatible _) => true
  | RemovalFailed first _ => isIncompatible first
  | _ => false
  end.

Definition osCall (h : Host) : Host * option string :=
  (mkHost (pins h) (objects h) (tail (os_faults h)), default None (head (os_faults h))).
(** [os.Remove] of a pin: the name is gone, the object stays while someone holds it. *)
Inductive removed := Removed | NotExist | RemoveErr (e : string).
Definition Remove (name : string) (h : Host) : Host * removed :=
  match osCall h with
  | (h, Some e) => (h, RemoveErr e)
  | (h, None) =>
      match pins h !! name with
      | None => (h, NotExist)
      | Some _ => (mkHost (delete name (pins h)) (objects h) (os_faults h), Removed)
      end
  end.

Section load.
Variable NewCollection : Specs → Host → Host * (loadErr + Coll).

Definition setPinning (p : PinType) (name : string) (spec : Specs) : Specs :=
  alter (λ ms, mkMapSpec (Shape ms) p) name spec.
(** The specs are shared: what is marked stays marked, on an error too. *)
Fixpoint markPinned (names : list string) (spec : Specs) : Specs * option string :=
  match names with
  | [] => (spec, None)
  | name :: names =>
      match spec !! name with
      | None => (spec, Some name)
      | Some _ => markPinned names (setPinning PinByName name spec)
      end
  end.
Definition loadPinnedCollection (spec : Specs) (h : Host) : Specs * Host * (pinErr + Coll) :=
  let '(h, err) := osCall h in
  match err with
  | Some e => (spec, h, inl (NoPinDir e))
  | None =>
      let '(spec, missing) := markPinned pinnedMaps spec in
      match missing with
      | Some name => (spec, h, inl (NotInSpec name))
      | None =>
          match NewCollection spec h with
          | (h, inl e) => (spec, h, inl (LoadPinned e))
          | (h, inr coll) => (spec, h, inr coll)
          end
      end
  end.
Definition loadUnpinnedCollection (spec : Specs) (h : Host) : Host * (loadErr + Coll) :=
  NewCollection (foldl (λ spec name, setPinning PinNone name spec) spec pinnedMaps) h.
Definition removeStep (acc : Host * list (string * string)) (name : string) : Host * list (string * string) :=
  match Remove name acc.1 with
  | (h, RemoveErr e) => (h, acc.2 ++ [(name, e)])
  | (h, _) => (h, acc.2)
  end.
Definition removeStalePins (h : Host) : Host * list (string * string) := foldl removeStep (h, []) pinnedMaps.

Inductive collErr :=
  | SpecErr (e : string) | SizeErr (e : MapSizeError) | Refused (e : pinErr) | UnpinnedErr (e : loadErr).
(** The pinned load, with one retry after stale pins were removed. *)
Definition establishPins (spec : Specs) (h : Host) : Specs * Host * (pinErr + Coll) :=
  match loadPinnedCollection spec h with
  | (spec, h, inr coll) => (spec, h, inr coll)
  | (spec, h, inl err) =>
      if isIncompatible err then
        match removeStalePins h with
        | (h, []) => loadPinnedCollection spec h
        | (h, errs) => (spec, h, inl (RemovalFailed err errs))
        end
      else (spec, h, inl err)
  end.
Definition loadCollection (unsafeAllowUnpinned : bool) (loadTelemetry : string + Specs) (h : Host)
    : Host * (collErr + Coll * bool) :=
  match loadTelemetry with
  | inl e => (h, inl (SpecErr e))
  | inr spec =>
      match ValidateMapSizes (Some ((λ ms, MaxEntries (Shape ms)) <$> spec)) with
      | Some e => (h, inl (SizeErr e))
      | None =>
          match establishPins spec h with
          | (_, h, inr coll) => (h, inr (coll, true))
          | (spec, h, inl err) =>
              if negb unsafeAllowUnpinned then (h, inl (Refused err))
              else match loadUnpinnedCollection spec h with
                   | (h, inl e) => (h, inl (UnpinnedErr e))
                   | (h, inr coll) => (h, inr (coll, false))
                   end
          end
      end
  end.

(** ** What each leaves *)

Context `{HL : !EbpfLoader NewCollection}.

(** The specs as the program embeds them: nothing pinned. *)
Definition unmarked (spec : Specs) : Prop := ∀ name ms, spec !! name = Some ms → Pinning ms = PinNone.
(** [spec] with some of the counter maps marked. *)
Definition marks (spec0 spec : Specs) : Prop :=
  dom spec = dom spec0 ∧ ∀ name ms, spec !! name = Some ms →
    Shape <$> spec0 !! name = Some (Shape ms) ∧ (Pinning ms = PinByName → name ∈ pinnedMaps).
Definition fullyMarked (spec0 spec : Specs) : Prop :=
  marks spec0 spec ∧ ∀ name ms, spec !! name = Some ms → name ∈ pinnedMaps → Pinning ms = PinByName.

Lemma unmarked_marks spec : unmarked spec → marks spec spec.
Proof.
  intros Hu. split; [done|]. intros name ms E. split; [by rewrite E|]. by rewrite (Hu _ _ E).
Qed.
Lemma setPinning_lookup p name spec name' ms' : setPinning p name spec !! name' = Some ms' →
  ∃ ms, spec !! name' = Some ms ∧ Shape ms' = Shape ms ∧
    Pinning ms' = if decide (name = name') then p else Pinning ms.
Proof.
  rewrite /setPinning. destruct (decide (name = name')) as [->|Hne].
  - rewrite lookup_alter_eq => /fmap_Some [ms [E ->]]. by exists ms.
  - rewrite lookup_alter_ne //. intros E. by exists ms'.
Qed.
Lemma setPinning_marks spec0 p name spec : name ∈ pinnedMaps → marks spec0 spec →
  marks spec0 (setPinning p name spec).
Proof.
  intros Hin [Hd Hm]. split; [by rewrite dom_alter_L|].
  intros name' ms' (ms & E & -> & ->)%setPinning_lookup. destruct (Hm _ _ E) as [-> Hp].
  split; [done|]. case_decide; [by subst|done].
Qed.

Lemma markPinned_marks spec0 names spec spec' r : names ⊆ pinnedMaps → marks spec0 spec →
  markPinned names spec = (spec', r) → marks spec0 spec' ∧
  (r = None → ∀ name ms, spec' !! name = Some ms →
     name ∈ names ∨ Pinning <$> spec !! name = Some PinByName → Pinning ms = PinByName).
Proof.
  induction names as [|name names IH] in spec |- *; intros Hsub Hm; cbn [markPinned].
  { intros [= <- <-]. split; [done|]. intros _ name ms E [Hin|Hp]; [by apply elem_of_nil in Hin|].
    rewrite E in Hp. by injection Hp. }
  destruct (spec !! name) as [ms0|] eqn:E0; [|by intros [= <- <-]].
  intros E. destruct (IH (setPinning PinByName name spec)) as [Hm' Hp]; [set_solver| |done|].
  { apply setPinning_marks; [set_solver|done]. }
  split; [done|]. intros Hr name' ms' E' Hin. apply (Hp Hr name' ms' E').
  destruct (decide (name' ∈ names)) as [|Hn]; [by left|]. right.
  destruct (decide (name' = name)) as [->|Hne].
  - by rewrite /setPinning lookup_alter_eq E0.
  - rewrite /setPinning lookup_alter_ne; [done|]. destruct Hin as [Hin|]; [|done]. set_solver.
Qed.

(** What a host keeps while the pinned load runs. *)
Definition keeps (h h' : Host) : Prop := pins h ⊆ pins h' ∧ objects h ⊆ objects h'.
Lemma keeps_refl h : keeps h h.
Proof. done. Qed.
Lemma osCall_keeps h : keeps h (osCall h).1.
Proof. done. Qed.

(** A collection whose counter maps are the pinned ones. *)
Definition pinnedColl (spec0 : Specs) (h h' : Host) (coll : Coll) : Prop :=
  dom coll = dom spec0 ∧ ∀ name id, coll !! name = Some id →
    objects h' !! id = Shape <$> spec0 !! name ∧
    if decide (name ∈ pinnedMaps)
    then pins h' !! name = Some id ∧
         objects h !! id = match pins h !! name with Some _ => Shape <$> spec0 !! name | None => None end
    else objects h !! id = None ∧ ∀ other, pins h' !! other ≠ Some id.
(** Pins that appear are those of the counter maps, with the shapes of the specs. *)
Definition newPins (spec0 : Specs) (h h' : Host) : Prop := ∀ name id, pins h !! name = None →
  pins h' !! name = Some id → name ∈ pinnedMaps ∧ objects h' !! id = Shape <$> spec0 !! name.
(** The pin [name] is not of the map the specs describe. *)
Definition stale (spec0 : Specs) (h : Host) (name : string) : Prop :=
  name ∈ pinnedMaps ∧ ∃ id, pins h !! name = Some id ∧ objects h !! id ≠ Shape <$> spec0 !! name.

Lemma marks_shape spec0 spec name ms : marks spec0 spec → spec !! name = Some ms →
  Some (Shape ms) = Shape <$> spec0 !! name.
Proof. intros [_ Hm] E. by destruct (Hm _ _ E) as [-> _]. Qed.
Lemma load_newPins spec0 spec h h' r : marks spec0 spec → NewCollection spec h = (h', r) → newPins spec0 h h'.
Proof.
  intros Hm E name id Hn Hs. destruct (load_new_pin _ _ _ _ _ _ E Hn Hs) as (ms & Ems & Hp & Ho).
  split; [by apply (proj2 Hm _ _ Ems)|]. by rewrite Ho (marks_shape spec0 spec name ms).
Qed.

Lemma newPins_same spec0 h h' : pins h' = pins h → newPins spec0 h h'.
Proof. intros E name id. rewrite E. by intros ->. Qed.

(** The pinned load: on what it answers. *)
Definition pinned_answer (spec0 : Specs) (h h' : Host) (r : pinErr + Coll) : Prop :=
  match r with
  | inr coll => pinnedColl spec0 h h' coll
  | inl e => isIncompatible e = true → ∃ name, stale spec0 h name
  end.
Lemma loadPinned_exact spec0 spec h spec' h' r : marks spec0 spec →
  loadPinnedCollection spec h = (spec', h', r) →
  marks spec0 spec' ∧ keeps h h' ∧ newPins spec0 h h' ∧ pinned_answer spec0 h h' r.
Proof.
  intros Hm. rewrite /loadPinnedCollection. destruct (osCall h) as [h1 [e|]] eqn:Eo; injection Eo as <- ?.
  { intros [= <- <- <-]. split_and!; [done..|by apply newPins_same|done]. }
  destruct (markPinned pinnedMaps spec) as [spec1 missing] eqn:Em.
  destruct (markPinned_marks spec0 _ _ _ _ ltac:(done) Hm Em) as [Hm1 Hp].
  destruct missing as [name|]. { intros [= <- <- <-]. split_and!; [done..|by apply newPins_same|done]. }
  destruct (NewCollection spec1 _) as [h2 res] eqn:El.
  destruct (load_keeps _ _ _ _ El) as [Hk1 Hk2].
  pose proof (load_newPins spec0 spec1 _ _ _ Hm1 El) as Hnew.
  destruct res as [e|coll]; intros [= <- <- <-]; split_and!; try done.
  - destruct e as [name|]; [|done]. intros _. exists name.
    destruct (load_incompatible _ _ _ _ El) as (ms & id & Ems & Hpin & Hid & Hne).
    split; [by apply (proj2 Hm1 _ _ Ems)|]. exists id. split; [done|]. by rewrite -(marks_shape spec0 spec1 name ms).
  - destruct (load_maps _ _ _ _ El) as [Hd Hc]. split; [by rewrite Hd (proj1 Hm1)|].
    intros name id Hid. destruct (spec1 !! name) as [ms|] eqn:Ems.
    2:{ apply not_elem_of_dom in Ems. apply elem_of_dom_2 in Hid. by rewrite Hd in Hid. }
    destruct (Hc name ms id Ems Hid) as [Ho Hpin].
    split; [by rewrite Ho (marks_shape spec0 spec1 name ms)|]. case_decide as Hin.
    + rewrite (Hp eq_refl name ms Ems (or_introl Hin)) (marks_shape spec0 spec1 name ms) in Hpin; done.
    + destruct (Pinning ms) eqn:Epin; [done|]. exfalso. apply Hin. by apply (proj2 Hm1 _ _ Ems).
Qed.

(** Removing stale pins takes at most the counter maps' names away. *)
Lemma removeStep_spec acc name : let acc' := removeStep acc name in
  objects acc'.1 = objects acc.1 ∧ (∃ more, acc'.2 = acc.2 ++ more) ∧
  (pins acc'.1 = pins acc.1 ∨ pins acc'.1 = delete name (pins acc.1)) ∧
  (acc'.2 = acc.2 → pins acc'.1 !! name = None).
Proof.
  destruct acc as [h errs]. rewrite /removeStep /Remove /=. destruct (default None (head (os_faults h))) as [e|]; simpl.
  { split_and!; [done|by eexists|by left|]. intros E. by apply (f_equal length) in E; rewrite length_app /= in E; lia. }
  destruct (pins h !! name) as [id|] eqn:E; simpl; split_and!; try done; try (by exists []; rewrite app_nil_r).
  - by right.
  - by rewrite lookup_delete_eq.
  - by left.
Qed.
Lemma removeStalePins_exact h h' errs : removeStalePins h = (h', errs) →
  objects h' = objects h ∧ (∀ name, name ∉ pinnedMaps → pins h' !! name = pins h !! name) ∧
  pins h' ⊆ pins h ∧ (errs = [] → ∀ name, name ∈ pinnedMaps → pins h' !! name = None).
Proof.
  rewrite /removeStalePins /pinnedMaps. cbn [foldl].
  pose proof (removeStep_spec (h, []) MapTelemetry) as H1.
  destruct (removeStep (h, []) MapTelemetry) as [h1 e1].
  pose proof (removeStep_spec (h1, e1) MapTelemetryStats) as H2. cbv zeta in H1, H2. simpl in H1, H2.
  intros E. rewrite E /= in H2. destruct H1 as (Ho1 & [m1 Hm1] & Hp1 & Hn1), H2 as (Ho2 & [m2 Hm2] & Hp2 & Hn2).
  split_and!.
  - congruence.
  - intros name Hn. rewrite !not_elem_of_cons in Hn. destruct Hn as (Hn1' & Hn2' & _).
    destruct Hp2 as [->| ->], Hp1 as [->| ->]; rewrite ?lookup_delete_ne //.
  - destruct Hp2 as [->| ->], Hp1 as [->| ->]; repeat (etrans; [apply delete_subseteq|]); done.
  - intros ->. symmetry in Hm2. apply app_nil in Hm2 as [-> ->]. symmetry in Hm1. simpl in Hm1. subst m1.
    intros name. rewrite !elem_of_cons elem_of_nil. intros [->|[->|[]]]; [|by apply Hn2].
    destruct Hp2 as [->| ->]; [by apply Hn1|]. rewrite lookup_delete_ne; [done|]. by apply Hn1.
Qed.

Lemma removeStalePins_quiet h : os_faults h = [] → ∃ h', removeStalePins h = (h', []) ∧ os_faults h' = [].
Proof.
  intros E. rewrite /removeStalePins /pinnedMaps /= /removeStep /Remove /= E /=.
  destruct (pins h !! MapTelemetry); simpl; (destruct (_ !! MapTelemetryStats); simpl; by eexists).
Qed.
Lemma sizes_present spec name : ValidateMapSizes (Some ((λ ms, MaxEntries (Shape ms)) <$> spec)) = None →
  name ∈ pinnedMaps → is_Some (spec !! name).
Proof.
  rewrite ValidateMapSizes_ok /mapSizeChecks /pinnedMaps !Forall_cons /=.
  intros (H1 & _ & _ & H2 & _). rewrite !elem_of_cons elem_of_nil.
  apply lookup_fmap_Some in H1 as (ms1 & _ & E1). apply lookup_fmap_Some in H2 as (ms2 & _ & E2).
  intros [->|[->|[]]]; eauto.
Qed.
Lemma loadUnpinned_exact spec0 spec h h' coll : marks spec0 spec →
  loadUnpinnedCollection spec h = (h', inr coll) → dom coll = dom spec0 ∧
  ∀ name id, coll !! name = Some id → objects h' !! id = Shape <$> spec0 !! name ∧
    objects h !! id = None ∧ ∀ other, pins h' !! other ≠ Some id.
Proof.
  intros Hm. rewrite /loadUnpinnedCollection. set (spec1 := foldl _ _ _).
  assert (marks spec0 spec1) as Hm1.
  { subst spec1. cbn [foldl pinnedMaps]. by repeat (apply setPinning_marks; [set_solver|]). }
  assert (∀ name ms, spec1 !! name = Some ms → Pinning ms = PinNone) as Hnone.
  { intros name ms E. destruct (Pinning ms) eqn:Ep; [done|].
    pose proof (proj2 (proj2 Hm1 _ _ E) Ep) as Hin. subst spec1. cbn [foldl pinnedMaps] in E.
    apply setPinning_lookup in E as (ms1 & (ms2 & _ & _ & E2)%setPinning_lookup & _ & E1). rewrite Ep E2 in E1.
    rewrite /pinnedMaps !elem_of_cons elem_of_nil in Hin. destruct Hin as [->|[->|[]]];
      repeat case_decide; done. }
  intros El. destruct (load_maps _ _ _ _ El) as [Hd Hc]. split; [by rewrite Hd (proj1 Hm1)|].
  intros name id Hid. destruct (spec1 !! name) as [ms|] eqn:Ems.
  2:{ apply not_elem_of_dom in Ems. apply elem_of_dom_2 in Hid. by rewrite Hd in Hid. }
  destruct (Hc name ms id Ems Hid) as [Ho Hpin]. rewrite (Hnone _ _ Ems) in Hpin.
  by rewrite Ho (marks_shape spec0 spec1 name ms).
Qed.

(** What the pins, before and after, have to do with the counter maps of [coll]. *)
Definition adopted (h : Host) (coll : Coll) : Prop := ∀ name id, name ∈ pinnedMaps →
  pins h !! name = Some id → coll !! name = Some id.
Definition renewed (spec0 : Specs) (h : Host) (coll : Coll) : Prop := (∃ name, stale spec0 h name) ∧
  ∀ name id, name ∈ pinnedMaps → coll !! name = Some id → objects h !! id = None.
Definition pinned_outcome (spec0 : Specs) (h h' : Host) (coll : Coll) : Prop :=
  dom coll = dom spec0 ∧ (∀ name id, coll !! name = Some id → objects h' !! id = Shape <$> spec0 !! name) ∧
  (∀ name, name ∈ pinnedMaps → pins h' !! name = coll !! name ∧ is_Some (coll !! name)) ∧
  (∀ name id, name ∉ pinnedMaps → coll !! name = Some id → objects h !! id = None) ∧
  ((∀ name, ¬ stale spec0 h name) ∧ adopted h coll ∨ renewed spec0 h coll).

Lemma pinnedColl_outcome spec0 h h' coll : keeps h h' → pinnedColl spec0 h h' coll →
  (∀ name, name ∈ pinnedMaps → is_Some (spec0 !! name)) →
  pinned_outcome spec0 h h' coll ∧ (∀ name, ¬ stale spec0 h name) ∧ adopted h coll.
Proof.
  intros [Hk _] [Hd Hc] Hin.
  assert (∀ name, name ∈ pinnedMaps → ∃ id, coll !! name = Some id ∧ pins h' !! name = Some id ∧
    objects h !! id = match pins h !! name with Some _ => Shape <$> spec0 !! name | None => None end) as Hp.
  { intros name Hn. destruct (Hin name Hn) as [ms Hms]. apply elem_of_dom_2 in Hms. rewrite -Hd in Hms.
    apply elem_of_dom in Hms as [id Hid]. exists id. destruct (Hc name id Hid) as [_ H].
    rewrite decide_True // in H. }
  assert (adopted h coll) as Ha.
  { intros name id Hn Hid. destruct (Hp name Hn) as (id' & Hid' & Hp' & _).
    rewrite (lookup_weaken _ _ _ _ Hid Hk) in Hp'. by simplify_eq. }
  assert (∀ name, ¬ stale spec0 h name) as Hs.
  { intros name [Hn (id & Hid & Hne)]. apply Hne. destruct (Hp name Hn) as (id' & Hid' & _ & Ho).
    rewrite (Ha name id Hn Hid) in Hid'. simplify_eq. by rewrite Ho Hid. }
  split; [|done]. split_and!; [done|by intros; eapply Hc| | |by left].
  - intros name Hn. destruct (Hp name Hn) as (id & -> & -> & _). by split.
  - intros name id Hn Hid. destruct (Hc name id Hid) as [_ H]. rewrite decide_False // in H. by destruct H.
Qed.

(** The pinned load with its retry. *)
Lemma establish_exact spec h spec' h' r : unmarked spec →
  (∀ name, name ∈ pinnedMaps → is_Some (spec !! name)) →
  establishPins spec h = (spec', h', r) →
  marks spec spec' ∧ objects h ⊆ objects h' ∧
  (pins h ⊆ pins h' ∨ ∃ name, stale spec h name) ∧
  (∀ name, name ∉ pinnedMaps → pins h' !! name = pins h !! name) ∧
  match r with inr coll => pinned_outcome spec h h' coll | inl _ => True end.
Proof.
  intros Hu Hin. rewrite /establishPins.
  destruct (loadPinnedCollection spec h) as [[spec1 h1] r1] eqn:E1.
  destruct (loadPinned_exact spec _ _ _ _ _ (unmarked_marks _ Hu) E1) as (Hm1 & Hk1 & Hn1 & Ha1).
  assert (∀ h h', keeps h h' → newPins spec h h' → ∀ name, name ∉ pinnedMaps → pins h' !! name = pins h !! name) as Hother.
  { intros g g' [Hg _] Hn name Hname. destruct (pins g !! name) as [id|] eqn:E; [by eapply lookup_weaken|].
    destruct (pins g' !! name) as [id|] eqn:E'; [|done]. by destruct (Hn name id E E'). }
  destruct r1 as [err|coll]; cbn [pinned_answer] in Ha1.
  2:{ intros [= <- <- <-]. destruct (pinnedColl_outcome _ _ _ _ Hk1 Ha1 Hin) as (Ho & _).
      split_and!; [done|apply Hk1|left; apply Hk1|by apply Hother|done]. }
  destruct (isIncompatible err) eqn:Einc.
  2:{ intros [= <- <- <-]. split_and!; [done|apply Hk1|left; apply Hk1|by apply Hother|done]. }
  specialize (Ha1 eq_refl). destruct (removeStalePins h1) as [h2 errs] eqn:Er.
  destruct (removeStalePins_exact _ _ _ Er) as (Ho2 & Hn2 & Hs2 & Hgone).
  destruct errs as [|e errs].
  2:{ intros [= <- <- <-]. split_and!; [done|rewrite Ho2; apply Hk1|by right| |done].
      intros name Hn. rewrite Hn2 //. by apply Hother. }
  intros E3. destruct (loadPinned_exact spec _ _ _ _ _ Hm1 E3) as (Hm3 & Hk3 & Hn3 & Ha3).
  assert (objects h ⊆ objects h2) as Hsub by (rewrite Ho2; apply Hk1).
  split_and!; [done|etrans; [exact Hsub|apply Hk3]|by right| |].
  { intros name Hn. rewrite (Hother h2 h') // Hn2 //. by apply Hother. }
  destruct r as [e3|coll]; [done|]. cbn [pinned_answer] in Ha3.
  destruct (pinnedColl_outcome _ _ _ _ Hk3 Ha3 Hin) as ((Hd & Hshape & Hp & Hnew & _) & _).
  assert (∀ id, objects h2 !! id = None → objects h !! id = None) as Hfresh.
  { intros id Hid. by eapply lookup_weaken_None. }
  split_and!; [done|done|done|by intros; eapply Hfresh, Hnew|].
  right. split; [done|]. intros name id Hn Hid. apply Hfresh. destruct Ha3 as [_ Hc].
  destruct (Hc name id Hid) as [_ H]. rewrite decide_True // in H. destruct H as [_ ->].
  by rewrite Hgone.
Qed.

(** What a load answers, and what it does to the pins. *)
Definition load_outcome (unsafeAllow : bool) (spec : Specs) (h h' : Host) (r : collErr + Coll * bool) : Prop :=
  match r with
  | inr (coll, true) => pinned_outcome spec h h' coll
  | inr (coll, false) => unsafeAllow = true ∧ dom coll = dom spec ∧
      ∀ name id, coll !! name = Some id → objects h' !! id = Shape <$> spec !! name ∧
        objects h !! id = None ∧ ∀ other, pins h' !! other ≠ Some id
  | inl _ => True
  end ∧
  (pins h ⊆ pins h' ∨ ∃ name, stale spec h name) ∧ objects h ⊆ objects h'.
Lemma loadCollection_exact unsafeAllow spec h h' r : unmarked spec →
  loadCollection unsafeAllow (inr spec) h = (h', r) → load_outcome unsafeAllow spec h h' r.
Proof.
  intros Hu. rewrite /loadCollection. destruct (ValidateMapSizes _) as [e|] eqn:Ev.
  { intros [= <- <-]. split_and!; [done|by left|done]. }
  pose proof (λ name, sizes_present spec name Ev) as Hin.
  destruct (establishPins spec h) as [[spec1 h1] r1] eqn:Ee.
  destruct (establish_exact _ _ _ _ _ Hu Hin Ee) as (Hm & Ho & Hp & Hn & Hr).
  destruct r1 as [err|coll]; [|by intros [= <- <-]].
  destruct unsafeAllow; cbn [negb]; [|by intros [= <- <-]].
  destruct (loadUnpinnedCollection spec1 h1) as [h2 [e|coll]] eqn:El; intros [= <- <-].
  - destruct (load_keeps (NewCollection := NewCollection) _ _ _ _ El) as [Hk1 Hk2].
    split_and!; [done|destruct Hp as [Hp|]; [left; by etrans|by right]|by etrans].
  - destruct (load_keeps (NewCollection := NewCollection) _ _ _ _ El) as [Hk1 Hk2].
    destruct (loadUnpinned_exact spec _ _ _ _ Hm El) as [Hd Hc].
    split_and!; [done|done| |destruct Hp as [Hp|]; [left; by etrans|by right]|by etrans].
    intros name id Hid. destruct (Hc name id Hid) as (Hs & Hf & Hu'). split_and!; [done| |done].
    by eapply lookup_weaken_None.
Qed.

(** On a host where nothing else fails, the boot always ends with pinned maps: a stale
    pin costs the old counters, not the boot. *)
Lemma stale_pins_heal unsafeAllow spec h : unmarked spec → os_faults h = [] →
  ValidateMapSizes (Some ((λ ms, MaxEntries (Shape ms)) <$> spec)) = None →
  (∀ spec h, ∃ h' r, NewCollection spec h = (h', r) ∧ os_faults h' = os_faults h ∧
     ∀ e, r ≠ inl (LoadFailed e)) →
  ∃ h' coll, loadCollection unsafeAllow (inr spec) h = (h', inr (coll, true)).
Proof.
  intros Hu Hf Hv Hload. pose proof (λ name, sizes_present spec name Hv) as Hin.
  assert (∀ spec1 g, marks spec spec1 → os_faults g = [] → ∃ spec2 g' r,
    loadPinnedCollection spec1 g = (spec2, g', r) ∧ os_faults g' = [] ∧
    match r with inl e => ∃ name, e = LoadPinned (ErrMapIncompatible name) | inr _ => True end) as Hl.
  { intros spec1 g Hm Hg. rewrite /loadPinnedCollection /osCall Hg /=.
    assert (is_Some (spec1 !! MapTelemetry) ∧ is_Some (spec1 !! MapTelemetryStats)) as [[m1 E1] [m2 E2]].
    { rewrite -!elem_of_dom (proj1 Hm) !elem_of_dom. split; apply Hin; set_solver. }
    rewrite E1 /setPinning lookup_alter_ne // E2.
    match goal with |- context [NewCollection ?s ?g'] => destruct (Hload s g') as (g2 & r & -> & Hg2 & Hr) end.
    destruct r as [[name|e]|coll]; [|by destruct (Hr e)|]; do 3 eexists; split_and!; try done; by eexists. }
  destruct (Hl spec h (unmarked_marks _ Hu) Hf) as (spec1 & h1 & r1 & E1 & Hf1 & Hr1).
  rewrite /loadCollection Hv /establishPins E1. destruct r1 as [e|coll]; [|by do 2 eexists].
  destruct Hr1 as [name ->]. cbn [isIncompatible].
  destruct (removeStalePins_quiet h1 Hf1) as (h2 & Er & Hf2). rewrite Er.
  destruct (loadPinned_exact spec _ _ _ _ _ (unmarked_marks _ Hu) E1) as (Hm1 & _).
  destruct (Hl spec1 h2 Hm1 Hf2) as (spec3 & h3 & r3 & E3 & _ & Hr3). rewrite E3.
  destruct r3 as [e|coll]; [exfalso|by do 2 eexists]. destruct Hr3 as [name' ->].
  destruct (loadPinned_exact spec _ _ _ _ _ Hm1 E3) as (_ & _ & _ & Ha).
  destruct (Ha eq_refl) as (n & Hn & id & Hid & _).
  destruct (removeStalePins_exact _ _ _ Er) as (_ & _ & _ & Hgone). by rewrite Hgone in Hid.
Qed.

(** C17: Counters survive exactly when they can be trusted.  When a boot's load returns a
    collection that counts as pinned, its maps have the shapes the program was built
    with, the two counter maps are the ones the pin directory names afterwards, and
    either no pin was stale and every pin there was is adopted as it is, counters
    included, or some pin was stale and both counter maps are new: a map of another
    shape is never adopted.  A collection that does not count as pinned is only
    returned when the operator allowed it, and is new and unpinned throughout.  Pins
    are only ever removed when one of them was stale.  On a host where nothing else
    fails the load always ends with pinned maps: a stale pin costs the counters, not
    the boot. *)
Theorem collection_over_pins unsafeAllow spec h : unmarked spec →
  load_outcome unsafeAllow spec h (loadCollection unsafeAllow (inr spec) h).1
    (loadCollection unsafeAllow (inr spec) h).2 ∧
  (os_faults h = [] → ValidateMapSizes (Some ((λ ms, MaxEntries (Shape ms)) <$> spec)) = None →
   (∀ spec h, ∃ h' r, NewCollection spec h = (h', r) ∧ os_faults h' = os_faults h ∧
      ∀ e, r ≠ inl (LoadFailed e)) →
   ∃ coll, (loadCollection unsafeAllow (inr spec) h).2 = inr (coll, true)).
Proof.
  intros Hu. split; [by apply loadCollection_exact; [|apply surjective_pairing]|].
  intros Hf Hv Hload. destruct (stale_pins_heal unsafeAllow spec h Hu Hf Hv Hload) as (h' & coll & ->).
  by exists coll.
Qed.

(** An agent that restarts under the same build finds its counters: whatever happened
    in between, as long as the pins and their maps were left alone, a second boot that
    pins gets the very maps of the first, and every other map anew. *)
Theorem restart_same_maps unsafe1 unsafe2 spec h h1 h2 h3 coll1 coll2 : unmarked spec →
  loadCollection unsafe1 (inr spec) h = (h1, inr (coll1, true)) → keeps h1 h2 →
  loadCollection unsafe2 (inr spec) h2 = (h3, inr (coll2, true)) →
  ∀ name, if decide (name ∈ pinnedMaps) then coll2 !! name = coll1 !! name
          else ∀ id, coll2 !! name = Some id → coll1 !! name ≠ Some id.
Proof.
  intros Hu E1 [Hk1 Hk2] E2.
  destruct (loadCollection_exact _ _ _ _ _ Hu E1) as ((Hd1 & Hs1 & Hp1 & _) & _).
  destruct (loadCollection_exact _ _ _ _ _ Hu E2) as ((_ & _ & _ & Hn2 & Ha) & _).
  assert (∀ name, ¬ stale spec h2 name) as Hstale.
  { intros name [Hn (id & Hid & Hne)]. apply Hne. destruct (Hp1 name Hn) as [Hp [id1 Hid1]].
    rewrite Hid1 in Hp. pose proof (lookup_weaken _ _ _ _ Hp Hk1) as Hp'. simplify_eq.
    pose proof (Hs1 _ _ Hid1) as Ho.
    assert (name ∈ dom spec) as [ms Hms]%elem_of_dom by (rewrite -Hd1; by eapply elem_of_dom_2).
    rewrite Hms /= in Ho |- *. by eapply lookup_weaken. }
  destruct Ha as [[_ Ha]|[[name Hst] _]]; [|by destruct (Hstale name)].
  intros name. case_decide as Hn.
  - destruct (Hp1 name Hn) as [Hp [id1 Hid1]]. rewrite Hid1 in Hp |- *.
    apply Ha; [done|]. by eapply lookup_weaken.
  - intros id Hid Hid1. pose proof (Hn2 name id Hn Hid) as Hf.
    assert (name ∈ dom spec) as [ms Hms]%elem_of_dom by (rewrite -Hd1; by eapply elem_of_dom_2).
    pose proof (Hs1 _ _ Hid1) as Ho. rewrite Hms /= in Ho.
    by rewrite (lookup_weaken _ _ _ _ Ho Hk2) in Hf.
Qed.

End load.

(** ** A loader that keeps the promises, and the boots of a host *)

Module PinsExamples.
(** Creates what is missing, under fresh ids, one map after another. *)
Definition usedIds (h : Host) (coll : Coll) : gset positive :=
  dom (objects h) ∪ map_img (pins h) ∪ map_img coll.
Definition loadMap (acc : Host * (loadErr + Coll)) (row : string * MapSpec) : Host * (loadErr + Coll) :=
  match acc with
  | (h, inl e) => (h, inl e)
  | (h, inr coll) =>
      let '(name, ms) := row in
      let id := fresh (usedIds h coll) in
      let create pins' := (mkHost pins' (<[id := Shape ms]> (objects h)) (os_faults h), inr (<[name := id]> coll)) in
      match Pinning ms, pins h !! name with
      | PinNone, _ => create (pins h)
      | PinByName, None => create (<[name := id]> (pins h))
      | PinByName, Some old =>
          if decide (objects h !! old = Some (Shape ms)) then (h, inr (<[name := old]> coll))
          else (h, inl (ErrMapIncompatible name))
      end
  end.
Definition load (spec : Specs) (h : Host) : Host * (loadErr + Coll) :=
  foldl loadMap (h, inr ∅) (map_to_list spec).

(** What holds once the rows [rows] were loaded, from the host [h0]. *)
Definition row_done (h0 h : Host) (ms : MapSpec) (name : string) (id : positive) : Prop :=
  objects h !! id = Some (Shape ms) ∧
  match Pinning ms with
  | PinByName => pins h !! name = Some id ∧
      objects h0 !! id = match pins h0 !! name with Some _ => Some (Shape ms) | None => None end
  | PinNone => objects h0 !! id = None ∧ ∀ other, pins h !! other ≠ Some id
  end.
Definition done_ok (h0 : Host) (rows : list (string * MapSpec)) (acc : Host * (loadErr + Coll)) : Prop :=
  let h := acc.1 in
  keeps h0 h ∧ os_faults h = os_faults h0 ∧
  (∀ id, objects h0 !! id = None → is_Some (objects h !! id) → ∀ n, pins h0 !! n ≠ Some id) ∧
  (∀ name id, pins h0 !! name = None → pins h !! name = Some id →
     ∃ ms, (name, ms) ∈ rows ∧ Pinning ms = PinByName ∧ objects h !! id = Some (Shape ms)) ∧
  match acc.2 with
  | inr coll => dom coll = list_to_set rows.*1 ∧
      ∀ name id, coll !! name = Some id → ∃ ms, (name, ms) ∈ rows ∧ row_done h0 h ms name id
  | inl (ErrMapIncompatible name) => ∃ ms id, (name, ms) ∈ rows ∧ Pinning ms = PinByName ∧
      pins h0 !! name = Some id ∧ objects h0 !! id ≠ Some (Shape ms)
  | inl (LoadFailed _) => False
  end.
Lemma fresh_used h coll : let id := fresh (usedIds h coll) in
  objects h !! id = None ∧ (∀ n, pins h !! n ≠ Some id) ∧ (∀ n, coll !! n ≠ Some id).
Proof.
  pose proof (is_fresh (usedIds h coll)) as Hf. cbv zeta. revert Hf.
  generalize (fresh (usedIds h coll)). intros id. rewrite /usedIds !not_elem_of_union not_elem_of_dom.
  intros [[H1 H2] H3]. split_and!; [done| |]; intros n Hn;
    [apply H2|apply H3]; by apply (elem_of_map_img_2 (SA := gset positive)) in Hn.
Qed.
(** A row already loaded stays so while maps are created under new ids. *)
Lemma row_done_create h0 h ms name id new shape pins' :
  objects h !! new = None → (pins' = pins h ∨ ∃ n, pins h !! n = None ∧ pins' = <[n := new]> (pins h)) →
  row_done h0 h ms name id → row_done h0 (mkHost pins' (<[new := shape]> (objects h)) (os_faults h)) ms name id.
Proof.
  intros Hnew Hp [Ho Hr]. assert (new ≠ id) by congruence. split; [by rewrite lookup_insert_ne|].
  destruct (Pinning ms); simpl.
  - split; [apply Hr|]. intros other. destruct Hp as [->|(n & Hn & ->)]; [apply Hr|].
    destruct (decide (n = other)) as [->|]; [rewrite lookup_insert_eq; congruence|].
    rewrite lookup_insert_ne //. apply Hr.
  - split; [|apply Hr]. destruct Hr as [Hr _]. destruct Hp as [->|(n & Hn & ->)]; [done|].
    rewrite lookup_insert_ne //. intros ->. congruence.
Qed.
(** A map created under a new id, pinned or not as asked. *)
Definition may_pin (h : Host) (ms : MapSpec) (name : string) (id : positive) (pins' : gmap string positive) : Prop :=
  pins' = pins h ∧ Pinning ms = PinNone ∨
  pins h !! name = None ∧ Pinning ms = PinByName ∧ pins' = <[name := id]> (pins h).
Lemma create_ok h0 rows h coll name ms pins' id : name ∉ rows.*1 → done_ok h0 rows (h, inr coll) →
  id = fresh (usedIds h coll) → may_pin h ms name id pins' →
  done_ok h0 (rows ++ [(name, ms)])
    (mkHost pins' (<[id := Shape ms]> (objects h)) (os_faults h), inr (<[name := id]> coll)).
Proof.
  intros Hnew (Hk & Hf & Hold & Hpin & Hd & Hc) ->. simpl in Hk, Hf, Hold, Hpin.
  assert (∀ x : string * MapSpec, x ∈ rows → x ∈ rows ++ [(name, ms)]) as Hin
    by (intros; apply elem_of_app; by left).
  assert ((name, ms) ∈ rows ++ [(name, ms)]) as Hlast by (apply elem_of_app; right; by apply list_elem_of_singleton).
  destruct (fresh_used h coll) as (Hf1 & Hf2 & Hf3). revert Hf1 Hf2 Hf3.
  generalize (fresh (usedIds h coll)). intros id Hf1 Hf2 Hf3 Hp.
  assert (pins h ⊆ pins') as Hsub.
  { destruct Hp as [[-> _]|(Hn & _ & ->)]; [done|by apply insert_subseteq]. }
  destruct Hk as [Hk1 Hk2]. split_and!; simpl.
  - split; simpl; [by etrans|etrans; [done|by apply insert_subseteq]].
  - done.
  - intros i Hi0 Hi n Hn. destruct (decide (i = id)) as [->|].
    + by apply (Hf2 n), (lookup_weaken _ _ _ _ Hn Hk1).
    + rewrite lookup_insert_ne // in Hi. by apply (Hold i Hi0 Hi n).
  - intros n i Hn Hi. assert (pins h !! n = Some i ∨ n = name ∧ i = id ∧ Pinning ms = PinByName) as [Hi'|(-> & -> & Hm)].
    { destruct Hp as [[-> _]|(Hn' & Hm & ->)]; [by left|].
      apply lookup_insert_Some in Hi as [[-> ->]|[_ Hi]]; [by right|by left]. }
    + destruct (Hpin n i Hn Hi') as (m & ? & ? & Ho). exists m. split_and!; [by apply Hin|done|].
      rewrite lookup_insert_ne //. congruence.
    + exists ms. by rewrite lookup_insert_eq.
  - split; [by rewrite dom_insert_L Hd fmap_app list_to_set_app_L /= union_empty_r_L (union_comm_L {[name]})|].
    intros n i [[-> ->]|[Hne Hi]]%lookup_insert_Some.
    + exists ms. split; [done|]. split; [by rewrite lookup_insert_eq|]. simpl.
      assert (objects h0 !! i = None) as Hi0 by (by eapply lookup_weaken_None).
      destruct Hp as [[-> ->]|(Hn & -> & ->)]; [done|]. rewrite lookup_insert_eq. split; [done|].
      by rewrite (lookup_weaken_None _ _ _ Hn Hk1).
    + destruct (Hc n i Hi) as (m & ? & Hrow). exists m. split; [by apply Hin|].
      apply row_done_create; [done| |done]. destruct Hp as [[-> _]|(Hn & _ & ->)]; [by left|right; by exists name].
Qed.
Lemma loadMap_ok h0 rows acc row : row.1 ∉ rows.*1 → done_ok h0 rows acc → done_ok h0 (rows ++ [row]) (loadMap acc row).
Proof.
  destruct acc as [h r], row as [name ms]. intros Hnew Hdone. pose proof Hdone as (Hk & Hf & Hold & Hpin & Hr).
  simpl in *.
  assert (∀ x : string * MapSpec, x ∈ rows → x ∈ rows ++ [(name, ms)]) as Hin
    by (intros; apply elem_of_app; by left).
  assert ((name, ms) ∈ rows ++ [(name, ms)]) as Hlast by (apply elem_of_app; right; by apply list_elem_of_singleton).
  destruct r as [e|coll].
  { split_and!; [apply Hk..|done|done| |].
    - intros n id H1 H2. destruct (Hpin n id H1 H2) as (m & ? & ?). exists m. split; [by apply Hin|done].
    - destruct e; [|done]. destruct Hr as (m & i & ? & ?). exists m, i. split; [by apply Hin|done]. }
  destruct Hr as [Hd Hc].
  cbn [loadMap]. destruct (Pinning ms) eqn:Epin; [by apply create_ok; [..|left]|].
  destruct (pins h !! name) as [old|] eqn:Eold; [|by apply create_ok; [..|right]].
  assert (pins h0 !! name = Some old) as E0.
  { destruct (pins h0 !! name) as [old0|] eqn:E0; [by rewrite (lookup_weaken _ _ _ _ E0 (proj1 Hk)) in Eold|].
    destruct (Hpin name old E0 Eold) as (m & Hm & _). exfalso. apply Hnew. apply list_elem_of_fmap.
    by exists (name, m). }
  case_decide as Hsh; split_and!; simpl; try done; try apply Hk; try apply Hf.
  - intros n id H1 H2. destruct (Hpin n id H1 H2) as (m & ? & ?). exists m. split; [by apply Hin|done].
  - split; [by rewrite dom_insert_L Hd fmap_app list_to_set_app_L /= union_empty_r_L (union_comm_L {[name]})|].
    intros n i [[-> ->]|[Hne Hi]]%lookup_insert_Some.
    + exists ms. split; [done|]. split; [done|]. rewrite Epin. split; [done|]. rewrite E0.
      destruct (objects h0 !! i) as [sh|] eqn:Ei.
      * by rewrite (lookup_weaken _ _ _ _ Ei (proj2 Hk)) in Hsh.
      * exfalso. apply (Hold i Ei) with n; [by rewrite Hsh|done].
    + destruct (Hc n i Hi) as (m & ? & Hrow). exists m. split; [by apply Hin|done].
  - intros n id H1 H2. destruct (Hpin n id H1 H2) as (m & ? & ?). exists m. split; [by apply Hin|done].
  - exists ms, old. split_and!; try done. intros Hold'. apply Hsh. by eapply lookup_weaken; [|apply Hk].
Qed.
Lemma loadMaps_ok h0 todo rows acc : NoDup (rows ++ todo).*1 → done_ok h0 rows acc →
  done_ok h0 (rows ++ todo) (foldl loadMap acc todo).
Proof.
  induction todo as [|row todo IH] in rows, acc |- *; intros Hnd Hok; [by rewrite app_nil_r|].
  rewrite (cons_middle row rows todo) app_assoc in Hnd |- *. apply IH; [done|].
  apply loadMap_ok; [|done]. rewrite !fmap_app in Hnd. apply NoDup_app in Hnd as (Hnd & _).
  apply NoDup_app in Hnd as (_ & Hnd & _). intros Hin. by apply (Hnd _ Hin), list_elem_of_here.
Qed.
Lemma load_done spec h : done_ok h (map_to_list spec) (load spec h).
Proof.
  apply (loadMaps_ok h (map_to_list spec) []); [apply NoDup_fst_map_to_list|].
  split_and!; [done|done| | |done]; simpl.
  - intros id Hid [sh Hsh]. congruence.
  - intros name id Hn Hs. congruence.
Qed.
#[export] Instance load_ebpf : EbpfLoader load.
Proof.
  split; intros spec h h' *.
  - intros E. pose proof (load_done spec h) as (H & _). by rewrite E in H.
  - intros E Hn Hs. pose proof (load_done spec h) as (_ & _ & _ & H & _). rewrite E in H.
    destruct (H _ _ Hn Hs) as (ms & Hin & ? & ?). exists ms. by apply elem_of_map_to_list in Hin.
  - intros E. pose proof (load_done spec h) as (_ & _ & _ & _ & H). rewrite E in H. destruct H as [Hd Hc].
    split; [by rewrite Hd -dom_list_to_map_L list_to_map_to_list|]. intros name ms id Hms Hid.
    destruct (Hc name id Hid) as (ms' & Hin & Hrow). apply elem_of_map_to_list in Hin. rewrite Hms in Hin. injection Hin as <-. exact Hrow.
  - intros E. pose proof (load_done spec h) as (_ & _ & _ & _ & H). rewrite E in H.
    destruct H as (ms & id & Hin & ?). exists ms, id. by apply elem_of_map_to_list in Hin.
Qed.
Lemma load_quiet spec h : ∃ h' r, load spec h = (h', r) ∧ os_faults h' = os_faults h ∧
  ∀ e, r ≠ inl (LoadFailed e).
Proof.
  exists (load spec h).1, (load spec h).2. pose proof (load_done spec h) as (_ & Hf & _ & _ & H).
  split; [apply surjective_pairing|]. split; [done|]. intros e E. by rewrite E in H.
Qed.

(** The maps of bpf/telemetry.c, and a build whose counter map has wider keys. *)
Definition specsOf (keySize : Z) : Specs := list_to_map [
  (MapTelemetry, mkMapSpec (mkShape "percpu_hash" keySize 32 MapTelemetryMaxEntries) PinNone);
  (MapTelemetryStats, mkMapSpec (mkShape "percpu_array" 4 8 MapTelemetryStatsMaxEntries) PinNone);
  (MapMacTenant, mkMapSpec (mkShape "hash" 8 4 MapMacTenantMaxEntries) PinNone);
  (MapSubnetZoneTrie, mkMapSpec (mkShape "lpm_trie" 12 1 MapSubnetZoneTrieMaxEntries) PinNone);
  (MapAmphoraBaseIP, mkMapSpec (mkShape "hash" 8 1 MapAmphoraBaseIPMaxEntries) PinNone)].
Definition now_build : Specs := specsOf 18.
Definition next_build : Specs := specsOf 20.
Definition bare : Host := mkHost ∅ ∅ [].
Definition first_boot := loadCollection load false (inr now_build) bare.
Definition counters (r : collErr + Coll * bool) : option (bool * option positive * option positive) :=
  match r with
  | inr (coll, pinned) => Some (pinned, coll !! MapTelemetry, coll !! MapTelemetryStats)
  | inl _ => None
  end.
Lemma specs_unmarked k : unmarked (specsOf k).
Proof.
  intros name ms E. apply elem_of_list_to_map_2 in E. rewrite !elem_of_cons elem_of_nil in E.
  by destruct_or!; simplify_eq.
Qed.
(** A crash and a restart, a restart under a build of another shape, and a pin
    directory that cannot be made, in both modes. *)
Example boots :
  (counters first_boot.2, counters (loadCollection load false (inr now_build) first_boot.1).2,
   bool_decide (counters (loadCollection load false (inr next_build) first_boot.1).2 = counters first_boot.2),
   (loadCollection load false (inr now_build) (mkHost ∅ ∅ [Some "read-only"])).2,
   fst <$> (fst <$> counters (loadCollection load true (inr now_build) (mkHost ∅ ∅ [Some "read-only"])).2)) =
  (counters first_boot.2, counters first_boot.2, false,
   inl (Refused (NoPinDir "read-only")), Some false).
Proof. by vm_compute. Qed.
Example stale_pin_removal_fails :
  (loadCollection load false (inr next_build)
     (mkHost (pins first_boot.1) (objects first_boot.1) [None; Some "busy"])).2 =
  inl (Refused (RemovalFailed (LoadPinned (ErrMapIncompatible MapTelemetry)) [(MapTelemetry, "busy")])).
Proof. by vm_compute. Qed.

Lemma collection_over_pins_witness :
  load_outcome false next_build first_boot.1 (loadCollection load false (inr next_build) first_boot.1).1
    (loadCollection load false (inr next_build) first_boot.1).2 ∧
  ∃ coll, (loadCollection load false (inr next_build) first_boot.1).2 = inr (coll, true).
Proof.
  destruct (collection_over_pins load false next_build first_boot.1 (specs_unmarked 20)) as [H1 H2].
  split; [exact H1|apply H2].
  - by vm_compute.
  - by vm_compute.
  - apply load_quiet.
Defined.
Definition coll_of (r : collErr + Coll * bool) : Coll := match r with inr (c, _) => c | inl _ => ∅ end.
Definition is_pinned (r : collErr + Coll * bool) : bool := match r with inr (_, b) => b | inl _ => false end.
Lemma pinned_shape (x : Host * (collErr + Coll * bool)) : is_pinned x.2 = true →
  x = (x.1, inr (coll_of x.2, true)).
Proof. destruct x as [h [e|[coll []]]]; by simpl. Qed.
Lemma restart_same_maps_witness :
  is_pinned first_boot.2 = true ∧
  ∀ name, if decide (name ∈ pinnedMaps)
          then coll_of (loadCollection load false (inr now_build) first_boot.1).2 !! name = coll_of first_boot.2 !! name
          else ∀ id, coll_of (loadCollection load false (inr now_build) first_boot.1).2 !! name = Some id →
                 coll_of first_boot.2 !! name ≠ Some id.
Proof.
  split; [by vm_compute|].
  apply (restart_same_maps load false false now_build bare first_boot.1 first_boot.1
    (loadCollection load false (inr now_build) first_boot.1).1).
  - apply (specs_unmarked 18).
  - apply pinned_shape. by vm_compute.
  - apply keeps_refl.
  - apply pinned_shape. by vm_compute.
Defined.
End PinsExamples.
