(* ===== verification/Assembly.v ===== *)
(** * The agent put together (internal/agent: [Bootstrap] and its steps, [New], [Run],
    [telemetryFillReader]; internal/wal: [EnsureDir])

    The boot as one list of steps over one state: what each step reads is what the
    steps before it wrote.  The stores the workers share are held once, by the agent;
    a worker that was wired is a flag, and works on those stores. *)
From S2P Require Import Prelude GoStrings NetIP Bpf State Metadata Neutron Attribution Trie KernelMap KernelWriter Sync Reconcile.
From S2P Require Import GoArgs FileSys Wal WalFlush Config Runtime Boot ColdStart Scraper TcAttach Link OpenStack Pins.

(** ** The agent (agent.go) *)

(** The reader configuration of the notification consumer. *)
Record kafkaReader := mkKafkaReader { KR_Brokers : list string; KR_GroupID : string; KR_Topic : string }.
Record agent (M : Type) := mkAgentT {
  ag_cold : coldAgent M;              (* neutron, meta, routers, interner, kernel maps, gauges *)
  ag_state : GlobalState;
  ag_runtime : Manager;
  ag_creds : option Credentials;
  ag_countersResetAt : Z; ag_fallbacks : list string;
  ag_zombiesCleaned : Z; ag_mapsPinned : option bool;
  ag_subscriber : option Link.Options;
  ag_gc : bool;                       (* sweeper, reliever and unresolved buffer *)
  ag_reconciler : bool;
  ag_kafka : option kafkaReader }.
Arguments mkAgentT {_} _ _ _ _ _ _ _ _ _ _ _ _.
Arguments ag_cold {_} _.
Arguments ag_state {_} _.
Arguments ag_runtime {_} _.
Arguments ag_creds {_} _.
Arguments ag_countersResetAt {_} _.
Arguments ag_fallbacks {_} _.
Arguments ag_zombiesCleaned {_} _.
Arguments ag_mapsPinned {_} _.
Arguments ag_subscriber {_} _.
Arguments ag_gc {_} _.
Arguments ag_reconciler {_} _.
Arguments ag_kafka {_} _.

Section setters.
Context {M : Type}.
Implicit Types a : agent M.
Definition setCold (c : coldAgent M) a : agent M :=
  mkAgentT c (ag_state a) (ag_runtime a) (ag_creds a) (ag_countersResetAt a) (ag_fallbacks a)
    (ag_zombiesCleaned a) (ag_mapsPinned a) (ag_subscriber a) (ag_gc a) (ag_reconciler a) (ag_kafka a).
Definition setRestored (g : GlobalState) (reset : Z) (fallbacks : list string) a : agent M :=
  mkAgentT (ag_cold a) g (ag_runtime a) (ag_creds a) reset fallbacks
    (ag_zombiesCleaned a) (ag_mapsPinned a) (ag_subscriber a) (ag_gc a) (ag_reconciler a) (ag_kafka a).
(** [RecordCleaned] adds a positive count; [SetMapsPinned] sets the gauge. *)
Definition recordBoot (cleaned : Z) (pinned : bool) a : agent M :=
  mkAgentT (ag_cold a) (ag_state a) (ag_runtime a) (ag_creds a) (ag_countersResetAt a) (ag_fallbacks a)
    (if decide (cleaned ≤ 0) then ag_zombiesCleaned a else ag_zombiesCleaned a + cleaned) (Some pinned)
    (ag_subscriber a) (ag_gc a) (ag_reconciler a) (ag_kafka a).
Definition setSubscriber (s : Link.Options) a : agent M :=
  mkAgentT (ag_cold a) (ag_state a) (ag_runtime a) (ag_creds a) (ag_countersResetAt a) (ag_fallbacks a)
    (ag_zombiesCleaned a) (ag_mapsPinned a) (Some s) (ag_gc a) (ag_reconciler a) (ag_kafka a).
Definition setGC a : agent M :=
  mkAgentT (ag_cold a) (ag_state a) (ag_runtime a) (ag_creds a) (ag_countersResetAt a) (ag_fallbacks a)
    (ag_zombiesCleaned a) (ag_mapsPinned a) (ag_subscriber a) true (ag_reconciler a) (ag_kafka a).
(** The reconciler, and its kick as the reload's hook. *)
Definition setReconciler a : agent M :=
  mkAgentT (ag_cold a) (ag_state a) (SetOnReload (ag_runtime a)) (ag_creds a) (ag_countersResetAt a)
    (ag_fallbacks a) (ag_zombiesCleaned a) (ag_mapsPinned a) (ag_subscriber a) (ag_gc a) true (ag_kafka a).
Definition setKafka (r : kafkaReader) a : agent M :=
  mkAgentT (ag_cold a) (ag_state a) (ag_runtime a) (ag_creds a) (ag_countersResetAt a) (ag_fallbacks a)
    (ag_zombiesCleaned a) (ag_mapsPinned a) (ag_subscriber a) (ag_gc a) (ag_reconciler a) (Some r).
End setters.

(** [newSubsystemMetrics]: the map gauges' first values. *)
Definition initialFill : gmap string Z :=
  <[MapAmphoraBaseIP := 0]> (<[MapTelemetry := 0]> (<[MapSubnetZoneTrie := 0]> {[MapMacTenant := 0]})).
Definition maxFill : gmap string Z :=
  <[MapAmphoraBaseIP := MapAmphoraBaseIPMaxEntries]> (<[MapTelemetry := MapTelemetryMaxEntries]>
    (<[MapSubnetZoneTrie := MapSubnetZoneTrieMaxEntries]> {[MapMacTenant := MapMacTenantMaxEntries]})).

(** ** What a boot can fail with *)

Inductive bootErr (Err : Type) :=
  | ConfigUnreadable | ConfigInvalid (e : string) | LoggingErr | MemlockErr (e : string)
  | CollectionErr (e : collErr) | MapAbsent (name : string) | CredentialsErr (e : openrcErr)
  | RegistryErr (e : string) | ListenErr (e : string)
  | ColdErr (e : coldErr Err) | ProgramsAbsent
  | WalDirErr (op e : string) | NewerWal (errs : list (readErr (Err := Err)))
  | PhaseErr
  (* Not an error of the program: the answers given to the first sync ran out and
     its retry loop is still waiting. *)
  | StillRetrying.
Arguments ConfigUnreadable {_}.
Arguments ConfigInvalid {_} _.
Arguments LoggingErr {_}.
Arguments MemlockErr {_} _.
Arguments CollectionErr {_} _.
Arguments MapAbsent {_} _.
Arguments CredentialsErr {_} _.
Arguments RegistryErr {_} _.
Arguments ListenErr {_} _.
Arguments ColdErr {_} _.
Arguments ProgramsAbsent {_}.
Arguments WalDirErr {_} _ _.
Arguments NewerWal {_} _.
Arguments PhaseErr {_}.
Arguments StillRetrying {_}.

(** [wal.EnsureDir]: what making the directory, creating the probe and removing it
    answer.  The probe's name is new, and it is gone again when nothing fails. *)
Definition EnsureDir (mkdir create remove : option string) : option (string * string) :=
  match mkdir with
  | Some e => Some ("create dir", e)
  | None =>
      match create with
      | Some e => Some ("dir not writable", e)
      | None => match remove with Some e => Some ("remove probe", e) | None => None end
      end
  end.
(** [logging.Init]: the level variable, of a known level and format. *)
Definition logging_Init (cfg : LoggingConfig) : option LogLevel :=
  lvl ← ParseLevel (Level cfg);
  if decide (Format cfg = "json" ∨ Format cfg = "text") then Some lvl else None.

Lemma metadata_maps : MapMacTenant ∈ mapSizeChecks.*1 ∧ MapSubnetZoneTrie ∈ mapSizeChecks.*1 ∧
  MapAmphoraBaseIP ∈ mapSizeChecks.*1.
Proof. apply (bool_decide_unpack _). by vm_compute. Qed.

Section boot.
Context `{GoRange} `{MetaStore M} {Err Text K : Type} `{!TcKernel K} (endian : Endian).
(** The world at boot: the command line, environment and files; what the kernel, the
    host's file system, the registry, the listener and the clock answer; the answers
    of Neutron to the first sync; the failures of the kernel maps' and of the log's
    calls. *)
Variables (args : list string) (getenv : string → string) (readFile : string → option Text).
Variables (decode : Text → Config → option Config) (readRC : string → option string).
Variables (memlock : option string) (loadTelemetry : string + Specs).
Variable NewCollection : Specs → Host → Host * (loadErr + Coll).
Variables (programs : gset string) (registryErr listenErr : option string).
Variables (faultM faultT faultA : nat → option Err) (syncs : list syncAttempt) (now : Z).
Variables (hostname token : string) (walMkdir walCreate walRemove : option string).
Variables (buildID : string) (walFault flushFault : nat → option Err) (nowUnix nowNs : Z).

Definition ProgramIngress : string := "tc_telemetry_in".
Definition ProgramEgress : string := "tc_telemetry_out".

(** [bootstrapper], with the host it acts on. *)
Record bootstrapper := mkBoot {
  b_seq : Sequencer (Err := string); b_cfg : Config; b_log : option LogLevel;
  b_coll : option Coll; b_ag : option (agent M); b_zombiesCleaned : Z; b_mapsPinned : bool;
  b_kernel : K; b_host : Host; b_files : FS text; b_closed : nat }.
Definition atStart (k : K) (h : Host) (fs : FS text) : bootstrapper :=
  mkBoot NewSequencer Defaults None None None 0 false k h fs 0.
Notation stepResult := (bootstrapper * option (bootErr Err))%type.

Definition withSeq s b := mkBoot s (b_cfg b) (b_log b) (b_coll b) (b_ag b) (b_zombiesCleaned b)
  (b_mapsPinned b) (b_kernel b) (b_host b) (b_files b) (b_closed b).
Definition withAgent (ag : agent M) b := mkBoot (b_seq b) (b_cfg b) (b_log b) (b_coll b) (Some ag)
  (b_zombiesCleaned b) (b_mapsPinned b) (b_kernel b) (b_host b) (b_files b) (b_closed b).
Definition withFS (fs : FS text) b := mkBoot (b_seq b) (b_cfg b) (b_log b) (b_coll b) (b_ag b)
  (b_zombiesCleaned b) (b_mapsPinned b) (b_kernel b) (b_host b) fs (b_closed b).
Definition closeCollection b := match b_coll b with
  | None => b
  | Some _ => mkBoot (b_seq b) (b_cfg b) (b_log b) (b_coll b) (b_ag b) (b_zombiesCleaned b)
      (b_mapsPinned b) (b_kernel b) (b_host b) (b_files b) (S (b_closed b))
  end.
(** [b.seq.Advance]. *)
Definition advance (p : Z) b : stepResult :=
  match Advance p (b_seq b) with
  | (s, Advanced) => (withSeq s b, None)
  | (s, _) => (withSeq s b, Some PhaseErr)
  end.

(** ** The steps *)

Definition prepareProcess b : stepResult :=
  match Config.Load readFile decode getenv args with
  | None => (b, Some ConfigUnreadable)
  | Some (_, Some e) => (b, Some (ConfigInvalid e))
  | Some (cfg, None) =>
      match logging_Init (Logging cfg) with
      | None => (b, Some LoggingErr)
      | Some lvl =>
          match memlock with
          | Some e => (b, Some (MemlockErr e))
          | None => (mkBoot (b_seq b) cfg (Some lvl) (b_coll b) (b_ag b) (b_zombiesCleaned b)
              (b_mapsPinned b) (b_kernel b) (b_host b) (b_files b) (b_closed b), None)
          end
      end
  end.
Definition huntZombies b : stepResult :=
  let '(k, (cleaned, _)) := Hunt (b_kernel b) in
  (mkBoot (b_seq b) (b_cfg b) (b_log b) (b_coll b) (b_ag b) cleaned
     (b_mapsPinned b) k (b_host b) (b_files b) (b_closed b), None).
Definition loadBPF b : stepResult :=
  match loadCollection NewCollection (UnsafeAllowUnpinnedMaps (BPF (b_cfg b))) loadTelemetry (b_host b) with
  | (h, inl e) => (mkBoot (b_seq b) (b_cfg b) (b_log b) (b_coll b) (b_ag b) (b_zombiesCleaned b)
      (b_mapsPinned b) (b_kernel b) h (b_files b) (b_closed b), Some (CollectionErr e))
  | (h, inr (coll, pinned)) => advance PhaseBPFLoaded
      (mkBoot (b_seq b) (b_cfg b) (b_log b) (Some coll) (b_ag b) (b_zombiesCleaned b)
        pinned (b_kernel b) h (b_files b) (b_closed b))
  end.

(** [neutron.New]: credentials are resolved eagerly. *)
Definition neutronNew (cfg : NeutronConfig) : openrcErr + option Credentials :=
  if Neutron_Enabled cfg
  then match FromConfig cfg readRC with inl e => inl e | inr c => inr (Some c) end
  else inr None.
Definition emptyMap {K' V} `{Countable K'} : kmap K' V := mkKmap ∅ 0 [].
Definition opened {K' V} `{Countable K'} (coll : Coll) (name : string) : option (kmap K' V) :=
  (λ _, emptyMap) <$> coll !! name.
(** [New]: every part but the worker pieces the later steps add. *)
Definition newAgent (cfg : Config) (lvl : LogLevel) (path : string) (coll : Coll) : bootErr Err + agent M :=
  match neutronNew (Neutron cfg) with
  | inl e => inl (CredentialsErr e)
  | inr creds =>
      match registryErr with
      | Some e => inl (RegistryErr e)
      | None =>
          match listenErr with
          | Some e => inl (ListenErr e)
          | None => inr (mkAgentT
              (mkCold NewNeutron ms_new ∅ NewTenantInterner (opened coll MapMacTenant)
                 (opened coll MapSubnetZoneTrie) (opened coll MapAmphoraBaseIP) initialFill 0 0 [])
              State.New (SetMetrics (SetTunables (Tunables cfg) (NewManager path cfg lvl))) creds
              0 [] 0 None None false false None)
          end
      end
  end.
Definition buildAgent b : stepResult :=
  match b_coll b, b_log b with
  | Some coll, Some lvl =>
      if decide (coll !! MapTelemetry = None) then (b, Some (MapAbsent MapTelemetry))
      else if decide (coll !! MapTelemetryStats = None) then (b, Some (MapAbsent MapTelemetryStats))
      else match newAgent (b_cfg b) lvl (FindConfigPath getenv args) coll with
           | inl e => (b, Some e)
           | inr ag => (withAgent (recordBoot (b_zombiesCleaned b) (b_mapsPinned b) ag) b, None)
           end
  | _, _ => (b, Some (MapAbsent MapTelemetry))   (* a nil collection: not reached *)
  end.

(** The steps after it work on the agent. *)
Definition onAgent (f : agent M → stepResult) b : stepResult :=
  match b_ag b with Some ag => f ag | None => (b, Some PhaseErr) end.

Definition coldStart b : stepResult := onAgent (λ ag,
  let cfg := Neutron (b_cfg b) in
  match coldStartNeutron endian faultM faultT faultA (Neutron_Enabled cfg) (UnsafeAllowAmbiguousRoutes cfg)
          syncs now (ag_cold ag) with
  | (c, Some None) => advance PhaseMetadataReady (withAgent (setCold c ag) b)
  | (c, Some (Some e)) => (withAgent (setCold c ag) b, Some (ColdErr e))
  | (c, None) => (withAgent (setCold c ag) b, Some StillRetrying)
  end) b.
Definition buildNetlinkSubscriber (cfg : BPFConfig) : bootErr Err + option Link.Options :=
  if decide (length (AttachPrefixes cfg) = 0%nat ∧ length (AttachInterfaces cfg) = 0%nat) then inr None
  else if decide (ProgramIngress ∈ programs ∧ ProgramEgress ∈ programs)
  then inr (Some (Link.mkOptions (AttachPrefixes cfg) (AttachInterfaces cfg) (AttachResyncInterval cfg)))
  else inl ProgramsAbsent.
Definition subscribeNetlink b : stepResult := onAgent (λ ag,
  match buildNetlinkSubscriber (BPF (b_cfg b)) with
  | inl e => (b, Some e)
  | inr None => advance PhaseAttached b
  | inr (Some s) => advance PhaseAttached (withAgent (setSubscriber s ag) b)
  end) b.
Definition wireGC b : stepResult := onAgent (λ ag,
  match b_coll b with
  | None => (b, Some (MapAbsent MapMacTenant))
  | Some coll =>
      if decide (coll !! MapMacTenant = None) then (b, Some (MapAbsent MapMacTenant))
      else if decide (coll !! MapTelemetry = None) then (b, Some (MapAbsent MapTelemetry))
      else (withAgent (setGC ag) b, None)
  end) b.
Definition wireReconcileStep b : stepResult := onAgent (λ ag,
  match wireReconcile (Err := Err) (Neutron_Enabled (Neutron (b_cfg b))) (ag_state ag) (ag_cold ag) with
  | inr e => (b, Some (ColdErr e))
  | inl None => (b, None)
  | inl (Some _) => (withAgent (setReconciler ag) b, None)
  end) b.
Definition wireKafka b : stepResult := onAgent (λ ag,
  let cfg := Kafka (b_cfg b) in
  if negb (Kafka_Enabled cfg) then (b, None)
  else if negb (ag_reconciler ag) then (b, None)
  else (withAgent (setKafka (mkKafkaReader (Brokers cfg) (EffectiveGroupID cfg hostname token) (Topic cfg)) ag) b, None)) b.
Definition prepareWALDir b : stepResult :=
  if negb (WAL_Enabled (WAL (b_cfg b))) then (b, None)
  else match EnsureDir walMkdir walCreate walRemove with
       | Some (op, e) => (b, Some (WalDirErr op e))
       | None => (b, None)
       end.
(** The agent as the flusher and the restore see it. *)
Definition walAgent (ag : agent M) (fs : FS text) : WalFlush.Agent M :=
  mkAgent (ca_meta (ag_cold ag)) (Some (ca_routers (ag_cold ag))) (ag_state ag) fs
    (ag_countersResetAt ag) (ag_fallbacks ag).
Definition fromWal (w : WalFlush.Agent M) (ag : agent M) : agent M :=
  setRestored (a_state w) (a_countersResetAt w) (a_fallbacks w) ag.
Definition restoreWAL b : stepResult := onAgent (λ ag,
  let cfg := WAL (b_cfg b) in
  match restoreFromWAL (WAL_Path cfg) buildID (WAL_Enabled cfg) walFault flushFault nowUnix nowNs
          (walAgent ag (b_files b)) with
  | (w, Some errs) => (withFS (a_files w) (withAgent (fromWal w ag) b), Some (NewerWal errs))
  | (w, None) => advance PhaseStateRestored (withFS (a_files w) (withAgent (fromWal w ag) b))
  end) b.

Definition bootSteps : list (Boot.step (S := bootstrapper) (Err := bootErr Err)) := [
  ("prepare process", prepareProcess); ("hunt zombies", huntZombies);
  ("load BPF collection", loadBPF); ("build agent", buildAgent);
  ("cold-start Neutron", coldStart); ("subscribe netlink", subscribeNetlink);
  ("wire GC", wireGC); ("wire reconcile", wireReconcileStep); ("wire kafka", wireKafka);
  ("prepare WAL directory", prepareWALDir); ("restore WAL", restoreWAL)].
Definition Bootstrap (b : bootstrapper) : bootstrapper * option (string * bootErr Err) :=
  Boot.run closeCollection bootSteps b.

(** ** What a successful step leaves *)

Lemma advance_ok p b b' : advance p b = (b', None) → ∃ s, Advance p (b_seq b) = (s, Advanced) ∧ b' = withSeq s b.
Proof. rewrite /advance. destruct (Advance p (b_seq b)) as [s []]; intros [= <-]. by exists s. Qed.
Lemma prepare_ok b b' : prepareProcess b = (b', None) → ∃ cfg lvl,
  Config.Load readFile decode getenv args = Some (cfg, None) ∧ logging_Init (Logging cfg) = Some lvl ∧
  b' = mkBoot (b_seq b) cfg (Some lvl) (b_coll b) (b_ag b) (b_zombiesCleaned b)
              (b_mapsPinned b) (b_kernel b) (b_host b) (b_files b) (b_closed b).
Proof.
  rewrite /prepareProcess. destruct (Config.Load _ _ _ _) as [[cfg [e|]]|]; [done| |done].
  destruct (logging_Init _) as [lvl|] eqn:El; [|done]. destruct memlock; [done|].
  intros [= <-]. by exists cfg, lvl.
Qed.
Lemma load_ok b b' : loadBPF b = (b', None) → ∃ h coll pinned s,
  loadCollection NewCollection (UnsafeAllowUnpinnedMaps (BPF (b_cfg b))) loadTelemetry (b_host b) =
    (h, inr (coll, pinned)) ∧
  b' = mkBoot s (b_cfg b) (b_log b) (Some coll) (b_ag b) (b_zombiesCleaned b)
         pinned (b_kernel b) h (b_files b) (b_closed b).
Proof.
  rewrite /loadBPF. destruct (loadCollection _ _ _ _) as [h [e|[coll pinned]]]; [done|].
  intros (s & _ & ->)%advance_ok. by exists h, coll, pinned, s.
Qed.
Lemma buildAgent_ok b b' : buildAgent b = (b', None) → ∃ coll lvl ag, b_coll b = Some coll ∧ b_log b = Some lvl ∧
  newAgent (b_cfg b) lvl (FindConfigPath getenv args) coll = inr ag ∧
  b' = withAgent (recordBoot (b_zombiesCleaned b) (b_mapsPinned b) ag) b.
Proof.
  rewrite /buildAgent. destruct (b_coll b) as [coll|], (b_log b) as [lvl|]; try done.
  repeat (case_decide; [done|]). destruct (newAgent _ _ _ _) as [e|ag] eqn:En; intros [= <-]. by exists coll, lvl, ag.
Qed.
Lemma new_ok cfg lvl path coll ag : newAgent cfg lvl path coll = inr ag → ∃ creds,
  neutronNew (Neutron cfg) = inr creds ∧
  ag = mkAgentT (mkCold NewNeutron ms_new ∅ NewTenantInterner (opened coll MapMacTenant)
         (opened coll MapSubnetZoneTrie) (opened coll MapAmphoraBaseIP) initialFill 0 0 [])
       State.New (SetMetrics (SetTunables (Tunables cfg) (NewManager path cfg lvl))) creds
       0 [] 0 None None false false None.
Proof.
  rewrite /newAgent. destruct (neutronNew _) as [e|creds]; [done|].
  destruct registryErr; [done|]. destruct listenErr; [done|]. intros [= <-]. by exists creds.
Qed.
Lemma onAgent_ok f b b' : onAgent f b = (b', None) → ∃ ag, b_ag b = Some ag ∧ f ag = (b', None).
Proof. rewrite /onAgent. destruct (b_ag b) as [ag|]; [|done]. by exists ag. Qed.
Lemma coldStart_ok b b' : coldStart b = (b', None) → ∃ ag c s, b_ag b = Some ag ∧
  coldStartNeutron endian faultM faultT faultA (Neutron_Enabled (Neutron (b_cfg b)))
    (UnsafeAllowAmbiguousRoutes (Neutron (b_cfg b))) syncs now (ag_cold ag) = (c, Some None) ∧
  b' = withSeq s (withAgent (setCold c ag) b).
Proof.
  intros (ag & Hag & E)%onAgent_ok. cbv beta zeta in E. revert E.
  destruct (coldStartNeutron endian faultM faultT faultA _ _ _ _ _) as [c [[e|]|]] eqn:Ec; [done| |done].
  intros (s & _ & ->)%advance_ok. by exists ag, c, s.
Qed.
(** The options of the subscriber of a configuration. *)
Definition subscriberOf (cfg : BPFConfig) : option Link.Options :=
  if decide (AttachPrefixes cfg = [] ∧ AttachInterfaces cfg = []) then None
  else Some (Link.mkOptions (AttachPrefixes cfg) (AttachInterfaces cfg) (AttachResyncInterval cfg)).
Lemma subscriber_ok cfg o : buildNetlinkSubscriber cfg = inr o → o = subscriberOf cfg.
Proof.
  rewrite /buildNetlinkSubscriber /subscriberOf. destruct (AttachPrefixes cfg), (AttachInterfaces cfg); simpl;
    repeat case_decide; naive_solver.
Qed.
Definition maybe {A} (f : A → agent M → agent M) (o : option A) (ag : agent M) : agent M :=
  match o with Some x => f x ag | None => ag end.
Lemma subscribe_ok b b' : subscribeNetlink b = (b', None) → ∃ ag s, b_ag b = Some ag ∧
  b' = withSeq s (withAgent (maybe setSubscriber (subscriberOf (BPF (b_cfg b))) ag) b).
Proof.
  intros (ag & Hag & E)%onAgent_ok. cbv beta zeta in E. revert E.
  destruct (buildNetlinkSubscriber _) as [e|o] eqn:Eo; [done|]. apply subscriber_ok in Eo. subst o.
  destruct (subscriberOf _) as [o|]; intros (s & _ & ->)%advance_ok; exists ag, s; split; try done.
  destruct b. simpl in Hag. by subst.
Qed.
Lemma gc_ok b b' : wireGC b = (b', None) → ∃ ag, b_ag b = Some ag ∧ b' = withAgent (setGC ag) b.
Proof.
  intros (ag & Hag & E)%onAgent_ok. cbv beta zeta in E. revert E. destruct (b_coll b); [|done].
  repeat (case_decide; [done|]). intros [= <-]. by exists ag.
Qed.
Lemma reconcile_ok b b' : wireReconcileStep b = (b', None) → ∃ ag, b_ag b = Some ag ∧
  b' = withAgent (if Neutron_Enabled (Neutron (b_cfg b)) then setReconciler ag else ag) b.
Proof.
  intros (ag & Hag & E)%onAgent_ok. cbv beta zeta in E. exists ag. split; [done|]. revert E.
  rewrite /wireReconcile. destruct (Neutron_Enabled _); cbn [negb].
  - destruct (ca_trie _); [|done]. destruct (ca_mac _); [|done]. destruct (ca_amphora _); [|done]. by intros [= <-].
  - intros [= <-]. destruct b. simpl in Hag. by subst.
Qed.
Definition readerOf (cfg : KafkaConfig) : kafkaReader :=
  mkKafkaReader (Brokers cfg) (EffectiveGroupID cfg hostname token) (Topic cfg).
Definition kafkaOf (cfg : KafkaConfig) (reconciler : bool) : option kafkaReader :=
  if Kafka_Enabled cfg && reconciler then Some (readerOf cfg) else None.
Lemma kafka_ok b b' : wireKafka b = (b', None) → ∃ ag, b_ag b = Some ag ∧
  b' = withAgent (maybe setKafka (kafkaOf (Kafka (b_cfg b)) (ag_reconciler ag)) ag) b.
Proof.
  intros (ag & Hag & E)%onAgent_ok. cbv beta zeta in E. exists ag. split; [done|]. revert E.
  rewrite /kafkaOf. destruct (Kafka_Enabled _), (ag_reconciler ag); cbn [negb andb]; intros [= <-]; [done|..];
    destruct b; simpl in Hag; by subst.
Qed.
Lemma waldir_ok b b' : prepareWALDir b = (b', None) → b' = b.
Proof.
  rewrite /prepareWALDir. destruct (negb _); [by intros [=]|]. by destruct (EnsureDir _ _ _) as [[]|]; intros [=].
Qed.
Lemma restore_ok b b' : restoreWAL b = (b', None) → ∃ ag w s, b_ag b = Some ag ∧
  restoreFromWAL (WAL_Path (WAL (b_cfg b))) buildID (WAL_Enabled (WAL (b_cfg b))) walFault flushFault nowUnix nowNs
    (walAgent ag (b_files b)) = (w, None) ∧
  b' = withSeq s (withFS (a_files w) (withAgent (fromWal w ag) b)).
Proof.
  intros (ag & Hag & E)%onAgent_ok. cbv beta zeta in E. revert E.
  destruct (restoreFromWAL _ _ _ _ _ _ _ _) as [w [errs|]] eqn:Er; [done|].
  intros (s & _ & ->)%advance_ok. by exists ag, w, s.
Qed.

Definition freshCold (coll : Coll) : coldAgent M :=
  mkCold NewNeutron ms_new ∅ NewTenantInterner (opened coll MapMacTenant)
    (opened coll MapSubnetZoneTrie) (opened coll MapAmphoraBaseIP) initialFill 0 0 [].
Definition newlyBuilt (cfg : Config) (lvl : LogLevel) (creds : option Credentials) (coll : Coll) : agent M :=
  mkAgentT (freshCold coll) State.New
    (SetMetrics (SetTunables (Tunables cfg) (NewManager (FindConfigPath getenv args) cfg lvl))) creds
    0 [] 0 None None false false None.
(** The agent of a boot, from what its fallible parts answered: before the restore,
    and after it. *)
Definition wired (cfg : Config) (cleaned : Z) (pinned : bool) (c : coldAgent M) (ag : agent M) : agent M :=
  let ag := setGC (maybe setSubscriber (subscriberOf (BPF cfg)) (setCold c (recordBoot cleaned pinned ag))) in
  let ag := if Neutron_Enabled (Neutron cfg) then setReconciler ag else ag in
  maybe setKafka (kafkaOf (Kafka cfg) (ag_reconciler ag)) ag.

Lemma Bootstrap_content k h fs b : Bootstrap (atStart k h fs) = (b, None) →
  ∃ cfg lvl h' coll pinned creds c w,
    Config.Load readFile decode getenv args = Some (cfg, None) ∧ logging_Init (Logging cfg) = Some lvl ∧
    loadCollection NewCollection (UnsafeAllowUnpinnedMaps (BPF cfg)) loadTelemetry h = (h', inr (coll, pinned)) ∧
    neutronNew (Neutron cfg) = inr creds ∧
    coldStartNeutron endian faultM faultT faultA (Neutron_Enabled (Neutron cfg))
      (UnsafeAllowAmbiguousRoutes (Neutron cfg)) syncs now (freshCold coll) = (c, Some None) ∧
    restoreFromWAL (WAL_Path (WAL cfg)) buildID (WAL_Enabled (WAL cfg)) walFault flushFault nowUnix nowNs
      (mkAgent (ca_meta c) (Some (ca_routers c)) State.New fs 0 []) = (w, None) ∧
    b_cfg b = cfg ∧ b_coll b = Some coll ∧ b_host b = h' ∧ b_files b = a_files w ∧
    b_ag b = Some (fromWal w (wired cfg (Hunt k).2.1 pinned c (newlyBuilt cfg lvl creds coll))).
Proof.
  rewrite /Bootstrap /bootSteps. cbn [Boot.run].
  destruct (prepareProcess _) as [b1 [e|]] eqn:E1; [done|].
  destruct (prepare_ok _ _ E1) as (cfg & lvl & Hcfg & Hlvl & ->). clear E1.
  destruct (huntZombies _) as [b2 [e|]] eqn:E2; [done|]. revert E2. rewrite /huntZombies. cbn [b_kernel atStart].
  destruct (Hunt k) as [k1 [cleaned herr]] eqn:Eh. intros [= <-]. cbn [snd fst].
  destruct (loadBPF _) as [b3 [e|]] eqn:E3; [done|].
  destruct (load_ok _ _ E3) as (h' & coll & pinned & s3 & Hload & ->). clear E3.
  destruct (buildAgent _) as [b4 [e|]] eqn:E4; [done|].
  destruct (buildAgent_ok _ _ E4) as (coll' & lvl' & ag & [= <-] & [= <-] & Hnew & ->). clear E4.
  destruct (new_ok _ _ _ _ _ Hnew) as (creds & Hcreds & ->). clear Hnew.
  destruct (coldStart _) as [b5 [e|]] eqn:E5; [done|].
  destruct (coldStart_ok _ _ E5) as (ag & c & s5 & [= <-] & Hcold & ->). clear E5.
  destruct (subscribeNetlink _) as [b6 [e|]] eqn:E6; [done|].
  destruct (subscribe_ok _ _ E6) as (ag & s6 & [= <-] & ->). clear E6.
  destruct (wireGC _) as [b7 [e|]] eqn:E7; [done|]. destruct (gc_ok _ _ E7) as (ag & [= <-] & ->). clear E7.
  destruct (wireReconcileStep _) as [b8 [e|]] eqn:E8; [done|].
  destruct (reconcile_ok _ _ E8) as (ag & [= <-] & ->). clear E8.
  destruct (wireKafka _) as [b9 [e|]] eqn:E9; [done|]. destruct (kafka_ok _ _ E9) as (ag & [= <-] & ->). clear E9.
  destruct (prepareWALDir _) as [b10 [e|]] eqn:E10; [done|]. apply waldir_ok in E10. subst b10.
  destruct (restoreWAL _) as [b11 [e|]] eqn:E11; [done|].
  destruct (restore_ok _ _ E11) as (ag & w & s11 & [= <-] & Hwal & ->). clear E11. intros [= <-].
  exists cfg, lvl, h', coll, pinned, creds, c, w. cbn [b_cfg b_log b_coll b_ag b_host b_files withSeq withFS withAgent] in *.
  assert (∀ ag : agent M, walAgent (wired cfg cleaned pinned c ag) fs =
    mkAgent (ca_meta c) (Some (ca_routers c)) (ag_state ag) fs (ag_countersResetAt ag) (ag_fallbacks ag)) as Hview.
  { intros []. rewrite /wired /kafkaOf /walAgent.
    by destruct (subscriberOf _), (Neutron_Enabled _), (Kafka_Enabled _), ag_reconciler0. }
  rewrite -/(wired cfg cleaned pinned c (newlyBuilt cfg lvl creds coll)) Hview in Hwal. by split_and!.
Qed.

(** ** Where each step leaves the boot *)

(** The phase reached, the filters there are and, while nothing changed them, the log's
    files; a collection is open from the first phase on. *)
Record point := mkPoint { at_phase : Z; at_kernel : K; at_files : option (FS text) }.
Definition stage (x : point) (b : bootstrapper) : Prop :=
  seq_ok (b_seq b) ∧ Boot.current (b_seq b) = at_phase x ∧ failErr (b_seq b) = None ∧ b_closed b = 0%nat ∧
  b_kernel b = at_kernel x ∧ (∀ fs, at_files x = Some fs → b_files b = fs) ∧
  (is_Some (b_coll b) ↔ 1 ≤ at_phase x).
Definition passesOn (f : bootstrapper → stepResult) (x y : point) : Prop :=
  ∀ b, stage x b → match f b with (b', None) => stage y b' | (b', Some _) => stage x b' end.
Fixpoint chained (x : point) (l : list (Boot.step (S := bootstrapper) (Err := bootErr Err) * point)) : Prop :=
  match l with [] => True | (s, y) :: l => passesOn s.2 x y ∧ chained y l end.
Lemma run_chained x l b : chained x l → stage x b →
  match Boot.run closeCollection l.*1 b with
  | (b', None) => stage (default x (list.last l.*2)) b'
  | (b', Some (name, _)) => ∃ i s y b1, l.*1 !! i = Some s ∧ name = s.1 ∧ (x :: l.*2) !! i = Some y ∧
      stage y b1 ∧ b' = closeCollection b1
  end.
Proof.
  induction l as [|[[n f] y] l IH] in x, b |- *; [done|]. cbn [chained fst snd]. intros [Hf Hc] Hx.
  specialize (Hf b Hx). cbn [fmap list_fmap Boot.run fst snd]. destruct (f b) as [b1 [e|]].
  - by exists 0%nat, (n, f), x, b1.
  - specialize (IH y b1 Hc Hf). destruct (Boot.run _ _ b1) as [b' [[name e]|]].
    + destruct IH as (i & s & z & b2 & ?). by exists (S i), s, z, b2.
    + cbn [fmap list_fmap snd] in IH |- *. rewrite last_cons. by destruct (list.last _).
Qed.

Lemma advance_next p b : seq_ok (b_seq b) → Boot.current (b_seq b) = p - 1 → failErr (b_seq b) = None →
  p < phaseCount →
  ∃ s, advance p b = (withSeq s b, None) ∧ seq_ok s ∧ Boot.current s = p ∧ failErr s = None.
Proof.
  intros Hok Hc Hf Hp. pose proof (Advance_next _ Hok) as Ha. rewrite Hc in Ha.
  replace (p - 1 + 1) with p in Ha by lia. rewrite /advance. destruct (Advance p (b_seq b)) as [s r].
  rewrite decide_True // in Ha. destruct Ha as (-> & Hc' & Hf' & Hok'). exists s. by rewrite Hf'.
Qed.
(** A step that touches none of what a point fixes. *)
Definition sameStage (b b' : bootstrapper) : Prop :=
  b_seq b' = b_seq b ∧ b_closed b' = b_closed b ∧ b_kernel b' = b_kernel b ∧ b_files b' = b_files b ∧
  b_coll b' = b_coll b.
Lemma same_stage x b b' : sameStage b b' → stage x b → stage x b'.
Proof. intros (H1 & H2 & H3 & H4 & H5). rewrite /stage. by rewrite H1 H2 H3 H4 H5. Qed.
Lemma quiet_stage f x : (∀ b, sameStage b (f b).1) → passesOn f x x.
Proof.
  intros Hf b Hb. specialize (Hf b). destruct (f b) as [b' [e|]]; by apply (same_stage x b).
Qed.
Lemma quiet_agent (f : agent M → stepResult) b : (∀ ag, sameStage b (f ag).1) → sameStage b (onAgent f b).1.
Proof. intros Hf. rewrite /onAgent. by destruct (b_ag b). Qed.
(** One that ends by advancing. *)
Lemma advancing x p k fs b b' : stage x b → sameStage b b' → at_phase x = p - 1 → at_kernel x = k →
  (∀ fs', fs = Some fs' → at_files x = Some fs') → 1 < p < phaseCount →
  match advance p b' with (b'', None) => stage (mkPoint p k fs) b'' | (b'', Some _) => stage x b'' end.
Proof.
  intros Hb Hs Hp Hk Hfs Hlt. pose proof (same_stage x b b' Hs Hb) as (Hok & Hc & Hf & Hcl & Hk' & Hfs' & Hcoll).
  destruct (advance_next p b') as (s & -> & Hok1 & Hc1 & Hf1); [done|lia|done|lia|].
  split_and!; try done; cbn [withSeq b_kernel b_files b_coll at_phase at_kernel at_files].
  - congruence.
  - naive_solver.
  - rewrite Hcoll Hp. lia.
Qed.

Definition points (k : K) (fs : FS text) : list point :=
  let k1 := (Hunt k).1 in
  [mkPoint 0 k (Some fs); mkPoint 0 k1 (Some fs); mkPoint 1 k1 (Some fs); mkPoint 1 k1 (Some fs);
   mkPoint 2 k1 (Some fs); mkPoint 3 k1 (Some fs); mkPoint 3 k1 (Some fs); mkPoint 3 k1 (Some fs);
   mkPoint 3 k1 (Some fs); mkPoint 3 k1 (Some fs); mkPoint 4 k1 None].
Lemma prepare_stage x : passesOn prepareProcess x x.
Proof.
  apply quiet_stage. intros b. rewrite /prepareProcess.
  destruct (Config.Load _ _ _ _) as [[cfg [e|]]|]; [done| |done]. destruct (logging_Init _); [|done]. by destruct memlock.
Qed.
Lemma hunt_stage p k fs : passesOn huntZombies (mkPoint p k fs) (mkPoint p (Hunt k).1 fs).
Proof.
  intros b (Hok & Hc & Hf & Hcl & Hk & Hfs & Hcoll). cbn [at_kernel] in Hk. rewrite /huntZombies Hk.
  destruct (Hunt k) as [k1 [n e]]. by split_and!.
Qed.
Lemma load_stage k fs : passesOn loadBPF (mkPoint 0 k fs) (mkPoint 1 k fs).
Proof.
  intros b Hb. rewrite /loadBPF. destruct (loadCollection _ _ _ _) as [h [e|[coll pinned]]]; [exact Hb|].
  destruct Hb as (Hok & Hc & Hf & Hcl & Hk & Hfs & Hcoll).
  destruct (advance_next PhaseBPFLoaded (mkBoot (b_seq b) (b_cfg b) (b_log b) (Some coll) (b_ag b)
    (b_zombiesCleaned b) pinned (b_kernel b) h (b_files b) (b_closed b))) as (s & -> & Hok1 & Hc1 & Hf1); [done..|].
  by split_and!.
Qed.
Lemma build_stage x : passesOn buildAgent x x.
Proof.
  apply quiet_stage. intros b. rewrite /buildAgent. destruct (b_coll b) as [coll|] eqn:E, (b_log b); [|done..].
  repeat (case_decide; [done|]). destruct (newAgent _ _ _ _); [done|]. by split_and!.
Qed.
Lemma cold_stage k fs : passesOn coldStart (mkPoint 1 k fs) (mkPoint 2 k fs).
Proof.
  intros b Hb. rewrite /coldStart /onAgent. destruct (b_ag b) as [ag|]; [|exact Hb]. cbv zeta.
  destruct (coldStartNeutron endian faultM faultT faultA _ _ _ _ _) as [c [[e|]|]]; [exact Hb| |exact Hb].
  by apply (advancing (mkPoint 1 k fs) _ _ _ b).
Qed.
Lemma subscribe_stage k fs : passesOn subscribeNetlink (mkPoint 2 k fs) (mkPoint 3 k fs).
Proof.
  intros b Hb. rewrite /subscribeNetlink /onAgent. destruct (b_ag b) as [ag|]; [|exact Hb].
  destruct (buildNetlinkSubscriber _) as [e|[o|]]; [exact Hb|..]; by apply (advancing (mkPoint 2 k fs) _ _ _ b).
Qed.
Lemma wire_stages x : passesOn wireGC x x ∧ passesOn wireReconcileStep x x ∧ passesOn wireKafka x x ∧
  passesOn prepareWALDir x x.
Proof.
  split_and!.
  - apply quiet_stage. intros b. apply quiet_agent. intros ag. destruct (b_coll b) eqn:E; [|done].
    repeat (case_decide; [done|]). by split_and!.
  - apply quiet_stage. intros b. apply quiet_agent. intros ag. by destruct (wireReconcile _ _ _) as [[r|]|e].
  - apply quiet_stage. intros b. apply quiet_agent. intros ag. cbv zeta. destruct (negb (Kafka_Enabled _)); [done|].
    by destruct (negb (ag_reconciler ag)).
  - apply quiet_stage. intros b. rewrite /prepareWALDir. destruct (negb _); [done|].
    by destruct (EnsureDir _ _ _) as [[]|].
Qed.
Lemma restore_refused enabled path (w w' : WalFlush.Agent M) errs :
  restoreFromWAL path buildID enabled walFault flushFault nowUnix nowNs w = (w', Some errs) → w' = w.
Proof.
  rewrite /restoreFromWAL. destruct (negb enabled); [done|]. destruct (Wal.Load _ _ _) as [s [es|res]].
  - destruct (schemaNewer es); [by intros [= -> _]|done].
  - by case_decide.
Qed.
Lemma restore_stage k fs : passesOn restoreWAL (mkPoint 3 k fs) (mkPoint 4 k None).
Proof.
  intros b Hb. rewrite /restoreWAL /onAgent. destruct (b_ag b) as [ag|]; [|exact Hb]. cbv zeta.
  destruct (restoreFromWAL _ _ _ _ _ _ _ _) as [w [errs|]] eqn:Er.
  - apply restore_refused in Er. subst w. by destruct b.
  - pose proof Hb as (Hok & Hc & Hf & Hcl & Hk & Hfs & Hcoll).
    destruct (advance_next PhaseStateRestored (withFS (a_files w) (withAgent (fromWal w ag) b)))
      as (s & -> & Hok1 & Hc1 & Hf1); [done..|].
    by split_and!.
Qed.
Lemma boot_chained k fs : chained (mkPoint 0 k (Some fs)) (zip bootSteps (points k fs)).
Proof.
  cbn [zip zip_with bootSteps points chained fst snd]. destruct (wire_stages (mkPoint 3 (Hunt k).1 (Some fs))) as (? & ? & ? & ?).
  split_and!; try done.
  - apply prepare_stage.
  - apply hunt_stage.
  - apply load_stage.
  - apply build_stage.
  - apply cold_stage.
  - apply subscribe_stage.
  - apply restore_stage.
Qed.
Lemma start_stage k h fs : stage (mkPoint 0 k (Some fs)) (atStart k h fs).
Proof.
  split_and!; try done; [apply NewSequencer_ok|by intros ? [= <-]|]. cbn. split; [by intros []|lia].
Qed.

(** What a boot that succeeded has put together. *)
Definition booted (k : K) (h : Host) (fs : FS text) (spec : Specs) (b : bootstrapper) : Prop :=
  ∃ cfg coll pinned ag w, Config.Load readFile decode getenv args = Some (cfg, None) ∧
    Boot.current (b_seq b) = PhaseStateRestored ∧ b_coll b = Some coll ∧ b_closed b = 0%nat ∧
    b_kernel b = (Hunt k).1 ∧ load_outcome (UnsafeAllowUnpinnedMaps (BPF cfg)) spec h (b_host b) (inr (coll, pinned)) ∧
    b_ag b = Some ag ∧ ag_mapsPinned ag = Some pinned ∧
    (ag_subscriber ag = None ↔ AttachPrefixes (BPF cfg) = [] ∧ AttachInterfaces (BPF cfg) = []) ∧
    ag_gc ag = true ∧ ag_reconciler ag = Neutron_Enabled (Neutron cfg) ∧
    ag_kafka ag = kafkaOf (Kafka cfg) (ag_reconciler ag) ∧
    coldStartNeutron endian faultM faultT faultA (Neutron_Enabled (Neutron cfg))
      (UnsafeAllowAmbiguousRoutes (Neutron cfg)) syncs now (freshCold coll) = (ag_cold ag, Some None) ∧
    restoreFromWAL (WAL_Path (WAL cfg)) buildID (WAL_Enabled (WAL cfg)) walFault flushFault nowUnix nowNs
      (mkAgent (ca_meta (ag_cold ag)) (Some (ca_routers (ag_cold ag))) State.New fs 0 []) = (w, None) ∧
    ag_state ag = a_state w ∧ ag_countersResetAt ag = a_countersResetAt w ∧ b_files b = a_files w.
Context `{HL : !EbpfLoader NewCollection}.
Variable spec : Specs.
Hypothesis embedded : loadTelemetry = inr spec.
Hypothesis nothing_pinned : unmarked spec.

Lemma subscriberOf_None cfg : subscriberOf cfg = None ↔ AttachPrefixes cfg = [] ∧ AttachInterfaces cfg = [].
Proof. rewrite /subscriberOf. by case_decide. Qed.
Lemma wired_fields cfg cleaned pinned c lvl creds coll w :
  let ag := fromWal w (wired cfg cleaned pinned c (newlyBuilt cfg lvl creds coll)) in
  ag_cold ag = c ∧ ag_state ag = a_state w ∧ ag_countersResetAt ag = a_countersResetAt w ∧
  ag_mapsPinned ag = Some pinned ∧ ag_subscriber ag = subscriberOf (BPF cfg) ∧ ag_gc ag = true ∧
  ag_reconciler ag = Neutron_Enabled (Neutron cfg) ∧ ag_kafka ag = kafkaOf (Kafka cfg) (ag_reconciler ag).
Proof.
  cbn zeta. rewrite /wired /kafkaOf /newlyBuilt. generalize (Tunables cfg). intros t.
  by destruct (subscriberOf _), (Neutron_Enabled _), (Kafka_Enabled _).
Qed.
Lemma booted_ok k h fs b : Bootstrap (atStart k h fs) = (b, None) → booted k h fs spec b.
Proof.
  intros Hb. destruct (Bootstrap_content k h fs b Hb) as
    (cfg & lvl & h' & coll & pinned & creds & c & w & Hcfg & _ & Hload & _ & Hcold & Hwal & _ & Hc & Hh & Hf & Ha).
  pose proof (run_chained _ _ _ (boot_chained k fs) (start_stage k h fs)) as Hrun.
  change (zip bootSteps (points k fs)).*1 with bootSteps in Hrun. rewrite -/(Bootstrap _) Hb in Hrun.
  destruct Hrun as (_ & Hcur & _ & Hcl & Hker & _).
  destruct (wired_fields cfg (Hunt k).2.1 pinned c lvl creds coll w) as (F1 & F2 & F3 & F4 & F5 & F6 & F7 & F8).
  revert Ha F1 F2 F3 F4 F5 F6 F7 F8. generalize (fromWal w (wired cfg (Hunt k).2.1 pinned c (newlyBuilt cfg lvl creds coll))).
  intros ag Ha F1 F2 F3 F4 F5 F6 F7 F8. exists cfg, coll, pinned, ag, w. rewrite F5 F1.
  split_and!; try done.
  - rewrite embedded in Hload. rewrite Hh. by apply (loadCollection_exact _ _ _ _ _ _ nothing_pinned Hload).
  - apply subscriberOf_None.
Qed.

(** The phase each step starts from. *)
Definition phaseBefore : list Z := [0; 0; 0; 1; 1; 2; 3; 3; 3; 3; 3].
(** C15: Whatever the configuration, the kernel, the files and Neutron answer, a boot
    either fails at a named step, having released the collection it had opened, reached
    exactly the phase the steps before established, and changed neither the log's files
    nor any filter but the orphans the hunt removes; or it returns an agent in the last
    phase, over a validated configuration and the maps [collection_over_pins] speaks of, whose
    workers are exactly those the configuration asks for (Kafka only with a
    reconciler to kick), whose stores are those of a successful cold start, and whose
    counters are what the log's restore made of an empty state.  Attaching is left to
    the workers: no packet is classified before the stores are filled. *)
Theorem bootstrap_exact k h fs :
  match Bootstrap (atStart k h fs) with
  | (b, None) => booted k h fs spec b
  | (b, Some (name, _)) => ∃ i fn, bootSteps !! i = Some (name, fn) ∧
      phaseBefore !! i = Some (Boot.current (b_seq b)) ∧ b_files b = fs ∧
      b_kernel b = (if decide (i ≤ 1)%nat then k else (Hunt k).1) ∧
      (is_Some (b_coll b) ↔ (2 < i)%nat) ∧ b_closed b = (if decide (2 < i)%nat then 1%nat else 0%nat)
  end.
Proof.
  destruct (Bootstrap (atStart k h fs)) as [b [[name err]|]] eqn:Hb; [|by apply booted_ok].
  pose proof (run_chained _ _ _ (boot_chained k fs) (start_stage k h fs)) as Hrun.
  change (zip bootSteps (points k fs)).*1 with bootSteps in Hrun. rewrite -/(Bootstrap _) Hb in Hrun.
  destruct Hrun as (i & [name' fn] & y & b1 & Hi & -> & Hy & Hst & ->). exists i, fn. cbn [fst]. split; [done|].
  assert (i < 11)%nat as Hlt by (by apply lookup_lt_Some in Hi).
  destruct Hst as (_ & Hc & _ & Hcl & Hk & Hfs & Hcoll).
  assert (∃ p, phaseBefore !! i = Some p ∧ at_phase y = p ∧ at_files y = Some fs ∧ (1 ≤ p ↔ (2 < i)%nat) ∧
    at_kernel y = (if decide (i ≤ 1)%nat then k else (Hunt k).1)) as (p & -> & Hp & Hfs' & Hpi & Hki).
  { clear -Hy Hlt. do 11 (destruct i as [|i]; [injection Hy as <-; eexists; split_and!; (done || lia)|]). lia. }
  rewrite Hp in Hcoll Hc. specialize (Hfs _ Hfs'). rewrite -Hki -Hk /closeCollection.
  destruct (b_coll b1) as [coll|] eqn:Ec; cbn [b_seq b_files b_kernel b_coll b_closed]; rewrite ?Ec Hc Hcl.
  - assert (2 < i)%nat as H1 by (apply Hpi, Hcoll; by eexists). by rewrite decide_True; [|split_and!].
  - assert (¬ (2 < i)%nat) as H1 by (intros H1%Hpi%Hcoll; by destruct H1).
    rewrite decide_False; [done|]. by split_and!.
Qed.

(** The cold start of a boot starts from an empty, complete collection. *)
Lemma sizes_open : ValidateMapSizes (Some ((λ ms, MaxEntries (Shape ms)) <$> spec)) = None →
  ∀ coll : Coll, dom coll = dom spec → ∀ name, name ∈ mapSizeChecks.*1 → is_Some (coll !! name).
Proof.
  rewrite ValidateMapSizes_ok. intros Hall coll Hd name Hin.
  apply list_elem_of_fmap in Hin as (c & -> & Hc). rewrite Forall_forall in Hall. specialize (Hall c Hc).
  apply lookup_fmap_Some in Hall as (ms & _ & E). apply elem_of_dom. rewrite Hd. by apply elem_of_dom_2 in E.
Qed.
Lemma booted_maps k h fs b : booted k h fs spec b →
  ValidateMapSizes (Some ((λ ms, MaxEntries (Shape ms)) <$> spec)) = None →
  ∃ coll, b_coll b = Some coll ∧ ∀ name, name ∈ mapSizeChecks.*1 → is_Some (coll !! name).
Proof.
  intros (cfg & coll & pinned & ag & w & _ & _ & Hc & _ & _ & Hload & _) Hv. exists coll. split; [done|].
  apply (sizes_open Hv). destruct pinned; by apply Hload.
Qed.

(** ** The snapshot is in force before anything is attached *)

Variables (maxHops : Z) (snap : Neutron.Snapshot) (cancelled : bool) (pre rest : list syncAttempt).
Hypothesis answers : syncs = pre ++ (inr (resultFor maxHops snap), cancelled) :: rest.
Hypothesis retried_so_far : Forall (λ s, goes_on (failureOf s)) pre.
Hypothesis capacity : nextID NewTenantInterner + Z.of_nat (size (DesiredMACs snap) +
  length (SR_Entries (resultFor maxHops snap)) + length (AmphoraBaseIPs snap)) < 2 ^ 32.
Hypothesis sizes : ValidateMapSizes (Some ((λ ms, MaxEntries (Shape ms)) <$> spec)) = None.

(** C16: When Neutron is enabled and a boot returns an agent, the snapshot its first
    answered sync fetched is in force already, in userspace and in the kernel: the store holds the
    attribution of every admitted port, the router labels are the snapshot's, and the
    kernel's tenant, trie and Amphora maps hold exactly what the snapshot asks for,
    while the only filters the boot has touched are the orphans of a crash. *)
Theorem boot_puts_snapshot_in_force k h fs b cfg : Bootstrap (atStart k h fs) = (b, None) →
  Config.Load readFile decode getenv args = Some (cfg, None) → Neutron_Enabled (Neutron cfg) = true →
  b_kernel b = (Hunt k).1 ∧ ∃ ag mac trie amphora, b_ag b = Some ag ∧ let c := ag_cold ag in
    ca_neutron c = Commit (resultFor maxHops snap) now NewNeutron ∧
    ms_view (ca_meta c) = DesiredMACs snap ∧ ca_routers c = RouterExtMACs snap ∧
    ca_mac c = Some mac ∧ ca_trie c = Some trie ∧ ca_amphora c = Some amphora ∧
    steady endian (ca_neutron c) (ca_interner c) (ca_meta c) mac trie ∧
    ∀ e, e ∈ AmphoraBaseIPs snap → Base_ProjectID e ≠ "" →
      krows amphora !! amphoraKey endian (ca_interner c) e = Some 1.
Proof.
  intros Hb Hcfg Hen. pose proof (booted_ok k h fs b Hb) as Hok.
  destruct (booted_maps k h fs b Hok sizes) as (coll & Hcoll & Hin).
  destruct Hok as (cfg' & coll' & pinned & ag & w & Hcfg' & _ & Hcoll' & _ & Hk & _ & Hag & _ & _ & _ & _ & _ & Hcold & _).
  rewrite Hcfg in Hcfg'. injection Hcfg' as <-. rewrite Hcoll in Hcoll'. injection Hcoll' as <-.
  rewrite Hen answers in Hcold. split; [exact Hk|]. exists ag.
  assert (∀ K' V `{Countable K'} name, name ∈ mapSizeChecks.*1 → opened coll name = Some (emptyMap : kmap K' V)) as Hop.
  { intros K' V ?? name Hn. rewrite /opened. by destruct (Hin name Hn) as [id ->]. }
  destruct (cold_start_done endian faultM faultT faultA (freshCold coll) emptyMap emptyMap emptyMap) with
    (unsafeAllow := UnsafeAllowAmbiguousRoutes (Neutron cfg)) (cancelled := cancelled) (now := now)
    (maxHops := maxHops) (snap := snap) (pre := pre) (rest := rest) as (Hgood & _).
  - cbn [freshCold ca_mac ca_trie ca_amphora]. destruct metadata_maps as (? & ? & ?). split_and!; by apply Hop.
  - done.
  - split_and!; [apply ms_new_ok|apply ms_new_ok|apply NewTenantInterner_ok].
  - done.
  - exact capacity.
  - rewrite Hcold in Hgood. destruct (Hgood eq_refl) as (H1 & H2 & H3 & _ & mac & trie & amphora & H4 & H5 & H6 & H7 & _ & H8).
    exists mac, trie, amphora. by split_and!.
Qed.
End boot.

(** ** Running and stopping (run.go) *)

Inductive runEvent := InstallSIGHUP | StartWorker (w : string) | Serve | HttpShutdown | Drain (e : drainEvent) | StopSIGHUP.
(** What ends it: the context, with what shutting the server down answers, or the
    server by itself. *)
Inductive runExit := CtxDone (shutdownErr : option string) | ServerEnded (err : option string).
Definition startWorkers (ws : list worker) : list runEvent :=
  w ← ws; if enabled w then [StartWorker (name w)] else [].
Definition workersOf {M} (ag : agent M) (walEnabled : bool) : list worker :=
  workers (bool_decide (is_Some (ag_subscriber ag))) (ag_gc ag) (bool_decide (is_Some (ag_kafka ag)))
    (ag_reconciler ag) walEnabled.
(** The drain is deferred: it runs on an error of the server's shutdown too, and
    before the reload goroutine is stopped. *)
Definition Run {M} (ag : agent M) (walEnabled : bool) (inTime : string → bool) (exit : runExit)
    : list runEvent * option string :=
  let ws := workersOf ag walEnabled in
  let '(http, err) := match exit with CtxDone e => ([HttpShutdown], e) | ServerEnded e => ([], e) end in
  ([InstallSIGHUP] ++ startWorkers ws ++ [Serve] ++ http ++ (Drain <$> drainWorkers inTime ws) ++ [StopSIGHUP], err).

Lemma Run_split {M} (ag : agent M) walEnabled inTime exit : ∃ before after,
  (Run ag walEnabled inTime exit).1 = before ++ (Drain <$> drainWorkers inTime (workersOf ag walEnabled)) ++ after ∧
  (∀ e, Drain e ∉ before) ∧ (∀ e, exit = CtxDone e → HttpShutdown ∈ before) ∧ after = [StopSIGHUP].
Proof.
  rewrite /Run. set (ws := workersOf ag walEnabled).
  assert (∀ e, Drain e ∉ startWorkers ws) as Hs.
  { intros e (w & Hw & _)%list_elem_of_bind. revert Hw. destruct (enabled w); set_solver. }
  destruct exit as [e|e]; [exists ([InstallSIGHUP] ++ startWorkers ws ++ [Serve; HttpShutdown])|
    exists ([InstallSIGHUP] ++ startWorkers ws ++ [Serve])]; exists [StopSIGHUP]; (split_and!; [by rewrite -!app_assoc| |set_solver|done]);
    intros e'; rewrite !elem_of_app; specialize (Hs e'); set_solver.
Qed.
(** Whichever way it ends, the final flush of the log comes after the scraper's last
    tick (or the scraper is stuck past its budget), and after requests are no longer
    served when the context ended it. *)
Lemma flush_comes_last {M} (ag : agent M) walEnabled inTime exit : inTime "scraper" = true →
  ∃ i j, (Run ag walEnabled inTime exit).1 !! i = Some (Drain (Stopped "scraper")) ∧
    (Run ag walEnabled inTime exit).1 !! j = Some (Drain (Cancel "wal")) ∧ (i < j)%nat.
Proof.
  intros Hs. destruct (Run_split ag walEnabled inTime exit) as (before & after & -> & _).
  destruct (drain_order inTime (workersOf ag walEnabled) 4 5 (mkWorker "scraper" true)
    (mkWorker "wal" walEnabled)) as (a & b & Ha & Hb & Hab); [done..|lia|].
  assert (await inTime (mkWorker "scraper" true) = Stopped "scraper") as Haw by by rewrite /await /= Hs.
  rewrite Haw in Ha.
  assert (∀ n e, drainWorkers inTime (workersOf ag walEnabled) !! n = Some e →
    (before ++ (Drain <$> drainWorkers inTime (workersOf ag walEnabled)) ++ after) !! (length before + n)%nat =
      Some (Drain e)) as Hl.
  { intros n e Hn. rewrite lookup_app_r; [lia|]. replace (length before + n - length before)%nat with n by lia.
    rewrite lookup_app_l; [rewrite length_fmap; by eapply lookup_lt_Some|]. by rewrite list_lookup_fmap Hn. }
  exists (length before + a)%nat, (length before + b)%nat. split_and!; [by apply Hl..|lia].
Qed.

(** ** The fill gauge (subsystem_metrics.go, internal/bpf/metrics.go) *)

Record bpfMetrics := mkBpfMx { mx_current : gmap string Z; mx_updateFailures : list Z }.
Definition fillBatchLookup {Err} (r : batch_run Err) (stats : option ((Z * Err) + list Z))
    (dst : gmap FlowKey FlowMetrics) (mx : bpfMetrics) : gmap FlowKey FlowMetrics * bpfMetrics * option Err :=
  match Scraper.BatchLookup r dst with
  | (dst, Some e) => (dst, mx, Some e)
  | (dst, None) =>
      let mx := mkBpfMx (<[MapTelemetry := Z.of_nat (size dst)]> (mx_current mx)) (mx_updateFailures mx) in
      match stats with
      | Some (inr counts) => (dst, mkBpfMx (mx_current mx) counts, None)
      | Some (inl _) | None => (dst, mx, None)
      end
  end.
(** The decorated drain drains as the plain one, fails exactly when it fails, and then
    leaves the gauges alone; statistics never fail it. *)
Lemma fillBatchLookup_exact {Err} (r : batch_run Err) stats dst mx :
  let '(dst', mx', err) := fillBatchLookup r stats dst mx in
  (dst', err) = Scraper.BatchLookup r dst ∧
  match err with
  | Some _ => mx' = mx
  | None => mx_current mx' !! MapTelemetry = Some (Z.of_nat (size dst')) ∧
      mx_updateFailures mx' = match stats with Some (inr counts) => counts | _ => mx_updateFailures mx end
  end.
Proof.
  rewrite /fillBatchLookup. destruct (Scraper.BatchLookup r dst) as [dst' [e|]]; [done|].
  destruct stats as [[e|counts]|]; simpl; by rewrite lookup_insert_eq.
Qed.

(** ** A boot after a crash *)

Module AssemblyExamples.
#[local] Existing Instance list_range.
Import Demo TcSim TcExamples PinsExamples ColdStartExamples.
Definition demo_config : Config := onKafka (λ k, mkKafka true ["broker:9092"] (Topic k) (GroupID k))
  (onNeutron (λ n, mkNeutronCfg true "" "http://keystone:5000/v3" "agent" "secret" "service" (Config.UserDomain n)
    (Config.ProjectDomain n) (Config.Region n) (Config.Interface n) (RequestTimeout n) (RefreshLead n) false 16) Defaults).
Definition demo_getenv (name : string) : string := if decide (name = "LACHESIS_CONFIG") then "/etc/l.yaml" else "".
(** Ambiguities, missing programs and a read-only log directory are left to the
    arguments. *)
Definition boot_of (programs : gset string) (walMkdir : option string) (attempts : list syncAttempt) :=
  Bootstrap (M := ShardedMetadataMap) (Err := string) LittleEndian [] demo_getenv (λ _, Some ""%string) (λ _ _, Some demo_config) (λ _, None)
    None (inr now_build) PinsExamples.load programs None None ok_calls ok_calls ok_calls attempts 1000 "node1" "0badcafe"
    walMkdir None None "build1" ok_calls ok_calls 1700000000 1
    (atStart crashed first_boot.1 (mkFS ∅ [] ∅)).
Definition both : gset string := {[ProgramIngress; ProgramEgress]}.
Definition demo_attempts : list syncAttempt := down ++ (inr (resultFor 16 snap), false) :: [].
Definition good := boot_of both None demo_attempts.
Definition shownAgent (b : bootstrapper (M := ShardedMetadataMap) (K := sim)) :=
  (λ ag, (ag_zombiesCleaned ag, ag_mapsPinned ag, (ag_kafka ag, ag_reconciler ag), ag_countersResetAt ag)) <$> b_ag b.
Example boots_again : (good.2, shownAgent good.1, bool_decide (b_coll good.1 ≫= (λ c, c !! MapTelemetry) =
    coll_of first_boot.2 !! MapTelemetry)) =
  (None, Some (3, Some true, (Some (mkKafkaReader ["broker:9092"] "lachesis-node1" "notifications.info"), true), 1700000000), true).
Proof. vm_compute. reflexivity. Qed.
(** Failures early and late, and a Neutron that still does not answer. *)
Example failures :
  ((boot_of {[ProgramIngress]} None demo_attempts).2, (boot_of both (Some "read-only") demo_attempts).2,
   (boot_of both None down).2) =
  (Some ("subscribe netlink", ProgramsAbsent), Some ("prepare WAL directory", WalDirErr "create dir" "read-only"),
   Some ("cold-start Neutron", StillRetrying)).
Proof. vm_compute. reflexivity. Qed.

Lemma demo_loads : Config.Load (λ _, Some ""%string) (λ _ _, Some demo_config) demo_getenv [] = Some (demo_config, None).
Proof. vm_compute. reflexivity. Qed.
Lemma good_ends : good = (good.1, None).
Proof. assert (good.2 = None) as E by (vm_compute; reflexivity). by rewrite -E -surjective_pairing. Qed.
Lemma bootstrap_exact_witness : unmarked now_build ∧
  match good with
  | (b, None) => ∃ ag, b_ag b = Some ag ∧ ag_gc ag = true ∧ ag_reconciler ag = true
  | (b, Some _) => False
  end.
Proof.
  split; [apply (specs_unmarked 18)|]. rewrite good_ends.
  pose proof (bootstrap_exact (M := ShardedMetadataMap) (Err := string) LittleEndian [] demo_getenv (λ _, Some ""%string)
    (λ _ _, Some demo_config) (λ _, None) None (inr now_build) PinsExamples.load both None None ok_calls ok_calls ok_calls
    demo_attempts 1000 "node1" "0badcafe" None None None "build1" ok_calls ok_calls 1700000000 1
    now_build eq_refl (specs_unmarked 18) crashed first_boot.1 (mkFS ∅ [] ∅)) as H.
  pose proof good_ends as Hg. unfold good, boot_of in Hg. rewrite Hg in H.
  destruct H as (cfg & coll & pinned & ag & w & Hcfg & _ & _ & _ & _ & _ & Hag & _ & _ & Hgc & Hrec & _).
  rewrite demo_loads in Hcfg. injection Hcfg as <-. exists ag. split; [exact Hag|]. split; [exact Hgc|exact Hrec].
Defined.
Lemma boot_puts_snapshot_in_force_witness :
  b_kernel good.1 = (Hunt crashed).1 ∧ ∃ ag, b_ag good.1 = Some ag ∧
    ms_view (ca_meta (ag_cold ag)) = DesiredMACs snap ∧ ca_routers (ag_cold ag) = RouterExtMACs snap.
Proof.
  generalize good_ends. generalize good.1. unfold good, boot_of. intros b Hb.
  destruct (boot_puts_snapshot_in_force (M := ShardedMetadataMap) (Err := string) LittleEndian [] demo_getenv (λ _, Some ""%string)
    (λ _ _, Some demo_config) (λ _, None) None (inr now_build) PinsExamples.load both None None ok_calls ok_calls ok_calls
    demo_attempts 1000 "node1" "0badcafe" None None None "build1" ok_calls ok_calls 1700000000 1
    now_build eq_refl (specs_unmarked 18) 16 snap false down [] eq_refl down_goes_on snap_fits
    ltac:(vm_compute; reflexivity) crashed first_boot.1 (mkFS ∅ [] ∅) b demo_config Hb demo_loads eq_refl)
    as (Hk & ag & mac & trie & amphora & Hag & _ & H1 & H2 & _).
  split; [exact Hk|]. exists ag. split; [exact Hag|]. split; [exact H1|exact H2].
Defined.
End AssemblyExamples.
