(* ===== verification/Builder.v ===== *)
(** * The scenario DSL (internal/testenv/scenario/scenario.go)

    The builder the tests and the scenario harness declare their topologies with:
    every call of the DSL, on the builder and the cursors it hands out, and what the
    snapshots it emits are: every reference a port makes is declared. *)
From S2P Require Import Prelude GoStrings GoArgs GoJson Neutron.
From Stdlib Require Import Ascii DecimalString.
From Stdlib Require DecimalN.

(** ** State *)

Inductive LBTopology := Standalone | ActiveStandby.
#[export] Instance LBTopology_eq_dec : EqDecision LBTopology.
Proof. solve_decision. Defined.

Record LBMemberDecl := mkLBMember { LBM_SubnetID : string; LBM_Address : string; LBM_Port : Z }.
Record LBDecl := mkLBDecl {
  LBD_ID : string; LBD_ProjectID : string; LBD_VIPSubnetID : string; LBD_VIP : string;
  LBD_Topology : LBTopology; LBD_Protocol : string; LBD_Port : Z; LBD_Algorithm : string;
  LBD_Members : list LBMemberDecl }.

Record Builder := mkBuilder {
  B_networks : list Network; B_subnets : list Subnet; B_ports : list Port; B_routers : list Router;
  rifSeq : Z; nicSeq : Z;
  B_lbs : list LoadBalancer; B_amphorae : list Amphora; B_lbDecls : list LBDecl; lbSeq : Z }.

(** The cursors. *)
Record NetRef := mkNetRef { NR_netID : string; lastSubnet : string }.
Record RouterRef := mkRouterRef { RR_routerID : string }.
Record LBRef := mkLBRef {
  LR_lbID : string; LR_netID : string; LR_subnetID : string; LR_project : string;
  LR_serviceProject : string; LR_vip : string; computeIDs : list string; declIdx : nat }.

Definition newBuilder : Builder := mkBuilder [] [] [] [] 0 0 [] [] [] 0.

Definition withPorts (ports : list Port) (b : Builder) : Builder :=
  mkBuilder (B_networks b) (B_subnets b) ports (B_routers b) (rifSeq b) (nicSeq b)
    (B_lbs b) (B_amphorae b) (B_lbDecls b) (lbSeq b).
Definition addPort (p : Port) (b : Builder) : Builder := withPorts (B_ports b ++ [p]) b.
Definition withRouters (rs : list Router) (b : Builder) : Builder :=
  mkBuilder (B_networks b) (B_subnets b) (B_ports b) rs (rifSeq b) (nicSeq b)
    (B_lbs b) (B_amphorae b) (B_lbDecls b) (lbSeq b).
Definition withDecls (ds : list LBDecl) (b : Builder) : Builder :=
  mkBuilder (B_networks b) (B_subnets b) (B_ports b) (B_routers b) (rifSeq b) (nicSeq b)
    (B_lbs b) (B_amphorae b) ds (lbSeq b).
Definition addNet (n : Network) (b : Builder) : Builder :=
  mkBuilder (B_networks b ++ [n]) (B_subnets b) (B_ports b) (B_routers b) (rifSeq b) (nicSeq b)
    (B_lbs b) (B_amphorae b) (B_lbDecls b) (lbSeq b).
Definition addSubnet (s : Subnet) (b : Builder) : Builder :=
  mkBuilder (B_networks b) (B_subnets b ++ [s]) (B_ports b) (B_routers b) (rifSeq b) (nicSeq b)
    (B_lbs b) (B_amphorae b) (B_lbDecls b) (lbSeq b).
Definition nextRif (b : Builder) : Builder :=
  mkBuilder (B_networks b) (B_subnets b) (B_ports b) (B_routers b) (rifSeq b + 1) (nicSeq b)
    (B_lbs b) (B_amphorae b) (B_lbDecls b) (lbSeq b).
Definition nextNic (b : Builder) : Builder :=
  mkBuilder (B_networks b) (B_subnets b) (B_ports b) (B_routers b) (rifSeq b) (nicSeq b + 1)
    (B_lbs b) (B_amphorae b) (B_lbDecls b) (lbSeq b).
Definition nextLb (b : Builder) : Builder :=
  mkBuilder (B_networks b) (B_subnets b) (B_ports b) (B_routers b) (rifSeq b) (nicSeq b)
    (B_lbs b) (B_amphorae b) (B_lbDecls b) (lbSeq b + 1).
Definition addAmp (a : Amphora) (b : Builder) : Builder :=
  mkBuilder (B_networks b) (B_subnets b) (B_ports b) (B_routers b) (rifSeq b) (nicSeq b)
    (B_lbs b) (B_amphorae b ++ [a]) (B_lbDecls b) (lbSeq b).
Definition addLB (l : LoadBalancer) (b : Builder) : Builder :=
  mkBuilder (B_networks b) (B_subnets b) (B_ports b) (B_routers b) (rifSeq b) (nicSeq b)
    (B_lbs b ++ [l]) (B_amphorae b) (B_lbDecls b) (lbSeq b).

Definition Build (b : Builder) : Snapshot :=
  mkSnapshot (B_networks b) (B_subnets b) (B_ports b) (B_routers b) [] [] [] (B_lbs b) (B_amphorae b).
Definition LoadBalancers (b : Builder) : list LBDecl := B_lbDecls b.

(** ** Lookups; [None] is the panic *)

Definition findNetwork (id : string) (b : Builder) : option Network :=
  snd <$> list_find (λ n, Net_ID n = id) (B_networks b).
Definition findSubnet (id : string) (b : Builder) : option Subnet :=
  snd <$> list_find (λ s, Sub_ID s = id) (B_subnets b).
Definition findRouter (id : string) (b : Builder) : option Router :=
  snd <$> list_find (λ r, Router_ID r = id) (B_routers b).
(** The pointer to the first router of that id: its place in the slice. *)
Definition findRouterPtr (id : string) (b : Builder) : option nat :=
  fst <$> list_find (λ r, Router_ID r = id) (B_routers b).

(** [strings.LastIndex(s, ".")] and the text before it; the slice panics on -1. *)
Fixpoint beforeLastDot (s : string) : option string :=
  match s with
  | EmptyString => None
  | String a s =>
      match beforeLastDot s with
      | Some p => Some (String a p)
      | None => if decide (a = "."%char) then Some EmptyString else None
      end
  end.

(** ** The builder's calls *)

Definition Network_ (id project : string) (b : Builder) : Builder * NetRef :=
  (addNet (mkNetwork id project "" false false) b, mkNetRef id "").
Definition SharedNetwork (id project : string) (b : Builder) : Builder * NetRef :=
  (addNet (mkNetwork id project "" true false) b, mkNetRef id "").
Definition ExternalNetwork (id project : string) (b : Builder) : Builder * NetRef :=
  (addNet (mkNetwork id project "" false true) b, mkNetRef id "").
Definition Router_ (id project : string) (b : Builder) : Builder * RouterRef :=
  (withRouters (B_routers b ++ [mkRouter id project "" "" []]) b, mkRouterRef id).

(** A subnet, and the cursor moves to it. *)
Definition Subnet_ (id cidr gateway : string) (n : NetRef) (b : Builder) : option (Builder * NetRef) :=
  net ← findNetwork (NR_netID n) b;
  Some (addSubnet (mkSubnet id (NR_netID n) (Net_ProjectID net) cidr gateway 4) b, mkNetRef (NR_netID n) id).

Definition attachPort (id project owner deviceID ip : string) (n : NetRef) (b : Builder) : option Builder :=
  if decide (lastSubnet n = "") then None
  else Some (addPort (mkPort id (NR_netID n) project "" owner deviceID [mkFixedIP (lastSubnet n) ip]) b).
Definition VM (id project ip : string) (n : NetRef) (b : Builder) : option Builder :=
  attachPort id project "compute:nova" (id +:+ "-instance") ip n b.
Definition VMInAZ (id project az ip : string) (n : NetRef) (b : Builder) : option Builder :=
  attachPort id project ("compute:" +:+ az) (id +:+ "-instance") ip n b.
Definition Octavia (id project ip : string) (n : NetRef) (b : Builder) : option Builder :=
  attachPort id project "Octavia" id ip n b.
Definition FIP (id ip : string) (n : NetRef) (b : Builder) : option Builder :=
  net ← findNetwork (NR_netID n) b; attachPort id (Net_ProjectID net) "network:floatingip" "" ip n b.

(** The first compute port of that id gives the owner and the project. *)
Definition NIC (vmID subnetID ip : string) (b : Builder) : option Builder :=
  sub ← findSubnet subnetID b;
  let vm := snd <$> list_find (λ p, Port_ID p = vmID ∧ HasPrefix (Port_DeviceOwner p) "compute:" = true) (B_ports b) in
  p ← vm;
  let b := nextNic b in
  Some (addPort (mkPort (vmID +:+ "-nic-" +:+ FormatUint (nicSeq b)) (Sub_NetworkID sub) (Port_ProjectID p)
                   "" (Port_DeviceOwner p) (vmID +:+ "-instance") [mkFixedIP subnetID ip]) b).

(** ** Routers *)

Definition Attach (subnetID ip : string) (r : RouterRef) (b : Builder) : option Builder :=
  sub ← findSubnet subnetID b; router ← findRouter (RR_routerID r) b;
  let b := nextRif b in
  Some (addPort (mkPort ("p-rif-" +:+ RR_routerID r +:+ "-" +:+ FormatUint (rifSeq b)) (Sub_NetworkID sub)
                   (Router_ProjectID router) "" "network:router_interface" (RR_routerID r)
                   [mkFixedIP subnetID ip]) b).
Definition alterRouter (f : Router → Router) (id : string) (b : Builder) : option Builder :=
  i ← findRouterPtr id b; Some (withRouters (alter f i (B_routers b)) b).
Definition ExternalGateway (ext : string) (r : RouterRef) : Builder → option Builder :=
  alterRouter (λ rt, mkRouter (Router_ID rt) (Router_ProjectID rt) (Router_Name rt) ext (Router_Routes rt))
    (RR_routerID r).
Definition ExtraRoute (destination nexthop : string) (r : RouterRef) : Builder → option Builder :=
  alterRouter (λ rt, mkRouter (Router_ID rt) (Router_ProjectID rt) (Router_Name rt)
    (Router_ExternalNetworkID rt) (Router_Routes rt ++ [mkRoute destination nexthop])) (RR_routerID r).

(** ** Load balancers *)

Definition baseIP (r : LBRef) (b : Builder) : option string :=
  p ← beforeLastDot (LR_vip r); Some (p +:+ "." +:+ FormatUint (200 + lbSeq b)).
Definition memberPlugIP (memberIP : string) (idx : nat) : option string :=
  p ← beforeLastDot memberIP; Some (p +:+ "." +:+ FormatUint (240 + Z.of_nat idx)).

Definition withCompute (c : string) (r : LBRef) : LBRef :=
  mkLBRef (LR_lbID r) (LR_netID r) (LR_subnetID r) (LR_project r) (LR_serviceProject r) (LR_vip r)
    (computeIDs r ++ [c]) (declIdx r).
Definition addAmphora (rb : LBRef * Builder) : option (LBRef * Builder) :=
  let '(r, b) := rb in
  let b := nextLb b in
  let amp := LR_lbID r +:+ "-amp-" +:+ FormatUint (lbSeq b) in
  let compute := amp +:+ "-instance" in
  let mgmtIP := "10.254." +:+ FormatUint (lbSeq b) +:+ "." +:+ FormatUint (10 + lbSeq b) in
  let b := addAmp (mkAmphora amp (LR_lbID r) compute mgmtIP "ALLOCATED") b in
  let b := addPort (mkPort (amp +:+ "-mgmt") "net-lb-mgmt" (LR_serviceProject r) "" "compute:nova" compute
                      [mkFixedIP "sub-lb-mgmt" mgmtIP]) b in
  base ← baseIP r b;
  let b := addPort (mkPort (amp +:+ "-vrrp") (LR_netID r) (LR_serviceProject r) "" "compute:nova" compute
                      [mkFixedIP (LR_subnetID r) base]) b in
  Some (withCompute compute r, b).

Definition LoadBalancer_ (id project serviceProject vip : string) (topology : LBTopology) (n : NetRef)
    (b : Builder) : option (LBRef * Builder) :=
  if decide (lastSubnet n = "") then None
  else
    let b := addLB (mkLoadBalancer id project "amphora") b in
    let b := addPort (mkPort (id +:+ "-vip") (NR_netID n) project "" "Octavia" ("lb-" +:+ id)
                        [mkFixedIP (lastSubnet n) vip]) b in
    let b := withDecls (B_lbDecls b ++ [mkLBDecl id project (lastSubnet n) vip topology "TCP" 80
                                          "ROUND_ROBIN" []]) b in
    let ref := mkLBRef id (NR_netID n) (lastSubnet n) project serviceProject vip []
                 (length (B_lbDecls b) - 1) in
    rb ← addAmphora (ref, b);
    if decide (topology = ActiveStandby) then addAmphora rb else Some rb.

Definition alterDecl (f : LBDecl → LBDecl) (r : LBRef) (b : Builder) : Builder :=
  withDecls (alter f (declIdx r) (B_lbDecls b)) b.
Definition Listener (protocol : string) (port : Z) (r : LBRef) : Builder → Builder :=
  alterDecl (λ d, mkLBDecl (LBD_ID d) (LBD_ProjectID d) (LBD_VIPSubnetID d) (LBD_VIP d) (LBD_Topology d)
    protocol port (LBD_Algorithm d) (LBD_Members d)) r.

(** The Amphorae are plugged into a member's subnet that is not the VIP's. *)
Fixpoint plugMember (r : LBRef) (subnetID network ip : string) (i : nat) (computes : list string) (b : Builder)
    : option Builder :=
  match computes with
  | [] => Some b
  | compute :: computes =>
      plug ← memberPlugIP ip i;
      plugMember r subnetID network ip (S i) computes
        (addPort (mkPort (LR_lbID r +:+ "-member-" +:+ subnetID +:+ "-" +:+ FormatUint (Z.of_nat i))
                    network (LR_serviceProject r) "" "compute:nova" compute [mkFixedIP subnetID plug]) b)
  end.
Definition declareMember (subnetID ip : string) (port : Z) : LBRef → Builder → Builder :=
  alterDecl (λ d, mkLBDecl (LBD_ID d) (LBD_ProjectID d) (LBD_VIPSubnetID d) (LBD_VIP d) (LBD_Topology d)
    (LBD_Protocol d) (LBD_Port d) (LBD_Algorithm d) (LBD_Members d ++ [mkLBMember subnetID ip port])).
Definition Member (subnetID ip : string) (port : Z) (r : LBRef) (b : Builder) : option Builder :=
  let b := declareMember subnetID ip port r b in
  if decide (subnetID = LR_subnetID r) then Some b
  else sub ← findSubnet subnetID b; plugMember r subnetID (Sub_NetworkID sub) ip 0 (computeIDs r) b.

(** ** Programs of the DSL

    The cursors are pointers a program keeps and calls again, so a program's state
    is the builder and the cursors handed out so far; a call names its cursor by its
    place.  A program that panics, or names no cursor, has no state. *)

Inductive netKind := Plain | Shared_ | External_.
Inductive call :=
  | CNetwork (k : netKind) (id project : string) | CRouter (id project : string)
  | CSubnet (n : nat) (id cidr gateway : string) | CVM (n : nat) (id project ip : string)
  | CVMInAZ (n : nat) (id project az ip : string) | COctavia (n : nat) (id project ip : string)
  | CFIP (n : nat) (id ip : string) | CNIC (vm subnet ip : string)
  | CAttach (r : nat) (subnet ip : string) | CGateway (r : nat) (ext : string)
  | CExtraRoute (r : nat) (destination nexthop : string)
  | CLoadBalancer (n : nat) (id project serviceProject vip : string) (t : LBTopology)
  | CListener (l : nat) (protocol : string) (port : Z) | CMember (l : nat) (subnet ip : string) (port : Z).

Record Dsl := mkDsl { d_b : Builder; d_nets : list NetRef; d_rtrs : list RouterRef; d_lbs : list LBRef }.
Definition startDsl : Dsl := mkDsl newBuilder [] [] [].
Definition withB (d : Dsl) (b : Builder) : Dsl := mkDsl b (d_nets d) (d_rtrs d) (d_lbs d).
Definition network_of (k : netKind) : string → string → Builder → Builder * NetRef :=
  match k with Plain => Network_ | Shared_ => SharedNetwork | External_ => ExternalNetwork end.

Definition exec (c : call) (d : Dsl) : option Dsl :=
  let b := d_b d in
  match c with
  | CNetwork k id project =>
      let '(b, n) := network_of k id project b in Some (mkDsl b (d_nets d ++ [n]) (d_rtrs d) (d_lbs d))
  | CRouter id project =>
      let '(b, r) := Router_ id project b in Some (mkDsl b (d_nets d) (d_rtrs d ++ [r]) (d_lbs d))
  | CSubnet i id cidr gateway =>
      n ← d_nets d !! i; bn ← Subnet_ id cidr gateway n b;
      Some (mkDsl bn.1 (<[i := bn.2]> (d_nets d)) (d_rtrs d) (d_lbs d))
  | CVM i id project ip => n ← d_nets d !! i; withB d <$> VM id project ip n b
  | CVMInAZ i id project az ip => n ← d_nets d !! i; withB d <$> VMInAZ id project az ip n b
  | COctavia i id project ip => n ← d_nets d !! i; withB d <$> Octavia id project ip n b
  | CFIP i id ip => n ← d_nets d !! i; withB d <$> FIP id ip n b
  | CNIC vm subnet ip => withB d <$> NIC vm subnet ip b
  | CAttach i subnet ip => r ← d_rtrs d !! i; withB d <$> Attach subnet ip r b
  | CGateway i ext => r ← d_rtrs d !! i; withB d <$> ExternalGateway ext r b
  | CExtraRoute i dst nh => r ← d_rtrs d !! i; withB d <$> ExtraRoute dst nh r b
  | CLoadBalancer i id project service vip t =>
      n ← d_nets d !! i; rb ← LoadBalancer_ id project service vip t n b;
      Some (mkDsl rb.2 (d_nets d) (d_rtrs d) (d_lbs d ++ [rb.1]))
  | CListener i protocol port => r ← d_lbs d !! i; Some (withB d (Listener protocol port r b))
  | CMember i subnet ip port => r ← d_lbs d !! i; withB d <$> Member subnet ip port r b
  end.
Fixpoint declares (prog : list call) (d : Dsl) : option Dsl :=
  match prog with [] => Some d | c :: prog => d ← exec c d; declares prog d end.

(** ** What a program declares *)

(** A subnet of that id, on that network. *)
Definition declared (b : Builder) (subnet network : string) : Prop :=
  ∃ s, s ∈ B_subnets b ∧ Sub_ID s = subnet ∧ Sub_NetworkID s = network.
(** An Amphora's management port: bare, on no subnet of the topology. *)
Definition management (b : Builder) (p : Port) (ip : string) : Prop :=
  Port_NetworkID p = "net-lb-mgmt" ∧ ∃ a, a ∈ B_amphorae b ∧ Amp_ComputeID a = Port_DeviceID p ∧ Amp_LBNetworkIP a = ip.
Definition port_ok (b : Builder) (p : Port) : Prop :=
  (∃ subnet ip, Port_FixedIPs p = [mkFixedIP subnet ip] ∧
     (declared b subnet (Port_NetworkID p) ∨ management b p ip)) ∧
  (Port_DeviceOwner p = "network:router_interface" → ∃ r, r ∈ B_routers b ∧
     Router_ID r = Port_DeviceID p ∧ Router_ProjectID r = Port_ProjectID p).
Definition decl_ok (b : Builder) (d : LBDecl) : Prop :=
  (∃ p, p ∈ B_ports b ∧ Port_DeviceOwner p = "Octavia" ∧ Port_DeviceID p = "lb-" +:+ LBD_ID d ∧
     Port_ProjectID p = LBD_ProjectID d ∧ Port_FixedIPs p = [mkFixedIP (LBD_VIPSubnetID d) (LBD_VIP d)]) ∧
  ∀ m, m ∈ LBD_Members d → ∃ s, s ∈ B_subnets b ∧ Sub_ID s = LBM_SubnetID m.
Definition amphora_id (lb : string) (i : nat) : string :=
  (lb +:+ "-amp-" +:+ FormatUint (Z.of_nat (S i))) +:+ "-instance".

Record wf (b : Builder) : Prop := mkWf {
  wf_subnets : ∀ s, s ∈ B_subnets b → ∃ n, n ∈ B_networks b ∧ Net_ID n = Sub_NetworkID s ∧
    Net_ProjectID n = Sub_ProjectID s;
  wf_ports : ∀ p, p ∈ B_ports b → port_ok b p;
  wf_lbs : (λ l, (LB_ID l, LB_ProjectID l)) <$> B_lbs b = (λ d, (LBD_ID d, LBD_ProjectID d)) <$> B_lbDecls b;
  wf_decls : ∀ d, d ∈ B_lbDecls b → decl_ok b d;
  wf_seq : lbSeq b = Z.of_nat (length (B_amphorae b));
  wf_amps : ∀ i a, B_amphorae b !! i = Some a → Amp_ComputeID a = amphora_id (Amp_LoadBalancerID a) i ∧
    ∃ l, l ∈ B_lbs b ∧ LB_ID l = Amp_LoadBalancerID a }.

Definition net_ok (b : Builder) (n : NetRef) : Prop :=
  lastSubnet n ≠ "" → declared b (lastSubnet n) (NR_netID n).
Definition lb_ok (b : Builder) (r : LBRef) : Prop := declared b (LR_subnetID r) (LR_netID r).
Record dsl_ok (d : Dsl) : Prop := mkDslOk {
  ok_wf : wf (d_b d);
  ok_nets : Forall (net_ok (d_b d)) (d_nets d);
  ok_lbs : Forall (lb_ok (d_b d)) (d_lbs d) }.

(** What is declared stays. *)
Record grows (b b' : Builder) : Prop := mkGrows {
  gr_subnets : B_subnets b ⊆ B_subnets b';
  gr_ports : B_ports b ⊆ B_ports b';
  gr_amps : B_amphorae b ⊆ B_amphorae b';
  gr_routers : ∀ r, r ∈ B_routers b → ∃ r', r' ∈ B_routers b' ∧ Router_ID r' = Router_ID r ∧
    Router_ProjectID r' = Router_ProjectID r }.

Lemma declared_grows b b' subnet network : grows b b' → declared b subnet network → declared b' subnet network.
Proof. intros Hg (s & Hs & ?). exists s. split; [by apply (gr_subnets _ _ Hg)|done]. Qed.
Lemma port_grows b b' p : grows b b' → port_ok b p → port_ok b' p.
Proof.
  intros Hg [(subnet & ip & Hf & Hd) Hr]. split.
  - exists subnet, ip. split; [done|]. destruct Hd as [Hd|(Hn & a & Ha & Hc)].
    + left. by eapply declared_grows.
    + right. split; [done|]. exists a. split; [by apply (gr_amps _ _ Hg)|done].
  - intros (r & Hin & Hi & Hp)%Hr. destruct (gr_routers _ _ Hg r Hin) as (r' & ? & ? & ?).
    exists r'. split_and!; congruence.
Qed.
Lemma decl_grows b b' d : grows b b' → decl_ok b d → decl_ok b' d.
Proof.
  intros Hg [(p & Hp & Hv) Hm]. split.
  - exists p. split; [by apply (gr_ports _ _ Hg)|done].
  - intros m (s & Hs & E)%Hm. exists s. split; [by apply (gr_subnets _ _ Hg)|done].
Qed.
Lemma net_grows b b' n : grows b b' → net_ok b n → net_ok b' n.
Proof. intros Hg Hn Hne. by eapply declared_grows, Hn. Qed.
Lemma extends_refl b : grows b b.
Proof. split; [done..|]. intros r Hr. by exists r. Qed.
Lemma extends_trans b1 b2 b3 : grows b1 b2 → grows b2 b3 → grows b1 b3.
Proof.
  intros [] []. split; [by etrans..|]. intros r (r1 & Hr1 & E1 & E2)%gr_routers0.
  destruct (gr_routers1 r1 Hr1) as (r2 & ? & ? & ?). exists r2. split_and!; congruence.
Qed.
(** A builder whose routers are the same and whose other lists were appended to. *)
Lemma grows_same b b' : B_subnets b ⊆ B_subnets b' → B_ports b ⊆ B_ports b' → B_amphorae b ⊆ B_amphorae b' →
  B_routers b' = B_routers b → grows b b'.
Proof. intros ??? E. split; [done..|]. rewrite E. intros r Hr. by exists r. Qed.
Lemma sub_app_l {A} (l k : list A) : l ⊆ l ++ k.
Proof. intros x Hx. apply elem_of_app. by left. Qed.
Lemma sub_refl {A} (l : list A) : l ⊆ l.
Proof. done. Qed.
#[local] Hint Resolve sub_app_l sub_refl : core.
#[local] Ltac grow := apply grows_same; simpl; auto.

(** Adding a port that is in order. *)
Lemma addPort_wf p b : wf b → port_ok (addPort p b) p → wf (addPort p b) ∧ grows b (addPort p b).
Proof.
  intros Hb Hp. assert (grows b (addPort p b)) as Hg by (by grow). split; [|done].
  destruct Hb as [Hs Hps Hl Hd Hq Ha]. split; [done| |done| |done|done].
  - intros q [Hq'|Hq']%elem_of_app; [by eapply port_grows, Hps|]. by apply list_elem_of_singleton in Hq' as ->.
  - intros d Hin. by eapply decl_grows, Hd.
Qed.
(** Counters and declarations aside, the builder is the same. *)
Lemma nextRif_wf b : wf b → wf (nextRif b).
Proof. by intros []. Qed.
Lemma nextNic_wf b : wf b → wf (nextNic b).
Proof. by intros []. Qed.

Lemma find_elem {A} (P : A → Prop) `{∀ x, Decision (P x)} l x : snd <$> list_find P l = Some x → x ∈ l ∧ P x.
Proof.
  intros ([i y] & E & ->)%fmap_Some. apply list_find_Some in E as (E & HP & _). split; [|done].
  by apply list_elem_of_lookup_2 in E.
Qed.
Lemma addNet_ok n b : wf b → wf (addNet n b) ∧ grows b (addNet n b).
Proof.
  intros [Hs Hp Hl Hd Hq Ha]. split; [split; try done|by grow].
  intros s (m & Hm & E)%Hs. exists m. split; [by apply elem_of_app; left|done].
Qed.
Lemma Subnet_ok id cidr gw n b b' n' : wf b → Subnet_ id cidr gw n b = Some (b', n') →
  wf b' ∧ grows b b' ∧ net_ok b' n'.
Proof.
  rewrite /Subnet_. intros Hb (net & Hnet & E)%bind_Some. injection E as <- <-.
  apply find_elem in Hnet as [Hin Hid]. set (s := mkSubnet _ _ _ _ _ _).
  assert (grows b (addSubnet s b)) as Hg by (by grow).
  split_and!; [|done|].
  - destruct Hb as [Hs Hp Hl Hd Hq Ha]. split; [| |done| |done|done].
    + intros t [Ht|Ht]%elem_of_app; [by apply Hs|]. apply list_elem_of_singleton in Ht as ->. by exists net.
    + intros p Hin'. by eapply port_grows, Hp.
    + intros d Hin'. by eapply decl_grows, Hd.
  - intros _. exists s. split; [|done]. apply elem_of_app. right. by apply list_elem_of_singleton.
Qed.
Lemma attachPort_ok id project owner dev ip n b b' : wf b → net_ok b n → owner ≠ "network:router_interface" →
  attachPort id project owner dev ip n b = Some b' → wf b' ∧ grows b b'.
Proof.
  rewrite /attachPort. intros Hb Hn Ho. case_decide as Hs; [done|]. intros [= <-].
  apply addPort_wf; [done|]. split; [|by intros].
  exists (lastSubnet n), ip. split; [done|]. left. by apply Hn.
Qed.
Lemma addPort_from p b0 b : grows b0 b → wf b → port_ok (addPort p b) p →
  wf (addPort p b) ∧ grows b0 (addPort p b).
Proof. intros Hg Hb Hp. destruct (addPort_wf p b Hb Hp). split; [done|by eapply extends_trans]. Qed.
Lemma NIC_ok vm subnet ip b b' : wf b → NIC vm subnet ip b = Some b' → wf b' ∧ grows b b'.
Proof.
  rewrite /NIC. intros Hb (s & Hs & E)%bind_Some. cbv zeta in E. apply bind_Some in E as (p & Hp & E).
  injection E as <-. apply find_elem in Hs as [Hs Hid]. apply find_elem in Hp as (_ & _ & Ho).
  apply addPort_from; [by grow|by apply nextNic_wf|]. split.
  - exists subnet, ip. split; [done|]. left. by exists s.
  - intros E. simpl in E. by rewrite E in Ho.
Qed.
Lemma Attach_ok subnet ip r b b' : wf b → Attach subnet ip r b = Some b' → wf b' ∧ grows b b'.
Proof.
  rewrite /Attach. intros Hb (s & Hs & E)%bind_Some. apply bind_Some in E as (rt & Hr & E).
  injection E as <-. apply find_elem in Hs as [Hs Hid]. apply find_elem in Hr as (Hr & Hrid).
  apply addPort_from; [by grow|by apply nextRif_wf|]. split.
  - exists subnet, ip. split; [done|]. left. by exists s.
  - intros _. by exists rt.
Qed.
Lemma alterRouter_ok f id b b' : wf b →
  (∀ r, Router_ID (f r) = Router_ID r ∧ Router_ProjectID (f r) = Router_ProjectID r) →
  alterRouter f id b = Some b' → wf b' ∧ grows b b'.
Proof.
  rewrite /alterRouter. intros Hb Hf (i & Hi & E)%bind_Some. injection E as <-.
  assert (grows b (withRouters (alter f i (B_routers b)) b)) as Hg.
  { split; [done..|]. intros r [j Hj]%list_elem_of_lookup. destruct (decide (i = j)) as [->|Hne].
    - exists (f r). split; [|apply Hf]. apply list_elem_of_lookup. exists j. by rewrite list_lookup_alter_eq Hj.
    - exists r. split; [|done]. apply list_elem_of_lookup. exists j. by rewrite list_lookup_alter_ne. }
  split; [|done]. destruct Hb as [Hs Hp Hl Hd Hq Ha]. split; [done| |done| |done|done].
  - intros p Hin. by eapply port_grows, Hp.
  - intros d Hin. by eapply decl_grows, Hd.
Qed.
Lemma Router_ok id project b : wf b → wf (Router_ id project b).1 ∧ grows b (Router_ id project b).1.
Proof.
  intros Hb. assert (grows b (Router_ id project b).1) as Hg.
  { split; [done..|]. intros r Hr. exists r. split; [by apply elem_of_app; left|done]. }
  split; [|done]. destruct Hb as [Hs Hp Hl Hd Hq Ha]. split; [done| |done| |done|done].
  - intros p Hin. by eapply port_grows, Hp.
  - intros d Hin. by eapply decl_grows, Hd.
Qed.

(** ** The load balancers of a program *)

Lemma nextAmp_wf a b : wf b → Amp_ComputeID a = amphora_id (Amp_LoadBalancerID a) (length (B_amphorae b)) →
  (∃ l, l ∈ B_lbs b ∧ LB_ID l = Amp_LoadBalancerID a) →
  wf (addAmp a (nextLb b)) ∧ grows b (addAmp a (nextLb b)).
Proof.
  intros Hb Hc Hl. assert (grows b (addAmp a (nextLb b))) as Hg by (by grow). split; [|done].
  destruct Hb as [Hs Hp Hlb Hd Hq Ha]. split; [done| |done| | |].
  - intros p Hin. by eapply port_grows, Hp.
  - intros d Hin. by eapply decl_grows, Hd.
  - rewrite /= length_app /= Hq. lia.
  - intros i x [Hx|[Hi Hx]]%lookup_app_Some; [by apply Ha|]. simpl in Hi, Hx.
    apply list_lookup_singleton_Some in Hx as [Hi0 <-]. by replace i with (length (B_amphorae b)) by lia.
Qed.
Lemma addAmphora_ok r b r' b' : wf b → lb_ok b r → (∃ l, l ∈ B_lbs b ∧ LB_ID l = LR_lbID r) →
  addAmphora (r, b) = Some (r', b') →
  wf b' ∧ grows b b' ∧ lb_ok b' r' ∧ B_lbs b' = B_lbs b ∧ LR_lbID r' = LR_lbID r.
Proof.
  rewrite /addAmphora. intros Hb Hr Hl. cbv beta zeta. set (a := mkAmphora _ _ _ _ _).
  destruct (nextAmp_wf a b Hb) as [Hb1 Hg1].
  { rewrite /amphora_id /=. by rewrite (wf_seq b Hb) Nat2Z.inj_succ -Z.add_1_r. }
  { done. }
  set (p1 := mkPort _ _ _ _ _ _ _). intros (base & _ & E)%bind_Some. injection E as <- <-.
  destruct (addPort_from p1 b (addAmp a (nextLb b)) Hg1 Hb1) as [Hb2 Hg2].
  { split; [|by intros]. exists "sub-lb-mgmt", (Amp_LBNetworkIP a). split; [done|]. right. split; [done|].
    exists a. split; [|done]. apply elem_of_app. right. by apply list_elem_of_singleton. }
  match goal with |- context [addPort ?p _] => set (p2 := p) end.
  destruct (addPort_from p2 b (addPort p1 (addAmp a (nextLb b))) Hg2 Hb2) as [Hb3 Hg3].
  { split; [|by intros]. exists (LR_subnetID r), base. split; [done|]. left. exact Hr. }
  split_and!; [done|done| |done|done]. by eapply declared_grows.
Qed.

Lemma declare_wf id project vip topology n b : wf b → declared b (lastSubnet n) (NR_netID n) →
  let p := mkPort (id +:+ "-vip") (NR_netID n) project "" "Octavia" ("lb-" +:+ id) [mkFixedIP (lastSubnet n) vip] in
  let b1 := addPort p (addLB (mkLoadBalancer id project "amphora") b) in
  let b2 := withDecls (B_lbDecls b1 ++ [mkLBDecl id project (lastSubnet n) vip topology "TCP" 80
                                         "ROUND_ROBIN" []]) b1 in
  wf b2 ∧ grows b b2.
Proof.
  intros Hb Hn p b1 b2. assert (grows b b2) as Hg by (by grow). split; [|done].
  destruct Hb as [Hs Hps Hl Hd Hq Ha]. split; [done| | | |done|].
  - intros q [Hq'|Hq']%elem_of_app; [by eapply port_grows, Hps|]. apply list_elem_of_singleton in Hq' as ->.
    split; [|by intros]. exists (lastSubnet n), vip. split; [done|]. by left.
  - rewrite /= !fmap_app /=. by f_equal.
  - intros d [Hin|Hin]%elem_of_app; [by eapply decl_grows, Hd|]. apply list_elem_of_singleton in Hin as ->.
    split; [|by intros m Hm%elem_of_nil]. exists p. split; [|done]. apply elem_of_app. right. by apply list_elem_of_singleton.
  - intros i a (Hc & l & Hin & E)%Ha. split; [done|]. exists l. split; [|done]. apply elem_of_app. by left.
Qed.
Lemma LoadBalancer_ok id project service vip t n b r b' : wf b → net_ok b n →
  LoadBalancer_ id project service vip t n b = Some (r, b') → wf b' ∧ grows b b' ∧ lb_ok b' r.
Proof.
  rewrite /LoadBalancer_. intros Hb Hn. destruct (decide (lastSubnet n = "")) as [|Hs]; [done|]. cbv zeta.
  specialize (Hn Hs). destruct (declare_wf id project vip t n b Hb Hn) as [Hb2 Hg2]. cbv zeta in Hb2, Hg2.
  revert Hb2 Hg2. set (b2 := withDecls _ _). set (ref := mkLBRef _ _ _ _ _ _ _ _). intros Hb2 Hg2.
  intros ([r1 b1] & E1 & E)%bind_Some.
  assert (∃ l, l ∈ B_lbs b2 ∧ LB_ID l = LR_lbID ref) as Hl.
  { exists (mkLoadBalancer id project "amphora"). split; [|done]. apply elem_of_app. right. by apply list_elem_of_singleton. }
  destruct (addAmphora_ok ref b2 r1 b1 Hb2) as (Hb3 & Hg3 & Hr & Hlb & Hid); [|done|done|].
  { by eapply declared_grows. }
  assert (grows b b1) by (by eapply extends_trans). case_decide.
  - destruct (addAmphora_ok r1 b1 r b' Hb3 Hr) as (? & ? & ? & _); [by rewrite Hlb Hid|done|].
    split_and!; [done|by eapply extends_trans|done].
  - by injection E as <- <-.
Qed.

Lemma alterDecl_ok f r b : wf b → (∀ d, d ∈ B_lbDecls b → decl_ok b d → decl_ok b (f d)) →
  (∀ d, LBD_ID (f d) = LBD_ID d ∧ LBD_ProjectID (f d) = LBD_ProjectID d) →
  wf (alterDecl f r b) ∧ grows b (alterDecl f r b).
Proof.
  intros Hb Hf Hid. assert (grows b (alterDecl f r b)) as Hg by (by grow). split; [|done].
  destruct Hb as [Hs Hp Hl Hd Hq Ha]. split; [done| | | |done|done].
  - intros p Hin. by eapply port_grows, Hp.
  - rewrite /= Hl. apply list_eq. intros i. rewrite !list_lookup_fmap.
    destruct (decide (declIdx r = i)) as [->|Hne]; [|by rewrite list_lookup_alter_ne].
    rewrite list_lookup_alter_eq. destruct (B_lbDecls b !! i) as [d|]; [|done]. simpl.
    by destruct (Hid d) as [-> ->].
  - intros d [j Hj]%list_elem_of_lookup. eapply decl_grows; [done|]. simpl in Hj.
    destruct (decide (declIdx r = j)) as [<-|Hne].
    + rewrite list_lookup_alter_eq in Hj. apply fmap_Some in Hj as (d0 & Hd0 & ->).
      apply list_elem_of_lookup_2 in Hd0. by apply Hf, Hd.
    + rewrite list_lookup_alter_ne // in Hj. apply list_elem_of_lookup_2 in Hj. by apply Hd.
Qed.
Lemma plugMember_ok r subnet network ip i computes b b' : wf b → declared b subnet network →
  plugMember r subnet network ip i computes b = Some b' → wf b' ∧ grows b b'.
Proof.
  induction computes as [|c computes IH] in i, b |- *; intros Hb Hs; cbn [plugMember].
  { intros [= <-]. split; [done|apply extends_refl]. }
  intros (plug & _ & E)%bind_Some. revert E. set (p := mkPort _ _ _ _ _ _ _). intros E.
  destruct (addPort_wf p b Hb) as [Hb1 Hg1].
  { split; [|by intros]. exists subnet, plug. split; [done|]. by left. }
  destruct (IH (S i) (addPort p b) Hb1) as [? ?]; [by eapply declared_grows|done|].
  split; [done|by eapply extends_trans].
Qed.
Lemma Member_ok subnet ip port r b b' : wf b → lb_ok b r → Member subnet ip port r b = Some b' →
  wf b' ∧ grows b b'.
Proof.
  intros Hb Hr. rewrite /Member. intros E.
  assert (∃ s, s ∈ B_subnets b ∧ Sub_ID s = subnet) as Hsub.
  { revert E. cbv zeta. case_decide as Hs.
    - destruct Hr as (s & Hin & Hid & _). exists s. split; [done|by rewrite Hs].
    - intros (s & Hf & _)%bind_Some. apply find_elem in Hf as [Hf Hid]. by exists s. }
  destruct (alterDecl_ok (λ d, mkLBDecl (LBD_ID d) (LBD_ProjectID d) (LBD_VIPSubnetID d) (LBD_VIP d)
    (LBD_Topology d) (LBD_Protocol d) (LBD_Port d) (LBD_Algorithm d)
    (LBD_Members d ++ [mkLBMember subnet ip port])) r b Hb) as [Hb1 Hg1]; [|done|].
  { intros d _ [Hv Hm]. split; [done|]. intros m [Hin|Hin]%elem_of_app; [by apply Hm|].
    by apply list_elem_of_singleton in Hin as ->. }
  revert E. cbv zeta. case_decide; [by intros [= <-]|].
  intros (s & Hf & E)%bind_Some. apply find_elem in Hf as [Hf Hid].
  destruct (plugMember_ok _ _ _ _ _ _ _ _ Hb1 (ex_intro _ s (conj Hf (conj Hid eq_refl))) E).
  split; [done|by eapply extends_trans].
Qed.

(** ** The instances of the Amphorae differ *)

Lemma split_on_any c s1 s2 : split_on c (s1 +:+ String c s2) = split_on c s1 ++ split_on c s2.
Proof.
  induction s1 as [|a s1 IH]; simpl; [by rewrite decide_True|]. case_decide; [by rewrite IH|].
  rewrite IH. destruct (split_on c s1) as [|f fs] eqn:E; [|done].
  exfalso. clear -E. destruct s1 as [|a s1]; simpl in E; [done|]. case_decide; [done|].
  by destruct (split_on c s1).
Qed.
Lemma digits_no_dash d : has_char "-" (NilEmpty.string_of_uint d) = false.
Proof. by induction d. Qed.
Lemma FormatUint_no_dash z : has_char "-" (FormatUint z) = false.
Proof.
  rewrite /FormatUint. rewrite /NilZero.string_of_uint. destruct (N.to_uint _) eqn:E; [done|..]; rewrite -E; apply digits_no_dash.
Qed.
Lemma FormatUint_value z : N.of_uint <$> NilZero.uint_of_string (FormatUint z) = Some (Z.to_N z).
Proof.
  rewrite /FormatUint -{2}(DecimalN.Unsigned.of_to (Z.to_N z)).
  destruct (NilZero.usu_gen (N.to_uint (Z.to_N z))) as [->|E]; [done|].
  destruct (N.to_uint (Z.to_N z)) as [| | | | | | | | | |] eqn:En; [done|..];
    rewrite NilZero.usu // in E |- *; by injection E as ->.
Qed.
Lemma FormatUint_inj_N z1 z2 : FormatUint z1 = FormatUint z2 → Z.to_N z1 = Z.to_N z2.
Proof. intros E. apply (inj Some). by rewrite -!FormatUint_value E. Qed.

Lemma amphora_id_fields lb i : ∃ l, split_on "-" (amphora_id lb i) = l ++ [FormatUint (Z.of_nat (S i)); "instance"].
Proof.
  rewrite /amphora_id. exists (split_on "-" lb ++ ["amp"]).
  change "-instance" with (String "-" "instance"). rewrite split_on_any.
  change "-amp-" with (String "-" ("amp" +:+ String "-" "")). simpl String.app at 2.
  rewrite split_on_any. rewrite -!app_assoc. f_equal.
  change (String "a" (String "m" (String "p" (String "-" (FormatUint (Z.of_nat (S i)))))))
    with ("amp" +:+ String "-" (FormatUint (Z.of_nat (S i)))).
  rewrite split_on_any (split_on_nochar _ (FormatUint _)); [apply FormatUint_no_dash|done].
Qed.
Lemma amphora_id_inj lb lb' i j : amphora_id lb i = amphora_id lb' j → i = j.
Proof.
  intros E. destruct (amphora_id_fields lb i) as [l Hl], (amphora_id_fields lb' j) as [l' Hl'].
  rewrite E Hl' in Hl. apply app_inj_2 in Hl as [_ Hl]; [|done]. injection Hl as Hl%FormatUint_inj_N. lia.
Qed.
Lemma wf_computes b : wf b → NoDup (Amp_ComputeID <$> B_amphorae b).
Proof.
  intros Hb. apply NoDup_alt. intros i j c. rewrite !list_lookup_fmap.
  intros (a & Ha & E)%fmap_Some (a' & Ha' & E')%fmap_Some.
  destruct (wf_amps b Hb _ _ Ha) as [Hc _], (wf_amps b Hb _ _ Ha') as [Hc' _].
  apply (amphora_id_inj (Amp_LoadBalancerID a) (Amp_LoadBalancerID a')). congruence.
Qed.

(** ** Every program *)

Lemma step_ok d b' ns rs ls : dsl_ok d → wf b' → grows (d_b d) b' →
  Forall (net_ok b') ns → Forall (lb_ok b') ls → dsl_ok (mkDsl b' ns rs ls).
Proof. by intros. Qed.
Lemma nets_grow d b' : dsl_ok d → grows (d_b d) b' → Forall (net_ok b') (d_nets d).
Proof. intros [] Hg. eapply Forall_impl; [done|]. intros n. by apply net_grows. Qed.
Lemma lbs_grow d b' : dsl_ok d → grows (d_b d) b' → Forall (lb_ok b') (d_lbs d).
Proof. intros [] Hg. eapply Forall_impl; [done|]. intros n. by apply declared_grows. Qed.
Lemma withB_ok d b' : dsl_ok d → wf b' ∧ grows (d_b d) b' → dsl_ok (withB d b').
Proof. intros Hd [Hw Hg]. split; simpl; [done|by apply nets_grow|by apply lbs_grow]. Qed.
Lemma withB_Some d o d' : dsl_ok d → (∀ b', o = Some b' → wf b' ∧ grows (d_b d) b') →
  withB d <$> o = Some d' → dsl_ok d'.
Proof. intros Hd Ho (b' & E & ->)%fmap_Some. by apply withB_ok, Ho. Qed.
Lemma net_at d i n : dsl_ok d → d_nets d !! i = Some n → net_ok (d_b d) n.
Proof. intros Hd Hi. eapply Forall_lookup_1; [apply (ok_nets d Hd)|done]. Qed.
Lemma lb_at d i r : dsl_ok d → d_lbs d !! i = Some r → lb_ok (d_b d) r.
Proof. intros Hd Hi. eapply Forall_lookup_1; [apply (ok_lbs d Hd)|done]. Qed.

Lemma exec_network k id project d : dsl_ok d →
  let '(b, n) := network_of k id project (d_b d) in dsl_ok (mkDsl b (d_nets d ++ [n]) (d_rtrs d) (d_lbs d)).
Proof.
  intros Hd. pose proof (ok_wf d Hd) as Hw.
  destruct k; simpl; (match goal with |- context [addNet ?n _] => destruct (addNet_ok n _ Hw) as [? ?] end);
    (split; simpl; [done|apply Forall_app; split; [by apply nets_grow|by apply Forall_singleton; intros []]|by apply lbs_grow]).
Qed.
Lemma exec_ok c d d' : dsl_ok d → exec c d = Some d' → dsl_ok d'.
Proof.
  intros Hd. pose proof (ok_wf d Hd) as Hw. destruct c; cbn [exec]; cbv zeta.
  - pose proof (exec_network k id project d Hd) as H. destruct (network_of _ _ _ _). by intros [= <-].
  - intros [= <-]. destruct (Router_ok id project _ Hw). split; simpl; [done|by apply nets_grow|by apply lbs_grow].
  - intros (n' & Hn & ([b' n2] & E & [= <-])%bind_Some)%bind_Some.
    destruct (Subnet_ok _ _ _ _ _ _ _ Hw E) as (Hb & Hg & Hn2).
    split; simpl; [done| |by apply lbs_grow]. apply Forall_insert; [by apply nets_grow|done].
  - intros (n' & Hn & E)%bind_Some. eapply withB_Some; [done| |done]. intros b'.
    apply attachPort_ok; [done|by eapply net_at|done].
  - intros (n' & Hn & E)%bind_Some. eapply withB_Some; [done| |done]. intros b'.
    apply attachPort_ok; [done|by eapply net_at|done].
  - intros (n' & Hn & E)%bind_Some. eapply withB_Some; [done| |done]. intros b'.
    apply attachPort_ok; [done|by eapply net_at|done].
  - intros (n' & Hn & E)%bind_Some. eapply withB_Some; [done| |done]. intros b' (net & _ & E')%bind_Some.
    by eapply attachPort_ok, E'; [|eapply net_at|].
  - apply withB_Some; [done|]. intros b'. by apply NIC_ok.
  - intros (r' & _ & E)%bind_Some. eapply withB_Some; [done| |done]. intros b'. by apply Attach_ok.
  - intros (r' & _ & E)%bind_Some. eapply withB_Some; [done| |done]. intros b'. by apply alterRouter_ok.
  - intros (r' & _ & E)%bind_Some. eapply withB_Some; [done| |done]. intros b'. by apply alterRouter_ok.
  - intros (n' & Hn & ([r' b'] & E & [= <-])%bind_Some)%bind_Some.
    destruct (LoadBalancer_ok _ _ _ _ _ _ _ _ _ Hw (net_at _ _ _ Hd Hn) E) as (Hb & Hg & Hr).
    split; simpl; [done|by apply nets_grow|]. apply Forall_app. split; [by apply lbs_grow|by apply Forall_singleton].
  - intros (r' & Hr & [= <-])%bind_Some. apply withB_ok; [done|]. apply alterDecl_ok; [done|by intros ? _ []|done].
  - intros (r' & Hr & E)%bind_Some. eapply withB_Some; [done| |done]. intros b'.
    apply Member_ok; [done|by eapply lb_at].
Qed.
Lemma declares_ok prog d d' : dsl_ok d → declares prog d = Some d' → dsl_ok d'.
Proof.
  induction prog as [|c prog IH] in d |- *; cbn [declares]; [by intros ? [= <-]|].
  intros Hd (d1 & E & E')%bind_Some. by eapply IH, E'; eapply exec_ok.
Qed.
Lemma start_dsl_ok : dsl_ok startDsl.
Proof. split; [split; try done|done|done]; by intros ? ?%elem_of_nil. Qed.

(** C40: The topologies the DSL builds are closed, whatever the program that declared
    them: every subnet is on a declared network and has its project; every port has
    exactly one address, on a declared subnet of the port's own network, or is the
    bare management port of a declared Amphora; an interface port names a declared
    router and has its project; every load balancer is declared to the live tier
    under the same owner, with its VIP port on the VIP's subnet and its members on
    declared subnets; and no two Amphorae, whatever they were named after, run on the same
    instance, the key the attribution joins on. *)
Theorem topology_declared prog d : declares prog startDsl = Some d →
  wf (d_b d) ∧ NoDup (Amp_ComputeID <$> Amphorae (Build (d_b d))).
Proof. intros E. destruct (declares_ok _ _ _ start_dsl_ok E) as [Hw _ _]. split; [done|by apply wf_computes]. Qed.

Module BuilderExamples.
(** A shared member network and an ACTIVE_STANDBY pair in front of two members. *)
Definition balanced : list call := [
  CNetwork Plain "net-T1" "T1"; CSubnet 0 "sub-T1" "10.0.1.0/24" "10.0.1.1"; CVM 0 "vm-a" "T1" "10.0.1.5";
  CNetwork Shared_ "net-s" "admin"; CSubnet 1 "sub-s" "10.9.0.0/24" ""; CVMInAZ 1 "vm-b" "T2" "az1" "10.9.0.6";
  CLoadBalancer 0 "lb" "T1" "service" "10.0.1.100" ActiveStandby; CListener 0 "TCP" 8080;
  CMember 0 "sub-T1" "10.0.1.5" 80; CMember 0 "sub-s" "10.9.0.6" 80; CNIC "vm-b" "sub-T1" "10.0.1.9";
  CNetwork External_ "net-ext" "admin"; CRouter "r" "T1"; CAttach 0 "sub-T1" "10.0.1.1"; CGateway 0 "net-ext";
  CExtraRoute 0 "10.9.0.0/24" "10.0.1.9"].
Definition view (d : Dsl) : list (string * string * string * list FixedIP) * list (string * string) :=
  ((λ p, (Port_ID p, Port_DeviceOwner p, Port_DeviceID p, Port_FixedIPs p)) <$> Ports (Build (d_b d)),
   (λ a, (Amp_ID a, Amp_LBNetworkIP a)) <$> Amphorae (Build (d_b d))).
Example balanced_ports : view <$> declares balanced startDsl = Some ([
  ("vm-a", "compute:nova", "vm-a-instance", [mkFixedIP "sub-T1" "10.0.1.5"]);
  ("vm-b", "compute:az1", "vm-b-instance", [mkFixedIP "sub-s" "10.9.0.6"]);
  ("lb-vip", "Octavia", "lb-lb", [mkFixedIP "sub-T1" "10.0.1.100"]);
  ("lb-amp-1-mgmt", "compute:nova", "lb-amp-1-instance", [mkFixedIP "sub-lb-mgmt" "10.254.1.11"]);
  ("lb-amp-1-vrrp", "compute:nova", "lb-amp-1-instance", [mkFixedIP "sub-T1" "10.0.1.201"]);
  ("lb-amp-2-mgmt", "compute:nova", "lb-amp-2-instance", [mkFixedIP "sub-lb-mgmt" "10.254.2.12"]);
  ("lb-amp-2-vrrp", "compute:nova", "lb-amp-2-instance", [mkFixedIP "sub-T1" "10.0.1.202"]);
  ("lb-member-sub-s-0", "compute:nova", "lb-amp-1-instance", [mkFixedIP "sub-s" "10.9.0.240"]);
  ("lb-member-sub-s-1", "compute:nova", "lb-amp-2-instance", [mkFixedIP "sub-s" "10.9.0.241"]);
  ("vm-b-nic-1", "compute:az1", "vm-b-instance", [mkFixedIP "sub-T1" "10.0.1.9"]);
  ("p-rif-r-1", "network:router_interface", "r", [mkFixedIP "sub-T1" "10.0.1.1"])],
  [("lb-amp-1", "10.254.1.11"); ("lb-amp-2", "10.254.2.12")]).
Proof. by vm_compute. Qed.
(** The panics: a port before any subnet, an extra NIC of no machine. *)
Example panics : declares [CNetwork Plain "n" "T1"; CVM 0 "vm" "T1" "10.0.0.5"] startDsl = None ∧
  declares [CNetwork Plain "n" "T1"; CSubnet 0 "s" "10.0.0.0/24" ""; CNIC "vm" "s" "10.0.0.5"] startDsl = None.
Proof. by vm_compute. Qed.
Definition balanced_d : Dsl := default startDsl (declares balanced startDsl).
Lemma topology_declared_witness : length (Amphorae (Build (d_b balanced_d))) = 2%nat ∧
  wf (d_b balanced_d) ∧ NoDup (Amp_ComputeID <$> Amphorae (Build (d_b balanced_d))).
Proof. split; [by vm_compute|]. apply (topology_declared balanced balanced_d). by vm_compute. Defined.
End BuilderExamples.
