(* ===== verification/Scenario.v ===== *)
(** * The scenario harness: its data, placement and lookups (internal/scenariotest)

    What a scenario, a configuration, a run-state and a cloud request are (scenario.go,
    config.go, runstate.go, cloud.go), the names of what a run creates (naming.go),
    where its machines are pinned (placement.go), the lookups of resolve.go, and the
    scrapes of several agents taken as one (metrics.go, aggregate.go). *)
From S2P Require Import Prelude GoStrings GoArgs GoJson Neutron Builder.
From Stdlib Require Import Ascii DecimalString SpecFloat.

(** ** Requests to the cloud (cloud.go) *)

Record NetworkSpec := mkNetworkSpec { NS_Name : string; NS_Shared : bool; NS_External : bool }.
Record SubnetSpec := mkSubnetSpec { SS_Name : string; SS_NetworkID : string; SS_CIDR : string; SS_GatewayIP : string }.
Record RouterSpec := mkRouterSpec { RtS_Name : string; RtS_ExternalNetworkID : string }.
Record AddressPair := mkAddressPair { AP_IP : string; AP_MAC : string }.
Record PortSpec := mkPortSpec {
  PS_Name : string; PS_NetworkID : string; PS_SubnetID : string; PS_FixedIP : string; PS_SecGroupID : string;
  PS_MACAddress : string; PS_PortSecurityOff : bool; PS_AllowedPairs : list AddressPair }.
Record ServerSpec := mkServerSpec {
  SvS_Name : string; SvS_FlavorID : string; SvS_ImageID : string; SvS_PortID : string;
  SvS_ExtraPortIDs : list string; SvS_KeypairName : string; SvS_AvailabilityZone : string }.
Record FIPCreateSpec := mkFIPCreateSpec {
  FS_ExternalNetworkID : string; FS_PortID : string; FS_FixedIP : string; FS_FloatingIP : string }.
Record LBSpec := mkLBSpec { LS_Name : string; LS_VIPSubnetID : string; LS_FlavorID : string }.
Record ListenerSpec := mkListenerSpec {
  LiS_Name : string; LiS_LoadBalancerID : string; LiS_Protocol : string; LiS_ProtocolPort : Z }.
Record PoolSpec := mkPoolSpec { PoS_Name : string; PoS_ListenerID : string; PoS_Protocol : string; PoS_LBAlgorithm : string }.
Record MemberSpec := mkMemberSpec {
  MS_Name : string; MS_PoolID : string; MS_Address : string; MS_ProtocolPort : Z; MS_SubnetID : string }.
Record AmphoraRef := mkAmphoraRef { AR_ID : string; AR_ComputeID : string; AR_LBNetworkIP : string; AR_Role : string }.
Record RouteSpec := mkRouteSpec { RS_Destination : string; RS_Nexthop : string }.
Record ServerRef := mkServerRef { SR_ID : string; SR_Name : string }.

(** ** Samples (metrics.go) *)

Record BytesSample := mkBytesSample {
  BS_TenantID : string; BS_Zone : string; BS_ExternalNetwork : string; BS_Direction : string;
  BS_Value : spec_float; BS_Node : string }.
Record ServerSample := mkServerSample {
  SvM_ServerID : string; SvM_TenantID : string; SvM_Zone : string; SvM_ExternalNetwork : string;
  SvM_Direction : string; SvM_Value : spec_float; SvM_Node : string }.
Record PortSample := mkPortSample {
  PM_PortID : string; PM_ServerID : string; PM_Zone : string; PM_Direction : string;
  PM_Value : spec_float; PM_Node : string }.

(** ** The run-state (runstate.go) *)

Definition Placement : Type := gmap string string.
Record ResourceRef := mkRef {
  Ref_DSLID : string; Ref_ID : string; Ref_Name : string; Ref_ProjectID : string; Ref_MAC : string;
  Ref_VIP : string; Ref_FIP : string; Ref_RouterInterface : bool }.
Record FIPRef := mkFIPRef {
  FR_VMID : string; FR_ID : string; FR_Address : string; FR_ProjectID : string; FR_Network : string }.
Record ProjectRef := mkProjectRef { PR_Name : string; PR_ID : string; PR_Created : bool }.
Record AttachRecord := mkAttach { AT_Target : spec_float; AT_Failures : spec_float }.
Record MigrationRecord := mkMigration { MR_VM : string; MR_From : string; MR_To : string }.
Record RunState := mkRunState {
  R_RunID : string; R_Scenario : string; R_Prefix : string; R_Projects : gmap string ProjectRef;
  R_Networks : list ResourceRef; R_Subnets : list ResourceRef; R_Routers : list ResourceRef;
  R_Ports : list ResourceRef; R_Servers : list ResourceRef; R_FIPs : list FIPRef;
  R_LoadBalancers : list ResourceRef; R_Attach : AttachRecord;
  R_AnomalyBaseline : gmap string spec_float; R_Placement : Placement; R_Migrations : list MigrationRecord;
  R_Baseline : list BytesSample; R_BaselineServers : list ServerSample; R_TornDown : bool }.
Definition fzero : spec_float := S754_zero false.
Definition NewRunState (runID scenario prefix : string) : RunState :=
  mkRunState runID scenario prefix ∅ [] [] [] [] [] [] [] (mkAttach fzero fzero) ∅ ∅ [] [] [] false.

(** ** The configuration (config.go) *)

Record OpenStackCreds := mkOSCreds {
  OC_CredentialsFile : string; OC_AuthURL : string; OC_Username : string; OC_Password : string;
  OC_ProjectName : string; OC_UserDomain : string; OC_ProjectDomain : string; OC_Region : string;
  OC_Interface : string; OC_RequestTimeout : Z }.
Record AgentConfig := mkAgentConfig { AC_Host : string; AC_MetricsURL : string; AC_SSHHost : string }.
Record ClusterConfig := mkCluster { CC_Name : string; Agents : list AgentConfig }.
Record SSHConfig := mkSSH { SSH_User : string; SSH_KeyPath : string; SSH_Timeout : Z }.
Record AgentControlConfig := mkAgentControl {
  Ctl_User : string; Ctl_KeyPath : string; Ctl_Timeout : Z; Ctl_Unit : string; Ctl_ConfigPath : string;
  Ctl_ReadyTimeout : Z; Ctl_WALPath : string; Ctl_PinPath : string }.
Record Prereqs := mkPrereqs {
  ImageName : string; FlavorName : string; KeypairName : string; SecGroupName : string;
  ExternalNetworkName : string; LBFlavorName : string }.
Record HarnessConfig := mkHarness {
  H_Version : string; H_OpenStack : OpenStackCreds; H_Cluster : ClusterConfig; H_Prerequisites : Prereqs;
  H_SSH : SSHConfig; H_AgentControl : AgentControlConfig; H_Prefix : string }.

(** [AgentConfig.SSHAddr] and [AgentControlConfig.SSHConfig]. *)
Definition SSHAddr (a : AgentConfig) : string := if decide (AC_SSHHost a = "") then AC_Host a else AC_SSHHost a.
Definition ctlSSHConfig (a : AgentControlConfig) : SSHConfig := mkSSH (Ctl_User a) (Ctl_KeyPath a) (Ctl_Timeout a).

Definition harnessDefaults : HarnessConfig := mkHarness "1"
  (mkOSCreds "" "" "" "" "" "default" "default" "" "" (30 * second)) (mkCluster "" [])
  (mkPrereqs "" "" "" "" "" "") (mkSSH "ubuntu" "" (60 * second))
  (mkAgentControl "root" "" (30 * second) "lachesis-agent" "" (90 * second) "" "") "scenariotest".

(** [filepath.Clean] and [filepath.Join] of two elements. *)
Definition cleanStep (rooted : bool) (acc : list string) (f : string) : list string :=
  if decide (f = "" ∨ f = ".") then acc
  else if decide (f = "..") then
    match acc with
    | [] => if rooted then [] else [".."]
    | top :: acc' => if decide (top = "..") then ".." :: acc else acc'
    end
  else f :: acc.
Definition Clean (p : string) : string :=
  let rooted := HasPrefix p "/" in
  let body := join_with "/" (rev (foldl (cleanStep rooted) [] (split_on "/" p))) in
  if decide (body = "") then (if rooted then "/" else ".") else (if rooted then "/" +:+ body else body).
Definition Join (a b : string) : string :=
  if decide (a = "") then (if decide (b = "") then "" else Clean b)
  else if decide (b = "") then Clean a else Clean (a +:+ "/" +:+ b).

(** [home] is what os.UserHomeDir answers, if it answers. *)
Definition expandHome (home : option string) (p : string) : string :=
  if HasPrefix p "~/" then match home with None => p | Some h => Join h (TrimPrefix p "~/") end else p.

(** The first problem found, by the field it is about. *)
Inductive cfgErr := BadVersion | BothCreds | NoCreds | NoCredsFile (path : string) | NoAgents
  | NoHost (i : nat) | NoMetricsURL (i : nat) | Required (field : string).
Definition credsInline (o : OpenStackCreds) : bool :=
  bool_decide (OC_AuthURL o ≠ "" ∨ OC_Username o ≠ "" ∨ OC_Password o ≠ "" ∨ OC_ProjectName o ≠ "").
Definition credsValidate (home : option string) (exists_ : string → bool) (o : OpenStackCreds) : option cfgErr :=
  if decide (OC_CredentialsFile o ≠ "" ∧ credsInline o = true) then Some BothCreds
  else if decide (OC_CredentialsFile o = "" ∧ credsInline o = false) then Some NoCreds
  else if decide (OC_CredentialsFile o ≠ "" ∧ exists_ (expandHome home (OC_CredentialsFile o)) = false)
  then Some (NoCredsFile (OC_CredentialsFile o)) else None.
Fixpoint agentsValidate (i : nat) (l : list AgentConfig) : option cfgErr :=
  match l with
  | [] => None
  | a :: l =>
      if decide (AC_Host a = "") then Some (NoHost i)
      else if decide (AC_MetricsURL a = "") then Some (NoMetricsURL i) else agentsValidate (S i) l
  end.
Fixpoint required (l : list (string * string)) : option cfgErr :=
  match l with [] => None | (f, v) :: l => if decide (v = "") then Some (Required f) else required l end.
Definition harnessValidate (home : option string) (exists_ : string → bool) (c : HarnessConfig) : option cfgErr :=
  if decide (H_Version c ≠ "1") then Some BadVersion
  else match credsValidate home exists_ (H_OpenStack c) with
  | Some e => Some e
  | None =>
      if decide (Agents (H_Cluster c) = []) then Some NoAgents
      else match agentsValidate 0 (Agents (H_Cluster c)) with
      | Some e => Some e
      | None =>
          let p := H_Prerequisites c in
          required [("prerequisites.image_name", ImageName p); ("prerequisites.flavor_name", FlavorName p);
            ("prerequisites.keypair_name", KeypairName p); ("prerequisites.secgroup_name", SecGroupName p);
            ("prerequisites.external_network_name", ExternalNetworkName p);
            ("ssh.key_path", SSH_KeyPath (H_SSH c)); ("naming.prefix", H_Prefix c)]
      end
  end.

(** ** Scenarios (scenario.go, step.go) *)

Inductive Policy := ReuseOrCreate | ForceFresh.
#[export] Instance Policy_eq_dec : EqDecision Policy.
Proof. solve_decision. Defined.
Record FIPSpec := mkFIPSpec { FIPS_ExternalNet : string; FIPS_FixedIP : string }.
Record FlowTarget := mkTarget { T_VMID : string; T_IP : string; T_FIPOf : string; T_LBID : string; T_LBFIPOf : string }.
Definition VMTarget (vm : string) : FlowTarget := mkTarget vm "" "" "" "".
Definition ExternalTarget (ip : string) : FlowTarget := mkTarget "" ip "" "" "".
Definition FIPTarget (vm : string) : FlowTarget := mkTarget "" "" vm "" "".
Definition LBFIPTarget (lb : string) : FlowTarget := mkTarget "" "" "" "" lb.
Definition VIPTarget (lb : string) : FlowTarget := mkTarget "" "" "" lb "".
Inductive Protocol := TCP | UDP.
Record Flow := mkFlow { Flow_From : string; Flow_To : FlowTarget; Flow_Bytes : Z; Flow_Proto : Protocol }.
Record Expect := mkExpect {
  E_TenantID : string; E_Zone : string; E_Direction : string; E_ExternalNetwork : string; E_VM : string;
  E_Node : string; E_MinBytes : Z }.
Record HostNeeds := mkNeeds { AgentSSH : bool; NeedWALPath : bool; NeedPinPath : bool }.
(** A step, as the core sees it: what it needs of the hosts, when it declares anything. *)
Record Scenario := mkScenario {
  Sc_Name : string; Sc_Builder : option Builder; Sc_Flavor : string; Sc_Placement : Placement;
  Sc_Projects : gmap string Policy; Sc_FIPs : gmap string FIPSpec; Sc_Flows : list Flow; Sc_Expect : list Expect;
  Sc_CreateExternalNets : list string; Sc_Deferred : list string; Sc_Steps : list (option HostNeeds) }.

(** ** Names (naming.go, runstate.go, report.go) *)

(** [strings.TrimSuffix] *)
Definition TrimSuffix (s p : string) : string :=
  if HasSuffix s p then String.substring 0 (String.length s - String.length p) s else s.

Definition Mangle (prefix runID dslID : string) : string := prefix +:+ "-" +:+ runID +:+ "-" +:+ dslID.
Definition MangleProject (prefix dslID : string) : string := prefix +:+ "-" +:+ dslID.
(** Three random bytes in hexadecimal. *)
Definition hexChar (z : Z) : ascii := ascii_of_N (Z.to_N (if decide (z < 10) then 48 + z else 87 + z)).
Definition hex2 (z : Z) : string := String (hexChar (z / 16)) (String (hexChar (z `mod` 16)) EmptyString).
Definition NewRunID (b0 b1 b2 : Z) : string := hex2 b0 +:+ hex2 b1 +:+ hex2 b2.
Definition DefaultStatePath (prefix runID : string) : string :=
  Join ".scenariotest" (prefix +:+ "-" +:+ runID +:+ ".json").
Definition DefaultReportPath (statePath : string) : string :=
  TrimSuffix statePath ".json"
  +:+ "-report.json".

(** ** Placement (placement.go) *)

(** [strconv.Atoi] on a 64-bit platform. *)
Definition Atoi (s : string) : option Z :=
  let '(neg, d) := match s with
    | String a s' => if decide (a = "-"%char) then (true, s') else if decide (a = "+"%char) then (false, s') else (false, s)
    | EmptyString => (false, s)
    end in
  d ← NilZero.uint_of_string d;
  let z := Z.of_N (N.of_uint d) in
  let z := if neg : bool then - z else z in
  if decide (int64_range z) then Some z else None.

Definition slotPrefix : string := "node:".
Inductive slot := Literal | Malformed | Slot (idx : Z).
Definition slotIndex (val : string) : slot :=
  if HasPrefix val slotPrefix then
    match Atoi (TrimPrefix val slotPrefix) with
    | None => Malformed
    | Some idx => if decide (idx < 0) then Malformed else Slot idx
    end
  else Literal.

Section placement.
Context `{GoRange}.

Definition RequiredNodes (sc : Scenario) : Z :=
  foldl (λ req kv, match slotIndex kv.2 with Slot idx => if decide (req < idx + 1) then idx + 1 else req | _ => req end)
    0 (go_range (Sc_Placement sc)).
Definition NeedsLBFlavor (sc : Scenario) : bool :=
  match Sc_Builder sc with
  | None => false
  | Some b => bool_decide (Exists (λ d, LBD_Topology d = ActiveStandby) (LoadBalancers b))
  end.
Definition scenarioHostNeeds (sc : Scenario) : HostNeeds :=
  foldl (λ n st, match st with
    | None => n
    | Some m => mkNeeds (AgentSSH n || AgentSSH m) (NeedWALPath n || NeedWALPath m) (NeedPinPath n || NeedPinPath m)
    end) (mkNeeds false false false) (Sc_Steps sc).
Definition anyMalformed (sc : Scenario) : bool :=
  existsb (λ kv, match slotIndex kv.2 with Malformed => true | _ => false end) (go_range (Sc_Placement sc)).
Inductive skip := TooFewNodes (req agents : Z) | NoKeyPath | NoWALPath | NoPinPath | NoLBFlavor.
(** [None] is the empty reason: the scenario can run. *)
Definition SkipReason (sc : Scenario) (cfg : HarnessConfig) : option skip :=
  let agents := Z.of_nat (length (Agents (H_Cluster cfg))) in
  let ctl := H_AgentControl cfg in
  let needs := scenarioHostNeeds sc in
  if anyMalformed sc then None
  else if decide (agents < RequiredNodes sc) then Some (TooFewNodes (RequiredNodes sc) agents)
  else if AgentSSH needs && bool_decide (Ctl_KeyPath ctl = "") then Some NoKeyPath
  else if NeedWALPath needs && bool_decide (Ctl_WALPath ctl = "") then Some NoWALPath
  else if NeedPinPath needs && bool_decide (Ctl_PinPath ctl = "") then Some NoPinPath
  else if NeedsLBFlavor sc && bool_decide (LBFlavorName (H_Prerequisites cfg) = "") then Some NoLBFlavor
  else None.

Inductive nodeErr := BadSlot (val : string) | OutOfRange (val : string) (agents : nat) | NotAnAgent (val : string)
  | NodeRequired (agents : nat) | NoEntry (host : string).
Definition ResolveNode (val : string) (agents : list AgentConfig) : nodeErr + string :=
  match slotIndex val with
  | Malformed => inl (BadSlot val)
  | Slot idx =>
      match agents !! Z.to_nat idx with
      | Some a => inr (AC_Host a)
      | None => inl (OutOfRange val (length agents))
      end
  | Literal => if decide (Exists (λ a, AC_Host a = val) agents) then inr val else inl (NotAnAgent val)
  end.
Definition PlacementAZ (p : Placement) (vm : string) : string :=
  let host := default "" (p !! vm) in if decide (host = "") then "" else "nova:" +:+ host.

Inductive placeErr := BadPlacement (val vm : string) | PlacementRange (val vm : string) (agents : nat).
Fixpoint resolveRows (agents : list AgentConfig) (rows : list (string * string)) (resolved : Placement)
    : placeErr + Placement :=
  match rows with
  | [] => inr resolved
  | (vm, val) :: rows =>
      match slotIndex val with
      | Literal => resolveRows agents rows (<[vm := val]> resolved)
      | Malformed => inl (BadPlacement val vm)
      | Slot idx =>
          match agents !! Z.to_nat idx with
          | None => inl (PlacementRange val vm (length agents))
          | Some a => resolveRows agents rows (<[vm := AC_Host a]> resolved)
          end
      end
  end.
Definition ResolvePlacement (p : Placement) (agents : list AgentConfig) : placeErr + Placement :=
  resolveRows agents (go_range p) ∅.
End placement.

(** ** Lookups (resolve.go) *)

Definition LiveID (refs : list ResourceRef) (dslID : string) : string :=
  default "" (Ref_ID ∘ snd <$> list_find (λ r, Ref_DSLID r = dslID) refs).
Definition ServerIDFor (rs : RunState) (vm : string) : option string :=
  Ref_ID ∘ snd <$> list_find (λ r, Ref_DSLID r = vm) (R_Servers rs).
Definition FlavorFor (cfg : HarnessConfig) (sc : Scenario) : string :=
  if decide (Sc_Flavor sc = "") then FlavorName (H_Prerequisites cfg) else Sc_Flavor sc.
Definition AgentURLs (cfg : HarnessConfig) : list string := AC_MetricsURL <$> Agents (H_Cluster cfg).
Definition AgentForNode (cfg : HarnessConfig) (node : string) : nodeErr + AgentConfig :=
  let agents := Agents (H_Cluster cfg) in
  if decide (node = "") then
    match agents with [a] => inr a | _ => inl (NodeRequired (length agents)) end
  else match ResolveNode node agents with
  | inl e => inl e
  | inr host =>
      match list_find (λ a, AC_Host a = host) agents with
      | Some (_, a) => inr a
      | None => inl (NoEntry host)
      end
  end.
(** [^[A-Za-z0-9@%.:_/+-]+$] over the whole token. *)
Definition shellChar (a : ascii) : bool :=
  let n := N_of_ascii a in
  bool_decide ((65 ≤ n ∧ n ≤ 90) ∨ (97 ≤ n ∧ n ≤ 122) ∨ (48 ≤ n ∧ n ≤ 57))%N
  || existsb (Ascii.eqb a) (String.list_ascii_of_string "@%.:_/+-").
Definition ShellSafe (v : string) : bool :=
  negb (bool_decide (v = "")) && forallb shellChar (String.list_ascii_of_string v).

(** ** Several agents as one (metrics.go, aggregate.go) *)

Definition MetricBytesTotal : string := "lachesis_tenant_bytes_total".
Definition MetricAttachedInterfaces : string := "lachesis_attached_interfaces".
Record ScrapeResult := mkScrape {
  Sp_Present : gset string; Sp_AttachedInterfaces : spec_float; Sp_AttachFailures : spec_float;
  Sp_SettledFlows : spec_float; Sp_SettledTuples : spec_float; Sp_UnresolvedResolved : spec_float;
  Sp_LingeringGhosts : spec_float; Sp_Bytes : list BytesSample; Sp_Servers : list ServerSample;
  Sp_PortBytes : list PortSample; Sp_PressureReliefEvictions : spec_float; Sp_ReattachHealed : spec_float;
  Sp_Anomalies : gmap string spec_float; Sp_CountersResetEpoch : spec_float }.
Record MetricsSnapshot := mkMetrics {
  M_AttachedInterfaces : spec_float; M_AttachFailures : spec_float; M_SettledFlows : spec_float;
  M_SettledTuples : spec_float; M_UnresolvedResolved : spec_float; M_LingeringGhosts : spec_float;
  M_Bytes : list BytesSample; M_Servers : list ServerSample; M_PortBytes : list PortSample;
  M_PressureReliefEvictions : spec_float; M_ReattachHealed : spec_float; M_Anomalies : gmap string spec_float;
  M_CountersResetEpochs : gmap string spec_float }.
Definition noMetrics : MetricsSnapshot :=
  mkMetrics fzero fzero fzero fzero fzero fzero [] [] [] fzero fzero ∅ ∅.

Definition fadd : spec_float → spec_float → spec_float := SFadd 53 1024.
Definition fsub : spec_float → spec_float → spec_float := SFsub 53 1024.
(** [a > b] on float64: false on a NaN. *)
Definition fgt (a b : spec_float) : bool := SFltb b a.
Definition fge (a b : spec_float) : bool := SFleb b a.

Section aggregate.
Context `{GoRange}.

Definition maxAnomaly (acc : gmap string spec_float) (kv : string * spec_float) : gmap string spec_float :=
  if fgt kv.2 (default fzero (acc !! kv.1)) then <[kv.1 := kv.2]> acc else acc.
Definition addScrape (a : AgentConfig) (r : ScrapeResult) (snap : MetricsSnapshot) : MetricsSnapshot := mkMetrics
  (fadd (M_AttachedInterfaces snap) (Sp_AttachedInterfaces r)) (fadd (M_AttachFailures snap) (Sp_AttachFailures r))
  (fadd (M_SettledFlows snap) (Sp_SettledFlows r)) (fadd (M_SettledTuples snap) (Sp_SettledTuples r))
  (fadd (M_UnresolvedResolved snap) (Sp_UnresolvedResolved r)) (fadd (M_LingeringGhosts snap) (Sp_LingeringGhosts r))
  (M_Bytes snap ++ ((λ s, mkBytesSample (BS_TenantID s) (BS_Zone s) (BS_ExternalNetwork s) (BS_Direction s)
     (BS_Value s) (AC_Host a)) <$> Sp_Bytes r))
  (M_Servers snap ++ ((λ s, mkServerSample (SvM_ServerID s) (SvM_TenantID s) (SvM_Zone s) (SvM_ExternalNetwork s)
     (SvM_Direction s) (SvM_Value s) (AC_Host a)) <$> Sp_Servers r))
  (M_PortBytes snap ++ ((λ s, mkPortSample (PM_PortID s) (PM_ServerID s) (PM_Zone s) (PM_Direction s)
     (PM_Value s) (AC_Host a)) <$> Sp_PortBytes r))
  (fadd (M_PressureReliefEvictions snap) (Sp_PressureReliefEvictions r))
  (fadd (M_ReattachHealed snap) (Sp_ReattachHealed r))
  (foldl maxAnomaly (M_Anomalies snap) (go_range (Sp_Anomalies r)))
  (<[AC_Host a := Sp_CountersResetEpoch r]> (M_CountersResetEpochs snap)).
Definition CheckRequiredMetrics (res : ScrapeResult) : option string :=
  snd <$> list_find (λ m, m ∉ Sp_Present res) [MetricBytesTotal; MetricAttachedInterfaces].

Record Tuple := mkTuple { Tu_Tenant : string; Tu_Zone : string; Tu_Direction : string }.
Record ExtTuple := mkExtTuple { Xt_Tenant : string; Xt_Zone : string; Xt_Ext : string; Xt_Direction : string }.
Record ServerTuple := mkServerTuple { Vt_Server : string; Vt_Zone : string; Vt_Ext : string; Vt_Direction : string }.
#[export] Instance Tuple_eq_dec : EqDecision Tuple.
Proof. solve_decision. Defined.
#[export] Instance ExtTuple_eq_dec : EqDecision ExtTuple.
Proof. solve_decision. Defined.
#[export] Instance ServerTuple_eq_dec : EqDecision ServerTuple.
Proof. solve_decision. Defined.
#[export] Instance Tuple_countable : Countable Tuple.
Proof.
  refine (inj_countable' (λ t, (Tu_Tenant t, Tu_Zone t, Tu_Direction t)) (λ x, mkTuple x.1.1 x.1.2 x.2) _). by intros [].
Defined.
#[export] Instance ExtTuple_countable : Countable ExtTuple.
Proof.
  refine (inj_countable' (λ t, (Xt_Tenant t, Xt_Zone t, Xt_Ext t, Xt_Direction t))
    (λ x, mkExtTuple x.1.1.1 x.1.1.2 x.1.2 x.2) _). by intros [].
Defined.
#[export] Instance ServerTuple_countable : Countable ServerTuple.
Proof.
  refine (inj_countable' (λ t, (Vt_Server t, Vt_Zone t, Vt_Ext t, Vt_Direction t))
    (λ x, mkServerTuple x.1.1.1 x.1.1.2 x.1.2 x.2) _). by intros [].
Defined.

(** [m[k] += v] over the samples, in their order. *)
Definition sumInto {K} `{Countable K} (m : gmap K spec_float) (kv : K * spec_float) : gmap K spec_float :=
  <[kv.1 := fadd (default fzero (m !! kv.1)) kv.2]> m.
Definition SumByTuple (l : list BytesSample) : gmap Tuple spec_float :=
  foldl sumInto ∅ ((λ s, (mkTuple (BS_TenantID s) (BS_Zone s) (BS_Direction s), BS_Value s)) <$> l).
Definition SumByExtTuple (l : list BytesSample) : gmap ExtTuple spec_float :=
  foldl sumInto ∅ ((λ s, (mkExtTuple (BS_TenantID s) (BS_Zone s) (BS_ExternalNetwork s) (BS_Direction s), BS_Value s)) <$> l).
Definition SumByServerTuple (l : list ServerSample) : gmap ServerTuple spec_float :=
  foldl sumInto ∅ ((λ s, (mkServerTuple (SvM_ServerID s) (SvM_Zone s) (SvM_ExternalNetwork s) (SvM_Direction s), SvM_Value s)) <$> l).
Definition HasNodeInfo (bytes : list BytesSample) (servers : list ServerSample) : bool :=
  existsb (λ s, bool_decide (BS_Node s ≠ "")) bytes || existsb (λ s, bool_decide (SvM_Node s ≠ "")) servers.
Definition SumBytesOnNode (l : list BytesSample) (node tenant zone ext direction : string) : spec_float :=
  foldl (λ total s,
    if decide (BS_Node s ≠ node ∨ BS_TenantID s ≠ tenant ∨ BS_Zone s ≠ zone ∨ BS_Direction s ≠ direction) then total
    else if decide (ext ≠ "" ∧ BS_ExternalNetwork s ≠ ext) then total
    else fadd total (BS_Value s)) fzero l.
Definition SumServersOnNode (l : list ServerSample) (node server zone ext direction : string) : spec_float :=
  foldl (λ total s,
    if decide (SvM_Node s ≠ node ∨ SvM_ServerID s ≠ server ∨ SvM_Zone s ≠ zone ∨ SvM_Direction s ≠ direction) then total
    else if decide (ext ≠ "" ∧ SvM_ExternalNetwork s ≠ ext) then total
    else fadd total (SvM_Value s)) fzero l.
Definition SumServer (m : gmap ServerTuple spec_float) (server zone ext direction : string) : spec_float :=
  if decide (ext ≠ "") then default fzero (m !! mkServerTuple server zone ext direction)
  else foldl (λ total kv,
    if decide (Vt_Server kv.1 = server ∧ Vt_Zone kv.1 = zone ∧ Vt_Direction kv.1 = direction)
    then fadd total kv.2 else total) fzero (go_range m).
End aggregate.

(** ** Placement: skipped, refused or resolved *)

Section placement_spec.
Context `{GoRange}.
Implicit Types (sc : Scenario) (cfg : HarnessConfig) (agents : list AgentConfig).

Lemma slotIndex_nonneg val idx : slotIndex val = Slot idx → 0 ≤ idx.
Proof. rewrite /slotIndex. destruct (HasPrefix _ _); [|done]. destruct (Atoi _); [|done]. case_decide; [done|]. intros [= <-]. lia. Qed.
Lemma RequiredNodes_rows (l : list (string * string)) req n : 0 ≤ req →
  foldl (λ req kv, match slotIndex kv.2 with Slot idx => if decide (req < idx + 1) then idx + 1 else req | _ => req end)
    req l ≤ n ↔ req ≤ n ∧ ∀ vm val idx, (vm, val) ∈ l → slotIndex val = Slot idx → idx < n.
Proof.
  induction l as [|[vm val] l IH] in req |- *; intros Hr; csimpl.
  { split; [|by intros []]. intros ?. split; [done|]. intros ??? Hin. by apply elem_of_nil in Hin. }
  assert (∀ k, (∀ vm0 val0 idx, (vm0, val0) ∈ (vm, val) :: l → slotIndex val0 = Slot idx → idx < k) ↔
    (∀ idx, slotIndex val = Slot idx → idx < k) ∧
    ∀ vm0 val0 idx, (vm0, val0) ∈ l → slotIndex val0 = Slot idx → idx < k) as Hcons.
  { intros k. split.
    - intros Ha. split; [intros idx; apply (Ha vm val); left|]. intros vm0 val0 idx Hin. apply (Ha vm0 val0). by right.
    - intros [H1 H2] vm0 val0 idx [[= -> ->]|Hin]%elem_of_cons; [by apply H1|by apply (H2 vm0)]. }
  rewrite Hcons. destruct (slotIndex val) as [| |idx] eqn:E; [rewrite IH //; naive_solver..|].
  pose proof (slotIndex_nonneg _ _ E). case_decide; rewrite IH; try lia; split.
  - intros [? ?]. split_and!; [lia| |done]. intros ? [= <-]. lia.
  - intros (? & Hi & ?). specialize (Hi _ eq_refl). split; [lia|done].
  - intros [? ?]. split_and!; [lia| |done]. intros ? [= <-]. lia.
  - intros (? & Hi & ?). by split.
Qed.
Lemma RequiredNodes_le sc (n : nat) : RequiredNodes sc ≤ Z.of_nat n ↔
  ∀ vm val idx, Sc_Placement sc !! vm = Some val → slotIndex val = Slot idx → idx < Z.of_nat n.
Proof.
  rewrite /RequiredNodes RequiredNodes_rows //. split.
  - intros [_ Ha] vm val idx Hv. apply (Ha vm val). by apply elem_of_go_range.
  - intros Ha. split; [lia|]. intros vm val idx Hin. apply (Ha vm val). by apply elem_of_go_range.
Qed.
Lemma anyMalformed_false sc : anyMalformed sc = false ↔
  ∀ vm val, Sc_Placement sc !! vm = Some val → slotIndex val ≠ Malformed.
Proof.
  rewrite /anyMalformed. rewrite -not_true_iff_false existsb_exists. split.
  - intros Hn vm val Hv Hm. apply Hn. exists (vm, val). rewrite Hm. split; [|done].
    by apply list_elem_of_In, elem_of_go_range.
  - intros Ha ([vm val] & Hin%list_elem_of_In%elem_of_go_range & Hm). simpl in Hm.
    specialize (Ha _ _ Hin). by destruct (slotIndex val).
Qed.

(** Where a value pins a machine. *)
Definition placed (agents : list AgentConfig) (val : string) : string :=
  match slotIndex val with
  | Slot idx => default val (AC_Host <$> agents !! Z.to_nat idx)
  | _ => val
  end.
Definition can_place (agents : list AgentConfig) (val : string) : Prop :=
  match slotIndex val with Slot idx => idx < Z.of_nat (length agents) | Malformed => False | Literal => True end.

Lemma resolveRows_ok agents rows resolved : (∀ vm val, (vm, val) ∈ rows → can_place agents val) →
  resolveRows agents rows resolved = inr (foldl (λ m kv, <[kv.1 := placed agents kv.2]> m) resolved rows).
Proof.
  induction rows as [|[vm val] rows IH] in resolved |- *; intros Hc; [done|]. cbn [resolveRows foldl].
  assert (∀ vm val, (vm, val) ∈ rows → can_place agents val) as Hc' by (intros v w Hin; apply (Hc v); by right).
  specialize (Hc vm val ltac:(left)). rewrite /can_place in Hc. rewrite /placed /=.
  destruct (slotIndex val) as [| |idx] eqn:E; [by apply IH|done|].
  pose proof (slotIndex_nonneg _ _ E).
  destruct (lookup_lt_is_Some_2 agents (Z.to_nat idx)) as [a Ha]; [lia|]. rewrite Ha. by apply IH.
Qed.
Lemma resolveRows_err agents rows resolved vm val : (vm, val) ∈ rows → ¬ can_place agents val →
  ∃ e, resolveRows agents rows resolved = inl e.
Proof.
  induction rows as [|[vm0 val0] rows IH] in resolved |- *; [by intros ?%elem_of_nil|]. cbn [resolveRows].
  intros [[= <- <-]|Hin]%elem_of_cons Hc.
  - rewrite /can_place in Hc. destruct (slotIndex val) as [| |idx] eqn:E; [done|by eexists|].
    pose proof (slotIndex_nonneg _ _ E). rewrite lookup_ge_None_2; [lia|by eexists].
  - destruct (slotIndex val0); [by apply IH|by eexists|]. destruct (agents !! _); [by apply IH|by eexists].
Qed.
Lemma range_fmap {V W} (f : V → W) (m : gmap string V) :
  foldl (λ m kv, <[kv.1 := f kv.2]> m) ∅ (go_range m) = f <$> m.
Proof.
  assert (∀ l acc, foldl (λ m kv, <[kv.1 := f kv.2]> m) acc l = insertAll (prod_map id f <$> (l : list (string * V))) acc) as Hf.
  { induction l as [|[k v] l IH]; intros acc; [done|]. simpl. by rewrite IH. }
  rewrite Hf. apply map_eq. intros k. rewrite lookup_fmap.
  assert (NoDup (prod_map id f <$> go_range m).*1) as Hnd.
  { replace ((prod_map id f <$> go_range m).*1) with (go_range m).*1; [apply NoDup_go_range|].
    rewrite -list_fmap_compose. apply list_fmap_ext. by intros ? [] ?. }
  destruct (m !! k) as [v|] eqn:E; simpl.
  - apply insertAll_lookup; [done|]. apply list_elem_of_fmap. exists (k, v). split; [done|by apply elem_of_go_range].
  - rewrite insertAll_notin //. intros ([? w] & -> & ([k' v] & [= -> ->] & Hv%elem_of_go_range)%list_elem_of_fmap)%list_elem_of_fmap.
    by simpl in E; congruence.
Qed.

(** What becomes of a scenario's placement, on every cluster: it is resolved, every
    slot to the configured agent of its index and every literal to itself, exactly
    when no slot is malformed and the cluster has the nodes it asks for; a cluster that
    is too small skips the scenario, naming what it needs; and a malformed slot is never
    skipped, whatever the cluster, but refused. *)
Theorem placement_outcome sc cfg : let agents := Agents (H_Cluster cfg) in
  match ResolvePlacement (Sc_Placement sc) agents with
  | inr p => p = placed agents <$> Sc_Placement sc ∧ anyMalformed sc = false ∧
      RequiredNodes sc ≤ Z.of_nat (length agents)
  | inl _ => (anyMalformed sc = true ∧ SkipReason sc cfg = None) ∨
      SkipReason sc cfg = Some (TooFewNodes (RequiredNodes sc) (Z.of_nat (length agents)))
  end.
Proof.
  cbv zeta. set (agents := Agents (H_Cluster cfg)). rewrite /ResolvePlacement /SkipReason -/agents.
  destruct (anyMalformed sc) eqn:Em.
  { assert (∃ vm val, (vm, val) ∈ go_range (Sc_Placement sc) ∧ slotIndex val = Malformed) as (vm & val & Hin & Hs).
    { apply existsb_exists in Em as ([vm val] & Hin & Hs). exists vm, val. split; [by apply list_elem_of_In|].
      simpl in Hs. by destruct (slotIndex val). }
    destruct (resolveRows_err agents _ ∅ vm val Hin) as [e ->]; [rewrite /can_place Hs; tauto|]. by left. }
  pose proof (proj1 (anyMalformed_false sc) Em) as Hm.
  destruct (decide (Z.of_nat (length agents) < RequiredNodes sc)) as [Hlt|Hge].
  - assert (¬ ∀ vm val idx, Sc_Placement sc !! vm = Some val → slotIndex val = Slot idx →
      idx < Z.of_nat (length agents)) as Hn by (rewrite -RequiredNodes_le; lia).
    destruct (resolveRows agents (go_range (Sc_Placement sc)) ∅) as [e|p] eqn:E; [by right|].
    destruct Hn. intros vm val idx Hv%elem_of_go_range Hs.
    destruct (decide (idx < Z.of_nat (length agents))) as [|Hge]; [done|].
    destruct (resolveRows_err agents _ ∅ vm val Hv) as [e' E']; [rewrite /can_place Hs; lia|congruence].
  - rewrite resolveRows_ok; [|split; [apply range_fmap|split; [done|lia]]].
    intros vm val Hin%elem_of_go_range. rewrite /can_place. specialize (Hm _ _ Hin).
    destruct (slotIndex val) as [| |idx] eqn:E; [done..|].
    clear Hm. revert vm val idx Hin E. apply RequiredNodes_le. lia.
Qed.

(** A node target that resolves is a configured agent, so the lookup after it finds one. *)
Lemma ResolveNode_agent val agents host : ResolveNode val agents = inr host → Exists (λ a, AC_Host a = host) agents.
Proof.
  rewrite /ResolveNode. destruct (slotIndex val) as [| |idx]; [|done|].
  - case_decide; [by intros [= <-]|done].
  - destruct (agents !! _) as [a|] eqn:E; [|done]. intros [= <-]. apply Exists_exists. exists a.
    split; [by apply list_elem_of_lookup_2 in E|done].
Qed.
Lemma AgentForNode_agent cfg node : match AgentForNode cfg node with
  | inr a => a ∈ Agents (H_Cluster cfg)
  | inl (NoEntry _) => False
  | inl _ => True
  end.
Proof.
  rewrite /AgentForNode. case_decide.
  { destruct (Agents (H_Cluster cfg)) as [|a [|]]; [done| |done]. by apply list_elem_of_singleton. }
  destruct (ResolveNode node _) as [e|host] eqn:E.
  { revert E. rewrite /ResolveNode. destruct (slotIndex node); [case_decide; [done|]|..|destruct (_ !! _); [done|]];
      by intros [= <-]. }
  apply ResolveNode_agent in E. destruct (list_find _ _) as [[i a]|] eqn:Ef.
  - apply list_find_Some in Ef as (Ef & _). by apply list_elem_of_lookup_2 in Ef.
  - apply list_find_None in Ef. rewrite Exists_exists in E. destruct E as (a & Hin & Ha).
    rewrite Forall_forall in Ef. by destruct (Ef a Hin).
Qed.
End placement_spec.

(** ** The names of a run do not meet another's *)

Lemma prefix_HasPrefix s p : HasPrefix (p +:+ s) p = true.
Proof. rewrite /HasPrefix. induction p as [|a p IH]; simpl; [by destruct s|]. destruct (Ascii.ascii_dec a a); [done|congruence]. Qed.
Lemma HasPrefix_split s p : HasPrefix s p = true → ∃ t, s = p +:+ t.
Proof.
  rewrite /HasPrefix. induction p as [|a p IH] in s |- *; simpl; [by exists s|].
  destruct s as [|b s]; simpl; [done|]. destruct (Ascii.ascii_dec a b) as [->|]; [|done].
  intros (t & ->)%IH. by exists t.
Qed.
Lemma append_inj_l p s t : p +:+ s = p +:+ t → s = t.
Proof. induction p as [|a p IH]; simpl; [done|]. by intros [= ?%IH]. Qed.
Lemma append_inj_length s1 s2 t1 t2 : String.length s1 = String.length s2 → s1 +:+ t1 = s2 +:+ t2 → s1 = s2.
Proof.
  induction s1 as [|a s1 IH] in s2 |- *; destruct s2 as [|b s2]; simpl; try done.
  intros [= Hl] [= -> E]. by rewrite (IH s2).
Qed.
Lemma cat_assoc (a b c : string) : (a +:+ b) +:+ c = a +:+ b +:+ c.
Proof. induction a as [|x a IH]; [done|]. by change (String x ((a +:+ b) +:+ c) = String x (a +:+ (b +:+ c))); rewrite IH. Qed.
Lemma Mangle_prefix prefix r dsl : Mangle prefix r dsl = Mangle prefix r "" +:+ dsl.
Proof. by rewrite /Mangle !cat_assoc. Qed.
(** Under one naming prefix, a resource of another run never has the prefix of this run. *)
Lemma Mangle_own prefix r1 r2 dsl : String.length r1 = String.length r2 →
  HasPrefix (Mangle prefix r2 dsl) (Mangle prefix r1 "") = true ↔ r1 = r2.
Proof.
  intros Hl. split.
  - intros [t E]%HasPrefix_split. rewrite /Mangle !cat_assoc in E. apply append_inj_l, (append_inj_l "-") in E.
    by apply append_inj_length in E.
  - intros ->. rewrite Mangle_prefix. apply prefix_HasPrefix.
Qed.
(** Across prefixes it may: "a" run "b" reaches the run "c" of "a-b". *)
Example Mangle_other_prefix : HasPrefix (Mangle "a-b" "c" "vm") (Mangle "a" "b" "") = true.
Proof. done. Qed.
Lemma NewRunID_length b0 b1 b2 : String.length (NewRunID b0 b1 b2) = 6%nat.
Proof. done. Qed.

Module ScenarioExamples.
#[local] Existing Instance list_range.
Definition two_nodes : list AgentConfig := [mkAgentConfig "cmp-0" "http://cmp-0:9090/metrics" "";
  mkAgentConfig "cmp-1" "http://cmp-1:9090/metrics" "10.0.0.2"].
Definition cfg2 : HarnessConfig := mkHarness "1" (mkOSCreds "" "http://k" "admin" "p" "admin" "" "" "" "" 0)
  (mkCluster "cc" two_nodes) (mkPrereqs "img" "flv" "kp" "sg" "ext" "") (mkSSH "ubuntu" "/k" 0)
  (H_AgentControl harnessDefaults) "st".
Definition pinned (p : Placement) : Scenario := mkScenario "s" None "" p ∅ ∅ [] [] [] [] [].
Example placements :
  ResolvePlacement (Sc_Placement (pinned {["a" := "node:1"; "b" := "cmp-9"]})) two_nodes = inr {["a" := "cmp-1"; "b" := "cmp-9"]}
  ∧ SkipReason (pinned {["a" := "node:2"]}) cfg2 = Some (TooFewNodes 3 2)
  ∧ SkipReason (pinned {["a" := "node:7"; "b" := "node:x"]}) cfg2 = None
  ∧ SkipReason (pinned {["a" := "node:+1"]}) cfg2 = None ∧ slotIndex "node:-0" = Slot 0 ∧ slotIndex "node:-1" = Malformed.
Proof. by vm_compute. Qed.
Example validated : harnessValidate None (λ _, true) cfg2 = None ∧
  harnessValidate None (λ _, true) harnessDefaults = Some NoCreds.
Proof. by vm_compute. Qed.
Example paths : expandHome (Some "/root/") "~/../x//k" = "/x/k" ∧ DefaultStatePath "st" "0a1b2c" = ".scenariotest/st-0a1b2c.json"
  ∧ DefaultReportPath ".scenariotest/st-0a1b2c.json" = ".scenariotest/st-0a1b2c-report.json".
Proof. by vm_compute. Qed.
End ScenarioExamples.
