(* ===== verification/Cloud.v ===== *)
(** * The cloud, the metrics and the state file (internal/scenariotest: cloud.go, metrics.go, runstate.go)

    What the scenario harness calls: the interface Cloud, one operation per method,
    the interface MetricsSource, and the run-state's file.  What the harness
    relies on is in the classes of laws; which calls succeed is open.  With them the
    monad the phases are written in, and its rules. *)
From S2P Require Import Prelude GoStrings Neutron Scenario.

(** ** A monad of states and errors *)

Definition Prog (S E A : Type) : Type := S → S * (E + A).
Definition ret {S E A} (a : A) : Prog S E A := λ s, (s, inr a).
Definition fail {S E A} (e : E) : Prog S E A := λ s, (s, inl e).
Definition andThen {S E A B} (m : Prog S E A) (f : A → Prog S E B) : Prog S E B := λ s,
  match m s with (s, inl e) => (s, inl e) | (s, inr a) => f a s end.
Definition gets {S E A} (f : S → A) : Prog S E A := λ s, (s, inr (f s)).
Definition modify {S E} (f : S → S) : Prog S E () := λ s, (f s, inr ()).
(** [for _, x := range l { if err := f(x); err != nil { return err } }] *)
Fixpoint forEach {S E A} (l : list A) (f : A → Prog S E ()) : Prog S E () :=
  match l with [] => ret () | x :: l => andThen (f x) (λ _, forEach l f) end.
Declare Scope go_scope.
Delimit Scope go_scope with go.
Notation "x <- m ;; k" := (andThen m (λ x, k)) (at level 100, m at next level, right associativity, only parsing) : go_scope.
Notation "m ;;; k" := (andThen m (λ _, k)) (at level 100, right associativity, only parsing) : go_scope.

(** From [P], [m] ends in [Q], or fails in [X], which may depend on the error. *)
Definition triple {S E A} (P : S → Prop) (m : Prog S E A) (Q : A → S → Prop) (X : E → S → Prop) : Prop :=
  ∀ s, P s → match m s with (s, inr a) => Q a s | (s, inl e) => X e s end.

Section rules.
Context {S E : Type}.
Implicit Types (P : S → Prop) (X : E → S → Prop).
Lemma triple_ret {A} (a : A) P X : triple P (ret a) (λ a' s, a' = a ∧ P s) X.
Proof. by intros s. Qed.
Lemma triple_fail {A} (e : E) P (Q : A → S → Prop) X : (∀ s, P s → X e s) → triple P (fail e) Q X.
Proof. intros H s. apply H. Qed.
Lemma triple_gets {A} (f : S → A) P X : triple P (gets f) (λ a s, a = f s ∧ P s) X.
Proof. by intros s. Qed.
Lemma triple_modify f P (Q : S → Prop) X : (∀ s, P s → Q (f s)) → triple P (modify f) (λ _, Q) X.
Proof. intros H s. apply H. Qed.
Lemma triple_bind {A B} (m : Prog S E A) (f : A → Prog S E B) P (Q : A → S → Prop) R X :
  triple P m Q X → (∀ a, triple (Q a) (f a) R X) → triple P (andThen m f) R X.
Proof.
  intros Hm Hf s Hs. rewrite /andThen. specialize (Hm s Hs). destruct (m s) as [s' [e|a]]; [done|]. by apply Hf.
Qed.
Lemma triple_pre {A} (m : Prog S E A) P P' (Q : A → S → Prop) X :
  triple P m Q X → (∀ s, P' s → P s) → triple P' m Q X.
Proof. intros Hm HP s Hs. by apply Hm, HP. Qed.
Lemma triple_post {A} (m : Prog S E A) P (Q Q' : A → S → Prop) X :
  triple P m Q X → (∀ a s, Q a s → Q' a s) → triple P m Q' X.
Proof. intros Hm HQ s Hs. specialize (Hm s Hs). destruct (m s) as [s' [e|a]]; [done|by apply HQ]. Qed.
Lemma triple_forEach {A} (l : list A) (f : A → Prog S E ()) P X :
  (∀ x, x ∈ l → triple P (f x) (λ _, P) X) → triple P (forEach l f) (λ _, P) X.
Proof.
  induction l as [|x l IH]; intros Hf; [by intros s|]. cbn [forEach]. eapply triple_bind; [apply Hf; left|].
  intros ?. apply IH. intros y Hy. apply Hf. by right.
Qed.
(** A loop whose bodies have no more than an invariant to say. *)
Lemma triple_forEach_inv {A} (l : list A) (f : A → Prog S E ()) P X :
  (∀ x, triple P (f x) (λ _, P) X) → triple P (forEach l f) (λ _, P) X.
Proof. intros Hf. by apply triple_forEach. Qed.
End rules.

(** ** The interfaces *)

(** A call changes the world and answers, or fails with an error. *)
Definition Call (W A : Type) : Type := W → W * (string + A).

Class Cloud (W : Type) := {
  FindImage : string → Call W string; FindFlavor : string → Call W string; FindLBFlavor : string → Call W string;
  CheckKeypair : string → Call W (); FindSecGroup : string → Call W string;
  FindExternalNetwork : string → Call W string; Hypervisors : Call W (list string);
  FindProject : string → Call W (option string); CreateProject : string → Call W string;
  GrantAdminRole : string → Call W ();
  CreateNetwork : string → NetworkSpec → Call W string; CreateSubnet : string → SubnetSpec → Call W string;
  CreateRouter : string → RouterSpec → Call W string; CreatePort : string → PortSpec → Call W string;
  PortMAC : string → Call W string;
  AddRouterInterface : string → string → string → string → Call W ();
  SetRouterRoutes : string → string → list RouteSpec → Call W ();
  SetRouterGateway : string → string → string → Call W ();
  CreateServer : string → ServerSpec → Call W string; WaitServerActive : string → string → Call W ();
  CreateFIP : string → FIPCreateSpec → Call W (string * string);
  CreateLoadBalancer : string → LBSpec → Call W (string * string * string);
  CreateListener : string → ListenerSpec → Call W string; CreatePool : string → PoolSpec → Call W string;
  CreateMember : string → MemberSpec → Call W string; WaitLBActive : string → string → Call W ();
  ListAmphorae : string → Call W (list AmphoraRef);
  ServerHost : string → string → Call W string; LiveMigrateServer : string → string → string → Call W ();
  AttachInterface : string → string → string → Call W (); DetachInterface : string → string → string → Call W ();
  DeleteLoadBalancer : string → string → Call W (); DeleteFIP : string → string → Call W ();
  DeleteServer : string → string → Call W (); WaitServerGone : string → string → Call W ();
  DeletePort : string → string → Call W (); ClearRouterRoutes : string → string → Call W ();
  RemoveRouterInterface : string → string → string → string → Call W (); DeleteRouter : string → string → Call W ();
  ListNetworkPorts : string → Call W (list string); ListProjectServers : string → Call W (list ServerRef);
  DeleteSubnet : string → string → Call W (); DeleteNetwork : string → string → Call W () }.

Record MACLookup := mkMACLookup { ML_Found : bool; ML_TenantID : string; ML_PortID : string }.
Record FlowRow := mkFlowRow {
  Row_SrcMAC : string; Row_DstMAC : string; Row_Direction : string; Row_Zone : string;
  Row_Bytes : SpecFloat.spec_float; Row_Packets : SpecFloat.spec_float }.
Class MetricsSource (W : Type) := {
  Scrape : string → Call W ScrapeResult; LookupMAC : string → string → Call W MACLookup;
  LookupFlows : string → string → Call W (list FlowRow) }.

(** The calls of [RunState.Save]; the text a file holds is the run-state it marshals. *)
Class StateFile (W : Type) := {
  MkdirAll : string → Call W (); WriteFile : string → RunState → Call W () }.

(** ** What the harness relies on *)

(** The resources the interface can create, and what it says of each. *)
Inductive kind := KNetwork | KSubnet | KRouter | KPort | KServer | KFIP | KLoadBalancer.
#[export] Instance kind_eq_dec : EqDecision kind.
Proof. solve_decision. Defined.
#[export] Instance kind_countable : Countable kind.
Proof.
  refine (inj_countable' (λ k, match k with KNetwork => 0 | KSubnet => 1 | KRouter => 2 | KPort => 3 | KServer => 4
    | KFIP => 5 | KLoadBalancer => 6 end)%nat
    (λ n, match n with 0 => KNetwork | 1 => KSubnet | 2 => KRouter | 3 => KPort | 4 => KServer | 5 => KFIP
    | _ => KLoadBalancer end)%nat _). by intros [].
Defined.
Definition key : Type := kind * string.
Record Info := mkInfo { I_Name : string; I_Project : string; I_Network : string; I_Subnet : string }.
Notation Live := (gmap key Info).

(** A delete removes its target; one that fails may have removed it. *)
Definition deletes (r : key) (l l' : Live) (a : string + ()) : Prop :=
  match a with inr _ => l' = delete r l | inl _ => l' = l ∨ l' = delete r l end.
(** A detach may delete the interface's port: the port named, or one on the subnet. *)
Definition detaches (subnet port : string) (l l' : Live) : Prop :=
  l' = l ∨ ∃ p i, l !! (KPort, p) = Some i ∧ l' = delete (KPort, p) l ∧
    (port ≠ "" ∧ p = port ∨ port = "" ∧ I_Subnet i = subnet).

Class World (W : Type) := {
  live : W → Live;
  (** The ids the cloud has given out, or something refers to. *)
  used : W → string → Prop;
  (** What [LoadRunState] reads at a path: nothing when the file is missing or torn. *)
  file : W → string → option RunState }.

Section laws.
Context `{!World W}.
(** A create adds one resource, under an id the cloud has not used, and answers the
    id; one that fails may have added it. *)
Definition creates {A} (id_of : A → string) (k : kind) (i : Info) (w w' : W) (r : string + A) : Prop :=
  let new id := id ≠ "" ∧ live w !! (k, id) = None ∧ ¬ used w id ∧ live w' = <[(k, id) := i]> (live w) in
  match r with inr a => new (id_of a) | inl _ => live w' = live w ∨ ∃ id, new id end.
Definition keepsFiles {A} (c : Call W A) : Prop := ∀ w,
  (∀ path, file (c w).1 path = file w path) ∧ ∀ id, used w id → used (c w).1 id.
Definition quiet {A} (c : Call W A) : Prop := keepsFiles c ∧ ∀ w, live (c w).1 = live w.
End laws.

Class CloudLaws (W : Type) `{!Cloud W, !World W} := {
  quiet_FindImage n : quiet (FindImage n); quiet_FindFlavor n : quiet (FindFlavor n);
  quiet_FindLBFlavor n : quiet (FindLBFlavor n); quiet_CheckKeypair n : quiet (CheckKeypair n);
  quiet_FindSecGroup n : quiet (FindSecGroup n); quiet_FindExternalNetwork n : quiet (FindExternalNetwork n);
  quiet_Hypervisors : quiet Hypervisors; quiet_FindProject n : quiet (FindProject n);
  quiet_CreateProject n : quiet (CreateProject n); quiet_GrantAdminRole p : quiet (GrantAdminRole p);
  quiet_PortMAC p : quiet (PortMAC p); quiet_AddRouterInterface p r s q : quiet (AddRouterInterface p r s q);
  quiet_SetRouterRoutes p r l : quiet (SetRouterRoutes p r l);
  quiet_SetRouterGateway p r n : quiet (SetRouterGateway p r n);
  quiet_WaitServerActive p s : quiet (WaitServerActive p s); quiet_CreateListener p s : quiet (CreateListener p s);
  quiet_CreatePool p s : quiet (CreatePool p s); quiet_CreateMember p s : quiet (CreateMember p s);
  quiet_WaitLBActive p l : quiet (WaitLBActive p l); quiet_ListAmphorae l : quiet (ListAmphorae l);
  quiet_ServerHost p s : quiet (ServerHost p s); quiet_LiveMigrateServer p s h : quiet (LiveMigrateServer p s h);
  quiet_AttachInterface p s q : quiet (AttachInterface p s q);
  quiet_DetachInterface p s q : quiet (DetachInterface p s q);
  quiet_ClearRouterRoutes p r : quiet (ClearRouterRoutes p r);
  quiet_ListNetworkPorts n : quiet (ListNetworkPorts n); quiet_ListProjectServers p : quiet (ListProjectServers p);
  law_CreateNetwork p s w : creates id KNetwork (mkInfo (NS_Name s) p "" "") w (CreateNetwork p s w).1 (CreateNetwork p s w).2;
  law_CreateSubnet p s w : creates id KSubnet (mkInfo (SS_Name s) p (SS_NetworkID s) "") w (CreateSubnet p s w).1 (CreateSubnet p s w).2;
  law_CreateRouter p s w : creates id KRouter (mkInfo (RtS_Name s) p "" "") w (CreateRouter p s w).1 (CreateRouter p s w).2;
  law_CreatePort p s w : creates id KPort (mkInfo (PS_Name s) p (PS_NetworkID s) (PS_SubnetID s)) w (CreatePort p s w).1 (CreatePort p s w).2;
  law_CreateServer p s w : creates id KServer (mkInfo (SvS_Name s) p "" "") w (CreateServer p s w).1 (CreateServer p s w).2;
  law_CreateFIP p s w : creates fst KFIP (mkInfo "" p "" "") w (CreateFIP p s w).1 (CreateFIP p s w).2;
  law_CreateLoadBalancer p s w : creates (λ x, x.1.1) KLoadBalancer (mkInfo (LS_Name s) p "" "") w
    (CreateLoadBalancer p s w).1 (CreateLoadBalancer p s w).2;
  law_DeleteLoadBalancer p r w : deletes (KLoadBalancer, r) (live w) (live (DeleteLoadBalancer p r w).1) (DeleteLoadBalancer p r w).2;
  law_DeleteFIP p r w : deletes (KFIP, r) (live w) (live (DeleteFIP p r w).1) (DeleteFIP p r w).2;
  (** A server that was accepted for deletion may still be there. *)
  law_DeleteServer p r w : live (DeleteServer p r w).1 = live w ∨ live (DeleteServer p r w).1 = delete (KServer, r) (live w);
  law_WaitServerGone p r w : deletes (KServer, r) (live w) (live (WaitServerGone p r w).1) (WaitServerGone p r w).2;
  law_DeletePort p r w : deletes (KPort, r) (live w) (live (DeletePort p r w).1) (DeletePort p r w).2;
  law_RemoveRouterInterface p r s q w : detaches s q (live w) (live (RemoveRouterInterface p r s q w).1);
  law_DeleteRouter p r w : deletes (KRouter, r) (live w) (live (DeleteRouter p r w).1) (DeleteRouter p r w).2;
  law_DeleteSubnet p r w : deletes (KSubnet, r) (live w) (live (DeleteSubnet p r w).1) (DeleteSubnet p r w).2;
  law_DeleteNetwork p r w : deletes (KNetwork, r) (live w) (live (DeleteNetwork p r w).1) (DeleteNetwork p r w).2;
  files_CreateNetwork p s : keepsFiles (CreateNetwork p s); files_CreateSubnet p s : keepsFiles (CreateSubnet p s);
  files_CreateRouter p s : keepsFiles (CreateRouter p s); files_CreatePort p s : keepsFiles (CreatePort p s);
  files_CreateServer p s : keepsFiles (CreateServer p s); files_CreateFIP p s : keepsFiles (CreateFIP p s);
  files_CreateLoadBalancer p s : keepsFiles (CreateLoadBalancer p s);
  files_DeleteLoadBalancer p r : keepsFiles (DeleteLoadBalancer p r); files_DeleteFIP p r : keepsFiles (DeleteFIP p r);
  files_DeleteServer p r : keepsFiles (DeleteServer p r); files_WaitServerGone p r : keepsFiles (WaitServerGone p r);
  files_DeletePort p r : keepsFiles (DeletePort p r);
  files_RemoveRouterInterface p r s q : keepsFiles (RemoveRouterInterface p r s q);
  files_DeleteRouter p r : keepsFiles (DeleteRouter p r); files_DeleteSubnet p r : keepsFiles (DeleteSubnet p r);
  files_DeleteNetwork p r : keepsFiles (DeleteNetwork p r);
  (** The listings are complete, and true of what they list. *)
  law_ListNetworkPorts n w ports : (ListNetworkPorts n w).2 = inr ports → ∀ p i, live w !! (KPort, p) = Some i →
    p ∈ ports ↔ I_Network i = n;
  law_ListProjectServers p w l : (ListProjectServers p w).2 = inr l → ∀ s i, live w !! (KServer, s) = Some i →
    (I_Project i = p → mkServerRef s (I_Name i) ∈ l) ∧
    (∀ r, r ∈ l → SR_ID r = s → SR_Name r = I_Name i ∧ I_Project i = p) }.

Class MetricsLaws (W : Type) `{!MetricsSource W, !World W} := {
  quiet_Scrape u : quiet (Scrape u); quiet_LookupMAC u m : quiet (LookupMAC u m);
  quiet_LookupFlows u m : quiet (LookupFlows u m) }.
(** A write that fails may have truncated the file; it holds no other run-state. *)
Class FileLaws (W : Type) `{!StateFile W, !World W} := {
  quiet_MkdirAll d : quiet (MkdirAll d);
  live_WriteFile path rs w : live (WriteFile path rs w).1 = live w ∧ ∀ id, used w id → used (WriteFile path rs w).1 id;
  law_WriteFile path rs w : match (WriteFile path rs w).2 with
    | inr _ => file (WriteFile path rs w).1 path = Some rs
    | inl _ => file (WriteFile path rs w).1 path = file w path ∨ file (WriteFile path rs w).1 path = None
    end }.
