(* ===== verification/Recorded.v ===== *)
(** * What a run-state accounts for (internal/scenariotest/runstate.go)

    The resources a run-state records, and when it accounts for what a run has
    added to a cloud: the relation both phases, up and down, are proved against. *)
From S2P Require Import Prelude GoStrings Neutron Scenario Cloud.

Definition keysOf (k : kind) (l : list ResourceRef) : list key := (λ r, (k, Ref_ID r)) <$> l.
Definition recordedKeys (rs : RunState) : list key :=
  keysOf KLoadBalancer (R_LoadBalancers rs) ++ ((λ f, (KFIP, FR_ID f)) <$> R_FIPs rs) ++
  keysOf KServer (R_Servers rs) ++ keysOf KPort (R_Ports rs) ++ keysOf KRouter (R_Routers rs) ++
  keysOf KSubnet (R_Subnets rs) ++ keysOf KNetwork (R_Networks rs).
Definition recorded (rs : RunState) : gset key := list_to_set (recordedKeys rs).

(** A server whose name has the run's prefix, in one of the run's projects. *)
Definition project_known (rs : RunState) (proj : string) : Prop :=
  ∃ dsl p, R_Projects rs !! dsl = Some p ∧ PR_ID p = proj.
Definition run_prefix (rs : RunState) : string := Mangle (R_Prefix rs) (R_RunID rs) "".
Definition run_server (rs : RunState) (i : Info) : Prop :=
  HasPrefix (I_Name i) (run_prefix rs) = true ∧ project_known rs (I_Project i).

(** From [l0] a run has come to [l]: what it added, and that is still there, is in [rs] or
    in [extra]; nothing that was there is gone or refers to what it added; and the
    servers it added are recognisable. *)
Record covers (l0 l : Live) (rs : RunState) (extra : gset key) : Prop := mkCovers {
  cv_sub : l0 ⊆ l;
  cv_dom : dom l ⊆ dom l0 ∪ (recorded rs ∪ extra);
  cv_new : ∀ r, r ∈ recorded rs ∪ extra → l0 !! r = None;
  cv_ids : ∀ r, r ∈ recorded rs ∪ extra → r.2 ≠ "";
  cv_apart : ∀ r i, l0 !! r = Some i →
    (KNetwork, I_Network i) ∉ recorded rs ∪ extra ∧ (KSubnet, I_Subnet i) ∉ recorded rs ∪ extra;
  cv_servers : ∀ s i, l !! (KServer, s) = Some i → l0 !! (KServer, s) = None → run_server rs i }.
(** The same, and what [rs] and [extra] say is there. *)
Record accounts (l0 l : Live) (rs : RunState) (extra : gset key) : Prop := mkAccounts {
  ac_covers : covers l0 l rs extra;
  ac_live : recorded rs ∪ extra ⊆ dom l }.

Lemma accounts_refl l rs : recorded rs = ∅ → accounts l l rs ∅.
Proof.
  intros E. assert (recorded rs ∪ ∅ = ∅) as E' by (by rewrite E union_empty_r_L). split; [split|]; rewrite ?E'.
  - done.
  - by rewrite union_empty_r_L.
  - intros r Hr. by destruct (not_elem_of_empty (C := gset key) r).
  - intros r Hr. by destruct (not_elem_of_empty (C := gset key) r).
  - intros r i _. split; apply not_elem_of_empty.
  - by intros s i ->.
  - apply empty_subseteq.
Qed.

(** The same resources under another book-keeping. *)
Lemma covers_move l0 l rs extra rs' extra' : covers l0 l rs extra →
  recorded rs' ∪ extra' = recorded rs ∪ extra →
  (∀ i, run_server rs i → run_server rs' i) → covers l0 l rs' extra'.
Proof.
  intros [H1 H2 H3 H6 H4 H5] E Hs. split; rewrite ?E //. intros s i Hl Hl0. by apply Hs, (H5 s).
Qed.
Lemma accounts_move l0 l rs extra rs' extra' : accounts l0 l rs extra →
  recorded rs' ∪ extra' = recorded rs ∪ extra →
  (∀ i, run_server rs i → run_server rs' i) → accounts l0 l rs' extra'.
Proof. intros [Hc Hl] E Hs. split; [by eapply covers_move|by rewrite E]. Qed.

(** A resource added under an id the cloud has not used. *)
Lemma covers_insert l0 l rs k id i (u : string → Prop) : covers l0 l rs ∅ → (k = KServer → run_server rs i) →
  (∀ q j, l0 !! q = Some j → u (I_Network j) ∧ u (I_Subnet j)) →
  id ≠ "" → l !! (k, id) = None → ¬ u id → covers l0 (<[(k, id) := i]> l) rs {[(k, id)]}.
Proof.
  intros [H1 H2 H3 H6 H4 H5] Hs Hu Hid Hf Hn. rewrite !union_empty_r_L in H2, H3, H4, H6. split.
  - etrans; [exact H1|]. by apply insert_subseteq.
  - rewrite dom_insert_L. intros r [->%elem_of_singleton|Hr%H2]%elem_of_union; apply elem_of_union.
    + right. apply elem_of_union. right. by apply elem_of_singleton.
    + apply elem_of_union in Hr as [?|?]; [by left|right]. apply elem_of_union. by left.
  - intros r' [Hin| ->%elem_of_singleton]%elem_of_union; [by apply H3|]. by eapply lookup_weaken_None.
  - intros r' [Hin| ->%elem_of_singleton]%elem_of_union; [by apply H6|done].
  - intros r' i' Hi'. destruct (H4 r' i' Hi') as [Hn1 Hs1]. destruct (Hu r' i' Hi') as [Hu1 Hu2].
    rewrite !not_elem_of_union !not_elem_of_singleton. split; (split; [done|]); congruence.
  - intros s j. destruct (decide ((k, id) = (KServer, s))) as [E|Hne].
    + injection E as -> ->. rewrite lookup_insert_eq. intros [= <-] _. by apply Hs.
    + rewrite lookup_insert_ne //. apply H5.
Qed.

(** A create, on an account without extras. *)
Section create.
Context `{!World W} {A : Type} (id_of : A → string).
Lemma covers_create k i l0 (w w' : W) (r : string + A) rs :
  covers l0 (live w) rs ∅ → creates id_of k i w w' r → (k = KServer → run_server rs i) →
  (∀ q j, l0 !! q = Some j → used w (I_Network j) ∧ used w (I_Subnet j)) →
  match r with
  | inr a => covers l0 (live w') rs {[(k, id_of a)]}
  | inl _ => ∃ extra, (size extra ≤ 1)%nat ∧ covers l0 (live w') rs extra
  end.
Proof.
  intros Ha Hc Hs Hu. destruct r as [e|a]; simpl in Hc.
  - destruct Hc as [->|(id & ? & ? & ? & ->)]; [exists ∅; split; [rewrite size_empty; lia|done]|].
    exists {[(k, id)]}. split; [by rewrite size_singleton|by eapply covers_insert].
  - destruct Hc as (? & ? & ? & ->). by eapply covers_insert.
Qed.
Lemma accounts_create k i l0 (w w' : W) (r : string + A) rs :
  accounts l0 (live w) rs ∅ → creates id_of k i w w' r → (k = KServer → run_server rs i) →
  (∀ q j, l0 !! q = Some j → used w (I_Network j) ∧ used w (I_Subnet j)) →
  match r with
  | inr a => accounts l0 (live w') rs {[(k, id_of a)]}
  | inl _ => ∃ extra, (size extra ≤ 1)%nat ∧ accounts l0 (live w') rs extra
  end.
Proof.
  intros [Ha Hl] Hc Hs Hu. rewrite union_empty_r_L in Hl.
  assert (∀ id, id ≠ "" ∧ live w !! (k, id) = None ∧ ¬ used w id ∧ live w' = <[(k, id) := i]> (live w) →
    accounts l0 (live w') rs {[(k, id)]}) as Hins.
  { intros id (Hid & Hf & Hn & ->). split; [by eapply covers_insert|]. rewrite dom_insert_L.
    intros r' [?|?]%elem_of_union; apply elem_of_union; [right; by apply Hl|by left]. }
  destruct r as [e|a]; simpl in Hc; [|by apply Hins].
  destruct Hc as [E|(id & Hid)].
  - exists ∅. rewrite E. split; [rewrite size_empty; lia|]. split; [done|by rewrite union_empty_r_L].
  - exists {[(k, id)]}. split; [by rewrite size_singleton|by apply Hins].
Qed.
End create.

Lemma recorded_elem rs r : r ∈ recorded rs ↔ r ∈ recordedKeys rs.
Proof. apply elem_of_list_to_set. Qed.
