(* ===== verification/Realize.v ===== *)
(** * Standing a scenario up (internal/scenariotest/realize/realize.go, runstate.go)

    The realizer, phase by phase in the order of the code, the run-state it saves
    after every create, and what the record on disk is worth at every moment: it never
    misses more than one of the resources the run has made. *)
From S2P Require Import Prelude GoStrings GoArgs GoJson Neutron Builder Scenario Cloud Recorded.
From Stdlib Require Import Ascii SpecFloat.

(** ** Saving the run-state (runstate.go) *)

(** [filepath.Dir] *)
Fixpoint upToSlash (s : string) : option string :=
  match s with
  | EmptyString => None
  | String a s =>
      match upToSlash s with
      | Some p => Some (String a p)
      | None => if decide (a = "/"%char) then Some (String a EmptyString) else None
      end
  end.
Definition Dir (p : string) : string := Clean (default "" (upToSlash p)).

(** encoding/json refuses a NaN and an infinity. *)
Definition finite (f : spec_float) : bool := match f with S754_nan | S754_infinity _ => false | _ => true end.
Definition marshals (rs : RunState) : bool :=
  finite (AT_Target (R_Attach rs)) && finite (AT_Failures (R_Attach rs)) &&
  forallb (λ kv, finite kv.2) (map_to_list (R_AnomalyBaseline rs)) &&
  forallb (finite ∘ BS_Value) (R_Baseline rs) && forallb (finite ∘ SvM_Value) (R_BaselineServers rs).
Inductive saveErr := MkdirErr (e : string) | MarshalErr | WriteErr (e : string).
Definition Save `{StateFile W} (rs : RunState) (path : string) (w : W) : W * (saveErr + ()) :=
  match MkdirAll (Dir path) w with
  | (w, inl e) => (w, inl (MkdirErr e))
  | (w, inr _) =>
      if marshals rs then
        match WriteFile path rs w with
        | (w, inl e) => (w, inl (WriteErr e))
        | (w, inr _) => (w, inr ())
        end
      else (w, inl MarshalErr)
  end.

(** [SampleAcross] (metrics.go): one scrape per agent, in their order. *)
Fixpoint sampleFrom `{GoRange} `{MetricsSource W} (agents : list AgentConfig) (snap : MetricsSnapshot) (w : W)
    : W * (string + MetricsSnapshot) :=
  match agents with
  | [] => (w, inr snap)
  | a :: agents =>
      match Scrape (AC_MetricsURL a) w with
      | (w, inl e) => (w, inl e)
      | (w, inr r) => sampleFrom agents (addScrape a r snap) w
      end
  end.
Definition SampleAcross `{GoRange} `{MetricsSource W} (agents : list AgentConfig) : Call W MetricsSnapshot :=
  sampleFrom agents noMetrics.

(** ** The realizer *)

Record prereqs := mkPre { extNetID : string; flavorID : string; imageID : string; secGroupID : string; lbFlavorID : string }.
Record liveIDs := mkIDs {
  netLive : gmap string string; netExternal : gset string; subnetLive : gmap string string;
  subnetGateway : gmap string string; routerLive : gmap string string }.
Record machines := mkMachines {
  vmPort : gmap string string; vmExtraPorts : gmap string (list string); vmProject : gmap string string;
  vmInternalIP : gmap string string; vmOrder : list string; taps : Z }.
Record realizer := mkRealizer {
  z_rs : RunState; z_pre : prereqs; z_ids : liveIDs; z_vms : machines; lbVIP : gmap string string;
  placement : Placement }.

Inductive upErr :=
  | CloudErr (e : string) | Wrapped (what : string) (e : string) | SaveErr (e : saveErr) | PlacementErr (e : placeErr)
  | ProjectExists (name : string) | UnknownRouter (port router : string) | UnknownSubnet (port subnet : string)
  | DeferredNIC (vm port : string) | NewFailures (n : spec_float) | GateTimeout (attached target : spec_float)
  | MemberSubnet (lb subnet : string) | VIPSubnet (lb subnet : string) | NoVIPPort (lb : string) | Panicked.

(** Updates of the realizer's fields. *)
Definition withRS (f : RunState → RunState) (z : realizer) : realizer :=
  mkRealizer (f (z_rs z)) (z_pre z) (z_ids z) (z_vms z) (lbVIP z) (placement z).
Definition withPre (p : prereqs) (z : realizer) : realizer :=
  mkRealizer (z_rs z) p (z_ids z) (z_vms z) (lbVIP z) (placement z).
Definition withIDs (f : liveIDs → liveIDs) (z : realizer) : realizer :=
  mkRealizer (z_rs z) (z_pre z) (f (z_ids z)) (z_vms z) (lbVIP z) (placement z).
Definition withVMs (f : machines → machines) (z : realizer) : realizer :=
  mkRealizer (z_rs z) (z_pre z) (z_ids z) (f (z_vms z)) (lbVIP z) (placement z).
Definition withVIP (lb vip : string) (z : realizer) : realizer :=
  mkRealizer (z_rs z) (z_pre z) (z_ids z) (z_vms z) (<[lb := vip]> (lbVIP z)) (placement z).
Definition withPlacement (p : Placement) (z : realizer) : realizer :=
  mkRealizer (z_rs z) (z_pre z) (z_ids z) (z_vms z) (lbVIP z) p.

Definition setResources (ns ss rts ps svs : list ResourceRef) (fs : list FIPRef) (lbs : list ResourceRef) (rs : RunState) : RunState :=
  mkRunState (R_RunID rs) (R_Scenario rs) (R_Prefix rs) (R_Projects rs) ns ss rts ps svs fs lbs (R_Attach rs)
    (R_AnomalyBaseline rs) (R_Placement rs) (R_Migrations rs) (R_Baseline rs) (R_BaselineServers rs) (R_TornDown rs).
Definition addNetworkRef (r : ResourceRef) (rs : RunState) : RunState :=
  setResources (R_Networks rs ++ [r]) (R_Subnets rs) (R_Routers rs) (R_Ports rs) (R_Servers rs) (R_FIPs rs) (R_LoadBalancers rs) rs.
Definition addSubnetRef (r : ResourceRef) (rs : RunState) : RunState :=
  setResources (R_Networks rs) (R_Subnets rs ++ [r]) (R_Routers rs) (R_Ports rs) (R_Servers rs) (R_FIPs rs) (R_LoadBalancers rs) rs.
Definition addRouterRef (r : ResourceRef) (rs : RunState) : RunState :=
  setResources (R_Networks rs) (R_Subnets rs) (R_Routers rs ++ [r]) (R_Ports rs) (R_Servers rs) (R_FIPs rs) (R_LoadBalancers rs) rs.
Definition addPortRef (r : ResourceRef) (rs : RunState) : RunState :=
  setResources (R_Networks rs) (R_Subnets rs) (R_Routers rs) (R_Ports rs ++ [r]) (R_Servers rs) (R_FIPs rs) (R_LoadBalancers rs) rs.
Definition addServerRef (r : ResourceRef) (rs : RunState) : RunState :=
  setResources (R_Networks rs) (R_Subnets rs) (R_Routers rs) (R_Ports rs) (R_Servers rs ++ [r]) (R_FIPs rs) (R_LoadBalancers rs) rs.
Definition addFIPRef (r : FIPRef) (rs : RunState) : RunState :=
  setResources (R_Networks rs) (R_Subnets rs) (R_Routers rs) (R_Ports rs) (R_Servers rs) (R_FIPs rs ++ [r]) (R_LoadBalancers rs) rs.
Definition addLBRef (r : ResourceRef) (rs : RunState) : RunState :=
  setResources (R_Networks rs) (R_Subnets rs) (R_Routers rs) (R_Ports rs) (R_Servers rs) (R_FIPs rs) (R_LoadBalancers rs ++ [r]) rs.
(** The floating address of the load balancer recorded last. *)
Definition withFIP (addr : string) (r : ResourceRef) : ResourceRef :=
  mkRef (Ref_DSLID r) (Ref_ID r) (Ref_Name r) (Ref_ProjectID r) (Ref_MAC r) (Ref_VIP r) addr (Ref_RouterInterface r).
Definition setLastFIP (addr : string) (rs : RunState) : RunState :=
  setResources (R_Networks rs) (R_Subnets rs) (R_Routers rs) (R_Ports rs) (R_Servers rs) (R_FIPs rs)
    (alter (withFIP addr) (length (R_LoadBalancers rs) - 1)%nat (R_LoadBalancers rs)) rs.
Definition setMeta (projects : gmap string ProjectRef) (attach : AttachRecord) (anomalies : gmap string spec_float)
    (p : Placement) (rs : RunState) : RunState :=
  mkRunState (R_RunID rs) (R_Scenario rs) (R_Prefix rs) projects (R_Networks rs) (R_Subnets rs) (R_Routers rs)
    (R_Ports rs) (R_Servers rs) (R_FIPs rs) (R_LoadBalancers rs) attach anomalies p (R_Migrations rs) (R_Baseline rs)
    (R_BaselineServers rs) (R_TornDown rs).
Definition setProject (dsl : string) (p : ProjectRef) (rs : RunState) : RunState :=
  setMeta (<[dsl := p]> (R_Projects rs)) (R_Attach rs) (R_AnomalyBaseline rs) (R_Placement rs) rs.
Definition setAttach (a : AttachRecord) (rs : RunState) : RunState :=
  setMeta (R_Projects rs) a (R_AnomalyBaseline rs) (R_Placement rs) rs.
Definition setAnomalies (m : gmap string spec_float) (rs : RunState) : RunState :=
  setMeta (R_Projects rs) (R_Attach rs) m (R_Placement rs) rs.
Definition setPlacement (p : Placement) (rs : RunState) : RunState :=
  setMeta (R_Projects rs) (R_Attach rs) (R_AnomalyBaseline rs) p rs.

Definition addNetLive (dsl id : string) (i : liveIDs) : liveIDs :=
  mkIDs (<[dsl := id]> (netLive i)) (netExternal i) (subnetLive i) (subnetGateway i) (routerLive i).
Definition markExternal (dsl : string) (i : liveIDs) : liveIDs :=
  mkIDs (netLive i) ({[dsl]} ∪ netExternal i) (subnetLive i) (subnetGateway i) (routerLive i).
Definition addSubnetLive (dsl id : string) (i : liveIDs) : liveIDs :=
  mkIDs (netLive i) (netExternal i) (<[dsl := id]> (subnetLive i)) (subnetGateway i) (routerLive i).
Definition addGateway (dsl gw : string) (i : liveIDs) : liveIDs :=
  mkIDs (netLive i) (netExternal i) (subnetLive i) (<[dsl := gw]> (subnetGateway i)) (routerLive i).
Definition addRouterLive (dsl id : string) (i : liveIDs) : liveIDs :=
  mkIDs (netLive i) (netExternal i) (subnetLive i) (subnetGateway i) (<[dsl := id]> (routerLive i)).
Definition addTaps (n : Z) (v : machines) : machines :=
  mkMachines (vmPort v) (vmExtraPorts v) (vmProject v) (vmInternalIP v) (vmOrder v) (taps v + n).
Definition addPrimary (vm port proj ip : string) (v : machines) : machines :=
  mkMachines (<[vm := port]> (vmPort v)) (vmExtraPorts v) (<[vm := proj]> (vmProject v))
    (<[vm := ip]> (vmInternalIP v)) (vmOrder v ++ [vm]) (taps v).
Definition addExtra (vm port : string) (v : machines) : machines :=
  mkMachines (vmPort v) (append_at vm port (vmExtraPorts v)) (vmProject v) (vmInternalIP v) (vmOrder v) (taps v).
(** A Go map read: the zero value when the key is missing. *)
Definition get (m : gmap string string) (k : string) : string := default "" (m !! k).

(** ** The phases *)

Section realize.
Context `{GoRange} {W : Type} `{!Cloud W, !MetricsSource W, !StateFile W}.
(** The options of a run; [ticks] is how many polls fit before the gate's deadline. *)
Variables (cfg : HarnessConfig) (sc : Scenario) (runID path : string) (ticks : nat).

Definition St : Type := W * realizer.
Definition Up (A : Type) : Type := Prog St upErr A.
Local Open Scope go_scope.

Definition callE {A} (wrap : string → upErr) (c : Call W A) : Up A := λ s,
  match c s.1 with
  | (w, inl e) => ((w, s.2), inl (wrap e))
  | (w, inr a) => ((w, s.2), inr a)
  end.
Definition callC {A} (c : Call W A) : Up A := callE CloudErr c.
Definition upd (f : realizer → realizer) : Up () := modify (λ s, (s.1, f s.2)).
Definition get_z {A} (f : realizer → A) : Up A := gets (λ s, f s.2).
Definition save : Up () := λ s,
  match Save (z_rs s.2) path s.1 with
  | (w, inl e) => ((w, s.2), inl (SaveErr e))
  | (w, inr _) => ((w, s.2), inr ())
  end.
Definition name (dsl : string) : string := Mangle (H_Prefix cfg) runID dsl.

Definition findOrCreate (mangled : string) (policy : Policy) : Up (string * bool) :=
  found <- callC (FindProject mangled) ;;
  match found with
  | Some id => if decide (policy = ForceFresh) then fail (ProjectExists mangled) else ret (id, false)
  | None => id <- callC (CreateProject mangled) ;; ret (id, true)
  end.
Definition projectID (dslName : string) : Up string :=
  ref <- get_z (λ z, R_Projects (z_rs z) !! dslName) ;;
  match ref with
  | Some ref => ret (PR_ID ref)
  | None =>
      let mangled := MangleProject (H_Prefix cfg) dslName in
      idc <- findOrCreate mangled (default ReuseOrCreate (Sc_Projects sc !! dslName)) ;;
      callC (GrantAdminRole idc.1) ;;;
      upd (withRS (setProject dslName (mkProjectRef mangled idc.1 idc.2))) ;;;
      save ;;;
      ret idc.1
  end.

Definition resolvePrereqs : Up () :=
  let p := H_Prerequisites cfg in
  lb <- (if NeedsLBFlavor sc then callE (Wrapped (LBFlavorName p)) (FindLBFlavor (LBFlavorName p)) else ret "") ;;
  upd (withPre (mkPre "" "" "" "" lb)) ;;;
  ext <- callC (FindExternalNetwork (ExternalNetworkName p)) ;;
  upd (withPre (mkPre ext "" "" "" lb)) ;;;
  flv <- callC (FindFlavor (FlavorFor cfg sc)) ;;
  upd (withPre (mkPre ext flv "" "" lb)) ;;;
  img <- callC (FindImage (ImageName p)) ;;
  upd (withPre (mkPre ext flv img "" lb)) ;;;
  sg <- callC (FindSecGroup (SecGroupName p)) ;;
  upd (withPre (mkPre ext flv img sg lb)).

Definition networkStep (n : Network) : Up () :=
  if Net_IsExternal n && negb (bool_decide (Net_ID n ∈ Sc_CreateExternalNets sc)) then
    ext <- get_z (λ z, extNetID (z_pre z)) ;;
    upd (withIDs (λ i, markExternal (Net_ID n) (addNetLive (Net_ID n) ext i)))
  else
    proj <- projectID (Net_ProjectID n) ;;
    id <- callC (CreateNetwork proj (mkNetworkSpec (name (Net_ID n)) (Net_Shared n) (Net_IsExternal n))) ;;
    upd (withIDs (addNetLive (Net_ID n) id)) ;;;
    upd (withRS (addNetworkRef (mkRef (Net_ID n) id (name (Net_ID n)) proj "" "" "" false))) ;;;
    save.
Definition networks (snap : Snapshot) : Up () := forEach (Networks snap) networkStep.

Definition subnetStep (s : Subnet) : Up () :=
  upd (withIDs (addGateway (Sub_ID s) (Sub_GatewayIP s))) ;;;
  ext <- get_z (λ z, bool_decide (Sub_NetworkID s ∈ netExternal (z_ids z))) ;;
  if ext : bool then ret ()
  else
    proj <- projectID (Sub_ProjectID s) ;;
    net <- get_z (λ z, get (netLive (z_ids z)) (Sub_NetworkID s)) ;;
    id <- callC (CreateSubnet proj (mkSubnetSpec (name (Sub_ID s)) net (Sub_CIDR s) (Sub_GatewayIP s))) ;;
    upd (withIDs (addSubnetLive (Sub_ID s) id)) ;;;
    upd (withRS (addSubnetRef (mkRef (Sub_ID s) id (name (Sub_ID s)) proj "" "" "" false))) ;;;
    save.
Definition subnets (snap : Snapshot) : Up () := forEach (Subnets snap) subnetStep.

Definition routerExt (ext : string) (z : realizer) : string :=
  if decide (ext = "") then ""
  else let live := get (netLive (z_ids z)) ext in
       if decide (live = "") then extNetID (z_pre z) else live.
Definition routerStep (rt : Router) : Up () :=
  proj <- projectID (Router_ProjectID rt) ;;
  ext <- get_z (routerExt (Router_ExternalNetworkID rt)) ;;
  id <- callC (CreateRouter proj (mkRouterSpec (name (Router_ID rt)) ext)) ;;
  upd (withIDs (addRouterLive (Router_ID rt) id)) ;;;
  upd (withRS (addRouterRef (mkRef (Router_ID rt) id (name (Router_ID rt)) proj "" "" "" false))) ;;;
  save.
Definition routers (snap : Snapshot) : Up () := forEach (Routers snap) routerStep.

Definition routeStep (rt : Router) : Up () :=
  if decide (Router_Routes rt = []) then ret ()
  else
    proj <- projectID (Router_ProjectID rt) ;;
    id <- get_z (λ z, get (routerLive (z_ids z)) (Router_ID rt)) ;;
    callC (SetRouterRoutes proj id ((λ r, mkRouteSpec (Route_Destination r) (Route_Nexthop r)) <$> Router_Routes rt)).
Definition routerRoutes (snap : Snapshot) : Up () := forEach (Routers snap) routeStep.

(** The port is recorded once its MAC is read. *)
Definition recordPort (p : Port) (portID proj : string) (isRouter : bool) : Up () :=
  mac <- callC (PortMAC portID) ;;
  (if isRouter then ret () else upd (withVMs (addTaps 1))) ;;;
  upd (withRS (addPortRef (mkRef (Port_ID p) portID (name (Port_ID p)) proj mac "" "" isRouter))).
Definition interfaceStep (p : Port) : Up () :=
  if decide (Port_DeviceOwner p ≠ "network:router_interface") then ret ()
  else
    router <- get_z (λ z, get (routerLive (z_ids z)) (Port_DeviceID p)) ;;
    if decide (router = "") then fail (UnknownRouter (Port_ID p) (Port_DeviceID p))
    else
      proj <- projectID (Port_ProjectID p) ;;
      match Port_FixedIPs p with
      | [] => fail Panicked
      | fip :: _ =>
          subnet <- get_z (λ z, get (subnetLive (z_ids z)) (Fip_SubnetID fip)) ;;
          if decide (subnet = "") then fail (UnknownSubnet (Port_ID p) (Fip_SubnetID fip))
          else
            gw <- get_z (λ z, get (subnetGateway (z_ids z)) (Fip_SubnetID fip)) ;;
            if decide (Fip_IPAddress fip ≠ "" ∧ Fip_IPAddress fip = gw) then
              callC (AddRouterInterface proj router subnet "")
            else
              net <- get_z (λ z, get (netLive (z_ids z)) (Port_NetworkID p)) ;;
              port <- callC (CreatePort proj (mkPortSpec (name (Port_ID p)) net subnet (Fip_IPAddress fip) "" "" false [])) ;;
              recordPort p port proj true ;;;
              save ;;;
              callC (AddRouterInterface proj router "" port)
      end.
Definition routerInterfaces (snap : Snapshot) : Up () := forEach (Ports snap) interfaceStep.

Definition amphoraComputes (snap : Snapshot) : list string := Amp_ComputeID <$> Amphorae snap.
Definition trackNIC (p : Port) (vm port proj ip : string) (v : machines) : machines :=
  if decide (Port_ID p = vm) then addPrimary vm port proj ip v else addExtra vm port v.
Definition vmPortStep (snap : Snapshot) (p : Port) : Up () :=
  if negb (HasPrefix (Port_DeviceOwner p) "compute:") then ret ()
  else if decide (Port_DeviceID p ∈ amphoraComputes snap) then ret ()
  else
    let vm := TrimSuffix (Port_DeviceID p) "-instance" in
    if decide (vm ∈ Sc_Deferred sc ∧ Port_ID p ≠ vm) then fail (DeferredNIC vm (Port_ID p))
    else if decide (vm ∈ Sc_Deferred sc) then ret ()
    else
      proj <- projectID (Port_ProjectID p) ;;
      match Port_FixedIPs p with
      | [] => fail Panicked
      | fip :: _ =>
          net <- get_z (λ z, get (netLive (z_ids z)) (Port_NetworkID p)) ;;
          subnet <- get_z (λ z, get (subnetLive (z_ids z)) (Fip_SubnetID fip)) ;;
          sg <- get_z (λ z, secGroupID (z_pre z)) ;;
          port <- callC (CreatePort proj (mkPortSpec (name (Port_ID p)) net subnet (Fip_IPAddress fip) sg "" false [])) ;;
          recordPort p port proj false ;;;
          upd (withVMs (trackNIC p vm port proj (Fip_IPAddress fip))) ;;;
          save
      end.
Definition vmPorts (snap : Snapshot) : Up () := forEach (Ports snap) (vmPortStep snap).

Definition serverSpec (vm : string) (z : realizer) : ServerSpec :=
  mkServerSpec (name vm) (flavorID (z_pre z)) (imageID (z_pre z)) (get (vmPort (z_vms z)) vm)
    (get_all (vmExtraPorts (z_vms z)) vm) (KeypairName (H_Prerequisites cfg)) (PlacementAZ (placement z) vm).
Definition bootStep (vm : string) : Up () :=
  proj <- get_z (λ z, get (vmProject (z_vms z)) vm) ;;
  spec <- get_z (serverSpec vm) ;;
  id <- callC (CreateServer proj spec) ;;
  upd (withRS (addServerRef (mkRef vm id (name vm) proj "" "" "" false))) ;;;
  save.
Definition bootServers : Up () := vms <- get_z (vmOrder ∘ z_vms) ;; forEach vms bootStep.
Definition waitActive : Up () :=
  l <- get_z (R_Servers ∘ z_rs) ;; forEach l (λ s, callC (WaitServerActive (Ref_ProjectID s) (Ref_ID s))).

Definition allocateFIP (wrap : string → upErr) (proj vm : string) (spec : FIPCreateSpec) : Up string :=
  ia <- callE wrap (CreateFIP proj spec) ;;
  upd (withRS (addFIPRef (mkFIPRef vm ia.1 ia.2 proj ""))) ;;;
  ret ia.2.
Definition fipStep (vm : string) : Up () :=
  proj <- get_z (λ z, get (vmProject (z_vms z)) vm) ;;
  let spec := default (mkFIPSpec "" "") (Sc_FIPs sc !! vm) in
  ext <- (if decide (FIPS_ExternalNet spec = "") then get_z (λ z, extNetID (z_pre z))
          else callC (FindExternalNetwork (FIPS_ExternalNet spec))) ;;
  port <- get_z (λ z, get (vmPort (z_vms z)) vm) ;;
  ip <- get_z (λ z, get (vmInternalIP (z_vms z)) vm) ;;
  allocateFIP CloudErr proj vm (mkFIPCreateSpec ext port ip (FIPS_FixedIP spec)) ;;;
  save.
Definition allocateFIPs : Up () := vms <- get_z (vmOrder ∘ z_vms) ;; forEach vms fipStep.

(** ** Load balancers *)

Definition vipSubnetFor (snap : Snapshot) (lb : string) (ids : liveIDs) : upErr + string :=
  match list_find (λ p, Port_DeviceID p = "lb-" +:+ lb ∧ Port_FixedIPs p ≠ []) (Ports snap) with
  | Some (_, p) =>
      let subnet := default "" (Fip_SubnetID <$> head (Port_FixedIPs p)) in
      match subnetLive ids !! subnet with Some live => inr live | None => inl (VIPSubnet lb subnet) end
  | None => inl (NoVIPPort lb)
  end.
Definition lift {A} (r : upErr + A) : Up A := match r with inl e => fail e | inr a => ret a end.
Definition memberStep (proj lb pool : string) (d : LBDecl) (m : LBMemberDecl) : Up () :=
  subnet <- get_z (λ z, subnetLive (z_ids z) !! LBM_SubnetID m) ;;
  match subnet with
  | None => fail (MemberSubnet (LBD_ID d) (LBM_SubnetID m))
  | Some subnet =>
      callE (Wrapped (LBD_ID d)) (CreateMember proj (mkMemberSpec (name (LBD_ID d +:+ "-" +:+ LBM_Address m)) pool
        (LBM_Address m) (LBM_Port m) subnet)) ;;;
      callC (WaitLBActive proj lb)
  end.
Definition lbBackends (proj lb : string) (d : LBDecl) : Up () :=
  listener <- callE (Wrapped (LBD_ID d)) (CreateListener proj (mkListenerSpec (name (LBD_ID d +:+ "-listener")) lb
    (LBD_Protocol d) (LBD_Port d))) ;;
  pool <- callE (Wrapped (LBD_ID d)) (CreatePool proj (mkPoolSpec (name (LBD_ID d +:+ "-pool")) listener
    (LBD_Protocol d) (LBD_Algorithm d))) ;;
  forEach (LBD_Members d) (memberStep proj lb pool d).
Definition noDecl : LBDecl := mkLBDecl "" "" "" "" Standalone "" 0 "" [].
Definition declOf (b : Builder) (id : string) : LBDecl :=
  default noDecl (foldl (λ m d, <[LBD_ID d := d]> m) (∅ : gmap string LBDecl) (Builder.LoadBalancers b) !! id).
Definition lbStep (b : Builder) (snap : Snapshot) (lb : LoadBalancer) : Up () :=
  proj <- projectID (LB_ProjectID lb) ;;
  vipSubnet <- get_z (vipSubnetFor snap (LB_ID lb) ∘ z_ids) ;;
  vipSubnet <- lift vipSubnet ;;
  flavor <- get_z (lbFlavorID ∘ z_pre) ;;
  r <- callE (Wrapped (LB_ID lb)) (CreateLoadBalancer proj (mkLBSpec (name (LB_ID lb)) vipSubnet flavor)) ;;
  let '(id, vip, vipPort) := r in
  upd (withRS (addLBRef (mkRef (LB_ID lb) id (name (LB_ID lb)) proj "" vip "" false))) ;;;
  upd (withVIP (LB_ID lb) vip) ;;;
  save ;;;
  callC (WaitLBActive proj id) ;;;
  ext <- get_z (extNetID ∘ z_pre) ;;
  addr <- allocateFIP (Wrapped (LB_ID lb)) proj (LB_ID lb) (mkFIPCreateSpec ext vipPort "" "") ;;
  upd (withRS (setLastFIP addr)) ;;;
  save ;;;
  lbBackends proj id (declOf b (LB_ID lb)) ;;;
  amps <- callC (ListAmphorae id) ;;
  upd (withVMs (addTaps (2 * Z.of_nat (length amps)))).
Definition loadBalancers (b : Builder) (snap : Snapshot) : Up () := forEach (Neutron.LoadBalancers snap) (lbStep b snap).

(** ** The attach gate, and the whole run *)

Definition sample (what : string) : Up MetricsSnapshot := callE (Wrapped what) (SampleAcross (Agents (H_Cluster cfg))).
Fixpoint gate (baseline : MetricsSnapshot) (target : spec_float) (ticks : nat) : Up () :=
  snap <- sample "attach gate scrape" ;;
  if fgt (M_AttachFailures snap) (M_AttachFailures baseline) then
    fail (NewFailures (fsub (M_AttachFailures snap) (M_AttachFailures baseline)))
  else if fge (M_AttachedInterfaces snap) target then
    upd (withRS (setAttach (mkAttach target (M_AttachFailures snap)))) ;;; save
  else match ticks with
       | O => fail (GateTimeout (M_AttachedInterfaces snap) target)
       | S ticks => gate baseline target ticks
       end.
Definition attachGate (baseline : MetricsSnapshot) : Up () :=
  expected <- get_z (taps ∘ z_vms) ;;
  if decide (expected = 0) then ret ()
  else gate baseline (fadd (M_AttachedInterfaces baseline) (f64 expected)) ticks.

Definition resolve_placement : Up () :=
  match ResolvePlacement (Sc_Placement sc) (Agents (H_Cluster cfg)) with
  | inl e => fail (PlacementErr e)
  | inr p => upd (withPlacement p) ;;; upd (withRS (setPlacement p))
  end.
Definition run : Up () :=
  match Sc_Builder sc with
  | None => fail Panicked
  | Some b =>
      let snap := Build b in
      resolve_placement ;;;
      resolvePrereqs ;;;
      pre <- sample "anomaly baseline scrape" ;;
      upd (withRS (setAnomalies (M_Anomalies pre))) ;;;
      networks snap ;;;
      subnets snap ;;;
      routers snap ;;;
      routerInterfaces snap ;;;
      routerRoutes snap ;;;
      vmPorts snap ;;;
      baseline <- sample "attach baseline scrape" ;;
      bootServers ;;;
      waitActive ;;;
      allocateFIPs ;;;
      loadBalancers b snap ;;;
      attachGate baseline
  end.
Definition newRealizer : realizer :=
  mkRealizer (NewRunState runID (Sc_Name sc) (H_Prefix cfg)) (mkPre "" "" "" "" "") (mkIDs ∅ ∅ ∅ ∅ ∅)
    (mkMachines ∅ ∅ ∅ ∅ [] 0) ∅ ∅.
(** The run-state is returned on an error too. *)
Definition Run (w : W) : W * RunState * option upErr :=
  match run (w, newRealizer) with
  | ((w, z), inl e) => (w, z_rs z, Some e)
  | ((w, z), inr _) => (w, z_rs z, None)
  end.
End realize.
