(* ===== verification/RealizeSpec.v ===== *)
(** * The record of a run never lags (internal/scenariotest/realize/realize.go)

    The invariant of the realizer: what the run-state in memory records, what the one
    on disk records, and what the run has created, through every call and on
    every error. *)
From S2P Require Import Prelude GoStrings GoArgs GoJson Neutron Builder Scenario Cloud Recorded Realize.

(** What a record adds to the list. *)
#[local] Ltac recs := intros; rewrite /recorded /recordedKeys /keysOf /= ?fmap_app ?list_to_set_app_L /=; set_solver.
Lemma rec_network r rs : recorded (addNetworkRef r rs) = {[(KNetwork, Ref_ID r)]} ∪ recorded rs.
Proof. recs. Qed.
Lemma rec_subnet r rs : recorded (addSubnetRef r rs) = {[(KSubnet, Ref_ID r)]} ∪ recorded rs.
Proof. recs. Qed.
Lemma rec_router r rs : recorded (addRouterRef r rs) = {[(KRouter, Ref_ID r)]} ∪ recorded rs.
Proof. recs. Qed.
Lemma rec_port r rs : recorded (addPortRef r rs) = {[(KPort, Ref_ID r)]} ∪ recorded rs.
Proof. recs. Qed.
Lemma rec_server r rs : recorded (addServerRef r rs) = {[(KServer, Ref_ID r)]} ∪ recorded rs.
Proof. recs. Qed.
Lemma rec_fip r rs : recorded (addFIPRef r rs) = {[(KFIP, FR_ID r)]} ∪ recorded rs.
Proof. recs. Qed.
Lemma rec_lb r rs : recorded (addLBRef r rs) = {[(KLoadBalancer, Ref_ID r)]} ∪ recorded rs.
Proof. recs. Qed.
Lemma rec_lastfip addr rs : recorded (setLastFIP addr rs) = recorded rs.
Proof.
  rewrite /recorded /recordedKeys. f_equal. f_equal. rewrite /keysOf /=. apply list_eq. intros i.
  rewrite !list_lookup_fmap. destruct (decide (i = length (R_LoadBalancers rs) - 1)%nat) as [->|Hne].
  - rewrite list_lookup_alter_eq. by destruct (_ !! _).
  - by rewrite list_lookup_alter_ne.
Qed.

Section spec.
Context `{GoRange} {W : Type} `{!Cloud W, !MetricsSource W, !StateFile W, !World W}.
Context `{!CloudLaws W, !MetricsLaws W, !FileLaws W}.
Variables (cfg : HarnessConfig) (sc : Scenario) (runID path : string) (ticks : nat).
(** The resources, the used ids and the file the run started from. *)
Variables (l0 : Live) (u0 : string → Prop) (d0 : option RunState).
Hypothesis closed0 : ∀ q j, l0 !! q = Some j → u0 (I_Network j) ∧ u0 (I_Subnet j).

Notation St := (W * realizer)%type.
Local Open Scope go_scope.

(** A predicate on the live resources, the state file and the realizer. *)
Definition pred : Type := Live → option RunState → realizer → Prop.
Definition at_ (Q : pred) : St → Prop := λ s, Q (live s.1) (file s.1 path) s.2 ∧ ∀ id, u0 id → used s.1 id.

(** The run-state is this run's, and the machines' projects are in it. *)
Definition own (rs : RunState) : Prop := R_RunID rs = runID ∧ R_Prefix rs = H_Prefix cfg.
Definition vms_known (z : realizer) : Prop := ∀ vm, vm ∈ vmOrder (z_vms z) →
  project_known (z_rs z) (get (vmProject (z_vms z)) vm).
Definition stable (z : realizer) : Prop := own (z_rs z) ∧ vms_known z.

(** The record [rec] accounts for the run but for [extra], at most one resource; it
    is on disk, or there is nothing to record yet. *)
Definition onDisk (l : Live) (d : option RunState) (rec : RunState) (extra : gset key) : Prop :=
  (size extra ≤ 1)%nat ∧ accounts l0 l rec extra ∧ own rec ∧
  (d = Some rec ∨ recorded rec ∪ extra = ∅ ∧ d = d0).
(** A failed write may have torn the file. *)
Definition tears (e : upErr) : Prop := ∃ s, e = SaveErr (WriteErr s).
Definition left_ (e : upErr) (l : Live) (d : option RunState) : Prop :=
  ∃ rec extra, onDisk l d rec extra ∨
    (tears e ∧ d = None ∧ (size extra ≤ 1)%nat ∧ accounts l0 l rec extra ∧ own rec).
(** What is in memory accounts for it, too. *)
Definition memory (l : Live) (z : realizer) : Prop :=
  ∃ extra, (size extra ≤ 1)%nat ∧ accounts l0 l (z_rs z) extra ∧ own (z_rs z).
Definition Left (e : upErr) (s : St) : Prop := left_ e (live s.1) (file s.1 path) ∧ memory (live s.1) s.2.

(** Between two steps; with the file up to date; after a create; before the save. *)
Definition Held : pred := λ l d z, stable z ∧ accounts l0 l (z_rs z) ∅ ∧
  (d = Some (z_rs z) ∨ R_Projects (z_rs z) = ∅ ∧ recorded (z_rs z) = ∅ ∧ d = d0).
Definition Saved : pred := λ l d z, stable z ∧ accounts l0 l (z_rs z) ∅ ∧ d = Some (z_rs z).
Definition Made (r : key) : pred := λ l d z, stable z ∧ accounts l0 l (z_rs z) {[r]} ∧ d = Some (z_rs z).
Definition Noted : pred := λ l d z, stable z ∧ accounts l0 l (z_rs z) ∅ ∧ ∃ rec extra, onDisk l d rec extra.
(** Whatever else holds. *)
Definition with_ (Q : pred) (R : realizer → Prop) : pred := λ l d z, Q l d z ∧ R z.

Lemma Saved_Held l d z : Saved l d z → Held l d z.
Proof. intros (? & ? & ->). split_and!; [done..|by left]. Qed.
Lemma Held_disk l d z : Held l d z → onDisk l d (z_rs z) ∅.
Proof.
  intros ([Ho _] & Ha & Hd). split_and!; [rewrite size_empty; lia|done..|].
  destruct Hd as [->|(_ & Hr & ->)]; [by left|]. right. by rewrite Hr union_empty_r_L.
Qed.
Lemma Made_disk r l d z : Made r l d z → onDisk l d (z_rs z) {[r]}.
Proof. intros ([Ho _] & Ha & ->). split_and!; [by rewrite size_singleton|done..|by left]. Qed.
Lemma Held_Noted l d z : Held l d z → Noted l d z.
Proof. intros Hh. pose proof (Held_disk _ _ _ Hh). destruct Hh as (? & ? & _). split_and!; [done..|]. by eexists _, _. Qed.
Lemma Noted_memory l d z : Noted l d z → memory l z.
Proof. intros ([Ho _] & Ha & _). exists ∅. split_and!; [rewrite size_empty; lia|done..]. Qed.
Lemma Made_memory r l d z : Made r l d z → memory l z.
Proof. intros ([Ho _] & Ha & _). exists {[r]}. split_and!; [by rewrite size_singleton|done..]. Qed.
Definition safe (Q : pred) : Prop := ∀ l d z, Q l d z → (∃ rec extra, onDisk l d rec extra) ∧ memory l z.
Lemma safe_Noted R : safe (with_ Noted R).
Proof. intros l d z [Hn _]. split; [apply Hn|by eapply Noted_memory]. Qed.
Lemma safe_weaken (Q Q' : pred) : safe Q → (∀ l d z, Q' l d z → Q l d z) → safe Q'.
Proof. intros Hs HQ l d z Hz. by apply (Hs l d z), HQ. Qed.
Lemma safe_Held R : safe (with_ Held R).
Proof. apply (safe_weaken _ _ (safe_Noted R)). intros l d z [Hh ?]. split; [by apply Held_Noted|done]. Qed.
Lemma safe_Saved R : safe (with_ Saved R).
Proof. apply (safe_weaken _ _ (safe_Held R)). intros l d z [Hh ?]. split; [by apply Saved_Held|done]. Qed.
Lemma safe_held : safe Held.
Proof. apply (safe_weaken _ _ (safe_Held (λ _, True))). by intros l d z. Qed.
Lemma safe_Made r R : safe (with_ (Made r) R).
Proof. intros l d z [Hh _]. split; [by eexists _, _; apply Made_disk|by eapply Made_memory]. Qed.

(** ** The rules of the realizer's calls *)

Lemma r_quiet {A} wrap (c : Call W A) Q : quiet c → safe Q → triple (at_ Q) (callE wrap c) (λ _, at_ Q) Left.
Proof.
  intros [Hf Hl] Hs [w z] [HQ Hu]. rewrite /callE /=. specialize (Hl w). destruct (Hf w) as [Hd Hu'].
  destruct (c w) as [w' [e|a]]; simpl in *.
  - destruct (Hs _ _ _ HQ) as [(rec & extra & Hdisk) Hm]. split; [|by rewrite /= Hl].
    exists rec, extra. left. by rewrite /= Hl Hd.
  - split; [by rewrite /= Hl Hd|]. intros id Hid. by apply Hu', Hu.
Qed.
Lemma r_make {A} wrap (c : Call W A) (id_of : A → string) k i R :
  (∀ w, creates id_of k i w (c w).1 (c w).2) → keepsFiles c →
  (∀ z, stable z → R z → k = KServer → run_server (z_rs z) i) →
  triple (at_ (with_ Saved R)) (callE wrap c) (λ a, at_ (with_ (Made (k, id_of a)) R)) Left.
Proof.
  intros Hc Hf Hs [w z] [[(Hst & Ha & Hd) HR] Hu]. rewrite /callE /=.
  assert (∀ q j, l0 !! q = Some j → used w (I_Network j) ∧ used w (I_Subnet j)) as Hcl.
  { intros q j Hq. destruct (closed0 q j Hq). split; by apply Hu. }
  pose proof (accounts_create id_of k i _ w _ _ (z_rs z) Ha (Hc w) (λ E, Hs z Hst HR E) Hcl) as Hacc.
  destruct (Hf w) as [Hfile Hu'].
  destruct (c w) as [w' [e|a]]; simpl in *.
  - destruct Hacc as (extra & Hsz & Hacc). split; [|exists extra; split_and!; [done..|apply Hst]].
    exists (z_rs z), extra. left. rewrite Hfile. split_and!; [done..|apply Hst|by left].
  - split; [|intros id Hid; by apply Hu', Hu]. split; [|done]. by rewrite /Made /= Hfile.
Qed.
Lemma r_upd f (Q Q' : pred) X : (∀ l d z, Q l d z → Q' l d (f z)) → triple (at_ Q) (upd f) (λ _, at_ Q') X.
Proof. intros Hf [w z] [HQ Hu]. split; [by apply Hf|done]. Qed.
Lemma r_get {A} (f : realizer → A) (Q : pred) X :
  triple (at_ Q) (get_z f) (λ a, at_ (with_ Q (λ z, a = f z))) X.
Proof. by intros [w z] [HQ Hu]. Qed.
Lemma r_fail {A} e Q (Q' : A → St → Prop) : safe Q → triple (at_ Q) (fail e) Q' Left.
Proof.
  intros Hs [w z] [HQ _]. destruct (Hs _ _ _ HQ) as [(rec & extra & Hd) Hm]. split; [|done]. exists rec, extra. by left.
Qed.
(** A weaker predicate, where it is enough. *)
Lemma at_weaken (Q Q' : pred) s : (∀ l d z, Q l d z → Q' l d z) → at_ Q s → at_ Q' s.
Proof. intros HQQ [HQ Hu]. split; [by apply HQQ|done]. Qed.

Lemma Save_spec (rs : RunState) w : live (Save rs path w).1 = live w ∧ (∀ id, used w id → used (Save rs path w).1 id) ∧
  match (Save rs path w).2 with
  | inr _ => file (Save rs path w).1 path = Some rs
  | inl (WriteErr _) => file (Save rs path w).1 path = file w path ∨ file (Save rs path w).1 path = None
  | inl _ => file (Save rs path w).1 path = file w path
  end.
Proof.
  rewrite /Save. destruct (quiet_MkdirAll (Dir path)) as [Hf Hl]. destruct (Hf w) as [Hd Hu]. specialize (Hl w).
  destruct (MkdirAll (Dir path) w) as [w1 [e|[]]]; simpl in *; [by rewrite Hl Hd|].
  destruct (marshals rs); [|by rewrite /= Hl Hd].
  destruct (live_WriteFile path rs w1) as [Hl' Hu']. pose proof (law_WriteFile path rs w1) as Hw.
  destruct (WriteFile path rs w1) as [w2 [e|[]]]; simpl in *; rewrite Hl' Hl;
    (split_and!; [done|intros id Hid; by apply Hu', Hu|]); rewrite -?Hd; done.
Qed.
Lemma r_save R : triple (at_ (with_ Noted R)) (save path) (λ _, at_ (with_ Saved R)) Left.
Proof.
  intros [w z] [[((Hst & Hv) & Ha & rec & extra & Hd) HR] Hu]. rewrite /save /=.
  destruct (Save_spec (z_rs z) w) as (Hl & Hu' & Hf). destruct (Save (z_rs z) path w) as [w' [e|[]]]; simpl in *.
  - assert (memory (live w') z) as Hm.
    { rewrite Hl. exists ∅. split_and!; [rewrite size_empty; lia|done..]. }
    split; [|done]. destruct e as [e| |e]; cbn [fst snd].
    + exists rec, extra. left. by rewrite Hl Hf.
    + exists rec, extra. left. by rewrite Hl Hf.
    + destruct Hf as [Hf|Hf]; rewrite /left_ Hl Hf.
      * exists rec, extra. by left.
      * exists (z_rs z), ∅. right. split_and!; [by eexists|done|rewrite size_empty; lia|done|done].
  - split; [|intros id Hid; by apply Hu', Hu]. split; [|done]. split_and!; [done|by rewrite /= Hl|done].
Qed.

(** Updates that leave the run-state and the machines alone. *)
Lemma r_frame f (Q : pred) (R R' : realizer → Prop) X : Q = Held ∨ Q = Saved ∨ (∃ r, Q = Made r) ∨ Q = Noted →
  (∀ z, z_rs (f z) = z_rs z ∧ z_vms (f z) = z_vms z) → (∀ z, R z → R' (f z)) →
  triple (at_ (with_ Q R)) (upd f) (λ _, at_ (with_ Q R')) X.
Proof.
  intros HQ Hf HR. apply r_upd. intros l d z [Hz Hr]. split; [|by apply HR].
  assert (stable z → stable (f z)) as Hst.
  { destruct (Hf z) as [E1 E2]. by rewrite /stable /vms_known E1 E2. }
  destruct (Hf z) as [E1 _]. destruct HQ as [->|[->|[[r ->]| ->]]]; destruct Hz as (H1 & H2);
    (split; [by apply Hst|]); by rewrite E1.
Qed.
(** Updates of the run-state that keep whose it is. *)
Record same_run (rs rs' : RunState) : Prop := mkSame {
  sm_id : R_RunID rs' = R_RunID rs; sm_prefix : R_Prefix rs' = R_Prefix rs;
  sm_projects : ∀ p, project_known rs p → project_known rs' p }.
Lemma same_own rs rs' : same_run rs rs' → own rs → own rs'.
Proof. intros [E1 E2 _] [H1 H2]. split; congruence. Qed.
Lemma same_server rs rs' i : same_run rs rs' → run_server rs i → run_server rs' i.
Proof. intros [E1 E2 E3] [H1 H2]. split; [by rewrite /run_prefix E1 E2|by apply E3]. Qed.
Lemma same_stable z f : same_run (z_rs z) (f (z_rs z)) → stable z → stable (withRS f z).
Proof. intros Hs [Ho Hv]. split; [by eapply same_own|]. intros vm Hvm. by apply Hs, Hv. Qed.
Lemma r_note f r (R R' : realizer → Prop) X : (∀ rs, recorded (f rs) = {[r]} ∪ recorded rs) → (∀ rs, same_run rs (f rs)) →
  (∀ z, R z → R' (withRS f z)) →
  triple (at_ (with_ (Made r) R)) (upd (withRS f)) (λ _, at_ (with_ Noted R')) X.
Proof.
  intros Hr Hs HR. apply r_upd. intros l d z [Hm Hz]. split; [|by apply HR].
  pose proof (Made_disk _ _ _ _ Hm) as Hd. destruct Hm as (Hst & Ha & _).
  split; [by apply same_stable|]. split; [|by eexists _, _].
  eapply accounts_move; [done| |by intros i; apply same_server].
  by rewrite /= Hr union_empty_r_L (comm_L (∪)).
Qed.
(** Updates that record nothing new. *)
Lemma r_meta f (Q : pred) (R R' : realizer → Prop) X : (∀ l d z, Q l d z → Noted l d z) →
  (∀ rs, recorded (f rs) = recorded rs) →
  (∀ z, R z → same_run (z_rs z) (f (z_rs z)) ∧ R' (withRS f z)) →
  triple (at_ (with_ Q R)) (upd (withRS f)) (λ _, at_ (with_ Noted R')) X.
Proof.
  intros HQ Hr HR. apply r_upd. intros l d z [Hz%HQ Hrz]. destruct (HR z Hrz) as [Hs Hr']. split; [|done].
  destruct Hz as (Hst & Ha & Hd). split; [by apply same_stable|]. split; [|done].
  eapply accounts_move; [done|by rewrite /= Hr|by intros i; apply same_server].
Qed.

Definition anything : realizer → Prop := λ _, True.
Lemma plain Q l d z : Q l d z → with_ Q anything l d z.
Proof. done. Qed.

(** ** Projects *)

Lemma findOrCreate_spec mangled policy Q : safe Q → triple (at_ Q) (findOrCreate mangled policy) (λ _, at_ Q) Left.
Proof.
  intros Hs. eapply triple_bind; [by apply r_quiet; [apply quiet_FindProject|]|]. intros [id|].
  - case_decide; [by apply r_fail|]. by intros s.
  - eapply triple_bind; [by apply r_quiet; [apply quiet_CreateProject|]|]. intros id. by intros s.
Qed.
Lemma setProject_same dsl p rs : R_Projects rs !! dsl = None → same_run rs (setProject dsl p rs).
Proof.
  intros Hn. split; [done..|]. intros q (dsl' & ref & Hl & E). exists dsl', ref. split; [|done].
  rewrite /= lookup_insert_ne; [|done]. intros <-. by rewrite Hl in Hn.
Qed.
Lemma projectID_spec dsl : triple (at_ Held) (projectID cfg sc path dsl)
  (λ p, at_ (with_ Saved (λ z, project_known (z_rs z) p))) Left.
Proof.
  eapply triple_bind; [apply r_get|]. intros [ref|]; cbv beta.
  - intros [w z] [[(Hst & Ha & Hd) Hz] Hu]. simpl in *. split; [|done]. split.
    + split_and!; [done..|]. destruct Hd as [Hd|(Hp & _)]; [done|]. by rewrite Hp in Hz.
    + by eexists dsl, ref.
  - cbv zeta. eapply triple_bind; [apply findOrCreate_spec, safe_Held|]. intros [id new].
    eapply triple_bind; [apply r_quiet; [apply quiet_GrantAdminRole|apply safe_Held]|]. intros [].
    eapply triple_bind; [eapply (r_meta _ Held _ (λ z, project_known (z_rs z) id))|].
    + intros l d z. apply Held_Noted.
    + done.
    + intros z Hz. split; [by apply setProject_same|]. eexists dsl, _. rewrite /= lookup_insert_eq. by split.
    + intros []. eapply triple_bind; [apply r_save|]. intros []. by intros s.
Qed.

(** ** Steps, each from [Held] to [Held] *)

Definition step (m : Prog St upErr ()) : Prop := triple (at_ Held) m (λ _, at_ Held) Left.

Lemma done_Saved R : ∀ s, at_ (with_ Saved R) s → at_ Held s.
Proof. intros s. apply at_weaken. intros l d z [Hs _]. by apply Saved_Held. Qed.
Lemma step_ret R : triple (at_ (with_ Held R)) (ret () : Prog St upErr ()) (λ _, at_ Held) Left.
Proof. by intros s [[Hs _] Hu]. Qed.
Lemma step_save R : triple (at_ (with_ Noted R)) (save path) (λ _, at_ Held) Left.
Proof. eapply triple_post; [apply r_save|]. intros a s. by apply done_Saved. Qed.
Lemma step_quiet {A} wrap (c : Call W A) : quiet c → triple (at_ Held) (callE wrap c) (λ _, at_ Held) Left.
Proof. intros Hc. apply r_quiet; [done|]. apply safe_held. Qed.
Lemma step_frame f Q : (∀ l d z, Q l d z → Held l d z) →
  (∀ z, z_rs (f z) = z_rs z ∧ z_vms (f z) = z_vms z) → triple (at_ Q) (upd f) (λ _, at_ Held) Left.
Proof.
  intros HQ Hf. eapply triple_pre; [apply triple_post with (Q := λ _, at_ (with_ Held anything));
    [apply (r_frame f Held anything anything); [by left|done|done]|]|].
  - intros a s. apply at_weaken. by intros l d z [].
  - intros s. apply at_weaken. intros l d z Hz. split; [by apply HQ|done].
Qed.
Lemma step_Saved m R : step m → triple (at_ (with_ Saved R)) m (λ _, at_ Held) Left.
Proof. intros Hm. eapply triple_pre; [exact Hm|]. apply done_Saved. Qed.
Lemma step_Held m R : step m → triple (at_ (with_ Held R)) m (λ _, at_ Held) Left.
Proof. intros Hm. eapply triple_pre; [exact Hm|]. intros s. apply at_weaken. by intros l d z []. Qed.

#[local] Ltac bind r := eapply triple_bind; [r|intros ?; cbv beta].
#[local] Ltac frames := first [by left|by right; left|by right; right; left; eexists|by right; right; right].

(** A create, its record and the save; in [make_step] with the bookkeeping between. *)
Lemma make_record {A} wrap (c : Call W A) (id_of : A → string) k i (f : A → RunState → RunState) R R' :
  (∀ w, creates id_of k i w (c w).1 (c w).2) → keepsFiles c →
  (∀ z, stable z → R z → k = KServer → run_server (z_rs z) i) →
  (∀ a rs, recorded (f a rs) = {[(k, id_of a)]} ∪ recorded rs) → (∀ a rs, same_run rs (f a rs)) →
  (∀ a z, R z → R' (withRS (f a) z)) →
  triple (at_ (with_ Saved R)) (a <- callE wrap c ;; upd (withRS (f a)) ;;; save path)
    (λ _, at_ (with_ Saved R')) Left.
Proof.
  intros Hc Hf Hs Hr Hm HR. bind ltac:(by apply (r_make wrap c id_of k i R)).
  bind ltac:(apply (r_note (f a) (k, id_of a) R R'); [apply Hr|apply Hm|apply HR]). apply r_save.
Qed.
Lemma make_step {A} wrap (c : Call W A) (id_of : A → string) k i (g : A → realizer → realizer)
    (f : A → RunState → RunState) R :
  (∀ w, creates id_of k i w (c w).1 (c w).2) → keepsFiles c → k ≠ KServer →
  (∀ a z, z_rs (g a z) = z_rs z ∧ z_vms (g a z) = z_vms z) →
  (∀ a rs, recorded (f a rs) = {[(k, id_of a)]} ∪ recorded rs) → (∀ a rs, same_run rs (f a rs)) →
  triple (at_ (with_ Saved R))
    (a <- callE wrap c ;; upd (g a) ;;; upd (withRS (f a)) ;;; save path) (λ _, at_ Held) Left.
Proof.
  intros Hc Hf Hk Hg Hr Hm. bind ltac:(by apply (r_make wrap c id_of k i R)).
  bind ltac:(apply (r_frame (g a) (Made (k, id_of a)) R anything); [frames|apply Hg|done]).
  bind ltac:(apply (r_note (f a) (k, id_of a) anything anything); [apply Hr|apply Hm|done]). apply step_save.
Qed.

Lemma same_resources f rs : R_RunID (f rs) = R_RunID rs → R_Prefix (f rs) = R_Prefix rs →
  R_Projects (f rs) = R_Projects rs → same_run rs (f rs).
Proof. intros E1 E2 E3. split; [done..|]. intros p (dsl & ref & ? & ?). exists dsl, ref. by rewrite E3. Qed.

#[local] Ltac same := by intros; apply same_resources.
Lemma networkStep_ok n : step (networkStep cfg sc runID path n).
Proof.
  rewrite /step /networkStep. case_match.
  - bind ltac:(apply r_get). apply step_frame; [by intros l d z []|done].
  - bind ltac:(apply projectID_spec).
    eapply (make_step _ _ id KNetwork _ (λ id, withIDs (addNetLive (Net_ID n) id)));
      [intros w; apply law_CreateNetwork|apply files_CreateNetwork|done|done|intros; apply rec_network|same].
Qed.
(** A read whose value does not matter. *)
Lemma r_peek {A} (f : realizer → A) (Q : pred) X : triple (at_ Q) (get_z f) (λ _, at_ Q) X.
Proof. by intros [w z] HQ. Qed.
#[local] Ltac peek := bind ltac:(apply r_peek).
Lemma subnetStep_ok s : step (subnetStep cfg sc runID path s).
Proof.
  rewrite /step /subnetStep. bind ltac:(by apply step_frame). peek. case_match; [by intros ?|].
  bind ltac:(apply projectID_spec). peek.
  eapply (make_step _ _ id KSubnet _ (λ id, withIDs (addSubnetLive (Sub_ID s) id)));
    [intros w; apply law_CreateSubnet|apply files_CreateSubnet|done|done|intros; apply rec_subnet|same].
Qed.
Lemma routerStep_ok rt : step (routerStep cfg sc runID path rt).
Proof.
  rewrite /step /routerStep. bind ltac:(apply projectID_spec). peek.
  eapply (make_step _ _ id KRouter _ (λ id, withIDs (addRouterLive (Router_ID rt) id)));
    [intros w; apply law_CreateRouter|apply files_CreateRouter|done|done|intros; apply rec_router|same].
Qed.
Lemma routeStep_ok rt : step (routeStep cfg sc path rt).
Proof.
  rewrite /step /routeStep. case_decide; [by intros s|]. bind ltac:(apply projectID_spec). peek.
  eapply triple_pre; [apply step_quiet, quiet_SetRouterRoutes|apply done_Saved].
Qed.

(** A port is recorded with its MAC; until then it is the one resource ahead. *)
Definition knows (proj : string) : realizer → Prop := λ z, project_known (z_rs z) proj.
Lemma r_taps n (Q : pred) X : Q = Held ∨ Q = Saved ∨ (∃ r, Q = Made r) ∨ Q = Noted →
  ∀ R : RunState → Prop, triple (at_ (with_ Q (λ z, R (z_rs z)))) (upd (withVMs (addTaps n)))
    (λ _, at_ (with_ Q (λ z, R (z_rs z)))) X.
Proof. intros HQ R. apply r_upd. intros l d z [Hz Hr]. split; [|done]. by destruct HQ as [->|[->|[[r ->]| ->]]]. Qed.
Lemma recordPort_ok p port proj isRouter :
  triple (at_ (with_ (Made (KPort, port)) (knows proj))) (recordPort cfg runID p port proj isRouter)
    (λ _, at_ (with_ Noted (knows proj))) Left.
Proof.
  rewrite /recordPort. bind ltac:(apply r_quiet; [apply quiet_PortMAC|apply safe_Made]).
  eapply (triple_bind _ _ _ (λ _, at_ (with_ (Made (KPort, port)) (knows proj)))).
  { destruct isRouter; [by intros s|]. apply (r_taps 1 (Made (KPort, port))) with (R := λ rs, project_known rs proj).
    right; right; left; by eexists. }
  intros _. apply (r_note _ (KPort, port)); [intros; apply rec_port|same|done].
Qed.
Lemma interfaceStep_ok p : step (interfaceStep cfg sc runID path p).
Proof.
  rewrite /step /interfaceStep. case_decide; [by intros s|]. peek.
  case_decide; [apply r_fail, safe_held|].
  bind ltac:(apply projectID_spec). destruct (Port_FixedIPs p) as [|fip _]; [apply r_fail, safe_Saved|].
  peek. case_decide; [apply r_fail, safe_Saved|]. peek. case_decide.
  { eapply triple_pre; [apply step_quiet, quiet_AddRouterInterface|apply done_Saved]. }
  peek. bind ltac:(eapply (r_make _ _ id KPort); [intros w; apply law_CreatePort|apply files_CreatePort|done]).
  bind ltac:(apply recordPort_ok). bind ltac:(apply step_save). apply step_quiet, quiet_AddRouterInterface.
Qed.

Lemma get_insert_eq m k v : get (<[k := v]> m) k = v.
Proof. by rewrite /get lookup_insert_eq. Qed.
Lemma get_insert_ne m k k' v : k ≠ k' → get (<[k := v]> m) k' = get m k'.
Proof. intros Hne. by rewrite /get lookup_insert_ne. Qed.
Lemma r_track p vm port proj ip X : triple (at_ (with_ Noted (knows proj)))
  (upd (withVMs (trackNIC p vm port proj ip))) (λ _, at_ (with_ Noted anything)) X.
Proof.
  apply r_upd. intros l d z [((Ho & Hv) & Hn) Hk]. split; [|done]. split; [|done]. split; [done|].
  rewrite /trackNIC /withVMs. case_decide; [|done]. intros vm'. cbn [z_vms z_rs vmOrder vmProject addPrimary].
  destruct (decide (vm = vm')) as [<-|Hne]; [by rewrite get_insert_eq|]. rewrite get_insert_ne //.
  intros [Hin|Hin%list_elem_of_singleton]%elem_of_app; [by apply Hv|congruence].
Qed.
Lemma vmPortStep_ok snap p : step (vmPortStep cfg sc runID path snap p).
Proof.
  pose proof safe_held as Hsafe.
  rewrite /step /vmPortStep. case_match; [by intros s|]. case_decide; [by intros s|]. cbv zeta.
  case_decide; [by apply r_fail|]. case_decide; [by intros s|].
  bind ltac:(apply projectID_spec). destruct (Port_FixedIPs p) as [|fip _]; [apply r_fail, safe_Saved|].
  do 3 peek. bind ltac:(eapply (r_make _ _ id KPort); [intros w; apply law_CreatePort|apply files_CreatePort|done]).
  bind ltac:(apply recordPort_ok). bind ltac:(apply r_track). apply step_save.
Qed.

(** ** Machines, their servers and addresses *)

(** The machines of [vms] have their ports. *)
Definition listed (vms : list string) : realizer → Prop := λ z, ∀ vm, vm ∈ vms → vm ∈ vmOrder (z_vms z).
Lemma listed_saved vms vm l d z : vm ∈ vms → with_ Held (listed vms) l d z →
  with_ Saved (λ z, listed vms z ∧ knows (get (vmProject (z_vms z)) vm) z) l d z.
Proof.
  intros Hin [((Ho & Hv) & Ha & Hd) Hl]. pose proof (Hv vm (Hl vm Hin)) as Hk. split; [|done].
  split_and!; [done|done|]. destruct Hd as [->|(Hp & _)]; [done|].
  destruct Hk as (dsl & ref & Hk & _). by rewrite Hp in Hk.
Qed.
Lemma name_own rs vm : own rs → HasPrefix (name cfg runID vm) (run_prefix rs) = true.
Proof. intros [E1 E2]. rewrite /run_prefix E1 E2 /name Mangle_prefix. apply prefix_HasPrefix. Qed.
Lemma bootStep_ok vms vm : vm ∈ vms →
  triple (at_ (with_ Held (listed vms))) (bootStep cfg runID path vm) (λ _, at_ (with_ Held (listed vms))) Left.
Proof.
  intros Hin. rewrite /bootStep. eapply triple_pre; [|intros s; apply at_weaken; intros l d z; by apply listed_saved].
  bind ltac:(apply r_get). bind ltac:(apply r_get).
  eapply triple_pre with (P := at_ (with_ Saved (λ z, listed vms z ∧ knows a z ∧ SvS_Name a0 = name cfg runID vm))).
  - eapply triple_post; [eapply (make_record _ _ id KServer _ _ _ (listed vms))|].
    + intros w. apply law_CreateServer.
    + apply files_CreateServer.
    + intros z [Ho _] (_ & Hk & E) _. split; [|done]. rewrite /= E. by apply name_own.
    + intros. apply rec_server.
    + same.
    + by intros ? z [].
    + intros ? s. apply at_weaken. intros l d z [Hs Hl]. split; [by apply Saved_Held|done].
  - intros s. apply at_weaken. by intros l d z [[[Hs [Hl Hk]] ->] ->].
Qed.
Lemma each_vm (f : string → Prog St upErr ()) :
  (∀ vms vm, vm ∈ vms → triple (at_ (with_ Held (listed vms))) (f vm) (λ _, at_ (with_ Held (listed vms))) Left) →
  step (vms <- get_z (vmOrder ∘ z_vms) ;; forEach vms f).
Proof.
  intros Hf. eapply triple_bind; [apply r_get|]. intros vms.
  eapply triple_pre with (P := at_ (with_ Held (listed vms))).
  - eapply triple_post; [apply triple_forEach; intros vm; by apply Hf|]. intros ? s. apply at_weaken. by intros l d z [].
  - intros s. apply at_weaken. intros l d z [Hs ->]. split; [done|]. by intros vm Hvm.
Qed.
Lemma bootServers_ok : step (bootServers cfg runID path).
Proof. apply each_vm. intros vms vm. apply bootStep_ok. Qed.
Lemma waitActive_ok : step waitActive.
Proof.
  rewrite /step /waitActive. peek. apply triple_forEach_inv. intros r. apply step_quiet, quiet_WaitServerActive.
Qed.
Lemma allocateFIP_ok wrap proj vm spec R (Hm : ∀ z f, R z → R (withRS (addFIPRef f) z)) :
  triple (at_ (with_ Saved R)) (allocateFIP wrap proj vm spec) (λ _, at_ (with_ Noted R)) Left.
Proof.
  rewrite /allocateFIP. bind ltac:(eapply (r_make _ _ fst KFIP); [intros w; apply law_CreateFIP|apply files_CreateFIP|done]).
  bind ltac:(apply (r_note _ (KFIP, a.1) R R); [intros; apply rec_fip|same|intros z; apply Hm]). by intros s.
Qed.
Lemma fipStep_ok vms vm : vm ∈ vms →
  triple (at_ (with_ Held (listed vms))) (fipStep sc path vm) (λ _, at_ (with_ Held (listed vms))) Left.
Proof.
  intros Hin. rewrite /fipStep. eapply triple_pre with (P := at_ (with_ Saved (listed vms))).
  2:{ intros s. apply at_weaken. intros l d z Hs. apply listed_saved with (vm := vm) in Hs as [Hs [Hl _]]; [|done]. by split. }
  peek. cbv zeta.
  eapply (triple_bind _ _ _ (λ _, at_ (with_ Saved (listed vms)))).
  { case_decide; [apply r_peek|]. apply r_quiet; [apply quiet_FindExternalNetwork|apply safe_Saved]. }
  intros ext. do 2 peek. bind ltac:(by apply allocateFIP_ok).
  eapply triple_post; [apply r_save|]. intros ? s. apply at_weaken. intros l d z [Hs Hl]. split; [by apply Saved_Held|done].
Qed.
Lemma allocateFIPs_ok : step (allocateFIPs sc path).
Proof. apply each_vm. intros vms vm. apply fipStep_ok. Qed.

(** ** Load balancers *)

Lemma saved_quiet {A} wrap (c : Call W A) R : quiet c →
  triple (at_ (with_ Saved R)) (callE wrap c) (λ _, at_ (with_ Saved R)) Left.
Proof. intros Hc. apply r_quiet; [done|apply safe_Saved]. Qed.
Lemma memberStep_ok proj lb pool d m R : triple (at_ (with_ Saved R)) (memberStep cfg runID proj lb pool d m)
  (λ _, at_ (with_ Saved R)) Left.
Proof.
  rewrite /memberStep. peek. case_match; [|apply r_fail, safe_Saved].
  bind ltac:(apply saved_quiet, quiet_CreateMember). apply saved_quiet, quiet_WaitLBActive.
Qed.
Lemma lbBackends_ok proj lb d R : triple (at_ (with_ Saved R)) (lbBackends cfg runID proj lb d)
  (λ _, at_ (with_ Saved R)) Left.
Proof.
  rewrite /lbBackends. bind ltac:(apply saved_quiet, quiet_CreateListener).
  bind ltac:(apply saved_quiet, quiet_CreatePool). apply triple_forEach_inv. intros m. apply memberStep_ok.
Qed.
Lemma lbStep_ok b snap lb : step (lbStep cfg sc runID path b snap lb).
Proof.
  rewrite /step /lbStep. bind ltac:(apply projectID_spec). peek.
  eapply (triple_bind _ _ _ (λ _, at_ (with_ Saved (knows a)))).
  { destruct a0; [apply r_fail, safe_Saved|by intros ?]. }
  intros vip. peek. eapply triple_bind; [eapply (r_make _ _ (λ x, x.1.1) KLoadBalancer);
    [intros w; apply law_CreateLoadBalancer|apply files_CreateLoadBalancer|done]|].
  intros [[id v] vp]. cbn [fst snd].
  bind ltac:(apply (r_note _ (KLoadBalancer, id) _ anything); [intros; apply rec_lb|same|done]).
  bind ltac:(apply (r_frame _ Noted anything anything); [frames|done|done]). bind ltac:(apply r_save).
  bind ltac:(apply saved_quiet, quiet_WaitLBActive). peek. bind ltac:(by apply allocateFIP_ok).
  bind ltac:(apply (r_meta _ Noted anything anything); [done|apply rec_lastfip|by intros z; split; [same|]]).
  bind ltac:(apply r_save). bind ltac:(apply lbBackends_ok). bind ltac:(apply saved_quiet, quiet_ListAmphorae).
  eapply triple_post; [apply (r_taps _ Saved) with (R := λ _, True); by right; left|]. intros ? s. apply done_Saved.
Qed.

(** ** Scrapes and the gate *)

Lemma quiet_Sample agents : quiet (SampleAcross agents).
Proof.
  rewrite /SampleAcross. generalize noMetrics. induction agents as [|ag agents IH]; intros snap; [done|].
  destruct (quiet_Scrape (AC_MetricsURL ag)) as [Hf Hl]. split.
  - intros w. simpl. destruct (Hf w) as [Hd Hu]. destruct (Scrape _ w) as [w1 [e|r]]; simpl in *; [done|].
    destruct (IH (addScrape ag r snap)) as [Hf1 _]. destruct (Hf1 w1) as [Hd1 Hu1].
    split; [intros p; by rewrite Hd1|intros id Hid; by apply Hu1, Hu].
  - intros w. simpl. specialize (Hl w). destruct (Scrape _ w) as [w1 [e|r]]; simpl in *; [done|].
    destruct (IH (addScrape ag r snap)) as [_ Hl1]. by rewrite Hl1.
Qed.
Lemma meta_ok f X : (∀ rs, recorded (f rs) = recorded rs) → (∀ rs, same_run rs (f rs)) →
  triple (at_ Held) (upd (withRS f)) (λ _, at_ (with_ Noted anything)) X.
Proof.
  intros Hr Hs. eapply triple_pre with (P := at_ (with_ Held anything)); [|intros s; by apply at_weaken].
  apply r_meta; [apply Held_Noted|done|by intros z].
Qed.
Lemma gate_ok baseline target n : step (gate cfg path baseline target n).
Proof.
  induction n as [|n IH]; rewrite /step; cbn [gate].
  all: bind ltac:(apply step_quiet, quiet_Sample); case_match;
    [apply r_fail, safe_held|]; case_match;
    [bind ltac:(apply meta_ok; [done|same]); apply step_save|].
  - apply r_fail, safe_held.
  - apply IH.
Qed.
Lemma attachGate_ok baseline : step (attachGate cfg path ticks baseline).
Proof. rewrite /step /attachGate. peek. case_decide; [by intros s|apply gate_ok]. Qed.

(** ** The whole run *)

(** Before the first project: nothing recorded, nothing saved. *)
Definition Unsaved : pred := λ l d z, stable z ∧ accounts l0 l (z_rs z) ∅ ∧
  R_Projects (z_rs z) = ∅ ∧ recorded (z_rs z) = ∅ ∧ d = d0.
Lemma Unsaved_Held l d z : Unsaved l d z → Held l d z.
Proof. intros (? & ? & Hd). split_and!; [done..|by right]. Qed.
Lemma safe_Unsaved : safe Unsaved.
Proof. apply (safe_weaken _ _ safe_held), Unsaved_Held. Qed.
Lemma fresh_frame f X : (∀ z, z_rs (f z) = z_rs z ∧ z_vms (f z) = z_vms z) →
  triple (at_ Unsaved) (upd f) (λ _, at_ Unsaved) X.
Proof.
  intros Hf. apply r_upd. intros l d z (Hst & Hz). destruct (Hf z) as [E1 E2].
  rewrite /Unsaved /stable /vms_known E1 E2. by split.
Qed.
Lemma fresh_meta f X : (∀ rs, recorded (f rs) = recorded rs) → (∀ rs, same_run rs (f rs)) →
  (∀ rs, R_Projects (f rs) = R_Projects rs) → triple (at_ Unsaved) (upd (withRS f)) (λ _, at_ Unsaved) X.
Proof.
  intros Hr Hs Hp. apply r_upd. intros l d z (Hst & Ha & Hz & Hn & Hd).
  split; [by apply same_stable|]. split; [|by rewrite /= Hp Hr].
  eapply accounts_move; [done|by rewrite /= Hr|by intros i; apply same_server].
Qed.
#[local] Ltac quiets r := bind ltac:(apply r_quiet; [apply r|apply safe_Unsaved]).
Lemma resolve_placement_ok : triple (at_ Unsaved) (resolve_placement cfg sc) (λ _, at_ Unsaved) Left.
Proof.
  rewrite /resolve_placement. case_match; [apply r_fail, safe_Unsaved|].
  bind ltac:(by apply fresh_frame). apply fresh_meta; [done|same|done].
Qed.
Lemma resolvePrereqs_ok : triple (at_ Unsaved) (resolvePrereqs cfg sc) (λ _, at_ Unsaved) Left.
Proof.
  rewrite /resolvePrereqs. eapply (triple_bind _ _ _ (λ _, at_ Unsaved)).
  { case_match; [apply r_quiet; [apply quiet_FindLBFlavor|apply safe_Unsaved]|by intros ?]. }
  intros lb. bind ltac:(by apply fresh_frame). quiets quiet_FindExternalNetwork. bind ltac:(by apply fresh_frame).
  quiets quiet_FindFlavor. bind ltac:(by apply fresh_frame). quiets quiet_FindImage. bind ltac:(by apply fresh_frame).
  quiets quiet_FindSecGroup. by apply fresh_frame.
Qed.
Lemma loop_ok {A} (l : list A) f : (∀ x, step (f x)) → step (forEach l f).
Proof. apply triple_forEach_inv. Qed.
Lemma run_triple : triple (at_ Unsaved) (run cfg sc runID path ticks) (λ _, at_ Held) Left.
Proof.
  rewrite /run. case_match; [|apply r_fail, safe_Unsaved]. cbv zeta.
  bind ltac:(apply resolve_placement_ok). bind ltac:(apply resolvePrereqs_ok). quiets quiet_Sample.
  bind ltac:(apply fresh_meta; [done|same|done]). 
  eapply triple_pre with (P := at_ Held); [|intros s; apply at_weaken, Unsaved_Held].
  bind ltac:(apply loop_ok, networkStep_ok). bind ltac:(apply loop_ok, subnetStep_ok).
  bind ltac:(apply loop_ok, routerStep_ok). bind ltac:(apply loop_ok, interfaceStep_ok).
  bind ltac:(apply loop_ok, routeStep_ok). bind ltac:(apply loop_ok, vmPortStep_ok).
  bind ltac:(apply step_quiet, quiet_Sample). bind ltac:(apply bootServers_ok). bind ltac:(apply waitActive_ok).
  bind ltac:(apply allocateFIPs_ok). bind ltac:(apply loop_ok, lbStep_ok). apply attachGate_ok.
Qed.
Lemma start_unsaved w : live w = l0 → file w path = d0 → (∀ id, u0 id → used w id) →
  at_ Unsaved (w, newRealizer cfg sc runID).
Proof.
  intros E1 E2 Hu. split; [|done]. rewrite /= E1 E2. split; [|split; [by apply accounts_refl|done]]. split; [done|].
  intros vm Hvm. by apply elem_of_nil in Hvm.
Qed.
End spec.

(** ** Killed after any number of calls *)

Section killed.
Context {W : Type} `{!Cloud W, !MetricsSource W, !StateFile W, !World W}.
(** The calls of a process that is killed after so many: the others are never made. *)
Definition until {A} (c : Call W A) : Call (nat * W) A := λ s,
  match s.1 with
  | O => (s, inl "killed")
  | S n => let r := c s.2 in ((n, r.1), r.2)
  end.
#[export] Instance killed_cloud : Cloud (nat * W) := {
  FindImage n := until (FindImage n); FindFlavor n := until (FindFlavor n);
  FindLBFlavor n := until (FindLBFlavor n); CheckKeypair n := until (CheckKeypair n);
  FindSecGroup n := until (FindSecGroup n); FindExternalNetwork n := until (FindExternalNetwork n);
  Hypervisors := until Hypervisors; FindProject n := until (FindProject n);
  CreateProject n := until (CreateProject n); GrantAdminRole p := until (GrantAdminRole p);
  CreateNetwork p s := until (CreateNetwork p s); CreateSubnet p s := until (CreateSubnet p s);
  CreateRouter p s := until (CreateRouter p s); CreatePort p s := until (CreatePort p s);
  PortMAC p := until (PortMAC p); AddRouterInterface p r s q := until (AddRouterInterface p r s q);
  SetRouterRoutes p r l := until (SetRouterRoutes p r l); SetRouterGateway p r n := until (SetRouterGateway p r n);
  CreateServer p s := until (CreateServer p s); WaitServerActive p s := until (WaitServerActive p s);
  CreateFIP p s := until (CreateFIP p s); CreateLoadBalancer p s := until (CreateLoadBalancer p s);
  CreateListener p s := until (CreateListener p s); CreatePool p s := until (CreatePool p s);
  CreateMember p s := until (CreateMember p s); WaitLBActive p l := until (WaitLBActive p l);
  ListAmphorae l := until (ListAmphorae l); ServerHost p s := until (ServerHost p s);
  LiveMigrateServer p s h := until (LiveMigrateServer p s h); AttachInterface p s q := until (AttachInterface p s q);
  DetachInterface p s q := until (DetachInterface p s q); DeleteLoadBalancer p r := until (DeleteLoadBalancer p r);
  DeleteFIP p r := until (DeleteFIP p r); DeleteServer p r := until (DeleteServer p r);
  WaitServerGone p r := until (WaitServerGone p r); DeletePort p r := until (DeletePort p r);
  ClearRouterRoutes p r := until (ClearRouterRoutes p r);
  RemoveRouterInterface p r s q := until (RemoveRouterInterface p r s q); DeleteRouter p r := until (DeleteRouter p r);
  ListNetworkPorts n := until (ListNetworkPorts n); ListProjectServers p := until (ListProjectServers p);
  DeleteSubnet p r := until (DeleteSubnet p r); DeleteNetwork p r := until (DeleteNetwork p r) }.
#[export] Instance killed_metrics : MetricsSource (nat * W) := {
  Scrape u := until (Scrape u); LookupMAC u m := until (LookupMAC u m); LookupFlows u m := until (LookupFlows u m) }.
#[export] Instance killed_file : StateFile (nat * W) := {
  MkdirAll d := until (MkdirAll d); WriteFile p rs := until (WriteFile p rs) }.
#[export] Instance killed_world : World (nat * W) := { live s := live s.2; used s := used s.2; file s := file s.2 }.

Lemma until_files {A} (c : Call W A) : keepsFiles c → keepsFiles (until c).
Proof. intros Hc [[|n] w]; [done|]. apply (Hc w). Qed.
Lemma until_quiet {A} (c : Call W A) : quiet c → quiet (until c).
Proof. intros [Hf Hl]. split; [by apply until_files|]. intros [[|n] w]; [done|]. apply (Hl w). Qed.
Lemma until_creates {A} (c : Call W A) id_of k i : (∀ w, creates id_of k i w (c w).1 (c w).2) →
  ∀ s, creates id_of k i s (until c s).1 (until c s).2.
Proof. intros Hc [[|n] w]; [by left|]. apply (Hc w). Qed.
Lemma until_deletes (c : Call W ()) r : (∀ w, deletes r (live w) (live (c w).1) (c w).2) →
  ∀ s, deletes r (live s) (live (until c s).1) (until c s).2.
Proof. intros Hc [[|n] w]; [by left|]. apply (Hc w). Qed.

Context `{!CloudLaws W, !MetricsLaws W, !FileLaws W}.
#[export] Instance killed_cloud_laws : CloudLaws (nat * W).
Proof.
  split; intros; first [refine (until_quiet _ _)|refine (until_files _ _)|refine (until_creates _ _ _ _ _ _); intros ?
    |refine (until_deletes _ _ _ _); intros ?|idtac]; first [by destruct CloudLaws0|idtac].
  - destruct w as [[|n] w]; [by left|]. apply (law_DeleteServer p r w).
  - destruct w as [[|n] w]; [by left|]. apply (law_RemoveRouterInterface p r s q w).
  - destruct w as [[|m] w]; [done|]. by eapply (law_ListNetworkPorts n w).
  - destruct w as [[|m] w]; [done|]. by eapply (law_ListProjectServers p w).
Qed.
#[export] Instance killed_metrics_laws : MetricsLaws (nat * W).
Proof. split; intros; by apply until_quiet; destruct MetricsLaws0. Qed.
#[export] Instance killed_file_laws : FileLaws (nat * W).
Proof.
  split.
  - intros d. apply until_quiet, quiet_MkdirAll.
  - intros path rs [[|n] w]; [by split|]. apply (live_WriteFile path rs w).
  - intros path rs [[|n] w]; [by left|]. apply (law_WriteFile path rs w).
Qed.
End killed.

(** ** The record on disk *)

Section record.
Context `{GoRange} {W : Type} `{!Cloud W, !MetricsSource W, !StateFile W, !World W}.
Context `{!CloudLaws W, !MetricsLaws W, !FileLaws W}.
Variables (cfg : HarnessConfig) (sc : Scenario) (runID path : string) (ticks : nat).

(** What the resources of a cloud refer to are ids it has used. *)
Definition closed {V} `{!World V} (w : V) : Prop := ∀ q j, live w !! q = Some j →
  used w (I_Network j) ∧ used w (I_Subnet j).
(** What a run from [w] leaves: on success the record it returns, on disk, accounts for
    exactly what it made; on an error some record does but for at most one resource,
    and it is on disk, or nothing was made yet, or a failed write tore the file. *)
Definition run_outcome {V} `{!World V} (w : V) (r : V * RunState * option upErr) : Prop :=
  let '(w', rs, err) := r in
  match err with
  | None => accounts (live w) (live w') rs ∅ ∧ own cfg runID rs ∧
      (file w' path = Some rs ∨ recorded rs = ∅ ∧ file w' path = file w path)
  | Some e => ∃ rec extra, (size extra ≤ 1)%nat ∧ accounts (live w) (live w') rec extra ∧ own cfg runID rec ∧
      (file w' path = Some rec ∨ (live w' = live w ∧ file w' path = file w path) ∨ (tears e ∧ file w' path = None))
  end.
Lemma accounts_none l0 l rs extra : accounts l0 l rs extra → recorded rs ∪ extra = ∅ → l = l0.
Proof.
  intros [[Hs Hd _ _ _ _] _] E. rewrite E union_empty_r_L in Hd. apply map_eq. intros r.
  destruct (l0 !! r) as [i|] eqn:E0; [by eapply lookup_weaken|].
  apply not_elem_of_dom. intros Hr%Hd. by apply elem_of_dom in Hr as [? ?]; simplify_eq.
Qed.
Lemma run_leaves {V} `{!Cloud V, !MetricsSource V, !StateFile V, !World V} `{!CloudLaws V, !MetricsLaws V, !FileLaws V}
  (w : V) : closed w → run_outcome w (Realize.Run cfg sc runID path ticks w).
Proof.
  intros Hcl. rewrite /Realize.Run.
  pose proof (run_triple cfg sc runID path ticks (live w) (used w) (file w path) Hcl (w, newRealizer cfg sc runID)
    (start_unsaved cfg sc runID path (live w) (used w) (file w path) w eq_refl eq_refl (λ _ H, H))) as Hr.
  destruct (run _ _ _ _ _ _) as [[w' z] [e|[]]].
  - destruct Hr as [(rec & extra & [(Hsz & Ha & Ho & Hd)|(Ht & Hd & Hsz & Ha & Ho)]) _]; exists rec, extra.
    + split_and!; [done..|]. destruct Hd as [?|[E Hd]]; [by left|]. right. left. split; [by eapply accounts_none|done].
    + split_and!; [done..|]. by right; right.
  - destruct Hr as [([Ho _] & Ha & Hd) _]. split_and!; [done..|]. destruct Hd as [?|(_ & ? & ?)]; [by left|by right].
Qed.

(** What is in memory when a run ends. *)
Lemma run_remembers (w : W) : closed w →
  let '(w', rs, err) := Realize.Run cfg sc runID path ticks w in
  match err with
  | None => accounts (live w) (live w') rs ∅ ∧ own cfg runID rs ∧ ∀ id, used w id → used w' id
  | Some _ => ∃ extra, (size extra ≤ 1)%nat ∧ accounts (live w) (live w') rs extra ∧ own cfg runID rs
  end.
Proof.
  intros Hcl. rewrite /Realize.Run.
  pose proof (run_triple cfg sc runID path ticks (live w) (used w) (file w path) Hcl (w, newRealizer cfg sc runID)
    (start_unsaved cfg sc runID path (live w) (used w) (file w path) w eq_refl eq_refl (λ _ H, H))) as Hr.
  destruct (run _ _ _ _ _ _) as [[w' z] [e|[]]]; [apply Hr|]. by destruct Hr as [([Ho _] & Ha & _) Hu].
Qed.

(** C21: The record on disk never lags the cloud by more than one create, whatever the
    cloud, the agents and the disk answer, and wherever the process is killed, be it
    after [n] of its calls: nothing that was there before is gone; what the run has
    made is what the record in its file says, and at most one resource more, unless
    nothing was made yet, or it was the write itself that failed and tore the file; the record is
    of this run; the servers it made bear its prefix in projects it records. *)
Theorem record_never_lags n w : closed w → run_outcome (n, w) (Realize.Run cfg sc runID path ticks (n, w)) ∧
  run_outcome w (Realize.Run cfg sc runID path ticks w).
Proof. intros Hc. split; by apply run_leaves. Qed.
End record.
