(* ===== verification/Down.v ===== *)
(** * Tearing a run down (internal/scenariotest/down/down.go)

    The teardown in the order of the code: every resource the run-state records, the
    servers it may have missed, the ports left on its networks, errors collected and
    none fatal; and what is left when it says it is done. *)
From S2P Require Import Prelude GoStrings Neutron Scenario Cloud Recorded Realize RealizeSpec.

Section down.
Context `{GoRange} {W : Type} `{!Cloud W, !StateFile W}.

(** The world and the steps that failed. *)
Definition DownSt : Type := W * list (string * string).
(** [downer.do]: an error is kept, and the teardown goes on. *)
Definition do_ (what : string) (f : Call W ()) (d : DownSt) : DownSt :=
  match f d.1 with
  | (w, inr _) => (w, d.2)
  | (w, inl e) => (w, d.2 ++ [(what, e)])
  end.
(** One call after another that returned nil. *)
Definition andThenC (f g : Call W ()) : Call W () := λ w,
  match f w with (w, inl e) => (w, inl e) | (w, inr _) => g w end.
Definition each {A} (l : list A) (f : A → DownSt → DownSt) (d : DownSt) : DownSt := foldl (λ d x, f x d) d l.

Definition killServer (proj id : string) : Call W () := andThenC (DeleteServer proj id) (WaitServerGone proj id).
Definition downLB (r : ResourceRef) : DownSt → DownSt :=
  do_ ("delete load balancer " +:+ Ref_Name r) (DeleteLoadBalancer (Ref_ProjectID r) (Ref_ID r)).
Definition downFIP (f : FIPRef) : DownSt → DownSt := do_ ("fip " +:+ FR_Address f) (DeleteFIP (FR_ProjectID f) (FR_ID f)).
Definition downServer (s : ResourceRef) : DownSt → DownSt :=
  do_ ("server " +:+ Ref_DSLID s) (killServer (Ref_ProjectID s) (Ref_ID s)).
Definition residualServer (runPrefix : string) (proj : ProjectRef) (srv : ServerRef) (d : DownSt) : DownSt :=
  if HasPrefix (SR_Name srv) runPrefix
  then do_ ("residual server " +:+ SR_ID srv +:+ " in " +:+ PR_Name proj) (killServer (PR_ID proj) (SR_ID srv)) d
  else d.
Definition residualServers (runPrefix : string) (proj : ProjectRef) (d : DownSt) : DownSt :=
  match ListProjectServers (PR_ID proj) d.1 with
  | (w, inl e) => (w, d.2 ++ [("", e)])
  | (w, inr found) => each found (residualServer runPrefix proj) (w, d.2)
  end.
Definition clearRoutes (r : ResourceRef) : DownSt → DownSt :=
  do_ ("clear routes " +:+ Ref_DSLID r) (ClearRouterRoutes (Ref_ProjectID r) (Ref_ID r)).
Definition detachSubnet (r s : ResourceRef) : DownSt → DownSt :=
  do_ ("detach " +:+ Ref_DSLID r +:+ "/" +:+ Ref_DSLID s) (RemoveRouterInterface (Ref_ProjectID r) (Ref_ID r) (Ref_ID s) "").
Definition detachPort (r p : ResourceRef) : DownSt → DownSt :=
  do_ ("detach " +:+ Ref_DSLID r +:+ "/" +:+ Ref_DSLID p) (RemoveRouterInterface (Ref_ProjectID r) (Ref_ID r) "" (Ref_ID p)).
Definition detachAll (rs : RunState) (r : ResourceRef) (d : DownSt) : DownSt :=
  each (R_Ports rs) (detachPort r) (each (R_Subnets rs) (detachSubnet r) d).
Definition downPort (p : ResourceRef) : DownSt → DownSt :=
  do_ ("port " +:+ Ref_DSLID p) (DeletePort (Ref_ProjectID p) (Ref_ID p)).
Definition downRouter (r : ResourceRef) : DownSt → DownSt :=
  do_ ("router " +:+ Ref_DSLID r) (DeleteRouter (Ref_ProjectID r) (Ref_ID r)).
Definition residualPort (n : ResourceRef) (id : string) : DownSt → DownSt :=
  do_ ("residual port " +:+ id +:+ " on " +:+ Ref_DSLID n) (DeletePort (Ref_ProjectID n) id).
Definition residualPorts (n : ResourceRef) (d : DownSt) : DownSt :=
  match ListNetworkPorts (Ref_ID n) d.1 with
  | (w, inl e) => (w, d.2 ++ [("", e)])
  | (w, inr ids) => each ids (residualPort n) (w, d.2)
  end.
Definition downSubnet (s : ResourceRef) : DownSt → DownSt :=
  do_ ("subnet " +:+ Ref_DSLID s) (DeleteSubnet (Ref_ProjectID s) (Ref_ID s)).
Definition downNetwork (n : ResourceRef) : DownSt → DownSt :=
  do_ ("network " +:+ Ref_DSLID n) (DeleteNetwork (Ref_ProjectID n) (Ref_ID n)).

Definition setTornDown (rs : RunState) : RunState :=
  mkRunState (R_RunID rs) (R_Scenario rs) (R_Prefix rs) (R_Projects rs) (R_Networks rs) (R_Subnets rs) (R_Routers rs)
    (R_Ports rs) (R_Servers rs) (R_FIPs rs) (R_LoadBalancers rs) (R_Attach rs) (R_AnomalyBaseline rs) (R_Placement rs)
    (R_Migrations rs) (R_Baseline rs) (R_BaselineServers rs) true.
(** The steps, in order. *)
Definition teardown (rs : RunState) (w : W) : DownSt :=
  let d := each (R_LoadBalancers rs) downLB (w, []) in
  let d := each (R_FIPs rs) downFIP d in
  let d := each (R_Servers rs) downServer d in
  let d := each (go_range (R_Projects rs)).*2 (residualServers (run_prefix rs)) d in
  let d := each (R_Routers rs) clearRoutes d in
  let d := each (R_Routers rs) (detachAll rs) d in
  let d := each (R_Ports rs) downPort d in
  let d := each (R_Routers rs) downRouter d in
  let d := each (R_Networks rs) residualPorts d in
  let d := each (R_Subnets rs) downSubnet d in
  each (R_Networks rs) downNetwork d.
Inductive downErr := StepsFailed (steps : list (string * string)) | DownSave (e : saveErr).
Definition Down (rs : RunState) (path : string) (w : W) : W * RunState * option downErr :=
  match teardown rs w with
  | (w, []) =>
      let rs := setTornDown rs in
      match Save rs path w with
      | (w, inl e) => (w, rs, Some (DownSave e))
      | (w, inr _) => (w, rs, None)
      end
  | (w, errs) => (w, rs, Some (StepsFailed errs))
  end.
End down.

(** ** What a teardown may take, and what it takes *)

Section spec.
Context `{GoRange} {W : Type} `{!Cloud W, !StateFile W, !World W}.
Context `{!CloudLaws W, !FileLaws W}.
Notation DSt := (W * list (string * string))%type.
Implicit Types (rs : RunState) (d : DSt) (f g : DSt → DSt).

(** Recorded, or a server of the run, or a port on one of its networks or subnets. *)
Definition doomed rs (r : key) (i : Info) : Prop :=
  r ∈ recorded rs ∨ (r.1 = KServer ∧ run_server rs i) ∨
  (r.1 = KPort ∧ ((KNetwork, I_Network i) ∈ recorded rs ∨ (KSubnet, I_Subnet i) ∈ recorded rs)).
(** [l'] is [l] without some of the doomed. *)
Definition swept rs (l l' : Live) : Prop := l' ⊆ l ∧ ∀ r i, l !! r = Some i → l' !! r = None → doomed rs r i.
Lemma swept_refl rs l : swept rs l l.
Proof. split; [done|]. intros r i E1 E2. congruence. Qed.
Lemma swept_trans rs l1 l2 l3 : swept rs l1 l2 → swept rs l2 l3 → swept rs l1 l3.
Proof.
  intros [H1 G1] [H2 G2]. split; [by etrans|]. intros r i Hi Hn.
  destruct (l2 !! r) as [j|] eqn:E; [|by apply G1].
  pose proof (lookup_weaken _ _ _ _ E H1). assert (i = j) as -> by congruence. by eapply G2.
Qed.
Lemma swept_delete rs l r i0 : l !! r = Some i0 → doomed rs r i0 → swept rs l (delete r l).
Proof.
  intros E Hd. split; [apply delete_subseteq|]. intros r' i Hi Hn. destruct (decide (r = r')) as [<-|Hne]; [by simplify_eq|].
  by rewrite lookup_delete_ne // Hi in Hn.
Qed.
Lemma swept_maybe rs l r : (∀ i, l !! r = Some i → doomed rs r i) → swept rs l (delete r l).
Proof.
  intros Hd. destruct (l !! r) as [i|] eqn:E; [by eapply swept_delete, Hd|]. rewrite delete_id //. apply swept_refl.
Qed.

(** What the teardown needs of a call: the files are as they were. *)
Definition sameFiles (c : Call W ()) : Prop := ∀ w path, file (c w).1 path = file w path.
Lemma keeps_files (c : Call W ()) : keepsFiles c → sameFiles c.
Proof. intros Hc w. apply (Hc w). Qed.
#[local] Hint Resolve keeps_files : core.
(** A phase takes only the doomed, keeps the errors and the files, and if it adds none, has
    done [Post], which the phases after it cannot undo.  [L] is what was there when the
    phase was decided on. *)
Definition phase rs (L : Live) (f : DSt → DSt) (Post : Live → Prop) : Prop := ∀ d, live d.1 ⊆ L →
  swept rs (live d.1) (live (f d).1) ∧ (∀ path, file (f d).1 path = file d.1 path) ∧
  (∃ more, (f d).2 = d.2 ++ more ∧ (more = [] → Post (live (f d).1))).
Definition mono (Post : Live → Prop) : Prop := ∀ l l' : Live, l' ⊆ l → Post l → Post l'.
Definition gone (r : key) : Live → Prop := λ l, l !! r = None.
Lemma mono_gone r : mono (gone r).
Proof. intros l l' Hs Hl. by eapply lookup_weaken_None. Qed.

Lemma phase_weaken rs (L : Live) f (P Q : Live → Prop) : phase rs L f P → (∀ l, P l → Q l) → phase rs L f Q.
Proof. intros Hf HPQ d Hd. destruct (Hf d Hd) as (? & ? & more & ? & ?). split_and!; [done..|]. exists more. auto. Qed.
Lemma phase_seq rs (L : Live) f g (P Q : Live → Prop) : phase rs L f P → phase rs L g Q → mono P →
  phase rs L (λ d, g (f d)) (λ l, P l ∧ Q l).
Proof.
  intros Hf Hg HP d Hd. destruct (Hf d Hd) as (Hs & Hfi & more & E & Hp).
  destruct (Hg (f d)) as (Hs' & Hfi' & more' & E' & Hq); [etrans; [apply Hs|done]|].
  split_and!; [by eapply swept_trans|by intros p; rewrite Hfi'|]. exists (more ++ more'). split; [by rewrite E' E app_assoc|].
  intros [-> ->]%app_nil. split; [|by apply Hq]. eapply HP; [|by apply Hp]. apply Hs'.
Qed.
Lemma phase_each {A : Type} rs (L : Live) (l : list A) (f : A → DSt → DSt) (P : A → Live → Prop) :
  (∀ x, x ∈ l → phase rs L (f x) (P x)) → (∀ x, mono (P x)) → phase rs L (each l f) (λ s, ∀ x, x ∈ l → P x s).
Proof.
  intros Hf HP. induction l as [|x l IH].
  - intros d _. split_and!; [apply swept_refl|done|]. exists []. split; [by rewrite app_nil_r|]. by intros _ x []%elem_of_nil.
  - eapply phase_weaken; [apply (phase_seq rs L (f x) (each l f)); [apply Hf; left|apply IH; intros y Hy; apply Hf; by right|apply HP]|].
    intros s [Hx Hl] y [->|Hy]%elem_of_cons; [done|by apply Hl].
Qed.
Lemma phase_do rs (L : Live) (what : string) (c : Call W ()) (P : Live → Prop) :
  (∀ w, live w ⊆ L → swept rs (live w) (live (c w).1)) → sameFiles c → (∀ w, (c w).2 = inr () → P (live (c w).1)) →
  phase rs L (do_ what c) P.
Proof.
  intros Hs Hf Hp d Hd. rewrite /do_. specialize (Hs d.1 Hd). specialize (Hf d.1). specialize (Hp d.1).
  destruct (c d.1) as [w [e|[]]]; simpl in *; (split_and!; [done..|]).
  - exists [(what, e)]. by split.
  - exists []. rewrite app_nil_r. split; [done|]. intros _. by apply Hp.
Qed.
(** What is doomed in [L] is so wherever it is left. *)
Definition dooms rs (L : Live) (r : key) : Prop := ∀ i, L !! r = Some i → doomed rs r i.
Lemma dooms_swept rs (L l : Live) (r : key) : dooms rs L r → l ⊆ L → swept rs l (delete r l).
Proof. intros Hd Hl. apply swept_maybe. intros i Hi. apply Hd. by eapply lookup_weaken. Qed.
Lemma deletes_swept rs (L l l' : Live) (r : key) (a : string + ()) : dooms rs L r → l ⊆ L → deletes r l l' a → swept rs l l'.
Proof.
  intros Hd Hl. destruct a as [e|u]; simpl; [intros [->| ->]|intros ->]; [apply swept_refl|by eapply dooms_swept..].
Qed.
(** A delete of a doomed resource. *)
Lemma phase_delete rs (L : Live) (what : string) (c : Call W ()) (r : key) :
  (∀ w, deletes r (live w) (live (c w).1) (c w).2) → keepsFiles c → dooms rs L r → phase rs L (do_ what c) (gone r).
Proof.
  intros Hd Hf Hr. apply phase_do; [|by apply keeps_files|].
  - intros w Hw. eapply deletes_swept; [done|done|apply Hd].
  - intros w E. specialize (Hd w). rewrite E /= in Hd. rewrite Hd /gone. apply lookup_delete_eq.
Qed.
Lemma phase_kill rs (L : Live) (what proj id : string) : dooms rs L (KServer, id) →
  phase rs L (do_ what (killServer proj id)) (gone (KServer, id)).
Proof.
  intros Hr. apply phase_do.
  - intros w Hw. rewrite /killServer /andThenC.
    assert (swept rs (live w) (live (DeleteServer proj id w).1)) as Hs1.
    { destruct (law_DeleteServer proj id w) as [->| ->]; [apply swept_refl|by eapply dooms_swept]. }
    destruct (DeleteServer proj id w) as [w1 [e|[]]]; [done|]. eapply swept_trans; [exact Hs1|].
    eapply deletes_swept; [done| |apply law_WaitServerGone]. etrans; [apply Hs1|done].
  - intros w path. rewrite /killServer /andThenC. pose proof (keeps_files _ (files_DeleteServer proj id) w path) as Hf.
    destruct (DeleteServer proj id w) as [w1 [e|[]]]; [done|]. by rewrite (keeps_files _ (files_WaitServerGone proj id)).
  - intros w. rewrite /killServer /andThenC. destruct (DeleteServer proj id w) as [w1 [e|[]]]; [done|]. intros E.
    pose proof (law_WaitServerGone proj id w1) as Hd. rewrite E /= in Hd. rewrite Hd /gone. apply lookup_delete_eq.
Qed.
Lemma recorded_dooms rs (L : Live) (r : key) : r ∈ recorded rs → dooms rs L r.
Proof. intros Hr i _. by left. Qed.
Lemma phase_quiet rs (L : Live) (what : string) (c : Call W ()) : quiet c → phase rs L (do_ what c) (λ _, True).
Proof.
  intros [Hf Hl]. apply phase_do; [|by apply keeps_files|done]. intros w _. rewrite Hl. apply swept_refl.
Qed.

(** The sweeps: what is listed is decided on where it was listed. *)
Definition no_server rs (proj : ProjectRef) : Live → Prop := λ l, ∀ s i, l !! (KServer, s) = Some i →
  I_Project i = PR_ID proj → HasPrefix (I_Name i) (run_prefix rs) = false.
Definition no_port (n : ResourceRef) : Live → Prop := λ l, ∀ p i, l !! (KPort, p) = Some i → I_Network i ≠ Ref_ID n.
Lemma mono_no_server rs proj : mono (no_server rs proj).
Proof. intros l l' Hs Hn s i Hi. apply (Hn s). by eapply lookup_weaken. Qed.
Lemma mono_no_port n : mono (no_port n).
Proof. intros l l' Hs Hn p i Hi. apply (Hn p). by eapply lookup_weaken. Qed.

Lemma phase_residualServers rs (L : Live) proj : (∃ dsl, R_Projects rs !! dsl = Some proj) →
  phase rs L (residualServers (run_prefix rs) proj) (no_server rs proj).
Proof.
  intros [dsl Hdsl] d Hd. rewrite /residualServers. destruct (quiet_ListProjectServers (PR_ID proj)) as [Hf Hl]. destruct (Hf d.1) as [Hf' _]. specialize (Hl d.1).
  pose proof (law_ListProjectServers (PR_ID proj) d.1) as Hlist.
  destruct (ListProjectServers (PR_ID proj) d.1) as [w [e|found]]; simpl in *.
  { rewrite Hl. split_and!; [apply swept_refl|done|]. exists [("", e)]. by split. }
  specialize (Hlist found eq_refl).
  destruct (phase_each rs (live d.1) found (residualServer (run_prefix rs) proj)
    (λ srv l, HasPrefix (SR_Name srv) (run_prefix rs) = true → gone (KServer, SR_ID srv) l)) with (d := (w, d.2))
    as (Hs & Hfi & more & E & Hp).
  - intros srv Hin d' Hd'. rewrite /residualServer. destruct (HasPrefix (SR_Name srv) (run_prefix rs)) eqn:Ep.
    + destruct (phase_kill rs (live d.1) ("residual server " +:+ SR_ID srv +:+ " in " +:+ PR_Name proj) (PR_ID proj) (SR_ID srv))
        with (d := d') as (? & ? & more' & ? & ?); [|done|split_and!; [done..|exists more'; auto]].
      intros i Hi. right. left. split; [done|]. destruct (Hlist _ _ Hi) as [_ Hn].
      destruct (Hn srv Hin eq_refl) as [En Epr]. split; [by rewrite -En|]. by exists dsl, proj.
    + split_and!; [apply swept_refl|done|]. exists []. by rewrite app_nil_r.
  - intros srv l l' Hs Hg Ep. eapply mono_gone; [done|by apply Hg].
  - simpl. by rewrite Hl.
  - simpl in *. rewrite Hl in Hs. split_and!; [done|intros p; by rewrite Hfi Hf'|]. exists more. split; [done|].
    intros Hm s i Hi Epr. destruct (HasPrefix (I_Name i) (run_prefix rs)) eqn:Ep; [|done].
    destruct Hs as [Hsub _]. destruct (Hlist s i) as [Hin _]; [by eapply lookup_weaken|]. specialize (Hin Epr).
    pose proof (Hp Hm _ Hin Ep) as Hg. rewrite /gone /= Hi in Hg. done.
Qed.
Lemma phase_residualPorts rs (L : Live) n : n ∈ R_Networks rs → phase rs L (residualPorts n) (no_port n).
Proof.
  intros Hn d Hd. rewrite /residualPorts. destruct (quiet_ListNetworkPorts (Ref_ID n)) as [Hf Hl]. destruct (Hf d.1) as [Hf' _]. specialize (Hl d.1).
  pose proof (law_ListNetworkPorts (Ref_ID n) d.1) as Hlist.
  destruct (ListNetworkPorts (Ref_ID n) d.1) as [w [e|ids]]; simpl in *.
  { rewrite Hl. split_and!; [apply swept_refl|done|]. exists [("", e)]. by split. }
  specialize (Hlist ids eq_refl).
  destruct (phase_each rs (live d.1) ids (residualPort n) (λ id, gone (KPort, id))) with (d := (w, d.2))
    as (Hs & Hfi & more & E & Hp).
  - intros id Hin. apply phase_delete; [intros w'; apply law_DeletePort|apply files_DeletePort|].
    intros i Hi. right. right. split; [done|]. left. apply (Hlist id i Hi) in Hin as ->.
    apply recorded_elem. rewrite /recordedKeys. rewrite !elem_of_app. do 6 right. apply list_elem_of_fmap. by exists n.
  - intros id. apply mono_gone.
  - simpl. by rewrite Hl.
  - simpl in *. rewrite Hl in Hs. split_and!; [done|intros p; by rewrite Hfi Hf'|]. exists more. split; [done|].
    intros Hm p i Hi En. destruct Hs as [Hsub _].
    pose proof (proj2 (Hlist p i (lookup_weaken _ _ _ _ Hi Hsub)) En) as Hin.
    pose proof (Hp Hm p Hin) as Hg. rewrite /gone /= Hi in Hg. done.
Qed.

#[local] Ltac recorded_here := apply recorded_elem; rewrite /recordedKeys !elem_of_app; 
  first [left; apply list_elem_of_fmap; by eexists|right; left; apply list_elem_of_fmap; by eexists
    |do 2 right; left; apply list_elem_of_fmap; by eexists|do 3 right; left; apply list_elem_of_fmap; by eexists
    |do 4 right; left; apply list_elem_of_fmap; by eexists|do 5 right; left; apply list_elem_of_fmap; by eexists
    |do 6 right; apply list_elem_of_fmap; by eexists].

(** A detach takes a recorded port, or one on a recorded subnet. *)
Lemma phase_detach rs (L : Live) (what : string) proj r subnet port : 
  (∀ p i, L !! (KPort, p) = Some i → port ≠ "" ∧ p = port ∨ port = "" ∧ I_Subnet i = subnet → doomed rs (KPort, p) i) →
  phase rs L (do_ what (RemoveRouterInterface proj r subnet port)) (λ _, True).
Proof.
  intros Hd. apply phase_do; [|apply keeps_files, files_RemoveRouterInterface|done]. intros w Hw.
  destruct (law_RemoveRouterInterface proj r subnet port w) as [->|(p & i & Hi & -> & Hp)]; [apply swept_refl|].
  eapply swept_delete; [done|]. apply Hd; [by eapply lookup_weaken|done].
Qed.

(** ** The whole teardown *)

(** Nothing the run-state records is left, nor a server of the run in its projects, nor
    a port on its networks. *)
Definition clean rs (l : Live) : Prop := (∀ r, r ∈ recorded rs → l !! r = None) ∧
  (∀ s i, l !! (KServer, s) = Some i → ¬ run_server rs i) ∧
  (∀ p i, l !! (KPort, p) = Some i → (KNetwork, I_Network i) ∉ recorded rs).
Lemma mono_each {A : Type} (l : list A) (P : A → Live → Prop) : (∀ x, mono (P x)) → mono (λ s, ∀ x, x ∈ l → P x s).
Proof. intros HP s s' Hs Ha x Hx. by eapply HP, Ha. Qed.
Lemma mono_and (P Q : Live → Prop) : mono P → mono Q → mono (λ l, P l ∧ Q l).
Proof. intros HP HQ l l' Hs [Hp Hq]. split; [by eapply HP|by eapply HQ]. Qed.
Lemma mono_True : mono (λ _, True).
Proof. done. Qed.

Section teardown.
Variable rs : RunState.
Hypothesis ids : ∀ r, r ∈ recorded rs → r.2 ≠ "".

Lemma phase_detachAll (L : Live) r : phase rs L (detachAll rs r) (λ _, True).
Proof.
  eapply phase_weaken; [apply (phase_seq rs L (each (R_Subnets rs) (detachSubnet r)) (each (R_Ports rs) (detachPort r))
    (λ _, ∀ s, s ∈ R_Subnets rs → True) (λ _, ∀ p, p ∈ R_Ports rs → True))|done].
  - apply phase_each; [|done]. intros s Hs. apply phase_detach. intros p i _ [[Hne _]|[_ E]]; [done|].
    right. right. split; [done|]. right. rewrite E. recorded_here.
  - apply phase_each; [|done]. intros p Hp. apply phase_detach. intros q i _.
    assert ((KPort, Ref_ID p) ∈ recorded rs) as Hin by recorded_here.
    intros [[_ ->]|[E _]]; [by left|]. by destruct (ids _ Hin).
  - done.
Qed.

(** A loop of deletes over recorded resources. *)
Lemma phase_deletes {A : Type} (L : Live) (l : list A) (what : A → string) (c : A → Call W ()) (r : A → key) :
  (∀ x w, deletes (r x) (live w) (live (c x w).1) (c x w).2) → (∀ x, keepsFiles (c x)) →
  (∀ x, x ∈ l → r x ∈ recorded rs) →
  phase rs L (each l (λ x, do_ (what x) (c x))) (λ s, ∀ x, x ∈ l → gone (r x) s).
Proof.
  intros Hd Hf Hr. apply phase_each; [|intros x; apply mono_gone]. intros x Hx.
  apply phase_delete; [by intros w|done|by apply recorded_dooms, Hr].
Qed.

(** The phases and what each achieves. *)
Definition plan : list ((DSt → DSt) * (Live → Prop)) := [
  (each (R_LoadBalancers rs) downLB, λ s, ∀ x, x ∈ R_LoadBalancers rs → gone (KLoadBalancer, Ref_ID x) s);
  (each (R_FIPs rs) downFIP, λ s, ∀ x, x ∈ R_FIPs rs → gone (KFIP, FR_ID x) s);
  (each (R_Servers rs) downServer, λ s, ∀ x, x ∈ R_Servers rs → gone (KServer, Ref_ID x) s);
  (each (go_range (R_Projects rs)).*2 (residualServers (run_prefix rs)),
     λ s, ∀ x, x ∈ (go_range (R_Projects rs)).*2 → no_server rs x s);
  (each (R_Routers rs) clearRoutes, λ _, True);
  (each (R_Routers rs) (detachAll rs), λ _, True);
  (each (R_Ports rs) downPort, λ s, ∀ x, x ∈ R_Ports rs → gone (KPort, Ref_ID x) s);
  (each (R_Routers rs) downRouter, λ s, ∀ x, x ∈ R_Routers rs → gone (KRouter, Ref_ID x) s);
  (each (R_Networks rs) residualPorts, λ s, ∀ x, x ∈ R_Networks rs → no_port x s);
  (each (R_Subnets rs) downSubnet, λ s, ∀ x, x ∈ R_Subnets rs → gone (KSubnet, Ref_ID x) s);
  (each (R_Networks rs) downNetwork, λ s, ∀ x, x ∈ R_Networks rs → gone (KNetwork, Ref_ID x) s)].
Lemma plan_teardown w : teardown rs w = foldl (λ d x, x.1 d) (w, []) plan.
Proof. done. Qed.

Lemma phase_idle {A : Type} (L : Live) (l : list A) (f : A → DSt → DSt) :
  (∀ x, phase rs L (f x) (λ _, True)) → phase rs L (each l f) (λ _, True).
Proof.
  intros Hf. eapply phase_weaken; [apply (phase_each rs L l f (λ _ _, True)); [intros x _; apply Hf|done]|done].
Qed.
Lemma plan_ok (L : Live) : Forall (λ x, phase rs L x.1 x.2 ∧ mono x.2) plan.
Proof.
  rewrite /plan. repeat (apply Forall_cons; split; [cbn [fst snd]; split|]); try apply Forall_nil_2; try done;
    try (apply mono_each; intros x; first [apply mono_gone|apply mono_no_server|apply mono_no_port]).
  - apply phase_deletes; [intros; apply law_DeleteLoadBalancer|intros; apply files_DeleteLoadBalancer|intros; recorded_here].
  - apply phase_deletes; [intros; apply law_DeleteFIP|intros; apply files_DeleteFIP|intros; recorded_here].
  - apply phase_each; [|intros x; apply mono_gone]. intros x Hx. apply phase_kill, recorded_dooms. recorded_here.
  - apply phase_each; [|intros x; apply mono_no_server].
    intros x ([dsl y] & -> & Hx%elem_of_go_range)%list_elem_of_fmap. apply phase_residualServers. by exists dsl.
  - apply phase_idle. intros x. apply phase_quiet, quiet_ClearRouterRoutes.
  - apply phase_idle. intros x. apply phase_detachAll.
  - apply phase_deletes; [intros; apply law_DeletePort|intros; apply files_DeletePort|intros; recorded_here].
  - apply phase_deletes; [intros; apply law_DeleteRouter|intros; apply files_DeleteRouter|intros; recorded_here].
  - apply phase_each; [|intros x; apply mono_no_port]. intros x Hx. by apply phase_residualPorts.
  - apply phase_deletes; [intros; apply law_DeleteSubnet|intros; apply files_DeleteSubnet|intros; recorded_here].
  - apply phase_deletes; [intros; apply law_DeleteNetwork|intros; apply files_DeleteNetwork|intros; recorded_here].
Qed.
Lemma phase_all (L : Live) (l : list ((DSt → DSt) * (Live → Prop))) : Forall (λ x, phase rs L x.1 x.2 ∧ mono x.2) l →
  phase rs L (λ d, foldl (λ d x, x.1 d) d l) (λ s, Forall (λ x, x.2 s) l).
Proof.
  induction 1 as [|[f P] l [Hf HP] _ IH].
  - intros d _. split_and!; [apply swept_refl|done|]. exists []. by rewrite app_nil_r.
  - eapply phase_weaken; [apply (phase_seq rs L f _ P _ Hf IH HP)|]. intros s [Hp Hl]. by constructor.
Qed.
Lemma plan_clean (l : Live) : Forall (λ x, x.2 l) plan → clean rs l.
Proof.
  rewrite /plan !Forall_cons. cbn [fst snd]. intros (Hlb & Hf & Hs & Hsv & _ & _ & Hp & Hr & Hpt & Hsn & Hn & _). split_and!.
  - intros r Hin%recorded_elem. rewrite /recordedKeys !elem_of_app in Hin.
    destruct Hin as [Hin|[Hin|[Hin|[Hin|[Hin|[Hin|Hin]]]]]]; apply list_elem_of_fmap in Hin as (x & -> & Hx).
    + by apply Hlb.
    + by apply Hf.
    + by apply Hs.
    + by apply Hp.
    + by apply Hr.
    + by apply Hsn.
    + by apply Hn.
  - intros s i Hi [Hpre (dsl & proj & Hproj & E)].
    assert (proj ∈ (go_range (R_Projects rs)).*2) as Hin.
    { apply list_elem_of_fmap. exists (dsl, proj). split; [done|by apply elem_of_go_range]. }
    by rewrite (Hsv proj Hin s i Hi (eq_sym E)) in Hpre.
  - intros p i Hi Hin%recorded_elem. rewrite /recordedKeys !elem_of_app in Hin.
    destruct Hin as [Hin|[Hin|[Hin|[Hin|[Hin|[Hin|Hin]]]]]]; apply list_elem_of_fmap in Hin as (x & [= E] & Hx).
    by destruct (Hpt x Hx p i Hi).
Qed.
Lemma teardown_spec w : let d := teardown rs w in
  swept rs (live w) (live d.1) ∧ (∀ path, file d.1 path = file w path) ∧ (d.2 = [] → clean rs (live d.1)).
Proof.
  rewrite plan_teardown. destruct (phase_all (live w) plan (plan_ok (live w)) (w, [])) as (Hs & Hf & more & E & Hp); [done|].
  cbv zeta. split_and!; [done|done|]. rewrite E. simpl. intros Hm. by apply plan_clean, Hp.
Qed.
End teardown.

Definition same_listing rs rs' : Prop := recordedKeys rs' = recordedKeys rs ∧ R_RunID rs' = R_RunID rs ∧
  R_Prefix rs' = R_Prefix rs ∧ R_Projects rs' = R_Projects rs.

(** C30: What a teardown takes and when it is done, for a run-state that records no empty
    id.  Whatever fails, it only removes, and only what the run-state records, a server
    that bears the run's prefix in one of the run's projects, or a port on the run's
    networks and subnets.  If it reports success nothing of these is left, and the file
    says so, with every resource still listed; if a step failed it says so, and the
    run-state and every file are as they were, for the re-run; if only the last save of
    the run-state failed, nothing is left all the same. *)
Theorem down_exact rs path w : (∀ r, r ∈ recorded rs → r.2 ≠ "") →
  match Down rs path w with
  | (w', rs', err) => swept rs (live w) (live w') ∧
      match err with
      | None => clean rs (live w') ∧ R_TornDown rs' = true ∧ same_listing rs rs' ∧ file w' path = Some rs'
      | Some (StepsFailed errs) => errs ≠ [] ∧ rs' = rs ∧ ∀ p, file w' p = file w p
      | Some (DownSave _) => clean rs (live w')
      end
  end.
Proof.
  intros Hids. rewrite /Down. destruct (teardown_spec rs Hids w) as (Hs & Hf & Hc).
  destruct (teardown rs w) as [w1 [|e errs]]; simpl in *; [|by split_and!].
  specialize (Hc eq_refl). destruct (Save_spec path (setTornDown rs) w1) as (Hl & _ & Hfile).
  destruct (Save (setTornDown rs) path w1) as [w2 [e|[]]]; simpl in *; rewrite Hl; by split_and!.
Qed.

(** Nothing that was there is gone, and at most one resource is left: not a server, and
    no port of the run's networks. *)
Definition all_but_one rs (l0 l : Live) : Prop := l0 ⊆ l ∧ ∃ extra : gset key, (size extra ≤ 1)%nat ∧
  dom l ⊆ dom l0 ∪ extra ∧ ∀ r i, l !! r = Some i → l0 !! r = None →
    r.1 ≠ KServer ∧ (r.1 = KPort → (KNetwork, I_Network i) ∉ recorded rs).
Lemma covers_kept (l0 l1 l2 : Live) rs extra : covers l0 l1 rs extra → swept rs l1 l2 →
  (∀ s i, l0 !! (KServer, s) = Some i → HasPrefix (I_Name i) (run_prefix rs) = false) → l0 ⊆ l2.
Proof.
  intros [Ha1 Ha2 Ha3 Ha4 Ha5 Ha6] [Hs1 Hs2] Hfresh.
  apply map_subseteq_spec. intros r i Hi. pose proof (lookup_weaken _ _ _ _ Hi Ha1) as Hi1.
  destruct (l2 !! r) as [j|] eqn:E; [pose proof (lookup_weaken _ _ _ _ E Hs1); congruence|].
  exfalso. destruct (Hs2 r i Hi1 E) as [Hr|[[Hk [Hp _]]|[Hk Hp]]].
  - assert (r ∈ recorded rs ∪ extra) as Hin by (apply elem_of_union; by left). rewrite (Ha3 r Hin) in Hi. done.
  - destruct r as [k s]. simpl in Hk. subst k. by rewrite (Hfresh s i Hi) in Hp.
  - destruct (Ha5 r i Hi) as [Hn Hsn]. rewrite !not_elem_of_union in Hn, Hsn. destruct Hn, Hsn. tauto.
Qed.
Lemma covers_left (l0 l1 l2 : Live) rs extra : covers l0 l1 rs extra → swept rs l1 l2 → clean rs l2 →
  dom l2 ⊆ dom l0 ∪ extra ∧ ∀ r i, l2 !! r = Some i → l0 !! r = None →
    r.1 ≠ KServer ∧ (r.1 = KPort → (KNetwork, I_Network i) ∉ recorded rs).
Proof.
  intros [Ha1 Ha2 Ha3 Ha4 Ha5 Ha6] [Hs1 Hs2] (Hc1 & Hc2 & Hc3). split.
  - intros r Hr. assert (r ∈ dom l1) as Hr1%Ha2 by (by apply (subseteq_dom _ _ Hs1)).
    rewrite !elem_of_union in Hr1. apply elem_of_union. destruct Hr1 as [?|[Hr1|?]]; [by left| |by right].
    apply elem_of_dom in Hr as [i Hi]. by rewrite (Hc1 r Hr1) in Hi.
  - intros [k s] i Hi Hn. split; simpl; intros ->; [|by apply (Hc3 s)].
    apply (Hc2 s i Hi). apply (Ha6 s); [by eapply lookup_weaken|done].
Qed.
Lemma same_dom (l0 l : Live) : l0 ⊆ l → dom l ⊆ dom l0 → l = l0.
Proof.
  intros Hs Hd. apply map_eq. intros r. destruct (l0 !! r) as [i|] eqn:E; [by eapply lookup_weaken|].
  apply not_elem_of_dom. intros Hr%Hd. by apply elem_of_dom in Hr as [? ?]; simplify_eq.
Qed.
End spec.

(** ** Up, and down again *)

Section cycle.
Context `{GoRange} {W : Type} `{!Cloud W, !MetricsSource W, !StateFile W, !World W}.
Context `{!CloudLaws W, !MetricsLaws W, !FileLaws W}.
Variables (cfg : HarnessConfig) (sc : Scenario) (runID path : string) (ticks : nat).

(** The record of an interrupted run, when it can be read. *)
Lemma record_read {V} `{!World V} (w0 : V) w1 rs err rec : run_outcome cfg runID path w0 (w1, rs, err) →
  file w0 path = None → file w1 path = Some rec → ∃ extra, (size extra ≤ 1)%nat ∧
    accounts (live w0) (live w1) rec extra ∧ own cfg runID rec ∧ (err = None → extra = ∅).
Proof.
  intros Hrun Hnone Hrec. destruct err as [e|]; simpl in Hrun.
  - destruct Hrun as (rec' & extra & Hsz & Ha & Ho & [Hd|[[_ Hd]|[_ Hd]]]); [|congruence..].
    assert (rec' = rec) as -> by congruence. by exists extra.
  - destruct Hrun as (Ha & Ho & [Hd|[_ Hd]]); [|congruence].
    assert (rs = rec) as -> by congruence. exists ∅. split_and!; [rewrite size_empty; lia|done..].
Qed.

(** C20: Up, and down again: a run killed after any number of its calls, or ended by an
    error, or complete, whose record can be read back, is undone by a teardown from that record that
    reports success. A complete run leaves exactly the cloud that was there before.
    Of any other at most one resource stays behind, the one between a create and its
    save, and never a server or a port on the run's own networks: the sweeps find
    these. *)
Theorem up_down_restores n w0 : closed w0 →
  (∀ s i, live w0 !! (KServer, s) = Some i → HasPrefix (I_Name i) (Mangle (H_Prefix cfg) runID "") = false) →
  file w0 path = None →
  match Realize.Run cfg sc runID path ticks (n, w0) with
  | ((_, w1), _, err) => ∀ rec, file w1 path = Some rec →
      match Down rec path w1 with
      | (w2, _, None) =>
          match err with None => live w2 = live w0 | Some _ => all_but_one rec (live w0) (live w2) end
      | (w2, _, Some _) => live w0 ⊆ live w2
      end
  end.
Proof.
  intros Hcl Hfresh Hnone. pose proof (run_leaves cfg sc runID path ticks (n, w0) Hcl) as Hrun.
  destruct (Realize.Run cfg sc runID path ticks (n, w0)) as [[[m w1] rs] err]. intros rec Hrec.
  destruct (record_read (n, w0) (m, w1) rs err rec Hrun Hnone Hrec) as (extra & Hsz & Ha & [E1 E2] & Hex).
  assert (∀ r, r ∈ recorded rec → r.2 ≠ "") as Hids by (intros r Hr; apply (cv_ids _ _ _ _ (ac_covers _ _ _ _ Ha)), elem_of_union; by left).
  rewrite -E2 -E1 in Hfresh. rewrite /Down. destruct (teardown_spec rec Hids w1) as (Hs & _ & Hc).
  pose proof (covers_kept _ _ _ _ _ (ac_covers _ _ _ _ Ha) Hs Hfresh) as Hkept.
  destruct (teardown rec w1) as [w2 [|e errs]]; simpl in *; [|done].
  destruct (Save_spec path (setTornDown rec) w2) as (Hl & _).
  destruct (Save (setTornDown rec) path w2) as [w3 [e|[]]]; simpl in *; rewrite Hl; [done|].
  destruct (covers_left _ _ _ _ _ (ac_covers _ _ _ _ Ha) Hs (Hc eq_refl)) as [Hd Hleft]. destruct err as [e|].
  - split; [done|]. by exists extra.
  - apply same_dom; [done|]. by rewrite (Hex eq_refl) union_empty_r_L in Hd.
Qed.
End cycle.
