(* ===== verification/FakeCloud.v ===== *)
(** * The harness's test double (internal/scenariotest/fake/fake.go)

    Cloud, the recording in-memory cloud the phases are tested against, and its
    Metrics: their fields in groups, one definition per method.  [Env] is part of the
    fake's state, as both hold it; a context that is cancelled is part of its setup.
    The number an id carries counts the rows of [f_made], which also say, beside the
    code, what each id was given to; [f_files] is the disk.  A panic is an error.
    Then the contract of Cloud.v: the fake keeps it but for its two listings, which
    are complete only in the instance [full_cloud].  The witnesses of the theorems on
    realizing and tearing down run on it. *)
From S2P Require Import Prelude GoStrings GoArgs GoJson Neutron Builder Scenario Cloud Recorded Realize RealizeSpec Down.
From Stdlib Require Import SpecFloat.

(** ** The state *)

Record Setup := mkSetup {
  ExtNetID : string; Hyps : list string; PreProjects : gmap string string; FindErrs : gmap string string;
  fk_LBFlavorID : string; HAFlavorIDs : gset string; ResidualPorts : gmap string (list string); FailDown : gset string;
  Cancelled : option string; BaseAttached : spec_float; EnvFailures : spec_float; EnvAnomalies : gmap string spec_float }.
Record Calls := mkCalls {
  CreatedProjects : list string; Grants : list string; Nets : list NetworkSpec; Subs : list SubnetSpec;
  Rtrs : list RouterSpec; Ifaces : list (string * string * string); RoutesSet : list (string * list RouteSpec); PortsMade : list PortSpec;
  ServersMade : list ServerSpec; Fips : list FIPCreateSpec; FipIDs : list string }.
Record Nova := mkNova {
  Booted : Z; ServerIDs : list string; Hosts : gmap string string; Migrations : list string;
  ServerName : gmap string string; ServerProject : gmap string string; ServerPort : gmap string string; ServerExtraPorts : gmap string (list string);
  HotAttached : gmap string string; IfaceOps : list string }.
Record Octo := mkOcto {
  LBs : list LBSpec; LBIDs : list string; ListenersMade : list ListenerSpec; PoolsMade : list PoolSpec;
  MembersMade : list MemberSpec; LBAmphorae : gmap string (list AmphoraRef); LBDeleted : list string }.
Record Neu := mkNeu {
  PortSubnet : gmap string string; RouterExt : gmap string string; RouterSubnets : gmap string (gset string); RouterRoutes : gmap string (list RouteSpec);
  MACs : gmap string string; PortName : gmap string string; PortProject : gmap string string; PortNet : gmap string string;
  DownOps : list string; Deleted : gset string }.
Record Fake := mkFake {
  f_setup : Setup; f_calls : Calls; f_nova : Nova; f_octavia : Octo; f_neutron : Neu;
  f_made : list (option (kind * Info)); f_files : gmap string RunState }.
Definition upCreatedProjects (h : list string → list string) (x : Calls) : Calls :=
  mkCalls (h (CreatedProjects x)) (Grants x) (Nets x) (Subs x) (Rtrs x) (Ifaces x) (RoutesSet x) (PortsMade x) (ServersMade x) (Fips x) (FipIDs x).
Definition upGrants (h : list string → list string) (x : Calls) : Calls :=
  mkCalls (CreatedProjects x) (h (Grants x)) (Nets x) (Subs x) (Rtrs x) (Ifaces x) (RoutesSet x) (PortsMade x) (ServersMade x) (Fips x) (FipIDs x).
Definition upNets (h : list NetworkSpec → list NetworkSpec) (x : Calls) : Calls :=
  mkCalls (CreatedProjects x) (Grants x) (h (Nets x)) (Subs x) (Rtrs x) (Ifaces x) (RoutesSet x) (PortsMade x) (ServersMade x) (Fips x) (FipIDs x).
Definition upSubs (h : list SubnetSpec → list SubnetSpec) (x : Calls) : Calls :=
  mkCalls (CreatedProjects x) (Grants x) (Nets x) (h (Subs x)) (Rtrs x) (Ifaces x) (RoutesSet x) (PortsMade x) (ServersMade x) (Fips x) (FipIDs x).
Definition upRtrs (h : list RouterSpec → list RouterSpec) (x : Calls) : Calls :=
  mkCalls (CreatedProjects x) (Grants x) (Nets x) (Subs x) (h (Rtrs x)) (Ifaces x) (RoutesSet x) (PortsMade x) (ServersMade x) (Fips x) (FipIDs x).
Definition upIfaces (h : list (string * string * string) → list (string * string * string)) (x : Calls) : Calls :=
  mkCalls (CreatedProjects x) (Grants x) (Nets x) (Subs x) (Rtrs x) (h (Ifaces x)) (RoutesSet x) (PortsMade x) (ServersMade x) (Fips x) (FipIDs x).
Definition upRoutesSet (h : list (string * list RouteSpec) → list (string * list RouteSpec)) (x : Calls) : Calls :=
  mkCalls (CreatedProjects x) (Grants x) (Nets x) (Subs x) (Rtrs x) (Ifaces x) (h (RoutesSet x)) (PortsMade x) (ServersMade x) (Fips x) (FipIDs x).
Definition upPortsMade (h : list PortSpec → list PortSpec) (x : Calls) : Calls :=
  mkCalls (CreatedProjects x) (Grants x) (Nets x) (Subs x) (Rtrs x) (Ifaces x) (RoutesSet x) (h (PortsMade x)) (ServersMade x) (Fips x) (FipIDs x).
Definition upServersMade (h : list ServerSpec → list ServerSpec) (x : Calls) : Calls :=
  mkCalls (CreatedProjects x) (Grants x) (Nets x) (Subs x) (Rtrs x) (Ifaces x) (RoutesSet x) (PortsMade x) (h (ServersMade x)) (Fips x) (FipIDs x).
Definition upFips (h : list FIPCreateSpec → list FIPCreateSpec) (x : Calls) : Calls :=
  mkCalls (CreatedProjects x) (Grants x) (Nets x) (Subs x) (Rtrs x) (Ifaces x) (RoutesSet x) (PortsMade x) (ServersMade x) (h (Fips x)) (FipIDs x).
Definition upFipIDs (h : list string → list string) (x : Calls) : Calls :=
  mkCalls (CreatedProjects x) (Grants x) (Nets x) (Subs x) (Rtrs x) (Ifaces x) (RoutesSet x) (PortsMade x) (ServersMade x) (Fips x) (h (FipIDs x)).
Definition upBooted (h : Z → Z) (x : Nova) : Nova :=
  mkNova (h (Booted x)) (ServerIDs x) (Hosts x) (Migrations x) (ServerName x) (ServerProject x) (ServerPort x) (ServerExtraPorts x) (HotAttached x) (IfaceOps x).
Definition upServerIDs (h : list string → list string) (x : Nova) : Nova :=
  mkNova (Booted x) (h (ServerIDs x)) (Hosts x) (Migrations x) (ServerName x) (ServerProject x) (ServerPort x) (ServerExtraPorts x) (HotAttached x) (IfaceOps x).
Definition upHosts (h : gmap string string → gmap string string) (x : Nova) : Nova :=
  mkNova (Booted x) (ServerIDs x) (h (Hosts x)) (Migrations x) (ServerName x) (ServerProject x) (ServerPort x) (ServerExtraPorts x) (HotAttached x) (IfaceOps x).
Definition upMigrations (h : list string → list string) (x : Nova) : Nova :=
  mkNova (Booted x) (ServerIDs x) (Hosts x) (h (Migrations x)) (ServerName x) (ServerProject x) (ServerPort x) (ServerExtraPorts x) (HotAttached x) (IfaceOps x).
Definition upServerName (h : gmap string string → gmap string string) (x : Nova) : Nova :=
  mkNova (Booted x) (ServerIDs x) (Hosts x) (Migrations x) (h (ServerName x)) (ServerProject x) (ServerPort x) (ServerExtraPorts x) (HotAttached x) (IfaceOps x).
Definition upServerProject (h : gmap string string → gmap string string) (x : Nova) : Nova :=
  mkNova (Booted x) (ServerIDs x) (Hosts x) (Migrations x) (ServerName x) (h (ServerProject x)) (ServerPort x) (ServerExtraPorts x) (HotAttached x) (IfaceOps x).
Definition upServerPort (h : gmap string string → gmap string string) (x : Nova) : Nova :=
  mkNova (Booted x) (ServerIDs x) (Hosts x) (Migrations x) (ServerName x) (ServerProject x) (h (ServerPort x)) (ServerExtraPorts x) (HotAttached x) (IfaceOps x).
Definition upServerExtraPorts (h : gmap string (list string) → gmap string (list string)) (x : Nova) : Nova :=
  mkNova (Booted x) (ServerIDs x) (Hosts x) (Migrations x) (ServerName x) (ServerProject x) (ServerPort x) (h (ServerExtraPorts x)) (HotAttached x) (IfaceOps x).
Definition upHotAttached (h : gmap string string → gmap string string) (x : Nova) : Nova :=
  mkNova (Booted x) (ServerIDs x) (Hosts x) (Migrations x) (ServerName x) (ServerProject x) (ServerPort x) (ServerExtraPorts x) (h (HotAttached x)) (IfaceOps x).
Definition upIfaceOps (h : list string → list string) (x : Nova) : Nova :=
  mkNova (Booted x) (ServerIDs x) (Hosts x) (Migrations x) (ServerName x) (ServerProject x) (ServerPort x) (ServerExtraPorts x) (HotAttached x) (h (IfaceOps x)).
Definition upLBs (h : list LBSpec → list LBSpec) (x : Octo) : Octo :=
  mkOcto (h (LBs x)) (LBIDs x) (ListenersMade x) (PoolsMade x) (MembersMade x) (LBAmphorae x) (LBDeleted x).
Definition upLBIDs (h : list string → list string) (x : Octo) : Octo :=
  mkOcto (LBs x) (h (LBIDs x)) (ListenersMade x) (PoolsMade x) (MembersMade x) (LBAmphorae x) (LBDeleted x).
Definition upListenersMade (h : list ListenerSpec → list ListenerSpec) (x : Octo) : Octo :=
  mkOcto (LBs x) (LBIDs x) (h (ListenersMade x)) (PoolsMade x) (MembersMade x) (LBAmphorae x) (LBDeleted x).
Definition upPoolsMade (h : list PoolSpec → list PoolSpec) (x : Octo) : Octo :=
  mkOcto (LBs x) (LBIDs x) (ListenersMade x) (h (PoolsMade x)) (MembersMade x) (LBAmphorae x) (LBDeleted x).
Definition upMembersMade (h : list MemberSpec → list MemberSpec) (x : Octo) : Octo :=
  mkOcto (LBs x) (LBIDs x) (ListenersMade x) (PoolsMade x) (h (MembersMade x)) (LBAmphorae x) (LBDeleted x).
Definition upLBAmphorae (h : gmap string (list AmphoraRef) → gmap string (list AmphoraRef)) (x : Octo) : Octo :=
  mkOcto (LBs x) (LBIDs x) (ListenersMade x) (PoolsMade x) (MembersMade x) (h (LBAmphorae x)) (LBDeleted x).
Definition upLBDeleted (h : list string → list string) (x : Octo) : Octo :=
  mkOcto (LBs x) (LBIDs x) (ListenersMade x) (PoolsMade x) (MembersMade x) (LBAmphorae x) (h (LBDeleted x)).
Definition upPortSubnet (h : gmap string string → gmap string string) (x : Neu) : Neu :=
  mkNeu (h (PortSubnet x)) (RouterExt x) (RouterSubnets x) (RouterRoutes x) (MACs x) (PortName x) (PortProject x) (PortNet x) (DownOps x) (Deleted x).
Definition upRouterExt (h : gmap string string → gmap string string) (x : Neu) : Neu :=
  mkNeu (PortSubnet x) (h (RouterExt x)) (RouterSubnets x) (RouterRoutes x) (MACs x) (PortName x) (PortProject x) (PortNet x) (DownOps x) (Deleted x).
Definition upRouterSubnets (h : gmap string (gset string) → gmap string (gset string)) (x : Neu) : Neu :=
  mkNeu (PortSubnet x) (RouterExt x) (h (RouterSubnets x)) (RouterRoutes x) (MACs x) (PortName x) (PortProject x) (PortNet x) (DownOps x) (Deleted x).
Definition upRouterRoutes (h : gmap string (list RouteSpec) → gmap string (list RouteSpec)) (x : Neu) : Neu :=
  mkNeu (PortSubnet x) (RouterExt x) (RouterSubnets x) (h (RouterRoutes x)) (MACs x) (PortName x) (PortProject x) (PortNet x) (DownOps x) (Deleted x).
Definition upMACs (h : gmap string string → gmap string string) (x : Neu) : Neu :=
  mkNeu (PortSubnet x) (RouterExt x) (RouterSubnets x) (RouterRoutes x) (h (MACs x)) (PortName x) (PortProject x) (PortNet x) (DownOps x) (Deleted x).
Definition upPortName (h : gmap string string → gmap string string) (x : Neu) : Neu :=
  mkNeu (PortSubnet x) (RouterExt x) (RouterSubnets x) (RouterRoutes x) (MACs x) (h (PortName x)) (PortProject x) (PortNet x) (DownOps x) (Deleted x).
Definition upPortProject (h : gmap string string → gmap string string) (x : Neu) : Neu :=
  mkNeu (PortSubnet x) (RouterExt x) (RouterSubnets x) (RouterRoutes x) (MACs x) (PortName x) (h (PortProject x)) (PortNet x) (DownOps x) (Deleted x).
Definition upPortNet (h : gmap string string → gmap string string) (x : Neu) : Neu :=
  mkNeu (PortSubnet x) (RouterExt x) (RouterSubnets x) (RouterRoutes x) (MACs x) (PortName x) (PortProject x) (h (PortNet x)) (DownOps x) (Deleted x).
Definition upDownOps (h : list string → list string) (x : Neu) : Neu :=
  mkNeu (PortSubnet x) (RouterExt x) (RouterSubnets x) (RouterRoutes x) (MACs x) (PortName x) (PortProject x) (PortNet x) (h (DownOps x)) (Deleted x).
Definition upDeleted (h : gset string → gset string) (x : Neu) : Neu :=
  mkNeu (PortSubnet x) (RouterExt x) (RouterSubnets x) (RouterRoutes x) (MACs x) (PortName x) (PortProject x) (PortNet x) (DownOps x) (h (Deleted x)).
Definition on_calls (h : Calls → Calls) (c : Fake) : Fake :=
  mkFake (f_setup c) (h (f_calls c)) (f_nova c) (f_octavia c) (f_neutron c) (f_made c) (f_files c).
Definition on_nova (h : Nova → Nova) (c : Fake) : Fake :=
  mkFake (f_setup c) (f_calls c) (h (f_nova c)) (f_octavia c) (f_neutron c) (f_made c) (f_files c).
Definition on_octavia (h : Octo → Octo) (c : Fake) : Fake :=
  mkFake (f_setup c) (f_calls c) (f_nova c) (h (f_octavia c)) (f_neutron c) (f_made c) (f_files c).
Definition on_neutron (h : Neu → Neu) (c : Fake) : Fake :=
  mkFake (f_setup c) (f_calls c) (f_nova c) (f_octavia c) (h (f_neutron c)) (f_made c) (f_files c).
Definition on_made (h : list (option (kind * Info)) → list (option (kind * Info))) (c : Fake) : Fake :=
  mkFake (f_setup c) (f_calls c) (f_nova c) (f_octavia c) (f_neutron c) (h (f_made c)) (f_files c).
Definition on_files (h : gmap string RunState → gmap string RunState) (c : Fake) : Fake :=
  mkFake (f_setup c) (f_calls c) (f_nova c) (f_octavia c) (f_neutron c) (f_made c) (h (f_files c)).

(** [NewCloud] *)
Definition NewCloud (base failures : spec_float) (anomalies : gmap string spec_float) : Fake :=
  mkFake (mkSetup "ext-net-real" ["compute-0"] ∅ ∅ "" ∅ ∅ ∅ None base failures anomalies)
    (mkCalls [] [] [] [] [] [] [] [] [] [] []) (mkNova 0 [] ∅ [] ∅ ∅ ∅ ∅ ∅ []) (mkOcto [] [] [] [] [] ∅ [])
    (mkNeu ∅ ∅ ∅ ∅ ∅ ∅ ∅ ∅ [] ∅) [] ∅.

Definition Seq (c : Fake) : nat := length (f_made c).
Definition idOf (kd : string) (n : nat) : string := kd +:+ "-" +:+ FormatUint (Z.of_nat (S n)).
(** [Cloud.id]; [row] is what the id is for. *)
Definition new_id (kd : string) (row : option (kind * Info)) (c : Fake) : Fake * string :=
  (on_made (λ l, l ++ [row]) c, idOf kd (Seq c)).
Definition kindName (k : kind) : string :=
  match k with KNetwork => "net" | KSubnet => "sub" | KRouter => "rtr" | KPort => "port" | KServer => "srv"
  | KFIP => "fip" | KLoadBalancer => "lb" end.
Definition push {A} (a : A) (l : list A) : list A := l ++ [a].
Definition answer {A} (x : Fake * A) : Fake * (string + A) := (x.1, inr x.2).

(** ** Lookups and projects *)

Section ops.
Implicit Types c : Fake.
Definition lookup_or (kd id : string) : Call Fake string := λ c,
  (c, match FindErrs (f_setup c) !! kd with Some e => inl e | None => inr id end).
Definition fk_FindImage (_ : string) : Call Fake string := lookup_or "image" "img-1".
Definition fk_FindFlavor (_ : string) : Call Fake string := lookup_or "flavor" "flv-1".
Definition fk_CheckKeypair (_ : string) : Call Fake () := λ c,
  (c, match FindErrs (f_setup c) !! "keypair" with Some e => inl e | None => inr () end).
Definition fk_FindSecGroup (_ : string) : Call Fake string := lookup_or "secgroup" "sg-1".
Definition fk_FindExternalNetwork (_ : string) : Call Fake string := λ c, lookup_or "extnet" (ExtNetID (f_setup c)) c.
Definition fk_Hypervisors : Call Fake (list string) := λ c, (c, inr (Hyps (f_setup c))).
Definition fk_FindProject (name : string) : Call Fake (option string) := λ c, (c, inr (PreProjects (f_setup c) !! name)).
Definition fk_CreateProject (name : string) : Call Fake string := λ c,
  answer (new_id "proj" None (on_calls (upCreatedProjects (push name)) c)).
Definition fk_GrantAdminRole (p : string) : Call Fake () := λ c, (on_calls (upGrants (push p)) c, inr ()).

(** ** Neutron *)

Definition row_of (k : kind) (name proj net subnet : string) : option (kind * Info) := Some (k, mkInfo name proj net subnet).
Definition fk_CreateNetwork (proj : string) (s : NetworkSpec) : Call Fake string := λ c,
  answer (new_id "net" (row_of KNetwork (NS_Name s) proj "" "") (on_calls (upNets (push s)) c)).
Definition fk_CreateSubnet (proj : string) (s : SubnetSpec) : Call Fake string := λ c,
  answer (new_id "sub" (row_of KSubnet (SS_Name s) proj (SS_NetworkID s) "") (on_calls (upSubs (push s)) c)).
Definition fk_CreateRouter (proj : string) (s : RouterSpec) : Call Fake string := λ c,
  let '(c, id) := new_id "rtr" (row_of KRouter (RtS_Name s) proj "" "") (on_calls (upRtrs (push s)) c) in
  (on_neutron (λ n, upRouterSubnets (insert id ∅) (upRouterExt (insert id (RtS_ExternalNetworkID s)) n)) c, inr id).

(** [c.Deleted[kind+":"+id]] *)
Definition deleted c (kd id : string) : bool := bool_decide (kd +:+ ":" +:+ id ∈ Deleted (f_neutron c)).
(** "%02x" *)
Fixpoint hexGo (fuel : nat) (z : Z) (acc : string) : string :=
  match fuel with
  | O => acc
  | S fuel => if decide (z = 0) then acc else hexGo fuel (z / 16) (String (hexChar (z `mod` 16)) acc)
  end.
Definition hex02 (z : Z) : string := if decide (z < 256) then hex2 z else hexGo (Z.to_nat (Z.log2 z)) z "".
Definition mac_in_use c (mac net : string) : bool :=
  existsb (λ pm, bool_decide (pm.2 = mac ∧ get (PortNet (f_neutron c)) pm.1 = net) && negb (deleted c "port" pm.1))
    (map_to_list (MACs (f_neutron c))).
Definition fk_CreatePort (proj : string) (s : PortSpec) : Call Fake string := λ c,
  if negb (bool_decide (PS_MACAddress s = "")) && mac_in_use c (PS_MACAddress s) (PS_NetworkID s) then
    (c, inl ("fake neutron: mac " +:+ PS_MACAddress s +:+ " already in use on network " +:+ PS_NetworkID s))
  else
    let '(c, id) := new_id "port" (row_of KPort (PS_Name s) proj (PS_NetworkID s) (PS_SubnetID s))
                      (on_calls (upPortsMade (push s)) c) in
    let mac := if decide (PS_MACAddress s = "") then "fa:16:3e:00:00:" +:+ hex02 (Z.of_nat (Seq c)) else PS_MACAddress s in
    (on_neutron (λ n, upMACs (insert id mac) (upPortName (insert id (PS_Name s)) (upPortProject (insert id proj)
      (upPortNet (insert id (PS_NetworkID s)) (upPortSubnet (insert id (PS_SubnetID s)) n))))) c, inr id).
Definition fk_PortMAC (p : string) : Call Fake string := λ c,
  (c, match MACs (f_neutron c) !! p with Some mac => inr mac | None => inl ("fake neutron: no port " +:+ p) end).
Definition fk_AddRouterInterface (_ router subnet port : string) : Call Fake () := λ c,
  let c := on_calls (upIfaces (push (router, subnet, port))) c in
  let subnet := if decide (subnet = "") then get (PortSubnet (f_neutron c)) port else subnet in
  match RouterSubnets (f_neutron c) !! router with
  | None => (c, inl "assignment to entry in nil map")
  | Some l => (on_neutron (upRouterSubnets (insert router ({[subnet]} ∪ l))) c, inr ())
  end.
Definition fk_SetRouterRoutes (_ router : string) (routes : list RouteSpec) : Call Fake () := λ c,
  (on_neutron (upRouterRoutes (insert router routes)) (on_calls (upRoutesSet (push (router, routes))) c), inr ()).
Definition fk_SetRouterGateway (_ router ext : string) : Call Fake () := λ c,
  (on_neutron (upRouterExt (if decide (ext = "") then delete router else insert router ext)) c, inr ()).

(** ** Nova *)

Definition boot_host c (az : string) : string :=
  let host := TrimPrefix az "nova:" in
  if decide (host = az) then default "" (head (Hyps (f_setup c))) else host.
Definition fk_CreateServer (proj : string) (s : ServerSpec) : Call Fake string := λ c,
  let c := on_nova (upBooted (λ n, n + 1 + Z.of_nat (length (SvS_ExtraPortIDs s)))) (on_calls (upServersMade (push s)) c) in
  let '(c, id) := new_id "srv" (row_of KServer (SvS_Name s) proj "" "") c in
  let host := boot_host c (SvS_AvailabilityZone s) in
  (on_nova (λ n, upServerExtraPorts (λ m, <[id := get_all m id ++ SvS_ExtraPortIDs s]> m)
    (upServerPort (insert id (SvS_PortID s)) (upServerProject (insert id proj) (upServerName (insert id (SvS_Name s))
      (upHosts (insert id host) (upServerIDs (push id) n)))))) c, inr id).
Definition fk_WaitServerActive (_ _ : string) : Call Fake () := λ c, (c, inr ()).
Definition no_server (id : string) : string := "fake nova: no server " +:+ id.
Definition fk_ServerHost (_ server : string) : Call Fake string := λ c,
  (c, match Hosts (f_nova c) !! server with Some h => inr h | None => inl (no_server server) end).
Definition migrate_to c (from target : string) : option string :=
  if decide (target = "") then
    match list_find (λ h, h ≠ from) (Hyps (f_setup c)) with
    | Some (_, h) => if decide (h = "") then None else Some h
    | None => None
    end
  else if decide (target ∈ Hyps (f_setup c)) then Some target else None.
Definition fk_LiveMigrateServer (_ server target : string) : Call Fake () := λ c,
  match Hosts (f_nova c) !! server with
  | None => (c, inl (no_server server))
  | Some from =>
      match migrate_to c from target with
      | None => (c, inl (if decide (target = "") then "fake nova: no other hypervisor to migrate " +:+ server +:+ " to"
                         else "fake nova: no hypervisor " +:+ target))
      | Some to => (on_nova (λ n, upMigrations (push (server +:+ ":" +:+ from +:+ "→" +:+ to))
                      (upHosts (insert server to) n)) c, inr ())
      end
  end.

Definition reachable c (ext subnet : string) : bool :=
  existsb (λ re, bool_decide (re.2 = ext ∧ subnet ∈ default ∅ (RouterSubnets (f_neutron c) !! re.1)))
    (map_to_list (RouterExt (f_neutron c))).
Definition fk_CreateFIP (proj : string) (s : FIPCreateSpec) : Call Fake (string * string) := λ c,
  let subnet := get (PortSubnet (f_neutron c)) (FS_PortID s) in
  if reachable c (FS_ExternalNetworkID s) subnet then
    let '(c, id) := new_id "fip" (row_of KFIP "" proj "" "") (on_calls (upFips (push s)) c) in
    let c := on_calls (upFipIDs (push id)) c in
    (c, inr (id, "203.0.113." +:+ FormatUint (Z.of_nat (length (Fips (f_calls c))))))
  else (c, inl ("fake neutron: external network " +:+ FS_ExternalNetworkID s +:+ " is not reachable from subnet " +:+ subnet)).

(** ** Octavia *)

Definition fk_FindLBFlavor (name : string) : Call Fake string := λ c,
  (c, match FindErrs (f_setup c) !! "lb_flavor" with
      | Some e => inl e
      | None => if decide (fk_LBFlavorID (f_setup c) = "") then inl ("fake octavia: lb flavor " +:+ name +:+ " not found")
                else inr (fk_LBFlavorID (f_setup c))
      end).
Definition seed_amphora (id role : string) (i : nat) (m : gmap string (list AmphoraRef)) : gmap string (list AmphoraRef) :=
  let dec n := FormatUint (Z.of_nat n) in
  append_at id (mkAmphoraRef (id +:+ "-amp-" +:+ dec i) (id +:+ "-compute-" +:+ dec i)
    ("10.254.0." +:+ dec (10 + size m * 2 + i)%nat) role) m.
Definition seed_amphorae (ha : bool) (id : string) (m : gmap string (list AmphoraRef)) : gmap string (list AmphoraRef) :=
  if ha then seed_amphora id "BACKUP" 1 (seed_amphora id "MASTER" 0 m) else seed_amphora id "STANDALONE" 0 m.
Definition fk_CreateLoadBalancer (proj : string) (s : LBSpec) : Call Fake (string * string * string) := λ c,
  let '(c, id) := new_id "lb" (row_of KLoadBalancer (LS_Name s) proj "" "") (on_octavia (upLBs (push s)) c) in
  let ha := bool_decide (LS_FlavorID s ∈ HAFlavorIDs (f_setup c)) in
  let c := on_octavia (λ o, upLBAmphorae (seed_amphorae ha id) (upLBIDs (push id) o)) c in
  let vipPort := id +:+ "-vip-port" in
  let c := on_neutron (upPortSubnet (insert vipPort (LS_VIPSubnetID s))) c in
  (c, inr (id, "10.0.99." +:+ FormatUint (Z.of_nat (length (LBs (f_octavia c)))), vipPort)).
Definition fk_CreateListener (_ : string) (s : ListenerSpec) : Call Fake string := λ c,
  answer (new_id "listener" None (on_octavia (upListenersMade (push s)) c)).
Definition fk_CreatePool (_ : string) (s : PoolSpec) : Call Fake string := λ c,
  answer (new_id "pool" None (on_octavia (upPoolsMade (push s)) c)).
Definition fk_CreateMember (_ : string) (s : MemberSpec) : Call Fake string := λ c,
  answer (new_id "member" None (on_octavia (upMembersMade (push s)) c)).
Definition fk_WaitLBActive (_ _ : string) : Call Fake () := λ c, (c, inr ()).
Definition fk_ListAmphorae (lb : string) : Call Fake (list AmphoraRef) := λ c, (c, inr (get_all (LBAmphorae (f_octavia c)) lb)).

(** ** Teardown *)

(** What a delete that succeeds does to the rows of [f_made]. *)
Definition row_gone (r : key) (n : nat) (o : option (kind * Info)) : option (kind * Info) :=
  match o with Some (k, i) => if decide ((k, idOf (kindName k) n) = r) then None else o | None => None end.
Definition gone (r : key) (x : Fake * (string + ())) : Fake * (string + ()) :=
  match x.2 with inr _ => (on_made (imap (row_gone r)) x.1, inr ()) | inl e => x end.
Definition fk_DeleteLoadBalancer (_ id : string) : Call Fake () := λ c,
  gone (KLoadBalancer, id) (on_octavia (λ o, upLBAmphorae (delete id) (upLBDeleted (push id) o)) c, inr ()).
Definition down (kd id : string) : Call Fake () := λ c,
  match Cancelled (f_setup c) with
  | Some e => (c, inl ("fake neutron: " +:+ kd +:+ " " +:+ id +:+ ": " +:+ e))
  | None =>
      if decide (kd +:+ ":" +:+ id ∈ FailDown (f_setup c)) then
        (c, inl ("fake neutron: " +:+ kd +:+ " " +:+ id +:+ " refuses to delete"))
      else if deleted c kd id then (c, inr ())
      else (on_neutron (λ n, upDownOps (push (kd +:+ ":" +:+ id))
              (upDeleted (λ d, {[kd +:+ ":" +:+ id]} ∪ d) n)) c, inr ())
  end.
Definition fk_DeleteFIP (_ id : string) : Call Fake () := λ c, gone (KFIP, id) (down "fip" id c).
Definition fk_DeleteServer (_ id : string) : Call Fake () := λ c, gone (KServer, id) (down "server" id c).
Definition fk_WaitServerGone (_ id : string) : Call Fake () := λ c, gone (KServer, id) (c, inr ()).
Definition boot_port_of_live c (port : string) : bool :=
  existsb (λ sp, bool_decide (sp.2 = port) && negb (deleted c "server" sp.1)) (map_to_list (ServerPort (f_nova c))).
Definition port_in_use c (port : string) : bool :=
  boot_port_of_live c port
  || existsb (λ sp : string * list string, negb (deleted c "server" sp.1) && bool_decide (port ∈ sp.2)) (map_to_list (ServerExtraPorts (f_nova c)))
  || match HotAttached (f_nova c) !! port with Some s => negb (deleted c "server" s) | None => false end.
Definition fk_DeletePort (_ id : string) : Call Fake () := λ c,
  if port_in_use c id then (c, inl ("fake neutron: port " +:+ id +:+ " in use by server"))
  else gone (KPort, id) (down "port" id c).
Definition fk_AttachInterface (_ server port : string) : Call Fake () := λ c,
  if bool_decide (Hosts (f_nova c) !! server = None) || deleted c "server" server then (c, inl (no_server server))
  else if bool_decide (MACs (f_neutron c) !! port = None) || deleted c "port" port then (c, inl ("fake nova: no port " +:+ port))
  else if negb (bool_decide (HotAttached (f_nova c) !! port = None)) || boot_port_of_live c port then
    (c, inl ("fake nova: port " +:+ port +:+ " already attached"))
  else (on_nova (λ n, upIfaceOps (push ("attach:" +:+ server +:+ ":" +:+ port)) (upHotAttached (insert port server) n)) c, inr ()).
Definition fk_DetachInterface (_ server port : string) : Call Fake () := λ c,
  if decide (get (HotAttached (f_nova c)) port ≠ server) then
    (c, inl ("fake nova: port " +:+ port +:+ " is not attached to server " +:+ server))
  else (on_nova (λ n, upIfaceOps (push ("detach:" +:+ server +:+ ":" +:+ port)) (upHotAttached (delete port) n)) c, inr ()).
Definition fk_ClearRouterRoutes (_ router : string) : Call Fake () := λ c,
  match down "routes" router c with
  | (c, inl e) => (c, inl e)
  | (c, inr _) => (on_neutron (upRouterRoutes (delete router)) c, inr ())
  end.
Definition fk_RemoveRouterInterface (_ router subnet port : string) : Call Fake () := λ c,
  if decide (get_all (RouterRoutes (f_neutron c)) router ≠ []) then
    (c, inl ("fake neutron: router " +:+ router +:+ " interface in use by route"))
  else down "detach" (router +:+ "/" +:+ subnet +:+ port) c.
Definition fk_DeleteRouter (_ id : string) : Call Fake () := λ c, gone (KRouter, id) (down "router" id c).
Definition residual_ports c (net : string) : list string :=
  List.filter (λ p, negb (deleted c "port" p)) (get_all (ResidualPorts (f_setup c)) net).
Definition fk_ListNetworkPorts (net : string) : Call Fake (list string) := λ c, (c, inr (residual_ports c net)).
Definition fk_ListProjectServers (proj : string) : Call Fake (list ServerRef) := λ c,
  (c, inr ((λ s, mkServerRef s (get (ServerName (f_nova c)) s)) <$>
    List.filter (λ s, bool_decide (get (ServerProject (f_nova c)) s = proj) && negb (deleted c "server" s))
      (ServerIDs (f_nova c)))).
Definition fk_DeleteSubnet (_ id : string) : Call Fake () := λ c, gone (KSubnet, id) (down "subnet" id c).
Definition fk_DeleteNetwork (_ id : string) : Call Fake () := λ c,
  if decide (residual_ports c id ≠ []) then
    (c, inl ("fake neutron: network " +:+ id +:+ " has " +:+ FormatUint (Z.of_nat (length (residual_ports c id)))
      +:+ " port(s) in use"))
  else gone (KNetwork, id) (down "network" id c).

(** ** Metrics *)

Definition fk_Scrape (_ : string) : Call Fake ScrapeResult := λ c,
  (c, inr (mkScrape {[MetricBytesTotal; MetricAttachedInterfaces]}
    (fadd (BaseAttached (f_setup c)) (f64 (Booted (f_nova c)))) (EnvFailures (f_setup c))
    fzero fzero fzero fzero [] [] [] fzero fzero (EnvAnomalies (f_setup c)) fzero)).
Definition fk_LookupMAC (_ _ : string) : Call Fake MACLookup := λ c, (c, inr (mkMACLookup true "" "")).
Definition fk_LookupFlows (_ _ : string) : Call Fake (list FlowRow) := λ c, (c, inr []).
End ops.

(** ** The contract *)

Fixpoint liveFrom (n : nat) (made : list (option (kind * Info))) : Live :=
  match made with
  | [] => ∅
  | None :: made => liveFrom (S n) made
  | Some (k, i) :: made => <[(k, idOf (kindName k) n) := i]> (liveFrom (S n) made)
  end.
Definition liveOf (made : list (option (kind * Info))) : Live := liveFrom 0 made.
#[export] Instance fake_world : World Fake := {
  live c := liveOf (f_made c);
  used c id := ∀ k n, (Seq c ≤ n)%nat → id ≠ idOf k n;
  file c path := f_files c !! path }.
#[export] Instance fake_files : StateFile Fake := {
  MkdirAll _ c := (c, inr ());
  WriteFile path rs c := (on_files (insert path rs) c, inr ()) }.
#[export] Instance fake_metrics : MetricsSource Fake := {
  Scrape := fk_Scrape; LookupMAC := fk_LookupMAC; LookupFlows := fk_LookupFlows }.

(** The fake, with the listings it is given. *)
Definition cloud_with (ports : string → Call Fake (list string)) (servers : string → Call Fake (list ServerRef)) : Cloud Fake := {|
  FindImage := fk_FindImage; FindFlavor := fk_FindFlavor; FindLBFlavor := fk_FindLBFlavor; CheckKeypair := fk_CheckKeypair;
  FindSecGroup := fk_FindSecGroup; FindExternalNetwork := fk_FindExternalNetwork; Hypervisors := fk_Hypervisors;
  FindProject := fk_FindProject; CreateProject := fk_CreateProject; GrantAdminRole := fk_GrantAdminRole;
  CreateNetwork := fk_CreateNetwork; CreateSubnet := fk_CreateSubnet; CreateRouter := fk_CreateRouter;
  CreatePort := fk_CreatePort; PortMAC := fk_PortMAC; AddRouterInterface := fk_AddRouterInterface;
  SetRouterRoutes := fk_SetRouterRoutes; SetRouterGateway := fk_SetRouterGateway; CreateServer := fk_CreateServer;
  WaitServerActive := fk_WaitServerActive; CreateFIP := fk_CreateFIP; CreateLoadBalancer := fk_CreateLoadBalancer;
  CreateListener := fk_CreateListener; CreatePool := fk_CreatePool; CreateMember := fk_CreateMember;
  WaitLBActive := fk_WaitLBActive; ListAmphorae := fk_ListAmphorae; ServerHost := fk_ServerHost;
  LiveMigrateServer := fk_LiveMigrateServer; AttachInterface := fk_AttachInterface; DetachInterface := fk_DetachInterface;
  DeleteLoadBalancer := fk_DeleteLoadBalancer; DeleteFIP := fk_DeleteFIP; DeleteServer := fk_DeleteServer;
  WaitServerGone := fk_WaitServerGone; DeletePort := fk_DeletePort; ClearRouterRoutes := fk_ClearRouterRoutes;
  RemoveRouterInterface := fk_RemoveRouterInterface; DeleteRouter := fk_DeleteRouter; ListNetworkPorts := ports;
  ListProjectServers := servers; DeleteSubnet := fk_DeleteSubnet; DeleteNetwork := fk_DeleteNetwork |}.
Definition fake_cloud : Cloud Fake := cloud_with fk_ListNetworkPorts fk_ListProjectServers.
(** Every port of the network, and every server of the project, that is live. *)
Definition all_ports (net : string) : Call Fake (list string) := λ c,
  (c, inr (omap (λ ri : key * Info, if decide (ri.1.1 = KPort ∧ I_Network ri.2 = net) then Some ri.1.2 else None)
    (map_to_list (live c)))).
Definition all_servers (proj : string) : Call Fake (list ServerRef) := λ c,
  (c, inr (omap (λ ri : key * Info, if decide (ri.1.1 = KServer ∧ I_Project ri.2 = proj)
     then Some (mkServerRef ri.1.2 (I_Name ri.2)) else None) (map_to_list (live c)))).
#[export] Instance full_cloud : Cloud Fake := cloud_with all_ports all_servers.

Lemma idOf_inj kd n m : idOf kd n = idOf kd m → n = m.
Proof.
  rewrite /idOf. intros E. apply (inj (String.append kd)) in E. apply (inj (String.append "-")) in E.
  apply FormatUint_inj_N in E. lia.
Qed.
Lemma idOf_nonempty kd n : idOf kd n ≠ "".
Proof. rewrite /idOf. by destruct kd. Qed.

Lemma lookup_liveFrom made k id i n :
  liveFrom n made !! (k, id) = Some i ↔ ∃ m, made !! m = Some (Some (k, i)) ∧ id = idOf (kindName k) (n + m).
Proof.
  induction made as [|o made IH] in n |- *; simpl.
  { split; [by rewrite lookup_empty|]. by intros (m & Hm & _). }
  assert ((∃ m, made !! m = Some (Some (k, i)) ∧ id = idOf (kindName k) (S n + m)) ↔
    ∃ m, (m ≠ 0)%nat ∧ (o :: made) !! m = Some (Some (k, i)) ∧ id = idOf (kindName k) (n + m)) as Htail.
  { split; [intros (m & Hm & ->); exists (S m); split_and!; [done|done|f_equal; lia]|].
    intros ([|m] & ? & Hm & ->); [done|]. exists m. split; [done|f_equal; lia]. }
  destruct o as [[k' i']|]; [rewrite lookup_insert_Some|]; rewrite IH Htail.
  - split.
    + intros [[[= -> <-] ->]|[_ (m & _ & Hm)]]; [exists 0%nat; by rewrite Nat.add_0_r|by exists m].
    + intros ([|m] & Hm & ->); simpl in Hm; [injection Hm as -> ->; left; by rewrite Nat.add_0_r|]. right. split.
      * intros [= -> E]. apply idOf_inj in E. lia.
      * by exists (S m).
  - split; [intros (m & _ & Hm); by exists m|]. intros ([|m] & Hm & ->); [done|]. by exists (S m).
Qed.
Lemma lookup_liveOf made k id i :
  liveOf made !! (k, id) = Some i ↔ ∃ n, made !! n = Some (Some (k, i)) ∧ id = idOf (kindName k) n.
Proof. apply (lookup_liveFrom made k id i 0). Qed.
(** Maps with the same rows are the same. *)
Lemma live_ext (l l' : Live) : (∀ k id i, l !! (k, id) = Some i ↔ l' !! (k, id) = Some i) → l = l'.
Proof. intros E. apply map_eq. intros [k id]. apply option_eq. intros i. apply E. Qed.

Lemma live_blank made : liveOf (made ++ [None]) = liveOf made.
Proof.
  apply live_ext. intros k id i. rewrite !lookup_liveOf. apply exist_proper. intros n. rewrite lookup_app_Some.
  split; [intros [[H|[_ H]] ->]|intros [H ->]]; [done| |by split; [left|]].
  by apply list_lookup_singleton_Some in H as [_ ?].
Qed.
Lemma live_new made k i : let id := idOf (kindName k) (length made) in
  liveOf made !! (k, id) = None ∧ liveOf (made ++ [Some (k, i)]) = <[(k, id) := i]> (liveOf made).
Proof.
  intros id. assert (liveOf made !! (k, id) = None) as Hnone.
  { destruct (_ !! _) as [j|] eqn:E; [|done]. apply lookup_liveOf in E as (n & Hn%lookup_lt_Some & E).
    apply idOf_inj in E. lia. }
  split; [done|]. apply live_ext. intros k' id' i'. rewrite lookup_insert_Some !lookup_liveOf. split.
  - intros (n & Hn & ->). apply lookup_app_Some in Hn as [Hn|[Hn Hi]].
    + right. split; [|by exists n]. intros [= -> E]. apply idOf_inj in E. apply lookup_lt_Some in Hn. lia.
    + apply list_lookup_singleton_Some in Hi as [? [= <- <-]]. left. split; [|done]. f_equal. rewrite /id. f_equal. lia.
  - intros [[[= <- <-] <-]|[_ (n & Hn & ->)]]; [|exists n; by rewrite lookup_app_l; [apply lookup_lt_Some in Hn|]].
    exists (length made). by rewrite list_lookup_middle.
Qed.
Lemma live_gone made r : liveOf (imap (row_gone r) made) = delete r (liveOf made).
Proof.
  apply live_ext. intros k id i. rewrite lookup_delete_Some !lookup_liveOf. setoid_rewrite list_lookup_imap_Some. split.
  - intros (n & ([[k' i']|] & Hn & E) & ->); simpl in E; [|done]. case_decide; [done|]. injection E as <- <-.
    split; [done|by exists n].
  - intros [Hr (n & Hn & ->)]. exists n. split; [|done]. eexists. split; [done|]. simpl. by rewrite decide_False.
Qed.

Lemma keeps_of {A} (f : Call Fake A) :
  (∀ c, f_files (f c).1 = f_files c ∧ (Seq c ≤ Seq (f c).1)%nat) → keepsFiles f.
Proof. intros Hf c. destruct (Hf c) as [E Hle]. simpl. rewrite E. split; [done|]. intros id Hid k n Hn. apply Hid. lia. Qed.
Lemma quiet_of {A} (f : Call Fake A) :
  (∀ c, f_files (f c).1 = f_files c ∧ (f_made (f c).1 = f_made c ∨ f_made (f c).1 = f_made c ++ [None])) → quiet f.
Proof.
  intros Hf. split.
  - apply keeps_of. intros c. destruct (Hf c) as [E [Em|Em]]; split; try done; rewrite /Seq Em ?length_app; lia.
  - intros c. destruct (Hf c) as [_ [Em|Em]]; simpl; rewrite Em; [done|apply live_blank].
Qed.
(** A create, by what it did to the rows. *)
Lemma creates_of {A} (id_of : A → string) k i c c' (r : string + A) :
  match r with
  | inr a => id_of a = idOf (kindName k) (Seq c) ∧ f_made c' = f_made c ++ [Some (k, i)]
  | inl _ => f_made c' = f_made c
  end → creates id_of k i c c' r.
Proof.
  destruct r as [e|a]; simpl; [intros ->; by left|]. intros [-> ->]. destruct (live_new (f_made c) k i) as [Hn Hl].
  split_and!; [apply idOf_nonempty|done| |done]. intros Hu. by apply (Hu (kindName k) (Seq c)).
Qed.
Lemma down_made kd id c : f_made (down kd id c).1 = f_made c ∧ f_files (down kd id c).1 = f_files c.
Proof. rewrite /down. by repeat case_match. Qed.
Lemma gone_deletes r kd id c : deletes r (live c) (live (gone r (down kd id c)).1) (gone r (down kd id c)).2 ∧
  (gone r (down kd id c)).2 = (down kd id c).2.
Proof.
  destruct (down_made kd id c) as [Em _]. destruct (down kd id c) as [c' [e|[]]]; simpl in *; rewrite Em;
    split; [by left|done|apply live_gone|done].
Qed.
Lemma gone_keeps r x : f_files (gone r x).1 = f_files x.1 ∧ Seq (gone r x).1 = Seq x.1.
Proof. rewrite /gone. destruct (x.2); [done|]. split; [done|]. apply length_imap. Qed.
Lemma gone_down_keeps r kd id c : f_files (gone r (down kd id c)).1 = f_files c ∧ (Seq c ≤ Seq (gone r (down kd id c)).1)%nat.
Proof.
  destruct (gone_keeps r (down kd id c)) as [-> ->], (down_made kd id c) as [Em ->]. split; [done|].
  by rewrite /Seq Em.
Qed.

Lemma all_ports_listed net c p i : live c !! (KPort, p) = Some i →
  p ∈ omap (λ ri : key * Info, if decide (ri.1.1 = KPort ∧ I_Network ri.2 = net) then Some ri.1.2 else None)
        (map_to_list (live c)) ↔ I_Network i = net.
Proof.
  intros Hp. rewrite list_elem_of_omap. split.
  - intros ([[k p'] j] & Hj & E). apply elem_of_map_to_list in Hj. simpl in E. case_decide as Hd; [|done].
    injection E as ->. destruct Hd as [Hk <-]. simpl in *. subst k. rewrite Hp in Hj. by injection Hj as ->.
  - intros En. exists ((KPort, p), i). by rewrite elem_of_map_to_list decide_True.
Qed.
Lemma all_servers_listed proj c l s i : (all_servers proj c).2 = inr l → live c !! (KServer, s) = Some i →
  (I_Project i = proj → mkServerRef s (I_Name i) ∈ l) ∧
  (∀ r, r ∈ l → SR_ID r = s → SR_Name r = I_Name i ∧ I_Project i = proj).
Proof.
  intros [= <-] Hs. setoid_rewrite list_elem_of_omap. split.
  - intros En. exists ((KServer, s), i). by rewrite elem_of_map_to_list decide_True.
  - intros r ([[k s'] j] & Hj & E) Hr. apply elem_of_map_to_list in Hj. simpl in E. case_decide as Hd; [|done].
    injection E as <-. destruct Hd as [Hk <-]. simpl in *. subst k s'. rewrite Hs in Hj. by injection Hj as ->.
Qed.

(** The operations that make and delete no resource. *)
#[local] Ltac plain := intros; apply quiet_of; intros c; cbv [FindImage FindFlavor FindLBFlavor CheckKeypair FindSecGroup
  FindExternalNetwork Hypervisors FindProject CreateProject GrantAdminRole PortMAC AddRouterInterface SetRouterRoutes
  SetRouterGateway WaitServerActive CreateListener CreatePool CreateMember WaitLBActive ListAmphorae ServerHost
  LiveMigrateServer AttachInterface DetachInterface ListNetworkPorts ListProjectServers full_cloud cloud_with
  fk_FindImage fk_FindFlavor fk_FindLBFlavor fk_CheckKeypair fk_FindSecGroup fk_FindExternalNetwork fk_Hypervisors
  fk_FindProject fk_CreateProject fk_GrantAdminRole fk_PortMAC fk_AddRouterInterface fk_SetRouterRoutes
  fk_SetRouterGateway fk_WaitServerActive fk_CreateListener fk_CreatePool fk_CreateMember fk_WaitLBActive
  fk_ListAmphorae fk_ServerHost fk_LiveMigrateServer fk_AttachInterface fk_DetachInterface all_ports all_servers
  lookup_or answer]; cbv beta zeta; repeat case_match; simpl; split; try done; try (by left); by right.
Lemma Clear_quiet p r : quiet (fk_ClearRouterRoutes p r).
Proof.
  apply quiet_of. intros c. rewrite /fk_ClearRouterRoutes. destruct (down_made "routes" r c) as [Em Ef].
  destruct (down "routes" r c) as [c' [e|[]]]; simpl in *; split; try done; by left.
Qed.
Lemma Remove_made p r s q c : f_made (fk_RemoveRouterInterface p r s q c).1 = f_made c ∧
  f_files (fk_RemoveRouterInterface p r s q c).1 = f_files c.
Proof. rewrite /fk_RemoveRouterInterface. case_decide; [done|apply down_made]. Qed.
#[local] Ltac made f := intros; apply creates_of; cbn [CreateNetwork CreateSubnet CreateRouter CreatePort CreateServer CreateFIP
  CreateLoadBalancer full_cloud cloud_with]; unfold f, new_id; simpl; repeat (case_match; simpl); done.
#[local] Ltac keeping f := intros; apply keeps_of; intros c; cbn [CreateNetwork CreateSubnet CreateRouter CreatePort CreateServer
  CreateFIP CreateLoadBalancer full_cloud cloud_with]; unfold f, new_id; simpl; repeat case_match; simpl;
  (split; [done|rewrite /Seq /= ?length_app /=; lia]).
#[export] Instance full_cloud_laws : CloudLaws Fake.
Proof.
  split.
  1-24: plain.
  1: apply Clear_quiet.
  1-2: plain.
  - made fk_CreateNetwork.
  - made fk_CreateSubnet.
  - made fk_CreateRouter.
  - intros. apply creates_of. cbn -[fk_CreatePort]. rewrite /fk_CreatePort. by destruct (negb _ && _).
  - made fk_CreateServer.
  - intros. apply creates_of. cbn -[fk_CreateFIP]. rewrite /fk_CreateFIP. cbv zeta. by destruct (reachable _ _ _).
  - made fk_CreateLoadBalancer.
  - intros. simpl. apply live_gone.
  - intros. apply gone_deletes.
  - intros. destruct (gone_deletes (KServer, r) "server" r w) as [Hd _].
    change (DeleteServer p r w) with (fk_DeleteServer p r w). rewrite /fk_DeleteServer.
    destruct (gone (KServer, r) (down "server" r w)) as [c' [e|[]]]; simpl in *; [done|by right].
  - intros. simpl. apply live_gone.
  - intros. change (DeletePort p r w) with (fk_DeletePort p r w). rewrite /fk_DeletePort.
    destruct (port_in_use w r); [by left|apply gone_deletes].
  - intros. left. cbn. by destruct (Remove_made p r s q w) as [-> _].
  - intros. apply gone_deletes.
  - intros. apply gone_deletes.
  - intros. change (DeleteNetwork p r w) with (fk_DeleteNetwork p r w). rewrite /fk_DeleteNetwork.
    case_decide; [by left|apply gone_deletes].
  - keeping fk_CreateNetwork.
  - keeping fk_CreateSubnet.
  - keeping fk_CreateRouter.
  - keeping fk_CreatePort.
  - keeping fk_CreateServer.
  - keeping fk_CreateFIP.
  - keeping fk_CreateLoadBalancer.
  - intros. apply keeps_of. intros c. split; [done|]. by rewrite /Seq /= length_imap.
  - intros. apply keeps_of. intros c. apply gone_down_keeps.
  - intros. apply keeps_of. intros c. apply gone_down_keeps.
  - intros. apply keeps_of. intros c. split; [done|]. by rewrite /Seq /= length_imap.
  - intros. apply keeps_of. intros c. change (DeletePort p r c) with (fk_DeletePort p r c). rewrite /fk_DeletePort.
    destruct (port_in_use c r); [done|apply gone_down_keeps].
  - intros. apply keeps_of. intros c. destruct (Remove_made p r s q c) as [Em Ef]. split; [done|]. by rewrite /Seq Em.
  - intros. apply keeps_of. intros c. apply gone_down_keeps.
  - intros. apply keeps_of. intros c. apply gone_down_keeps.
  - intros. apply keeps_of. intros c. change (DeleteNetwork p r c) with (fk_DeleteNetwork p r c). rewrite /fk_DeleteNetwork.
    case_decide; [done|apply gone_down_keeps].
  - intros n w ports [= <-] p i Hp. by apply all_ports_listed.
  - intros p w l Hl s i. by apply all_servers_listed.
Qed.
#[export] Instance fake_metrics_laws : MetricsLaws Fake.
Proof. split; intros; apply quiet_of; intros c; by split; [|left]. Qed.
#[export] Instance fake_file_laws : FileLaws Fake.
Proof.
  split; [intros; apply quiet_of; intros c; by split; [|left]|done|]. intros path rs w. simpl. by rewrite lookup_insert_eq.
Qed.

(** ** The double at work *)

Module FakeExamples.
#[local] Existing Instance list_range.
(** [Config] *)
Definition Config : HarnessConfig :=
  let d := harnessDefaults in
  mkHarness (H_Version d)
    (mkOSCreds "" "http://k" "admin" "p" "admin" (OC_UserDomain (H_OpenStack d)) (OC_ProjectDomain (H_OpenStack d)) "" ""
      (OC_RequestTimeout (H_OpenStack d)))
    (mkCluster "" [mkAgentConfig "compute-0" "http://compute-0:9100/metrics" ""])
    (mkPrereqs "img" "flv" "kp" "sg" "ext" "") (mkSSH (SSH_User (H_SSH d)) "/k" (SSH_Timeout (H_SSH d)))
    (H_AgentControl d) (H_Prefix d).
Definition scenario (name : string) (created : list string) (prog : list call) : Scenario :=
  mkScenario name (d_b <$> declares prog startDsl) "" ∅ ∅ ∅ [] [] created [] [].
(** [SameTenantScenario] and [ExtPathTopology] *)
Definition SameTenantScenario : Scenario := scenario "same" [] [
  CNetwork Plain "net-T1" "T1"; CSubnet 0 "sub-T1" "10.0.1.0/24" "10.0.1.1"; CVM 0 "vm-a" "T1" "10.0.1.5";
  CVM 0 "vm-b" "T1" "10.0.1.6"; CNetwork External_ "net-ext" "admin"; CRouter "r-T1" "T1";
  CAttach 0 "sub-T1" "10.0.1.1"; CGateway 0 "net-ext"].
Definition ExtPathTopology : Scenario := scenario "multi-external-path" ["net-ext2"] [
  CNetwork Plain "net-T1" "T1"; CSubnet 0 "sub-T1" "10.0.11.0/24" "10.0.11.1"; CVM 0 "vm-a" "T1" "10.0.11.5";
  CNetwork External_ "net-ext" "admin"; CNetwork External_ "net-ext2" "T1";
  CSubnet 2 "sub-ext2" "172.24.99.0/24" "172.24.99.1"; CRouter "r-T1" "T1"; CAttach 0 "sub-T1" "10.0.11.1";
  CGateway 0 "net-ext"; CRouter "r-ext2" "T1"; CAttach 1 "sub-T1" "10.0.11.254"; CGateway 1 "net-ext2";
  CRouter "r-nogw" "T1"; CAttach 2 "sub-T1" "10.0.11.253"].

(** A cloud that has a network of its own, and a server in a project the run uses. *)
Definition host_cloud : Fake :=
  let c := NewCloud fzero fzero ∅ in
  let c := (fk_CreateNetwork "proj-x" (mkNetworkSpec "theirs" false false) c).1 in
  (fk_CreateServer "proj-x" (mkServerSpec "their-vm" "" "" "" [] "" "") c).1.
Definition where_ : string := ".scenariotest/run.json".
Definition up (sc : Scenario) (n : nat) : (nat * Fake) * RunState * option upErr :=
  Realize.Run Config sc "abc123" where_ 3 (n, host_cloud).
(** What an outcome shows: the error, and how many resources are live and recorded. *)
Definition shown (r : (nat * Fake) * RunState * option upErr) : option upErr * nat * nat :=
  (r.2, size (live r.1.1), size (recorded r.1.2)).
Definition teardown_ops (sc : Scenario) : nat * list string * option downErr :=
  let '((_, w1), rs, _) := up sc 1000 in
  match Down rs where_ w1 with (w2, _, e) => (size (live w2), DownOps (f_neutron w2), e) end.
(** Both scenarios stand up, and come down in the order the cloud demands; a run that is
    killed as it saves has made one resource it has no record of. *)
Example up_examples : shown (up SameTenantScenario 1000) = (None, 11, 9)%nat ∧
  shown (up ExtPathTopology 1000) = (None, 14, 12)%nat ∧
  shown (up SameTenantScenario 17) = (Some (SaveErr (MkdirErr "killed")), 5, 3)%nat.
Proof. by vm_compute. Qed.
Example down_examples : teardown_ops SameTenantScenario = (2%nat, [
  "fip:fip-11"; "fip:fip-12"; "server:srv-9"; "server:srv-10"; "routes:rtr-6"; "detach:rtr-6/sub-5";
  "detach:rtr-6/port-7"; "detach:rtr-6/port-8"; "port:port-7"; "port:port-8"; "router:rtr-6"; "subnet:sub-5";
  "network:net-4"], None) ∧ (teardown_ops ExtPathTopology).1.1 = 2%nat ∧ (teardown_ops ExtPathTopology).2 = None.
Proof. by vm_compute. Qed.
(** The fake's own listing misses the ports the run itself has left on a network. *)
Example listing_incomplete : let w := (up SameTenantScenario 1000).1.1.2 in
  (fk_ListNetworkPorts "net-4" w).2 = inr [] ∧ (all_ports "net-4" w).2 = inr ["port-7"; "port-8"].
Proof. by vm_compute. Qed.

Lemma host_closed : closed host_cloud.
Proof.
  assert (∀ kd n, "" ≠ idOf kd n) as Hid by (intros kd n E; symmetry in E; by apply idOf_nonempty in E).
  intros [k id] j Hj. apply lookup_liveOf in Hj as ([|[|n]] & Hn & _); [..|done]; injection Hn as <- <-;
    split; intros k' n' _; apply Hid.
Qed.
Lemma record_never_lags_witness : (shown (up SameTenantScenario 17)).2 = 3%nat ∧
  run_outcome Config "abc123" where_ (17%nat, host_cloud) (up SameTenantScenario 17) ∧
  run_outcome Config "abc123" where_ host_cloud (Realize.Run Config SameTenantScenario "abc123" where_ 3 host_cloud).
Proof.
  split; [by vm_compute|]. exact (record_never_lags Config SameTenantScenario "abc123" where_ 3 17 host_cloud host_closed).
Defined.
Definition upped : (nat * Fake) * RunState * option upErr := up SameTenantScenario 1000.
Lemma down_exact_witness : size (live upped.1.1) = 11%nat ∧
  match Down upped.1.2 where_ upped.1.1.2 with
  | (w', rs', err) => swept upped.1.2 (live upped.1.1.2) (live w') ∧
      match err with
      | None => clean upped.1.2 (live w') ∧ R_TornDown rs' = true ∧ same_listing upped.1.2 rs' ∧ file w' where_ = Some rs'
      | Some (StepsFailed errs) => errs ≠ [] ∧ rs' = upped.1.2 ∧ ∀ p, file w' p = file upped.1.1.2 p
      | Some (DownSave _) => clean upped.1.2 (live w')
      end
  end.
Proof.
  split; [by vm_compute|]. apply (down_exact upped.1.2 where_ upped.1.1.2).
  assert (bool_decide (set_Forall (λ r, r.2 ≠ "") (recorded upped.1.2)) = true) as H by by vm_compute.
  intros r Hr. by apply bool_decide_eq_true in H; apply H.
Defined.
Lemma up_down_restores_witness : (teardown_ops SameTenantScenario).1.1 = 2%nat ∧
  match up SameTenantScenario 1000 with
  | ((_, w1), _, err) => ∀ rec, file w1 where_ = Some rec →
      match Down rec where_ w1 with
      | (w2, _, None) =>
          match err with None => live w2 = live host_cloud | Some _ => all_but_one rec (live host_cloud) (live w2) end
      | (w2, _, Some _) => live host_cloud ⊆ live w2
      end
  end.
Proof.
  split; [by vm_compute|]. apply (up_down_restores Config SameTenantScenario "abc123" where_ 3 1000 host_cloud host_closed); [|done].
  intros s i Hs. apply lookup_liveOf in Hs as ([|[|n]] & Hn & _); [done| |done]. by injection Hn as <-.
Defined.
End FakeExamples.
