(* ===== verification/Assert.v ===== *)
(** * Judging a run (internal/scenariotest: assert/assert.go, report.go, preflight/preflight.go)

    The readiness check before a run and the evaluation of its expectations after the
    traffic: one row per expectation, a lower bound on what the agents' counters have
    grown by since the baseline; what is summed, over the samples themselves; and the
    loop that waits for the counters to settle. *)
From S2P Require Import Prelude GoStrings GoArgs GoJson Neutron Builder Scenario Cloud Realize.
From Stdlib Require Import SpecFloat.

(** ** Reports (report.go) *)

Record AssertRow := mkRow {
  AR_Tenant : string; AR_TenantID : string; AR_Zone : string; AR_ExternalNetwork : string; AR_VM : string;
  AR_ServerID : string; AR_Node : string; AR_Direction : string; AR_Baseline : spec_float; AR_Current : spec_float;
  AR_Delta : spec_float; AR_MinBytes : Z; AR_Pass : bool; AR_Note : string }.
Record AssertReport := mkReport { RP_Scenario : string; RP_RunID : string; RP_OK : bool; RP_Rows : list AssertRow }.
Definition PassCount (r : AssertReport) : nat := length (filter (λ row, AR_Pass row = true) (RP_Rows r)).
(** [StepEnv.AddRow] and the executor's verdict: a row that fails clears it. *)
Definition addRow (row : AssertRow) (r : AssertReport) : AssertReport :=
  mkReport (RP_Scenario r) (RP_RunID r) (if AR_Pass row then RP_OK r else false) (RP_Rows r ++ [row]).

(** The calls of [AssertReport.Save] beside those of the run-state's. *)
Class ReportFile (W : Type) := { WriteReport : string → AssertReport → Call W () }.
Definition row_marshals (r : AssertRow) : bool :=
  finite (AR_Baseline r) && finite (AR_Current r) && finite (AR_Delta r).
Definition saveReport `{!StateFile W, !ReportFile W} (r : AssertReport) (path : string) (w : W) : W * (saveErr + ()) :=
  match MkdirAll (Dir path) w with
  | (w, inl e) => (w, inl (MkdirErr e))
  | (w, inr _) =>
      if forallb row_marshals (RP_Rows r) then
        match WriteReport path r w with
        | (w, inl e) => (w, inl (WriteErr e))
        | (w, inr _) => (w, inr ())
        end
      else (w, inl MarshalErr)
  end.

(** ** Evaluation (assert.go) *)

Record baselines := mkBase {
  bs_tuples : gmap Tuple spec_float; bs_ext : gmap ExtTuple spec_float; bs_servers : gmap ServerTuple spec_float;
  bs_rawBytes : list BytesSample; bs_rawServers : list ServerSample }.
Definition baselinesOf (bytes : list BytesSample) (servers : list ServerSample) : baselines :=
  mkBase (SumByTuple bytes) (SumByExtTuple bytes) (SumByServerTuple servers) bytes servers.

Inductive assertErr := NoBaseline | NoProject (tenant : string) | BadNode (e : nodeErr) | NoNodeIdentity (node : string)
  | NoServerFamily (vm : string) | NoServer (vm : string) | AssertScrape (e : string) | NoReportPath
  | AssertSave (e : saveErr) | Interrupted (e : string).

Section evaluate.
Context `{GoRange}.
Implicit Types (sc : Scenario) (cfg : HarnessConfig) (rs : RunState) (base cur : baselines) (e : Expect).

Definition resolveExternalNetwork sc cfg rs (name : string) : string :=
  match Sc_Builder sc with
  | None => name
  | Some b =>
      if decide (name = "") then name
      else if decide (name ∈ Sc_CreateExternalNets sc) then Mangle (H_Prefix cfg) (R_RunID rs) name
      else if decide (Exists (λ n, Net_IsExternal n = true ∧ Net_ID n = name) (Networks (Build b)))
      then ExternalNetworkName (H_Prerequisites cfg) else name
  end.

(** The series an expectation is about, in one snapshot. *)
Definition resolveTarget cfg rs base (haveServers : bool) e : assertErr + (string * string) :=
  let node :=
    if decide (E_Node e = "") then inr ""
    else match ResolveNode (E_Node e) (Agents (H_Cluster cfg)) with
    | inl err => inl (BadNode err)
    | inr host => if HasNodeInfo (bs_rawBytes base) (bs_rawServers base) then inr host else inl (NoNodeIdentity (E_Node e))
    end in
  match node with
  | inl err => inl err
  | inr node =>
      if decide (E_VM e = "") then inr (node, "")
      else if haveServers then
        match ServerIDFor rs (E_VM e) with Some id => inr (node, id) | None => inl (NoServer (E_VM e)) end
      else inl (NoServerFamily (E_VM e))
  end.
Definition valueOf (b : baselines) (vm server node tenant zone ext dir : string) : spec_float :=
  if decide (vm ≠ "") then
    if decide (node ≠ "") then SumServersOnNode (bs_rawServers b) node server zone ext dir
    else SumServer (bs_servers b) server zone ext dir
  else if decide (node ≠ "") then SumBytesOnNode (bs_rawBytes b) node tenant zone ext dir
  else if decide (ext ≠ "") then default fzero (bs_ext b !! mkExtTuple tenant zone ext dir)
  else default fzero (bs_tuples b !! mkTuple tenant zone dir).
Definition noteBaselineInvalidated : string :=
  "baseline invalidated (counter dropped — ghost GC evicted a prior run's flows); re-run drive".
Definition rowOf (e : Expect) (tenant ext node server : string) (baseline current : spec_float) : AssertRow :=
  let delta := fsub current baseline in
  mkRow (E_TenantID e) tenant (E_Zone e) ext (E_VM e) server node (E_Direction e) baseline current delta (E_MinBytes e)
    (fge delta (f64 (E_MinBytes e))) (if SFltb delta fzero then noteBaselineInvalidated else "").
Definition evaluateRow sc cfg rs base cur (haveServers : bool) e : assertErr + AssertRow :=
  match R_Projects rs !! E_TenantID e with
  | None => inl (NoProject (E_TenantID e))
  | Some ref =>
      let ext := resolveExternalNetwork sc cfg rs (E_ExternalNetwork e) in
      match resolveTarget cfg rs base haveServers e with
      | inl err => inl err
      | inr (node, server) =>
          let value b := valueOf b (E_VM e) server node (PR_ID ref) (E_Zone e) ext (E_Direction e) in
          inr (rowOf e (PR_ID ref) ext node server (value base) (value cur))
      end
  end.
Fixpoint evaluateRows sc cfg rs base cur (haveServers : bool) (l : list Expect) (report : AssertReport)
    : assertErr + AssertReport :=
  match l with
  | [] => inr report
  | e :: l =>
      match evaluateRow sc cfg rs base cur haveServers e with
      | inl err => inl err
      | inr row => evaluateRows sc cfg rs base cur haveServers l (addRow row report)
      end
  end.
Definition evaluate sc cfg rs base cur (haveServers : bool) : assertErr + AssertReport :=
  evaluateRows sc cfg rs base cur haveServers (Sc_Expect sc) (mkReport (R_Scenario rs) (R_RunID rs) true []).
End evaluate.

(** ** The loop *)

(** A pause, cut short when the run is interrupted. *)
Class Clock (W : Type) := { Pause : Z → Call W () }.

Section assert.
Context `{GoRange} {W : Type} `{!MetricsSource W, !StateFile W, !ReportFile W, !Clock W}.
(** How many polls fit in a timeout. *)
Variable polls : Z → nat.
Definition defaultStabilizeTimeout : Z := 45 * second.
Definition assertPollInterval : Z := 3 * second.
Fixpoint stabilize (sc : Scenario) (cfg : HarnessConfig) (rs : RunState) (base : baselines) (n : nat) (w : W)
    : W * (assertErr + AssertReport) :=
  match SampleAcross (Agents (H_Cluster cfg)) w with
  | (w, inl e) => (w, inl (AssertScrape e))
  | (w, inr snap) =>
      let cur := baselinesOf (M_Bytes snap) (M_Servers snap) in
      match evaluate sc cfg rs base cur (bool_decide (M_Servers snap ≠ [])) with
      | inl e => (w, inl e)
      | inr report =>
          if RP_OK report then (w, inr report)
          else match n with
          | O => (w, inr report)
          | S n =>
              match Pause assertPollInterval w with
              | (w, inl e) => (w, inl (Interrupted e))
              | (w, inr _) => stabilize sc cfg rs base n w
              end
          end
      end
  end.
Definition AssertRun (sc : Scenario) (cfg : HarnessConfig) (rs : RunState) (reportPath : string) (timeout : Z) (w : W)
    : W * (assertErr + AssertReport) :=
  if decide (R_Baseline rs = []) then (w, inl NoBaseline)
  else
    let timeout := if decide (timeout <= 0) then defaultStabilizeTimeout else timeout in
    match stabilize sc cfg rs (baselinesOf (R_Baseline rs) (R_BaselineServers rs)) (polls timeout) w with
    | (w, inl e) => (w, inl e)
    | (w, inr report) =>
        if decide (reportPath = "") then (w, inl NoReportPath)
        else match saveReport report reportPath w with
        | (w, inl e) => (w, inl (AssertSave e))
        | (w, inr _) => (w, inr report)
        end
    end.
End assert.

(** ** Preflight (preflight.go) *)

Record Check_ := mkCheck { Ck_Name : string; Ck_OK : bool; Ck_Detail : string }.
Record PreReport := mkPreReport { PF_Scenario : string; PF_OK : bool; PF_Skip : option skip; PF_Checks : list Check_ }.

Section preflight.
Context `{GoRange} {W : Type} `{!Cloud W, !MetricsSource W}.
Implicit Types (w : W) (cks : list Check_).

(** [add], of what a call answered. *)
Definition check {A} (name : string) (c : Call W A) (detail : A → string) (s : W * list Check_) : W * list Check_ :=
  match c s.1 with
  | (w, inl e) => (w, s.2 ++ [mkCheck name false e])
  | (w, inr a) => (w, s.2 ++ [mkCheck name true (detail a)])
  end.
Definition badHost (hosts : list string) (p : Placement) : option (string * string) :=
  head (List.filter (λ vh, bool_decide (vh.2 ≠ "" ∧ vh.2 ∉ hosts)) (go_range p)).
Definition checkPlacement (p : Placement) (hosts : list string) : option string :=
  (λ vh, "hypervisor " +:+ vh.2 +:+ " (pinned for VM " +:+ vh.1 +:+ ") not in hypervisor list") <$> badHost hosts p.
Definition placementCheck (cfg : HarnessConfig) (sc : Scenario) : Call W nat := λ w,
  match ResolvePlacement (Sc_Placement sc) (Agents (H_Cluster cfg)) with
  | inl _ => (w, inl "placement slot")
  | inr resolved =>
      match Hypervisors w with
      | (w, inl e) => (w, inl e)
      | (w, inr hosts) =>
          (w, match checkPlacement resolved hosts with Some e => inl e | None => inr (size resolved) end)
      end
  end.
Definition agentCheck (a : AgentConfig) : Call W () := λ w,
  match Scrape (AC_MetricsURL a) w with
  | (w, inl e) => (w, inl e)
  | (w, inr res) =>
      (w, match CheckRequiredMetrics res with Some m => inl ("agent /metrics missing " +:+ m) | None => inr () end)
  end.
Definition found (name id : string) : string := "found " +:+ name +:+ " (" +:+ id +:+ ")".
Definition preflightChecks (cfg : HarnessConfig) (sc : Scenario) (w : W) : W * list Check_ :=
  let p := H_Prerequisites cfg in
  let flavor := FlavorFor cfg sc in
  let s := check "image" (FindImage (ImageName p)) (found (ImageName p)) (w, []) in
  let s := check "flavor" (FindFlavor flavor) (found flavor) s in
  let s := if NeedsLBFlavor sc then check "lb_flavor" (FindLBFlavor (LBFlavorName p)) (found (LBFlavorName p)) s else s in
  let s := check "keypair" (CheckKeypair (KeypairName p)) (λ _, "found " +:+ KeypairName p) s in
  let s := check "secgroup" (FindSecGroup (SecGroupName p)) (found (SecGroupName p)) s in
  let s := check "external_network" (FindExternalNetwork (ExternalNetworkName p)) (found (ExternalNetworkName p)) s in
  let s := if decide (Sc_Placement sc = ∅) then s
           else check "placement" (placementCheck cfg sc) (λ n, FormatUint (Z.of_nat n) +:+ " host(s) validated") s in
  foldl (λ s a, check ("agent:" +:+ AC_Host a) (agentCheck a) (λ _, "reachable; required metrics present") s) s
    (Agents (H_Cluster cfg)).
Definition Preflight (cfg : HarnessConfig) (sc : Scenario) (w : W) : W * PreReport :=
  match SkipReason sc cfg with
  | Some reason => (w, mkPreReport (Sc_Name sc) true (Some reason) [])
  | None =>
      let '(w, cks) := preflightChecks cfg sc w in
      (w, mkPreReport (Sc_Name sc) (forallb Ck_OK cks) None cks)
  end.
End preflight.
