(* ===== verification/StepEnv.v ===== *)
(** * The environment of a scripted run (internal/scenariotest: step.go, exec.go, gate/gate.go)

    What the steps of a scenario share: the run-state, the report, the captures and the
    remembered MACs; the configs of agents that were changed and owe a restore; the
    transports; and the waits.  A deadline is the number of polls that fit before it;
    a pause fails when the run is interrupted. *)
From S2P Require Import Prelude GoStrings GoArgs GoJson Neutron Builder Scenario Cloud Realize Assert.
From Stdlib Require Import SpecFloat.

(** ** Transports *)

(** [VMExec] and its extension [StdinExec], which a transport may lack: an address, a
    command, and how many zero bytes are fed to it. *)
Class VMExec (W : Type) := {
  ExecRun : string → string → Call W string;
  RunWithStdin : option (string → string → Z → Call W string) }.
(** The transport to the agents' hosts, when there is one. *)
Class AgentExec (W : Type) := { AgentRun : option (string → string → Call W string) }.

(** ** State *)

Record Capture := mkCapture {
  Cap_Tuples : gmap Tuple spec_float; Cap_Servers : gmap ServerTuple spec_float; Cap_Epochs : gmap string spec_float;
  Cap_SettledFlows : spec_float; Cap_SettledTuples : spec_float; Cap_Resolved : spec_float;
  Cap_Evictions : spec_float; Cap_Ghosts : spec_float; Cap_Healed : spec_float }.
Definition noCapture : Capture := mkCapture ∅ ∅ ∅ fzero fzero fzero fzero fzero fzero.
Record Env := mkEnv {
  v_rs : RunState; v_report : AssertReport; v_captured : Capture; v_macs : gmap string string; v_dirty : list string }.
Definition withState (f : RunState → RunState) (v : Env) : Env :=
  mkEnv (f (v_rs v)) (v_report v) (v_captured v) (v_macs v) (v_dirty v).
(** [StepEnv.AddRow] *)
Definition AddRow (row : AssertRow) (v : Env) : Env :=
  mkEnv (v_rs v) (addRow row (v_report v)) (v_captured v) (v_macs v) (v_dirty v).
Definition setCaptured (c : Capture) (v : Env) : Env := mkEnv (v_rs v) (v_report v) c (v_macs v) (v_dirty v).
(** [RecordMAC] and [RecordedMAC] *)
Definition RecordMAC (id mac : string) (v : Env) : Env :=
  mkEnv (v_rs v) (v_report v) (v_captured v) (<[id := mac]> (v_macs v)) (v_dirty v).
Definition RecordedMAC (id : string) (v : Env) : string := get (v_macs v) id.
Definition setDirty (f : list string → list string) (v : Env) : Env :=
  mkEnv (v_rs v) (v_report v) (v_captured v) (v_macs v) (f (v_dirty v)).
(** [MarkConfigDirty], [ClearConfigDirty] and [TakeConfigDirty] *)
Definition MarkConfigDirty (node : string) : Env → Env :=
  setDirty (λ l, if decide (node ∈ l) then l else l ++ [node]).
Fixpoint drop_first (x : string) (l : list string) : list string :=
  match l with [] => [] | y :: l => if decide (x = y) then l else y :: drop_first x l end.
Definition ClearConfigDirty (node : string) : Env → Env := setDirty (drop_first node).
Definition TakeConfigDirty (v : Env) : list string * Env := (v_dirty v, setDirty (λ _, []) v).

Definition TenantLabel (tenant : string) (v : Env) : string :=
  match R_Projects (v_rs v) !! tenant with Some ref => PR_ID ref | None => tenant end.

(** Updates of the run-state the steps make. *)
Definition setPorts (ps : list ResourceRef) (rs : RunState) : RunState :=
  setResources (R_Networks rs) (R_Subnets rs) (R_Routers rs) ps (R_Servers rs) (R_FIPs rs) (R_LoadBalancers rs) rs.
Definition setFIPs (fs : list FIPRef) (rs : RunState) : RunState :=
  setResources (R_Networks rs) (R_Subnets rs) (R_Routers rs) (R_Ports rs) (R_Servers rs) fs (R_LoadBalancers rs) rs.
Definition setEvidence (migrations : list MigrationRecord) (bytes : list BytesSample) (servers : list ServerSample)
    (rs : RunState) : RunState :=
  mkRunState (R_RunID rs) (R_Scenario rs) (R_Prefix rs) (R_Projects rs) (R_Networks rs) (R_Subnets rs) (R_Routers rs)
    (R_Ports rs) (R_Servers rs) (R_FIPs rs) (R_LoadBalancers rs) (R_Attach rs) (R_AnomalyBaseline rs) (R_Placement rs)
    migrations bytes servers (R_TornDown rs).
Definition setBaseline (bytes : list BytesSample) (servers : list ServerSample) (rs : RunState) : RunState :=
  setEvidence (R_Migrations rs) bytes servers rs.
Definition addMigration (m : MigrationRecord) (rs : RunState) : RunState :=
  setEvidence (R_Migrations rs ++ [m]) (R_Baseline rs) (R_BaselineServers rs) rs.

(** The (port, agent) pairs the MAC-learn gate still waits for. *)
Inductive lag := LookupFailed (e : string) | Unknown | StaleTenant (tenant : string).
(** Why a config override is refused. *)
Inductive setErr := NotAScalar (dotted value : string) | EmptySegment (dotted : string) | NotASection (dotted : string).
(** What ends a step. *)
Inductive runErr :=
  | Fails (e : string) | During (what : string) (e : runErr) | NotSaved (e : saveErr)
  | TapFailures (n : spec_float) | NotLearned (missing : list (string * string * lag)) | NotReached (value target : spec_float)
  | NodeFails (e : nodeErr) | PlacementFails (e : placeErr) | AssertFails (e : assertErr) | BadSet (e : setErr) | Says (msg : string).

(** ** The monad of the steps *)

Section env.
Context `{GoRange} {W : Type} `{!Cloud W, !MetricsSource W, !StateFile W, !VMExec W, !Clock W}.
Variables (cfg : HarnessConfig) (path : string) (polls : Z → nat).
Definition Act (A : Type) : Type := Prog (W * Env) runErr A.
Local Open Scope go_scope.

Definition ask {A} (c : Call W A) : Act A := λ s,
  match c s.1 with (w, inl e) => ((w, s.2), inl (Fails e)) | (w, inr a) => ((w, s.2), inr a) end.
(** [fmt.Errorf("what: %w", err)] *)
Definition during {A} (what : string) (m : Act A) : Act A := λ s,
  match m s with (s, inl e) => (s, inl (During what e)) | (s, inr a) => (s, inr a) end.
(** A call whose error is kept aside. *)
Definition try_ {A} (c : Call W A) : Act (string + A) := λ s, let '(w, r) := c s.1 in ((w, s.2), inr r).
Definition put (f : Env → Env) : Act () := modify (λ s, (s.1, f s.2)).
Definition see {A} (f : Env → A) : Act A := gets (λ s, f s.2).
Definition saveState : Act () := λ s,
  match Save (v_rs s.2) path s.1 with
  | (w, inl e) => ((w, s.2), inl (NotSaved e))
  | (w, inr _) => ((w, s.2), inr ())
  end.
Definition ofOption {A} (msg : string) (o : option A) : Act A := match o with Some a => ret a | None => fail (Says msg) end.
Definition pause (d : Z) : Act () := ask (Pause d).

(** [StepEnv.Scrape], [TakeCapture], [Project] and [VMMAC] *)
Definition scrape : Act MetricsSnapshot := ask (SampleAcross (Agents (H_Cluster cfg))).
Definition captureOf (snap : MetricsSnapshot) : Capture :=
  mkCapture (SumByTuple (M_Bytes snap)) (SumByServerTuple (M_Servers snap)) (M_CountersResetEpochs snap)
    (M_SettledFlows snap) (M_SettledTuples snap) (M_UnresolvedResolved snap) (M_PressureReliefEvictions snap)
    (M_LingeringGhosts snap) (M_ReattachHealed snap).
Definition TakeCapture : Act () := snap <- scrape ;; put (setCaptured (captureOf snap)).
Definition project (dsl : string) : Act ProjectRef :=
  ref <- see (λ v, R_Projects (v_rs v) !! dsl) ;; ofOption ("run-state has no project " +:+ dsl) ref.
Definition VMMAC (vm : string) : Act string :=
  known <- see (λ v, v_macs v !! vm) ;;
  match known with
  | Some mac => ret mac
  | None =>
      port <- see (λ v, LiveID (R_Ports (v_rs v)) vm) ;;
      if decide (port = "") then fail (Says ("run-state has no port for VM " +:+ vm)) else ask (PortMAC port)
  end.

(** Sample, test, sleep, until there is an answer or the deadline; [late] judges the
    last observation.  The context carries the deadline, so an interrupt is one; in
    [pollFor] the deadline is on the clock, and an interrupt an error. *)
Fixpoint poll {A B} (interval : Z) (n : nat) (body : Act (B + A)) (late : B → Act A) : Act A :=
  r <- body ;;
  match r with
  | inr a => ret a
  | inl b =>
      match n with
      | O => late b
      | S n => p <- try_ (Pause interval) ;; match p with inl _ => late b | inr _ => poll interval n body late end
      end
  end.
Fixpoint pollFor {A B} (interval : Z) (n : nat) (body : Act (B + A)) (late : B → Act A) : Act A :=
  r <- body ;;
  match r with
  | inr a => ret a
  | inl b => match n with O => late b | S n => pause interval ;;; pollFor interval n body late end
  end.
Definition orDefault (timeout standard : Z) : Z := if decide (timeout <= 0) then standard else timeout.

Definition DefaultAttachTimeout : Z := 90 * second.
Definition AttachPollInterval : Z := 2 * second.
Definition DefaultReadyTimeout : Z := 120 * second.
Definition ReadyPollInterval : Z := 5 * second.
(** [AttachRise]: the gauge one above the baseline, and no new failure. *)
Definition attachRound (what : string) (baseline : MetricsSnapshot) (reached : spec_float → bool)
    (record : MetricsSnapshot → AttachRecord) : Act (MetricsSnapshot + ()) :=
  snap <- during what scrape ;;
  if fgt (M_AttachFailures snap) (M_AttachFailures baseline) then
    fail (TapFailures (fsub (M_AttachFailures snap) (M_AttachFailures baseline)))
  else if reached (M_AttachedInterfaces snap) then
    put (withState (setAttach (record snap))) ;;; saveState ;;; ret (inr ())
  else ret (inl snap).
Definition fone : spec_float := f64 1.
Definition AttachRise (baseline : MetricsSnapshot) : Act () :=
  let target := fadd (M_AttachedInterfaces baseline) fone in
  poll AttachPollInterval (polls DefaultAttachTimeout)
    (attachRound "attach gate scrape" baseline (λ x, fge x target) (λ snap, mkAttach target (M_AttachFailures snap)))
    (λ snap, fail (NotReached (M_AttachedInterfaces snap) target)).
(** [SSHReady] *)
Definition sshRound (addr : string) : Act (string + ()) :=
  r <- try_ (ExecRun addr "true") ;; ret (match r with inr _ => inr () | inl e => inl e end).
Definition SSHReady (vm addr : string) (timeout : Z) : Act () :=
  poll ReadyPollInterval (polls timeout) (sshRound addr)
    (λ _, fail (Says ("vm " +:+ vm +:+ " (" +:+ addr +:+ ") not ssh-ready before deadline"))).
End env.
