(* ===== verification/Drive.v ===== *)
(** * Pushing the traffic (internal/scenariotest/drive/drive.go)

    The gates before the traffic (taps still attached, every MAC known to every agent
    under its project), the baseline, and the flows: the commands run on which machine,
    in order. *)
From S2P Require Import Prelude GoStrings GoArgs GoJson Neutron Builder Scenario Cloud Realize Assert StepEnv.
From Stdlib Require Import SpecFloat.

Definition flowBasePort : Z := 15000.
Definition pingPayloadBytes : Z := 60000.
Definition DefaultMACLearnTimeout : Z := 8 * 60 * second.
Definition macLearnPollInterval : Z := 3 * second.
Definition defaultSinkDelay : Z := 2 * second.

(** int64 arithmetic: [/] truncates. *)
Definition mibCount (bytes : Z) : Z :=
  let c := Z.quot (i64 (i64 (bytes + 2 ^ 20) - 1)) (2 ^ 20) in if decide (c < 1) then 1 else c.
(** "%d" *)
Definition dec (z : Z) : string := if decide (z < 0) then "-" +:+ FormatUint (- z) else FormatUint z.

(** [drive.Options]: the flows, and what a step may skip. *)
Record DriveOptions := mkDrive {
  DO_Flows : list Flow; DO_KeepBaseline : bool; DO_SkipMACLearn : bool; DO_SkipAttachRecheck : bool }.

Definition internalIP (b : Builder) (vm : string) : option string :=
  p ← snd <$> list_find (λ p, Port_ID p = vm ∧ Port_FixedIPs p ≠ []) (Ports (Build b)); Fip_IPAddress <$> head (Port_FixedIPs p).
Definition vmByInternalIP (b : Builder) (ip : string) : option string :=
  (λ p, TrimSuffix (Port_DeviceID p.2) "-instance") <$>
    list_find (λ p, HasPrefix (Port_DeviceOwner p) "compute:" = true ∧ Exists (λ f, Fip_IPAddress f = ip) (Port_FixedIPs p))
      (Ports (Build b)).
Definition lbDecl (b : Builder) (lb : string) : option LBDecl :=
  snd <$> list_find (λ d, LBD_ID d = lb) (Builder.LoadBalancers b).

Section drive.
Context `{GoRange} {W : Type} `{!Cloud W, !MetricsSource W, !StateFile W, !VMExec W, !Clock W}.
(** [sinkDelay] and [learnTimeout] are the environment's overrides. *)
Variables (cfg : HarnessConfig) (sc : Scenario) (path : string) (polls : Z → nat) (sinkDelay learnTimeout : Z).
Local Open Scope go_scope.
Notation Act := (@Act W).

(** Code that reads the topology panics without one. *)
Definition topology : Act Builder := ofOption "nil Builder" (Sc_Builder sc).
Definition recheckAttach : Act () :=
  snap <- during "attach recheck scrape" (scrape cfg) ;;
  rec <- see (R_Attach ∘ v_rs) ;;
  if SFeqb (AT_Target rec) fzero then ret ()
  else if SFltb (M_AttachedInterfaces snap) (AT_Target rec) then fail (NotReached (M_AttachedInterfaces snap) (AT_Target rec))
  else if fgt (M_AttachFailures snap) (AT_Failures rec) then fail (TapFailures (fsub (M_AttachFailures snap) (AT_Failures rec)))
  else ret ().

Definition lagOf (p : ResourceRef) (r : string + MACLookup) : option lag :=
  match r with
  | inl e => Some (LookupFailed e)
  | inr lk =>
      if negb (ML_Found lk) then Some Unknown
      else if decide (ML_TenantID lk ≠ "" ∧ Ref_ProjectID p ≠ "" ∧ ML_TenantID lk ≠ Ref_ProjectID p)
      then Some (StaleTenant (ML_TenantID lk)) else None
  end.
Definition lookups (want : list ResourceRef) (urls : list string) : list (ResourceRef * string) :=
  p ← want; u ← urls; [(p, u)].
Fixpoint unresolvedFrom (l : list (ResourceRef * string)) (missing : list (string * string * lag))
    : Act (list (string * string * lag)) :=
  match l with
  | [] => ret missing
  | (p, u) :: l =>
      r <- try_ (LookupMAC u (Ref_MAC p)) ;;
      unresolvedFrom l (missing ++ match lagOf p r with Some why => [(Ref_DSLID p, u, why)] | None => [] end)
  end.
Definition unresolvedMACs (urls : list string) (want : list ResourceRef) : Act (list (string * string * lag)) :=
  unresolvedFrom (lookups want urls) [].
Definition wantedMACs (rs : RunState) : list ResourceRef :=
  List.filter (λ p, negb (bool_decide (Ref_MAC p = "")) && negb (Ref_RouterInterface p)) (R_Ports rs).
Definition waitMACsLearned : Act () :=
  want <- see (wantedMACs ∘ v_rs) ;;
  if decide (want = []) then ret ()
  else
    let timeout := orDefault learnTimeout DefaultMACLearnTimeout in
    let interval := if decide (Z.quot timeout 10 < macLearnPollInterval) then Z.quot timeout 10 else macLearnPollInterval in
    pollFor interval (polls timeout)
      (missing <- unresolvedMACs (AgentURLs cfg) want ;; ret (match missing with [] => inr () | _ => inl missing end))
      (λ missing, fail (NotLearned missing)).

Definition captureBaseline : Act () :=
  snap <- during "baseline scrape" (scrape cfg) ;;
  put (withState (setBaseline (M_Bytes snap) (M_Servers snap))) ;;;
  saveState path.

Definition fipOf (vm : string) : Act string :=
  l <- see (R_FIPs ∘ v_rs) ;;
  ofOption ("run-state has no FIP for VM " +:+ vm) (FR_Address ∘ snd <$> list_find (λ f, FR_VMID f = vm) l).
(** [waitReady]; [ready] are the machines seen to answer. *)
Definition waitReady (ready : gset string) (vm addr : string) : Act (gset string) :=
  if decide (vm ∈ ready) then ret ready else SSHReady polls vm addr DefaultReadyTimeout ;;; ret ({[vm]} ∪ ready).
Definition sleepSinkDelay : Act () :=
  let delay := if decide (sinkDelay = 0) then defaultSinkDelay else sinkDelay in
  if decide (0 < delay) then try_ (Pause delay) ;;; ret () else ret ().
Definition exec_ (what addr cmd : string) : Act () := during what (ask (ExecRun addr cmd)) ;;; ret ().
Definition sinkCmd (port : Z) : string := "nohup sh -c 'nc -l -p " +:+ dec port +:+ " > /dev/null' >/dev/null 2>&1 &".
Definition loopSinkCmd (port : Z) : string :=
  "nohup sh -c 'while true; do nc -l -p " +:+ dec port +:+ " > /dev/null; done' >/dev/null 2>&1 &".
Definition streamCmd (bytes : Z) (addr : string) (port : Z) : string :=
  "dd if=/dev/zero bs=1M count=" +:+ dec (mibCount bytes) +:+ " 2>/dev/null | nc " +:+ addr +:+ " " +:+ dec port.
Definition pingCmd (bytes : Z) (addr : string) : string :=
  "ping -c " +:+ dec (Z.quot (i64 (i64 (bytes + pingPayloadBytes) - 1)) pingPayloadBytes) +:+ " -s "
  +:+ dec pingPayloadBytes +:+ " " +:+ addr +:+ " >/dev/null 2>&1 || [ $? -eq 1 ]".

Definition runVMFlow (i : nat) (f : Flow) (srcFIP : string) (ready : gset string) : Act (gset string) :=
  let dst := if decide (T_VMID (Flow_To f) = "") then T_FIPOf (Flow_To f) else T_VMID (Flow_To f) in
  dstFIP <- fipOf dst ;;
  dstAddr <- (if decide (T_VMID (Flow_To f) = "") then ret dstFIP
              else b <- topology ;;
                ofOption ("scenario declares no fixed IP for VM " +:+ T_VMID (Flow_To f)) (internalIP b (T_VMID (Flow_To f)))) ;;
  ready <- waitReady ready dst dstFIP ;;
  let port := flowBasePort + Z.of_nat i in
  exec_ "start sink" dstFIP (sinkCmd port) ;;;
  sleepSinkDelay ;;;
  exec_ "stream" srcFIP (streamCmd (Flow_Bytes f) dstAddr port) ;;;
  ret ready.

(** [driver.vip] *)
Definition vipOf (lb : string) (external : bool) (rs : RunState) : option string :=
  r ← snd <$> list_find (λ r, Ref_DSLID r = lb) (R_LoadBalancers rs);
  let addr := if external : bool then Ref_FIP r else Ref_VIP r in
  if decide (addr = "") then None else Some addr.
Definition memberSink (lb : string) (m : LBMemberDecl) (ready : gset string) : Act (gset string) :=
  b <- topology ;;
  vm <- ofOption ("load balancer " +:+ lb +:+ ": member matches no declared VM") (vmByInternalIP b (LBM_Address m)) ;;
  fip <- fipOf vm ;;
  ready <- waitReady ready vm fip ;;
  exec_ ("start sink on member " +:+ vm) fip (loopSinkCmd (LBM_Port m)) ;;;
  ret ready.
Fixpoint memberSinks (lb : string) (l : list LBMemberDecl) (ready : gset string) : Act (gset string) :=
  match l with [] => ret ready | m :: l => ready <- memberSink lb m ready ;; memberSinks lb l ready end.
Definition runLBFlow (f : Flow) (srcFIP : string) (ready : gset string) : Act (gset string) :=
  let external := bool_decide (T_LBID (Flow_To f) = "") in
  let lb := if external then T_LBFIPOf (Flow_To f) else T_LBID (Flow_To f) in
  b <- topology ;;
  d <- ofOption ("flow targets load balancer " +:+ lb +:+ ", which the topology does not declare") (lbDecl b lb) ;;
  vip <- see (vipOf lb external ∘ v_rs) ;;
  vip <- ofOption ("load balancer " +:+ lb +:+ " has no address in the run-state") vip ;;
  ready <- memberSinks lb (LBD_Members d) ready ;;
  sleepSinkDelay ;;;
  exec_ "stream to vip" srcFIP (streamCmd (Flow_Bytes f) vip (LBD_Port d)) ;;;
  ret ready.
Definition runExternalFlow (f : Flow) (srcFIP : string) (ready : gset string) : Act (gset string) :=
  exec_ "ping push" srcFIP (pingCmd (Flow_Bytes f) (T_IP (Flow_To f))) ;;; ret ready.

Definition runFlow (i : nat) (f : Flow) (ready : gset string) : Act (gset string) :=
  match Flow_Proto f with
  | UDP => fail (Says "only TCP flows are supported (UDP driving is a later slice)")
  | TCP =>
      srcFIP <- fipOf (Flow_From f) ;;
      ready <- waitReady ready (Flow_From f) srcFIP ;;
      if decide (T_LBID (Flow_To f) ≠ "" ∨ T_LBFIPOf (Flow_To f) ≠ "") then runLBFlow f srcFIP ready
      else if decide (T_VMID (Flow_To f) ≠ "" ∨ T_FIPOf (Flow_To f) ≠ "") then runVMFlow i f srcFIP ready
      else runExternalFlow f srcFIP ready
  end.
Fixpoint runFlows (i : nat) (l : list Flow) (ready : gset string) : Act () :=
  match l with
  | [] => ret ()
  | f :: l => ready <- during ("flow " +:+ dec (Z.of_nat i)) (runFlow i f ready) ;; runFlows (S i) l ready
  end.
Definition DriveRun (o : DriveOptions) : Act () :=
  (if DO_SkipAttachRecheck o then ret () else recheckAttach) ;;;
  (if DO_SkipMACLearn o then ret () else waitMACsLearned) ;;;
  (if DO_KeepBaseline o then ret () else captureBaseline) ;;;
  runFlows 0 (DO_Flows o) ∅.
End drive.
