(* ===== verification/AgentCtl.v ===== *)
(** * Driving the agent on a host (internal/scenariotest/agentctl: agentctl.go, config.go)

    The controller of one agent: the commands it runs on the host, in order, and what
    is checked before each; the edit of the on-host config; and the wait for a restart.
    YAML is a parameter ([Yaml]); base64 is encoding/base64's. *)
From S2P Require Import Prelude GoStrings GoArgs GoJson Neutron Builder Scenario Cloud Realize Assert StepEnv.
From Stdlib Require Import Ascii SpecFloat.

(** ** The config document (config.go) *)

(** What a YAML value decodes to: nothing, a section, or a value kept as it is. *)
Inductive node := Null | Value (v : string) | Section_ (m : gmap string node).
Definition doc : Type := gmap string node.
(** gopkg.in/yaml.v3: a document into a map (nothing for an empty text), a value, and
    a map's text. *)
Class Yaml := { yamlDoc : string → option doc; yamlScalar : string → option node; yamlText : doc → option string }.

(** The walk of [setDotted], by the segments that are left. *)
Fixpoint setAt (dotted : string) (parts : list string) (scalar : node) (d : doc) : setErr + doc :=
  match parts with
  | [] => inr d
  | p :: rest =>
      if decide (p = "") then inl (EmptySegment dotted)
      else match rest with
      | [] => inr (<[p := scalar]> d)
      | _ :: _ =>
          let into (m : doc) := match setAt dotted rest scalar m with
            | inl e => inl e | inr m => inr (<[p := Section_ m]> d) end in
          match d !! p with
          | Some (Section_ m) => into m
          | Some (Value _) => inl (NotASection dotted)
          | Some Null | None => into ∅
          end
      end
  end.
Definition setDotted `{Yaml} (d : doc) (dotted value : string) : setErr + doc :=
  match yamlScalar value with
  | None => inl (NotAScalar dotted value)
  | Some scalar => setAt dotted (split_on "." dotted) scalar d
  end.
(** The keys of [set], sorted. *)
Fixpoint setAll `{Yaml} (d : doc) (set : gmap string string) (keys : list string) : setErr + doc :=
  match keys with
  | [] => inr d
  | k :: keys => match setDotted d k (get set k) with inl e => inl e | inr d => setAll d set keys end
  end.

(** ** base64.StdEncoding *)

Definition b64Char (n : N) : ascii :=
  ascii_of_N (if decide (n < 26) then 65 + n else if decide (n < 52) then 71 + n
    else if decide (n < 62) then n - 4 else if decide (n = 62) then 43 else 47)%N.
Definition b64Block (a b c : N) : list ascii :=
  [b64Char (a / 4); b64Char ((a mod 4) * 16 + b / 16); b64Char ((b mod 16) * 4 + c / 64); b64Char (c mod 64)]%N.
Fixpoint b64Bytes (l : list N) : list ascii :=
  match l with
  | [] => []
  | [a] => take 2 (b64Block a 0 0) ++ ["="%char; "="%char]
  | [a; b] => take 3 (b64Block a b 0) ++ ["="%char]
  | a :: b :: c :: l => b64Block a b c ++ b64Bytes l
  end.
Definition EncodeToString (s : string) : string :=
  String.string_of_list_ascii (b64Bytes (N_of_ascii <$> String.list_ascii_of_string s)).

(** ** The controller (agentctl.go) *)

Definition defaultUnit : string := "lachesis-agent".
Definition readyPollInterval : Z := 2 * second.
Definition DefaultAgentReadyTimeout : Z := 90 * second.
Record Controller := mkController { ct_Agent : AgentConfig; ct_Host : string; ct_Unit : string; ct_control : AgentControlConfig }.
Record Change := mkChange { Ch_Set : gmap string string; Ch_Restore : bool; Ch_Backup : bool }.
Definition none (ch : Change) : bool := bool_decide (Ch_Set ch = ∅) && negb (Ch_Restore ch).
(** [None] is no error. *)
Definition validate (ch : Change) (ac : AgentControlConfig) : option runErr :=
  if none ch then None
  else if negb (bool_decide (Ch_Set ch = ∅)) && Ch_Restore ch
  then Some (Says "SetConfig and RestoreConfig are mutually exclusive")
  else if decide (Ctl_ConfigPath ac = "") then Some (Says "config changes need agent_control.config_path")
  else if ShellSafe (Ctl_ConfigPath ac) then None else Some (Says "agent_control.config_path").
Record Cycle := mkCycle { RemoveWAL : bool; RemovePins : bool }.
Definition removeStateCmd (ac : AgentControlConfig) (cy : Cycle) : runErr + string :=
  if negb (RemoveWAL cy) then inl (Says "RemovePins without RemoveWAL is not a modeled failure shape")
  else if decide (Ctl_WALPath ac = "") then inl (Says "RemoveWAL set but agent_control.wal_path is empty")
  else if negb (ShellSafe (Ctl_WALPath ac)) then inl (Says "agent_control.wal_path")
  else
    let cmd := "sudo rm -f " +:+ Ctl_WALPath ac +:+ " " +:+ Ctl_WALPath ac +:+ ".bak" in
    if negb (RemovePins cy) then inr cmd
    else if decide (Ctl_PinPath ac = "") then inl (Says "RemovePins set but agent_control.pin_path is empty")
    else if negb (ShellSafe (Ctl_PinPath ac)) then inl (Says "agent_control.pin_path")
    else inr (cmd +:+ " && sudo rm -rf " +:+ Ctl_PinPath ac).
Definition cold (cy : Cycle) : bool := RemoveWAL cy || RemovePins cy.

Section agentctl.
Context `{GoRange} `{Yaml} {W : Type} `{!Cloud W, !MetricsSource W, !StateFile W, !VMExec W, !AgentExec W, !Clock W}.
Variables (cfg : HarnessConfig) (polls : Z → nat).
Local Open Scope go_scope.
Notation Act := (@Act W).

(** [For]: nothing is run. *)
Definition For (node : string) : runErr + Controller :=
  let ac := H_AgentControl cfg in
  match AgentRun (W := W) with
  | None => inl (Says "no agent-host SSH transport — set agent_control in the config")
  | Some _ =>
      if decide (Ctl_KeyPath ac = "" ∨ Ctl_User ac = "")
      then inl (Says "agent_control.user and agent_control.key_path are required")
      else match AgentForNode cfg node with
      | inl e => inl (NodeFails e)
      | inr agent =>
          let unit_ := if decide (Ctl_Unit ac = "") then defaultUnit else Ctl_Unit ac in
          if ShellSafe unit_ then inr (mkController agent (SSHAddr agent) unit_ ac) else inl (Says "agent_control.unit")
      end
  end.
(** [c.exec.Run]; a controller is only had with a transport. *)
Definition agentRun (host cmd : string) : Call W string :=
  match AgentRun with Some run => run host cmd | None => λ w, (w, inl "no transport") end.
Definition sum_ {A} (r : runErr + A) : Act A := match r with inl e => fail e | inr a => ret a end.

Definition Baseline (c : Controller) : Act ScrapeResult := during "baseline scrape" (ask (Scrape (AC_MetricsURL (ct_Agent c)))).
Definition MainPID (c : Controller) : Act string :=
  out <- ask (agentRun (ct_Host c) ("systemctl show -p MainPID " +:+ ct_Unit c)) ;;
  ret (TrimSpace (TrimPrefix (TrimSpace out) "MainPID=")).
(** A PID read for evidence only: "" when it could not be had. *)
Definition pidOrEmpty (c : Controller) : Act string := λ s,
  match MainPID c s with (s, inl _) => (s, inr "") | (s, inr pid) => (s, inr pid) end.

Definition applySet (host path : string) (set : gmap string string) (backup : bool) : Act () :=
  raw <- during "read agent config" (ask (agentRun host ("sudo cat " +:+ path))) ;;
  d <- ofOption "parse agent config" (yamlDoc raw) ;;
  d <- (match setAll d set (sort_strings (go_range set).*1) with inl e => fail (BadSet e) | inr d => ret d end) ;;
  out <- ofOption "re-marshal agent config" (yamlText d) ;;
  let cmd := "printf %s " +:+ EncodeToString out +:+ " | base64 -d | sudo tee " +:+ path +:+ " >/dev/null" in
  let cmd := if backup then "sudo cp -f " +:+ path +:+ " " +:+ path +:+ ".scenariotest.bak && " +:+ cmd else cmd in
  during "write agent config" (ask (agentRun host cmd)) ;;; ret ().
(** Whether the node now owes a restore, and whether it has settled one. *)
Definition ApplyConfig (c : Controller) (ch : Change) : Act (bool * bool) :=
  match validate ch (ct_control c) with
  | Some e => fail e
  | None =>
      let path := Ctl_ConfigPath (ct_control c) in
      if none ch then ret (false, false)
      else if Ch_Restore ch then
        during "restore config" (ask (agentRun (ct_Host c) ("sudo cp -f " +:+ path +:+ ".scenariotest.bak " +:+ path))) ;;;
        ret (false, true)
      else applySet (ct_Host c) path (Ch_Set ch) (Ch_Backup ch) ;;; ret (true, false)
  end.

Definition Restart (c : Controller) (cy : Cycle) : Act string :=
  cmd <- (if cold cy then
      rm <- sum_ (removeStateCmd (ct_control c) cy) ;;
      ret ("sudo systemctl stop " +:+ ct_Unit c +:+ " && " +:+ rm +:+ " && sudo systemctl start " +:+ ct_Unit c)
    else ret ("sudo systemctl restart " +:+ ct_Unit c)) ;;
  oldPID <- pidOrEmpty c ;;
  during "cycle" (ask (agentRun (ct_Host c) cmd)) ;;; ret oldPID.
Definition Stop (c : Controller) : Act string :=
  oldPID <- pidOrEmpty c ;;
  during "stop" (ask (agentRun (ct_Host c) ("sudo systemctl stop " +:+ ct_Unit c))) ;;; ret oldPID.
Definition Start (c : Controller) (cy : Cycle) : Act () :=
  cmd <- (if cold cy then
      rm <- sum_ (removeStateCmd (ct_control c) cy) ;; ret (rm +:+ " && sudo systemctl start " +:+ ct_Unit c)
    else ret ("sudo systemctl start " +:+ ct_Unit c)) ;;
  during "start" (ask (agentRun (ct_Host c) cmd)) ;;; ret ().
Definition Reload (c : Controller) : Act () :=
  during "SIGHUP" (ask (agentRun (ct_Host c) ("sudo systemctl kill -s HUP " +:+ ct_Unit c))) ;;; ret ().
Definition StripTC (c : Controller) (iface : string) : Act () :=
  if ShellSafe iface then
    during "strip TC" (ask (agentRun (ct_Host c) ("sudo tc qdisc del dev " +:+ iface +:+ " clsact"))) ;;; ret ()
  else fail (Says "interface").

(** [AwaitReady]: [restarted] is what the loop remembers. *)
Definition newPID (oldPID pid : string) : bool := bool_decide (pid ≠ "" ∧ pid ≠ "0" ∧ pid ≠ oldPID).
Definition serving (baseTaps : spec_float) (res : ScrapeResult) : bool :=
  match CheckRequiredMetrics res with None => fge (Sp_AttachedInterfaces res) baseTaps | Some _ => false end.
Definition readyRound (c : Controller) (oldPID : string) (baseTaps : spec_float) (restarted : bool) : Act (bool + ()) :=
  restarted <- (if restarted then ret true else pid <- pidOrEmpty c ;; ret (newPID oldPID pid)) ;;
  if restarted : bool then
    r <- try_ (Scrape (AC_MetricsURL (ct_Agent c))) ;;
    ret (match r with inr res => if serving baseTaps res then inr () else inl true | inl _ => inl true end)
  else ret (inl false).
Fixpoint awaitReady (c : Controller) (oldPID : string) (baseTaps : spec_float) (n : nat) (restarted : bool) : Act () :=
  r <- readyRound c oldPID baseTaps restarted ;;
  match r with
  | inr _ => ret ()
  | inl restarted =>
      let late := fail (Says (if restarted : bool then "not ready" else "restart not confirmed")) in
      match n with
      | O => late
      | S n =>
          p <- try_ (Pause readyPollInterval) ;;
          match p with inl _ => late | inr _ => awaitReady c oldPID baseTaps n restarted end
      end
  end.
Definition AwaitReady (c : Controller) (oldPID : string) (baseTaps : spec_float) (timeout : Z) : Act () :=
  let timeout := orDefault (orDefault timeout (Ctl_ReadyTimeout (ct_control c))) DefaultAgentReadyTimeout in
  awaitReady c oldPID baseTaps (polls timeout) false.
End agentctl.
