(* ===== verification/StepActs.v ===== *)
(** * The steps that act (internal/scenariotest/steps: traffic.go, lifecycle.go, network.go, port.go)

    What the steps of a scenario do to the run's machines, networks and ports, each a
    program over the environment of StepEnv.v: its lookups in the run-state, its calls
    in order, and what it records and saves. *)
From S2P Require Import Prelude GoStrings GoArgs GoJson NetIP Neutron Builder Scenario Cloud Realize Assert StepEnv Drive.
From Stdlib Require Import Ascii SpecFloat.

Record AttachPort := mkAttachPort {
  At_VM : string; At_ID : string; At_Network : string; At_Subnet : string; At_IP : string; At_MACFrom : string;
  At_PortSecurityOff : bool; At_AllowedPairs : list AddressPair }.

Definition DefaultSweepTimeout : Z := 8 * 60 * second.
Definition DefaultMigrateTimeout : Z := 5 * 60 * second.
Definition migratePollInterval : Z := 3 * second.
Definition sweepPollInterval : Z := 5 * second.

(** The last floating IP of the VM on the provider network. *)
Definition sshFIP (vm : string) (rs : RunState) : string :=
  foldl (λ fip f, if decide (FR_VMID f = vm ∧ FR_Network f = "") then FR_Address f else fip) "" (R_FIPs rs).
Definition routerRef (dsl : string) (rs : RunState) : option ResourceRef :=
  snd <$> list_find (λ r, Ref_DSLID r = dsl) (R_Routers rs).
Definition portRef (dsl : string) (rs : RunState) : option ResourceRef :=
  snd <$> list_find (λ r, Ref_DSLID r = dsl) (R_Ports rs).
(** The declared port of a VM, with its first fixed IP. *)
Definition declaredVM (vm : string) (snap : Snapshot) : option (Port * FixedIP) :=
  p ← snd <$> list_find (λ p, Port_ID p = vm ∧ Port_FixedIPs p ≠ []) (Ports snap);
  (λ f, (p, f)) <$> head (Port_FixedIPs p).
Definition isExternal (id : string) (snap : Snapshot) : bool :=
  bool_decide (Exists (λ n, Net_ID n = id ∧ Net_IsExternal n = true) (Networks snap)).
(** [net.IP(mask).String()] of a prefix length. *)
Definition netmask (bits : Z) : string := Addr_String (2 ^ 32 - 2 ^ (32 - bits)).
(** [strings.Fields] *)
Definition blanks (s : string) : string :=
  String.string_of_list_ascii ((λ a, if is_space a then " "%char else a) <$> String.list_ascii_of_string s).
Definition Fields (s : string) : list string := List.filter (λ f, negb (bool_decide (f = ""))) (split_on " " (blanks s)).

Section acts.
Context `{GoRange} {W : Type} `{!Cloud W, !MetricsSource W, !StateFile W, !ReportFile W, !VMExec W, !Clock W}.
Variables (cfg : HarnessConfig) (sc : Scenario) (path reportPath : string) (polls : Z → nat) (sinkDelay learnTimeout : Z).
Local Open Scope go_scope.
Notation Act := (@Act W).

Definition snapshot : Act Snapshot := b <- topology sc ;; ret (Build b).
Definition stateOf {A} (f : RunState → A) : Act A := see (f ∘ v_rs).
Definition note (f : RunState → RunState) : Act () := put (withState f) ;;; saveState path.

(** ** Traffic *)

Definition driveStep (o : DriveOptions) : Act () := DriveRun cfg sc path polls sinkDelay learnTimeout o.
Definition sshOf (vm : string) : Act string :=
  fip <- stateOf (sshFIP vm) ;;
  if decide (fip = "") then fail (Says ("run-state has no SSH FIP for VM " +:+ vm)) else ret fip.
Definition ingressFlow (vm : string) (bytes : Z) : Act () :=
  match RunWithStdin with
  | None => fail (Says "ingress-flow: the exec transport cannot stream stdin")
  | Some stream =>
      driveStep (mkDrive [] false false false) ;;;
      fip <- sshOf vm ;;
      during "ingress-flow" (SSHReady polls vm fip DefaultReadyTimeout) ;;;
      during "ingress-flow" (ask (stream fip "cat > /dev/null" bytes)) ;;; ret ()
  end.
Definition withExpect (l : list Expect) : Scenario :=
  mkScenario (Sc_Name sc) (Sc_Builder sc) (Sc_Flavor sc) (Sc_Placement sc) (Sc_Projects sc) (Sc_FIPs sc) (Sc_Flows sc) l
    (Sc_CreateExternalNets sc) (Sc_Deferred sc) (Sc_Steps sc).
Definition noted (n : string) (row : AssertRow) : AssertRow :=
  if decide (AR_Note row = "") then
    mkRow (AR_Tenant row) (AR_TenantID row) (AR_Zone row) (AR_ExternalNetwork row) (AR_VM row) (AR_ServerID row)
      (AR_Node row) (AR_Direction row) (AR_Baseline row) (AR_Current row) (AR_Delta row) (AR_MinBytes row) (AR_Pass row) n
  else row.
Definition addRows (rows : list AssertRow) : Act () := put (λ v, foldl (λ v row, AddRow row v) v rows).
Definition assertStep (l : list Expect) (n : string) : Act () := λ s,
  match AssertRun polls (withExpect l) cfg (v_rs s.2) reportPath 0 s.1 with
  | (w, inl e) => ((w, s.2), inl (AssertFails e))
  | (w, inr rep) => addRows (noted n <$> RP_Rows rep) (w, s.2)
  end.

(** ** The life of servers *)

Definition deleteServer (srv : ResourceRef) : Act () :=
  ask (DeleteServer (Ref_ProjectID srv) (Ref_ID srv)) ;;; ask (WaitServerGone (Ref_ProjectID srv) (Ref_ID srv)).
Definition isOf (vm : string) (r : ResourceRef) : bool := bool_decide (Ref_DSLID r = vm).
Definition dropPorts (vm : string) (rs : RunState) : RunState :=
  setPorts (List.filter (negb ∘ isOf vm) (R_Ports rs)) rs.
Definition deleteVM (vm : string) : Act () :=
  mac <- VMMAC vm ;;
  put (RecordMAC vm mac) ;;;
  fips <- stateOf R_FIPs ;;
  forEach fips (λ f, if decide (FR_VMID f = vm) then ask (DeleteFIP (FR_ProjectID f) (FR_ID f)) else ret ()) ;;;
  servers <- stateOf R_Servers ;;
  forEach servers (λ srv, if isOf vm srv then deleteServer srv else ret ()) ;;;
  ports <- stateOf R_Ports ;;
  forEach ports (λ p, if isOf vm p then ask (DeletePort (Ref_ProjectID p) (Ref_ID p)) else ret ()) ;;;
  note (dropPorts vm).

Definition resolvePlacementNow : Act Placement :=
  p <- stateOf R_Placement ;;
  if decide (p = ∅) then
    match ResolvePlacement (Sc_Placement sc) (Agents (H_Cluster cfg)) with
    | inl e => fail (PlacementFails e)
    | inr p => ret p
    end
  else ret p.
Definition liveIDs_of (network subnet : string) : Act (string * string) :=
  net <- stateOf (λ rs, LiveID (R_Networks rs) network) ;;
  sub <- stateOf (λ rs, LiveID (R_Subnets rs) subnet) ;;
  if decide (net = "" ∨ sub = "") then fail (Says ("run-state has no live ids for " +:+ network +:+ "/" +:+ subnet))
  else ret (net, sub).
Definition mangle (dsl : string) : Act string := stateOf (λ rs, Mangle (H_Prefix cfg) (R_RunID rs) dsl).
Definition bootVM (vm macFrom : string) : Act () :=
  snap <- snapshot ;;
  pf <- ofOption ("scenario declares no VM " +:+ vm) (declaredVM vm snap) ;;
  (if decide (Port_ProjectID pf.1 = "") then fail (Says ("scenario declares no VM " +:+ vm)) else ret ()) ;;;
  proj <- project (Port_ProjectID pf.1) ;;
  ids <- liveIDs_of (Port_NetworkID pf.1) (Fip_SubnetID pf.2) ;;
  mac <- (if decide (macFrom = "") then ret "" else VMMAC macFrom) ;;
  let p := H_Prerequisites cfg in
  flavor <- ask (FindFlavor (FlavorFor cfg sc)) ;;
  image <- ask (FindImage (ImageName p)) ;;
  secGroup <- ask (FindSecGroup (SecGroupName p)) ;;
  ext <- ask (FindExternalNetwork (ExternalNetworkName p)) ;;
  baseline <- during "attach baseline scrape" (scrape cfg) ;;
  name <- mangle vm ;;
  port <- ask (CreatePort (PR_ID proj) (mkPortSpec name ids.1 ids.2 (Fip_IPAddress pf.2) secGroup mac false [])) ;;
  portMAC <- (if decide (mac = "") then ask (PortMAC port) else ret mac) ;;
  note (addPortRef (mkRef vm port name (PR_ID proj) portMAC "" "" false)) ;;;
  placed <- resolvePlacementNow ;;
  server <- ask (CreateServer (PR_ID proj) (mkServerSpec name flavor image port [] (KeypairName p) (PlacementAZ placed vm))) ;;
  note (addServerRef (mkRef vm server name (PR_ID proj) "" "" "" false)) ;;;
  ask (WaitServerActive (PR_ID proj) server) ;;;
  fip <- ask (CreateFIP (PR_ID proj) (mkFIPCreateSpec ext port (Fip_IPAddress pf.2) "")) ;;
  note (addFIPRef (mkFIPRef vm fip.1 fip.2 (PR_ID proj) "")) ;;;
  AttachRise cfg path polls baseline.

Definition serverRefOf (vm : string) (rs : RunState) : option ResourceRef :=
  snd <$> list_find (λ r, Ref_DSLID r = vm) (R_Servers rs).
(** A failure counter that grew is an error, or the new baseline. *)
Definition rebase (strict : bool) (snap : MetricsSnapshot) : Act () :=
  old <- stateOf R_Attach ;;
  if strict : bool then
    if fgt (M_AttachFailures snap) (AT_Failures old)
    then fail (TapFailures (fsub (M_AttachFailures snap) (AT_Failures old))) else ret ()
  else put (withState (setAttach (mkAttach (AT_Target old) (M_AttachFailures snap)))).
Definition landed (vm from target : string) (strict : bool) (ref : ResourceRef) : Act (string + ()) :=
  host <- during "migrate" (ask (ServerHost (Ref_ProjectID ref) (Ref_ID ref))) ;;
  if decide (host ≠ from ∧ (target = "" ∨ host = target)) then
    during "migrate" (ask (WaitServerActive (Ref_ProjectID ref) (Ref_ID ref))) ;;;
    put (withState (addMigration (mkMigration vm from host))) ;;;
    snap <- during "migrate: attach re-baseline scrape" (scrape cfg) ;;
    rebase strict snap ;;; saveState path ;;; ret (inr ())
  else ret (inl host).
Definition migrate (vm target : string) (strict : bool) (timeout : Z) : Act () :=
  ref <- stateOf (serverRefOf vm) ;;
  ref <- ofOption ("migrate: run-state has no server for VM " +:+ vm) ref ;;
  (if decide (Ref_ID ref = "") then fail (Says ("migrate: run-state has no server for VM " +:+ vm)) else ret ()) ;;;
  target <- (if decide (target = "") then ret "" else
    match ResolveNode target (Agents (H_Cluster cfg)) with inl e => fail (NodeFails e) | inr host => ret host end) ;;
  from <- during "migrate" (ask (ServerHost (Ref_ProjectID ref) (Ref_ID ref))) ;;
  if decide (target ≠ "" ∧ target = from) then fail (Says ("migrate: VM already on " +:+ from))
  else
    during "migrate" (ask (LiveMigrateServer (Ref_ProjectID ref) (Ref_ID ref) target)) ;;;
    pollFor migratePollInterval (polls (orDefault timeout DefaultMigrateTimeout)) (landed vm from target strict ref)
      (λ host, fail (Says ("migrate: VM " +:+ vm +:+ " still on " +:+ host))).
Definition sleep (d : Z) : Act () := pause d.

(** ** Networks *)

Definition liveNetwork (network : string) (snap : Snapshot) : Act string :=
  net <- stateOf (λ rs, LiveID (R_Networks rs) network) ;;
  net <- (if decide (net = "") then
      if isExternal network snap then during "resolve provider external net" (ask (FindExternalNetwork (ExternalNetworkName (H_Prerequisites cfg))))
      else ret ""
    else ret net) ;;
  if decide (net = "") then fail (Says ("no live network for " +:+ network)) else ret net.
Definition associateFIP (vm network : string) : Act () :=
  snap <- snapshot ;;
  pf <- ofOption ("scenario declares no VM " +:+ vm) (declaredVM vm snap) ;;
  (if decide (Port_ProjectID pf.1 = "") then fail (Says ("scenario declares no VM " +:+ vm)) else ret ()) ;;;
  proj <- project (Port_ProjectID pf.1) ;;
  port <- stateOf (λ rs, LiveID (R_Ports rs) vm) ;;
  (if decide (port = "") then fail (Says ("run-state has no live port for " +:+ vm)) else ret ()) ;;;
  net <- liveNetwork network snap ;;
  fip <- ask (CreateFIP (PR_ID proj) (mkFIPCreateSpec net port (Fip_IPAddress pf.2) "")) ;;
  note (addFIPRef (mkFIPRef vm fip.1 fip.2 (PR_ID proj) network)).
Definition routerOf (dsl : string) : Act ResourceRef :=
  r <- stateOf (routerRef dsl) ;; ofOption ("run-state has no router " +:+ dsl) r.
Definition setRouterRoutes (router : string) (routes : list RouteSpec) : Act () :=
  ref <- routerOf router ;; ask (SetRouterRoutes (Ref_ProjectID ref) (Ref_ID ref) routes).
(** The topology is read only for a network the run-state lacks. *)
Definition setRouterGateway (router network : string) : Act () :=
  ref <- routerOf router ;;
  known <- stateOf (λ rs, LiveID (R_Networks rs) network) ;;
  net <- (if decide (known = "") then snap <- snapshot ;; liveNetwork network snap else ret known) ;;
  ask (SetRouterGateway (Ref_ProjectID ref) (Ref_ID ref) net).
Definition addRoute (vm cidr via : string) : Act () :=
  fip <- sshOf vm ;;
  during "add-route" (SSHReady polls vm fip DefaultReadyTimeout) ;;;
  during "add-route" (ask (ExecRun fip ("sudo /sbin/ip route add " +:+ cidr +:+ " via " +:+ via
    +:+ " 2>/dev/null || sudo route add -net " +:+ cidr +:+ " gw " +:+ via))) ;;; ret ().
Definition forwardingCmd : string :=
  "echo 1 | sudo tee /proc/sys/net/ipv4/ip_forward >/dev/null; "
  +:+ "for f in /proc/sys/net/ipv4/conf/*/rp_filter; do echo 0 | sudo tee $f >/dev/null; done; "
  +:+ "cat /proc/sys/net/ipv4/ip_forward; " +:+ "cat /proc/sys/net/ipv4/conf/*/rp_filter | sort -u".
Definition enableForwarding (vm : string) : Act () :=
  fip <- sshOf vm ;;
  during "enable-forwarding" (SSHReady polls vm fip DefaultReadyTimeout) ;;;
  out <- during "enable-forwarding" (ask (ExecRun fip forwardingCmd)) ;;
  if decide (Fields (TrimSpace out) = ["1"; "0"]) then ret () else fail (Says ("enable-forwarding on " +:+ vm)).
Definition fipMatches (vm network : string) (provider : bool) (f : FIPRef) : bool :=
  if provider then bool_decide (FR_VMID f = vm ∧ FR_Network f = "")
  else bool_decide (FR_VMID f = vm ∧ FR_Network f = network ∧ FR_Network f ≠ "").
Definition deleteFIP (vm network : string) (provider : bool) : Act () :=
  fips <- stateOf R_FIPs ;;
  forEach fips (λ f, if fipMatches vm network provider f then ask (DeleteFIP (FR_ProjectID f) (FR_ID f)) else ret ()) ;;;
  if existsb (fipMatches vm network provider) fips
  then note (setFIPs (List.filter (negb ∘ fipMatches vm network provider) fips))
  else fail (Says ("run-state has no matching FIP for VM " +:+ vm)).

(** ** Ports *)

Definition barRow (vm n : string) (baseline current : spec_float) (delta : spec_float) (pass : bool) : AssertRow :=
  mkRow vm "" "-" "" vm "" "" "-" baseline current delta 0 pass n.
(** Every agent is asked. *)
Fixpoint boundOn (mac id : string) (urls : list string) (bound : bool) : Act bool :=
  match urls with
  | [] => ret bound
  | u :: urls =>
      r <- try_ (LookupMAC u mac) ;;
      boundOn mac id urls (match r with inr res => if ML_Found res && bool_decide (ML_PortID res = id) then bound else false
        | inl _ => false end)
  end.
Definition awaitPortBinding (vm port : string) (timeout : Z) (n : string) : Act () :=
  ports <- stateOf R_Ports ;;
  let ref := foldl (λ ref p, if isOf port p then p else ref) (mkRef "" "" "" "" "" "" "" false) ports in
  if decide (Ref_ID ref = "" ∨ Ref_MAC ref = "") then fail (Says ("await-port-binding: run-state has no port/MAC for " +:+ port))
  else poll sweepPollInterval (polls (orDefault timeout DefaultSweepTimeout))
    (bound <- boundOn (Ref_MAC ref) (Ref_ID ref) (AgentURLs cfg) true ;;
     if bound : bool then put (AddRow (barRow vm n fone fone fzero true)) ;;; ret (inr ()) else ret (inl ()))
    (λ _, put (AddRow (barRow vm n fone fzero (f64 (-1)) false))).
Definition serverIDOf (vm : string) : Act string :=
  id <- stateOf (λ rs, ServerIDFor rs vm) ;; ofOption ("run-state has no server for VM " +:+ vm) id.
Definition attachPort (s : AttachPort) : Act () :=
  snap <- snapshot ;;
  let declared := default "" (Port_ProjectID ∘ snd <$> list_find (λ p, Port_ID p = At_VM s) (Ports snap)) in
  (if decide (declared = "") then fail (Says ("scenario declares no VM " +:+ At_VM s)) else ret ()) ;;;
  proj <- project declared ;;
  server <- serverIDOf (At_VM s) ;;
  ids <- liveIDs_of (At_Network s) (At_Subnet s) ;;
  secGroup <- ask (FindSecGroup (SecGroupName (H_Prerequisites cfg))) ;;
  baseline <- during "attach baseline scrape" (scrape cfg) ;;
  pinned <- (if decide (At_MACFrom s = "") then ret "" else
    mac <- see (RecordedMAC (At_MACFrom s)) ;;
    if decide (mac = "") then fail (Says ("attach-port: no MAC recorded for " +:+ At_MACFrom s)) else ret mac) ;;
  name <- mangle (At_ID s) ;;
  port <- ask (CreatePort (PR_ID proj) (mkPortSpec name ids.1 ids.2 (At_IP s) secGroup pinned (At_PortSecurityOff s) (At_AllowedPairs s))) ;;
  mac <- ask (PortMAC port) ;;
  note (addPortRef (mkRef (At_ID s) port name (PR_ID proj) mac "" "" false)) ;;;
  ask (AttachInterface (PR_ID proj) server port) ;;;
  AttachRise cfg path polls baseline.
Definition portOf (port : string) : Act ResourceRef :=
  ref <- stateOf (portRef port) ;;
  ref <- ofOption ("run-state has no port " +:+ port) ref ;;
  if decide (Ref_ID ref = "") then fail (Says ("run-state has no port " +:+ port)) else ret ref.
Definition reattachPort (vm port : string) : Act () :=
  ref <- portOf port ;;
  server <- serverIDOf vm ;;
  baseline <- during "attach baseline scrape" (scrape cfg) ;;
  ask (AttachInterface (Ref_ProjectID ref) server (Ref_ID ref)) ;;;
  AttachRise cfg path polls baseline.
(** The tap is gone; the attach record is what the gauges say now. *)
Definition dropRound (target : spec_float) : Act (MetricsSnapshot + ()) :=
  snap <- during "detach gate scrape" (scrape cfg) ;;
  if SFleb (M_AttachedInterfaces snap) target then
    note (setAttach (mkAttach (M_AttachedInterfaces snap) (M_AttachFailures snap))) ;;; ret (inr ())
  else ret (inl snap).
Definition detachPort (vm port : string) (delete : bool) : Act () :=
  ref <- portOf port ;;
  put (RecordMAC port (Ref_MAC ref)) ;;;
  server <- serverIDOf vm ;;
  baseline <- during "detach baseline scrape" (scrape cfg) ;;
  ask (DetachInterface (Ref_ProjectID ref) server (Ref_ID ref)) ;;;
  let target := fsub (M_AttachedInterfaces baseline) fone in
  poll AttachPollInterval (polls DefaultAttachTimeout) (dropRound target)
    (λ snap, fail (NotReached (M_AttachedInterfaces snap) target)) ;;;
  if delete then ask (DeletePort (Ref_ProjectID ref) (Ref_ID ref)) ;;; note (dropPorts port) else ret ().
(** IPv4 addresses, as the topologies have. *)
Definition configureNIC (vm dev cidr : string) : Act () :=
  fip <- sshOf vm ;;
  (if ShellSafe dev then ret () else fail (Says "configure-nic.dev")) ;;;
  during "configure-nic" (SSHReady polls vm fip DefaultReadyTimeout) ;;;
  ipnet <- ofOption ("configure-nic " +:+ cidr) (ParsePrefix4 cidr) ;;
  during "configure-nic" (ask (ExecRun fip ("sudo /sbin/ip addr add " +:+ cidr +:+ " dev " +:+ dev
    +:+ " 2>/dev/null || sudo ifconfig " +:+ dev +:+ " " +:+ Addr_String (p4_ip ipnet) +:+ " netmask " +:+ netmask (p4_bits ipnet)
    +:+ "; sudo /sbin/ip link set " +:+ dev +:+ " up 2>/dev/null || sudo ifconfig " +:+ dev +:+ " up"))) ;;; ret ().
Definition setNICMAC (vm dev mac : string) : Act () :=
  fip <- sshOf vm ;;
  (if ShellSafe dev then ret () else fail (Says "set-nic-mac.dev")) ;;;
  (if ShellSafe mac then ret () else fail (Says "set-nic-mac.mac")) ;;;
  during "set-nic-mac" (SSHReady polls vm fip DefaultReadyTimeout) ;;;
  during "set-nic-mac" (ask (ExecRun fip ("sudo /sbin/ip link set " +:+ dev +:+ " down 2>/dev/null || sudo ifconfig " +:+ dev
    +:+ " down; sudo /sbin/ip link set " +:+ dev +:+ " address " +:+ mac +:+ " 2>/dev/null || sudo ifconfig " +:+ dev
    +:+ " hw ether " +:+ mac +:+ "; sudo /sbin/ip link set " +:+ dev +:+ " up 2>/dev/null || sudo ifconfig " +:+ dev
    +:+ " up"))) ;;; ret ().
End acts.
