(* ===== verification/StepAsserts.v ===== *)
(** * The steps that assert (internal/scenariotest/steps: assert_billing.go, assert_internal.go)

    What the assertions of a script compare, on what rows they say so, and how long
    they wait: the billing series (monotone, bounded growth, per port), and the gauges
    and counters of the agents themselves.  A failed assertion is a row, not an
    error. *)
From S2P Require Import Prelude GoStrings GoArgs GoJson Neutron Builder Scenario Cloud Realize Assert StepEnv Drive StepActs.
From Stdlib Require Import SpecFloat.

Definition DefaultPortSeriesTimeout : Z := 60 * second.
Definition DefaultReattachTimeout : Z := 3 * 60 * second.
Definition DefaultAnomalyTimeout : Z := 8 * 60 * second.
Definition anomalyPollInterval : Z := 5 * second.
Definition zoneGrowthSettle : Z := 15 * second.

(** A row of a sum or of a gauge: no VM, no server, no node. *)
Definition gaugeRow (tenant id zone dir : string) (baseline current delta : spec_float) (min : Z) (pass : bool) (n : string) : AssertRow :=
  mkRow tenant id zone "" "" "" "" dir baseline current delta min pass n.

Section asserts.
Context `{GoRange} {W : Type} `{!Cloud W, !MetricsSource W, !StateFile W, !ReportFile W, !VMExec W, !Clock W}.
Variables (cfg : HarnessConfig) (sc : Scenario) (polls : Z → nat).
Local Open Scope go_scope.
Notation Act := (@Act W).
Definition captured {A} (f : Capture → A) : Act A := see (f ∘ v_captured).
Definition addRow_ (row : AssertRow) : Act () := put (AddRow row).

(** ** Billing *)

Definition monotoneRow (tenant n : string) (cur : gmap Tuple spec_float) (kv : Tuple * spec_float) : AssertRow :=
  let c := default fzero (cur !! kv.1) in
  gaugeRow tenant (Tu_Tenant kv.1) (Tu_Zone kv.1) (Tu_Direction kv.1) kv.2 c (fsub c kv.2) 0 (fge c kv.2) n.
Definition monotone (tenant n : string) : Act () :=
  ref <- project tenant ;;
  snap <- scrape cfg ;;
  base <- captured Cap_Tuples ;;
  addRows (monotoneRow tenant n (SumByTuple (M_Bytes snap)) <$>
    List.filter (λ kv, bool_decide (Tu_Tenant kv.1 = PR_ID ref)) (go_range base)).
Definition growthRow (tenant label zone : string) (budget : Z) (n : string) (base cur : gmap Tuple spec_float) (dir : string) : AssertRow :=
  let k := mkTuple label zone dir in
  let b := default fzero (base !! k) in let c := default fzero (cur !! k) in
  gaugeRow tenant label zone dir b c (fsub c b) 0 (SFltb (fsub c b) (f64 budget)) n.
Definition maxGrowth (tenant zone : string) (budget : Z) (n : string) : Act () :=
  label <- see (TenantLabel tenant) ;;
  snap <- scrape cfg ;;
  base <- captured Cap_Tuples ;;
  addRows (growthRow tenant label zone budget n base (SumByTuple (M_Bytes snap)) <$> ["tx"; "rx"]).

(** The rows of one MAC in a zone, over the agents: how many, and their bytes. *)
Definition zoneRows (zone : string) (l : list FlowRow) : list FlowRow := List.filter (λ r, bool_decide (Row_Zone r = zone)) l.
Fixpoint flowSum (mac zone : string) (urls : list string) (acc : spec_float * nat) : Act (spec_float * nat) :=
  match urls with
  | [] => ret acc
  | u :: urls =>
      got <- ask (LookupFlows u mac) ;;
      let l := zoneRows zone got in
      flowSum mac zone urls (foldl (λ t r, fadd t (Row_Bytes r)) acc.1 l, (acc.2 + length l)%nat)
  end.
Definition folded (max : Z) (tr : spec_float * nat) : bool := negb (bool_decide (tr.2 = 0%nat)) && SFleb tr.1 (f64 max).
Definition flowsFolded (vm zone : string) (max : Z) (timeout : Z) (n : string) : Act () :=
  mac <- during "assert-flows-folded" (VMMAC vm) ;;
  let row tr := mkRow "flows-folded" "" zone "" vm "" "" "-" fzero tr.1 tr.1 max (folded max tr) n in
  tr <- pollFor sweepPollInterval (polls (orDefault timeout DefaultSweepTimeout))
    (tr <- during "assert-flows-folded" (flowSum mac zone (AgentURLs cfg) (fzero, 0%nat)) ;;
     ret (if folded max tr then inr tr else inl tr)) ret ;;
  addRow_ (row tr).

Definition portSum (id : string) (l : list PortSample) : spec_float :=
  foldl (λ sum p, if decide (PM_PortID p = id) then fadd sum (PM_Value p) else sum) fzero l.
Definition portSeries (vm port : string) (min : spec_float) (timeout : Z) (n : string) : Act () :=
  id <- stateOf (λ rs, LiveID (R_Ports rs) port) ;;
  if decide (id = "") then fail (Says ("assert-port-series: run-state has no live port for " +:+ port))
  else
    let row sum := barRow vm n min sum (fsub sum min) in
    poll sweepPollInterval (polls (orDefault timeout DefaultPortSeriesTimeout))
      (snap <- scrape cfg ;;
       let sum := portSum id (M_PortBytes snap) in
       if fge sum min then addRow_ (row sum true) ;;; ret (inr ()) else ret (inl sum))
      (λ sum, addRow_ (row sum false)).

(** Sample until the growth since the capture is enough; then judge it. *)
Definition grown (base : spec_float) (value : MetricsSnapshot → spec_float) (enough : spec_float → bool)
    (interval timeout : Z) : Act spec_float :=
  pollFor interval (polls timeout)
    (snap <- scrape cfg ;; let d := fsub (value snap) base in ret (if enough d then inr d else inl d)) ret.
Definition zoneGrowth (tenant zone dir : string) (min max timeout : Z) (n : string) : Act () :=
  label <- see (TenantLabel tenant) ;;
  let k := mkTuple label zone dir in
  (if decide (min = 0) then pause zoneGrowthSettle else ret ()) ;;;
  base <- captured (λ c, default fzero (Cap_Tuples c !! k)) ;;
  delta <- grown base (λ snap, default fzero (SumByTuple (M_Bytes snap) !! k)) (λ d, fge d (f64 min)) sweepPollInterval
    (orDefault timeout DefaultPortSeriesTimeout) ;;
  addRow_ (gaugeRow tenant label zone dir base (fadd base delta) delta min
    (fge delta (f64 min) && (bool_decide (max <= 0) || SFleb delta (f64 max))) n).

Definition serverRow (vm server n : string) (cur : gmap ServerTuple spec_float) (kv : ServerTuple * spec_float) : AssertRow :=
  let c := default fzero (cur !! kv.1) in
  mkRow vm "" (Vt_Zone kv.1) (Vt_Ext kv.1) vm server "" (Vt_Direction kv.1) kv.2 c (fsub c kv.2) 0 (fge c kv.2) n.
Definition serverMonotone (vm n : string) : Act () :=
  server <- serverIDOf vm ;;
  snap <- scrape cfg ;;
  base <- captured Cap_Servers ;;
  let rows := serverRow vm server n (SumByServerTuple (M_Servers snap)) <$>
    List.filter (λ kv, bool_decide (Vt_Server kv.1 = server)) (go_range base) in
  addRows rows ;;;
  if decide (rows = []) then fail (Says ("assert-server-monotone: no captured server tuples for VM " +:+ vm)) else ret ().

(** A gauge that may grow by no more than a budget. *)
Definition within (what : string) (base : Capture → spec_float) (value : MetricsSnapshot → spec_float) (budget : Z) (n : string) : Act () :=
  snap <- scrape cfg ;;
  b <- captured base ;;
  let delta := fsub (value snap) b in
  addRow_ (gaugeRow what "" "-" "-" b (value snap) delta 0 (SFleb delta (f64 budget)) n).
Definition maxSettled : Z → string → Act () := within "settled-flows" Cap_SettledFlows M_SettledFlows.
Definition maxGhosts : Z → string → Act () := within "lingering-ghosts" Cap_Ghosts M_LingeringGhosts.

(** ** The agents' own machinery *)

(** Every agent is asked; one that does not answer does not confirm. *)
Fixpoint goneOn (mac : string) (urls : list string) (gone : bool) : Act bool :=
  match urls with
  | [] => ret gone
  | u :: urls =>
      r <- try_ (LookupMAC u mac) ;;
      goneOn mac urls (match r with inr res => if ML_Found res then false else gone | inl _ => false end)
  end.
Definition awaitMACSwept (id : string) (timeout : Z) : Act () :=
  mac <- during "await-sweep" (VMMAC id) ;;
  poll sweepPollInterval (polls timeout)
    (gone <- goneOn mac (AgentURLs cfg) true ;; ret (if gone : bool then inr () else inl ()))
    (λ _, fail (Says ("await-sweep: MAC " +:+ mac +:+ " not gone"))).
Definition awaitSweep (id : string) (timeout : Z) : Act () :=
  let timeout := orDefault timeout DefaultSweepTimeout in
  if decide (id ≠ "") then awaitMACSwept id timeout
  else
    base <- captured Cap_SettledFlows ;;
    poll sweepPollInterval (polls timeout)
      (snap <- scrape cfg ;; ret (if fgt (M_SettledFlows snap) base then inr () else inl snap))
      (λ _, fail (Says "ghost sweep not observed")).

(** The last declared port of the router's interface at an address. *)
Definition interfaceAt (router via : string) (snap : Snapshot) : string :=
  foldl (λ id p, match Port_FixedIPs p with
    | f :: _ => if decide (Port_DeviceOwner p = "network:router_interface" ∧ Port_DeviceID p = router ∧ Fip_IPAddress f = via)
                then Port_ID p else id
    | [] => id
    end) "" (Ports snap).
Definition macOf (dsl : string) (rs : RunState) : string :=
  foldl (λ mac r, if decide (Ref_DSLID r = dsl) then Ref_MAC r else mac) "" (R_Ports rs).
Definition flowPeer (router via zone : string) (min : Z) (n : string) : Act () :=
  snap <- snapshot sc ;;
  let port := interfaceAt router via snap in
  if decide (port = "") then fail (Says ("scenario declares no " +:+ router +:+ " interface at " +:+ via))
  else
    mac <- stateOf (macOf port) ;;
    if decide (mac = "") then fail (Says ("run-state has no MAC for " +:+ router))
    else
      tr <- during "assert-flow-peer" (flowSum mac zone (AgentURLs cfg) (fzero, 0%nat)) ;;
      addRow_ (gaugeRow "flow-peer" "" zone "-" fzero tr.1 tr.1 min (fge tr.1 (f64 min)) n).

Definition between (min max : Z) (d : spec_float) : bool := fge d (f64 min) && SFleb d (f64 max).
Definition assertAnomaly (class : string) (min max timeout : Z) (n : string) : Act () :=
  base <- stateOf (λ rs, default fzero (R_AnomalyBaseline rs !! class)) ;;
  last <- pollFor anomalyPollInterval (polls (orDefault timeout DefaultAnomalyTimeout))
    (snap <- scrape cfg ;;
     let last := default fzero (M_Anomalies snap !! class) in
     ret (if between min max (fsub last base) then inr last else inl last)) ret ;;
  let delta := fsub last base in
  addRow_ (gaugeRow "anomaly" "" class "-" base last delta min (between min max delta) n).

Definition epoch (node : string) (changed : bool) (n : string) : Act () :=
  match AgentForNode cfg node with
  | inl e => fail (During "assert-epoch" (NodeFails e))
  | inr agent =>
      base <- captured (λ c, Cap_Epochs c !! AC_Host agent) ;;
      base <- ofOption ("assert-epoch: no captured epoch for " +:+ AC_Host agent) base ;;
      res <- during "assert-epoch" (ask (Scrape (AC_MetricsURL agent))) ;;
      let cur := Sp_CountersResetEpoch res in
      addRow_ (gaugeRow (AC_Host agent) "" "epoch" "" base cur (fsub cur base) 0
        (if changed then fgt cur base else SFeqb cur base && negb (SFeqb cur fzero)) n)
  end.

(** A counter that must grow by a floor. *)
Definition grew (what : string) (base : Capture → spec_float) (value : MetricsSnapshot → spec_float) (standard : Z)
    (min timeout : Z) (n : string) : Act () :=
  b <- captured base ;;
  delta <- grown b value (λ d, fge d (f64 min)) sweepPollInterval (orDefault timeout standard) ;;
  addRow_ (gaugeRow what "" "-" "-" b (fadd b delta) delta min (fge delta (f64 min)) n).
Definition resolvedGrew : Z → Z → string → Act () := grew "unresolved-resolved" Cap_Resolved M_UnresolvedResolved DefaultSweepTimeout.
Definition reattachHealed : Z → Z → string → Act () := grew "reattach-healed" Cap_Healed M_ReattachHealed DefaultReattachTimeout.
Definition evictionsGrew : Z → Z → string → Act () := grew "gc-pressure-relief" Cap_Evictions M_PressureReliefEvictions DefaultSweepTimeout.
End asserts.
