(* ===== verification/Steps.v ===== *)
(** * The steps of a scenario (internal/scenariotest/steps: steps.go, agent.go)

    The vocabulary a script is written in, as one type with a constructor per step; what a
    step needs of the hosts and of the metrics; the steps that drive an agent's host; and the
    execution of any step, which for a restart runs the steps of its outage. *)
From S2P Require Import Prelude GoStrings GoArgs GoJson Neutron Builder Scenario Cloud Realize Assert StepEnv Drive AgentCtl StepActs StepAsserts.
From Stdlib Require Import Ascii SpecFloat.

Record RestartAgent := mkRestart {
  Rst_Node : string; Rst_SetConfig : gmap string string; Rst_RestoreConfig : bool; Rst_RemoveWAL : bool;
  Rst_RemovePins : bool; Rst_TapsGoneWhileDown : Z; Rst_Timeout : Z }.
Inductive Step :=
  | DriveStep (o : DriveOptions)
  | IngressFlowStep (To : string) (Bytes : Z)
  | AssertStep (expect : list Expect) (Note : string)
  | CaptureStep
  | DeleteVMStep (VM : string)
  | BootVMStep (VM MACFrom : string)
  | MigrateStep (VM Target : string) (StrictAttach : bool) (Timeout : Z)
  | SleepStep (Duration : Z)
  | AssociateFIPStep (VM Network : string)
  | SetRouterRoutesStep (Router : string) (Routes : list RouteSpec)
  | SetRouterGatewayStep (Router ExternalNet : string)
  | AddRouteStep (VM CIDR Via : string)
  | EnableForwardingStep (VM : string)
  | DeleteFIPStep (VM Network : string) (Provider : bool)
  | AwaitPortBindingStep (VM Port : string) (Timeout : Z) (Note : string)
  | AttachPortStep (s : AttachPort)
  | ReattachPortStep (VM Port : string)
  | DetachPortStep (VM Port : string) (Delete : bool)
  | ConfigureNICStep (VM Dev CIDR : string)
  | SetNICMACStep (VM Dev MAC : string)
  | RestartAgentStep (s : RestartAgent) (Down : list Step)
  | ReloadAgentStep (Node : string) (SetConfig : gmap string string)
  | StripTCStep (VM Node : string)
  | MonotoneStep (Tenant Note : string)
  | MaxGrowthStep (Tenant Zone : string) (Budget : Z) (Note : string)
  | FlowsFoldedStep (VM Zone : string) (MaxBytes Timeout : Z) (Note : string)
  | PortSeriesStep (VM Port : string) (MinBytes : spec_float) (Timeout : Z) (Note : string)
  | ZoneGrowthStep (Tenant Zone Direction : string) (MinBytes MaxBytes Timeout : Z) (Note : string)
  | ServerMonotoneStep (VM Note : string)
  | MaxSettledStep (Budget : Z) (Note : string)
  | AwaitSweepStep (ForMACOf : string) (Timeout : Z)
  | AssertFlowPeerStep (Router Via Zone : string) (MinBytes : Z) (Note : string)
  | AssertAnomalyStep (Class : string) (Min Max Timeout : Z) (Note : string)
  | EpochStep (Node : string) (Changed : bool) (Note : string)
  | ResolvedGrewStep (Min Timeout : Z) (Note : string)
  | ReattachHealedStep (Min Timeout : Z) (Note : string)
  | EvictionsGrewStep (Min Timeout : Z) (Note : string)
  | MaxGhostsStep (Budget : Z) (Note : string).

Definition Kind (st : Step) : string :=
  match st with
  | DriveStep _ => "drive" | IngressFlowStep _ _ => "ingress-flow" | AssertStep _ _ => "assert" | CaptureStep => "capture"
  | DeleteVMStep _ => "delete-vm" | BootVMStep _ _ => "boot-vm" | MigrateStep _ _ _ _ => "migrate" | SleepStep _ => "sleep"
  | AssociateFIPStep _ _ => "associate-fip" | SetRouterRoutesStep _ _ => "set-router-routes"
  | SetRouterGatewayStep _ _ => "set-router-gateway" | AddRouteStep _ _ _ => "add-route"
  | EnableForwardingStep _ => "enable-forwarding" | DeleteFIPStep _ _ _ => "delete-fip"
  | AwaitPortBindingStep _ _ _ _ => "await-port-binding" | AttachPortStep _ => "attach-port"
  | ReattachPortStep _ _ => "reattach-port" | DetachPortStep _ _ _ => "detach-port"
  | ConfigureNICStep _ _ _ => "configure-nic" | SetNICMACStep _ _ _ => "set-nic-mac"
  | RestartAgentStep _ _ => "restart-agent" | ReloadAgentStep _ _ => "reload-agent" | StripTCStep _ _ => "strip-tc"
  | MonotoneStep _ _ => "assert-monotone" | MaxGrowthStep _ _ _ _ => "assert-max-growth"
  | FlowsFoldedStep _ _ _ _ _ => "assert-flows-folded" | PortSeriesStep _ _ _ _ _ => "assert-port-series"
  | ZoneGrowthStep _ _ _ _ _ _ _ => "assert-zone-growth" | ServerMonotoneStep _ _ => "assert-server-monotone"
  | MaxSettledStep _ _ => "assert-max-settled" | AwaitSweepStep _ _ => "await-sweep"
  | AssertFlowPeerStep _ _ _ _ _ => "assert-flow-peer" | AssertAnomalyStep _ _ _ _ _ => "assert-anomaly"
  | EpochStep _ _ _ => "assert-epoch" | ResolvedGrewStep _ _ _ => "assert-resolved-grew"
  | ReattachHealedStep _ _ _ => "assert-reattach-healed" | EvictionsGrewStep _ _ _ => "assert-evictions-grew"
  | MaxGhostsStep _ _ => "assert-max-ghosts"
  end.

(** ** What a step declares *)

(** [HostRequirer]: nothing from a step that is none.  The steps of an outage add paths, not
    the transport, which the restart needs itself. *)
Fixpoint HostNeeds_ (st : Step) : option HostNeeds :=
  match st with
  | RestartAgentStep s down =>
      Some (foldl (λ n m, match m with
        | Some m => mkNeeds true (NeedWALPath n || NeedWALPath m) (NeedPinPath n || NeedPinPath m)
        | None => n end) (mkNeeds true (Rst_RemoveWAL s) (Rst_RemovePins s)) (map HostNeeds_ down))
  | StripTCStep _ _ => Some (mkNeeds true false false)
  | _ => None
  end.

Definition MetricSettledFlows : string := "lachesis_gc_settled_flows_total".
Definition MetricNeutronAnomalies : string := "lachesis_neutron_anomalies".
Definition MetricCountersReset : string := "lachesis_agent_counters_reset_timestamp_seconds".
Definition MetricUnresolvedResolved : string := "lachesis_unresolved_resolved_total".
Definition MetricReattachTotal : string := "lachesis_tc_reattach_total".
Definition MetricGCEvictions : string := "lachesis_gc_evictions_total".
Definition MetricLingeringGhosts : string := "lachesis_lingering_ghosts_active".
(** [MetricRequirer]; the families of a script are each named once, in order. *)
Definition once (out l : list string) : list string := foldl (λ out m, if decide (m ∈ out) then out else out ++ [m]) out l.
Fixpoint stepMetrics (st : Step) : list string :=
  match st with
  | RestartAgentStep _ down => [MetricBytesTotal; MetricAttachedInterfaces] ++ foldl once [] (map stepMetrics down)
  | MaxSettledStep _ _ => [MetricSettledFlows]
  | AwaitSweepStep id _ => if decide (id ≠ "") then [] else [MetricSettledFlows]
  | AssertAnomalyStep _ _ _ _ _ => [MetricNeutronAnomalies]
  | EpochStep _ _ _ => [MetricCountersReset]
  | ResolvedGrewStep _ _ _ => [MetricUnresolvedResolved]
  | ReattachHealedStep _ _ _ => [MetricReattachTotal]
  | EvictionsGrewStep _ _ _ => [MetricGCEvictions]
  | MaxGhostsStep _ _ => [MetricLingeringGhosts]
  | _ => []
  end.
Definition RequiredMetrics (script : list Step) : list string := foldl once [] (map stepMetrics script).
(** [Default]: drive every flow, assert every expectation. *)
Definition Default (sc : Scenario) : list Step :=
  [DriveStep (mkDrive (Sc_Flows sc) false false false); AssertStep (Sc_Expect sc) ""].

(** ** The agent's host *)

Definition tapNameLen : nat := 14.
Definition tapName (portID : string) : string := String.substring 0 tapNameLen ("tap" +:+ portID).
(** float64 of a count of taps *)
Definition wantTaps (base : spec_float) (goneTaps : Z) : spec_float := fsub base (f64 goneTaps).

Section steps.
Context `{GoRange} `{Yaml} {W : Type}.
Context `{!Cloud W, !MetricsSource W, !StateFile W, !ReportFile W, !VMExec W, !AgentExec W, !Clock W}.
Variables (cfg : HarnessConfig) (sc : Scenario) (path reportPath : string) (polls : Z → nat) (sinkDelay learnTimeout : Z).
Local Open Scope go_scope.
Notation Act := (@Act W).

Definition controller (node : string) : Act Controller := sum_ (For (W := W) cfg node).
(** What the run owes after a change of config. *)
Definition debt (node : string) (dr : bool * bool) : Act () :=
  if dr.1 then put (MarkConfigDirty node) else if dr.2 then put (ClearConfigDirty node) else ret ().
(** [cycleAround]: the agent is started again whatever the steps of its outage come to. *)
Definition cycleAround (c : Controller) (cy : Cycle) (down : Act ()) : Act string :=
  oldPID <- Stop c ;;
  (λ s, match down s with
    | (s, inl e) => let '(s, _) := Start c cy s in (s, inl (During "while agent down" e))
    | (s, inr _) => (Start c cy ;;; ret oldPID) s
    end).
Definition restartAgent (s : RestartAgent) (down : option (Act ())) : Act () := during "restart-agent" (
  c <- controller (Rst_Node s) ;;
  base <- Baseline c ;;
  dr <- ApplyConfig c (mkChange (Rst_SetConfig s) (Rst_RestoreConfig s) true) ;;
  debt (Rst_Node s) dr ;;;
  let cy := mkCycle (Rst_RemoveWAL s) (Rst_RemovePins s) in
  oldPID <- (match down with None => Restart c cy | Some m => cycleAround c cy m end) ;;
  AwaitReady polls c oldPID (wantTaps (Sp_AttachedInterfaces base) (Rst_TapsGoneWhileDown s)) (Rst_Timeout s)).
Definition reloadAgent (node : string) (set : gmap string string) : Act () := during "reload-agent" (
  c <- controller node ;;
  dr <- ApplyConfig c (mkChange set false false) ;;
  (if dr.1 then put (MarkConfigDirty node) else ret ()) ;;;
  Reload c).
Definition stripTC (vm node : string) : Act () :=
  port <- stateOf (λ rs, LiveID (R_Ports rs) vm) ;;
  if decide (String.length port < tapNameLen - 3)%nat then fail (Says ("strip-tc: run-state has no port for VM " +:+ vm))
  else during "strip-tc" (c <- controller node ;; StripTC c (tapName port)).

(** ** Running a step *)

Fixpoint runStep (st : Step) : Act () :=
  match st with
  | DriveStep o => driveStep cfg sc path polls sinkDelay learnTimeout o
  | IngressFlowStep vm bytes => ingressFlow cfg sc path polls sinkDelay learnTimeout vm bytes
  | AssertStep l n => assertStep cfg sc reportPath polls l n
  | CaptureStep => TakeCapture cfg
  | DeleteVMStep vm => deleteVM path vm
  | BootVMStep vm macFrom => bootVM cfg sc path polls vm macFrom
  | MigrateStep vm target strict timeout => migrate cfg path polls vm target strict timeout
  | SleepStep d => sleep d
  | AssociateFIPStep vm network => associateFIP cfg sc path vm network
  | SetRouterRoutesStep router routes => setRouterRoutes router routes
  | SetRouterGatewayStep router network => setRouterGateway cfg sc router network
  | AddRouteStep vm cidr via => addRoute polls vm cidr via
  | EnableForwardingStep vm => enableForwarding polls vm
  | DeleteFIPStep vm network provider => deleteFIP path vm network provider
  | AwaitPortBindingStep vm port timeout n => awaitPortBinding cfg polls vm port timeout n
  | AttachPortStep s => attachPort cfg sc path polls s
  | ReattachPortStep vm port => reattachPort cfg path polls vm port
  | DetachPortStep vm port delete => detachPort cfg path polls vm port delete
  | ConfigureNICStep vm dev cidr => configureNIC polls vm dev cidr
  | SetNICMACStep vm dev mac => setNICMAC polls vm dev mac
  | RestartAgentStep s down =>
      restartAgent s (match down with
        | [] => None
        | _ => Some ((fix runAll (l : list Step) : Act () :=
            match l with [] => ret () | st :: l => during (Kind st) (runStep st) ;;; runAll l end) down)
        end)
  | ReloadAgentStep node set => reloadAgent node set
  | StripTCStep vm node => stripTC vm node
  | MonotoneStep tenant n => monotone cfg tenant n
  | MaxGrowthStep tenant zone budget n => maxGrowth cfg tenant zone budget n
  | FlowsFoldedStep vm zone max timeout n => flowsFolded cfg polls vm zone max timeout n
  | PortSeriesStep vm port min timeout n => portSeries cfg polls vm port min timeout n
  | ZoneGrowthStep tenant zone dir min max timeout n => zoneGrowth cfg polls tenant zone dir min max timeout n
  | ServerMonotoneStep vm n => serverMonotone cfg vm n
  | MaxSettledStep budget n => maxSettled cfg budget n
  | AwaitSweepStep id timeout => awaitSweep cfg polls id timeout
  | AssertFlowPeerStep router via zone min n => flowPeer cfg sc router via zone min n
  | AssertAnomalyStep class min max timeout n => assertAnomaly cfg polls class min max timeout n
  | EpochStep node changed n => epoch cfg node changed n
  | ResolvedGrewStep min timeout n => resolvedGrew cfg polls min timeout n
  | ReattachHealedStep min timeout n => reattachHealed cfg polls min timeout n
  | EvictionsGrewStep min timeout n => evictionsGrew cfg polls min timeout n
  | MaxGhostsStep budget n => maxGhosts cfg budget n
  end.
Fixpoint runAll (l : list Step) : Act () :=
  match l with [] => ret () | st :: l => during (Kind st) (runStep st) ;;; runAll l end.

(** [RestoreDirtyConfigs]: the newest first; an error is logged, and the sweep goes on. *)
Definition restoreStep (node : string) : Step := RestartAgentStep (mkRestart node ∅ true false false 0 0) [].
Definition RestoreDirtyConfigs (s : W * Env) : W * Env :=
  let '(nodes, v) := TakeConfigDirty s.2 in
  foldl (λ s node, (runStep (restoreStep node) s).1) (s.1, v) (rev nodes).
End steps.
