(* ===== verification/Runner.v ===== *)
(** * The whole loop (internal/scenariotest/run/run.go)

    Preflight, up, the steps of the script, down, the report: what [run] does, on every
    exit path. *)
From S2P Require Import Prelude GoStrings GoArgs GoJson Neutron Builder Scenario Cloud Realize Down Assert StepEnv Drive AgentCtl StepActs StepAsserts Steps.
From Stdlib Require Import SpecFloat.

Inductive runFailure :=
  | AlreadyTornDown | Skipped (reason : skip) | NotReady (failed : list Check_) | ScrapeFails (url e : string)
  | MissingFamily (url metric : string) | UpFails (e : upErr) | ScriptFails (e : runErr) | ReportFails (e : saveErr).
(** What a run comes to: the report, the error if any, the run-state in memory if there is one,
    and what the teardown said if it ran. *)
Record outcome := mkOutcome {
  o_report : AssertReport; o_err : option runFailure; o_state : option RunState; o_down : option (option downErr) }.
Definition noReport : AssertReport := mkReport "" "" false [].

(** The scenario as the core sees it: its steps by what they need of the hosts. *)
Definition withSteps (sc : Scenario) (script : list Step) : Scenario :=
  mkScenario (Sc_Name sc) (Sc_Builder sc) (Sc_Flavor sc) (Sc_Placement sc) (Sc_Projects sc) (Sc_FIPs sc) (Sc_Flows sc)
    (Sc_Expect sc) (Sc_CreateExternalNets sc) (Sc_Deferred sc) (map HostNeeds_ script).

Section runner.
Context `{GoRange} `{Yaml} {W : Type}.
Context `{!Cloud W, !MetricsSource W, !StateFile W, !ReportFile W, !VMExec W, !AgentExec W, !Clock W}.
(** [ticks] bounds the polls of the realizer's gate, [polls] those that fit in a timeout. *)
Variables (cfg : HarnessConfig) (sc : Scenario) (runID path : string) (ticks : nat) (polls : Z → nat) (sinkDelay learnTimeout : Z).

(** [preflightResume] and [checkStepMetrics] *)
Fixpoint preflightResume (urls : list string) (w : W) : W * option runFailure :=
  match urls with
  | [] => (w, None)
  | u :: urls =>
      match Scrape u w with
      | (w, inl e) => (w, Some (ScrapeFails u e))
      | (w, inr res) =>
          match CheckRequiredMetrics res with Some m => (w, Some (MissingFamily u m)) | None => preflightResume urls w end
      end
  end.
Definition missing (required : list string) (res : ScrapeResult) : option string :=
  snd <$> list_find (λ m, m ∉ Sp_Present res) required.
Fixpoint checkAgents (required : list string) (urls : list string) (w : W) : W * option runFailure :=
  match urls with
  | [] => (w, None)
  | u :: urls =>
      match Scrape u w with
      | (w, inl e) => (w, Some (ScrapeFails u e))
      | (w, inr res) => match missing required res with Some m => (w, Some (MissingFamily u m)) | None => checkAgents required urls w end
      end
  end.
Definition checkStepMetrics (script : list Step) (w : W) : W * option runFailure :=
  if decide (RequiredMetrics script = []) then (w, None) else checkAgents (RequiredMetrics script) (AgentURLs cfg) w.

Definition scriptOf (steps : list Step) : list Step := match steps with [] => Default sc | _ => steps end.
(** What is checked before anything is created. *)
Definition gates (resume : bool) (steps : list Step) (w : W) : W * option runFailure :=
  let '(w, failed) :=
    if resume then preflightResume (AgentURLs cfg) w
    else let '(w, pre) := Preflight cfg (withSteps sc steps) w in
      (w, match PF_Skip pre with
        | Some reason => Some (Skipped reason)
        | None => if PF_OK pre then None else Some (NotReady (List.filter (negb ∘ Ck_OK) (PF_Checks pre)))
        end) in
  match failed with Some e => (w, Some e) | None => checkStepMetrics (scriptOf steps) w end.

(** [runSteps]: the steps in order up to the first error, then the configs the run left modified. *)
Definition runSteps (reportPath : string) (script : list Step) (s : W * Env) : (W * Env) * (runErr + ()) :=
  let '(s, r) := runAll cfg sc path reportPath polls sinkDelay learnTimeout script s in
  (RestoreDirtyConfigs cfg sc path reportPath polls sinkDelay learnTimeout s, r).
Definition startEnv (rs : RunState) : Env :=
  mkEnv rs (mkReport (R_Scenario rs) (R_RunID rs) true []) noCapture ∅ [].
(** The script over what is up, and the report. *)
Definition play (reportPath : string) (script : list Step) (rs : RunState) (w : W) : W * RunState * AssertReport * option runFailure :=
  match runSteps reportPath script (w, startEnv rs) with
  | ((w, v), inl e) => (w, v_rs v, v_report v, Some (ScriptFails e))
  | ((w, v), inr _) =>
      match saveReport (v_report v) reportPath w with
      | (w, inl e) => (w, v_rs v, v_report v, Some (ReportFails e))
      | (w, inr _) => (w, v_rs v, v_report v, None)
      end
  end.
(** The deferred teardown: its error is logged. *)
Definition finish (keep : bool) (r : W * RunState * AssertReport * option runFailure) : W * outcome :=
  match r with
  | (w, rs, rep, err) =>
      if keep then (w, mkOutcome rep err (Some rs) None)
      else let '(w, rs, down) := Down rs path w in (w, mkOutcome rep err (Some rs) (Some down))
  end.
(** [state] is the topology to resume on; [steps] the scenario's own. *)
Definition RunAll (state : option RunState) (steps : list Step) (reportPath : string) (keep : bool) (w : W) : W * outcome :=
  let reportPath := if decide (reportPath = "") then DefaultReportPath path else reportPath in
  let script := scriptOf steps in
  match state with
  | Some rs =>
      if R_TornDown rs then (w, mkOutcome noReport (Some AlreadyTornDown) None None)
      else match gates true steps w with
      | (w, Some e) => (w, mkOutcome noReport (Some e) None None)
      | (w, None) => finish keep (play reportPath script rs w)
      end
  | None =>
      match gates false steps w with
      | (w, Some e) => (w, mkOutcome noReport (Some e) None None)
      | (w, None) =>
          match Realize.Run cfg sc runID path ticks w with
          | (w, rs, Some e) => finish keep (w, rs, noReport, Some (UpFails e))
          | (w, rs, None) => finish keep (play reportPath script rs w)
          end
      end
  end.
End runner.
