(* ===== verification/StepCalm.v ===== *)
(** * Steps that make and take nothing (internal/scenariotest/steps)

    What a run relies on from the machines, the clock and the report's file; and the
    steps that leave the cloud's resources and the run-state's list of them as they are,
    whatever is answered: every assertion, wait and drive, and most of the steps that
    act. *)
From S2P Require Import Prelude GoStrings GoArgs GoJson NetIP Neutron Builder Scenario Cloud Realize RealizeSpec Assert StepEnv Drive AgentCtl StepActs StepAsserts Steps.
From Stdlib Require Import SpecFloat.

(** A command on a machine or a host, a pause and a report change no resource. *)
Class HostLaws (W : Type) `{!VMExec W, !AgentExec W, !Clock W, !ReportFile W, !World W} := {
  quiet_ExecRun a c : quiet (ExecRun a c);
  quiet_Stdin run a c n : RunWithStdin = Some run → quiet (run a c n);
  quiet_AgentRun run a c : AgentRun = Some run → quiet (run a c);
  quiet_Pause d : quiet (Pause d);
  live_WriteReport p r w : live (WriteReport p r w).1 = live w ∧ ∀ id, used w id → used (WriteReport p r w).1 id }.

(** The same resources listed, for the same run. *)
Record alike (rs rs' : RunState) : Prop := mkAlike {
  al_id : R_RunID rs' = R_RunID rs; al_prefix : R_Prefix rs' = R_Prefix rs; al_projects : R_Projects rs' = R_Projects rs;
  al_networks : R_Networks rs' = R_Networks rs; al_subnets : R_Subnets rs' = R_Subnets rs;
  al_routers : R_Routers rs' = R_Routers rs; al_ports : R_Ports rs' = R_Ports rs; al_servers : R_Servers rs' = R_Servers rs;
  al_fips : R_FIPs rs' = R_FIPs rs; al_lbs : R_LoadBalancers rs' = R_LoadBalancers rs }.
#[export] Instance alike_preorder : PreOrder alike.
Proof. split; [by intros rs; split|]. intros ? ? ? [] []; split; congruence. Qed.

Section calm.
Context `{GoRange} `{Yaml} {W : Type}.
Context `{!Cloud W, !MetricsSource W, !StateFile W, !ReportFile W, !VMExec W, !AgentExec W, !Clock W, !World W}.
Context `{!CloudLaws W, !MetricsLaws W, !FileLaws W, !HostLaws W}.
Variables (cfg : HarnessConfig) (sc : Scenario) (path reportPath : string) (polls : Z → nat) (sinkDelay learnTimeout : Z).
Local Open Scope go_scope.
Notation Act := (@Act W).

Record still (s s' : W * Env) : Prop := mkStill {
  st_live : live s'.1 = live s.1; st_used : ∀ id, used s.1 id → used s'.1 id; st_alike : alike (v_rs s.2) (v_rs s'.2) }.
#[export] Instance still_preorder : PreOrder still.
Proof.
  split; [by intros s; split|]. intros ? ? ? [L1 U1 A1] [L2 U2 A2]. split; [congruence|by eauto|by etrans].
Qed.
Definition calm {A} (m : Act A) : Prop := ∀ s, still s (m s).1.

Lemma calm_ret {A} (a : A) : calm (ret a).
Proof. by intros s. Qed.
Lemma calm_fail {A} e : calm (fail e : Act A).
Proof. by intros s. Qed.
Lemma calm_see {A} (f : Env → A) : calm (see f).
Proof. by intros s. Qed.
Lemma calm_bind {A B} (m : Act A) (f : A → Act B) : calm m → (∀ a, calm (f a)) → calm (andThen m f).
Proof.
  intros Hm Hf s. rewrite /andThen. specialize (Hm s). destruct (m s) as [s' [e|a]]; [done|]. etrans; [exact Hm|apply Hf].
Qed.
Lemma calm_ask {A} (c : Call W A) : quiet c → calm (ask c).
Proof.
  intros [Hf Hl] [w v]. rewrite /ask /=. specialize (Hl w). destruct (Hf w) as [_ Hu]. by destruct (c w) as [w' [e|a]].
Qed.
Lemma calm_try {A} (c : Call W A) : quiet c → calm (try_ c).
Proof. intros [Hf Hl] [w v]. rewrite /try_ /=. specialize (Hl w). destruct (Hf w) as [_ Hu]. by destruct (c w). Qed.
Lemma calm_during {A} what (m : Act A) : calm m → calm (during what m).
Proof. intros Hm s. rewrite /during. specialize (Hm s). by destruct (m s) as [s' [e|a]]. Qed.
Lemma calm_put f : (∀ v, alike (v_rs v) (v_rs (f v))) → calm (put f).
Proof. intros Hf [w v]. by split; simpl. Qed.
Lemma calm_save : calm (saveState path).
Proof.
  intros [w v]. rewrite /saveState /=. destruct (Save_spec path (v_rs v) w) as (Hl & Hu & _).
  by destruct (Save (v_rs v) path w) as [w' [e|[]]].
Qed.
Lemma calm_note f : (∀ rs, alike rs (f rs)) → calm (note path f).
Proof. intros Hf. apply calm_bind; [by apply calm_put|]. intros ?. apply calm_save. Qed.
Lemma calm_ofOption {A} msg (o : option A) : calm (ofOption msg o).
Proof. destruct o; [apply calm_ret|apply calm_fail]. Qed.
Lemma calm_sum {A} (r : runErr + A) : calm (sum_ r).
Proof. destruct r; [apply calm_fail|apply calm_ret]. Qed.
Lemma calm_forEach {A} (l : list A) (f : A → Act ()) : (∀ x, calm (f x)) → calm (forEach l f).
Proof. intros Hf. induction l as [|x l IH]; cbn [forEach]; [apply calm_ret|]. apply calm_bind; [done|]. by intros ?. Qed.
Lemma calm_pause d : calm (pause d).
Proof. apply calm_ask, quiet_Pause. Qed.
Lemma calm_poll {A B} interval n (body : Act (B + A)) late : calm body → (∀ b, calm (late b)) → calm (poll interval n body late).
Proof.
  intros Hb Hl. induction n as [|n IH]; cbn [poll]; (apply calm_bind; [done|]); intros [b|a]; try apply calm_ret; [done|].
  apply calm_bind; [apply calm_try, quiet_Pause|]. by intros [].
Qed.
Lemma calm_pollFor {A B} interval n (body : Act (B + A)) late :
  calm body → (∀ b, calm (late b)) → calm (pollFor interval n body late).
Proof.
  intros Hb Hl. induction n as [|n IH]; cbn [pollFor]; (apply calm_bind; [done|]); intros [b|a]; try apply calm_ret; [done|].
  apply calm_bind; [apply calm_pause|]. by intros ?.
Qed.
Lemma calm_agentRun a c : quiet (agentRun (W := W) a c).
Proof.
  rewrite /agentRun. destruct AgentRun as [run|] eqn:E; [by eapply quiet_AgentRun|].
  split; [intros w; by split|done].
Qed.

Lemma calm_pid c : calm (pidOrEmpty c).
Proof.
  assert (calm (MainPID c)) as Hm.
  { apply calm_bind; [apply calm_ask, calm_agentRun|]. intros ?. apply calm_ret. }
  intros s. rewrite /pidOrEmpty. specialize (Hm s). by destruct (MainPID c s) as [s' [e|a]].
Qed.
End calm.

(** Descend a program; what is left are the parts that are not calm by their shape. *)
Ltac calm_step := lazymatch goal with
  | |- calm (andThen _ _) => apply calm_bind; [|intros ?]
  | |- calm (ret _) => apply calm_ret
  | |- calm (fail _) => apply calm_fail
  | |- calm (see _) => apply calm_see
  | |- calm (stateOf _) => apply calm_see
  | |- calm (captured _) => apply calm_see
  | |- calm (ask _) => apply calm_ask
  | |- calm (try_ _) => apply calm_try
  | |- calm (during _ _) => apply calm_during
  | |- calm (put _) => apply calm_put; intros ?
  | |- calm (saveState _) => apply calm_save
  | |- calm (note _ _) => apply calm_note; intros ?
  | |- calm (ofOption _ _) => apply calm_ofOption
  | |- calm (sum_ _) => apply calm_sum
  | |- calm (forEach _ _) => apply calm_forEach; intros ?
  | |- calm (pause _) => apply calm_pause
  | |- calm (poll _ _ _ _) => apply calm_poll; [|intros ?]
  | |- calm (pollFor _ _ _ _) => apply calm_pollFor; [|intros ?]
  | |- calm (pidOrEmpty _) => apply calm_pid
  | |- calm (match ?x with _ => _ end) => destruct x
  | |- calm (let _ := _ in _) => cbv zeta
  | |- quiet (agentRun _ _) => apply calm_agentRun
  | |- quiet (ExecRun _ _) => apply quiet_ExecRun
  | |- quiet (Pause _) => apply quiet_Pause
  | |- quiet (SampleAcross _) => apply quiet_Sample
  | |- quiet _ => by auto with quiet
  | |- alike ?x ?x => reflexivity
  | |- alike _ _ => by split
  end.
Create HintDb quiet.
#[export] Hint Resolve quiet_FindImage quiet_FindFlavor quiet_FindSecGroup quiet_FindExternalNetwork quiet_PortMAC
  quiet_SetRouterRoutes quiet_SetRouterGateway quiet_WaitServerActive quiet_ServerHost quiet_LiveMigrateServer
  quiet_AttachInterface quiet_DetachInterface quiet_Scrape quiet_LookupMAC quiet_LookupFlows : quiet.

Section steps.
Context `{GoRange} `{Yaml} {W : Type}.
Context `{!Cloud W, !MetricsSource W, !StateFile W, !ReportFile W, !VMExec W, !AgentExec W, !Clock W, !World W}.
Context `{!CloudLaws W, !MetricsLaws W, !FileLaws W, !HostLaws W}.
Variables (cfg : HarnessConfig) (sc : Scenario) (path reportPath : string) (polls : Z → nat) (sinkDelay learnTimeout : Z).
Notation Act := (@Act W).
#[local] Ltac calms := repeat first [done|calm_step].

(** ** The shared waits and lookups *)

Lemma calm_scrape : calm (scrape (W := W) cfg).
Proof. rewrite /scrape. calms. Qed.
Lemma calm_project dsl : calm (project (W := W) dsl).
Proof. rewrite /project. calms. Qed.
Lemma calm_VMMAC vm : calm (VMMAC (W := W) vm).
Proof. rewrite /VMMAC. calms. Qed.
#[local] Ltac calms ::= repeat first [done|apply calm_scrape|apply calm_project|apply calm_VMMAC|calm_step].
Lemma calm_AttachRise baseline : calm (AttachRise (W := W) cfg path polls baseline).
Proof. rewrite /AttachRise /attachRound. calms. Qed.
Lemma calm_SSHReady vm addr timeout : calm (SSHReady (W := W) polls vm addr timeout).
Proof. rewrite /SSHReady /sshRound. calms. Qed.
Lemma calm_TakeCapture : calm (TakeCapture (W := W) cfg).
Proof. rewrite /TakeCapture. calms. Qed.
Lemma calm_sshOf vm : calm (sshOf (W := W) vm).
Proof. rewrite /sshOf. calms. Qed.
Lemma calm_snapshot : calm (snapshot (W := W) sc).
Proof. rewrite /snapshot /topology. calms. Qed.
Lemma calm_serverIDOf vm : calm (serverIDOf (W := W) vm).
Proof. rewrite /serverIDOf. calms. Qed.
Lemma calm_liveIDs n s : calm (liveIDs_of (W := W) n s).
Proof. rewrite /liveIDs_of. calms. Qed.
Lemma calm_liveNetwork n snap : calm (liveNetwork (W := W) cfg n snap).
Proof. rewrite /liveNetwork. calms. Qed.
Lemma calm_placement : calm (resolvePlacementNow (W := W) cfg sc).
Proof. rewrite /resolvePlacementNow. calms. Qed.
Lemma calm_portOf p : calm (portOf (W := W) p).
Proof. rewrite /portOf. calms. Qed.
#[local] Ltac calms ::= repeat first [done|apply calm_scrape|apply calm_project|apply calm_VMMAC|apply calm_AttachRise
  |apply calm_SSHReady|apply calm_sshOf|apply calm_snapshot|apply calm_serverIDOf|apply calm_liveNetwork|apply calm_portOf
  |calm_step].

(** ** Traffic *)

Lemma calm_unresolved l missing : calm (unresolvedFrom (W := W) l missing).
Proof. revert missing. induction l as [|[p u] l IH]; intros missing; cbn [unresolvedFrom]; calms. Qed.
Lemma calm_waitReady ready vm addr : calm (waitReady (W := W) polls ready vm addr).
Proof. rewrite /waitReady. calms. Qed.
Lemma calm_sink : calm (sleepSinkDelay (W := W) sinkDelay).
Proof. rewrite /sleepSinkDelay. calms. Qed.
Lemma calm_exec what addr cmd : calm (exec_ (W := W) what addr cmd).
Proof. rewrite /exec_. calms. Qed.
Lemma calm_fipOf vm : calm (fipOf (W := W) vm).
Proof. rewrite /fipOf. calms. Qed.
Lemma calm_topology : calm (topology (W := W) sc).
Proof. apply calm_ofOption. Qed.
#[local] Ltac flows := repeat first [done|apply calm_waitReady|apply calm_sink|apply calm_exec|apply calm_fipOf|apply calm_topology
  |calm_step].
Lemma calm_memberSinks lb l ready : calm (memberSinks (W := W) sc polls lb l ready).
Proof. revert ready. induction l as [|m l IH]; intros ready; cbn [memberSinks]; rewrite /memberSink; flows. Qed.
Lemma calm_runFlow i f ready : calm (runFlow (W := W) sc polls sinkDelay i f ready).
Proof. rewrite /runFlow /runLBFlow /runVMFlow /runExternalFlow; repeat first [apply calm_memberSinks|progress flows]. Qed.
Lemma calm_runFlows l i ready : calm (runFlows (W := W) sc polls sinkDelay i l ready).
Proof.
  revert i ready. induction l as [|f l IH]; intros i ready; cbn [runFlows]; [apply calm_ret|].
  apply calm_bind; [apply calm_during, calm_runFlow|]. intros ?. apply IH.
Qed.
Lemma calm_drive o : calm (driveStep (W := W) cfg sc path polls sinkDelay learnTimeout o).
Proof.
  rewrite /driveStep /DriveRun /recheckAttach /waitMACsLearned /captureBaseline /unresolvedMACs.
  repeat first [apply calm_runFlows|apply calm_unresolved|progress calms].
Qed.
Lemma calm_ingress vm bytes : calm (ingressFlow (W := W) cfg sc path polls sinkDelay learnTimeout vm bytes).
Proof.
  rewrite /ingressFlow. destruct RunWithStdin as [run|] eqn:E; [|apply calm_fail].
  apply calm_bind; [apply calm_drive|intros ?]. calms. by eapply quiet_Stdin.
Qed.
Lemma still_stabilize sc' rs base n (w : W) : let w' := (stabilize sc' cfg rs base n w).1 in
  live w' = live w ∧ ∀ id, used w id → used w' id.
Proof.
  revert w. induction n as [|n IH]; intros w; cbn [stabilize];
    destruct (quiet_Sample (Agents (H_Cluster cfg))) as [Hf Hl]; specialize (Hl w); destruct (Hf w) as [_ Hu];
    destruct (SampleAcross _ w) as [w1 [e|snap]]; simpl in *; [done| |done|];
    (destruct (evaluate _ _ _ _ _ _) as [e|rep]; [done|]); (destruct (RP_OK rep); [done|]); [done|].
  destruct (quiet_Pause assertPollInterval) as [Hf2 Hl2]; specialize (Hl2 w1); destruct (Hf2 w1) as [_ Hu2].
  destruct (Pause assertPollInterval w1) as [w2 [e|[]]]; simpl in *; [split; [congruence|by eauto]|].
  destruct (IH w2) as [Hl3 Hu3]. split; [congruence|by eauto].
Qed.
Lemma still_saveReport rep p (w : W) : live (saveReport rep p w).1 = live w ∧ ∀ id, used w id → used (saveReport rep p w).1 id.
Proof.
  rewrite /saveReport. destruct (quiet_MkdirAll (Dir p)) as [Hf Hl]. specialize (Hl w). destruct (Hf w) as [_ Hu].
  destruct (MkdirAll (Dir p) w) as [w1 [e|[]]]; simpl in *; [done|]. destruct (forallb _ _); [|done].
  destruct (live_WriteReport p rep w1) as [Hl2 Hu2]. destruct (WriteReport p rep w1) as [w2 [e|[]]]; simpl in *;
    (split; [congruence|by eauto]).
Qed.
Lemma calm_addRows rows : calm (addRows (W := W) rows).
Proof.
  apply calm_put. intros v. revert v. induction rows as [|row rows IH]; intros v; [done|]. etrans; [|apply IH]. by split.
Qed.
Lemma calm_assert l n : calm (assertStep (W := W) cfg sc reportPath polls l n).
Proof.
  intros [w v]. rewrite /assertStep /AssertRun. cbn [fst snd]. destruct (decide _); [done|].
  match goal with |- context [stabilize ?a ?b ?c ?d ?e ?f] => destruct (still_stabilize a c d e f) as [Hl Hu];
    destruct (stabilize a b c d e f) as [w1 [err|rep]] end; simpl in *; [by split|].
  destruct (decide _); [by split|]. destruct (still_saveReport rep reportPath w1) as [Hl2 Hu2].
  destruct (saveReport rep reportPath w1) as [w2 [err|[]]]; simpl in *; [by split; simpl; [congruence|eauto|]|].
  destruct (calm_addRows (noted n <$> RP_Rows rep) (w2, v)) as [Hl3 Hu3 Ha]. simpl in *.
  split; simpl; [congruence|by eauto|done].
Qed.

(** ** Machines, networks and ports *)

Lemma calm_migrate vm target strict timeout : calm (migrate (W := W) cfg path polls vm target strict timeout).
Proof. rewrite /migrate /landed /rebase. calms. Qed.
Lemma calm_setRouterRoutes r l : calm (setRouterRoutes (W := W) r l).
Proof. rewrite /setRouterRoutes /routerOf. calms. Qed.
Lemma calm_setRouterGateway r n : calm (setRouterGateway (W := W) cfg sc r n).
Proof. rewrite /setRouterGateway /routerOf. calms. Qed.
Lemma calm_addRoute vm cidr via : calm (addRoute (W := W) polls vm cidr via).
Proof. rewrite /addRoute. calms. Qed.
Lemma calm_enableForwarding vm : calm (enableForwarding (W := W) polls vm).
Proof. rewrite /enableForwarding. calms. Qed.
Lemma calm_boundOn mac id urls bound : calm (boundOn (W := W) mac id urls bound).
Proof. revert bound. induction urls as [|u urls IH]; intros bound; cbn [boundOn]; calms. Qed.
Lemma calm_awaitPortBinding vm port timeout n : calm (awaitPortBinding (W := W) cfg polls vm port timeout n).
Proof. rewrite /awaitPortBinding. repeat first [apply calm_boundOn|progress calms]. Qed.
Lemma calm_reattachPort vm port : calm (reattachPort (W := W) cfg path polls vm port).
Proof. rewrite /reattachPort. calms. Qed.
Lemma calm_dropRound target : calm (dropRound (W := W) cfg path target).
Proof. rewrite /dropRound. calms. Qed.
Lemma calm_configureNIC vm dev cidr : calm (configureNIC (W := W) polls vm dev cidr).
Proof. rewrite /configureNIC. calms. Qed.
Lemma calm_setNICMAC vm dev mac : calm (setNICMAC (W := W) polls vm dev mac).
Proof. rewrite /setNICMAC. calms. Qed.

(** ** The agent's host *)

Lemma calm_controller node : calm (controller (W := W) cfg node).
Proof. rewrite /controller. calms. Qed.
Lemma calm_Baseline c : calm (AgentCtl.Baseline (W := W) c).
Proof. rewrite /AgentCtl.Baseline. calms. Qed.
Lemma calm_ApplyConfig c ch : calm (ApplyConfig (W := W) c ch).
Proof. rewrite /ApplyConfig /applySet. calms. Qed.
Lemma calm_debt node dr : calm (debt (W := W) node dr).
Proof. rewrite /debt. calms. Qed.
Lemma calm_Restart c cy : calm (Restart (W := W) c cy).
Proof. rewrite /Restart. calms. Qed.
Lemma calm_Stop c : calm (Stop (W := W) c).
Proof. rewrite /Stop. calms. Qed.
Lemma calm_Start c cy : calm (Start (W := W) c cy).
Proof. rewrite /Start. calms. Qed.
Lemma calm_awaitReady c pid taps n b : calm (awaitReady (W := W) c pid taps n b).
Proof.
  revert b. induction n as [|n IH]; intros b; cbn [awaitReady]; rewrite /readyRound; calms.
Qed.
Lemma calm_AwaitReady c pid taps timeout : calm (AwaitReady (W := W) polls c pid taps timeout).
Proof. apply calm_awaitReady. Qed.
Lemma calm_reloadAgent node set : calm (reloadAgent (W := W) cfg node set).
Proof. rewrite /reloadAgent /Reload. repeat first [apply calm_controller|apply calm_ApplyConfig|progress calms]. Qed.
Lemma calm_stripTC vm node : calm (stripTC (W := W) cfg vm node).
Proof. rewrite /stripTC /StripTC. repeat first [apply calm_controller|progress calms]. Qed.

(** ** Assertions *)

Lemma calm_monotone tenant n : calm (monotone (W := W) cfg tenant n).
Proof. rewrite /monotone. repeat first [apply calm_addRows|progress calms]. Qed.
Lemma calm_maxGrowth tenant zone budget n : calm (maxGrowth (W := W) cfg tenant zone budget n).
Proof. rewrite /maxGrowth. repeat first [apply calm_addRows|progress calms]. Qed.
Lemma calm_flowSum mac zone urls acc : calm (flowSum (W := W) mac zone urls acc).
Proof. revert acc. induction urls as [|u urls IH]; intros acc; cbn [flowSum]; calms. Qed.
Lemma calm_flowsFolded vm zone max timeout n : calm (flowsFolded (W := W) cfg polls vm zone max timeout n).
Proof. rewrite /flowsFolded /addRow_. repeat first [apply calm_flowSum|progress calms]. Qed.
Lemma calm_portSeries vm port min timeout n : calm (portSeries (W := W) cfg polls vm port min timeout n).
Proof. rewrite /portSeries /addRow_. calms. Qed.
Lemma calm_grown base value enough interval timeout : calm (grown (W := W) cfg polls base value enough interval timeout).
Proof. rewrite /grown. calms. Qed.
#[local] Ltac calms ::= repeat first [done|apply calm_scrape|apply calm_project|apply calm_VMMAC|apply calm_snapshot
  |apply calm_serverIDOf|apply calm_grown|apply calm_addRows|apply calm_flowSum|calm_step].
Lemma calm_zoneGrowth tenant zone dir min max timeout n :
  calm (zoneGrowth (W := W) cfg polls tenant zone dir min max timeout n).
Proof. rewrite /zoneGrowth /addRow_. calms. Qed.
Lemma calm_serverMonotone vm n : calm (serverMonotone (W := W) cfg vm n).
Proof. rewrite /serverMonotone. calms. Qed.
Lemma calm_within what base value budget n : calm (within (W := W) cfg what base value budget n).
Proof. rewrite /within /addRow_. calms. Qed.
Lemma calm_goneOn mac urls gone : calm (goneOn (W := W) mac urls gone).
Proof. revert gone. induction urls as [|u urls IH]; intros gone; cbn [goneOn]; calms. Qed.
Lemma calm_awaitSweep id timeout : calm (awaitSweep (W := W) cfg polls id timeout).
Proof. rewrite /awaitSweep /awaitMACSwept. repeat first [apply calm_goneOn|progress calms]. Qed.
Lemma calm_flowPeer router via zone min n : calm (flowPeer (W := W) cfg sc router via zone min n).
Proof. rewrite /flowPeer /addRow_. calms. Qed.
Lemma calm_assertAnomaly class min max timeout n : calm (assertAnomaly (W := W) cfg polls class min max timeout n).
Proof. rewrite /assertAnomaly /addRow_. calms. Qed.
Lemma calm_epoch node changed n : calm (epoch (W := W) cfg node changed n).
Proof. rewrite /epoch /addRow_. calms. Qed.
Lemma calm_grew what base value standard min timeout n :
  calm (grew (W := W) cfg polls what base value standard min timeout n).
Proof. rewrite /grew /addRow_. calms. Qed.
End steps.
