(* ===== verification/StepLedger.v ===== *)
(** * The ledger of a scripted run (internal/scenariotest/steps)

    Through every step of a script the run-state in memory lists what the run has made:
    the rules of the calls that make and take resources, the steps that use them, and
    the discipline on port names it takes, checked on the script before it runs. *)
From S2P Require Import Prelude GoStrings GoArgs GoJson NetIP Neutron Builder Scenario Cloud Recorded Realize RealizeSpec Assert StepEnv Drive AgentCtl StepActs StepAsserts Steps StepCalm.
From Stdlib Require Import SpecFloat.

(** ** Port names

    A deleting detach deletes one port and forgets every port of the name; so the names
    a script deletes that way must be the script's own, and each given to one port at
    a time. *)

Fixpoint detached (st : Step) : list string :=
  match st with
  | DetachPortStep _ port true => [port]
  | RestartAgentStep _ down => concat (map detached down)
  | _ => []
  end.
(** The detached names that are taken after a step, if it takes no name twice. *)
Definition takeName (D : list string) (x : string) (N : list string) : option (list string) :=
  if decide (x ∈ D ∧ x ∈ N) then None else Some (x :: N).
Definition freeName (x : string) (N : list string) : list string := List.filter (λ y, negb (bool_decide (y = x))) N.
Section taken.
Variable D : list string.
Fixpoint taken (st : Step) (N : list string) : option (list string) :=
  match st with
  | BootVMStep vm _ => takeName D vm N
  | AttachPortStep s => takeName D (At_ID s) N
  | DeleteVMStep vm => Some (freeName vm N)
  | DetachPortStep _ port true => Some (freeName port N)
  | RestartAgentStep _ down =>
      (fix all (l : list Step) (N : list string) : option (list string) :=
        match l with [] => Some N | st :: l => match taken st N with Some N => all l N | None => None end end) down N
  | _ => Some N
  end.
Fixpoint takenAll (l : list Step) (N : list string) : option (list string) :=
  match l with [] => Some N | st :: l => match taken st N with Some N => takenAll l N | None => None end end.
End taken.
Definition detachedAll (l : list Step) : list string := concat (map detached l).
(** [names] are those of the ports there are. *)
Definition tidy (names : list string) (script : list Step) : bool :=
  forallb (λ d, negb (bool_decide (d ∈ names))) (detachedAll script) && bool_decide (takenAll (detachedAll script) script [] ≠ None).

Definition isPort (d : string) (p : ResourceRef) : bool := bool_decide (Ref_DSLID p = d).
Definition slots (D N : list string) (ports : list ResourceRef) : Prop :=
  ∀ d, d ∈ D → (length (List.filter (isPort d) ports) ≤ if decide (d ∈ N) then 1 else 0)%nat.

Lemma slots_start D ports : (∀ d p, d ∈ D → p ∈ ports → Ref_DSLID p ≠ d) → slots D [] ports.
Proof.
  intros Hd d Hin. destruct (List.filter _ _) as [|p l] eqn:E; [simpl; lia|]. exfalso.
  assert (In p (List.filter (isPort d) ports)) as [Hp Hi]%filter_In by (rewrite E; by left).
  apply (Hd d p Hin); [by apply list_elem_of_In|]. by apply bool_decide_eq_true in Hi.
Qed.
Lemma slots_take D x N N' ports p : slots D N ports → takeName D x N = Some N' → Ref_DSLID p = x → slots D N' (ports ++ [p]).
Proof.
  rewrite /takeName. intros Hs. case_decide as Hx; [done|]. intros [= <-] E d Hd. specialize (Hs d Hd).
  rewrite List.filter_app length_app. destruct (decide (x = d)) as [Heq|Hne].
  - assert (List.filter (isPort d) [p] = [p]) as -> by (rewrite /= /isPort bool_decide_true //; congruence).
    destruct (decide (d ∈ N)) as [Hin|_]; [destruct Hx; by rewrite Heq|].
    destruct (decide (d ∈ x :: N)) as [_|Hn]; [simpl; lia|]. destruct Hn. rewrite Heq. by left.
  - assert (List.filter (isPort d) [p] = []) as -> by (rewrite /= /isPort bool_decide_false //; congruence).
    rewrite Nat.add_0_r. etrans; [exact Hs|]. destruct (decide (d ∈ N)) as [Hin|_]; [|lia].
    destruct (decide (d ∈ x :: N)) as [_|Hn]; [lia|]. destruct Hn. by right.
Qed.
Lemma slots_free D x N ports : slots D N ports → slots D (freeName x N) (List.filter (negb ∘ isOf x) ports).
Proof.
  intros Hs d Hd. specialize (Hs d Hd). destruct (decide (d = x)) as [->|Hne].
  - clear Hs. destruct (List.filter (isPort x) (List.filter (negb ∘ isOf x) ports)) as [|p l] eqn:E; [apply Nat.le_0_l|]. exfalso.
    assert (In p (List.filter (isPort x) (List.filter (negb ∘ isOf x) ports))) as [[_ Hn]%filter_In Hi]%filter_In
      by (rewrite E; by left).
    rewrite /= /isOf in Hn. rewrite /isPort in Hi. by destruct (bool_decide (Ref_DSLID p = x)).
  - assert (List.filter (isPort d) (List.filter (negb ∘ isOf x) ports) = List.filter (isPort d) ports) as ->.
    { clear Hs. induction ports as [|p ports IH]; [done|]. cbn [List.filter].
      assert ((negb ∘ isOf x) p = negb (bool_decide (Ref_DSLID p = x))) as -> by done.
      destruct (decide (Ref_DSLID p = x)) as [E|E].
      - rewrite bool_decide_true //= IH. assert (isPort d p = false) as -> by (apply bool_decide_false; congruence). done.
      - by rewrite bool_decide_false //= IH. }
    etrans; [exact Hs|]. case_decide as Hin; [|lia]. rewrite decide_True; [|done]. apply list_elem_of_In, filter_In.
    split; [by apply list_elem_of_In|]. by rewrite bool_decide_false.
Qed.

(** ** The invariant *)

Section ledger.
Context `{GoRange} `{Yaml} {W : Type}.
Context `{!Cloud W, !MetricsSource W, !StateFile W, !ReportFile W, !VMExec W, !AgentExec W, !Clock W, !World W}.
Context `{!CloudLaws W, !MetricsLaws W, !FileLaws W, !HostLaws W}.
Variables (cfg : HarnessConfig) (sc : Scenario) (path reportPath : string) (polls : Z → nat) (sinkDelay learnTimeout : Z).
(** The resources the run started from, the ids used by then, the run and its projects. *)
Variables (l0 : Live) (u0 : string → Prop) (runID : string) (P0 : gmap string ProjectRef) (D : list string).
Hypothesis closed0 : ∀ q j, l0 !! q = Some j → u0 (I_Network j) ∧ u0 (I_Subnet j).
Notation St := (W * Env)%type.
Notation Act := (@Act W).
Local Open Scope go_scope.

Record ours (rs : RunState) : Prop := mkOurs {
  os_id : R_RunID rs = runID; os_prefix : R_Prefix rs = H_Prefix cfg; os_projects : R_Projects rs = P0 }.
Record ledger (N : list string) (extra : gset key) (s : St) : Prop := mkLedger {
  lg_covers : covers l0 (live s.1) (v_rs s.2) extra; lg_ours : ours (v_rs s.2);
  lg_used : ∀ id, u0 id → used s.1 id; lg_slots : slots D N (R_Ports (v_rs s.2)) }.
(** An error leaves at most one resource unlisted. *)
Definition Ended (_ : runErr) (s : St) : Prop :=
  ∃ extra, (size extra ≤ 1)%nat ∧ covers l0 (live s.1) (v_rs s.2) extra ∧ ours (v_rs s.2).
Definition known (proj : string) : Prop := ∃ dsl p, P0 !! dsl = Some p ∧ PR_ID p = proj.

Lemma ledger_ended N extra s e : (size extra ≤ 1)%nat → ledger N extra s → Ended e s.
Proof. intros Hsz [Hc Ho _ _]. by exists extra. Qed.
Lemma small_empty : (size (∅ : gset key) ≤ 1)%nat.
Proof. rewrite size_empty. lia. Qed.
Lemma small_one (r : key) : (size ({[r]} : gset key) ≤ 1)%nat.
Proof. by rewrite size_singleton. Qed.

Lemma ledger_still N extra s s' : ledger N extra s → still s s' → ledger N extra s'.
Proof.
  intros [Hc [O1 O2 O3] Hu Hs] [Hl Hu' [A1 A2 A3 A4 A5 A6 A7 A8 A9 A10]].
  assert (recorded (v_rs s'.2) = recorded (v_rs s.2)) as E by (rewrite /recorded /recordedKeys; congruence).
  split; [|split; congruence|by eauto|by rewrite A7]. rewrite Hl. eapply covers_move; [exact Hc|by rewrite E|].
  intros i [H1 (dsl & p & H2 & H3)]. split; [by rewrite /run_prefix A1 A2|]. exists dsl, p. by rewrite A3.
Qed.
Definition step_ok (N : list string) (m : Act ()) (N' : list string) : Prop :=
  triple (ledger N ∅) m (λ _, ledger N' ∅) Ended.
Lemma l_calm {A} (m : Act A) N extra : calm m → (size extra ≤ 1)%nat → triple (ledger N extra) m (λ _, ledger N extra) Ended.
Proof.
  intros Hm Hsz s Hs. specialize (Hm s). destruct (m s) as [s' [e|a]]; [|by eapply ledger_still].
  eapply ledger_ended; [done|by eapply ledger_still].
Qed.
Lemma step_calm N (m : Act ()) : calm m → step_ok N m N.
Proof. intros Hm. apply l_calm; [done|apply small_empty]. Qed.
(** A fact that does not depend on the state. *)
Lemma l_pure {A} (φ : Prop) (m : Act A) P Q X : (φ → triple P m Q X) → triple (λ s, P s ∧ φ) m Q X.
Proof. intros Hm s [HP Hφ]. by apply Hm. Qed.
Lemma l_project dsl N : triple (ledger N ∅) (project dsl) (λ ref s, ledger N ∅ s ∧ known (PR_ID ref)) Ended.
Proof.
  intros [w v] Hl. rewrite /project /andThen /see /gets /=. destruct (R_Projects (v_rs v) !! dsl) as [ref|] eqn:E.
  - simpl. split; [done|]. exists dsl, ref. by rewrite -(os_projects _ (lg_ours _ _ _ Hl)).
  - by eapply ledger_ended; [apply small_empty|].
Qed.

(** ** What makes and what takes *)

Lemma l_make {A} (c : Call W A) (id_of : A → string) k i N :
  (∀ w, creates id_of k i w (c w).1 (c w).2) → keepsFiles c →
  (k = KServer → HasPrefix (I_Name i) (Mangle (H_Prefix cfg) runID "") = true ∧ known (I_Project i)) →
  triple (ledger N ∅) (ask c) (λ a, ledger N {[(k, id_of a)]}) Ended.
Proof.
  intros Hc Hf Hs [w v] [Hv [O1 O2 O3] Hu Hsl]. rewrite /ask /=. destruct (Hf w) as [_ Hu'].
  assert (k = KServer → run_server (v_rs v) i) as Hsv.
  { intros E. destruct (Hs E) as [Hp Hk]. split; [by rewrite /run_prefix O1 O2|]. by rewrite /project_known O3. }
  pose proof (covers_create id_of k i _ w _ _ _ Hv (Hc w) Hsv) as Hnew.
  assert (∀ q j, l0 !! q = Some j → used w (I_Network j) ∧ used w (I_Subnet j)) as Hcl.
  { intros q j Hq. destruct (closed0 q j Hq). split; by apply Hu. }
  specialize (Hnew Hcl). destruct (c w) as [w' [e|a]]; simpl in *.
  - destruct Hnew as (extra & Hsz & Hnew). by exists extra.
  - split; [done|done|by intros id Hid%Hu; apply Hu'|done].
Qed.
Lemma l_note f r N N' : (∀ rs, recorded (f rs) = {[r]} ∪ recorded rs) →
  (∀ rs, R_RunID (f rs) = R_RunID rs ∧ R_Prefix (f rs) = R_Prefix rs ∧ R_Projects (f rs) = R_Projects rs) →
  (∀ rs, slots D N (R_Ports rs) → slots D N' (R_Ports (f rs))) →
  triple (ledger N {[r]}) (note path f) (λ _, ledger N' ∅) Ended.
Proof.
  intros Hr Hf Hsl. eapply (triple_bind _ _ _ (λ _, ledger N' ∅)); [|intros ?; apply step_calm, calm_save].
  apply triple_modify. intros [w v] [Hc [O1 O2 O3] Hu Hs]. destruct (Hf (v_rs v)) as (F1 & F2 & F3).
  simpl in *. split; simpl; [|split; simpl; congruence|done|by apply Hsl]. eapply covers_move; [exact Hc| |].
  - by rewrite Hr union_empty_r_L (comm_L (∪)).
  - intros i [H1 (dsl & p & H2 & H3)]. split; [by rewrite /run_prefix F1 F2|]. exists dsl, p. by rewrite F3.
Qed.

(** Between a delete and the list without it: [gone] are the keys deleted. *)
Definition cut (rs : RunState) (N : list string) (gone : list key) (s : St) : Prop :=
  ledger N ∅ s ∧ v_rs s.2 = rs ∧ ∀ r, r ∈ gone → live s.1 !! r = None.
Lemma covers_delete l rs r : covers l0 l rs ∅ → r ∈ recorded rs → covers l0 (delete r l) rs ∅.
Proof.
  intros [H1 H2 H3 H4 H5 H6] Hr. assert (l0 !! r = None) as Hn by (apply H3, elem_of_union; by left). split; [|etrans; [|exact H2]|done..|].
  - apply map_subseteq_spec. intros q i Hq. destruct (decide (q = r)) as [->|Hne]; [congruence|].
    rewrite lookup_delete_ne //. by eapply lookup_weaken.
  - rewrite dom_delete_L. apply subseteq_difference_l. done.
  - intros s i [_ Hs]%lookup_delete_Some. by apply H6.
Qed.
Lemma cut_step rs N gone (c : Call W ()) r : keepsFiles c → r ∈ recorded rs →
  (∀ w, live (c w).1 = live w ∨ live (c w).1 = delete r (live w)) →
  triple (cut rs N gone) (ask c) (λ _ s, cut rs N gone s ∧ ∃ w, s.1 = (c w).1 ∧ (c w).2 = inr ()) Ended.
Proof.
  intros Hf Hr Hc [w v] ([Hv Ho Hu Hs] & E & Hg). rewrite /ask /=. destruct (Hf w) as [_ Hu']. simpl in *. subst rs.
  assert (covers l0 (live (c w).1) (v_rs v) ∅) as Hcov.
  { destruct (Hc w) as [->| ->]; [done|by apply covers_delete]. }
  assert (∀ r', r' ∈ gone → live (c w).1 !! r' = None) as Hg'.
  { intros r' Hr'. destruct (Hc w) as [->| ->]; [by apply Hg|]. apply lookup_delete_None. right. by apply Hg. }
  destruct (c w) as [w' [e|[]]] eqn:Ec; simpl in *; [by exists ∅; split; [apply small_empty|]|].
  split; [|by exists w; rewrite Ec]. split; [|by split]. split; [done..|by intros id Hid%Hu; apply Hu'|done].
Qed.
Lemma cut_delete rs N gone (c : Call W ()) r : keepsFiles c → r ∈ recorded rs →
  (∀ w, deletes r (live w) (live (c w).1) (c w).2) →
  triple (cut rs N gone) (ask c) (λ _, cut rs N (r :: gone)) Ended.
Proof.
  intros Hf Hr Hc. eapply triple_post; [apply (cut_step rs N gone c r Hf Hr)|].
  - intros w. specialize (Hc w). destruct (c w).2 as [e|[]]; simpl in Hc; [done|by right].
  - intros [] s [(Hl & E & Hg) (w & Ew & Er)]. split; [done|]. split; [done|].
    intros r' [->|Hr']%elem_of_cons; [|by apply Hg]. specialize (Hc w). rewrite Er in Hc. rewrite Ew Hc. apply lookup_delete_eq.
Qed.
(** A loop that deletes the selected. *)
Lemma cut_each {A} rs N (l : list A) (sel : A → bool) (f : A → Act ()) (r : A → key) gone :
  (∀ x gone, x ∈ l → sel x = true → triple (cut rs N gone) (f x) (λ _, cut rs N (r x :: gone)) Ended) →
  triple (cut rs N gone) (forEach l (λ x, if sel x then f x else ret ()))
    (λ _ s, cut rs N gone s ∧ ∀ x, x ∈ l → sel x = true → live s.1 !! r x = None) Ended.
Proof.
  revert gone. induction l as [|x l IH]; intros gone Hf; cbn [forEach].
  - intros s Hs. split; [done|]. intros x Hx. by apply elem_of_nil in Hx.
  - assert (∀ y gone, y ∈ l → sel y = true → triple (cut rs N gone) (f y) (λ _, cut rs N (r y :: gone)) Ended) as Hl.
    { intros y g Hy. apply Hf. by right. }
    destruct (sel x) eqn:E.
    + eapply triple_bind; [apply Hf; [left|done]|]. intros [].
      eapply triple_post; [by apply IH|]. intros [] s [(Hle & Hrs & Hg) Hall]. split.
      * split; [done|]. split; [done|]. intros r' Hr'. apply Hg. by right.
      * intros y [->|Hy]%elem_of_cons Hsel; [apply Hg; left|by apply Hall].
    + eapply (triple_bind _ _ _ (λ _, cut rs N gone)); [by intros s|]. intros []. eapply triple_post; [by apply IH|].
      intros [] s [Hc Hall]. split; [done|]. intros y [->|Hy]%elem_of_cons Hsel; [congruence|by apply Hall].
Qed.
(** The list without what is gone. *)
Lemma l_drop f rs N N' (P : St → Prop) : recorded (f rs) ⊆ recorded rs →
  (R_RunID (f rs) = R_RunID rs ∧ R_Prefix (f rs) = R_Prefix rs ∧ R_Projects (f rs) = R_Projects rs) →
  slots D N' (R_Ports (f rs)) →
  (∀ s, P s → ledger N ∅ s ∧ v_rs s.2 = rs ∧ ∀ r, r ∈ recorded rs → r ∈ recorded (f rs) ∨ live s.1 !! r = None) →
  triple P (note path f) (λ _, ledger N' ∅) Ended.
Proof.
  intros Hsub (F1 & F2 & F3) Hsl HP. eapply (triple_bind _ _ _ (λ _, ledger N' ∅)); [|intros ?; apply step_calm, calm_save].
  apply triple_modify. intros [w v] Hs. destruct (HP _ Hs) as ([[H1 H2 H3 H4 H5 H6] [O1 O2 O3] Hu _] & E & Hg). simpl in *. subst rs.
  rewrite !union_empty_r_L in H2, H3, H4, H5.
  split; simpl; [|split; simpl; congruence|done|done]. split; rewrite ?union_empty_r_L.
  - done.
  - intros r Hr. pose proof (H2 r Hr) as Hin. rewrite !elem_of_union in Hin |- *. destruct Hin as [?|Hin]; [by left|right].
    destruct (Hg r Hin) as [?|Hn]; [done|]. apply elem_of_dom in Hr as [i Hi]. by rewrite Hn in Hi.
  - intros r Hr. by apply H3, Hsub.
  - intros r Hr. by apply H4, Hsub.
  - intros r i Hi. destruct (H5 r i Hi) as [Hn1 Hn2]. split; intros Hr%Hsub; done.
  - intros s i Hi Hn. destruct (H6 s i Hi Hn) as [G1 (dsl & p & G2 & G3)]. split; [by rewrite /run_prefix F1 F2|].
    exists dsl, p. by rewrite F3.
Qed.

(** ** The steps that make and take *)

Notation ok m := (step_ok _ m _).
#[local] Ltac calmly t := eapply triple_bind; [apply l_calm; [t|first [apply small_empty|apply small_one]]|intros ?; cbv beta].
#[local] Ltac shape := repeat first [done|apply calm_scrape|apply calm_project|apply calm_VMMAC|apply calm_AttachRise|apply calm_snapshot
  |apply calm_serverIDOf|apply calm_liveIDs|apply calm_liveNetwork|apply calm_placement|apply calm_portOf|apply calm_sshOf|calm_step].
#[local] Ltac quietly := calmly shape.
Lemma rec_dropPorts d rs : recorded (dropPorts d rs) =
  list_to_set (recordedKeys (setPorts [] rs)) ∪ list_to_set (keysOf KPort (List.filter (negb ∘ isOf d) (R_Ports rs))).
Proof.
  rewrite /recorded /recordedKeys /dropPorts /setPorts /= !list_to_set_app_L. set_solver.
Qed.
Lemma rec_ports rs : recorded rs = list_to_set (recordedKeys (setPorts [] rs)) ∪ list_to_set (keysOf KPort (R_Ports rs)).
Proof. rewrite /recorded /recordedKeys /setPorts /= !list_to_set_app_L. set_solver. Qed.
Lemma elem_keysOf k l r : r ∈ keysOf k l ↔ ∃ x, x ∈ l ∧ r = (k, Ref_ID x).
Proof. rewrite /keysOf list_elem_of_fmap. split; intros (x & ? & ?); by exists x. Qed.
Lemma elem_filter_b {A} (f : A → bool) (l : list A) x : x ∈ List.filter f l ↔ x ∈ l ∧ f x = true.
Proof. by rewrite !list_elem_of_In filter_In. Qed.
Lemma dropPorts_sub d rs : recorded (dropPorts d rs) ⊆ recorded rs.
Proof.
  rewrite rec_dropPorts (rec_ports rs). intros r. rewrite !elem_of_union !elem_of_list_to_set !elem_keysOf.
  intros [?|(x & [Hx _]%elem_filter_b & ?)]; [by left|right; by exists x].
Qed.
Lemma dropPorts_lost d rs r : r ∈ recorded rs → r ∈ recorded (dropPorts d rs) ∨
  ∃ p, p ∈ R_Ports rs ∧ isOf d p = true ∧ r = (KPort, Ref_ID p).
Proof.
  rewrite rec_dropPorts (rec_ports rs). rewrite !elem_of_union !elem_of_list_to_set !elem_keysOf.
  intros [?|(x & Hx & ->)]; [by left; left|]. destruct (isOf d x) eqn:E; [right; by exists x|]. left. right. exists x.
  split; [|done]. apply elem_filter_b. by rewrite /= E.
Qed.
#[local] Ltac listed := apply recorded_elem; rewrite /recordedKeys !elem_of_app /keysOf.
Lemma port_listed rs p : p ∈ R_Ports rs → (KPort, Ref_ID p) ∈ recorded rs.
Proof. intros Hp. listed. do 3 right. left. apply list_elem_of_fmap. by exists p. Qed.
Lemma server_listed rs p : p ∈ R_Servers rs → (KServer, Ref_ID p) ∈ recorded rs.
Proof. intros Hp. listed. do 2 right. left. apply list_elem_of_fmap. by exists p. Qed.
Lemma fip_listed rs p : p ∈ R_FIPs rs → (KFIP, FR_ID p) ∈ recorded rs.
Proof. intros Hp. listed. right. left. apply list_elem_of_fmap. by exists p. Qed.

(** A read of the state, kept beside the ledger. *)
Lemma cut_read {A} (f : RunState → A) rs N gone : triple (cut rs N gone) (stateOf f) (λ a s, cut rs N gone s ∧ a = f rs) Ended.
Proof. intros [w v] (Hl & E & Hg). by rewrite /stateOf /see /gets /= -E. Qed.
Lemma cut_start {A} N (m : Act A) Q X : (∀ rs, slots D N (R_Ports rs) → triple (cut rs N []) m Q X) → triple (ledger N ∅) m Q X.
Proof.
  intros Hm s Hs. apply (Hm (v_rs s.2)); [by apply (lg_slots _ _ _ Hs)|]. split; [done|]. split; [done|].
  intros r Hr. by apply elem_of_nil in Hr.
Qed.
Lemma delete_keeps (c : W → W * (string + ())) r : (∀ w, deletes r (live w) (live (c w).1) (c w).2) →
  ∀ w, live (c w).1 = live w ∨ live (c w).1 = delete r (live w).
Proof. intros Hc w. specialize (Hc w). destruct (c w).2; [done|by right]. Qed.
Lemma deleteServer_ok rs N gone srv : srv ∈ R_Servers rs →
  triple (cut rs N gone) (deleteServer srv) (λ _, cut rs N ((KServer, Ref_ID srv) :: gone)) Ended.
Proof.
  intros Hin%server_listed. eapply (triple_bind _ _ _ (λ _, cut rs N gone)); [|intros ?].
  - eapply triple_post; [apply (cut_step rs N gone _ (KServer, Ref_ID srv) (files_DeleteServer _ _) Hin)|by intros ? ? []].
    intros w. apply law_DeleteServer.
  - apply cut_delete; [apply files_WaitServerGone|done|]. intros w. apply law_WaitServerGone.
Qed.
Lemma deleteVM_ok N vm : step_ok N (deleteVM path vm) (freeName vm N).
Proof.
  rewrite /step_ok /deleteVM. quietly. quietly. apply cut_start. intros rs Hsl.
  eapply triple_bind; [apply cut_read|intros fips; cbv beta]. apply l_pure. intros ->.
  eapply (triple_bind _ _ _ (λ _, cut rs N [])).
  { apply (triple_forEach (R_FIPs rs) (λ f, if decide (FR_VMID f = vm) then ask (DeleteFIP (FR_ProjectID f) (FR_ID f)) else ret ())).
    intros f Hf. case_decide; [|by intros s]. eapply triple_post; [apply (cut_delete rs N [] _ (KFIP, FR_ID f))|].
    - apply files_DeleteFIP.
    - by apply fip_listed.
    - intros w. apply law_DeleteFIP.
    - intros ? s (Hl & E & Hg). split; [done|]. split; [done|]. intros r Hr. by apply elem_of_nil in Hr. }
  intros ?. eapply triple_bind; [apply cut_read|intros servers; cbv beta]. apply l_pure. intros ->.
  eapply triple_bind; [apply (cut_each rs N (R_Servers rs) (isOf vm) deleteServer (λ s, (KServer, Ref_ID s)) [])|intros ?; cbv beta].
  { intros x gone Hx _. by apply deleteServer_ok. }
  apply triple_pre with (P := cut rs N []); [|by intros s []].
  eapply triple_bind; [apply cut_read|intros ports; cbv beta]. apply l_pure. intros ->.
  eapply triple_bind; [apply (cut_each rs N (R_Ports rs) (isOf vm) (λ p, ask (DeletePort (Ref_ProjectID p) (Ref_ID p)))
    (λ p, (KPort, Ref_ID p)) [])|intros ?; cbv beta].
  { intros x gone Hx _. apply cut_delete; [apply files_DeletePort|by apply port_listed|]. intros w. apply law_DeletePort. }
  apply (l_drop _ rs N); [apply dropPorts_sub|done|by apply slots_free|].
  intros s [(Hl & E & _) Hg]. split; [done|]. split; [done|]. intros r [?|(p & Hp & Ho & ->)]%(dropPorts_lost vm); [by left|].
  right. by apply Hg.
Qed.

(** The project of a declaration, and the name of what the run creates. *)
Lemma l_mangle N dsl : triple (ledger N ∅) (mangle cfg dsl)
  (λ n s, ledger N ∅ s ∧ n = Mangle (H_Prefix cfg) runID dsl) Ended.
Proof. intros [w v] Hl. rewrite /mangle /stateOf /see /gets /=. split; [done|]. by rewrite (os_id _ (lg_ours _ _ _ Hl)). Qed.
#[local] Ltac in_project := eapply triple_bind; [apply l_project|intros ?; cbv beta; apply l_pure; intros ?].
#[local] Ltac named := eapply triple_bind; [apply l_mangle|intros ?; cbv beta; apply l_pure; intros ->].
#[local] Ltac created law files := eapply triple_bind;
  [eapply l_make; [intros w; apply law|apply files|]; try done|intros ?; cbv beta].
#[local] Ltac listing lemma N' := eapply (triple_bind _ _ _ (λ _, ledger N' ∅));
  [eapply l_note; [intros; apply lemma|done|]; try done|intros ?; cbv beta].
Lemma associateFIP_ok N vm network : step_ok N (associateFIP cfg sc path vm network) N.
Proof.
  rewrite /step_ok /associateFIP. quietly. quietly. quietly. in_project. quietly. quietly. quietly.
  created law_CreateFIP files_CreateFIP. eapply l_note; [intros; apply rec_fip|done|done].
Qed.
Lemma bootVM_ok N N' vm macFrom : takeName D vm N = Some N' → step_ok N (bootVM cfg sc path polls vm macFrom) N'.
Proof.
  intros Htake. rewrite /step_ok /bootVM. quietly. quietly. quietly. in_project. quietly. quietly. cbv zeta.
  quietly. quietly. quietly. quietly. quietly. named.
  created law_CreatePort files_CreatePort. quietly.
  listing rec_port N'. { intros rs Hs. by eapply slots_take. }
  quietly. created law_CreateServer files_CreateServer.
  { intros _. split; [rewrite /= Mangle_prefix; apply prefix_HasPrefix|done]. }
  listing rec_server N'. quietly. created law_CreateFIP files_CreateFIP. listing rec_fip N'.
  apply step_calm, calm_AttachRise.
Qed.
Lemma attachStep_ok N N' s : takeName D (At_ID s) N = Some N' → step_ok N (attachPort cfg sc path polls s) N'.
Proof.
  intros Htake. rewrite /step_ok /attachPort. quietly. cbv zeta. quietly. in_project. quietly. quietly. quietly. quietly. quietly. named.
  created law_CreatePort files_CreatePort. quietly.
  listing rec_port N'. { intros rs Hs. by eapply slots_take. }
  quietly. apply step_calm, calm_AttachRise.
Qed.

Lemma deleteFIP_ok N vm network provider : step_ok N (deleteFIP path vm network provider) N.
Proof.
  rewrite /step_ok /deleteFIP. apply cut_start. intros rs Hsl.
  eapply triple_bind; [apply cut_read|intros fips; cbv beta]. apply l_pure. intros ->.
  eapply triple_bind; [apply (cut_each rs N (R_FIPs rs) (fipMatches vm network provider)
    (λ f, ask (DeleteFIP (FR_ProjectID f) (FR_ID f))) (λ f, (KFIP, FR_ID f)) [])|intros ?; cbv beta].
  { intros x gone Hx _. apply cut_delete; [apply files_DeleteFIP|by apply fip_listed|]. intros w. apply law_DeleteFIP. }
  destruct (existsb _ _); [|by intros s [(Hl & _) _]; eapply ledger_ended; [apply small_empty|]].
  apply (l_drop _ rs N); [|done|done|].
  - intros r. rewrite !recorded_elem /recordedKeys /setFIPs /= !elem_of_app. 
    intros [?|[(f & -> & [Hf _]%elem_filter_b)%list_elem_of_fmap|?]]; [by left| |by right; right].
    right. left. apply list_elem_of_fmap. by exists f.
  - intros s [(Hl & E & _) Hg]. split; [done|]. split; [done|]. intros r.
    rewrite !recorded_elem /recordedKeys /setFIPs /= !elem_of_app.
    intros [?|[(f & -> & Hf)%list_elem_of_fmap|?]]; [by left; left| |by left; right; right].
    destruct (fipMatches vm network provider f) eqn:Em; [right; by apply Hg|]. left. right. left.
    apply list_elem_of_fmap. exists f. split; [done|]. apply elem_filter_b. by rewrite /= Em.
Qed.
(** The port the name stands for is the only one of the name. *)
Lemma slots_only N rs port p : slots D N (R_Ports rs) → port ∈ D → portRef port rs = Some p →
  ∀ q, q ∈ R_Ports rs → isOf port q = true → Ref_ID q = Ref_ID p.
Proof.
  intros Hs Hd Hp q Hq Ho. specialize (Hs port Hd).
  assert (∀ x, x ∈ R_Ports rs → isOf port x = true → x ∈ List.filter (isPort port) (R_Ports rs)) as Hin.
  { intros x Hx Hox. by apply elem_filter_b. }
  rewrite /portRef in Hp. destruct (list_find _ _) as [[n p']|] eqn:E; [|done]. injection Hp as [= ->].
  apply list_find_Some in E as (Hn & Hname & _).
  pose proof (Hin q Hq Ho) as H1. pose proof (Hin p (list_elem_of_lookup_2 _ _ _ Hn)) as H2.
  rewrite /isOf in H2. rewrite bool_decide_true // in H2. specialize (H2 eq_refl).
  assert (length (List.filter (isPort port) (R_Ports rs)) ≤ 1)%nat as Hlen by (case_decide; lia).
  destruct (List.filter _ _) as [|x [|y l]]; [by apply elem_of_nil in H1| |simpl in Hlen; lia].
  apply list_elem_of_singleton in H1 as ->. by apply list_elem_of_singleton in H2 as ->.
Qed.
(** A calm step keeps what a list of resources says. *)
Definition holding (F : RunState → Prop) (N : list string) (s : St) : Prop := ledger N ∅ s ∧ F (v_rs s.2).
Lemma l_holding {A} (m : Act A) (F : RunState → Prop) N : (∀ rs rs', alike rs rs' → F rs → F rs') → calm m →
  triple (holding F N) m (λ _, holding F N) Ended.
Proof.
  intros HF Hm s [Hl Hs]. specialize (Hm s). destruct (m s) as [s' [e|a]]; simpl in Hm.
  - eapply ledger_ended; [apply small_empty|by eapply ledger_still].
  - split; [by eapply ledger_still|]. eapply HF; [|done]. by destruct Hm.
Qed.
Lemma portOf_holds N port : triple (ledger N ∅) (portOf port) (λ ref, holding (λ rs, portRef port rs = Some ref) N) Ended.
Proof.
  intros [w v] Hl. rewrite /portOf /andThen /stateOf /see /gets /=. destruct (portRef port (v_rs v)) as [ref|] eqn:E; simpl.
  - case_decide; simpl; [|done]. by eapply ledger_ended; [apply small_empty|].
  - by eapply ledger_ended; [apply small_empty|].
Qed.
Lemma portRef_listed port rs ref : portRef port rs = Some ref → ref ∈ R_Ports rs.
Proof.
  rewrite /portRef. destruct (list_find _ _) as [[n p]|] eqn:E; [|done]. intros [= ->].
  apply list_find_Some in E as (Hn & _). by apply list_elem_of_lookup_2 in Hn.
Qed.
Lemma detachPort_ok N vm port (b : bool) : (b = true → port ∈ D) →
  step_ok N (detachPort cfg path polls vm port b) (if b then freeName port N else N).
Proof.
  intros Hd. rewrite /step_ok /detachPort. eapply triple_bind; [apply portOf_holds|intros ref; cbv beta].
  pose (F := λ rs, portRef port rs = Some ref). change (λ rs, portRef port rs = Some ref) with F.
  assert (∀ rs rs', alike rs rs' → F rs → F rs') as HF by (intros rs rs' Ha; rewrite /F /portRef; by rewrite (al_ports _ _ Ha)).
  do 5 (eapply triple_bind; [apply l_holding; [done|repeat first [apply calm_dropRound|progress shape]]|intros ?; cbv beta zeta]).
  destruct b; [|by intros s [Hl _]]. intros s [Hl Hs]. revert s Hl Hs.
  enough (∀ rs, slots D N (R_Ports rs) → F rs → triple (cut rs N [])
    (ask (DeletePort (Ref_ProjectID ref) (Ref_ID ref)) ;;; note path (dropPorts port)) (λ _, ledger (freeName port N) ∅) Ended) as He.
  { intros s Hl Hs. apply (He (v_rs s.2)); [apply (lg_slots _ _ _ Hl)|done|]. split; [done|]. split; [done|].
    intros r Hr. by apply elem_of_nil in Hr. }
  intros rs Hsl Href. eapply triple_bind; [apply cut_delete; [apply files_DeletePort|by apply port_listed, (portRef_listed port)|
    intros w; apply law_DeletePort]|intros ?; cbv beta].
  apply (l_drop _ rs N); [apply dropPorts_sub|done|by apply slots_free|].
  intros s (Hl & E & Hg). split; [done|]. split; [done|]. intros r [?|(p & Hp & Ho & ->)]%(dropPorts_lost port); [by left|].
  right. rewrite (slots_only N rs port ref Hsl (Hd eq_refl) Href p Hp Ho). apply Hg. left.
Qed.

(** ** Every step *)

Lemma ended_still e e' s s' : Ended e s → still s s' → Ended e' s'.
Proof.
  intros (extra & Hsz & Hc & [O1 O2 O3]) [Hl _ [A1 A2 A3 A4 A5 A6 A7 A8 A9 A10]].
  assert (recorded (v_rs s'.2) = recorded (v_rs s.2)) as E by (rewrite /recorded /recordedKeys; congruence).
  exists extra. split; [done|]. split; [|split; congruence]. rewrite Hl. eapply covers_move; [exact Hc|by rewrite E|].
  intros i [H1 (dsl & p & H2 & H3)]. split; [by rewrite /run_prefix A1 A2|]. exists dsl, p. by rewrite A3.
Qed.
Lemma ended_during {A} what (m : Act A) P Q : triple P m Q Ended → triple P (during what m) Q Ended.
Proof. intros Hm st HP. specialize (Hm st HP). rewrite /during. by destruct (m st) as [st' [e|a]]. Qed.
Lemma cycleAround_ok N N' c cy (down : Act ()) : step_ok N down N' →
  triple (ledger N ∅) (cycleAround c cy down) (λ _, ledger N' ∅) Ended.
Proof.
  intros Hd. rewrite /cycleAround. eapply triple_bind; [apply l_calm; [apply calm_Stop|apply small_empty]|intros pid; cbv beta].
  intros st Hst. specialize (Hd st Hst). destruct (down st) as [st1 [e|[]]]; simpl in Hd |- *.
  - pose proof (calm_Start c cy st1) as Hs. destruct (Start c cy st1) as [st2 r]. by eapply ended_still.
  - revert st1 Hd. apply (triple_bind _ _ _ (λ _, ledger N' ∅)); [apply step_calm, calm_Start|by intros ? s].
Qed.
Lemma restartAgent_ok N N' s (down : option (Act ())) :
  (match down with None => N' = N | Some m => step_ok N m N' end) → step_ok N (restartAgent cfg polls s down) N'.
Proof.
  intros Hd. apply ended_during.
  calmly ltac:(apply calm_controller). calmly ltac:(apply calm_Baseline). calmly ltac:(apply calm_ApplyConfig).
  calmly ltac:(apply calm_debt). eapply (triple_bind _ _ _ (λ _, ledger N' ∅)); [|intros ?; apply step_calm, calm_AwaitReady].
  destruct down as [m|]; [by apply cycleAround_ok|]. subst N'. apply l_calm; [apply calm_Restart|apply small_empty].
Qed.

(** A script whose names are in order, and the names after it. *)
Notation stepOf := (runStep cfg sc path reportPath polls sinkDelay learnTimeout).
Notation scriptRun := (runAll cfg sc path reportPath polls sinkDelay learnTimeout).
Lemma script_ok l : Forall (λ st, ∀ N N', (∀ d, d ∈ detached st → d ∈ D) → taken D st N = Some N' → step_ok N (stepOf st) N') l →
  ∀ N N', (∀ d, d ∈ detachedAll l → d ∈ D) → takenAll D l N = Some N' → step_ok N (scriptRun l) N'.
Proof.
  induction 1 as [|st l Hst _ IH]; intros N N' Hd; cbn [takenAll runAll].
  - intros [= <-]. by intros s.
  - destruct (taken D st N) as [N1|] eqn:E; [|done]. intros HN.
    eapply (triple_bind _ _ _ (λ _, ledger N1 ∅)).
    + apply ended_during, Hst; [|done]. intros d Hin. apply Hd. rewrite /detachedAll /=. apply elem_of_app. by left.
    + intros ?. apply IH; [|done]. intros d Hin. apply Hd. rewrite /detachedAll /=. apply elem_of_app. by right.
Qed.
Lemma runStep_ok : ∀ st N N', (∀ d, d ∈ detached st → d ∈ D) → taken D st N = Some N' → step_ok N (stepOf st) N'.
Proof.
  fix IH 1. intros st N N' Hd Ht. destruct st; cbn [runStep taken] in *;
    try (injection Ht as [= <-]).
  - apply step_calm, calm_drive.
  - apply step_calm, calm_ingress.
  - apply step_calm, calm_assert.
  - apply step_calm, calm_TakeCapture.
  - apply deleteVM_ok.
  - by apply bootVM_ok.
  - apply step_calm, calm_migrate.
  - apply step_calm, calm_pause.
  - apply associateFIP_ok.
  - apply step_calm, calm_setRouterRoutes.
  - apply step_calm, calm_setRouterGateway.
  - apply step_calm, calm_addRoute.
  - apply step_calm, calm_enableForwarding.
  - apply deleteFIP_ok.
  - apply step_calm, calm_awaitPortBinding.
  - by apply attachStep_ok.
  - apply step_calm, calm_reattachPort.
  - destruct Delete; injection Ht as [= <-]; [|by apply (detachPort_ok N VM Port false)].
    apply (detachPort_ok N VM Port true). intros _. apply Hd. by left.
  - apply step_calm, calm_configureNIC.
  - apply step_calm, calm_setNICMAC.
  - assert (Forall (λ st, ∀ N N', (∀ d, d ∈ detached st → d ∈ D) → taken D st N = Some N' → step_ok N (stepOf st) N') Down) as Hall.
    { clear Hd Ht. induction Down as [|st l IHl]; constructor; [apply IH|exact IHl]. }
    apply restartAgent_ok. destruct Down as [|st l]; [by injection Ht as [= <-]|].
    exact (script_ok (st :: l) Hall N N' Hd Ht).
  - apply step_calm, calm_reloadAgent.
  - apply step_calm, calm_stripTC.
  - apply step_calm, calm_monotone.
  - apply step_calm, calm_maxGrowth.
  - apply step_calm, calm_flowsFolded.
  - apply step_calm, calm_portSeries.
  - apply step_calm, calm_zoneGrowth.
  - apply step_calm, calm_serverMonotone.
  - apply step_calm, calm_within.
  - apply step_calm, calm_awaitSweep.
  - apply step_calm, calm_flowPeer.
  - apply step_calm, calm_assertAnomaly.
  - apply step_calm, calm_epoch.
  - apply step_calm, calm_grew.
  - apply step_calm, calm_grew.
  - apply step_calm, calm_grew.
  - apply step_calm, calm_within.
Qed.
Lemma scriptRun_ok l N N' : (∀ d, d ∈ detachedAll l → d ∈ D) → takenAll D l N = Some N' → step_ok N (scriptRun l) N'.
Proof. apply script_ok, Forall_forall. intros st _. apply runStep_ok. Qed.

(** The restores at the end make and take nothing. *)
Lemma calm_restore node : calm (stepOf (restoreStep node)).
Proof.
  rewrite /restoreStep. cbn [runStep]. apply calm_during. apply calm_bind; [apply calm_controller|intros c].
  apply calm_bind; [apply calm_Baseline|intros base]. apply calm_bind; [apply calm_ApplyConfig|intros dr].
  apply calm_bind; [apply calm_debt|intros ?]. apply calm_bind; [apply calm_Restart|intros pid]. apply calm_AwaitReady.
Qed.
Lemma still_restores s : still s (RestoreDirtyConfigs cfg sc path reportPath polls sinkDelay learnTimeout s).
Proof.
  destruct s as [w v]. rewrite /RestoreDirtyConfigs /=. generalize (rev (v_dirty v)) as nodes. intros nodes.
  assert (still (w, v) (w, setDirty (λ _, []) v)) as H1 by (split; [done|done|by split]).
  etrans; [exact H1|]. generalize (w, setDirty (λ _, []) v) as s. clear H1. induction nodes as [|n nodes IH]; intros s; [done|].
  simpl. etrans; [apply (calm_restore n)|apply IH].
Qed.
End ledger.
