(* ===== verification/RunnerSpec.v ===== *)
(** * What a run leaves of a cloud (internal/scenariotest/run/run.go)

    The whole loop against the ledger: everything a scripted run makes is taken down
    again, and nothing else is touched, on every exit path. *)
From S2P Require Import Prelude GoStrings GoArgs GoJson NetIP Neutron Builder Scenario Cloud Recorded Realize RealizeSpec Down FakeCloud Assert StepEnv Drive AgentCtl StepActs StepAsserts Steps Runner StepCalm StepLedger.
From Stdlib Require Import SpecFloat.

(** ** The ports a realizer lists are the topology's *)

Section names.
Context `{GoRange} {W : Type} `{!Cloud W, !MetricsSource W, !StateFile W}.
Variables (cfg : HarnessConfig) (sc : Scenario) (runID path : string) (ticks : nat).
Variable K : list string.
Notation Up A := (Prog (W * realizer) upErr A).
Definition named_ (rs : RunState) : Prop := ∀ p, p ∈ R_Ports rs → Ref_DSLID p ∈ K.
Definition keeps {A} (m : Up A) : Prop := ∀ s, named_ (z_rs s.2) → named_ (z_rs (m s).1.2).

Lemma keeps_ret {A} (a : A) : keeps (ret a).
Proof. by intros s. Qed.
Lemma keeps_fail {A} e : keeps (fail e : Up A).
Proof. by intros s. Qed.
Lemma keeps_get {A} (f : realizer → A) : keeps (get_z f).
Proof. by intros s. Qed.
Lemma keeps_bind {A B} (m : Up A) (f : A → Up B) : keeps m → (∀ a, keeps (f a)) → keeps (andThen m f).
Proof. intros Hm Hf s Hs. specialize (Hm s Hs). rewrite /andThen. destruct (m s) as [s' [e|a]]; [done|by apply Hf]. Qed.
Lemma keeps_call {A} wrap (c : Call W A) : keeps (callE wrap c).
Proof. intros [w z] Hs. rewrite /callE /=. by destruct (c w) as [w' [e|a]]. Qed.
Lemma keeps_upd f : (∀ z, R_Ports (z_rs (f z)) = R_Ports (z_rs z)) → keeps (upd f : Up ()).
Proof. intros Hf [w z] Hs. rewrite /= /named_ Hf. done. Qed.
Lemma keeps_save : keeps (save path : Up ()).
Proof. intros [w z] Hs. rewrite /save /=. by destruct (Save _ _ _) as [w' [e|[]]]. Qed.
Lemma keeps_lift {A} (r : upErr + A) : keeps (lift r : Up A).
Proof. destruct r; [apply keeps_fail|apply keeps_ret]. Qed.
Lemma keeps_forEach {A} (l : list A) (f : A → Up ()) : (∀ x, x ∈ l → keeps (f x)) → keeps (forEach l f).
Proof.
  induction l as [|x l IH]; intros Hf; cbn [forEach]; [apply keeps_ret|].
  apply keeps_bind; [apply Hf; left|]. intros ?. apply IH. intros y Hy. apply Hf. by right.
Qed.
Lemma keeps_port p port proj b : Port_ID p ∈ K → keeps (recordPort cfg runID p port proj b : Up ()).
Proof.
  intros Hp. apply keeps_bind; [apply keeps_call|intros mac]. apply keeps_bind; [destruct b; [apply keeps_ret|by apply keeps_upd]|].
  intros ? [w z] Hs q [Hq| ->%list_elem_of_singleton]%elem_of_app; [by apply Hs|done].
Qed.
Ltac keep := lazymatch goal with
  | |- keeps (andThen _ _) => apply keeps_bind; [|intros ?]
  | |- keeps (ret _) => apply keeps_ret
  | |- keeps (fail _) => apply keeps_fail
  | |- keeps (get_z _) => apply keeps_get
  | |- keeps (callC _) => apply keeps_call
  | |- keeps (callE _ _) => apply keeps_call
  | |- keeps (sample _ _) => apply keeps_call
  | |- keeps (upd _) => by apply keeps_upd
  | |- keeps (save _) => apply keeps_save
  | |- keeps (forEach _ _) => apply keeps_forEach; intros ? ?
  | |- keeps (lift _) => apply keeps_lift
  | |- keeps (match ?x with _ => _ end) => destruct x
  end.
Lemma keeps_project dsl : keeps (projectID cfg sc path dsl : Up string).
Proof. rewrite /projectID /findOrCreate. repeat keep. Qed.
Ltac keeping := repeat lazymatch goal with |- keeps (projectID _ _ _ _) => apply keeps_project | |- _ => keep end.
Lemma keeps_gate baseline target n : keeps (gate cfg path baseline target n : Up ()).
Proof. induction n as [|n IH]; cbn [gate]; repeat first [exact IH|keep]. Qed.
Lemma keeps_networkStep n : keeps (networkStep cfg sc runID path n : Up ()).
Proof. rewrite /networkStep. keeping. Qed.
Lemma keeps_subnetStep s : keeps (subnetStep cfg sc runID path s : Up ()).
Proof. rewrite /subnetStep. keeping. Qed.
Lemma keeps_routerStep rt : keeps (routerStep cfg sc runID path rt : Up ()).
Proof. rewrite /routerStep. keeping. Qed.
Lemma keeps_routeStep rt : keeps (routeStep cfg sc path rt : Up ()).
Proof. rewrite /routeStep. keeping. Qed.
Lemma keeps_bootStep vm : keeps (bootStep cfg runID path vm : Up ()).
Proof. rewrite /bootStep. keeping. Qed.
Lemma keeps_memberStep proj lb pool d m : keeps (memberStep cfg runID proj lb pool d m : Up ()).
Proof. rewrite /memberStep. keeping. Qed.
Lemma keeps_fipStep vm : keeps (fipStep sc path vm : Up ()).
Proof. rewrite /fipStep /allocateFIP. keeping. Qed.
Lemma keeps_lbBackends proj lb d : keeps (lbBackends cfg runID proj lb d : Up ()).
Proof.
  rewrite /lbBackends. apply keeps_bind; [apply keeps_call|intros ?]. apply keeps_bind; [apply keeps_call|intros ?].
  apply keeps_forEach. intros m _. apply keeps_memberStep.
Qed.
Lemma keeps_lbStep b snap lb : keeps (lbStep cfg sc runID path b snap lb : Up ()).
Proof.
  rewrite /lbStep /allocateFIP.
  repeat lazymatch goal with |- keeps (lbBackends _ _ _ _ _) => apply keeps_lbBackends | |- keeps (let _ := ?x in _) => destruct x | |- _ => keeping end.
Qed.
Lemma keeps_interfaceStep p : Port_ID p ∈ K → keeps (interfaceStep cfg sc runID path p : Up ()).
Proof. intros Hp. rewrite /interfaceStep. repeat lazymatch goal with |- keeps (recordPort _ _ _ _ _ _) => by apply keeps_port | |- _ => progress keeping end. Qed.
Lemma keeps_vmPortStep snap p : Port_ID p ∈ K → keeps (vmPortStep cfg sc runID path snap p : Up ()).
Proof. intros Hp. rewrite /vmPortStep. cbv zeta. repeat lazymatch goal with |- keeps (recordPort _ _ _ _ _ _) => by apply keeps_port | |- _ => progress keeping end. Qed.
Lemma keeps_run b : Sc_Builder sc = Some b → (∀ p, p ∈ Ports (Build b) → Port_ID p ∈ K) →
  keeps (run cfg sc runID path ticks : Up ()).
Proof.
  intros Hb HK. rewrite /run Hb. cbv zeta.
  repeat (apply keeps_bind; [|intros ?]);
    rewrite ?/resolve_placement ?/resolvePrereqs ?/networks ?/subnets ?/routers ?/routerInterfaces ?/routerRoutes ?/vmPorts
      ?/bootServers ?/waitActive ?/allocateFIPs ?/loadBalancers ?/attachGate; cbv zeta;
    repeat lazymatch goal with
      | |- keeps (gate _ _ _ _ _) => apply keeps_gate
      | |- keeps (networkStep _ _ _ _ _) => apply keeps_networkStep
      | |- keeps (subnetStep _ _ _ _ _) => apply keeps_subnetStep
      | |- keeps (routerStep _ _ _ _ _) => apply keeps_routerStep
      | |- keeps (routeStep _ _ _ _) => apply keeps_routeStep
      | |- keeps (bootStep _ _ _ _) => apply keeps_bootStep
      | |- keeps (fipStep _ _ _) => apply keeps_fipStep
      | |- keeps (lbStep _ _ _ _ _ _ _) => apply keeps_lbStep
      | |- keeps (interfaceStep _ _ _ _ _) => apply keeps_interfaceStep, HK; assumption
      | |- keeps (vmPortStep _ _ _ _ _ _) => apply keeps_vmPortStep, HK; assumption
      | |- _ => keep
      end.
Qed.
Lemma run_names b : Sc_Builder sc = Some b → (∀ p, p ∈ Ports (Build b) → Port_ID p ∈ K) →
  ∀ w : W, let '(_, rs, _) := Realize.Run cfg sc runID path ticks w in named_ rs.
Proof.
  intros Hb HK w. rewrite /Realize.Run.
  assert (named_ (z_rs (newRealizer cfg sc runID))) as H0 by (intros p Hp; by apply elem_of_nil in Hp).
  pose proof (keeps_run b Hb HK (w, newRealizer cfg sc runID) H0) as Hr.
  by destruct (run _ _ _ _ _ _) as [[w' z] [e|[]]].
Qed.
End names.

(** ** The gates *)

Section gates.
Context `{GoRange} `{Yaml} {W : Type}.
Context `{!Cloud W, !MetricsSource W, !StateFile W, !ReportFile W, !VMExec W, !AgentExec W, !Clock W, !World W}.
Context `{!CloudLaws W, !MetricsLaws W, !FileLaws W, !HostLaws W}.
Variables (cfg : HarnessConfig) (sc : Scenario).
(** Nothing made, nothing taken. *)
Definition hush (w w' : W) : Prop := live w' = live w ∧ ∀ id, used w id → used w' id.
Lemma hush_refl w : hush w w.
Proof. done. Qed.
Lemma hush_trans w1 w2 w3 : hush w1 w2 → hush w2 w3 → hush w1 w3.
Proof. intros [E1 U1] [E2 U2]. split; [congruence|by eauto]. Qed.
Lemma quiet_hush {A} (c : Call W A) w : quiet c → hush w (c w).1.
Proof. intros [Hf Hl]. split; [apply Hl|apply (Hf w)]. Qed.
Lemma hush_check {A} n (c : Call W A) d (s : W * list Check_) : quiet c → hush s.1 (check n c d s).1.
Proof. intros Hq. pose proof (quiet_hush c s.1 Hq) as Hh. rewrite /check. by destruct (c s.1) as [w [e|a]]. Qed.
Lemma quiet_if {A} (c : Call W A) (d : Call W A) (b : bool) : quiet c → quiet d → quiet (if b then c else d).
Proof. by destruct b. Qed.
Lemma quiet_placement : quiet (placementCheck (W := W) cfg sc).
Proof.
  assert (∀ w, hush w (placementCheck (W := W) cfg sc w).1 ∧ ∀ p, file (placementCheck cfg sc w).1 p = file w p) as Hq.
  { intros w. rewrite /placementCheck. destruct (ResolvePlacement _ _) as [e|r]; [done|].
    destruct quiet_Hypervisors as [Hf Hl]. specialize (Hl w). destruct (Hf w) as [Hd Hu].
    by destruct (Hypervisors w) as [w' [e|hosts]]. }
  split; [|intros w; apply (Hq w)]. intros w. split; [apply (Hq w)|apply (Hq w)].
Qed.
Lemma quiet_agentCheck a : quiet (agentCheck (W := W) a).
Proof.
  assert (∀ w, hush w (agentCheck (W := W) a w).1 ∧ ∀ p, file (agentCheck a w).1 p = file w p) as Hq.
  { intros w. rewrite /agentCheck. destruct (quiet_Scrape (AC_MetricsURL a)) as [Hf Hl]. specialize (Hl w).
    destruct (Hf w) as [Hd Hu]. by destruct (Scrape _ w) as [w' [e|r]]. }
  split; [|intros w; apply (Hq w)]. intros w. split; [apply (Hq w)|apply (Hq w)].
Qed.
Lemma hush_agents l (s : W * list Check_) :
  hush s.1 (foldl (λ s a, check ("agent:" +:+ AC_Host a) (agentCheck a) (λ _, "reachable; required metrics present") s) s l).1.
Proof.
  revert s. induction l as [|a l IH]; intros s; [done|]. simpl. eapply hush_trans; [|apply IH].
  apply hush_check, quiet_agentCheck.
Qed.
Lemma hush_checks w : hush w (preflightChecks cfg sc w).1.
Proof.
  rewrite /preflightChecks. eapply hush_trans; [|apply hush_agents].
  assert (∀ (b : bool) (s s' : W * list Check_), hush w s.1 → hush s.1 s'.1 → hush w (if b then s' else s).1) as Hif.
  { intros [] s s' H1 H2; [by eapply hush_trans|done]. }
  assert (∀ {A} n (c : Call W A) d (s : W * list Check_), quiet c → hush w s.1 → hush w (check n c d s).1) as Hck.
  { intros A n c d s Hq Hs. eapply hush_trans; [exact Hs|by apply hush_check]. }
  assert (∀ s : W * list Check_, hush w s.1 → hush w (check "external_network" (FindExternalNetwork (ExternalNetworkName (H_Prerequisites cfg)))
    (found (ExternalNetworkName (H_Prerequisites cfg))) s).1) as Hext by (intros s; apply Hck, quiet_FindExternalNetwork).
  case_decide as Hp; [|apply Hck; [apply quiet_placement|]];
    (apply Hext, Hck; [apply quiet_FindSecGroup|]; apply Hck; [apply quiet_CheckKeypair|]);
    (apply Hif; [|apply hush_check, quiet_FindLBFlavor]);
    (apply Hck; [apply quiet_FindFlavor|]; apply Hck; [apply quiet_FindImage|done]).
Qed.
Lemma hush_Preflight w : hush w (Preflight cfg sc w).1.
Proof.
  rewrite /Preflight. destruct (SkipReason sc cfg); [done|]. pose proof (hush_checks w) as Hh.
  by destruct (preflightChecks cfg sc w).
Qed.
Lemma hush_resume urls w : hush w (preflightResume urls w).1.
Proof.
  revert w. induction urls as [|u urls IH]; intros w; cbn [preflightResume]; [done|].
  pose proof (quiet_hush _ w (quiet_Scrape u)) as Hh. destruct (Scrape u w) as [w' [e|r]]; [done|].
  destruct (CheckRequiredMetrics r); [done|]. eapply hush_trans; [exact Hh|apply IH].
Qed.
Lemma hush_agents_checked required urls w : hush w (checkAgents required urls w).1.
Proof.
  revert w. induction urls as [|u urls IH]; intros w; cbn [checkAgents]; [done|].
  pose proof (quiet_hush _ w (quiet_Scrape u)) as Hh. destruct (Scrape u w) as [w' [e|r]]; [done|].
  destruct (missing required r); [done|]. eapply hush_trans; [exact Hh|apply IH].
Qed.
End gates.

Section gated.
Context `{GoRange} `{Yaml} {W : Type}.
Context `{!Cloud W, !MetricsSource W, !StateFile W, !ReportFile W, !VMExec W, !AgentExec W, !Clock W, !World W}.
Context `{!CloudLaws W, !MetricsLaws W, !FileLaws W, !HostLaws W}.
Variables (cfg : HarnessConfig) (sc : Scenario) (runID path : string) (ticks : nat) (polls : Z → nat) (sinkDelay learnTimeout : Z).
Lemma hush_gates resume steps (w : W) : hush w (gates cfg sc resume steps w).1.
Proof.
  rewrite /gates.
  assert (∀ w0 w1 : W, hush w0 w1 → hush w0 (checkStepMetrics cfg (scriptOf sc steps) w1).1) as Hck.
  { intros w0 w1 Hw. rewrite /checkStepMetrics. case_decide; [done|]. eapply hush_trans; [exact Hw|apply hush_agents_checked]. }
  destruct resume.
  - pose proof (hush_resume (AgentURLs cfg) w) as Hh. destruct (preflightResume _ w) as [w1 [e|]]; [done|by apply Hck].
  - pose proof (hush_Preflight cfg (withSteps sc steps) w) as Hh. destruct (Preflight _ _ w) as [w1 pre]. simpl in Hh.
    destruct (PF_Skip pre); [done|]. destruct (PF_OK pre); [by apply Hck|done].
Qed.
End gated.

(** ** The whole loop *)

Section runner.
Context `{GoRange} `{Yaml} {W : Type}.
Context `{!Cloud W, !MetricsSource W, !StateFile W, !ReportFile W, !VMExec W, !AgentExec W, !Clock W, !World W}.
Context `{!CloudLaws W, !MetricsLaws W, !FileLaws W, !HostLaws W}.
Variables (cfg : HarnessConfig) (sc : Scenario) (runID path : string) (ticks : nat) (polls : Z → nat) (sinkDelay learnTimeout : Z).
Implicit Types (l : Live) (rs : RunState) (w : W).

(** The names of the ports a script starts with, and the run it is part of. *)
Definition port_names (state : option RunState) : list string :=
  match state with
  | Some rs => Ref_DSLID <$> R_Ports rs
  | None => match Sc_Builder sc with Some b => Port_ID <$> Ports (Build b) | None => [] end
  end.
Definition run_of (state : option RunState) : string := match state with Some rs => R_RunID rs | None => runID end.
(** From the cloud [l0] a run starts anew, or goes on with what it has realized. *)
Definition begins (state : option RunState) (l0 : Live) w : Prop :=
  (∀ q j, l0 !! q = Some j → used w (I_Network j) ∧ used w (I_Subnet j)) ∧
  match state with None => l0 = live w | Some rs => covers l0 (live w) rs ∅ ∧ R_Prefix rs = H_Prefix cfg end.
Definition reported (err : option runFailure) : bool := match err with None | Some (ReportFails _) => true | Some _ => false end.
(** The cloud after a run: as it was, when the teardown reports success and no step failed; but
    for at most one resource, when one did; and never with anything missing. *)
Definition restored (l0 : Live) (r : W * outcome) : Prop :=
  match r with
  | (w', o) => l0 ⊆ live w' ∧
      match o_down o, o_state o with
      | Some None, Some rs => if reported (o_err o) then live w' = l0 else all_but_one rs l0 (live w')
      | _, _ => True
      end
  end.
(** What the run has made is listed but for [extra]. *)
Definition listed_but (l0 : Live) w rs (err : option runFailure) : Prop := ∃ extra, (size extra ≤ 1)%nat ∧
  covers l0 (live w) rs extra ∧ (reported err = true → extra = ∅).

Lemma finish_restores (l0 : Live) keep w rs rep err : listed_but l0 w rs err →
  (∀ s i, l0 !! (KServer, s) = Some i → HasPrefix (I_Name i) (run_prefix rs) = false) →
  restored l0 (finish path keep (w, rs, rep, err)).
Proof.
  intros (extra & Hsz & Hc & Hex) Hfresh. rewrite /finish. destruct keep; [split; [apply Hc|done]|].
  assert (∀ r, r ∈ recorded rs → r.2 ≠ "") as Hids by (intros r Hr; apply (cv_ids _ _ _ _ Hc), elem_of_union; by left).
  rewrite /Down. destruct (teardown_spec rs Hids w) as (Hs & _ & Hcl).
  pose proof (covers_kept _ _ _ _ _ Hc Hs Hfresh) as Hkept.
  destruct (teardown rs w) as [w2 [|e errs]]; simpl in *; [|done]. specialize (Hcl eq_refl).
  destruct (Save_spec path (setTornDown rs) w2) as (Hl & _).
  destruct (Save (setTornDown rs) path w2) as [w3 [e|[]]]; simpl in *; rewrite Hl; [done|]. split; [done|].
  destruct (covers_left _ _ _ _ _ Hc Hs Hcl) as [Hd Hleft]. destruct (reported err).
  - apply same_dom; [done|]. by rewrite (Hex eq_refl) union_empty_r_L in Hd.
  - split; [done|]. by exists extra.
Qed.
Lemma play_listed (l0 : Live) w rs reportPath script : covers l0 (live w) rs ∅ → R_Prefix rs = H_Prefix cfg →
  (∀ q j, l0 !! q = Some j → used w (I_Network j) ∧ used w (I_Subnet j)) →
  tidy (Ref_DSLID <$> R_Ports rs) script = true →
  match play cfg sc path polls sinkDelay learnTimeout reportPath script rs w with
  | (w', rs', _, err) => listed_but l0 w' rs' err ∧ run_prefix rs' = run_prefix rs ∧
      (reported err = true → ∀ id, used w id → used w' id)
  end.
Proof.
  intros Hc Hp Hcl [Hnames Hscript]%andb_prop. apply bool_decide_eq_true in Hscript.
  destruct (takenAll (detachedAll script) script []) as [N|] eqn:E; [|done].
  assert (ledger cfg l0 (used w) (R_RunID rs) (R_Projects rs) (detachedAll script) [] ∅ (w, startEnv rs)) as Hl.
  { split; [done|by split|done|]. apply slots_start. intros d p Hd Hin <-. rewrite forallb_forall in Hnames.
    apply list_elem_of_In in Hd. specialize (Hnames _ Hd). rewrite bool_decide_true // in Hnames.
    apply list_elem_of_fmap. by exists p. }
  rewrite /play /runSteps.
  pose proof (scriptRun_ok cfg sc path reportPath polls sinkDelay learnTimeout l0 (used w) (R_RunID rs) (R_Projects rs)
    (detachedAll script) Hcl script [] N (λ _ H, H) E (w, startEnv rs) Hl) as Hr.
  destruct (runAll cfg sc path reportPath polls sinkDelay learnTimeout script (w, startEnv rs)) as [s1 r].
  pose proof (still_restores cfg sc path reportPath polls sinkDelay learnTimeout s1) as Hst.
  assert (∀ v, ours cfg (R_RunID rs) (R_Projects rs) v → run_prefix v = run_prefix rs) as Hpre.
  { intros v [O1 O2 _]. by rewrite /run_prefix O1 O2 Hp. }
  destruct (RestoreDirtyConfigs cfg sc path reportPath polls sinkDelay learnTimeout s1) as [w2 v2]. destruct r as [e|[]].
  - destruct (ended_still _ _ _ _ e e _ _ Hr Hst) as (extra & Hsz & Hcov & Ho). split; [|split; [by apply Hpre|done]].
    exists extra. by split_and!.
  - destruct (ledger_still _ _ _ _ _ _ _ _ _ _ Hr Hst) as [Hcov Ho Hu _]. simpl in *.
    destruct (still_saveReport (v_report v2) reportPath w2) as [Hl2 Hu2].
    destruct (saveReport (v_report v2) reportPath w2) as [w3 [e|[]]]; simpl in *;
      (split; [|split; [by apply Hpre|intros _ id Hid; by apply Hu2, Hu]]);
      exists ∅; rewrite Hl2; (split_and!; [apply small_empty|done|done]).
Qed.
Lemma tidy_names names names' script : (∀ n, n ∈ names' → n ∈ names) → tidy names script = true → tidy names' script = true.
Proof.
  intros Hsub [Hn Hs]%andb_prop. apply andb_true_intro. split; [|done]. rewrite !forallb_forall in Hn |- *.
  intros d Hd. specialize (Hn d Hd). case_bool_decide as Hin; [done|]. rewrite bool_decide_false //. by intros Hin'%Hsub.
Qed.
Notation RunOn := (RunAll cfg sc runID path ticks polls sinkDelay learnTimeout).
Lemma finish_state keep r : o_state (finish path keep r).2 = None → False.
Proof. destruct r as [[[w rs] rep] err]. rewrite /finish. destruct keep; [done|]. by destruct (Down rs path w) as [[? ?] ?]. Qed.
(** A script over what is up, and its teardown. *)
Lemma script_restores (l0 : Live) w rs reportPath script keep : covers l0 (live w) rs ∅ → R_Prefix rs = H_Prefix cfg →
  (∀ q j, l0 !! q = Some j → used w (I_Network j) ∧ used w (I_Subnet j)) →
  tidy (Ref_DSLID <$> R_Ports rs) script = true →
  (∀ s i, l0 !! (KServer, s) = Some i → HasPrefix (I_Name i) (run_prefix rs) = false) →
  restored l0 (finish path keep (play cfg sc path polls sinkDelay learnTimeout reportPath script rs w)).
Proof.
  intros Hc Hp Hcl Ht Hfresh. pose proof (play_listed l0 w rs reportPath script Hc Hp Hcl Ht) as Hplay.
  destruct (play _ _ _ _ _ _ _ _ _ _) as [[[w2 rs2] rep] err]. destruct Hplay as (Hlist & Hpr & _).
  apply finish_restores; [done|]. by rewrite Hpr.
Qed.
Lemma resumed_restores (l0 : Live) w rs steps reportPath keep : covers l0 (live w) rs ∅ → R_Prefix rs = H_Prefix cfg →
  (∀ q j, l0 !! q = Some j → used w (I_Network j) ∧ used w (I_Subnet j)) →
  tidy (Ref_DSLID <$> R_Ports rs) (scriptOf sc steps) = true →
  (∀ s i, l0 !! (KServer, s) = Some i → HasPrefix (I_Name i) (run_prefix rs) = false) →
  let r := RunOn (Some rs) steps reportPath keep w in restored l0 r ∧ (o_state r.2 = None → live r.1 = live w).
Proof.
  intros Hc Hp Hcl Ht Hfresh. cbv zeta. rewrite /RunAll.
  destruct (R_TornDown rs); [split; [split; [apply Hc|done]|done]|].
  destruct (hush_gates cfg sc true steps w) as [Hl Hu].
  destruct (gates cfg sc true steps w) as [w1 [e|]]; simpl in Hl, Hu; [split; [split; simpl; [rewrite Hl; apply Hc|done]|done]|].
  split; [|by intros ?%finish_state]. rewrite -Hl in Hc. apply script_restores; [done..| |done|done].
  intros q j Hq. destruct (Hcl q j Hq). split; by apply Hu.
Qed.
(** What is realized on a cloud that is closed: the ports are the topology's. *)
Lemma realized_names w w' rs : Realize.Run cfg sc runID path ticks w = (w', rs, None) →
  ∀ n, n ∈ Ref_DSLID <$> R_Ports rs → n ∈ port_names None.
Proof.
  intros E n (p & -> & Hp)%list_elem_of_fmap. destruct (Sc_Builder sc) as [b|] eqn:Eb.
  - assert (∀ q, q ∈ Ports (Build b) → Port_ID q ∈ port_names None) as HK.
    { intros q Hq. rewrite /port_names Eb. apply list_elem_of_fmap. by exists q. }
    pose proof (run_names cfg sc runID path ticks (port_names None) b Eb HK w) as Hn. rewrite E in Hn. by apply Hn.
  - rewrite /Realize.Run /run Eb /= in E. by injection E.
Qed.
Lemma fresh_restores w steps reportPath keep : closed w →
  (∀ s i, live w !! (KServer, s) = Some i → HasPrefix (I_Name i) (Mangle (H_Prefix cfg) runID "") = false) →
  tidy (port_names None) (scriptOf sc steps) = true →
  let r := RunOn None steps reportPath keep w in restored (live w) r ∧ (o_state r.2 = None → live r.1 = live w).
Proof.
  intros Hcl Hfresh Htidy. cbv zeta. rewrite /RunAll. destruct (hush_gates cfg sc false steps w) as [Hl Hu].
  destruct (gates cfg sc false steps w) as [w1 [e|]]; simpl in Hl, Hu; [split; [split; simpl; [by rewrite Hl|done]|done]|].
  assert (closed w1) as Hcl1.
  { intros q j Hq. rewrite Hl in Hq. destruct (Hcl q j Hq). split; by apply Hu. }
  pose proof (run_remembers cfg sc runID path ticks w1 Hcl1) as Hrun.
  destruct (Realize.Run cfg sc runID path ticks w1) as [[w2 rs] [e|]] eqn:Erun; rewrite Hl in Hrun;
    (split; [|by intros ?%finish_state]).
  - destruct Hrun as (extra & Hsz & [Hc _] & [O1 O2]). apply finish_restores; [by exists extra|].
    intros s i. rewrite /run_prefix O1 O2. apply Hfresh.
  - destruct Hrun as ([Hc _] & [O1 O2] & Hu2). apply script_restores; [done..| | |].
    + intros q j Hq. destruct (Hcl q j Hq). split; by apply Hu2, Hu.
    + eapply tidy_names; [|exact Htidy]. by eapply realized_names.
    + intros s i. rewrite /run_prefix O1 O2. apply Hfresh.
Qed.

(** *** After a run that left nothing behind

    The ids the cloud had used are still used: the next run starts from as closed a cloud. *)
Definition keepsUsed (f : W * list (string * string) → W * list (string * string)) : Prop :=
  ∀ d id, used d.1 id → used (f d).1 id.
Lemma used_do what (c : Call W ()) : keepsFiles c → keepsUsed (do_ what c).
Proof. intros Hc d id Hid. rewrite /do_. destruct (Hc d.1) as [_ Hu]. specialize (Hu id Hid). by destruct (c d.1) as [w [e|[]]]. Qed.
Lemma used_each {A} (l : list A) f : (∀ x, keepsUsed (f x)) → keepsUsed (each l f).
Proof. intros Hf. induction l as [|x l IH]; intros d id Hid; [done|]. by apply IH, Hf. Qed.
Lemma used_kill what proj id : keepsUsed (do_ what (killServer proj id)).
Proof.
  apply used_do. intros w. rewrite /killServer /andThenC. destruct (files_DeleteServer proj id w) as [Hf Hu].
  destruct (DeleteServer proj id w) as [w1 [e|[]]]; simpl in *; [done|]. destruct (files_WaitServerGone proj id w1) as [Hf1 Hu1].
  split; [intros q; by rewrite Hf1|]. auto.
Qed.
Lemma used_servers pre proj : keepsUsed (residualServers pre proj).
Proof.
  intros d id Hid. rewrite /residualServers. destruct (quiet_ListProjectServers (PR_ID proj)) as [Hf _].
  destruct (Hf d.1) as [_ Hu]. specialize (Hu id Hid). destruct (ListProjectServers _ _) as [w [e|l]]; simpl in *; [done|].
  apply used_each; [|done]. intros srv d' i Hi. rewrite /residualServer. destruct (HasPrefix _ _); [by apply used_kill|done].
Qed.
Lemma used_ports n : keepsUsed (residualPorts n).
Proof.
  intros d id Hid. rewrite /residualPorts. destruct (quiet_ListNetworkPorts (Ref_ID n)) as [Hf _].
  destruct (Hf d.1) as [_ Hu]. specialize (Hu id Hid). destruct (ListNetworkPorts _ _) as [w [e|l]]; simpl in *; [done|].
  apply used_each; [|done]. intros q. apply used_do, files_DeletePort.
Qed.
Lemma used_detachAll rs r : keepsUsed (detachAll rs r).
Proof. intros d id Hid. do 2 (apply used_each; [intros y; apply used_do, files_RemoveRouterInterface|]). done. Qed.
Lemma teardown_used rs w id : used w id → used (teardown rs w).1 id.
Proof.
  intros Hid. rewrite /teardown. apply used_each; [intros x; apply used_do, files_DeleteNetwork|].
  apply used_each; [intros x; apply used_do, files_DeleteSubnet|]. apply used_each; [apply used_ports|].
  apply used_each; [intros x; apply used_do, files_DeleteRouter|]. apply used_each; [intros x; apply used_do, files_DeletePort|].
  apply used_each; [apply used_detachAll|]. apply used_each; [intros x; apply used_do, quiet_ClearRouterRoutes|].
  apply used_each; [apply used_servers|]. apply used_each; [intros x; apply used_kill|].
  apply used_each; [intros x; apply used_do, files_DeleteFIP|]. by apply used_each; [intros x; apply used_do, files_DeleteLoadBalancer|].
Qed.
(** Nothing was made, or the script ran through and the teardown says that it is done. *)
Definition settled (o : outcome) : bool :=
  match o_state o, o_down o with None, _ => true | Some _, Some None => reported (o_err o) | _, _ => false end.
Lemma finish_used keep w0 w rs rep err : (reported err = true → ∀ id, used w0 id → used w id) →
  settled (finish path keep (w, rs, rep, err)).2 = true → ∀ id, used w0 id → used (finish path keep (w, rs, rep, err)).1 id.
Proof.
  intros Hu. rewrite /finish. destruct keep; [done|]. rewrite /Down. pose proof (teardown_used rs w) as Ht.
  destruct (teardown rs w) as [w2 [|e errs]]; simpl in *; [|done].
  destruct (Save_spec path (setTornDown rs) w2) as (_ & Hs & _).
  destruct (Save (setTornDown rs) path w2) as [w3 [e|[]]]; simpl in *; [done|]. rewrite /settled /=. auto.
Qed.
Lemma fresh_keeps_used w steps reportPath keep : closed w → tidy (port_names None) (scriptOf sc steps) = true →
  settled (RunOn None steps reportPath keep w).2 = true → ∀ id, used w id → used (RunOn None steps reportPath keep w).1 id.
Proof.
  intros Hcl Htidy. rewrite /RunAll. destruct (hush_gates cfg sc false steps w) as [Hl Hu].
  destruct (gates cfg sc false steps w) as [w1 [e|]]; simpl in Hl, Hu; [done|].
  assert (closed w1) as Hcl1. { intros q j Hq. rewrite Hl in Hq. destruct (Hcl q j Hq). split; by apply Hu. }
  pose proof (run_remembers cfg sc runID path ticks w1 Hcl1) as Hrun.
  destruct (Realize.Run cfg sc runID path ticks w1) as [[w2 rs] [e|]] eqn:Erun; [by apply finish_used|].
  destruct Hrun as ([Hc _] & [O1 O2] & Hu2).
  assert (tidy (Ref_DSLID <$> R_Ports rs) (scriptOf sc steps) = true) as Ht by (eapply tidy_names; [|exact Htidy]; by eapply realized_names).
  pose proof (play_listed (live w1) w2 rs (if decide (reportPath = "") then DefaultReportPath path else reportPath) (scriptOf sc steps)
    Hc O2 (λ q j Hq, let '(conj a b) := Hcl1 q j Hq in conj (Hu2 _ a) (Hu2 _ b)) Ht) as Hplay.
  destruct (play _ _ _ _ _ _ _ _ _ _) as [[[w3 rs3] rep] err]. destruct Hplay as (_ & _ & Hu3). apply finish_used. auto.
Qed.

(** C19: Whatever happens in a scripted run, be it a gate that is not met, an
    error of the realizer or of any step (an outage of an agent with steps inside it among
    them), nothing that was in the cloud before is missing after it; and when the teardown
    reports success, then after a script that ran through the cloud is as it was, and after one
    that did not at most one resource is left, the one being made when the error struck,
    and neither a server nor a port on the run's networks.  The same for a run that resumes on what
    an earlier one realized.  The script gives no port a name that it also deletes by
    detaching and that is taken. *)
Theorem run_restores (state : option RunState) (steps : list Step) (reportPath : string) (keep : bool) (l0 : Live) (w : W) :
  begins state l0 w →
  (∀ s i, l0 !! (KServer, s) = Some i → HasPrefix (I_Name i) (Mangle (H_Prefix cfg) (run_of state) "") = false) →
  tidy (port_names state) (scriptOf sc steps) = true →
  let r := RunOn state steps reportPath keep w in
  restored l0 r ∧ (o_state r.2 = None → live r.1 = live w).
Proof.
  intros [Hcl Hstart] Hfresh Htidy. destruct state as [rs|].
  - destruct Hstart as [Hc Hp]. apply resumed_restores; [done..|]. intros s i. rewrite /run_prefix Hp. apply Hfresh.
  - subst l0. by apply fresh_restores.
Qed.
End runner.

(** ** On the fake *)

Module RunExamples.
Import FakeExamples.
#[local] Existing Instance list_range.
(** Machines that answer every command with nothing, and no agent's host. *)
#[local] Instance mute : VMExec Fake := {| ExecRun _ _ w := (w, inr ""); RunWithStdin := None |}.
#[local] Instance no_hosts : AgentExec Fake := {| AgentRun := None |}.
#[local] Instance clock : Clock Fake := {| Pause _ w := (w, inr ()) |}.
#[local] Instance reports : ReportFile Fake := {| WriteReport _ _ w := (w, inr ()) |}.
#[local] Instance no_yaml : Yaml := {| yamlDoc _ := None; yamlScalar _ := None; yamlText _ := None |}.
#[local] Instance host_laws : HostLaws Fake.
Proof. by split. Qed.

Definition script : list Step := [CaptureStep; AssociateFIPStep "vm-a" "net-ext"; DeleteFIPStep "vm-a" "net-ext" false;
  DeleteVMStep "vm-b"; MaxGrowthStep "T1" "internet" 10 "nothing moved"].
(** The fake's gauge does not count a NIC that is plugged in: its attach gate ends the run. *)
Definition nic_script : list Step := [AttachPortStep (mkAttachPort "vm-a" "nic" "net-T1" "sub-T1" "10.0.1.9" "" false []);
  DetachPortStep "vm-a" "nic" true].
Definition ran (steps : list Step) : Fake * outcome :=
  RunAll Config SameTenantScenario "abc123" where_ 3 (λ _, 2%nat) 0 0 None steps "" false host_cloud.
Definition said (r : Fake * outcome) : option string * option (option downErr) * nat * nat :=
  (match o_err r.2 with Some (ScriptFails (During what _)) => Some what | _ => None end, o_down r.2,
   PassCount (o_report r.2), size (live r.1)).
Example run_examples : said (ran script) = (None, Some None, 2, 2)%nat ∧
  said (ran nic_script) = (Some "attach-port", Some None, 0, 2)%nat ∧
  o_err (ran [MaxSettledStep 0 ""]).2 = Some (MissingFamily "http://compute-0:9100/metrics" MetricSettledFlows).
Proof. by vm_compute. Qed.
(** A name that is attached twice is not in order, one that was freed is. *)
Example tidy_examples : let nic := AttachPortStep (mkAttachPort "vm-a" "nic" "net-T1" "sub-T1" "" "" false []) in
  tidy ["vm-a"] [nic; DetachPortStep "vm-a" "nic" true; nic] = true ∧
  tidy ["vm-a"] [nic; nic; DetachPortStep "vm-a" "nic" true] = false ∧
  tidy ["vm-a"] [DetachPortStep "vm-a" "vm-a" true] = false.
Proof. by vm_compute. Qed.
Lemma run_restores_witness : tidy (port_names SameTenantScenario None) script = true ∧
  restored (live host_cloud) (ran script) ∧ (o_state (ran script).2 = None → live (ran script).1 = live host_cloud).
Proof.
  split; [by vm_compute|].
  apply (run_restores Config SameTenantScenario "abc123" where_ 3 (λ _, 2%nat) 0 0 None script "" false (live host_cloud) host_cloud);
    [split; [exact host_closed|done]| |by vm_compute].
  intros s i Hs. apply lookup_liveOf in Hs as ([|[|n]] & Hn & _); [done| |done]. by injection Hn as <-.
Defined.
End RunExamples.
