(* ===== verification/ScenZones.v ===== *)
(** * The scenarios of the zones (cmd/scenariotest/scenarios)

    How a scenario is declared: the calls its builder makes, its placement, its traffic and
    expectations, its script.  The scenarios that probe one billing zone or one way traffic takes;
    the descriptions are not kept. *)
From S2P Require Import Prelude GoStrings GoArgs GoJson Neutron Builder Scenario Cloud Realize Assert StepEnv Drive AgentCtl StepActs StepAsserts Steps.

Record Declared := mkDeclared {
  rg_Name : string; rg_Topology : list call; rg_Placement : Placement; rg_Flows : list Flow; rg_Expect : list Expect;
  rg_CreateExternalNets : list string; rg_Deferred : list string; rg_Steps : list Step }.

Section declarations.
Local Open Scope string_scope.
Local Open Scope Z_scope.
Definition tcp (from : string) (to : FlowTarget) (bytes : Z) : Flow := mkFlow from to bytes TCP.
Definition tx (tenant zone : string) (min : Z) : Expect := mkExpect tenant zone "tx" "" "" "" min.
Definition rx (tenant zone : string) (min : Z) : Expect := mkExpect tenant zone "rx" "" "" "" min.
Definition drive (flows : list Flow) : Step := DriveStep (mkDrive flows false false false).

Definition twoVMsSameTenant : Declared :=
  mkDeclared "twovms-same-tenant"
    [CNetwork Plain "net-T1" "T1"; CSubnet 0 "sub-T1" "10.0.1.0/24" "10.0.1.1"; CVM 0 "vm-a" "T1" "10.0.1.5";
     CVM 0 "vm-b" "T1" "10.0.1.6"; CNetwork External_ "net-ext" "admin"; CRouter "r-T1" "T1";
     CAttach 0 "sub-T1" "10.0.1.1"; CGateway 0 "net-ext"]
    ∅
    [tcp "vm-a" (VMTarget "vm-b") (1 ≪ 20)]
    [tx "T1" "same_tenant" (1 ≪ 20); rx "T1" "same_tenant" (1 ≪ 20)] [] [] [].

Definition vmToGateway : Declared :=
  mkDeclared "vm-to-gateway"
    [CNetwork Plain "net-T1" "T1"; CSubnet 0 "sub-T1" "10.0.1.0/24" "10.0.1.1"; CVM 0 "vm-a" "T1" "10.0.1.5";
     CNetwork External_ "net-ext" "admin"; CRouter "r-T1" "T1"; CAttach 0 "sub-T1" "10.0.1.1"; CGateway 0 "net-ext"]
    ∅
    [tcp "vm-a" (ExternalTarget "169.254.169.254") (5 * 60000)]
    [tx "T1" "infra" (1 ≪ 10); rx "T1" "infra" (1 ≪ 10)] [] [] [].

Definition vmToInternet : Declared :=
  mkDeclared "vm-to-internet"
    [CNetwork Plain "net-T1" "T1"; CSubnet 0 "sub-T1" "10.0.1.0/24" "10.0.1.1"; CVM 0 "vm-a" "T1" "10.0.1.5";
     CNetwork External_ "net-ext" "admin"; CRouter "r-T1" "T1"; CAttach 0 "sub-T1" "10.0.1.1"; CGateway 0 "net-ext"]
    ∅
    [tcp "vm-a" (ExternalTarget "8.8.8.8") (1 ≪ 20)]
    [tx "T1" "external" (1 ≪ 20); mkExpect "T1" "external" "tx" "net-ext" "" "" (1 ≪ 20);
     mkExpect "T1" "external" "tx" "net-ext" "vm-a" "" (1 ≪ 20)] [] [] [].

Definition crossTenantShared : Declared :=
  mkDeclared "cross-tenant-shared"
    [CNetwork Plain "net-T1" "T1"; CSubnet 0 "sub-T1" "10.0.1.0/24" "10.0.1.1"; CVM 0 "vm-a" "T1" "10.0.1.5";
     CNetwork Shared_ "net-shared" "admin"; CSubnet 1 "sub-shared" "10.10.0.0/24" "10.10.0.1";
     CVM 1 "vm-b" "T2" "10.10.0.5"; CNetwork External_ "net-ext" "admin"; CRouter "r-T1" "T1";
     CAttach 0 "sub-T1" "10.0.1.1"; CAttach 0 "sub-shared" "10.10.0.1"; CGateway 0 "net-ext"]
    ∅
    [tcp "vm-a" (VMTarget "vm-b") (1 ≪ 20); tcp "vm-b" (VMTarget "vm-a") (1 ≪ 20)]
    [tx "T1" "shared" (1 ≪ 20); rx "T1" "shared" (1 ≪ 20)] [] [] [].

Definition crossTenantRouted : Declared :=
  mkDeclared "cross-tenant-routed"
    [CNetwork Plain "net-T1" "T1"; CSubnet 0 "sub-T1" "10.0.0.0/24" "10.0.0.1"; CVM 0 "vm-a" "T1" "10.0.0.5";
     CNetwork Plain "net-T2" "T2"; CSubnet 1 "sub-T2" "10.50.0.0/24" "10.50.0.1"; CVM 1 "vm-b" "T2" "10.50.0.5";
     CNetwork Shared_ "net-transit" "admin"; CSubnet 2 "sub-transit" "192.168.100.0/24" "192.168.100.1";
     CNetwork External_ "net-ext" "admin"; CRouter "r-T1" "T1"; CAttach 0 "sub-T1" "10.0.0.1";
     CAttach 0 "sub-transit" "192.168.100.10"; CExtraRoute 0 "10.50.0.0/24" "192.168.100.20"; CGateway 0 "net-ext";
     CRouter "r-T2" "T2"; CAttach 1 "sub-T2" "10.50.0.1"; CAttach 1 "sub-transit" "192.168.100.20";
     CExtraRoute 1 "10.0.0.0/24" "192.168.100.10"; CGateway 1 "net-ext"]
    ∅
    [tcp "vm-a" (VMTarget "vm-b") (1 ≪ 20)]
    [tx "T1" "other_tenant" (1 ≪ 20); rx "T2" "other_tenant" (1 ≪ 20)] [] [] [].

Definition crossHostSameTenant : Declared :=
  mkDeclared "cross-host-same-tenant"
    [CNetwork Plain "net-T1" "T1"; CSubnet 0 "sub-T1" "10.0.14.0/24" "10.0.14.1"; CVM 0 "vm-a" "T1" "10.0.14.5";
     CVM 0 "vm-b" "T1" "10.0.14.6"; CNetwork External_ "net-ext" "admin"; CRouter "r-T1" "T1";
     CAttach 0 "sub-T1" "10.0.14.1"; CGateway 0 "net-ext"]
    {["vm-a" := "node:0"; "vm-b" := "node:1"]}
    [tcp "vm-a" (VMTarget "vm-b") (1 ≪ 20)]
    [mkExpect "T1" "same_tenant" "tx" "" "" "node:0" (1 ≪ 20);
     mkExpect "T1" "same_tenant" "rx" "" "" "node:1" (1 ≪ 20)] [] [] [].

Definition sameTenantRouted : Declared :=
  mkDeclared "same-tenant-routed"
    [CNetwork Plain "net-T1a" "T1"; CSubnet 0 "sub-T1a" "10.0.17.0/24" "10.0.17.1"; CVM 0 "vm-a" "T1" "10.0.17.5";
     CNetwork Plain "net-T1b" "T1"; CSubnet 1 "sub-T1b" "10.0.18.0/24" "10.0.18.1"; CVM 1 "vm-b" "T1" "10.0.18.5";
     CNetwork External_ "net-ext" "admin"; CRouter "r-T1" "T1"; CAttach 0 "sub-T1a" "10.0.17.1";
     CAttach 0 "sub-T1b" "10.0.18.1"; CGateway 0 "net-ext"]
    ∅
    [tcp "vm-a" (VMTarget "vm-b") (1 ≪ 20)]
    [tx "T1" "same_tenant" (1 ≪ 20); rx "T1" "same_tenant" (1 ≪ 20)] [] [] [].

Definition extrarouteSameTenant : Declared :=
  mkDeclared "extraroute-same-tenant"
    [CNetwork Plain "net-T1a" "T1"; CSubnet 0 "sub-T1a" "10.0.24.0/24" "10.0.24.1"; CVM 0 "vm-a" "T1" "10.0.24.5";
     CNetwork Plain "net-T1b" "T1"; CSubnet 1 "sub-T1b" "10.0.25.0/24" "10.0.25.1"; CVM 1 "vm-b" "T1" "10.0.25.5";
     CNetwork Shared_ "net-transit" "admin"; CSubnet 2 "sub-transit" "192.168.102.0/24" "192.168.102.1";
     CNetwork External_ "net-ext" "admin"; CRouter "r-a" "T1"; CAttach 0 "sub-T1a" "10.0.24.1";
     CAttach 0 "sub-transit" "192.168.102.10"; CExtraRoute 0 "10.0.25.0/24" "192.168.102.20"; CGateway 0 "net-ext";
     CRouter "r-b" "T1"; CAttach 1 "sub-T1b" "10.0.25.1"; CAttach 1 "sub-transit" "192.168.102.20";
     CExtraRoute 1 "10.0.24.0/24" "192.168.102.10"; CGateway 1 "net-ext"]
    ∅
    [tcp "vm-a" (VMTarget "vm-b") (1 ≪ 20)]
    [tx "T1" "same_tenant" (1 ≪ 20); rx "T1" "same_tenant" (1 ≪ 20)] [] [] [].

Definition multiHopChain : Declared :=
  mkDeclared "multi-hop-chain"
    [CNetwork Plain "net-T1" "T1"; CSubnet 0 "sub-T1" "10.0.26.0/24" "10.0.26.1"; CVM 0 "vm-a" "T1" "10.0.26.5";
     CNetwork Plain "net-T2" "T2"; CSubnet 1 "sub-T2" "10.0.27.0/24" "10.0.27.1"; CVM 1 "vm-b" "T2" "10.0.27.5";
     CNetwork Shared_ "net-transitA" "admin"; CSubnet 2 "sub-transitA" "192.168.103.0/24" "192.168.103.1";
     CNetwork Shared_ "net-transitB" "admin"; CSubnet 3 "sub-transitB" "192.168.104.0/24" "192.168.104.1";
     CNetwork External_ "net-ext" "admin"; CRouter "r-1" "T1"; CAttach 0 "sub-T1" "10.0.26.1";
     CAttach 0 "sub-transitA" "192.168.103.10"; CExtraRoute 0 "10.0.27.0/24" "192.168.103.20"; CGateway 0 "net-ext";
     CRouter "r-2" "admin"; CAttach 1 "sub-transitA" "192.168.103.20"; CAttach 1 "sub-transitB" "192.168.104.10";
     CExtraRoute 1 "10.0.27.0/24" "192.168.104.20"; CExtraRoute 1 "10.0.26.0/24" "192.168.103.10"; CRouter "r-3" "T2";
     CAttach 2 "sub-T2" "10.0.27.1"; CAttach 2 "sub-transitB" "192.168.104.20";
     CExtraRoute 2 "10.0.26.0/24" "192.168.104.10"; CGateway 2 "net-ext"]
    ∅
    [tcp "vm-a" (VMTarget "vm-b") (1 ≪ 20)]
    [tx "T1" "other_tenant" (1 ≪ 20); rx "T2" "other_tenant" (1 ≪ 20)] [] [] [].

Definition octaviaLBAttribution : Declared :=
  mkDeclared "octavia-lb-attribution"
    [CNetwork Plain "net-back" "T1"; CSubnet 0 "sub-back" "10.0.2.0/24" "10.0.2.1";
     CVM 0 "vm-back-c" "T1" "10.0.2.10"; CNetwork Shared_ "net-T1" "T1"; CSubnet 1 "sub-T1" "10.0.1.0/24" "10.0.1.1";
     CVM 1 "vm-client-t1" "T1" "10.0.1.5"; CVM 1 "vm-client-t2" "T2" "10.0.1.6"; CVM 1 "vm-back-a" "T1" "10.0.1.11";
     CVM 1 "vm-back-b" "T1" "10.0.1.12"; CLoadBalancer 1 "lb1" "T1" "service" "10.0.1.50" ActiveStandby;
     CMember 0 "sub-T1" "10.0.1.11" 8080; CMember 0 "sub-T1" "10.0.1.12" 8080; CMember 0 "sub-back" "10.0.2.10" 8080;
     CNetwork External_ "net-ext" "admin"; CRouter "r-T1" "T1"; CAttach 0 "sub-T1" "10.0.1.1";
     CAttach 0 "sub-back" "10.0.2.1"; CGateway 0 "net-ext"]
    ∅
    [tcp "vm-client-t1" (VIPTarget "lb1") (4 ≪ 20); tcp "vm-client-t2" (VIPTarget "lb1") (4 ≪ 20);
     tcp "vm-client-t1" (LBFIPTarget "lb1") (4 ≪ 20)]
    [tx "T1" "same_tenant" (4 ≪ 20); rx "T1" "same_tenant" (4 ≪ 20); tx "T2" "other_tenant" (4 ≪ 20);
     rx "T1" "other_tenant" (4 ≪ 20); tx "T1" "external" (4 ≪ 20); rx "T1" "external" (4 ≪ 20);
     tx "T1" "infra" (1 ≪ 20); rx "T1" "infra" (1 ≪ 20)] [] [] [].

Definition multicastNoiseBudget : Z := 256 ≪ 10.

Definition multicastZone : Declared :=
  mkDeclared "multicast-zone"
    [CNetwork Plain "net-T1" "T1"; CSubnet 0 "sub-T1" "10.0.15.0/24" "10.0.15.1"; CVM 0 "vm-a" "T1" "10.0.15.5";
     CNetwork External_ "net-ext" "admin"; CRouter "r-T1" "T1"; CAttach 0 "sub-T1" "10.0.15.1"; CGateway 0 "net-ext"]
    ∅ [] [] [] []
    [CaptureStep; drive [tcp "vm-a" (ExternalTarget "224.0.0.1") (1 ≪ 20)];
     AssertStep [tx "T1" "multicast" (1 ≪ 20)] "group-MAC frames bill multicast"; SleepStep (15 * second);
     MaxGrowthStep "T1" "external" multicastNoiseBudget "multicast must not fall into the external catchall";
     MaxGrowthStep "T1" "same_tenant" multicastNoiseBudget "multicast is not same_tenant";
     MaxGrowthStep "T1" "other_tenant" multicastNoiseBudget "multicast is not other_tenant"].

Definition fipIngressRx : Declared :=
  mkDeclared "fip-ingress-rx"
    [CNetwork Plain "net-T1" "T1"; CSubnet 0 "sub-T1" "10.0.16.0/24" "10.0.16.1"; CVM 0 "vm-a" "T1" "10.0.16.5";
     CNetwork External_ "net-ext" "admin"; CRouter "r-T1" "T1"; CAttach 0 "sub-T1" "10.0.16.1"; CGateway 0 "net-ext"]
    ∅ [] [] [] []
    [IngressFlowStep "vm-a" (4 ≪ 20); AssertStep [rx "T1" "external" (4 ≪ 20)] "FIP ingress bills external/rx"].

Definition hairpinNoiseBudget : Z := 256 ≪ 10.

Definition fipHairpin : Declared :=
  mkDeclared "fip-hairpin"
    [CNetwork Plain "net-T1" "T1"; CSubnet 0 "sub-T1" "10.0.19.0/24" "10.0.19.1"; CVM 0 "vm-a" "T1" "10.0.19.5";
     CVM 0 "vm-b" "T1" "10.0.19.6"; CNetwork External_ "net-ext" "admin"; CRouter "r-T1" "T1";
     CAttach 0 "sub-T1" "10.0.19.1"; CGateway 0 "net-ext"]
    ∅ [] [] [] []
    [CaptureStep; drive [tcp "vm-a" (FIPTarget "vm-b") (1 ≪ 20)];
     AssertStep [tx "T1" "external" (1 ≪ 20); rx "T1" "external" (1 ≪ 20)] "hairpin bills external both ways";
     SleepStep (15 * second);
     MaxGrowthStep "T1" "same_tenant" hairpinNoiseBudget "hairpin must not classify as same_tenant"].

Definition accuracyDriveBytes : Z := 8 ≪ 20.

Definition accuracyUpperBound : Z := Z.quot (accuracyDriveBytes * 115) 100.

Definition byteAccuracyBounds : Declared :=
  mkDeclared "byte-accuracy-bounds"
    [CNetwork Plain "net-T1" "T1"; CSubnet 0 "sub-T1" "10.0.20.0/24" "10.0.20.1"; CVM 0 "vm-a" "T1" "10.0.20.5";
     CVM 0 "vm-b" "T1" "10.0.20.6"; CNetwork External_ "net-ext" "admin"; CRouter "r-T1" "T1";
     CAttach 0 "sub-T1" "10.0.20.1"; CGateway 0 "net-ext"]
    ∅ [] [] [] []
    [CaptureStep; drive [tcp "vm-a" (VMTarget "vm-b") accuracyDriveBytes];
     AssertStep [tx "T1" "same_tenant" accuracyDriveBytes; rx "T1" "same_tenant" accuracyDriveBytes]
      "lower bound: all driven bytes attributed";
     SleepStep (15 * second);
     MaxGrowthStep "T1" "same_tenant" accuracyUpperBound "upper bound: no systematic overcount"].

Definition hostRouteDriveBytes : Z := 1 ≪ 20.

Definition hostRouteNoiseBudget : Z := 256 ≪ 10.

Definition hostRouteNexthop : Declared :=
  let dstCIDR := "10.0.82.0/24" in
  let dstProbeIP := "10.0.82.5" in
  let nexthopIP := "10.0.80.50" in
  mkDeclared "host-route-nexthop"
    [CNetwork Plain "net-T1" "T1"; CSubnet 0 "sub-T1" "10.0.80.0/24" "10.0.80.1"; CVM 0 "vm-a" "T1" "10.0.80.5";
     CVM 0 "vm-nh" "T1" nexthopIP; CNetwork External_ "net-ext" "admin"; CRouter "r-T1" "T1";
     CAttach 0 "sub-T1" "10.0.80.1"; CGateway 0 "net-ext"]
    ∅ [] [] [] []
    [AddRouteStep "vm-a" dstCIDR nexthopIP; CaptureStep;
     drive [tcp "vm-a" (ExternalTarget dstProbeIP) hostRouteDriveBytes];
     AssertStep [tx "T1" "same_tenant" hostRouteDriveBytes]
      "the peer MAC decided the zone, not the destination prefix";
     MaxGrowthStep "T1" "external" hostRouteNoiseBudget "MAC-first arm won — not the trie catchall"].

Definition spoofedMACUntracked : Declared :=
  mkDeclared "spoofed-mac-untracked"
    [CNetwork Plain "net-T1" "T1"; CSubnet 0 "sub-T1" "10.0.31.0/24" "10.0.31.1"; CVM 0 "vm-a" "T1" "10.0.31.5";
     CNetwork Shared_ "net-iso" "admin"; CSubnet 1 "sub-iso" "10.0.32.0/24" "10.0.32.1";
     CVM 1 "vm-b" "T2" "10.0.32.6"; CNetwork External_ "net-ext" "admin"; CRouter "r-T1" "T1";
     CAttach 0 "sub-T1" "10.0.31.1"; CGateway 0 "net-ext"; CRouter "r-iso" "admin"; CAttach 1 "sub-iso" "10.0.32.1";
     CGateway 1 "net-ext"]
    ∅ [] [] [] []
    [AttachPortStep (mkAttachPort "vm-a" "vm-a-forge" "net-iso" "sub-iso" "10.0.32.9" "" true []);
     ConfigureNICStep "vm-a" "eth1" "10.0.32.9/24"; CaptureStep; SetNICMACStep "vm-a" "eth1" "02:de:ad:be:ef:01";
     drive [tcp "vm-a" (ExternalTarget "10.0.32.6") (1 ≪ 20)];
     ZoneGrowthStep "unknown" "miss" "tx" (1 ≪ 20) 0 0 "forged frames park in unknown/miss";
     ZoneGrowthStep "T1" "shared" "tx" 0 (256 ≪ 10) 0 "no shared-zone attribution to the spoofing tenant";
     ZoneGrowthStep "T1" "same_tenant" "tx" 0 (256 ≪ 10) 0 "no same-tenant attribution to the spoofing tenant"].

Definition vrrpVMACLeak : Declared :=
  let vmac := "00:00:5e:00:01:2a" in
  mkDeclared "vrrp-vmac-leak"
    [CNetwork Plain "net-T1a" "T1"; CSubnet 0 "sub-T1a" "10.0.33.0/24" "10.0.33.1"; CVM 0 "vm-a" "T1" "10.0.33.5";
     CNetwork Plain "net-T1b" "T1"; CSubnet 1 "sub-T1b" "10.0.34.0/24" "10.0.34.1"; CVM 1 "vm-b" "T1" "10.0.34.6";
     CNetwork External_ "net-ext" "admin"; CRouter "r-T1" "T1"; CAttach 0 "sub-T1a" "10.0.33.1";
     CAttach 0 "sub-T1b" "10.0.34.1"; CGateway 0 "net-ext"]
    ∅ [] [] [] []
    [AttachPortStep (mkAttachPort "vm-a" "vm-a-vrrp" "net-T1b" "sub-T1b" "10.0.34.9" "" false [mkAddressPair
      "10.0.34.100" vmac; mkAddressPair "10.0.34.9" vmac]);
     ConfigureNICStep "vm-a" "eth1" "10.0.34.9/24"; CaptureStep; SetNICMACStep "vm-a" "eth1" vmac;
     drive [tcp "vm-a" (ExternalTarget "10.0.34.6") (1 ≪ 20)];
     ZoneGrowthStep "unknown" "miss" "tx" (1 ≪ 20) 0 0
      "PRE-FIX baseline: vMAC bytes leak to unknown (deferred item 9)";
     ZoneGrowthStep "T1" "same_tenant" "tx" 0 (1600 ≪ 10) 0 "vMAC bytes do not double-bill the owner today"].

Definition applianceDriveBytes : Z := 1 ≪ 20.

Definition applianceNoiseBudget : Z := 256 ≪ 10.

Definition applianceForwardedFloor : Z := Z.quot (applianceDriveBytes * 2) 3.

Definition vmApplianceNexthop : Declared :=
  let dstCIDR := "10.0.62.0/24" in
  mkDeclared "vm-appliance-nexthop"
    [CNetwork Plain "net-T1" "T1"; CSubnet 0 "sub-T1" "10.0.60.0/24" "10.0.60.1"; CVM 0 "vm-a" "T1" "10.0.60.5";
     CNetwork Plain "net-appl" "T2"; CSubnet 1 "sub-appl" "10.0.61.0/24" "10.0.61.1";
     CVM 1 "vm-appl" "T2" "10.0.61.5"; CNetwork Shared_ "net-transit" "admin";
     CSubnet 2 "sub-transit" "192.168.120.0/24" "192.168.120.1"; CNetwork Plain "net-T2" "T2";
     CSubnet 3 "sub-T2" dstCIDR "10.0.62.1"; CNetwork External_ "net-ext" "admin"; CRouter "r-T1" "T1";
     CAttach 0 "sub-T1" "10.0.60.1"; CAttach 0 "sub-transit" "192.168.120.10"; CExtraRoute 0 dstCIDR "192.168.120.50";
     CGateway 0 "net-ext"; CRouter "r-appl" "T2"; CAttach 1 "sub-appl" "10.0.61.1"; CGateway 1 "net-ext";
     CRouter "r-T2" "T2"; CAttach 2 "sub-transit" "192.168.120.20"; CAttach 2 "sub-T2" "10.0.62.1"]
    ∅ [] [] [] []
    [AttachPortStep (mkAttachPort "vm-appl" "vm-appl-transit" "net-transit" "sub-transit" "192.168.120.50" "" true
      []);
     ConfigureNICStep "vm-appl" "eth1" "192.168.120.50/24"; EnableForwardingStep "vm-appl";
     AddRouteStep "vm-appl" dstCIDR "192.168.120.20"; CaptureStep;
     drive [tcp "vm-a" (ExternalTarget "10.0.62.5") applianceDriveBytes];
     AssertStep [tx "T1" "shared" applianceDriveBytes] "compute nexthop resolves to the appliance's shared segment";
     MaxGrowthStep "T1" "external" applianceNoiseBudget "Step B fired — not the external catchall";
     ZoneGrowthStep "T2" "same_tenant" "tx" applianceForwardedFloor 0 0
      "case 21 double-count: the same bytes billed again at the appliance's tap"].
End declarations.
