(* ===== verification/ScenRoutes.v ===== *)
(** * The scenarios of the routes (cmd/scenariotest/scenarios)

    Loops, dead ends and long chains of static routes, and routes and gateways that change under
    way. *)
From S2P Require Import Prelude GoStrings GoArgs GoJson Neutron Builder Scenario Cloud Realize Assert StepEnv Drive AgentCtl StepActs StepAsserts Steps ScenZones.

Section declarations.
Local Open Scope string_scope.
Local Open Scope Z_scope.

Definition resolverCycle : Declared :=
  mkDeclared "resolver-cycle"
    [CNetwork Plain "net-T1" "T1"; CSubnet 0 "sub-T1" "10.0.21.0/24" "10.0.21.1"; CVM 0 "vm-a" "T1" "10.0.21.5";
     CNetwork Shared_ "net-transit" "admin"; CSubnet 1 "sub-transit" "192.168.101.0/24" "192.168.101.1";
     CNetwork External_ "net-ext" "admin"; CRouter "r-a" "T1"; CAttach 0 "sub-T1" "10.0.21.1";
     CAttach 0 "sub-transit" "192.168.101.10"; CExtraRoute 0 "10.99.0.0/24" "192.168.101.20"; CGateway 0 "net-ext";
     CRouter "r-b" "admin"; CAttach 1 "sub-transit" "192.168.101.20"; CExtraRoute 1 "10.99.0.0/24" "192.168.101.10"]
    ∅ [] [] [] []
    [AssertAnomalyStep "cycle" 1 32 0 "extraroute loop detected";
     drive [tcp "vm-a" (ExternalTarget "10.99.0.5") (1 ≪ 20)];
     AssertStep [tx "T1" "external" (1 ≪ 20)] "looped CIDR bills the external fallback"].

Definition resolverDanglingRoute : Declared :=
  mkDeclared "resolver-dangling-route"
    [CNetwork Plain "net-T1" "T1"; CSubnet 0 "sub-T1" "10.0.22.0/24" "10.0.22.1"; CVM 0 "vm-a" "T1" "10.0.22.5";
     CNetwork External_ "net-ext" "admin"; CRouter "r-T1" "T1"; CAttach 0 "sub-T1" "10.0.22.1";
     CExtraRoute 0 "10.98.0.0/24" "10.0.22.99"; CGateway 0 "net-ext"]
    ∅ [] [] [] []
    [AssertAnomalyStep "dangling_route" 1 1 0 "the black-hole nexthop is reported";
     drive [tcp "vm-a" (ExternalTarget "10.98.0.5") (1 ≪ 20)];
     AssertStep [tx "T1" "external" (1 ≪ 20)] "dangling-routed CIDR bills the external fallback"].

Definition reconcileSettle : Z := 60 * second.

Definition extrarouteMutation : Declared :=
  mkDeclared "extraroute-mutation"
    [CNetwork Plain "net-T1" "T1"; CSubnet 0 "sub-T1" "10.0.40.0/24" "10.0.40.1"; CVM 0 "vm-a" "T1" "10.0.40.5";
     CNetwork Plain "net-T2" "T2"; CSubnet 1 "sub-T2" "10.0.41.0/24" "10.0.41.1"; CVM 1 "vm-b" "T2" "10.0.41.5";
     CNetwork Shared_ "net-transit" "admin"; CSubnet 2 "sub-transit" "192.168.110.0/24" "192.168.110.1";
     CNetwork External_ "net-ext" "admin"; CRouter "r-T1" "T1"; CAttach 0 "sub-T1" "10.0.40.1";
     CAttach 0 "sub-transit" "192.168.110.10"; CGateway 0 "net-ext"; CRouter "r-T2" "T2";
     CAttach 1 "sub-T2" "10.0.41.1"; CAttach 1 "sub-transit" "192.168.110.20"; CGateway 1 "net-ext"]
    ∅ [] [] [] []
    [CaptureStep; drive [tcp "vm-a" (ExternalTarget "10.0.41.5") (1 ≪ 20)];
     AssertStep [tx "T1" "external" (1 ≪ 20)] "pre-route: external catchall";
     SetRouterRoutesStep "r-T1" [mkRouteSpec "10.0.41.0/24" "192.168.110.20"];
     SetRouterRoutesStep "r-T2" [mkRouteSpec "10.0.40.0/24" "192.168.110.10"]; SleepStep reconcileSettle; CaptureStep;
     drive [tcp "vm-a" (VMTarget "vm-b") (1 ≪ 20)];
     AssertStep [tx "T1" "other_tenant" (1 ≪ 20)] "post-route: zone flipped to other_tenant";
     MaxGrowthStep "unknown" "miss" (256 ≪ 10) "no MISS blip across the route change"].

Definition routerRegateway : Declared :=
  mkDeclared "router-regateway"
    [CNetwork Plain "net-T1" "T1"; CSubnet 0 "sub-T1" "10.0.42.0/24" "10.0.42.1"; CVM 0 "vm-a" "T1" "10.0.42.5";
     CNetwork External_ "net-ext" "admin"; CNetwork External_ "net-ext2" "admin";
     CSubnet 2 "sub-ext2" "172.24.98.0/24" "172.24.98.1"; CRouter "r-T1" "T1"; CAttach 0 "sub-T1" "10.0.42.1";
     CGateway 0 "net-ext"]
    ∅ [] [] ["net-ext2"] []
    [drive [tcp "vm-a" (ExternalTarget "8.8.8.8") (1 ≪ 20)];
     AssertStep [mkExpect "T1" "external" "tx" "net-ext" "" "" (1 ≪ 20)] "egress under the provider external net";
     CaptureStep; DeleteFIPStep "vm-a" "" true; SetRouterGatewayStep "r-T1" "net-ext2"; SleepStep reconcileSettle;
     FlowsFoldedStep "vm-a" "external" (256 ≪ 10) 0 "A→B re-gateway folded the old-label flows";
     MonotoneStep "T1" "net-ext series frozen and monotone after A→B"; SetRouterGatewayStep "r-T1" "net-ext";
     SleepStep reconcileSettle; MonotoneStep "T1" "net-ext series still whole after B→A";
     MaxGrowthStep "T1" "external" (256 ≪ 10) "round trip conserved the accumulation — no double-count on fold-back";
     AssociateFIPStep "vm-a" "net-ext";
     DriveStep (mkDrive [tcp "vm-a" (ExternalTarget "8.8.8.8") (2 ≪ 20)] true false false);
     AssertStep [mkExpect "T1" "external" "tx" "net-ext" "" "" (3 ≪ 20)]
      "live traffic resumes on top of the settled total (1 MiB settled + 2 MiB live = 3 MiB)"].

Definition multiExternalPath : Declared :=
  mkDeclared "multi-external-path"
    [CNetwork Plain "net-T1" "T1"; CSubnet 0 "sub-T1" "10.0.11.0/24" "10.0.11.1"; CVM 0 "vm-a" "T1" "10.0.11.5";
     CNetwork External_ "net-ext" "admin"; CNetwork External_ "net-ext2" "T1";
     CSubnet 2 "sub-ext2" "172.24.99.0/24" "172.24.99.1"; CRouter "r-T1" "T1"; CAttach 0 "sub-T1" "10.0.11.1";
     CGateway 0 "net-ext"; CRouter "r-ext2" "T1"; CAttach 1 "sub-T1" "10.0.11.254"; CGateway 1 "net-ext2";
     CRouter "r-nogw" "T1"; CAttach 2 "sub-T1" "10.0.11.253"]
    ∅ [] [] ["net-ext2"] []
    [AssertAnomalyStep "multi_external_path" 0 0 0 "single external path — no anomaly";
     AssociateFIPStep "vm-a" "net-ext2";
     AssertAnomalyStep "multi_external_path" 1 1 0 "second FIP surfaces the ambiguity"; CaptureStep;
     drive [tcp "vm-a" (ExternalTarget "8.8.8.8") (1 ≪ 20)];
     AssertStep [mkExpect "T1" "external" "tx" "net-ext" "" "" (1 ≪ 20); mkExpect "T1" "external" "tx" "net-ext"
      "vm-a" "" (1 ≪ 20)] "default route bills under the carrying network";
     AddRouteStep "vm-a" "8.8.9.0/24" "10.0.11.254"; CaptureStep;
     drive [tcp "vm-a" (ExternalTarget "8.8.9.9") (1 ≪ 20)];
     AssertStep [mkExpect "T1" "external" "tx" "net-ext2" "" "" (1 ≪ 20); mkExpect "T1" "external" "tx" "net-ext2"
      "vm-a" "" (1 ≪ 20)] "second-router flow bills under ITS carrying network";
     AssertFlowPeerStep "r-ext2" "10.0.11.254" "external" (1 ≪ 20) "steered bytes observed on r-ext2's interface";
     AddRouteStep "vm-a" "8.8.10.0/24" "10.0.11.253"; CaptureStep;
     drive [tcp "vm-a" (ExternalTarget "8.8.10.9") (1 ≪ 20)];
     AssertStep [mkExpect "T1" "external" "tx" "net-ext" "" "" (1 ≪ 20); mkExpect "T1" "external" "tx" "net-ext"
      "vm-a" "" (1 ≪ 20)] "gateway-less router falls back to the per-VM attribution";
     AssertFlowPeerStep "r-nogw" "10.0.11.253" "external" (1 ≪ 20)
      "fallback bytes observed on the gateway-less interface";
     DeleteFIPStep "vm-a" "net-ext2" false;
     AssertAnomalyStep "multi_external_path" 0 0 0 "ambiguity clears after FIP removal";
     MonotoneStep "T1" "series stable through FIP churn"].

(** ** Chains at the hop limit *)

Definition resolverMaxHops : nat := 4.
Definition maxHopsSteps (dstIP zone : string) : list Step :=
  [RestartAgentStep (mkRestart "node:0" {["reconcile.interval" := "15s"]} false false false 0 0) [];
   ReloadAgentStep "node:0" {["neutron.max_static_route_hops" := FormatUint (Z.of_nat resolverMaxHops)]};
   SleepStep reconcileSettle; drive [tcp "vm-a" (ExternalTarget dstIP) (1 ≪ 20)];
   AssertStep [tx "T1" zone (1 ≪ 20)] "";
   RestartAgentStep (mkRestart "node:0" ∅ true false false 0 0) []].
Definition gatewayOf (cidr : string) : string := TrimSuffix cidr "0/24" +:+ "1".
(** "t%d", "r-%d" and "172.30.%d." *)
Definition leg (i : nat) : string := "t" +:+ FormatUint (Z.of_nat i).
Definition rtr (i : nat) : string := "r-" +:+ FormatUint (Z.of_nat i).
Definition legNet (i : nat) (host : string) : string := "172.30." +:+ FormatUint (Z.of_nat i) +:+ "." +:+ host.
(** Router [i] of the chain is the cursor [i]; the transit network is the second one. *)
Definition chainHop (dstCIDR : string) (i : nat) : list call :=
  [CRouter (rtr i) "admin"; CAttach i (leg i) (legNet i "20"); CAttach i (leg (S i)) (legNet (S i) "10");
   CExtraRoute i dstCIDR (legNet (S i) "20")].
Definition chainedRouteTopology (hops : nat) (dstCIDR : string) : list call :=
  [CNetwork Plain "net-T1" "T1"; CSubnet 0 "sub-src" "10.0.28.0/24" "10.0.28.1"; CVM 0 "vm-a" "T1" "10.0.28.5";
   CNetwork Shared_ "net-transit" "admin"]
  ++ ((λ i, CSubnet 1 (leg i) (legNet i "0/24") (legNet i "1")) <$> seq 1 hops)
  ++ [CNetwork Plain "net-T2" "T2"; CSubnet 2 "sub-dst" dstCIDR (gatewayOf dstCIDR); CNetwork External_ "net-ext" "admin";
      CRouter "r-0" "T1"; CAttach 0 "sub-src" "10.0.28.1"; CAttach 0 "t1" "172.30.1.10";
      CExtraRoute 0 dstCIDR "172.30.1.20"; CGateway 0 "net-ext"]
  ++ (seq 1 (hops - 1) ≫= chainHop dstCIDR)
  ++ [CRouter (rtr hops) "T2"; CAttach hops (leg hops) (legNet hops "20"); CAttach hops "sub-dst" (gatewayOf dstCIDR)].

Definition maxHopsAtLimit : Declared :=
  let dstCIDR := "10.0.29.0/24" in
  mkDeclared "max-hops-at-limit"
    (chainedRouteTopology resolverMaxHops dstCIDR)
    {["vm-a" := "node:0"]} [] [] [] []
    (maxHopsSteps "10.0.29.5" "other_tenant").

Definition maxHopsExceeded : Declared :=
  let dstCIDR := "10.0.30.0/24" in
  mkDeclared "max-hops-exceeded"
    (chainedRouteTopology (S resolverMaxHops) dstCIDR)
    {["vm-a" := "node:0"]} [] [] [] []
    (maxHopsSteps "10.0.30.5" "external").
End declarations.
