(* ===== verification/ScenLife.v ===== *)
(** * The scenarios of lives and restarts (cmd/scenariotest/scenarios)

    Machines and NICs that are deleted, moved and born again, and agents that are restarted, cut off
    or short of room, with the series expected to hold through it. *)
From S2P Require Import Prelude GoStrings GoArgs GoJson Neutron Builder Scenario Cloud Realize Assert StepEnv Drive AgentCtl StepActs StepAsserts Steps ScenZones.

Section declarations.
Local Open Scope string_scope.
Local Open Scope Z_scope.

Definition rebornNoiseBudget : Z := 256 ≪ 10.

Definition macReuse : Declared :=
  mkDeclared "mac-reuse"
    [CNetwork Plain "net-T1" "T1"; CSubnet 0 "sub-T1" "10.0.7.0/24" "10.0.7.1"; CVM 0 "vm-a" "T1" "10.0.7.5";
     CVM 0 "vm-b" "T1" "10.0.7.6"; CNetwork Plain "net-T2" "T2"; CSubnet 1 "sub-T2" "10.0.8.0/24" "10.0.8.1";
     CVM 1 "vm-c" "T2" "10.0.8.5"; CVM 1 "vm-d" "T2" "10.0.8.6"; CNetwork External_ "net-ext" "admin";
     CRouter "r-T1" "T1"; CAttach 0 "sub-T1" "10.0.7.1"; CGateway 0 "net-ext"; CRouter "r-T2" "T2";
     CAttach 1 "sub-T2" "10.0.8.1"; CGateway 1 "net-ext"]
    ∅ [] [] [] ["vm-d"]
    [drive [tcp "vm-a" (VMTarget "vm-b") (1 ≪ 20)];
     AssertStep [tx "T1" "same_tenant" (1 ≪ 20); rx "T1" "same_tenant" (1 ≪ 20)] "tenant A drive"; CaptureStep;
     DeleteVMStep "vm-a"; AwaitSweepStep "vm-a" 0; MonotoneStep "T1" "monotone across ghost sweep";
     MaxGrowthStep "unknown" "same_tenant" rebornNoiseBudget "no re-bucket to unknown"; BootVMStep "vm-d" "vm-a";
     MaxGrowthStep "T2" "same_tenant" rebornNoiseBudget "reborn MAC starts from zero";
     drive [tcp "vm-d" (VMTarget "vm-c") (1 ≪ 20)];
     AssertStep [tx "T2" "same_tenant" (1 ≪ 20); rx "T2" "same_tenant" (1 ≪ 20)] "tenant B drive";
     MonotoneStep "T1" "old tenant unchanged after reuse"].

Definition migrationNoiseBudget : Z := 256 ≪ 10.

Definition liveMigrationContinuity : Declared :=
  mkDeclared "live-migration-continuity"
    [CNetwork Plain "net-T1" "T1"; CSubnet 0 "sub-T1" "10.0.15.0/24" "10.0.15.1"; CVM 0 "vm-a" "T1" "10.0.15.5";
     CVM 0 "vm-b" "T1" "10.0.15.6"; CNetwork External_ "net-ext" "admin"; CRouter "r-T1" "T1";
     CAttach 0 "sub-T1" "10.0.15.1"; CGateway 0 "net-ext"]
    {["vm-a" := "node:0"; "vm-b" := "node:1"]} [] [] [] []
    [drive [tcp "vm-a" (VMTarget "vm-b") (1 ≪ 20)];
     AssertStep [mkExpect "T1" "same_tenant" "tx" "" "" "node:0" (1 ≪ 20); mkExpect "T1" "same_tenant" "rx" "" ""
      "node:1" (1 ≪ 20)] "pre-migration drive";
     CaptureStep; MigrateStep "vm-a" "node:1" true 0; MonotoneStep "T1" "monotone across live migration";
     MaxGrowthStep "unknown" "same_tenant" migrationNoiseBudget "no re-bucket to unknown";
     drive [tcp "vm-a" (VMTarget "vm-b") (1 ≪ 20)];
     AssertStep [mkExpect "T1" "same_tenant" "tx" "" "vm-a" "node:1" (1 ≪ 20); mkExpect "T1" "same_tenant" "rx" "" ""
      "node:1" (1 ≪ 20)] "post-migration drive";
     MonotoneStep "T1" "series intact at scenario end"].

Definition walRestartContinuity : Declared :=
  mkDeclared "wal-restart-continuity"
    [CNetwork Plain "net-T1" "T1"; CSubnet 0 "sub-T1" "10.0.28.0/24" "10.0.28.1"; CVM 0 "vm-a" "T1" "10.0.28.5";
     CVM 0 "vm-b" "T1" "10.0.28.6"; CNetwork External_ "net-ext" "admin"; CRouter "r-T1" "T1";
     CAttach 0 "sub-T1" "10.0.28.1"; CGateway 0 "net-ext"]
    {["vm-a" := "node:0"; "vm-b" := "node:0"]} [] [] [] []
    [drive [tcp "vm-a" (VMTarget "vm-b") (1 ≪ 20)];
     AssertStep [tx "T1" "same_tenant" (1 ≪ 20); rx "T1" "same_tenant" (1 ≪ 20)] "pre-restart drive"; CaptureStep;
     RestartAgentStep (mkRestart "node:0" ∅ false false false 0 0) [];
     MonotoneStep "T1" "series monotone across agent restart"; drive [tcp "vm-a" (VMTarget "vm-b") (1 ≪ 20)];
     AssertStep [mkExpect "T1" "same_tenant" "tx" "" "vm-a" "" (1 ≪ 20)] "post-restart drive";
     MonotoneStep "T1" "series intact at scenario end"].

Definition vmDeletedWhileAgentDown : Declared :=
  mkDeclared "vm-deleted-while-agent-down"
    [CNetwork Plain "net-T1" "T1"; CSubnet 0 "sub-T1" "10.0.28.0/24" "10.0.28.1"; CVM 0 "vm-a" "T1" "10.0.28.5";
     CVM 0 "vm-b" "T1" "10.0.28.6"; CNetwork External_ "net-ext" "admin"; CRouter "r-T1" "T1";
     CAttach 0 "sub-T1" "10.0.28.1"; CGateway 0 "net-ext"]
    {["vm-a" := "node:0"; "vm-b" := "node:0"]} [] [] [] []
    [drive [tcp "vm-a" (VMTarget "vm-b") (1 ≪ 20)];
     AssertStep [mkExpect "T1" "same_tenant" "rx" "" "vm-b" "" (1 ≪ 20)] "pre-outage drive"; CaptureStep;
     RestartAgentStep (mkRestart "node:0" ∅ false false false 1 0) [DeleteVMStep "vm-b"];
     MonotoneStep "T1" "tenant series monotone across the outage";
     MaxGrowthStep "unknown" "same_tenant" (256 ≪ 10) "deleted VM's history did not re-bucket to unknown"].

Definition agentColdRestart : Declared :=
  let drainWait := 15 * second in
  mkDeclared "agent-cold-restart"
    [CNetwork Plain "net-T1" "T1"; CSubnet 0 "sub-T1" "10.0.34.0/24" "10.0.34.1"; CVM 0 "vm-a" "T1" "10.0.34.5";
     CVM 0 "vm-b" "T1" "10.0.34.6"; CNetwork External_ "net-ext" "admin"; CRouter "r-T1" "T1";
     CAttach 0 "sub-T1" "10.0.34.1"; CGateway 0 "net-ext"]
    {["vm-a" := "node:0"; "vm-b" := "node:0"]} [] [] [] []
    [drive [tcp "vm-a" (VMTarget "vm-b") (1 ≪ 20)]; AssertStep [tx "T1" "same_tenant" (1 ≪ 20)] "baseline drive";
     CaptureStep; RestartAgentStep (mkRestart "node:0" ∅ false false false 0 0) [];
     EpochStep "node:0" false "warm restart carries the stored epoch";
     MonotoneStep "T1" "series monotone across the warm restart"; CaptureStep;
     RestartAgentStep (mkRestart "node:0" ∅ false true false 0 0) [];
     EpochStep "node:0" true "WAL loss stamps a fresh epoch (adopted pins)"; SleepStep drainWait;
     drive [tcp "vm-a" (VMTarget "vm-b") (1 ≪ 20)];
     AssertStep [tx "T1" "same_tenant" (1 ≪ 20)] "adopted counters keep counting after WAL loss"; CaptureStep;
     RestartAgentStep (mkRestart "node:0" ∅ false true true 0 0) [];
     EpochStep "node:0" true "WAL+pin loss stamps a fresh epoch (zero restart)"; SleepStep drainWait;
     drive [tcp "vm-a" (VMTarget "vm-b") (1 ≪ 20)];
     AssertStep [tx "T1" "same_tenant" (1 ≪ 20)] "fresh counters accrue after the zero restart"].

Definition liveMigrateRoundTrip : Declared :=
  mkDeclared "live-migrate-round-trip"
    [CNetwork Plain "net-T1" "T1"; CSubnet 0 "sub-T1" "10.0.27.0/24" "10.0.27.1"; CVM 0 "vm-a" "T1" "10.0.27.5";
     CVM 0 "vm-b" "T1" "10.0.27.6"; CNetwork External_ "net-ext" "admin"; CRouter "r-T1" "T1";
     CAttach 0 "sub-T1" "10.0.27.1"; CGateway 0 "net-ext"]
    {["vm-a" := "node:0"; "vm-b" := "node:1"]} [] [] [] []
    [drive [tcp "vm-a" (VMTarget "vm-b") (1 ≪ 20)];
     AssertStep [mkExpect "T1" "same_tenant" "tx" "" "" "node:0" (1 ≪ 20); mkExpect "T1" "same_tenant" "rx" "" ""
      "node:1" (1 ≪ 20)] "pre-migration drive";
     CaptureStep; MigrateStep "vm-a" "node:1" false 0; MaxGhostsStep 0 "outbound migration marks no ghost";
     ServerMonotoneStep "vm-a" "per-server series monotone across outbound leg";
     MonotoneStep "T1" "tenant monotone across outbound leg";
     MaxGrowthStep "unknown" "same_tenant" migrationNoiseBudget "no re-bucket to unknown (outbound)";
     drive [tcp "vm-a" (VMTarget "vm-b") (1 ≪ 20)];
     AssertStep [mkExpect "T1" "same_tenant" "tx" "" "vm-a" "node:1" (1 ≪ 20)] "drive while away"; CaptureStep;
     MigrateStep "vm-a" "node:0" false 0; MaxGhostsStep 0 "return migration marks no ghost";
     ServerMonotoneStep "vm-a" "per-server series monotone across return leg";
     MonotoneStep "T1" "tenant monotone across return leg";
     MaxGrowthStep "unknown" "same_tenant" migrationNoiseBudget "no re-bucket to unknown (return)";
     drive [tcp "vm-a" (VMTarget "vm-b") (1 ≪ 20)];
     AssertStep [mkExpect "T1" "same_tenant" "tx" "" "vm-a" "node:0" (1 ≪ 20); mkExpect "T1" "same_tenant" "rx" "" ""
      "node:1" (1 ≪ 20)] "post-return drive — home node observes new bytes";
     MonotoneStep "T1" "series intact at scenario end"].

Definition multiPortPartialDelete : Declared :=
  mkDeclared "multi-port-partial-delete"
    [CNetwork Plain "net-T1" "T1"; CSubnet 0 "sub-T1" "10.0.21.0/24" "10.0.21.1"; CVM 0 "vm-a" "T1" "10.0.21.5";
     CVM 0 "vm-b" "T1" "10.0.21.6"; CNetwork Plain "net-T1b" "T1"; CSubnet 1 "sub-T1b" "10.0.22.0/24" "10.0.22.1";
     CVM 1 "vm-c" "T1" "10.0.22.5"; CNetwork External_ "net-ext" "admin"; CRouter "r-T1" "T1";
     CAttach 0 "sub-T1" "10.0.21.1"; CAttach 0 "sub-T1b" "10.0.22.1"; CGateway 0 "net-ext"]
    ∅ [] [] [] []
    [AttachPortStep (mkAttachPort "vm-a" "vm-a-nic2" "net-T1b" "sub-T1b" "10.0.22.9" "" false []);
     ConfigureNICStep "vm-a" "eth1" "10.0.22.9/24";
     drive [tcp "vm-a" (VMTarget "vm-b") (1 ≪ 20); tcp "vm-a" (VMTarget "vm-c") (1 ≪ 20)];
     AssertStep [tx "T1" "same_tenant" (2 ≪ 20); mkExpect "T1" "same_tenant" "tx" "" "vm-a" "" (2 ≪ 20)]
      "two-NIC drive";
     CaptureStep; DetachPortStep "vm-a" "vm-a-nic2" true; AwaitSweepStep "vm-a-nic2" 0;
     ServerMonotoneStep "vm-a" "per-server series survives a partial fold (lachesis#226)";
     MonotoneStep "T1" "tenant plane invariant across the fold"; drive [tcp "vm-a" (VMTarget "vm-b") (1 ≪ 20)];
     AssertStep [mkExpect "T1" "same_tenant" "tx" "" "vm-a" "" (1 ≪ 20)] "surviving NIC accrues"].

Definition portRecreateSameServer : Declared :=
  mkDeclared "port-recreate-same-server"
    [CNetwork Plain "net-T1" "T1"; CSubnet 0 "sub-T1" "10.0.23.0/24" "10.0.23.1"; CVM 0 "vm-a" "T1" "10.0.23.5";
     CNetwork Plain "net-T1b" "T1"; CSubnet 1 "sub-T1b" "10.0.24.0/24" "10.0.24.1"; CVM 1 "vm-b" "T1" "10.0.24.5";
     CNetwork External_ "net-ext" "admin"; CRouter "r-T1" "T1"; CAttach 0 "sub-T1" "10.0.23.1";
     CAttach 0 "sub-T1b" "10.0.24.1"; CGateway 0 "net-ext"]
    ∅ [] [] [] []
    [AttachPortStep (mkAttachPort "vm-a" "vm-a-nic2" "net-T1b" "sub-T1b" "10.0.24.9" "" false []);
     ConfigureNICStep "vm-a" "eth1" "10.0.24.9/24"; drive [tcp "vm-a" (VMTarget "vm-b") (2 ≪ 20)];
     AssertStep [mkExpect "T1" "same_tenant" "tx" "" "vm-a" "" (2 ≪ 20)] "pre-delete drive"; CaptureStep;
     DetachPortStep "vm-a" "vm-a-nic2" true; AwaitSweepStep "vm-a-nic2" 0;
     MonotoneStep "T1" "tenant plane invariant across the fold";
     AttachPortStep (mkAttachPort "vm-a" "vm-a-nic3" "net-T1b" "sub-T1b" "10.0.24.9" "" false []);
     ConfigureNICStep "vm-a" "eth1" "10.0.24.9/24"; drive [tcp "vm-a" (VMTarget "vm-b") (1 ≪ 20)];
     AssertStep [mkExpect "T1" "same_tenant" "tx" "" "vm-a" "" (1 ≪ 20)] "post-rebirth drive";
     ServerMonotoneStep "vm-a" "reborn tuple continues from the carried value (lachesis#227)";
     MonotoneStep "T1" "tenant plane invariant at scenario end"].

Definition interfaceDetachReattach : Declared :=
  mkDeclared "interface-detach-reattach"
    [CNetwork Plain "net-T1" "T1"; CSubnet 0 "sub-T1" "10.0.25.0/24" "10.0.25.1"; CVM 0 "vm-a" "T1" "10.0.25.5";
     CNetwork Plain "net-T1b" "T1"; CSubnet 1 "sub-T1b" "10.0.26.0/24" "10.0.26.1"; CVM 1 "vm-b" "T1" "10.0.26.5";
     CNetwork External_ "net-ext" "admin"; CRouter "r-T1" "T1"; CAttach 0 "sub-T1" "10.0.25.1";
     CAttach 0 "sub-T1b" "10.0.26.1"; CGateway 0 "net-ext"]
    ∅ [] [] [] []
    [AttachPortStep (mkAttachPort "vm-a" "vm-a-nic2" "net-T1b" "sub-T1b" "10.0.26.9" "" false []);
     ConfigureNICStep "vm-a" "eth1" "10.0.26.9/24"; drive [tcp "vm-a" (VMTarget "vm-b") (2 ≪ 20)];
     AssertStep [mkExpect "T1" "same_tenant" "tx" "" "vm-a" "" (2 ≪ 20)] "pre-detach drive"; CaptureStep;
     DetachPortStep "vm-a" "vm-a-nic2" false; ReattachPortStep "vm-a" "vm-a-nic2";
     ConfigureNICStep "vm-a" "eth1" "10.0.26.9/24"; ServerMonotoneStep "vm-a" "fast reattach within grace — no dip";
     drive [tcp "vm-a" (VMTarget "vm-b") (1 ≪ 20)];
     AssertStep [mkExpect "T1" "same_tenant" "tx" "" "vm-a" "" (1 ≪ 20)]
      "post-fast-reattach drive (no double-count is the tenant monotone below)";
     MonotoneStep "T1" "tenant plane intact across fast cycle"; CaptureStep; DetachPortStep "vm-a" "vm-a-nic2" false;
     AwaitSweepStep "vm-a-nic2" 0; ReattachPortStep "vm-a" "vm-a-nic2"; ConfigureNICStep "vm-a" "eth1" "10.0.26.9/24";
     drive [tcp "vm-a" (VMTarget "vm-b") (1 ≪ 20)];
     ServerMonotoneStep "vm-a" "reattach after sweep continues from the carried value (lachesis#227)";
     MonotoneStep "T1" "tenant plane invariant at scenario end"].

Definition macPinnedPortRecreate : Declared :=
  mkDeclared "mac-pinned-port-recreate"
    [CNetwork Plain "net-T1" "T1"; CSubnet 0 "sub-T1" "10.0.28.0/24" "10.0.28.1"; CVM 0 "vm-a" "T1" "10.0.28.5";
     CNetwork Plain "net-T1b" "T1"; CSubnet 1 "sub-T1b" "10.0.29.0/24" "10.0.29.1"; CVM 1 "vm-b" "T1" "10.0.29.5";
     CNetwork External_ "net-ext" "admin"; CRouter "r-T1" "T1"; CAttach 0 "sub-T1" "10.0.28.1";
     CAttach 0 "sub-T1b" "10.0.29.1"; CGateway 0 "net-ext"]
    {["vm-a" := "node:0"; "vm-b" := "node:0"]} [] [] [] []
    [RestartAgentStep (mkRestart "node:0" {["kafka.enabled" := "false"; "reconcile.interval" := "60s"]} false false
      false 0 0) [];
     AttachPortStep (mkAttachPort "vm-a" "vm-a-nic2" "net-T1b" "sub-T1b" "10.0.29.9" "" false []);
     ConfigureNICStep "vm-a" "eth1" "10.0.29.9/24"; drive [tcp "vm-a" (VMTarget "vm-b") (1 ≪ 20)];
     AssertStep [mkExpect "T1" "same_tenant" "tx" "" "vm-a" "" (1 ≪ 20)] "baseline drive";
     PortSeriesStep "vm-a" "vm-a-nic2" (f64 (1 ≪ 20)) 0 "baseline traffic attributes to nic2's port_id";
     DetachPortStep "vm-a" "vm-a-nic2" true;
     AttachPortStep (mkAttachPort "vm-a" "vm-a-nic3" "net-T1b" "sub-T1b" "10.0.29.9" "vm-a-nic2" false []);
     ConfigureNICStep "vm-a" "eth1" "10.0.29.9/24";
     AwaitPortBindingStep "vm-a" "vm-a-nic3" (2 * minute) "reconcile rebinds the reused MAC to the reborn port";
     drive [tcp "vm-a" (VMTarget "vm-b") (1 ≪ 20)];
     PortSeriesStep "vm-a" "vm-a-nic3" (f64 (1 ≪ 20)) 0 "rebirth traffic attributes to the NEW port_id";
     MonotoneStep "T1" "tenant plane invariant throughout";
     RestartAgentStep (mkRestart "node:0" ∅ true false false 0 0) []].

Definition portMoveAcrossServers : Declared :=
  mkDeclared "port-move-across-servers"
    [CNetwork Plain "net-T1" "T1"; CSubnet 0 "sub-T1" "10.0.32.0/24" "10.0.32.1"; CVM 0 "vm-a" "T1" "10.0.32.5";
     CVM 0 "vm-b" "T1" "10.0.32.6"; CNetwork Plain "net-T1b" "T1"; CSubnet 1 "sub-T1b" "10.0.33.0/24" "10.0.33.1";
     CVM 1 "vm-c" "T1" "10.0.33.5"; CNetwork External_ "net-ext" "admin"; CRouter "r-T1" "T1";
     CAttach 0 "sub-T1" "10.0.32.1"; CAttach 0 "sub-T1b" "10.0.33.1"; CGateway 0 "net-ext"]
    ∅ [] [] [] []
    [AttachPortStep (mkAttachPort "vm-a" "vm-a-nic2" "net-T1b" "sub-T1b" "10.0.33.9" "" false []);
     ConfigureNICStep "vm-a" "eth1" "10.0.33.9/24"; drive [tcp "vm-a" (VMTarget "vm-c") (1 ≪ 20)];
     AssertStep [mkExpect "T1" "same_tenant" "tx" "" "vm-a" "" (1 ≪ 20)] "pre-move drive lands on the donor";
     PortSeriesStep "vm-a" "vm-a-nic2" (f64 (1 ≪ 20)) 0 "pre-move traffic attributes to the mobile port"; CaptureStep;
     DetachPortStep "vm-a" "vm-a-nic2" false; ReattachPortStep "vm-b" "vm-a-nic2";
     ConfigureNICStep "vm-b" "eth1" "10.0.33.9/24"; drive [tcp "vm-b" (VMTarget "vm-c") (1 ≪ 20)];
     AssertStep [mkExpect "T1" "same_tenant" "tx" "" "vm-b" "" (1 ≪ 20)] "post-move drive lands on the recipient";
     ServerMonotoneStep "vm-a" "donor's series holds across the move (server-settled flat line)";
     PortSeriesStep "vm-b" "vm-a-nic2" (f64 (1 ≪ 20)) 0
      "port series re-homes with the port (post-move bytes under Y)";
     MonotoneStep "T1" "tenant plane invariant across the outbound move"; CaptureStep;
     DetachPortStep "vm-b" "vm-a-nic2" false; ReattachPortStep "vm-a" "vm-a-nic2";
     ConfigureNICStep "vm-a" "eth1" "10.0.33.9/24"; drive [tcp "vm-a" (VMTarget "vm-c") (1 ≪ 20)];
     AssertStep [mkExpect "T1" "same_tenant" "tx" "" "vm-a" "" (1 ≪ 20); tx "T1" "same_tenant" (1 ≪ 20)]
      "return leg — the homecoming port counts fresh traffic";
     ServerMonotoneStep "vm-b" "recipient's series holds after the port leaves (server-settled flat line)";
     PortSeriesStep "vm-a" "vm-a-nic2" (f64 (1 ≪ 20)) 0 "port series re-homes back (post-return bytes under X)";
     MonotoneStep "T1" "tenant plane invariant throughout"].

Definition ghostGraceWindow : Declared :=
  mkDeclared "ghost-grace-window"
    [CNetwork Plain "net-T1" "T1"; CSubnet 0 "sub-T1" "10.0.50.0/24" "10.0.50.1"; CVM 0 "vm-a" "T1" "10.0.50.5";
     CVM 0 "vm-b" "T1" "10.0.50.6"; CNetwork External_ "net-ext" "admin"; CRouter "r-T1" "T1";
     CAttach 0 "sub-T1" "10.0.50.1"; CGateway 0 "net-ext"]
    {["vm-a" := "node:0"; "vm-b" := "node:0"]} [] [] [] []
    [drive [tcp "vm-a" (VMTarget "vm-b") (1 ≪ 20)];
     AssertStep [tx "T1" "same_tenant" (1 ≪ 20)] "warm-up attributes to the tenant"; CaptureStep; DeleteVMStep "vm-b";
     DriveStep (mkDrive [tcp "vm-a" (ExternalTarget "10.0.50.6") (2 ≪ 20)] false false true);
     AssertStep [tx "T1" "same_tenant" (64 ≪ 10)] "in-grace tx still attributes to the tenant";
     MaxGrowthStep "unknown" "same_tenant" (64 ≪ 10) "no unknown growth inside the grace";
     MaxGrowthStep "unknown" "miss" (64 ≪ 10) "no miss growth inside the grace"].

Definition unresolvedLatebind : Declared :=
  mkDeclared "unresolved-latebind"
    [CNetwork Plain "net-T1" "T1"; CSubnet 0 "sub-T1" "10.0.51.0/24" "10.0.51.1"; CVM 0 "vm-x" "T1" "10.0.51.5";
     CNetwork External_ "net-ext" "admin"; CRouter "r-T1" "T1"; CAttach 0 "sub-T1" "10.0.51.1"; CGateway 0 "net-ext"]
    {["vm-x" := "node:0"]} [] [] [] ["vm-x"]
    [RestartAgentStep (mkRestart "node:0" {["kafka.enabled" := "false"; "reconcile.interval" := "600s"]} false false
      false 0 0) [];
     BootVMStep "vm-x" ""; CaptureStep;
     DriveStep (mkDrive [tcp "vm-x" (ExternalTarget "8.8.8.8") (1 ≪ 20)] false true false);
     ReloadAgentStep "node:0" {["reconcile.interval" := "15s"]};
     ResolvedGrewStep 1 0 "buffered flow late-bound to its tenant within the TTL";
     AssertStep [tx "T1" "miss" (900 ≪ 10)] "parked bytes re-attributed to the tenant";
     MaxGrowthStep "T1" "miss" (1500 ≪ 10) "re-attributed once — write-back prevented a double-count";
     RestartAgentStep (mkRestart "node:0" ∅ true false false 0 0) []].

Definition gcPressureRelief : Declared :=
  mkDeclared "gc-pressure-relief"
    [CNetwork Plain "net-T1" "T1"; CSubnet 0 "sub-T1" "10.0.53.0/24" "10.0.53.1"; CVM 0 "vm-g" "T1" "10.0.53.5";
     CNetwork External_ "net-ext" "admin"; CRouter "r-T1" "T1"; CAttach 0 "sub-T1" "10.0.53.1"; CGateway 0 "net-ext"]
    {["vm-g" := "node:0"]} [] [] [] []
    [RestartAgentStep (mkRestart "node:0" {["gc.pressure_high_watermark" := "0.000002"; "gc.pressure_low_watermark"
      := "0.000001"]} false false false 0 0) [];
     CaptureStep; drive [tcp "vm-g" (ExternalTarget "8.8.8.8") (4 ≪ 20)];
     EvictionsGrewStep 1 0 "fill crossed the lowered high watermark and the oldest flows were evicted";
     AssertStep [tx "T1" "external" (3 ≪ 20)] "bytes intact across eviction (flush before evict)";
     MaxGrowthStep "T1" "external" (6 ≪ 20) "evict-then-recreate counted once, not twice";
     RestartAgentStep (mkRestart "node:0" ∅ true false false 0 0) []].

Definition attachPresenceHeal : Declared :=
  mkDeclared "attach-presence-heal"
    [CNetwork Plain "net-T1" "T1"; CSubnet 0 "sub-T1" "10.0.43.0/24" "10.0.43.1"; CVM 0 "vm-a" "T1" "10.0.43.5";
     CVM 0 "vm-b" "T1" "10.0.43.6"; CNetwork External_ "net-ext" "admin"; CRouter "r-T1" "T1";
     CAttach 0 "sub-T1" "10.0.43.1"; CGateway 0 "net-ext"]
    {["vm-a" := "node:0"; "vm-b" := "node:0"]} [] [] [] []
    [drive [tcp "vm-a" (VMTarget "vm-b") (1 ≪ 20)];
     AssertStep [mkExpect "T1" "same_tenant" "tx" "" "vm-a" "node:0" (1 ≪ 20)] "pre-strip drive"; CaptureStep;
     StripTCStep "vm-a" "node:0"; ReattachHealedStep 1 0 "sweep re-attached the stripped tap";
     drive [tcp "vm-a" (VMTarget "vm-b") (1 ≪ 20)];
     AssertStep [mkExpect "T1" "same_tenant" "tx" "" "vm-a" "node:0" (1 ≪ 20)] "post-heal drive";
     MonotoneStep "T1" "series intact across the strip and heal"].
End declarations.
