(* ===== verification/Registry.v ===== *)
(** * The registered scenarios (cmd/scenariotest/scenarios/registry.go)

    The registry and its lookup, and what every scenario of it is held to: its topology
    builds, and its expectations name zones and directions there are, and bytes. *)
From S2P Require Import Prelude GoStrings GoArgs GoJson NetIP Bpf Neutron Trie Lookup Builder Scenario Cloud Recorded Realize RealizeSpec Down FakeCloud Assert StepEnv Drive AgentCtl StepActs StepAsserts Steps Runner StepCalm StepLedger RunnerSpec ScenZones ScenRoutes ScenLife.

(** ** The registry *)

Definition All : list Declared := [
  twoVMsSameTenant; vmToGateway; vmToInternet; crossTenantShared; crossTenantRouted; macReuse; multiExternalPath;
  crossHostSameTenant; liveMigrationContinuity; walRestartContinuity; vmDeletedWhileAgentDown; agentColdRestart;
  liveMigrateRoundTrip; multiPortPartialDelete; portRecreateSameServer; interfaceDetachReattach;
  macPinnedPortRecreate; portMoveAcrossServers; multicastZone; fipIngressRx; sameTenantRouted; fipHairpin;
  byteAccuracyBounds; resolverCycle; resolverDanglingRoute; extrarouteSameTenant; multiHopChain; maxHopsAtLimit;
  maxHopsExceeded; spoofedMACUntracked; vrrpVMACLeak; extrarouteMutation; routerRegateway; ghostGraceWindow;
  unresolvedLatebind; vmApplianceNexthop; hostRouteNexthop; gcPressureRelief; octaviaLBAttribution;
  attachPresenceHeal].
(** The scenario of that name, or the names there are. *)
Fixpoint getFrom (name : string) (l : list Declared) (names : list string) : list string + Declared :=
  match l with
  | [] => inl names
  | s :: l => if decide (rg_Name s = name) then inr s else getFrom name l (names ++ [rg_Name s])
  end.
Definition Get (name : string) : list string + Declared := getFrom name All [].
(** The scenario as the harness takes it. *)
Definition builtOf (s : Declared) : option Builder := d_b <$> declares (rg_Topology s) startDsl.
Definition scenarioOf (s : Declared) : Scenario :=
  mkScenario (rg_Name s) (builtOf s) "" (rg_Placement s) ∅ ∅ (rg_Flows s) (rg_Expect s) (rg_CreateExternalNets s)
    (rg_Deferred s) (map HostNeeds_ (rg_Steps s)).

Lemma getFrom_spec name l names :
  match getFrom name l names with
  | inr s => s ∈ l ∧ rg_Name s = name
  | inl known => known = names ++ (rg_Name <$> l) ∧ name ∉ rg_Name <$> l
  end.
Proof.
  revert names. induction l as [|s l IH]; intros names; cbn [getFrom]; [by rewrite app_nil_r; split; [|apply not_elem_of_nil]|].
  case_decide as Hn; [by split; [left|]|]. specialize (IH (names ++ [rg_Name s])).
  destruct (getFrom name l _) as [known|s']; [|by split; [right; apply IH|apply IH]].
  destruct IH as [-> IH]. rewrite -app_assoc. split; [done|]. simpl. rewrite not_elem_of_cons. by split.
Qed.

(** ** The traffic and the expectations of a scenario, wherever they are *)

Definition flowsOf (s : Declared) : list Flow :=
  rg_Flows s ++ (rg_Steps s ≫= λ st, match st with DriveStep o => DO_Flows o | _ => [] end).
Definition expectsOf (s : Declared) : list Expect :=
  rg_Expect s ++ (rg_Steps s ≫= λ st, match st with AssertStep l _ => l | _ => [] end).

(** A name that is first in its list is what it gets. *)
Lemma getFrom_unique l names : NoDup (rg_Name <$> l) → ∀ s, s ∈ l → getFrom (rg_Name s) l names = inr s.
Proof.
  revert names. induction l as [|s l IH]; intros names Hnd s' Hs; [by apply elem_of_nil in Hs|].
  rewrite fmap_cons in Hnd. apply NoDup_cons in Hnd as [Hn Hnd]. cbn [getFrom]. apply elem_of_cons in Hs as [->|Hs]; [by rewrite decide_True|].
  rewrite decide_False; [|by apply IH]. intros E. apply Hn. rewrite E. by apply list_elem_of_fmap_2.
Qed.
Lemma names_unique : NoDup (rg_Name <$> All).
Proof. apply (bool_decide_unpack _). by vm_compute. Qed.

(** Every scenario is what its name gets. *)
Lemma registered_by_name s : s ∈ All → Get (rg_Name s) = inr s.
Proof. by apply getFrom_unique, names_unique. Qed.

(** *** The registry's own invariants

    Every topology builds and has a network; every expectation names a zone there is, a
    direction, and bytes. *)
Definition validZones : list string := ["same_tenant"; "other_tenant"; "external"; "shared"; "infra"; "miss"; "multicast"].
Definition sound (s : Declared) : bool :=
  match builtOf s with Some b => negb (bool_decide (Networks (Build b) = [])) | None => false end &&
  forallb (λ e, bool_decide (E_Zone e ∈ validZones) && bool_decide (E_Direction e ∈ ["tx"; "rx"]) && bool_decide (0 < E_MinBytes e))
    (expectsOf s).
#[local] Existing Instance list_range.
Example registry_sound : forallb sound All = true ∧ RequiredNodes (scenarioOf liveMigrationContinuity) = 2 ∧
  Get "does-not-exist" = inl (rg_Name <$> All).
Proof. by vm_compute. Qed.
