(* ===== verification/Cli.v ===== *)
(** * The command line (cmd/scenariotest)

    The subcommands over the phases of a run, and what they share: the config and the
    scenario they load, the run-state file one leaves and the next one reads, the verdict
    they print, the exit code.  [run] takes one scenario or a suite of them. *)
From S2P Require Import Prelude GoStrings GoArgs GoJson Neutron Builder Scenario Cloud Realize Down Assert StepEnv Drive AgentCtl StepActs StepAsserts Steps Runner ScenZones ScenRoutes ScenLife Registry.
From Stdlib Require Import SpecFloat.

(** ** What the process is given *)

Inductive fileErr := NotExist | Unreadable (e : string).
(** A suite's verdict, and what is printed: the renderers (render.go) only present it. *)
Inductive suiteErr := NoRunID (e : string) | RunFailed (e : runFailure).
Record suiteScenario := mkSuiteRow {
  SU_Scenario : string; SU_OK : bool; SU_Error : option suiteErr; SU_Skipped : option skip; SU_Nanos : Z;
  SU_State : string; SU_Report : string }.
Record suiteReport := mkSuite { SR_OK : bool; SR_Pass : nat; SR_Fail : nat; SR_Skipped : nat; SR_Scenarios : list suiteScenario }.
Inductive printed := PPreflight (r : PreReport) | PAssert (r : AssertReport) | PSkip (scenario : string) (reason : skip)
  | PSuite (r : suiteReport) | PLine (text : string).

(** The files it reads, its randomness, its clock, its output, and whether it was interrupted.
    [ReadState] is [os.ReadFile] and the parse of what it reads, if that is a run-state; [ReadYAML] the
    same for a config, over the defaults; [Connect] the login. *)
Class Process (W : Type) := {
  ReadState : string → W → W * (fileErr + option RunState);
  ReadYAML : string → HarnessConfig → Call W HarnessConfig;
  Home : option string; Exists_ : W → string → bool;
  RandBytes : Call W (Z * Z * Z); Connect : OpenStackCreds → Call W ();
  Encode : printed → Call W (); Show_ : printed → W → W;
  Nanos : W → Z; Interrupted_ : W → bool }.

(** [rootOptions] *)
Record rootOptions := mkRoot { RO_config : string; RO_output : string; RO_state : string; RO_report : string }.

Inductive stateErr := StateFile_ (e : fileErr) | NotARunState.
Inductive loadErr_ := ConfigUnread (e : string) | ConfigInvalid (e : cfgErr).
Inductive cmdErr :=
  | Usage (msg : string) | NotOK (** [errFailed] *) | BadConfig (e : loadErr_) | UnknownScenario (known : list string)
  | BadState (e : stateErr) | OtherScenario (named : string) | LiveTopology (runID scenario : string)
  | NoID (e : string) | NoCloud (e : string) | UpFailed (e : upErr) | DriveFailed (e : runErr) | AssertFailed (e : assertErr)
  | DownFailed (e : downErr) | RunErr (e : runFailure) | EmitFailed (e : string).
(** [main]'s exit code. *)
Definition exitCode (r : option cmdErr) : Z := match r with None => 0 | Some (Usage _) => 2 | Some _ => 1 end.

Section process.
Context `{GoRange} `{Yaml} {W : Type}.
Context `{!Cloud W, !MetricsSource W, !StateFile W, !ReportFile W, !VMExec W, !AgentExec W, !Clock W, !Process W}.
Variables (ticks : nat) (polls : Z → nat).

(** ** Shared by the subcommands (root.go) *)

(** [LoadRunState] and [LoadConfig] *)
Definition LoadRunState (path : string) (w : W) : W * (stateErr + RunState) :=
  match ReadState path w with
  | (w, inl e) => (w, inl (StateFile_ e))
  | (w, inr None) => (w, inl NotARunState)
  | (w, inr (Some rs)) => (w, inr rs)
  end.
Definition LoadHarness (path : string) (w : W) : W * (loadErr_ + HarnessConfig) :=
  match ReadYAML path harnessDefaults w with
  | (w, inl e) => (w, inl (ConfigUnread e))
  | (w, inr cfg) => (w, match harnessValidate Home (Exists_ w) cfg with Some e => inl (ConfigInvalid e) | None => inr cfg end)
  end.
(** [scenarioNameArg] *)
Definition scenarioNameArg (args : list string) : cmdErr + string :=
  match args with
  | [] => inl (Usage "missing scenario name")
  | [name] => inr name
  | _ => inl (Usage ("expected one scenario name, got " +:+ dec (Z.of_nat (length args))))
  end.
Definition loadConfigAndScenario (configPath name : string) (w : W) : W * (cmdErr + HarnessConfig * Declared) :=
  if decide (configPath = "") then (w, inl (Usage "missing required --config"))
  else match LoadHarness configPath w with
  | (w, inl e) => (w, inl (BadConfig e))
  | (w, inr cfg) => (w, match Get name with inl known => inl (UnknownScenario known) | inr sc => inr (cfg, sc) end)
  end.
Definition loadRunState (statePath : string) (sc : Declared) (w : W) : W * (cmdErr + RunState) :=
  if decide (statePath = "") then (w, inl (Usage "missing required --state (the file `up` wrote)"))
  else match LoadRunState statePath w with
  | (w, inl e) => (w, inl (BadState e))
  | (w, inr rs) => (w, if decide (R_Scenario rs ≠ rg_Name sc) then inl (OtherScenario (R_Scenario rs)) else inr rs)
  end.
Definition newRunID (w : W) : W * (string + string) :=
  match RandBytes w with (w, inl e) => (w, inl e) | (w, inr (b0, b1, b2)) => (w, inr (NewRunID b0 b1 b2)) end.
Definition newCloud (cfg : HarnessConfig) : Call W () := Connect (H_OpenStack cfg).

(** What the four emitters share: JSON of a float that is not finite is an error. *)
Definition encodes (d : printed) : bool := match d with PAssert r => forallb row_marshals (RP_Rows r) | _ => true end.
Definition emit (format : string) (d : printed) (w : W) : W * option cmdErr :=
  if decide (format = "json") then
    if encodes d then match Encode d w with (w, inl e) => (w, Some (EmitFailed e)) | (w, inr _) => (w, None) end
    else (w, Some (EmitFailed "unsupported value"))
  else if decide (format = "human" ∨ format = "") then (Show_ d w, None)
  else (w, Some (Usage ("bad output format " +:+ format +:+ " (want human|json)"))).
Definition emitPreflight (format : string) (r : PreReport) : W → W * option cmdErr := emit format (PPreflight r).
Definition emitAssert (format : string) (r : AssertReport) : W → W * option cmdErr := emit format (PAssert r).
Definition emitSkip (format scenario : string) (reason : skip) : W → W * option cmdErr := emit format (PSkip scenario reason).
Definition emitSuite (format : string) (r : suiteReport) : W → W * option cmdErr := emit format (PSuite r).
(** The exit of a command that has printed its verdict. *)
Definition verdict (ok : bool) (r : W * option cmdErr) : W * option cmdErr :=
  match r with (w, Some e) => (w, Some e) | (w, None) => (w, if ok then None else Some NotOK) end.

(** ** The phases by themselves (preflight.go, up.go, drive.go, assert.go, down.go) *)

(** [PreRunE]'s argument check, then the command over its config and scenario. *)
Definition withScenario (opts : rootOptions) (args : list string) (f : HarnessConfig → Declared → W → W * option cmdErr)
    (w : W) : W * option cmdErr :=
  match scenarioNameArg args with
  | inl e => (w, Some e)
  | inr name =>
      match loadConfigAndScenario (RO_config opts) name w with
      | (w, inl e) => (w, Some e)
      | (w, inr (cfg, sc)) => f cfg sc w
      end
  end.
Definition login (cfg : HarnessConfig) (f : W → W * option cmdErr) (w : W) : W * option cmdErr :=
  match newCloud cfg w with (w, inl e) => (w, Some (NoCloud e)) | (w, inr _) => f w end.

Definition preflightCmd (opts : rootOptions) (noSkip : bool) (args : list string) : W → W * option cmdErr :=
  withScenario opts args (λ cfg sc, login cfg (λ w,
    let '(w, report) := Preflight cfg (scenarioOf sc) w in
    let skipped := match PF_Skip report with Some _ => true | None => false end in
    verdict (negb (skipped && noSkip) && PF_OK report) (emitPreflight (RO_output opts) report w))).

(** [refuseLiveState] *)
Definition refuseLiveState (state : string) (w : W) : W * option cmdErr :=
  match LoadRunState state w with
  | (w, inr rs) => (w, if R_TornDown rs then None else Some (LiveTopology (R_RunID rs) (R_Scenario rs)))
  | (w, inl (StateFile_ NotExist)) => (w, None)
  | (w, inl e) => (w, Some (BadState e))
  end.
Definition upCmd (opts : rootOptions) (args : list string) : W → W * option cmdErr :=
  withScenario opts args (λ cfg sc w,
    match newRunID w with
    | (w, inl e) => (w, Some (NoID e))
    | (w, inr runID) =>
        let state := if decide (RO_state opts = "") then DefaultStatePath (H_Prefix cfg) runID else RO_state opts in
        match refuseLiveState state w with
        | (w, Some e) => (w, Some e)
        | (w, None) => login cfg (λ w,
            match Realize.Run cfg (scenarioOf sc) runID state ticks w with
            | (w, _, Some e) => (w, Some (UpFailed e))
            | (w, rs, None) => (Show_ (PLine ("up ok: scenario=" +:+ rg_Name sc +:+ " run-id=" +:+ runID)) w, None)
            end) w
        end
    end).
Definition driveCmd (opts : rootOptions) (args : list string) : W → W * option cmdErr :=
  withScenario opts args (λ cfg sc w,
    match loadRunState (RO_state opts) sc w with
    | (w, inl e) => (w, Some e)
    | (w, inr rs) =>
        match DriveRun cfg (scenarioOf sc) (RO_state opts) polls 0 0 (mkDrive (rg_Flows sc) false false false) (w, startEnv rs) with
        | ((w, _), inl e) => (w, Some (DriveFailed e))
        | ((w, _), inr _) => (Show_ (PLine ("drive ok: scenario=" +:+ rg_Name sc)) w, None)
        end
    end).
Definition assertCmd (opts : rootOptions) (args : list string) : W → W * option cmdErr :=
  withScenario opts args (λ cfg sc w,
    match loadRunState (RO_state opts) sc w with
    | (w, inl e) => (w, Some e)
    | (w, inr rs) =>
        let report := if decide (RO_report opts = "") then DefaultReportPath (RO_state opts) else RO_report opts in
        match AssertRun polls (scenarioOf sc) cfg rs report 0 w with
        | (w, inl e) => (w, Some (AssertFailed e))
        | (w, inr res) => verdict (RP_OK res) (emitAssert (RO_output opts) res w)
        end
    end).
Definition downCmd (opts : rootOptions) (args : list string) : W → W * option cmdErr :=
  withScenario opts args (λ cfg sc w,
    match loadRunState (RO_state opts) sc w with
    | (w, inl e) => (w, Some e)
    | (w, inr rs) => login cfg (λ w,
        match Down rs (RO_state opts) w with
        | (w, _, Some e) => (w, Some (DownFailed e))
        | (w, _, None) => (Show_ (PLine ("down ok: scenario=" +:+ rg_Name sc +:+ " run-id=" +:+ R_RunID rs)) w, None)
        end) w
    end).

(** ** One scenario (run.go) *)

(** [resolveResume]: a live run-state is gone on with, one that is torn down is overwritten. *)
Definition resolveResume (statePath : string) (sc : Declared) (w : W) : W * (cmdErr + option RunState) :=
  if decide (statePath = "") then (w, inr None)
  else match loadRunState statePath sc w with
  | (w, inr rs) => (w, inr (if R_TornDown rs then None else Some rs))
  | (w, inl (BadState (StateFile_ NotExist))) => (w, inr None)
  | (w, inl e) => (w, inl e)
  end.
(** [run.Run] as both callers set it up. *)
Definition runScenario (cfg : HarnessConfig) (sc : Declared) (runID state report : string) (resume : option RunState)
    (keep : bool) : W → W * outcome :=
  RunAll cfg (scenarioOf sc) runID state ticks polls 0 0 resume (rg_Steps sc) report keep.
Definition runOne (opts : rootOptions) (name : string) (keep noSkip : bool) (w : W) : W * option cmdErr :=
  match loadConfigAndScenario (RO_config opts) name w with
  | (w, inl e) => (w, Some e)
  | (w, inr (cfg, sc)) =>
      match resolveResume (RO_state opts) sc w with
      | (w, inl e) => (w, Some e)
      | (w, inr resume) =>
          match (match resume with Some _ => (w, inr "") | None => newRunID w end) with
          | (w, inl e) => (w, Some (NoID e))
          | (w, inr runID) =>
              let state := if decide (RO_state opts = "") then DefaultStatePath (H_Prefix cfg) runID else RO_state opts in
              let report := if decide (RO_report opts = "") then DefaultReportPath state else RO_report opts in
              login cfg (λ w,
                let '(w, o) := runScenario cfg sc runID state report resume keep w in
                match o_err o with
                | Some (Skipped reason) => verdict (negb noSkip) (emitSkip (RO_output opts) (rg_Name sc) reason w)
                | Some e => (w, Some (RunErr e))
                | None =>
                    match emitAssert (RO_output opts) (o_report o) w with
                    | (w, Some e) => (w, Some e)
                    | (w, None) => verdict (RP_OK (o_report o)) (Show_ (PLine ("report: " +:+ report)) w, None)
                    end
                end) w
          end
      end
  end.

(** ** A suite of them *)

Definition countRow (r : suiteReport) (s : suiteScenario) : suiteReport :=
  match SU_Skipped s with
  | Some _ => mkSuite (SR_OK r) (SR_Pass r) (SR_Fail r) (S (SR_Skipped r)) (SR_Scenarios r)
  | None => if SU_OK s then mkSuite (SR_OK r) (S (SR_Pass r)) (SR_Fail r) (SR_Skipped r) (SR_Scenarios r)
            else mkSuite (SR_OK r) (SR_Pass r) (S (SR_Fail r)) (SR_Skipped r) (SR_Scenarios r)
  end.
Definition summarize (rows : list suiteScenario) (noSkip : bool) : suiteReport :=
  let r := foldl countRow (mkSuite false 0 0 0 rows) rows in
  mkSuite (bool_decide (SR_Fail r = 0%nat) && (negb noSkip || bool_decide (SR_Skipped r = 0%nat)))
    (SR_Pass r) (SR_Fail r) (SR_Skipped r) rows.
(** The row of a run. *)
Definition suiteRow (sc : Declared) (state report : string) (nanos : Z) (o : outcome) : suiteScenario :=
  match o_err o with
  | Some (Skipped reason) => mkSuiteRow (rg_Name sc) false None (Some reason) nanos "" ""
  | Some e => mkSuiteRow (rg_Name sc) false (Some (RunFailed e)) None nanos state ""
  | None => mkSuiteRow (rg_Name sc) (RP_OK (o_report o)) None None nanos state report
  end.
(** [runSuiteOne]; beside its row, what the run came to, which is in the log. *)
Definition runSuiteOne (cfg : HarnessConfig) (sc : Declared) (keep : bool) (w : W) : W * (suiteScenario * option outcome) :=
  match newRunID w with
  | (w, inl e) => (w, (mkSuiteRow (rg_Name sc) false (Some (NoRunID e)) None 0 "" "", None))
  | (w, inr runID) =>
      let state := DefaultStatePath (H_Prefix cfg) runID in
      let report := DefaultReportPath state in
      let start := Nanos w in
      let '(w, o) := runScenario cfg sc runID state report None keep w in
      (w, (suiteRow sc state report (Nanos w - start) o, Some o))
  end.
Fixpoint suiteLoop (cfg : HarnessConfig) (scs : list Declared) (keep : bool) (w : W) : W * list (suiteScenario * option outcome) :=
  match scs with
  | [] => (w, [])
  | sc :: scs =>
      let '(w, row) := runSuiteOne cfg sc keep w in
      if Interrupted_ w then (w, [row]) else let '(w, rows) := suiteLoop cfg scs keep w in (w, row :: rows)
  end.
Definition runSuite (opts : rootOptions) (scs : list Declared) (keep noSkip : bool) (w : W) : W * option cmdErr :=
  if decide (RO_config opts = "") then (w, Some (Usage "missing required --config"))
  else match LoadHarness (RO_config opts) w with
  | (w, inl e) => (w, Some (BadConfig e))
  | (w, inr cfg) => login cfg (λ w,
      let '(w, rows) := suiteLoop cfg scs keep w in
      let suite := summarize (fst <$> rows) noSkip in
      verdict (SR_OK suite) (emitSuite (RO_output opts) suite w)) w
  end.

(** ** The command [list] (list.go) *)

(** [countDeclared], and a row of the listing: name, flows, expectations, steps, pinned machines, nodes. *)
Definition countStep (n : nat * nat) (st : Step) : nat * nat :=
  match st with
  | DriveStep o => (n.1 + length (DO_Flows o), n.2)%nat
  | AssertStep l _ => (n.1, n.2 + length l)%nat
  | _ => n
  end.
Definition countDeclared (s : Declared) : nat * nat :=
  foldl countStep (length (rg_Flows s), length (rg_Expect s)) (rg_Steps s).
Definition listRow (s : Declared) : list string :=
  let num n := FormatUint (Z.of_nat n) in
  let pinned := size (rg_Placement s) in
  [rg_Name s; num (countDeclared s).1; num (countDeclared s).2; num (length (rg_Steps s));
   if decide (rg_Placement s = ∅) then "(scheduler)" else num pinned +:+ " pinned";
   if decide (RequiredNodes (scenarioOf s) <= 0) then "-" else FormatUint (RequiredNodes (scenarioOf s))].
Definition runList : list (list string) := listRow <$> All.

(** ** The command [run] *)

Fixpoint getEach (names : list string) : list string + list Declared :=
  match names with
  | [] => inr []
  | n :: names =>
      match Get n with
      | inl known => inl known
      | inr sc => match getEach names with inl known => inl known | inr scs => inr (sc :: scs) end
      end
  end.
(** What is to be run, or why the arguments are refused. *)
Definition selectScenarios (all : bool) (skips args : list string) : cmdErr + list Declared :=
  if all then
    if decide (args ≠ []) then inl (Usage "--all takes no scenario names")
    else match getEach skips with
    | inl _ => inl (Usage "--skip: unknown scenario")
    | inr _ => match List.filter (λ s, negb (bool_decide (rg_Name s ∈ skips))) All with
               | [] => inl (Usage "--skip left no scenarios to run")
               | scs => inr scs
               end
    end
  else if decide (args = []) then inl (Usage "missing scenario name (or --all)")
  else if decide (skips ≠ []) then inl (Usage "--skip only applies with --all")
  else match getEach args with inl known => inl (UnknownScenario known) | inr scs => inr scs end.
Definition runCmd (opts : rootOptions) (keep all noSkip : bool) (skips args : list string) (w : W) : W * option cmdErr :=
  match selectScenarios all skips args with
  | inl e => (w, Some e)
  | inr scs =>
      if decide ((1 < length scs)%nat ∧ (RO_state opts ≠ "" ∨ RO_report opts ≠ ""))
      then (w, Some (Usage "--state/--report name single files; drop them when running multiple scenarios"))
      else match scs with
      | [sc] => runOne opts (rg_Name sc) keep noSkip w
      | _ => runSuite opts scs keep noSkip w
      end
  end.
End process.
