(* ===== verification/CliSpec.v ===== *)
(** * What the command line keeps (cmd/scenariotest)

    A suite of registered scenarios leaves the cloud as it found it as long as each
    teardown says so, and its verdict is that of its runs; and no command overwrites the
    run-state of a topology that is up with another run's. *)
From S2P Require Import Prelude GoStrings GoArgs GoJson Neutron Builder Scenario Cloud Recorded Realize RealizeSpec Down FakeCloud Assert StepEnv Drive AgentCtl StepActs StepAsserts Steps Runner StepCalm StepLedger RunnerSpec ScenZones ScenRoutes ScenLife Registry Cli.

(** What the process is given changes nothing in the cloud nor in the run-states, and
    reads what is there. *)
Class ProcessLaws (W : Type) `{!Process W, !World W} := {
  law_ReadState p w : live (ReadState p w).1 = live w ∧ (∀ q, file (ReadState p w).1 q = file w q) ∧
    (∀ id, used w id → used (ReadState p w).1 id) ∧
    match (ReadState p w).2 with
    | inr (Some rs) => file w p = Some rs
    | inl (Unreadable _) => True
    | inr None | inl NotExist => file w p = None
    end;
  quiet_ReadYAML p c : quiet (ReadYAML p c); quiet_RandBytes : quiet RandBytes; quiet_Connect c : quiet (Connect c);
  quiet_Encode d : quiet (Encode d);
  law_Show d w : live (Show_ d w) = live w ∧ (∀ q, file (Show_ d w) q = file w q) ∧ ∀ id, used w id → used (Show_ d w) id }.

(** Every script of the registry gives each port it plugs in a name that is free, and
    unplugs none of the topology's own. *)
Lemma registry_tidy sc : sc ∈ All → tidy (port_names (scenarioOf sc) None) (scriptOf (scenarioOf sc) (rg_Steps sc)) = true.
Proof.
  assert (forallb (λ sc, tidy (port_names (scenarioOf sc) None) (scriptOf (scenarioOf sc) (rg_Steps sc))) All = true) as Hall
    by (by vm_compute).
  rewrite forallb_forall in Hall. intros Hin. by apply Hall, list_elem_of_In.
Qed.

(** What [list] counts are the traffic and the expectations wherever they are. *)
Lemma countDeclared_spec s : countDeclared s = (length (flowsOf s), length (expectsOf s)).
Proof.
  rewrite /countDeclared /flowsOf /expectsOf. rewrite !length_app.
  enough (∀ l n, foldl countStep n l = (n.1 + length (l ≫= λ st, match st with DriveStep o => DO_Flows o | _ => [] end),
    n.2 + length (l ≫= λ st, match st with AssertStep e _ => e | _ => [] end))%nat) as -> by done.
  induction l as [|st l IH]; intros n; cbn [foldl]; [destruct n; simpl; f_equal; lia|].
  rewrite IH !bind_cons !length_app. destruct n as [a b], st; simpl; f_equal; lia.
Qed.

(** ** The suite *)

Section suite.
Context `{GoRange} `{Yaml} {W : Type}.
Context `{!Cloud W, !MetricsSource W, !StateFile W, !ReportFile W, !VMExec W, !AgentExec W, !Clock W, !Process W, !World W}.
Context `{!CloudLaws W, !MetricsLaws W, !FileLaws W, !HostLaws W, !ProcessLaws W}.
Variables (cfg : HarnessConfig) (ticks : nat) (polls : Z → nat).
Implicit Types (w : W).

(** No server bears the name of a run, whatever id it draws. *)
Definition noRunsOn w : Prop := ∀ s i b0 b1 b2, live w !! (KServer, s) = Some i →
  HasPrefix (I_Name i) (Mangle (H_Prefix cfg) (NewRunID b0 b1 b2) "") = false.
(** The run behind a row left nothing, by its own account. *)
Definition tidied (row : suiteScenario * option outcome) : Prop :=
  match row.2 with None => True | Some o => settled o = true end.
Lemma newRunID_quiet w : live (newRunID w).1 = live w ∧ (∀ id, used w id → used (newRunID w).1 id) ∧
  match (newRunID w).2 with inl _ => True | inr id => ∃ b0 b1 b2, id = NewRunID b0 b1 b2 end.
Proof.
  rewrite /newRunID. destruct quiet_RandBytes as [Hf Hl]. specialize (Hl w). destruct (Hf w) as [_ Hu].
  destruct (RandBytes w) as [w' [e|[[b0 b1] b2]]]; simpl in *; (split_and!; [done..|]); [done|by exists b0, b1, b2].
Qed.
Lemma restored_settled w (r : W * outcome) : restored (live w) r → (o_state r.2 = None → live r.1 = live w) →
  settled r.2 = true → live r.1 = live w.
Proof.
  destruct r as [w' o]. rewrite /restored /settled /=. intros [_ Hr] Hn. destruct (o_state o) as [rs|]; [|auto].
  destruct (o_down o) as [[e|]|]; [done| |done]. by destruct (reported (o_err o)).
Qed.
Lemma one_restores sc keep w : sc ∈ All → closed w → noRunsOn w → let r := runSuiteOne ticks polls cfg sc keep w in
  live w ⊆ live r.1 ∧ (tidied r.2 → live r.1 = live w ∧ closed r.1).
Proof.
  intros Hin Hcl Hno. cbv zeta. rewrite /runSuiteOne. destruct (newRunID_quiet w) as (Hl & Hu & Hid).
  assert (∀ w', live w' = live w → (∀ id, used w id → used w' id) → closed w') as Hcl'.
  { intros w' El Hu' q j Hq. rewrite El in Hq. destruct (Hcl q j Hq). split; by apply Hu'. }
  destruct (newRunID w) as [w1 [e|runID]]; cbn [fst snd] in *; [split; [by rewrite Hl|by auto]|].
  destruct Hid as (b0 & b1 & b2 & ->). rewrite /runScenario.
  pose proof (registry_tidy sc Hin) as Htidy. assert (closed w1) as Hcl1 by (by apply Hcl').
  set (runID := NewRunID b0 b1 b2). set (state := DefaultStatePath (H_Prefix cfg) runID).
  pose proof (fresh_restores cfg (scenarioOf sc) runID state ticks polls 0 0 w1 (rg_Steps sc) (DefaultReportPath state) keep Hcl1) as Hr.
  pose proof (fresh_keeps_used cfg (scenarioOf sc) runID state ticks polls 0 0 w1 (rg_Steps sc) (DefaultReportPath state) keep Hcl1 Htidy) as Hu1.
  destruct Hr as [Hr Hn]; [rewrite Hl; intros s i; apply Hno|done|].
  pose proof (restored_settled w1 _ Hr Hn) as Hs. destruct (RunAll _ _ _ _ _ _ _ _ _ _ _ _ _) as [w2 o]. simpl in *.
  rewrite Hl in Hr, Hs. split; [apply Hr|]. rewrite /tidied /=. intros Ho. split; [by apply Hs|]. apply Hcl'; auto.
Qed.

Lemma suiteLoop_none scs keep w : (suiteLoop ticks polls cfg scs keep w).2 = [] → (suiteLoop ticks polls cfg scs keep w).1 = w.
Proof.
  destruct scs as [|sc scs]; [done|]. cbn [suiteLoop]. destruct (runSuiteOne _ _ _ _ _ _) as [w1 row].
  destruct (Interrupted_ w1); [done|]. by destruct (suiteLoop _ _ _ _ _ _).
Qed.

(** C18: Any suite of registered scenarios, each a run of its own id, started on a cloud
    where no server bears a run's name ([noRunsOn]) and whose resources only refer to
    networks and subnets of its own ([closed]).  Call a row tidied when no run is
    behind it, as for a gated scenario, or the run's script ran through and its
    teardown reported success.  Nothing that was in the cloud is
    missing after the suite as long as every row but the last was tidied; when they all
    were, the cloud is as it was.  A row that was not tidied may leave resources, and
    what a later one then does to them is not claimed. *)
Theorem suite_restores (scs : list Declared) (keep : bool) w : (∀ sc, sc ∈ scs → sc ∈ All) → closed w → noRunsOn w →
  let '(w', rows) := suiteLoop ticks polls cfg scs keep w in
  (∀ init last, rows = init ++ [last] → Forall tidied init → live w ⊆ live w') ∧ (Forall tidied rows → live w' = live w).
Proof.
  revert w. induction scs as [|sc scs IH]; intros w Hin Hcl Hno; cbn [suiteLoop]; [by split; [intros ? ? ?%app_cons_not_nil|]|].
  destruct (one_restores sc keep w) as [Hsub Htidy]; [by apply Hin; left|done..|].
  destruct (runSuiteOne ticks polls cfg sc keep w) as [w1 row]. simpl in *. destruct (Interrupted_ w1).
  { split; [done|]. intros [Ht _]%Forall_cons. by apply Htidy. }
  specialize (IH w1). pose proof (suiteLoop_none scs keep w1) as Hnil.
  destruct (suiteLoop ticks polls cfg scs keep w1) as [w2 rows]. cbn [fst snd] in *.
  assert (tidied row → (∀ init last, rows = init ++ [last] → Forall tidied init → live w ⊆ live w2) ∧
    (Forall tidied rows → live w2 = live w)) as Hgo.
  { intros [El Hc]%Htidy. rewrite -El. apply IH; [intros s Hs; apply Hin; by right|done|]. intros s i. rewrite El. apply Hno. }
  split; [|by intros [Ht Hrest]%Forall_cons; apply Hgo].
  intros [|x init] last E Hinit; injection E as -> Erows; [by rewrite Hnil|]. apply Forall_cons in Hinit as [Ht Hinit].
  by eapply Hgo.
Qed.

(** *** Its verdict *)

Lemma countRow_rows r s : SR_Scenarios (countRow r s) = SR_Scenarios r.
Proof. rewrite /countRow. destruct (SU_Skipped s); [done|]. by destruct (SU_OK s). Qed.
Definition skippedRow (s : suiteScenario) : bool := match SU_Skipped s with Some _ => true | None => false end.
Definition failedRow (s : suiteScenario) : bool := negb (skippedRow s) && negb (SU_OK s).
Definition passedRow (s : suiteScenario) : bool := negb (skippedRow s) && SU_OK s.
Lemma countRow_counts rows r : let r' := foldl countRow r rows in
  SR_Pass r' = (SR_Pass r + length (List.filter passedRow rows))%nat ∧
  SR_Fail r' = (SR_Fail r + length (List.filter failedRow rows))%nat ∧
  SR_Skipped r' = (SR_Skipped r + length (List.filter skippedRow rows))%nat.
Proof.
  revert r. induction rows as [|s rows IH]; intros r; cbn [foldl List.filter length]; [lia|].
  destruct (IH (countRow r s)) as (-> & -> & ->). rewrite /countRow /passedRow /failedRow /skippedRow.
  destruct (SU_Skipped s); [|destruct (SU_OK s)]; simpl; lia.
Qed.
Lemma length_filter_0 {A} (f : A → bool) l : length (List.filter f l) = 0%nat ↔ ∀ x, x ∈ l → f x = false.
Proof.
  induction l as [|x l IH]; cbn [List.filter]; [split; [intros _ y ?%elem_of_nil; done|done]|].
  setoid_rewrite elem_of_cons. destruct (f x) eqn:E; cbn [length]; [split; [done|intros Hall; specialize (Hall x); intuition congruence]|].
  rewrite IH. split; [intros Hall y [->|Hy]; auto|auto].
Qed.
(** What a row says of its run: that it passed, or was skipped and may be. *)
Definition passed (noSkip : bool) (o : option outcome) : Prop := ∃ o', o = Some o' ∧
  (o_err o' = None ∧ RP_OK (o_report o') = true ∨ noSkip = false ∧ ∃ reason, o_err o' = Some (Skipped reason)).
Lemma suiteRow_says sc state report nanos noSkip o : let row := suiteRow sc state report nanos o in
  passed noSkip (Some o) ↔ failedRow row = false ∧ (noSkip = true → skippedRow row = false).
Proof.
  rewrite /passed /suiteRow /failedRow /skippedRow. split.
  - intros (o' & [= <-] & [[-> ->]|[-> [k ->]]]); done.
  - intros [Hf Hs]. exists o. split; [done|]. destruct (o_err o) as [[]|]; try done; [|left; by destruct (RP_OK (o_report o))].
    right. destruct noSkip; [by specialize (Hs eq_refl)|]. split; [done|]. by eexists.
Qed.
Lemma one_says sc keep noSkip w : let row := (runSuiteOne ticks polls cfg sc keep w).2 in SU_Scenario row.1 = rg_Name sc ∧
  (passed noSkip row.2 ↔ failedRow row.1 = false ∧ (noSkip = true → skippedRow row.1 = false)).
Proof.
  cbv zeta. rewrite /runSuiteOne. destruct (newRunID w) as [w1 [e|runID]]; cbn [fst snd];
    [split; [done|]; split; [by intros (o & Ho & _)|by intros [Hf _]]|].
  destruct (runScenario _ _ _ _ _ _ _ _ _ _) as [w2 o]. cbn [fst snd]. split; [|apply suiteRow_says].
  rewrite /suiteRow. by destruct (o_err o) as [[]|].
Qed.
Lemma loop_says scs keep noSkip w : let rows := (suiteLoop ticks polls cfg scs keep w).2 in
  SU_Scenario <$> rows.*1 = take (length rows) (rg_Name <$> scs) ∧
  ∀ row, row ∈ rows → passed noSkip row.2 ↔ failedRow row.1 = false ∧ (noSkip = true → skippedRow row.1 = false).
Proof.
  revert w. induction scs as [|sc scs IH]; intros w; cbn [suiteLoop]; [split; [done|by intros row ?%elem_of_nil]|].
  destruct (one_says sc keep noSkip w) as [En Es]. destruct (runSuiteOne _ _ _ _ _ _) as [w1 row]. cbn [fst snd] in *.
  destruct (Interrupted_ w1); [split; [by rewrite /= En|by intros row' ->%list_elem_of_singleton]|].
  specialize (IH w1). destruct (suiteLoop _ _ _ _ _ _) as [w2 rows]. cbn [fst snd] in *. destruct IH as [IHn IHs].
  split; [rewrite !fmap_cons En; cbn [length take]; by f_equal|]. intros row' [->|Hin]%elem_of_cons; [done|by apply IHs].
Qed.
Lemma loop_whole scs keep w : Interrupted_ (suiteLoop ticks polls cfg scs keep w).1 = false →
  length (suiteLoop ticks polls cfg scs keep w).2 = length scs.
Proof.
  revert w. induction scs as [|sc scs IH]; intros w; cbn [suiteLoop]; [done|]. destruct (runSuiteOne _ _ _ _ _ _) as [w1 row].
  destruct (Interrupted_ w1) eqn:Ei; [by rewrite /= Ei|]. specialize (IH w1). destruct (suiteLoop _ _ _ _ _ _) as [w2 rows].
  cbn [fst snd length] in *. intros Hi. by rewrite IH.
Qed.

(** The verdict of a suite: a row for each scenario in the order given, up to an interrupt; each
    counted once as passed, failed or skipped; and the suite is OK exactly when every run in
    it ended without an error and with a report that is OK, or was skipped and skips are
    not failures. A run that could not even draw an id is a failure. *)
Theorem suite_verdict (scs : list Declared) (keep noSkip : bool) w :
  let '(w', rows) := suiteLoop ticks polls cfg scs keep w in
  let r := summarize rows.*1 noSkip in
  SU_Scenario <$> rows.*1 = take (length rows) (rg_Name <$> scs) ∧
  (if Interrupted_ w' then True else length rows = length scs) ∧
  (SR_Pass r + SR_Fail r + SR_Skipped r)%nat = length rows ∧ (SR_OK r = true ↔ ∀ row, row ∈ rows → passed noSkip row.2).
Proof.
  destruct (loop_says scs keep noSkip w) as [Hn Hp]. pose proof (loop_whole scs keep w) as Hw.
  destruct (suiteLoop _ _ _ _ _ _) as [w' rows]. cbn [fst snd] in *. cbv zeta.
  split; [done|]. split; [by destruct (Interrupted_ w'); auto|].
  destruct (countRow_counts rows.*1 (mkSuite false 0 0 0 rows.*1)) as (Ep & Ef & Es). simpl in Ep, Ef, Es.
  split.
  - rewrite /summarize /= Ep Ef Es -(length_fmap fst rows). clear. induction rows.*1 as [|s l IH]; [done|].
    cbn [List.filter length]. unfold passedRow, failedRow in *. destruct (skippedRow s), (SU_OK s); simpl in *; lia.
  - rewrite /summarize /=. rewrite Ef Es andb_true_iff orb_true_iff !bool_decide_eq_true !length_filter_0 negb_true_iff.
    split.
    + intros [Hf Hs] row Hin. apply (Hp row Hin). split; [apply Hf; by apply list_elem_of_fmap_2|].
      intros ->. destruct Hs as [?|Hs]; [done|]. apply Hs. by apply list_elem_of_fmap_2.
    + intros Hall. split; [|destruct noSkip; [right|by left]]; intros x (row & -> & Hin)%list_elem_of_fmap;
        destruct (proj1 (Hp row Hin) (Hall row Hin)) as [Hf Hs]; auto.
Qed.
End suite.

(** ** The run-state of what is up *)

Section record.
Context `{GoRange} `{Yaml} {W : Type}.
Context `{!Cloud W, !MetricsSource W, !StateFile W, !ReportFile W, !VMExec W, !AgentExec W, !Clock W, !Process W, !World W}.
Context `{!CloudLaws W, !MetricsLaws W, !FileLaws W, !HostLaws W, !ProcessLaws W}.
Variables (ticks : nat) (polls : Z → nat) (opts : rootOptions).
Implicit Types (w : W).

Definition same w w' : Prop := live w' = live w ∧ ∀ q, file w' q = file w q.
#[local] Instance same_preorder : PreOrder same.
Proof. split; [done|]. intros ? ? ? [L1 F1] [L2 F2]. split; [congruence|]. intros q. by rewrite F2. Qed.
Lemma quiet_same {A} (c : Call W A) w : quiet c → same w (c w).1.
Proof. intros [Hf Hl]. split; [apply Hl|apply (Hf w)]. Qed.
(** A refusal: an exit code other than 0, and nothing changed. *)
Definition refused w (r : W * option cmdErr) : Prop := same w r.1 ∧ exitCode r.2 ≠ 0.
Lemma refused_at w w1 r : same w w1 → refused w1 r → refused w r.
Proof. intros Hs [Hs1 He]. split; [by etrans|done]. Qed.
Lemma refused_here w e : refused w (w, Some e).
Proof. split; [done|]. by destruct e. Qed.
Lemma same_ReadState p w : same w (ReadState p w).1.
Proof. destruct (law_ReadState p w) as (Hl & Hf & _). by split. Qed.
Lemma LoadRunState_same p w : same w (LoadRunState p w).1 ∧
  match (LoadRunState p w).2 with
  | inr rs => file w p = Some rs
  | inl (StateFile_ NotExist) => file w p = None
  | inl _ => True
  end.
Proof.
  rewrite /LoadRunState. destruct (law_ReadState p w) as (Hl & Hf & _ & Hr).
  destruct (ReadState p w) as [w' [[|e]|[rs|]]]; by split.
Qed.
Lemma load_same c name w : same w (loadConfigAndScenario c name w).1 ∧
  match (loadConfigAndScenario c name w).2 with inr (_, sc) => rg_Name sc = name | inl _ => True end.
Proof.
  rewrite /loadConfigAndScenario. case_decide; [done|]. rewrite /LoadHarness.
  pose proof (quiet_same _ w (quiet_ReadYAML c harnessDefaults)) as Hs.
  destruct (ReadYAML c harnessDefaults w) as [w' [e|cfg]]; [done|]. destruct (harnessValidate _ _ _); [done|].
  split; [done|]. simpl. pose proof (getFrom_spec name All []) as Hg. rewrite -/(Get name) in Hg.
  destruct (Get name); [done|apply Hg].
Qed.
Lemma withScenario_refuses args f w : (∀ cfg name sc w1, args = [name] → rg_Name sc = name → same w w1 → refused w1 (f cfg sc w1)) →
  refused w (withScenario opts args f w).
Proof.
  intros Hf. rewrite /withScenario. destruct (scenarioNameArg args) as [e|name] eqn:Ea; [apply refused_here|].
  assert (args = [name]) as Eargs by (destruct args as [|a [|b l]]; simpl in Ea; congruence).
  destruct (load_same (RO_config opts) name w) as [Hs Hn].
  destruct (loadConfigAndScenario _ _ _) as [w1 [e|[cfg sc]]]; simpl in *; [by eapply refused_at, refused_here|].
  eapply refused_at; [done|]. by eapply Hf.
Qed.

Variables (rs : RunState).
Notation state := (RO_state opts).
Lemma foreign_refused sc w : state ≠ "" → file w state = Some rs → R_Scenario rs ≠ rg_Name sc →
  ∃ w1 e, loadRunState state sc w = (w1, inl e) ∧ same w w1 ∧ e ≠ BadState (StateFile_ NotExist).
Proof.
  intros Hne Hfile Hsc. rewrite /loadRunState decide_False //. destruct (LoadRunState_same state w) as [Hs Hr].
  destruct (LoadRunState state w) as [w1 [e|rs']]; simpl in *.
  - exists w1, (BadState e). split_and!; [done..|]. intros [= ->]. congruence.
  - assert (rs' = rs) as -> by congruence. rewrite decide_True //. by eexists _, _.
Qed.
Lemma runOne_refuses name keep noSkip w : state ≠ "" → file w state = Some rs → R_Scenario rs ≠ name →
  refused w (runOne ticks polls opts name keep noSkip w).
Proof.
  intros Hne Hfile Hsc. rewrite /runOne. destruct (load_same (RO_config opts) name w) as [Hs Hn].
  destruct (loadConfigAndScenario _ _ _) as [w1 [e|[cfg sc]]]; cbn [fst snd] in *; [eapply refused_at; [done|apply refused_here]|].
  rewrite /resolveResume decide_False //. destruct (foreign_refused sc w1) as (w2 & e & -> & Hs2 & Hne2); [done|by rewrite (proj2 Hs)|congruence|].
  eapply refused_at; [by etrans|]. destruct e as [| | | |[[]|]| | | | | | | | | |]; try apply refused_here. done.
Qed.

Lemma getEach_names names : match getEach names with inr scs => names = rg_Name <$> scs | inl _ => True end.
Proof.
  induction names as [|n names IH]; cbn [getEach]; [done|]. pose proof (getFrom_spec n All []) as Hg. rewrite -/(Get n) in Hg.
  destruct (Get n) as [?|sc]; [done|]. destruct (getEach names); [done|]. by rewrite fmap_cons (proj2 Hg) IH.
Qed.

(** C22: The record of a topology that is up, named by [--state]: [up] refuses to start
    over it, whatever the scenario; [drive], [assert], [down] and [run] of named
    scenarios, so without [--all], refuse it when it is the record of a scenario they
    do not name.  To refuse is to end with an error and an exit code that is not 0, the
    cloud and every run-state as they were.  The record of a run of the scenario they
    do name is theirs to act on, whichever run wrote it. *)
Theorem live_record_kept (args : list string) w : state ≠ "" → file w state = Some rs → R_TornDown rs = false →
  refused w (upCmd ticks opts args w) ∧
  (R_Scenario rs ∉ args →
    refused w (driveCmd polls opts args w) ∧ refused w (assertCmd polls opts args w) ∧ refused w (downCmd opts args w) ∧
    ∀ keep noSkip skips, refused w (runCmd ticks polls opts keep false noSkip skips args w)).
Proof.
  intros Hne Hfile Hup. split.
  - apply withScenario_refuses. intros cfg name sc w1 _ _ Hs. rewrite /newRunID.
    pose proof (quiet_same _ w1 quiet_RandBytes) as Hs1.
    destruct (RandBytes w1) as [w2 [e|[[b0 b1] b2]]]; cbn [fst snd] in *; [eapply refused_at; [done|apply refused_here]|].
    rewrite decide_False // /refuseLiveState. destruct (LoadRunState_same state w2) as [Hs2 Hr].
    assert (file w2 state = Some rs) as Hf2 by (by rewrite (proj2 Hs1) (proj2 Hs)).
    destruct (LoadRunState state w2) as [w3 [[[|e]|]|rs']]; cbn [fst snd] in *; [congruence|..|].
    3: { assert (rs' = rs) as -> by congruence. rewrite Hup. eapply refused_at; [by etrans|apply refused_here]. }
    all: eapply refused_at; [by etrans|apply refused_here].
  - intros Hargs.
    assert (∀ f : HarnessConfig → Declared → RunState → W → W * option cmdErr, refused w (withScenario opts args (λ cfg sc w,
      match loadRunState state sc w with (w, inl e) => (w, Some e) | (w, inr rs) => f cfg sc rs w end) w)) as Hany.
    { intros f. apply withScenario_refuses. intros cfg name sc w1 -> En Hs.
      destruct (foreign_refused sc w1) as (w2 & e & -> & Hs2 & _); [done|by rewrite (proj2 Hs)| |eapply refused_at; [done|apply refused_here]].
      intros E. apply Hargs. rewrite E En. by apply list_elem_of_singleton. }
    split; [apply (Hany (λ _ _ _ _, _))|]. split; [apply (Hany (λ _ _ _ _, _))|]. split; [apply (Hany (λ _ _ _ _, _))|].
    intros keep noSkip skips. rewrite /runCmd /selectScenarios. case_decide as Hnil; [apply refused_here|].
    case_decide; [apply refused_here|]. pose proof (getEach_names args) as Hg.
    destruct (getEach args) as [known|scs]; [apply refused_here|]. case_decide as Hlen; [apply refused_here|].
    destruct scs as [|sc [|sc' scs]]; [by subst args| |destruct Hlen; split; [simpl; lia|by left]].
    apply runOne_refuses; [done..|]. intros E. apply Hargs. subst args. rewrite E. by apply list_elem_of_singleton.
Qed.
End record.

(** ** On the fake *)

Module CliExamples.
Import FakeExamples RunExamples.
#[local] Existing Instance list_range.
#[local] Existing Instance mute.
#[local] Existing Instance no_hosts.
#[local] Existing Instance clock.
#[local] Existing Instance reports.
#[local] Existing Instance no_yaml.
#[local] Existing Instance host_laws.
(** Every config file holds the same config; the ids drawn are counted up. *)
#[local] Instance process : Process Fake := {|
  ReadState p c := (c, match f_files c !! p with Some rs => inr (Some rs) | None => inl NotExist end);
  ReadYAML _ _ c := (c, inr Config); Home := Some "/root"; Exists_ _ _ := true;
  RandBytes c := (c, inr (0, 0, Z.of_nat (Seq c))); Connect _ c := (c, inr ());
  Encode _ c := (c, inr ()); Show_ _ c := c; Nanos _ := 0; Interrupted_ _ := false |}.
#[local] Instance process_laws : ProcessLaws Fake.
Proof. split; try done. intros p w. simpl. split_and!; try done. by destruct (f_files w !! p) as [rs|] eqn:E. Qed.

(** A scenario that needs two nodes, one whose metric the agents lack, and one that is brought up:
    the fake counts no bytes, so there is nothing to assert against. *)
Definition scs : list Declared := [crossHostSameTenant; resolverCycle; twoVMsSameTenant].
Definition suite : Fake * list (suiteScenario * option outcome) := suiteLoop 3 (λ _, 2%nat) Config scs false host_cloud.
Definition shownRow (r : suiteScenario * option outcome) : string * bool * string * option bool :=
  (SU_Scenario r.1, skippedRow r.1, SU_State r.1, settled <$> r.2).
Example suite_example : shownRow <$> suite.2 =
  [("cross-host-same-tenant", true, "", Some true);
   ("resolver-cycle", false, ".scenariotest/scenariotest-000002.json", Some true);
   ("twovms-same-tenant", false, ".scenariotest/scenariotest-000002.json", Some false)] ∧ size (live suite.1) = 2%nat ∧
  let r := summarize suite.2.*1 false in (SR_OK r, SR_Pass r, SR_Fail r, SR_Skipped r) = (false, 0, 2, 1)%nat.
Proof. by vm_compute. Qed.
Lemma suite_restores_witness : (settled <$> suite.2.*2 ≫= option_list) = [true; true; false] ∧
  match suite with (w', rows) =>
    (∀ init last, rows = init ++ [last] → Forall tidied init → live host_cloud ⊆ live w') ∧
    (Forall tidied rows → live w' = live host_cloud)
  end.
Proof.
  split; [by vm_compute|]. apply (suite_restores Config 3 (λ _, 2%nat) scs false host_cloud); [|exact host_closed|].
  - intros sc Hin. apply list_elem_of_In in Hin. apply list_elem_of_In. simpl in Hin. rewrite /All /=. tauto.
  - intros s i b0 b1 b2 Hs. apply lookup_liveOf in Hs as ([|[|n]] & Hn & _); [done| |done]. by injection Hn as <-.
Defined.
(** The run-state of a topology that is up, in the file the options name. *)
Definition kept_up : RunState := NewRunState "0a1b2c" "twovms-same-tenant" "scenariotest".
Definition kept_cloud : Fake := on_files (insert "state.json" kept_up) host_cloud.
Definition kept_opts : rootOptions := mkRoot "config.yaml" "human" "state.json" "".
Lemma live_record_kept_witness : (upCmd 3 kept_opts ["vm-to-internet"] kept_cloud).2 = Some (LiveTopology "0a1b2c" "twovms-same-tenant") ∧
  (downCmd kept_opts ["vm-to-internet"] kept_cloud).2 = Some (OtherScenario "twovms-same-tenant") ∧
  refused kept_cloud (upCmd 3 kept_opts ["vm-to-internet"] kept_cloud) ∧
  refused kept_cloud (downCmd kept_opts ["vm-to-internet"] kept_cloud).
Proof.
  split; [by vm_compute|]. split; [by vm_compute|].
  destruct (live_record_kept 3 (λ _, 2%nat) kept_opts kept_up ["vm-to-internet"] kept_cloud) as [Hup Hrest]; [done..|].
  split; [exact Hup|]. apply Hrest. intros E%list_elem_of_singleton. discriminate E.
Defined.
End CliExamples.
