(* ===== verification/AgentMetrics.v ===== *)
(** * Reading an agent (internal/scenariotest/agentmetrics)

    How the harness reads an agent's metric families into its samples, and its debug
    queries; and the meeting of the two ends: what the agent's collector sends, exposed
    and read back, sums to the agent's own ledger. *)
From S2P Require Import Prelude GoStrings GoArgs Bpf State Exposure Metadata Collector Scenario Cloud Realize Assert StepEnv StepAsserts Steps.
From Stdlib Require Import Ascii SpecFloat.

(** ** The exposition format's types

    A metric of a family has its label pairs and one of three typed values. *)
Record dtoMetric := mkDto { d_Label : list (string * string); d_Counter : option spec_float; d_Gauge : option spec_float;
  d_Untyped : option spec_float }.
Definition Families : Type := gmap string (list dtoMetric).

(** ** Parsing (parse.go) *)

Definition sampleValue (m : dtoMetric) : spec_float :=
  match d_Counter m with
  | Some v => v
  | None => match d_Gauge m with Some v => v | None => default fzero (d_Untyped m) end
  end.
Definition familySum (fams : Families) (name : string) : spec_float :=
  match fams !! name with Some fam => foldl (λ total m, fadd total (sampleValue m)) fzero fam | None => fzero end.
Definition labelSum (fams : Families) (name label want : string) : spec_float :=
  match fams !! name with
  | None => fzero
  | Some fam => foldl (λ total m, foldl (λ total lp,
      if decide (lp.1 = label ∧ lp.2 = want) then fadd total (sampleValue m) else total) total (d_Label m)) fzero fam
  end.
(** The loops over a metric's labels. *)
Definition bytesLabel (s : BytesSample) (lp : string * string) : BytesSample :=
  let '(n, v) := lp in
  if decide (n = "tenant_id") then mkBytesSample v (BS_Zone s) (BS_ExternalNetwork s) (BS_Direction s) (BS_Value s) (BS_Node s)
  else if decide (n = "zone") then mkBytesSample (BS_TenantID s) v (BS_ExternalNetwork s) (BS_Direction s) (BS_Value s) (BS_Node s)
  else if decide (n = "external_network") then mkBytesSample (BS_TenantID s) (BS_Zone s) v (BS_Direction s) (BS_Value s) (BS_Node s)
  else if decide (n = "direction") then mkBytesSample (BS_TenantID s) (BS_Zone s) (BS_ExternalNetwork s) v (BS_Value s) (BS_Node s)
  else s.
Definition serverLabel (s : ServerSample) (lp : string * string) : ServerSample :=
  let '(n, v) := lp in
  let set sv t z e d := mkServerSample sv t z e d (SvM_Value s) (SvM_Node s) in
  if decide (n = "server_id") then set v (SvM_TenantID s) (SvM_Zone s) (SvM_ExternalNetwork s) (SvM_Direction s)
  else if decide (n = "tenant_id") then set (SvM_ServerID s) v (SvM_Zone s) (SvM_ExternalNetwork s) (SvM_Direction s)
  else if decide (n = "zone") then set (SvM_ServerID s) (SvM_TenantID s) v (SvM_ExternalNetwork s) (SvM_Direction s)
  else if decide (n = "external_network") then set (SvM_ServerID s) (SvM_TenantID s) (SvM_Zone s) v (SvM_Direction s)
  else if decide (n = "direction") then set (SvM_ServerID s) (SvM_TenantID s) (SvM_Zone s) (SvM_ExternalNetwork s) v
  else s.
Definition portLabel (s : PortSample) (lp : string * string) : PortSample :=
  let '(n, v) := lp in
  let set p sv z d := mkPortSample p sv z d (PM_Value s) (PM_Node s) in
  if decide (n = "port_id") then set v (PM_ServerID s) (PM_Zone s) (PM_Direction s)
  else if decide (n = "server_id") then set (PM_PortID s) v (PM_Zone s) (PM_Direction s)
  else if decide (n = "zone") then set (PM_PortID s) (PM_ServerID s) v (PM_Direction s)
  else if decide (n = "direction") then set (PM_PortID s) (PM_ServerID s) (PM_Zone s) v
  else s.
Definition metricsOf (fams : Families) (name : string) : list dtoMetric := default [] (fams !! name).
Definition bytesSamples (fams : Families) : list BytesSample :=
  (λ m, foldl bytesLabel (mkBytesSample "" "" "" "" (sampleValue m) "") (d_Label m)) <$> metricsOf fams Scenario.MetricBytesTotal.
Definition serverSamples (fams : Families) : list ServerSample :=
  (λ m, foldl serverLabel (mkServerSample "" "" "" "" "" (sampleValue m) "") (d_Label m)) <$> metricsOf fams MetricServerBytesTotal.
Definition portSamples (fams : Families) : list PortSample :=
  (λ m, foldl portLabel (mkPortSample "" "" "" "" (sampleValue m) "") (d_Label m)) <$> metricsOf fams MetricPortBytesTotal.
Definition anomalySamples (fams : Families) : gmap string spec_float :=
  foldl (λ out m, foldl (λ out lp, if decide (lp.1 = "class") then sumInto out (lp.2, sampleValue m) else out) out (d_Label m)) ∅
    (metricsOf fams MetricNeutronAnomalies).

(** ** Scrape (scrape.go) *)

Definition MetricAttachFailures : string := "lachesis_tc_attach_failures_total".
Definition MetricTenantSettledTuples : string := "lachesis_state_tenant_settled_tuples".
Definition MetricServerSettledTuples : string := "lachesis_state_server_settled_tuples".
Definition MetricTotalSettledTuples : string := "lachesis_state_total_settled_tuples".
Definition ReasonPressureRelief : string := "pressure_relief".
Definition OutcomeHealed : string := "healed".
Definition wireContract : list string := [Scenario.MetricBytesTotal; MetricAttachedInterfaces; MetricAttachFailures; MetricSettledFlows;
  MetricLingeringGhosts; MetricServerBytesTotal; MetricNeutronAnomalies; MetricTenantSettledTuples; MetricUnresolvedResolved;
  MetricGCEvictions; MetricCountersReset; MetricReattachTotal].
Definition resultOf (fams : Families) : ScrapeResult := mkScrape
  (list_to_set (filter (λ n, is_Some (fams !! n)) wireContract))
  (familySum fams MetricAttachedInterfaces) (familySum fams MetricAttachFailures) (familySum fams MetricSettledFlows)
  (fadd (fadd (familySum fams MetricTenantSettledTuples) (familySum fams MetricServerSettledTuples))
     (familySum fams MetricTotalSettledTuples))
  (familySum fams MetricUnresolvedResolved) (familySum fams MetricLingeringGhosts)
  (bytesSamples fams) (serverSamples fams) (portSamples fams)
  (labelSum fams MetricGCEvictions "reason" ReasonPressureRelief)
  (labelSum fams MetricReattachTotal "outcome" OutcomeHealed)
  (anomalySamples fams) (familySum fams MetricCountersReset).

(** ** The client (client.go, debug.go)

    [FetchFamilies], [FetchMAC] and [FetchFlows] are a GET of the URL that answers 200 and the
    decoding of its body: text families, the lookup's MAC section if it has one, the rows of the
    flow query. *)
Class AgentHTTP (W : Type) := {
  FetchFamilies : string → Call W Families; FetchMAC : string → Call W (option MACLookup);
  FetchFlows : string → Call W (list FlowRow) }.

(** [strings.CutSuffix] and [url.QueryEscape] *)
Definition CutSuffix (s suffix : string) : option string := if HasSuffix s suffix then Some (TrimSuffix s suffix) else None.
Definition upperHex (z : Z) : ascii := ascii_of_N (Z.to_N (if decide (z < 10) then 48 + z else 55 + z)).
Definition escapeByte (a : ascii) : string :=
  let z := Z.of_N (N_of_ascii a) in
  if bool_decide (48 <= z <= 57 ∨ 65 <= z <= 90 ∨ 97 <= z <= 122 ∨ z ∈ [45; 46; 95; 126]) then String a EmptyString
  else if decide (z = 32) then "+"
  else String "%" (String (upperHex (z / 16)) (String (upperHex (z `mod` 16)) EmptyString)).
Fixpoint QueryEscape (s : string) : string :=
  match s with EmptyString => "" | String a s => escapeByte a +:+ QueryEscape s end.
Definition debugURL (metricsURL query mac : string) : string + string :=
  match CutSuffix metricsURL "/metrics" with
  | None => inl (query +:+ ": metrics URL " +:+ metricsURL +:+ " does not end in /metrics")
  | Some base => inr (base +:+ "/debug/" +:+ query +:+ "?mac=" +:+ QueryEscape mac)
  end.

Section client.
Context {W : Type} `{!AgentHTTP W}.
Definition client_Scrape (url : string) : Call W ScrapeResult := λ w,
  match FetchFamilies url w with (w, inl e) => (w, inl e) | (w, inr fams) => (w, inr (resultOf fams)) end.
Definition client_LookupMAC (metricsURL mac : string) : Call W MACLookup := λ w,
  match debugURL metricsURL "lookup" mac with
  | inl e => (w, inl e)
  | inr u => match FetchMAC u w with (w, inl e) => (w, inl e) | (w, inr m) => (w, inr (default (mkMACLookup false "" "") m)) end
  end.
Definition client_LookupFlows (metricsURL mac : string) : Call W (list FlowRow) := λ w,
  match debugURL metricsURL "flows" mac with inl e => (w, inl e) | inr u => FetchFlows u w end.
Definition Client : MetricsSource W := {|
  Scrape := client_Scrape; LookupMAC := client_LookupMAC; LookupFlows := client_LookupFlows |}.
End client.

(** Reads change nothing: the client keeps what the harness asks of a source of metrics. *)
Class HTTPLaws (W : Type) `{!AgentHTTP W, !World W} := {
  quiet_FetchFamilies u : quiet (FetchFamilies u); quiet_FetchMAC u : quiet (FetchMAC u); quiet_FetchFlows u : quiet (FetchFlows u) }.
Lemma quiet_after {W A B} `{!World W} (m : Call W A) (f : A → B) : quiet m →
  quiet (λ w, match m w with (w, inl e) => (w, inl e) | (w, inr a) => (w, inr (f a)) end).
Proof. intros [Hf Hl]. split; intros w; specialize (Hf w); specialize (Hl w); by destruct (m w) as [w' [e|a]]. Qed.
Lemma client_laws {W} `{!AgentHTTP W, !World W, !HTTPLaws W} : @MetricsLaws W Client _.
Proof.
  split.
  - intros u. apply quiet_after, quiet_FetchFamilies.
  - intros u m. rewrite /LookupMAC /= /client_LookupMAC. destruct (debugURL u "lookup" m); [done|].
    apply quiet_after, quiet_FetchMAC.
  - intros u m. rewrite /LookupFlows /= /client_LookupFlows. destruct (debugURL u "flows" m); [done|apply quiet_FetchFlows].
Qed.

Example debug_urls : debugURL "http://cmp-0:9090/metrics" "lookup" "fa:16:3e:00:00:01" =
  inr "http://cmp-0:9090/debug/lookup?mac=fa%3A16%3A3e%3A00%3A00%3A01" ∧
  (match debugURL "http://cmp-0:9090/" "flows" "x" with inl _ => true | inr _ => false end) = true.
Proof. by vm_compute. Qed.

(** ** Between the collector and the samples *)

(** *** float64 *)

Lemma f64_zero_or v : 0 ≤ v → match f64 v with S754_zero true => False | _ => True end.
Proof.
  intros Hv. rewrite /f64 /binary_normalize. destruct v as [|p|p]; [done| |lia].
  rewrite /binary_round. destruct (shl_align _ _ _) as [m e]. rewrite /binary_round_aux.
  destruct (shr_fexp _ _ _ _ _) as [mrs e']. destruct (shr_fexp _ _ _ _ _) as [mrs' e''].
  destruct (shr_m mrs'); [done| |done]. by destruct (Z.leb _ _).
Qed.
Lemma fadd_fzero v : 0 ≤ v → fadd fzero (f64 v) = f64 v.
Proof. intros Hv. pose proof (f64_zero_or v Hv) as Hz. rewrite /fadd /fzero. by destruct (f64 v) as [[]|[]| |]. Qed.

(** Samples of distinct keys are each its own sum. *)
Lemma sumInto_other {K} `{Countable K} (l : list (K * spec_float)) m k : k ∉ l.*1 → foldl sumInto m l !! k = m !! k.
Proof.
  revert m. induction l as [|[k' v] l IH]; intros m; [done|]. rewrite fmap_cons not_elem_of_cons. intros [Hne Hni].
  cbn [foldl]. rewrite IH // /sumInto. by rewrite lookup_insert_ne.
Qed.
Lemma sumInto_once {K} `{Countable K} (l : list (K * spec_float)) m k v : NoDup l.*1 → m !! k = None → (k, v) ∈ l →
  foldl sumInto m l !! k = Some (fadd fzero v).
Proof.
  revert m. induction l as [|[k' v'] l IH]; intros m Hnd Hm Hin; [by apply elem_of_nil in Hin|].
  rewrite fmap_cons in Hnd. apply NoDup_cons in Hnd as [Hni Hnd]. cbn [foldl]. apply elem_of_cons in Hin as [[= <- <-]|Hin].
  - rewrite sumInto_other // /sumInto /=. by rewrite lookup_insert_eq Hm.
  - apply IH; [done| |done]. rewrite /sumInto /= lookup_insert_ne //. intros ->. apply Hni.
    apply list_elem_of_fmap. by exists (k, v).
Qed.
(** The settings of a sample by its labels: of distinct names each has its own value, in
    whatever order. *)
Definition lastOf (n : string) (l : list (string * string)) (d : string) : string :=
  foldl (λ acc lp, if decide (lp.1 = n) then lp.2 else acc) d l.
Lemma lastOf_none n l d : n ∉ l.*1 → lastOf n l d = d.
Proof.
  rewrite /lastOf. revert d. induction l as [|[m v] l IH]; intros d; [done|]. rewrite fmap_cons not_elem_of_cons.
  intros [Hne Hni]. cbn [foldl]. rewrite decide_False; [by intros <-|]. by apply IH.
Qed.
Lemma lastOf_in n v l d : NoDup l.*1 → (n, v) ∈ l → lastOf n l d = v.
Proof.
  revert d. induction l as [|[m u] l IH]; intros d Hnd Hin; [by apply elem_of_nil in Hin|].
  rewrite fmap_cons in Hnd. apply NoDup_cons in Hnd as [Hni Hnd]. apply elem_of_cons in Hin as [[= -> ->]|Hin].
  - rewrite /lastOf /=. rewrite decide_True //. by apply lastOf_none.
  - by apply IH.
Qed.
Lemma bytesLabel_fold l s : foldl bytesLabel s l = mkBytesSample (lastOf "tenant_id" l (BS_TenantID s)) (lastOf "zone" l (BS_Zone s))
  (lastOf "external_network" l (BS_ExternalNetwork s)) (lastOf "direction" l (BS_Direction s)) (BS_Value s) (BS_Node s).
Proof.
  revert s. induction l as [|[n v] l IH]; intros s; [by destruct s|]. cbn [foldl]. rewrite IH /lastOf /=.
  repeat (case_decide; subst; try done; simpl). 
Qed.
Lemma serverLabel_fold l s : foldl serverLabel s l = mkServerSample (lastOf "server_id" l (SvM_ServerID s))
  (lastOf "tenant_id" l (SvM_TenantID s)) (lastOf "zone" l (SvM_Zone s))
  (lastOf "external_network" l (SvM_ExternalNetwork s)) (lastOf "direction" l (SvM_Direction s)) (SvM_Value s) (SvM_Node s).
Proof.
  revert s. induction l as [|[n v] l IH]; intros s; [by destruct s|]. cbn [foldl]. rewrite IH /lastOf /=.
  repeat (case_decide; subst; try done; simpl).
Qed.

(** *** Exposition

    The label names the collector declares for its families, in the order of the values that it
    sends (the descriptors of internal/metrics/collector.go). *)
Definition labelNames (f : string) : option (list string) :=
  (snd ∘ snd) <$> list_find (λ d, d.1 = f) [
    (Collector.MetricBytesTotal, ["zone"; "external_network"; "direction"]);
    (MetricPacketsTotal, ["zone"; "external_network"; "direction"]);
    (MetricTenantBytesTotal, ["tenant_id"; "zone"; "external_network"; "direction"]);
    (MetricTenantPacketsTotal, ["tenant_id"; "zone"; "external_network"; "direction"]);
    (MetricServerBytesTotal, ["server_id"; "tenant_id"; "zone"; "external_network"; "direction"]);
    (MetricServerPacketsTotal, ["server_id"; "tenant_id"; "zone"; "external_network"; "direction"]);
    (MetricPortBytesTotal, ["server_id"; "port_id"; "tenant_id"; "zone"; "external_network"; "direction"]);
    (MetricPortPacketsTotal, ["server_id"; "port_id"; "tenant_id"; "zone"; "external_network"; "direction"]);
    (MetricPortProtoBytesTotal, ["server_id"; "port_id"; "tenant_id"; "proto"; "direction"]);
    (MetricPortProtoPacketsTotal, ["server_id"; "port_id"; "tenant_id"; "proto"; "direction"])].
(** What the registry, the text format and its parser are relied on for: a family the collector declares
    has, in some order, one metric for each it was sent, with the labels of its names and the
    value as float64, and is absent when it was sent none. *)
Definition renders (names : list string) (m : metric) (x : dtoMetric) : Prop :=
  d_Label x ≡ₚ zip names (labels m) ∧ sampleValue x = f64 (metric_value m).
Definition exposes (fams : Families) (sent : list metric) : Prop := ∀ f names, labelNames f = Some names →
  ∃ l, l ≡ₚ filter (λ m, family m = f) sent ∧ Forall2 (renders names) l (metricsOf fams f) ∧ (is_Some (fams !! f) ↔ l ≠ []).

Lemma emit_filter {K} (l : list (K * settledTotal)) fb fp labelsOf f : fb ≠ fp →
  filter (λ m, family m = f) (l ≫= emitRow fb fp labelsOf) =
  if decide (f = fb) then (λ kv, mkMetric fb (labelsOf kv.1) (bytes kv.2)) <$> l
  else if decide (f = fp) then (λ kv, mkMetric fp (labelsOf kv.1) (packets kv.2)) <$> l else [].
Proof.
  intros Hne. induction l as [|kv l IH]; [by repeat case_decide|]. rewrite bind_cons filter_app IH /emitRow !filter_cons /=.
  destruct (decide (f = fb)) as [->|H1].
  - rewrite decide_True // decide_False //. 
  - rewrite decide_False //. destruct (decide (f = fp)) as [->|H2]; [by rewrite decide_True|by rewrite decide_False].
Qed.
(** The samples read of a family, from the metrics sent. *)
Lemma read_family {S} (read : dtoMetric → S) (of_sent : metric → S) fams sent f names : exposes fams sent →
  labelNames f = Some names → (∀ m x, m ∈ sent → family m = f → renders names m x → read x = of_sent m) →
  read <$> metricsOf fams f ≡ₚ of_sent <$> filter (λ m, family m = f) sent.
Proof.
  intros Hex Hn Hr. destruct (Hex f names Hn) as (l & Hl & Hall & _).
  assert (read <$> metricsOf fams f = of_sent <$> l) as ->; [|by rewrite Hl].
  assert (∀ m, m ∈ l → m ∈ sent ∧ family m = f) as Hin by (intros m Hm; rewrite Hl in Hm; apply list_elem_of_filter in Hm; tauto).
  clear Hl. induction Hall as [|m x l ms Hx Hall IH]; [done|]. rewrite !fmap_cons IH; [intros m' Hm'; apply Hin; by right|].
  f_equal. destruct (Hin m) as [? ?]; [by left|]. by apply Hr.
Qed.

#[local] Ltac distinct_names := simpl; apply (bool_decide_unpack _); by vm_compute.

Section meeting.
Context `{GoRange} (resolve : FlowKey → Attribution) (errors lastOK : Z) (g : GlobalState) (c : Collector).
Notation sent := (Collect resolve errors lastOK g c).2.
Notation attr := (λ k, ownerOf (resolve k)).

(** The samples of the ledger. *)
Definition tenantSample (kv : TenantSettledKey * settledTotal) : BytesSample :=
  mkBytesSample (TS_Tenant kv.1) (ZoneCode_String (TS_Zone kv.1)) (TS_ExtNet kv.1) (Direction_String (TS_Dir kv.1))
    (f64 (bytes kv.2)) "".
Definition serverSample (kv : ServerSettledKey * settledTotal) : ServerSample :=
  mkServerSample (SS_ServerID kv.1) (SS_Tenant kv.1) (ZoneCode_String (SS_Zone kv.1)) (SS_ExtNet kv.1)
    (Direction_String (SS_Dir kv.1)) (f64 (bytes kv.2)) "".

Lemma sent_rows f : f = MetricTenantBytesTotal ∨ f = MetricServerBytesTotal →
  let c' := (Collect resolve errors lastOK g c).1 in
  filter (λ m, family m = f) sent =
    if decide (f = MetricTenantBytesTotal)
    then (λ kv, mkMetric f (tenantLabels kv.1) (bytes kv.2)) <$> go_range (aggBuf c')
    else (λ kv, mkMetric f (Collector.serverLabels kv.1) (bytes kv.2)) <$> go_range (serverAggBuf c').
Proof.
  intros Hf. rewrite /Collect. destruct (SnapshotWithSettled [] [] [] [] g) as [[[flows ts] ss] xs]. cbn [fst snd].
  rewrite /emitBilling /emitHealth !filter_app !emit_filter //. 
  assert (∀ l, (∀ m, m ∈ l → family m ∉ [MetricTenantBytesTotal; MetricServerBytesTotal]) → filter (λ m, family m = f) l = []) as Hno.
  { intros l. induction l as [|m l IH]; intros Hl; [done|]. rewrite filter_cons decide_False.
    - intros <-. apply (Hl m); [by left|]. destruct Hf as [-> | ->]; [by left|right; by left].
    - apply IH. intros m' Hm'. apply Hl. by right. }
  rewrite (Hno [_; _; _; _; _; _]).
  { apply (proj1 (Forall_forall (λ m, family m ∉ [MetricTenantBytesTotal; MetricServerBytesTotal]) _)).
    repeat (apply Forall_cons; split; [by apply (bool_decide_unpack _); vm_compute|]). by apply Forall_nil. }
  destruct Hf as [-> | ->]; repeat case_decide; try discriminate; by rewrite ?app_nil_r.
Qed.
Lemma read_tenants fams : exposes fams sent → bytesSamples fams ≡ₚ tenantSample <$> map_to_list (exposedTenant attr g).
Proof.
  intros Hex. etrans.
  - apply (read_family _ (λ m, mkBytesSample (nth 0 (labels m) "") (nth 1 (labels m) "") (nth 2 (labels m) "")
      (nth 3 (labels m) "") (f64 (metric_value m)) "") fams sent MetricTenantBytesTotal
      ["tenant_id"; "zone"; "external_network"; "direction"]); [done|done|].
    intros m x Hm Hfam [Hl Hv]. assert (m ∈ filter (λ m, family m = MetricTenantBytesTotal) sent) as Hin by (by apply list_elem_of_filter).
    rewrite sent_rows in Hin; [by left|]. apply list_elem_of_fmap in Hin as ([k v] & -> & _).
    rewrite bytesLabel_fold Hv /=. simpl in Hl. 
    f_equal; (apply lastOf_in; [rewrite Hl; distinct_names|rewrite Hl; set_solver]).
  - rewrite sent_rows; [by left|]. case_decide; [|done]. rewrite -list_fmap_compose.
    rewrite (collect_tenant resolve errors lastOK g c). by rewrite go_range_perm.
Qed.
Lemma read_servers fams : exposes fams sent → serverSamples fams ≡ₚ serverSample <$> map_to_list (exposedServer attr g).
Proof.
  intros Hex. etrans.
  - apply (read_family _ (λ m, mkServerSample (nth 0 (labels m) "") (nth 1 (labels m) "") (nth 2 (labels m) "")
      (nth 3 (labels m) "") (nth 4 (labels m) "") (f64 (metric_value m)) "") fams sent MetricServerBytesTotal
      ["server_id"; "tenant_id"; "zone"; "external_network"; "direction"]); [done|done|].
    intros m x Hm Hfam [Hl Hv]. assert (m ∈ filter (λ m, family m = MetricServerBytesTotal) sent) as Hin by (by apply list_elem_of_filter).
    rewrite sent_rows in Hin; [by right|]. apply list_elem_of_fmap in Hin as ([k v] & -> & _).
    rewrite serverLabel_fold Hv /=. simpl in Hl.
    f_equal; (apply lastOf_in; [rewrite Hl; distinct_names|rewrite Hl; set_solver]).
  - rewrite sent_rows; [by right|]. case_decide; [done|]. rewrite -list_fmap_compose.
    rewrite (collect_server resolve errors lastOK g c). by rewrite go_range_perm.
Qed.

(** The tuple a tenant's bucket is read under. *)
Definition readAs (k : TenantSettledKey) : ExtTuple :=
  mkExtTuple (TS_Tenant k) (ZoneCode_String (TS_Zone k)) (TS_ExtNet k) (Direction_String (TS_Dir k)).
Definition bytesCode (k : TenantSettledKey) : Prop := u8_range (TS_Zone k) ∧ u8_range (TS_Dir k).
Lemma readAs_inj k1 k2 : bytesCode k1 → bytesCode k2 → readAs k1 = readAs k2 → k1 = k2.
Proof.
  intros H1 H2 E. apply tenantLabels_inj; [done..|]. rewrite /tenantLabels. rewrite /readAs in E. by simplify_eq/=; congruence.
Qed.
Lemma tally_ok `{Countable K} (l : list (K * settledTotal)) k v : tally l !! k = Some v → settled_ok v.
Proof.
  rewrite /tally /tally_from. assert (∀ k v, (∅ : gmap K settledTotal) !! k = Some v → settled_ok v) as Hnil by (intros ? ?; by rewrite lookup_empty).
  revert Hnil. generalize (∅ : gmap K settledTotal). induction l as [|[k' v'] l IH]; intros m Hm; cbn [foldl]; [apply Hm|].
  apply IH. intros k1 v1. rewrite /credit lookup_insert_Some. intros [[_ <-]|[_ Hin]]; [|by eapply Hm].
  split; apply u64_in_range.
Qed.

Lemma tuple_rows fams : exposes fams sent →
  (λ s, (mkExtTuple (BS_TenantID s) (BS_Zone s) (BS_ExternalNetwork s) (BS_Direction s), BS_Value s)) <$> bytesSamples fams ≡ₚ
  (λ kv, (readAs kv.1, f64 (bytes kv.2))) <$> map_to_list (exposedTenant attr g).
Proof. intros Hex. by rewrite (read_tenants fams Hex) -list_fmap_compose. Qed.
Lemma tuple_keys_NoDup fams : codes_ok g → exposes fams sent →
  NoDup ((λ s, (mkExtTuple (BS_TenantID s) (BS_Zone s) (BS_ExternalNetwork s) (BS_Direction s), BS_Value s)) <$> bytesSamples fams).*1.
Proof.
  intros Hc Hex. rewrite (tuple_rows fams Hex) -list_fmap_compose.
  apply (NoDup_fmap_2_strong _ _); [|apply NoDup_map_to_list].
  intros [k1 v1] [k2 v2] H1%elem_of_map_to_list H2%elem_of_map_to_list E. simpl in E.
  assert (k1 = k2) as -> by (apply readAs_inj; [by apply (tenant_codes resolve g Hc); eexists..|done]). congruence.
Qed.

(** C7: The harness reads the agent's ledger. When the registry and the text format render what the
    collector sends, then summing the tenant samples that the harness parses gives each
    tenant, zone, external network and direction exactly the float64 of the bytes the
    counters expose for it, and no other tuple; and the server samples are those of the
    server tier. *)
Theorem harness_reads_ledger fams : codes_ok g → exposes fams sent →
  (∀ k, bytesCode k → SumByExtTuple (bytesSamples fams) !! readAs k = (f64 ∘ bytes) <$> exposedTenant attr g !! k) ∧
  (∀ x, is_Some (SumByExtTuple (bytesSamples fams) !! x) → ∃ k, is_Some (exposedTenant attr g !! k) ∧ x = readAs k) ∧
  serverSamples fams ≡ₚ serverSample <$> map_to_list (exposedServer attr g).
Proof.
  intros Hc Hex. pose proof (tuple_keys_NoDup fams Hc Hex) as Hnd. pose proof (tuple_rows fams Hex) as Hrows.
  rewrite /SumByExtTuple. set (rows := (λ s, _) <$> bytesSamples fams) in *. split_and!; [| |by apply read_servers].
  - intros k Hk. destruct (exposedTenant attr g !! k) as [v|] eqn:E; cbn [fmap option_fmap option_map].
    + rewrite (sumInto_once rows ∅ (readAs k) (f64 (bytes v))); [done|by rewrite lookup_empty| |].
      * rewrite Hrows. apply list_elem_of_fmap. exists (k, v). split; [done|by apply elem_of_map_to_list].
      * f_equal. apply fadd_fzero. by apply (tally_ok _ k v) in E as [[? _] _].
    + rewrite sumInto_other; [|by rewrite lookup_empty]. rewrite Hrows -list_fmap_compose.
      intros ([k' v] & Ek & Hin%elem_of_map_to_list)%list_elem_of_fmap.
      assert (k = k') as <- by (apply readAs_inj; [done|by apply (tenant_codes resolve g Hc); eexists|done]). by rewrite E in Hin.
  - intros x Hx. destruct (decide (x ∈ rows.*1)) as [Hin|Hni]; [|rewrite sumInto_other // lookup_empty in Hx; by destruct Hx].
    rewrite Hrows -list_fmap_compose in Hin. apply list_elem_of_fmap in Hin as ([k v] & -> & Hin%elem_of_map_to_list).
    exists k. split; [by eexists|done].
Qed.
End meeting.

(** ** A rendering *)

Definition render (names : list string) (m : metric) : dtoMetric :=
  mkDto (zip names (labels m)) (Some (f64 (metric_value m))) None None.
Definition gathered (sent : list metric) : Families :=
  foldr (λ m fams, match labelNames (family m) with
    | Some names => <[family m := render names m :: metricsOf fams (family m)]> fams
    | None => fams
    end) ∅ sent.
Lemma gathered_family sent f names : labelNames f = Some names →
  metricsOf (gathered sent) f = render names <$> filter (λ m, family m = f) sent ∧
  (is_Some (gathered sent !! f) ↔ filter (λ m, family m = f) sent ≠ []).
Proof.
  intros Hn. induction sent as [|m sent [IH1 IH2]]; [split; [done|]; split; [by intros [? ?]|done]|].
  rewrite filter_cons. cbn [gathered foldr]. rewrite -/(gathered sent). destruct (decide (family m = f)) as [<-|Hne].
  - rewrite Hn /metricsOf lookup_insert_eq /=. split; [by rewrite -/(metricsOf (gathered sent) (family m)) IH1|]. split; [done|by eexists].
  - destruct (labelNames (family m)); [|done]. rewrite /metricsOf lookup_insert_ne //.
Qed.
Lemma gathered_exposes sent : exposes (gathered sent) sent.
Proof.
  intros f names Hn. destruct (gathered_family sent f names Hn) as [E Hs]. eexists. split; [reflexivity|]. split; [|done].
  rewrite E. apply Forall2_fmap_r, Forall_Forall2_diag, Forall_forall. intros m _. by split.
Qed.

Module AgentMetricsExamples.
Import CollectorExamples.
#[local] Existing Instance list_range.
Definition seen : Families := gathered (Collect UnknownTenant 0 0 one_flow NewCollector).2.
Example seen_result : Sp_Present (resultOf seen) = {[Scenario.MetricBytesTotal]} ∧
  Sp_Bytes (resultOf seen) = [mkBytesSample "unknown" "external" "none" "tx" (f64 5) ""] ∧ Sp_Servers (resultOf seen) = [].
Proof. by vm_compute. Qed.
Lemma harness_reads_ledger_witness :
  SumByExtTuple (bytesSamples seen) !! readAs (mkTenantSettledKey UnknownTenantID NoExternalNetwork ZoneExternal DirectionIngress) =
    Some (f64 5) ∧
  (∀ k, bytesCode k → SumByExtTuple (bytesSamples seen) !! readAs k =
    (f64 ∘ bytes) <$> exposedTenant (λ k, ownerOf (UnknownTenant k)) one_flow !! k).
Proof.
  split; [by vm_compute|].
  apply (harness_reads_ledger UnknownTenant 0 0 one_flow NewCollector seen); [|apply gathered_exposes].
  split_and!; try (by intros k; rewrite /= lookup_empty; intros []).
  intros k [c Hc]. rewrite /one_flow /ApplyDelta /= lookup_insert_Some lookup_empty in Hc.
  destruct Hc as [[<- _]|[_ ?]]; last done. by vm_compute.
Defined.
End AgentMetricsExamples.
