(* ===== verification/GoFloat.v ===== *)
(** * Whole numbers in float64

    Up to 2^53 float64 adds, subtracts and compares whole numbers exactly: the
    arithmetic of byte counts that are kept as float64. *)
From S2P Require Import Prelude GoArgs.
From Stdlib Require Import SpecFloat.

(** The binary digits of a positive number. *)
Definition digits (v : Z) : Z := Z.log2 v + 1.
Lemma digits2_digits p : Z.pos (digits2_pos p) = digits (Z.pos p).
Proof.
  rewrite /digits. induction p as [p IH|p IH|]; [..|done]; cbn [digits2_pos]; rewrite Pos2Z.inj_succ IH.
  - rewrite (Pos2Z.inj_xI p) Z.log2_succ_double; lia.
  - rewrite (Pos2Z.inj_xO p) Z.log2_double; lia.
Qed.
Lemma digits_shift v j : 0 < v → 0 ≤ j → digits (v * 2 ^ j) = digits v + j.
Proof. intros Hv Hj. rewrite /digits Z.log2_mul_pow2; lia. Qed.
Lemma digits_bounds v : 0 < v < 2 ^ 53 → 1 ≤ digits v ≤ 53.
Proof.
  intros [Hv Hb]. rewrite /digits. pose proof (Z.log2_nonneg v). pose proof (proj1 (Z.log2_lt_pow2 v 53 Hv) Hb). lia.
Qed.

Lemma iter_pos_iter {A} (f : A → A) p x : iter_pos f p x = Pos.iter f x p.
Proof.
  revert x. induction p as [p IH|p IH|]; intros x; cbn [iter_pos]; [| |done].
  - rewrite !IH Pos.iter_swap. cbn [Pos.iter]. by rewrite -!Pos.iter_swap.
  - by rewrite !IH.
Qed.
Lemma shl_iter m p : Z.pos (Pos.iter xO m p) = Z.pos m * 2 ^ Z.pos p.
Proof.
  induction p as [|p IH] using Pos.peano_ind; [cbn; lia|].
  rewrite Pos.iter_succ Pos2Z.inj_succ Z.pow_succ_r; [lia|]. rewrite Pos2Z.inj_xO IH. lia.
Qed.
Lemma shr_iter m p : 0 < m → iter_pos shr_1 p (Build_shr_record (m * 2 ^ Z.pos p) false false) = Build_shr_record m false false.
Proof.
  intros Hm. rewrite iter_pos_iter. induction p as [|p IH] using Pos.peano_ind.
  - rewrite Z.pow_1_r. cbn [Pos.iter]. destruct m as [|m|m]; [lia| |lia]. by rewrite Z.mul_comm.
  - rewrite Pos.iter_succ_r Pos2Z.inj_succ Z.pow_succ_r; [lia|].
    assert (0 < m * 2 ^ Z.pos p) as Hp by (apply Z.mul_pos_pos; [done|by apply Z.pow_pos_nonneg]).
    assert (m * (2 * 2 ^ Z.pos p) = 2 * (m * 2 ^ Z.pos p)) as -> by lia. rewrite -IH.
    destruct (m * 2 ^ Z.pos p) as [|q|q]; [lia|done|lia].
Qed.

(** A whole number as float64 keeps it: 53 digits, all of them significant. *)
Definition canon (s : bool) (v : Z) : spec_float := S754_finite s (Z.to_pos (v * 2 ^ (53 - digits v))) (digits v - 53).
Lemma fexp_digits d : 1 ≤ d → fexp 53 1024 d = d - 53.
Proof. rewrite /fexp /emin. lia. Qed.
(** A mantissa that is even enough is shifted without loss. *)
Lemma shr_fexp_exact m e f : 0 < m → 0 ≤ f → fexp 53 1024 (Zdigits2 (m * 2 ^ f) + e) - e = f →
  shr_fexp 53 1024 (m * 2 ^ f) e loc_Exact = (Build_shr_record m false false, e + f).
Proof.
  intros Hm Hf E. rewrite /shr_fexp E. destruct f as [|p|p]; [|cbn [shr shr_record_of_loc]; by rewrite shr_iter|lia].
  rewrite Z.pow_0_r Z.mul_1_r Z.add_0_r. done.
Qed.
Lemma round_aux_exact s m e f : 0 < m → 0 ≤ f → e + f ≤ 971 → fexp 53 1024 (Zdigits2 (m * 2 ^ f) + e) - e = f →
  Zdigits2 (m * 2 ^ f) = Zdigits2 m + f →
  binary_round_aux 53 1024 s (m * 2 ^ f) e loc_Exact = S754_finite s (Z.to_pos m) (e + f).
Proof.
  intros Hm Hf Hle E Ed. rewrite /binary_round_aux (shr_fexp_exact m e f) //. cbn [shr_m loc_of_shr_record round_nearest_even].
  assert (shr_fexp 53 1024 m (e + f) loc_Exact = (Build_shr_record m false false, e + f)) as ->.
  { pose proof (shr_fexp_exact m (e + f) 0 Hm) as H. rewrite Z.pow_0_r Z.mul_1_r Z.add_0_r in H. apply H; [lia|].
    rewrite Ed in E. replace (Zdigits2 m + (e + f)) with (Zdigits2 m + f + e) by lia. lia. }
  cbn [shr_m]. destruct m as [|m|m]; [lia| |lia]. cbn [Z.to_pos]. destruct (Z.leb_spec (e + f) (1024 - 53)); [done|lia].
Qed.
Lemma Zdigits2_digits v : 0 < v → Zdigits2 v = digits v.
Proof. destruct v as [|p|p]; [lia| |lia]. intros _. apply digits2_digits. Qed.
Lemma round_int s v j m : 0 < v < 2 ^ 53 → 0 ≤ j → Z.pos m = v * 2 ^ j → binary_round 53 1024 s m (- j) = canon s v.
Proof.
  intros Hv Hj Em. pose proof (digits_bounds v Hv) as Hd. set (c := v * 2 ^ (53 - digits v)).
  assert (0 < c) as Hc by (apply Z.mul_pos_pos; [lia|apply Z.pow_pos_nonneg; lia]).
  assert (digits c = 53) as Dc by (rewrite /c digits_shift; lia).
  rewrite /binary_round digits2_digits Em digits_shift; [lia..|].
  replace (digits v + j + - j) with (digits v) by lia. rewrite fexp_digits; [lia|]. rewrite /shl_align.
  assert (∀ t, 0 ≤ t → digits v - 53 - - j = t → Z.pos m = c * 2 ^ t) as Hright.
  { intros t Ht Et. rewrite Em /c -Z.mul_assoc -Z.pow_add_r; [lia..|]. do 2 f_equal. lia. }
  assert (∀ t, 0 ≤ t → c * 2 ^ t = Z.pos m → digits v - 53 - - j = t →
    binary_round_aux 53 1024 s (Z.pos m) (- j) loc_Exact = canon s v) as Hround.
  { intros t Ht Ec Et. rewrite -Ec (round_aux_exact s c (- j) t Hc Ht).
    - lia.
    - rewrite Zdigits2_digits; [rewrite Ec; lia|]. rewrite digits_shift; [lia..|]. rewrite Dc fexp_digits; lia.
    - rewrite !Zdigits2_digits; [rewrite Ec; lia|done|]. by apply digits_shift.
    - rewrite /canon. f_equal. lia. }
  destruct (digits v - 53 - - j) as [|p|p] eqn:Et.
  - apply (Hround 0); [lia|symmetry; by apply Hright; [lia|]|lia].
  - apply (Hround (Z.pos p)); [lia|symmetry; by apply Hright; [lia|]|lia].
  - assert (Z.pos (Pos.iter xO m p) = c) as Ec.
    { rewrite shl_iter Em /c -Z.mul_assoc -Z.pow_add_r; [lia..|]. do 2 f_equal. lia. }
    rewrite Ec. pose proof (round_aux_exact s c (digits v - 53) 0 Hc) as Hr. rewrite Z.mul_1_r Z.add_0_r in Hr.
    rewrite Hr; [lia|lia| |by rewrite Z.add_0_r|done]. rewrite Zdigits2_digits // Dc fexp_digits; lia.
Qed.

(** A whole number of at most 53 digits, of either sign, in float64. *)
Definition fint (z : Z) : spec_float := if decide (z = 0) then S754_zero false else canon (bool_decide (z < 0)) (Z.abs z).
Lemma normalize_int z j n : - 2 ^ 53 < z < 2 ^ 53 → 0 ≤ j → n = z * 2 ^ j → binary_normalize 53 1024 n (- j) false = fint z.
Proof.
  intros Hz Hj ->. assert (0 < 2 ^ j) as Hp by (by apply Z.pow_pos_nonneg). rewrite /fint. case_decide as E0; [by rewrite E0|].
  destruct z as [|p|p]; [done|..].
  - destruct (Z.pos p * 2 ^ j) as [|q|q] eqn:Eq; [lia| |lia]. cbn [binary_normalize].
    rewrite (round_int false (Z.pos p) j q); [lia|done|done|]. by rewrite bool_decide_false.
  - destruct (Z.neg p * 2 ^ j) as [|q|q] eqn:Eq; [lia|lia|]. cbn [binary_normalize].
    rewrite (round_int true (Z.pos p) j q); [lia|done|lia|]. by rewrite bool_decide_true.
Qed.
Lemma f64_fint z : - 2 ^ 53 < z < 2 ^ 53 → f64 z = fint z.
Proof. intros Hz. rewrite /f64. apply (normalize_int z 0); [done|done|lia]. Qed.

(** Aligned to a smaller exponent, the number is its mantissa's quotient. *)
Lemma canon_aligned v ez : 0 < v < 2 ^ 53 → ez ≤ digits v - 53 →
  Z.pos (shl_align (Z.to_pos (v * 2 ^ (53 - digits v))) (digits v - 53) ez).1 = v * 2 ^ (- ez).
Proof.
  intros Hv Hez. pose proof (digits_bounds v Hv). assert (0 < v * 2 ^ (53 - digits v)) as Hc.
  { apply Z.mul_pos_pos; [lia|apply Z.pow_pos_nonneg; lia]. }
  rewrite /shl_align. destruct (ez - (digits v - 53)) as [|p|p] eqn:E; [|lia|]; cbn [fst].
  - rewrite Z2Pos.id //. do 2 f_equal. lia.
  - rewrite shl_iter Z2Pos.id // -Z.mul_assoc -Z.pow_add_r; [lia..|]. do 2 f_equal. lia.
Qed.
Lemma cond_canon v z ez : z ≠ 0 → v = Z.abs z → v < 2 ^ 53 → ez ≤ digits v - 53 →
  cond_Zopp (bool_decide (z < 0)) (Z.pos (shl_align (Z.to_pos (v * 2 ^ (53 - digits v))) (digits v - 53) ez).1) = z * 2 ^ (- ez).
Proof. intros Hz -> Hb Hez. rewrite canon_aligned; [lia|done|]. rewrite /cond_Zopp. case_bool_decide; lia. Qed.
Lemma fint_neg z : z ≠ 0 → fint (- z) = canon (negb (bool_decide (z < 0))) (Z.abs z).
Proof.
  intros Hz. rewrite /fint decide_False; [lia|]. rewrite Z.abs_opp. f_equal.
  destruct (decide (z < 0)); [rewrite bool_decide_false; [lia|]; by rewrite bool_decide_true|].
  rewrite bool_decide_true; [lia|]. by rewrite bool_decide_false.
Qed.
Definition small (z : Z) : Prop := - 2 ^ 53 < z < 2 ^ 53.
Lemma fsub_fint a b : small a → small b → small (a - b) → SFsub 53 1024 (fint a) (fint b) = fint (a - b).
Proof.
  intros Ha Hb Hd. destruct (decide (a = 0)) as [->|Ha0].
  { change (fint 0) with (S754_zero false). destruct (decide (b = 0)) as [->|Hb0]; [done|].
    rewrite Z.sub_0_l fint_neg // /fint decide_False //. }
  destruct (decide (b = 0)) as [->|Hb0].
  { rewrite Z.sub_0_r. change (fint 0) with (S754_zero false). rewrite /fint decide_False //. }
  rewrite {1 2}/fint !decide_False //. rewrite /canon. cbn [SFsub].
  pose proof (digits_bounds (Z.abs a) ltac:(unfold small in *; lia)). pose proof (digits_bounds (Z.abs b) ltac:(unfold small in *; lia)).
  set (ez := Z.min (digits (Z.abs a) - 53) (digits (Z.abs b) - 53)).
  rewrite !(cond_canon (Z.abs _)) //; [unfold small in *; lia..|].
  replace ez with (- - ez) by lia. rewrite (normalize_int (a - b) (- ez)); [done|lia| |done]. rewrite Z.opp_involutive. lia.
Qed.
Lemma fadd_fint a b : small a → small b → small (a + b) → SFadd 53 1024 (fint a) (fint b) = fint (a + b).
Proof.
  intros Ha Hb Hd. destruct (decide (a = 0)) as [->|Ha0].
  { rewrite Z.add_0_l. change (fint 0) with (S754_zero false). rewrite /fint. by case_decide. }
  destruct (decide (b = 0)) as [->|Hb0].
  { rewrite Z.add_0_r. change (fint 0) with (S754_zero false). rewrite /fint decide_False //. }
  rewrite {1 2}/fint !decide_False //. rewrite /canon. cbn [SFadd].
  pose proof (digits_bounds (Z.abs a) ltac:(unfold small in *; lia)). pose proof (digits_bounds (Z.abs b) ltac:(unfold small in *; lia)).
  set (ez := Z.min (digits (Z.abs a) - 53) (digits (Z.abs b) - 53)).
  rewrite !(cond_canon (Z.abs _)) //; [unfold small in *; lia..|].
  replace ez with (- - ez) by lia. rewrite (normalize_int (a + b) (- ez)); [done|lia| |done]. rewrite Z.opp_involutive. lia.
Qed.
(** The order of the mantissas and exponents is that of the numbers. *)
Lemma canon_compare v w : 0 < v < 2 ^ 53 → 0 < w < 2 ^ 53 →
  match digits v - 53 ?= digits w - 53 with
  | Lt => Lt | Gt => Gt
  | Eq => Pos.compare_cont Eq (Z.to_pos (v * 2 ^ (53 - digits v))) (Z.to_pos (w * 2 ^ (53 - digits w)))
  end = (v ?= w).
Proof.
  intros Hv Hw. pose proof (digits_bounds v Hv). pose proof (digits_bounds w Hw).
  assert (∀ x y, 0 < x → 0 < y → digits x < digits y → x < y) as Hmono.
  { intros x y Hx Hy Hd. apply Z.log2_lt_cancel. rewrite /digits in Hd. lia. }
  destruct (Z.compare_spec (digits v - 53) (digits w - 53)) as [E|Hlt|Hgt].
  - replace (digits w) with (digits v) by lia. rewrite -/(Pos.compare _ _) -Z2Pos.inj_compare.
    + apply Z.mul_pos_pos; [lia|apply Z.pow_pos_nonneg; lia].
    + apply Z.mul_pos_pos; [lia|apply Z.pow_pos_nonneg; lia].
    + symmetry. apply Zmult_compare_compat_r, Z.lt_gt, Z.pow_pos_nonneg; lia.
  - symmetry. apply Z.compare_lt_iff, Hmono; lia.
  - symmetry. apply Z.compare_gt_iff, Hmono; lia.
Qed.
Lemma fcompare_fint a b : small a → small b → SFcompare (fint a) (fint b) = Some (a ?= b).
Proof.
  intros Ha Hb. unfold small in *. rewrite /fint /canon. destruct (decide (a = 0)) as [->|Ha0], (decide (b = 0)) as [->|Hb0]; [done|..]; cbn [SFcompare].
  - by destruct b.
  - by destruct a.
  - f_equal. pose proof (canon_compare (Z.abs a) (Z.abs b) ltac:(lia) ltac:(lia)) as Hc.
    destruct a as [|p|p], b as [|q|q]; try done.
    transitivity (CompOpp (Z.pos p ?= Z.pos q)); [|done].
    change (Z.pos p ?= Z.pos q) with (Z.abs (Z.neg p) ?= Z.abs (Z.neg q)). rewrite -Hc !bool_decide_true //.
    by destruct (digits (Z.abs (Z.neg p)) - 53 ?= digits (Z.abs (Z.neg q)) - 53).
Qed.
Lemma fle_fint a b : small a → small b → SFleb (fint a) (fint b) = bool_decide (a <= b).
Proof.
  intros Ha Hb. rewrite /SFleb fcompare_fint //. destruct (Z.compare_spec a b).
  - rewrite bool_decide_true //. lia.
  - rewrite bool_decide_true //. lia.
  - rewrite bool_decide_false //. lia.
Qed.
Lemma flt_fint a b : small a → small b → SFltb (fint a) (fint b) = bool_decide (a < b).
Proof.
  intros Ha Hb. rewrite /SFltb fcompare_fint //. destruct (Z.compare_spec a b).
  - rewrite bool_decide_false //. lia.
  - rewrite bool_decide_true //.
  - rewrite bool_decide_false //. lia.
Qed.
