(* ===== verification/Verdict.v ===== *)
(** * What an assertion says of the agents (internal/scenariotest/assert over internal/metrics)

    The composition of the two ends: the row of an expectation passes exactly when the
    counters of the agents, summed over the cluster, have grown by its bytes since the
    baseline.  Sums and differences are float64; below 2^53 bytes they are exact. *)
From S2P Require Import Prelude GoStrings GoArgs GoFloat Bpf State Exposure Metadata Collector Neutron Builder Scenario Cloud Realize Assert StepEnv StepAsserts Steps AgentMetrics.
From Stdlib Require Import SpecFloat.

Lemma fint_0 : fint 0 = fzero.
Proof. done. Qed.

(** ** Sums of whole numbers *)

Definition sumZ (l : list Z) : Z := foldr Z.add 0 l.
Lemma sumZ_app l1 l2 : sumZ (l1 ++ l2) = sumZ l1 + sumZ l2.
Proof. induction l1 as [|x l IH]; [done|]. cbn [app sumZ foldr]. rewrite -/(sumZ _) -/(sumZ l) IH. lia. Qed.
#[export] Instance sumZ_perm : Proper ((≡ₚ) ==> (=)) sumZ.
Proof. induction 1; cbn [sumZ foldr]; rewrite -?/(sumZ _); lia. Qed.
Lemma sumZ_nonneg l : Forall (λ z, 0 <= z) l → 0 <= sumZ l.
Proof. induction 1; cbn [sumZ foldr]; rewrite -?/(sumZ _); lia. Qed.
(** What the rows under a key come to. *)
Definition under {K} `{EqDecision K} (k : K) (l : list (K * Z)) : Z := sumZ (snd <$> filter (λ kz, kz.1 = k) l).
Definition floats {K} (l : list (K * Z)) : list (K * spec_float) := (λ kz, (kz.1, f64 kz.2)) <$> l.
Lemma sumInto_whole {K} `{Countable K} (l : list (K * Z)) (m : gmap K spec_float) k z0 :
  default fzero (m !! k) = fint z0 → 0 <= z0 → Forall (λ kz, 0 <= kz.2) l → z0 + under k l < 2 ^ 53 →
  default fzero (foldl sumInto m (floats l) !! k) = fint (z0 + under k l).
Proof.
  revert m z0. induction l as [|[k' z] l IH]; intros m z0 Hm H0 Hall Hlt; [by rewrite /under /= Z.add_0_r|].
  apply Forall_cons in Hall as [Hz Hall]. simpl in Hz.
  assert (0 <= under k l) as Hu by (apply sumZ_nonneg, Forall_fmap, Forall_forall; intros kz [_ Hin]%list_elem_of_filter;
    by apply (proj1 (Forall_forall _ _) Hall)).
  rewrite /under filter_cons in Hlt |- *. cbn [floats fmap list_fmap foldl]. rewrite -/(floats l). cbn [fst snd] in *.
  destruct (decide (k' = k)) as [->|Hne].
  - cbn [fmap list_fmap sumZ foldr snd] in Hlt |- *. rewrite -/(sumZ _) -/(under k l) in Hlt |- *.
    rewrite Z.add_assoc. apply IH; [|lia|done|lia]. rewrite /sumInto lookup_insert_eq /= Hm /fadd f64_fint; [lia|].
    apply fadd_fint; unfold small; lia.
  - rewrite -/(under k l) in Hlt |- *. apply IH; [|done..]. by rewrite /sumInto lookup_insert_ne.
Qed.

(** ** The agents *)

Record Agent := mkAgent {
  ag_resolve : FlowKey → Attribution; ag_errors : Z; ag_lastOK : Z; ag_state : GlobalState; ag_collector : Collector }.
Section agents.
Context `{GoRange}.
Definition sentBy (a : Agent) : list metric := (Collect (ag_resolve a) (ag_errors a) (ag_lastOK a) (ag_state a) (ag_collector a)).2.
Definition ledgerOf (a : Agent) : gmap TenantSettledKey settledTotal := exposedTenant (λ k, ownerOf (ag_resolve a k)) (ag_state a).
(** A scrape of the agent: the parse of families that expose what it sends. *)
Definition answers (a : Agent) (r : ScrapeResult) : Prop :=
  codes_ok (ag_state a) ∧ ∃ fams, exposes fams (sentBy a) ∧ r = resultOf fams.
(** What the agent's ledger holds for a tenant, zone and direction, by external network when one is named. *)
Definition rowsOfLedger (a : Agent) : list (ExtTuple * Z) := (λ kv, (readAs kv.1, bytes kv.2)) <$> map_to_list (ledgerOf a).
Definition matches (tenant zone ext direction : string) (x : ExtTuple) : bool :=
  bool_decide (Xt_Tenant x = tenant ∧ Xt_Zone x = zone ∧ Xt_Direction x = direction ∧ (ext = "" ∨ Xt_Ext x = ext)).
Definition billed (tenant zone ext direction : string) (agents : list Agent) : Z :=
  sumZ (snd <$> List.filter (λ kz, matches tenant zone ext direction kz.1) (agents ≫= rowsOfLedger)).
(** The snapshot of a cluster: [SampleAcross] over its answers. *)
Definition snapshotOf (l : list (AgentConfig * ScrapeResult)) : MetricsSnapshot := foldl (λ snap ar, addScrape ar.1 ar.2 snap) noMetrics l.
Lemma sampleFrom_snapshot {W} `{!MetricsSource W} agents snap w : match sampleFrom agents snap w with
  | (_, inl _) => True
  | (_, inr s) => ∃ results, length results = length agents ∧ s = foldl (λ snap ar, addScrape ar.1 ar.2 snap) snap (zip agents results)
  end.
Proof.
  revert snap w. induction agents as [|a agents IH]; intros snap w; cbn [sampleFrom]; [by exists []|].
  destruct (Scrape (AC_MetricsURL a) w) as [w1 [e|r]]; [done|]. specialize (IH (addScrape a r snap) w1).
  destruct (sampleFrom agents _ w1) as [w2 [e|s]]; [done|]. destruct IH as (rs & Hl & ->). exists (r :: rs). split; [by simpl; f_equal|done].
Qed.
Lemma snapshot_bytes l snap : M_Bytes (foldl (λ snap ar, addScrape ar.1 ar.2 snap) snap l) =
  M_Bytes snap ++ (l ≫= λ ar, (λ s, mkBytesSample (BS_TenantID s) (BS_Zone s) (BS_ExternalNetwork s) (BS_Direction s)
     (BS_Value s) (AC_Host ar.1)) <$> Sp_Bytes ar.2).
Proof.
  revert snap. induction l as [|ar l IH]; intros snap; cbn [foldl]; [by rewrite app_nil_r|]. rewrite IH bind_cons. cbn [addScrape M_Bytes].
  by rewrite app_assoc.
Qed.

Definition tupleOf (s : BytesSample) : ExtTuple := mkExtTuple (BS_TenantID s) (BS_Zone s) (BS_ExternalNetwork s) (BS_Direction s).
Lemma snapshot_tuples agents l : Forall2 (λ a ar, answers a ar.2) agents l →
  (λ s, (tupleOf s, BS_Value s)) <$> M_Bytes (snapshotOf l) ≡ₚ floats (agents ≫= rowsOfLedger).
Proof.
  rewrite /snapshotOf snapshot_bytes. cbn [noMetrics M_Bytes app]. induction 1 as [|a ar agents l (Hc & fams & Hex & Hr) Hall IH]; [done|].
  rewrite !bind_cons /floats !fmap_app. apply Permutation_app; [|exact IH]. rewrite -list_fmap_compose Hr. cbn [resultOf Sp_Bytes].
  etrans; [apply (tuple_rows (ag_resolve a) (ag_errors a) (ag_lastOK a) (ag_state a) (ag_collector a) fams Hex)|].
  by rewrite /rowsOfLedger -list_fmap_compose.
Qed.
Lemma rows_nonneg agents : Forall (λ kz, 0 <= kz.2) (agents ≫= rowsOfLedger).
Proof.
  apply Forall_forall. intros kz (a & Hin & _)%list_elem_of_bind. apply list_elem_of_fmap in Hin as ([k v] & -> & Hin%elem_of_map_to_list).
  by apply tally_ok in Hin as [[? _] _].
Qed.
(** The samples of a cluster summed under what is kept of their tuples. *)
Lemma snapshot_sum `{Countable K} (f : ExtTuple → K) agents l k : Forall2 (λ a ar, answers a ar.2) agents l →
  let rows := (λ kz, (f kz.1, kz.2)) <$> (agents ≫= rowsOfLedger) in under k rows < 2 ^ 53 →
  default fzero (foldl sumInto ∅ ((λ s, (f (tupleOf s), BS_Value s)) <$> M_Bytes (snapshotOf l)) !! k) = fint (under k rows).
Proof.
  intros Hall rows Hlt. pose proof (snapshot_tuples agents l Hall) as Hp. apply Permutation_map_inv in Hp as (rows' & E & Hp).
  assert ((λ s, (f (tupleOf s), BS_Value s)) <$> M_Bytes (snapshotOf l) = floats ((λ kz, (f kz.1, kz.2)) <$> rows')) as ->.
  { apply (f_equal (fmap (λ kv : ExtTuple * spec_float, (f kv.1, kv.2)))) in E. rewrite -!list_fmap_compose in E.
    rewrite /floats -list_fmap_compose. exact E. }
  assert (under k ((λ kz, (f kz.1, kz.2)) <$> rows') = under k rows) as Eu by (by rewrite /under /rows Hp).
  rewrite -Eu in Hlt |- *. rewrite -(Z.add_0_l (under k _)). apply sumInto_whole; [done|done| |lia].
  apply Forall_fmap, Forall_forall. intros kz Hin. apply (proj1 (Forall_forall _ _) (rows_nonneg agents)). by rewrite Hp.
Qed.
Lemma billed_under `{EqDecision K} (f : ExtTuple → K) k tenant zone ext direction agents :
  (∀ x, f x = k ↔ matches tenant zone ext direction x = true) →
  under k ((λ kz, (f kz.1, kz.2)) <$> (agents ≫= rowsOfLedger)) = billed tenant zone ext direction agents.
Proof.
  intros Hk. rewrite /under /billed. f_equal. induction (agents ≫= rowsOfLedger) as [|[x z] l IH]; [done|].
  rewrite fmap_cons filter_cons. cbn [List.filter fst snd]. destruct (matches tenant zone ext direction x) eqn:E.
  - rewrite decide_True; [by apply Hk|]. by rewrite !fmap_cons IH.
  - rewrite decide_False; [intros Hx%Hk; congruence|]. exact IH.
Qed.
Lemma valueOf_tenant b tenant zone ext direction :
  valueOf b "" "" "" tenant zone ext direction =
  if decide (ext ≠ "") then default fzero (bs_ext b !! mkExtTuple tenant zone ext direction)
  else default fzero (bs_tuples b !! mkTuple tenant zone direction).
Proof. reflexivity. Qed.
Lemma target_tenant cfg rs b haveServers e : E_VM e = "" → E_Node e = "" → resolveTarget cfg rs b haveServers e = inr ("", "").
Proof. intros Hvm Hnode. by rewrite /resolveTarget Hvm Hnode. Qed.
(** The value an expectation compares, of a cluster that answered. *)
Lemma valueOf_billed agents l servers tenant zone ext direction : Forall2 (λ a ar, answers a ar.2) agents l →
  billed tenant zone ext direction agents < 2 ^ 53 →
  valueOf (baselinesOf (M_Bytes (snapshotOf l)) servers) "" "" "" tenant zone ext direction =
    fint (billed tenant zone ext direction agents).
Proof.
  intros Hall Hlt. rewrite valueOf_tenant. case_decide as Ee.
  - assert (∀ x, x = mkExtTuple tenant zone ext direction ↔ matches tenant zone ext direction x = true) as Hm.
    { intros [t z e d]. rewrite /matches bool_decide_eq_true /=. naive_solver. }
    pose proof (billed_under id _ tenant zone ext direction agents Hm) as Hb. rewrite -Hb in Hlt |- *.
    exact (snapshot_sum id agents l (mkExtTuple tenant zone ext direction) Hall Hlt).
  - subst ext. set (f := λ x, mkTuple (Xt_Tenant x) (Xt_Zone x) (Xt_Direction x)).
    assert (∀ x, f x = mkTuple tenant zone direction ↔ matches tenant zone "" direction x = true) as Hm.
    { intros [t z e d]. rewrite /f /matches bool_decide_eq_true /=. naive_solver. }
    pose proof (billed_under f _ tenant zone "" direction agents Hm) as Hb. rewrite -Hb in Hlt |- *.
    exact (snapshot_sum f agents l (mkTuple tenant zone direction) Hall Hlt).
Qed.

(** *** The verdict of a row *)

Lemma rowOf_exact e tenant ext node server b c : small b → small c → small (c - b) → small (E_MinBytes e) →
  let row := rowOf e tenant ext node server (fint b) (fint c) in
  AR_Pass row = bool_decide (E_MinBytes e <= c - b) ∧ AR_Delta row = f64 (c - b) ∧
  AR_Note row = (if decide (c < b) then noteBaselineInvalidated else "").
Proof.
  intros Hb Hc Hd Hm. cbv zeta. rewrite /rowOf. cbn [AR_Pass AR_Delta AR_Note]. rewrite /fsub fsub_fint // (f64_fint (E_MinBytes e)) // (f64_fint (c - b)) //.
  rewrite /fge fle_fint //. split; [done|]. split; [done|]. change fzero with (fint 0). rewrite flt_fint //.
  case_bool_decide; [rewrite decide_True //; lia|rewrite decide_False //; lia].
Qed.
Lemma billed_nonneg tenant zone ext direction agents : 0 <= billed tenant zone ext direction agents.
Proof.
  apply sumZ_nonneg, Forall_fmap, Forall_forall. intros kz Hin. apply list_elem_of_In, filter_In in Hin as [Hin _].
  apply list_elem_of_In in Hin. by apply (proj1 (Forall_forall _ _) (rows_nonneg agents)).
Qed.

(** C8: The verdict of an assertion is about the ledger. An expectation on a tenant's zone and direction, on an
    external network if it names one, judged between two snapshots of the cluster: when every agent
    answered what its collector sends, the row passes exactly when the bytes that the agents' counters hold
    for it have grown by at least its minimum; it reports that growth; and it notes an invalid
    baseline exactly when they shrank. Amounts are below 2^53, where float64 is exact. *)
Theorem verdict_is_growth sc cfg rs e ref (before after : list Agent) (base cur : list (AgentConfig * ScrapeResult)) servers :
  E_VM e = "" → E_Node e = "" → R_Projects rs !! E_TenantID e = Some ref →
  Forall2 (λ a ar, answers a ar.2) before base → Forall2 (λ a ar, answers a ar.2) after cur →
  let held := billed (PR_ID ref) (E_Zone e) (resolveExternalNetwork sc cfg rs (E_ExternalNetwork e)) (E_Direction e) in
  held before < 2 ^ 53 → held after < 2 ^ 53 → 0 <= E_MinBytes e < 2 ^ 53 →
  ∃ row, evaluateRow sc cfg rs (baselinesOf (M_Bytes (snapshotOf base)) []) (baselinesOf (M_Bytes (snapshotOf cur)) [])
    servers e = inr row ∧ AR_Pass row = bool_decide (E_MinBytes e <= held after - held before) ∧
    AR_Delta row = f64 (held after - held before) ∧
    (AR_Note row ≠ "" ↔ held after < held before).
Proof.
  intros Hvm Hnode Href Hbase Hcur held Hb Ha Hmin. rewrite /evaluateRow Href target_tenant // Hvm.
  cbv zeta. rewrite !(valueOf_billed before base) // !(valueOf_billed after cur) //.
  eexists. split; [done|].
  pose proof (billed_nonneg (PR_ID ref) (E_Zone e) (resolveExternalNetwork sc cfg rs (E_ExternalNetwork e)) (E_Direction e) before).
  pose proof (billed_nonneg (PR_ID ref) (E_Zone e) (resolveExternalNetwork sc cfg rs (E_ExternalNetwork e)) (E_Direction e) after).
  fold (held before) in *. fold (held after) in *. rewrite -/(held before) -/(held after).
  destruct (rowOf_exact e (PR_ID ref) (resolveExternalNetwork sc cfg rs (E_ExternalNetwork e)) "" "" (held before) (held after))
    as (Hp & Hd & Hn); [unfold small, held in *; lia..|].
  split; [exact Hp|]. split; [exact Hd|]. rewrite Hn. case_decide; split; try done; by intros [].
Qed.
End agents.

Module VerdictExamples.
Import CollectorExamples.
#[local] Existing Instance list_range.
(** One agent: nothing counted at the baseline, a flow of five bytes since. *)
Definition agent (g : GlobalState) : Agent := mkAgent UnknownTenant 0 0 g NewCollector.
Definition answer (g : GlobalState) : AgentConfig * ScrapeResult :=
  (mkAgentConfig "a" "u" "", resultOf (gathered (sentBy (agent g)))).
Lemma answer_answers g : codes_ok g → Forall2 (λ a ar, answers a ar.2) [agent g] [answer g].
Proof. intros Hc. constructor; [|done]. split; [done|]. eexists. split; [apply gathered_exposes|done]. Qed.
Lemma New_codes : codes_ok New.
Proof. split_and!; by intros k; rewrite /= lookup_empty; intros []. Qed.
Lemma one_flow_codes : codes_ok one_flow.
Proof.
  split_and!; try (by intros k; rewrite /= lookup_empty; intros []).
  intros k [c Hc]. rewrite /one_flow /ApplyDelta /= lookup_insert_Some lookup_empty in Hc.
  destruct Hc as [[<- _]|[_ ?]]; last done. by vm_compute.
Qed.
Definition run : RunState := setProject "t" (mkProjectRef "p" UnknownTenantID true) (NewRunState "r" "s" "x").
Definition expects (n : Z) : Expect := mkExpect "t" "external" "tx" "" "" "" n.
Definition sc : Scenario := mkScenario "s" None "" ∅ ∅ ∅ [] [] [] [] [].
Definition judged (n : Z) : assertErr + AssertRow :=
  evaluateRow sc harnessDefaults run (baselinesOf (M_Bytes (snapshotOf [answer New])) [])
    (baselinesOf (M_Bytes (snapshotOf [answer one_flow])) []) false (expects n).
Example judged_example : (∃ r, judged 5 = inr r ∧ AR_Pass r = true) ∧ (∃ r, judged 6 = inr r ∧ AR_Pass r = false).
Proof. split; eexists; by vm_compute. Qed.
Lemma verdict_is_growth_witness : ∃ row, judged 5 = inr row ∧
  AR_Pass row = bool_decide (5 <= billed UnknownTenantID "external" "" "tx" [agent one_flow] -
                                   billed UnknownTenantID "external" "" "tx" [agent New]).
Proof.
  destruct (verdict_is_growth sc harnessDefaults run (expects 5) (mkProjectRef "p" UnknownTenantID true) [agent New] [agent one_flow]
    [answer New] [answer one_flow] false) as (row & E & Hp & _).
  - done.
  - done.
  - by vm_compute.
  - apply answer_answers, New_codes.
  - apply answer_answers, one_flow_codes.
  - by vm_compute.
  - by vm_compute.
  - by vm_compute.
  - exists row. split; [exact E|exact Hp].
Defined.
End VerdictExamples.
