(* ===== verification/CloudClient.v ===== *)
(** * The OpenStack client of the harness (internal/scenariotest/openstack, internal/osclient/auth.go)

    The interface Cloud over gophercloud: the admin's clients and a cache of clients whose
    tokens are scoped to a project; one operation per method, with the request it sends and
    what it makes of the answer.  The library is the class [Gophercloud]: each of its calls
    is a request through a service client.  A deadline is the number of polls that fit
    before it. *)
From S2P Require Import Prelude GoStrings GoArgs Neutron Scenario Cloud OpenStack Assert.

(** ** Gophercloud *)

(** An error carries the status of the response, when there is one. *)
Record apiErr := mkApiErr { err_code : option Z; err_text : string }.
Definition ResponseCodeIs (e : apiErr) (code : Z) : bool := bool_decide (err_code e = Some code).
Definition StatusNotFound : Z := 404.
Definition Api (B A : Type) : Type := B → B * (apiErr + A).
(** What AllPages fetched; extracting its rows may fail. *)
Definition Pages (A : Type) : Type := string + list A.

Inductive AuthScope := ScopeName (project domain : string) | ScopeID (projectID : string).
Record AuthOptions := mkAuthOptions {
  AO_IdentityEndpoint : string; AO_Username : string; AO_Password : string; AO_DomainName : string;
  AO_Scope : AuthScope; AO_AllowReauth : bool }.
(** A provider carries a token, its scope fixed when it was minted. *)
Record Provider := mkProvider { Pv_Scope : AuthScope; Pv_Token : string; Pv_Timeout : Z }.
Inductive service := SvIdentity | SvNetwork | SvCompute | SvImage | SvLoadbalancer.
Record ServiceClient := mkService { Cl_Service : service; Cl_Provider : Provider }.
Definition scopeOf (c : ServiceClient) : AuthScope := Pv_Scope (Cl_Provider c).

Record named := mkNamed { Nm_ID : string; Nm_Name : string; Nm_Enabled : bool }.
Record ProjectOpts := mkProjectOpts { PO_Name : string; PO_Enabled : option bool; PO_Description : string }.
Record NetworkOpts := mkNetworkOpts {
  NO_Name : string; NO_AdminStateUp : option bool; NO_Shared : option bool; NO_External : option bool }.
Record SubnetOpts := mkSubnetOpts {
  SO_NetworkID : string; SO_CIDR : string; SO_Name : string; SO_IPVersion : Z; SO_GatewayIP : option string }.
Record PortOpts := mkPortOpts {
  PoO_NetworkID : string; PoO_Name : string; PoO_FixedIPs : list (string * string); PoO_MACAddress : string;
  PoO_AllowedPairs : list AddressPair; PoO_SecurityGroups : option (list string); PoO_PortSecurity : option bool }.
Record RouterOpts := mkRouterOpts { RO_Name : string; RO_AdminStateUp : option bool; RO_GatewayInfo : option string }.
Record RouterUpdate := mkRouterUpdate { RU_Routes : option (list RouteSpec); RU_GatewayInfo : option string }.
Record InterfaceOpts := mkInterfaceOpts { IO_SubnetID : string; IO_PortID : string }.
Record FloatingIPOpts := mkFloatingIPOpts {
  FO_FloatingNetworkID : string; FO_PortID : string; FO_FixedIP : string; FO_FloatingIP : string }.
Record ServerOpts := mkServerOpts {
  SvO_Name : string; SvO_FlavorRef : string; SvO_ImageRef : string; SvO_Networks : list string;
  SvO_AvailabilityZone : string; SvO_KeyName : option string }.
Record ServerView := mkServerView { SV_Status : string; SV_Host : string }.
Record MigrateOpts := mkMigrateOpts { MO_Host : option string; MO_Block : option bool; MO_OverCommit : option bool }.
Record LBOpts := mkLBOpts { LO_Name : string; LO_VipSubnetID : string; LO_AdminStateUp : option bool; LO_FlavorID : string }.
Record PoolView := mkPoolView { PV_ID : string; PV_Loadbalancers : list string }.

Class Gophercloud (B : Type) := {
  AuthenticatedClient : AuthOptions → B → B * (string + Provider);
  (** The user of a v3 token: [None] for another kind of token. *)
  AuthUser : Provider → option (string + string);
  (** The error of looking a service up in the provider's catalog, under a region and interface. *)
  Endpoint : service → Provider → string * string → option string;
  images_List : ServiceClient → string → Api B (Pages named); flavors_List : ServiceClient → Api B (Pages named);
  keypairs_Get : ServiceClient → string → Api B (); hypervisors_List : ServiceClient → Api B (Pages string);
  groups_List : ServiceClient → string → Api B (Pages named); projects_List : ServiceClient → string → Api B (Pages named);
  projects_Create : ServiceClient → ProjectOpts → Api B string; roles_List : ServiceClient → string → Api B (Pages named);
  roles_Assign : ServiceClient → string → string → string → Api B ();
  networks_List : ServiceClient → string → Api B (Pages named); networks_Create : ServiceClient → NetworkOpts → Api B string;
  networks_Delete : ServiceClient → string → Api B ();
  subnets_Create : ServiceClient → SubnetOpts → Api B string; subnets_Delete : ServiceClient → string → Api B ();
  ports_Create : ServiceClient → PortOpts → Api B string; ports_Get : ServiceClient → string → Api B string;
  ports_List : ServiceClient → string → Api B (Pages string); ports_Delete : ServiceClient → string → Api B ();
  routers_Create : ServiceClient → RouterOpts → Api B string;
  routers_AddInterface : ServiceClient → string → InterfaceOpts → Api B ();
  routers_RemoveInterface : ServiceClient → string → InterfaceOpts → Api B ();
  routers_Update : ServiceClient → string → RouterUpdate → Api B (); routers_Delete : ServiceClient → string → Api B ();
  floatingips_Create : ServiceClient → FloatingIPOpts → Api B (string * string);
  floatingips_Delete : ServiceClient → string → Api B ();
  servers_Create : ServiceClient → ServerOpts → Api B string; servers_Get : ServiceClient → string → Api B ServerView;
  servers_List : ServiceClient → Api B (Pages ServerRef); servers_LiveMigrate : ServiceClient → string → MigrateOpts → Api B ();
  servers_Delete : ServiceClient → string → Api B ();
  attachinterfaces_Create : ServiceClient → string → string → Api B ();
  attachinterfaces_Delete : ServiceClient → string → string → Api B ();
  lbflavors_List : ServiceClient → Api B (Pages named);
  loadbalancers_Create : ServiceClient → LBOpts → Api B (string * string * string);
  (** A load balancer's provisioning status. *)
  loadbalancers_Get : ServiceClient → string → Api B string;
  loadbalancers_Delete : ServiceClient → string → bool → Api B ();
  listeners_Create : ServiceClient → ListenerSpec → Api B string; pools_Create : ServiceClient → PoolSpec → Api B PoolView;
  pools_CreateMember : ServiceClient → string → MemberSpec → Api B string;
  amphorae_List : ServiceClient → string → Api B (Pages AmphoraRef) }.

(** ** State (client.go) *)

Record scopedClients := mkScoped { Sc_network : ServiceClient; Sc_compute : ServiceClient; Sc_loadbalancer : option ServiceClient }.
Record CloudClient := mkCloudClient {
  cc_creds : Credentials; cc_timeout : Z; cc_eo : string * string; cc_identity : ServiceClient; cc_network : ServiceClient;
  cc_compute : ServiceClient; cc_image : ServiceClient; cc_loadbalancer : option ServiceClient; cc_userID : string;
  cc_adminRoleID : string; cc_scoped : gmap string scopedClients }.
Definition cacheScoped (p : string) (sc : scopedClients) (o : CloudClient) : CloudClient :=
  mkCloudClient (cc_creds o) (cc_timeout o) (cc_eo o) (cc_identity o) (cc_network o) (cc_compute o) (cc_image o)
    (cc_loadbalancer o) (cc_userID o) (cc_adminRoleID o) (<[p := sc]> (cc_scoped o)).
Definition setAdminRole (id : string) (o : CloudClient) : CloudClient :=
  mkCloudClient (cc_creds o) (cc_timeout o) (cc_eo o) (cc_identity o) (cc_network o) (cc_compute o) (cc_image o)
    (cc_loadbalancer o) (cc_userID o) id (cc_scoped o).

Inductive newErr := NoCredentials (e : openrcErr) | BadInterface | NoAuth (e : string) | NotV3Token | NoAuthUser (e : string)
  | NoEndpoint (s : service) (e : string).

Section client.
Context {B : Type} `{!Gophercloud B, !Clock B}.
Local Open Scope go_scope.

(** [authenticate] and its two scopes (osclient/auth.go) *)
Definition authenticate (c : Credentials) (scope : AuthScope) (b : B) : B * (string + Provider) :=
  match AuthenticatedClient (mkAuthOptions (AuthURL c) (Username c) (Password c) (UserDomain c) scope true) b with
  | (b, inl e) => (b, inl ("osclient: keystone auth: " +:+ e))
  | (b, inr provider) => (b, inr provider)
  end.
Definition Authenticate (c : Credentials) : B → B * (string + Provider) :=
  authenticate c (ScopeName (ProjectName_ c) (ProjectDomain c)).
Definition AuthenticateProject (c : Credentials) (projectID : string) : B → B * (string + Provider) :=
  authenticate c (ScopeID projectID).

Definition applyTimeout (timeout : Z) (p : Provider) : Provider := mkProvider (Pv_Scope p) (Pv_Token p) timeout.
Definition newService (s : service) (p : Provider) (eo : string * string) : string + ServiceClient :=
  match Endpoint s p eo with Some e => inl e | None => inr (mkService s p) end.
Definition optional {A} (r : string + A) : option A := match r with inl _ => None | inr a => Some a end.
Definition ResolveCredentials (home : option string) (readFile : string → option string) (oc : OpenStackCreds)
    : openrcErr + Credentials :=
  if decide (OC_CredentialsFile oc ≠ "") then ParseOpenRC (readFile (expandHome home (OC_CredentialsFile oc)))
  else inr (mkCreds (OC_AuthURL oc) (OC_Username oc) (OC_Password oc) (OC_ProjectName oc) (OC_UserDomain oc)
    (OC_ProjectDomain oc) (OC_Region oc) (OC_Interface oc)).
Definition newCloudClient (home : option string) (readFile : string → option string) (oc : OpenStackCreds) (b : B)
    : B * (newErr + CloudClient) :=
  match ResolveCredentials home readFile oc with
  | inl e => (b, inl (NoCredentials e))
  | inr creds =>
      match EndpointOpts creds "public" with
      | None => (b, inl BadInterface)
      | Some eo =>
          match Authenticate creds b with
          | (b, inl e) => (b, inl (NoAuth e))
          | (b, inr provider) =>
              let provider := applyTimeout (OC_RequestTimeout oc) provider in
              (b, match AuthUser provider with
                  | None => inl NotV3Token
                  | Some (inl e) => inl (NoAuthUser e)
                  | Some (inr userID) =>
                      match newService SvIdentity provider eo, newService SvNetwork provider eo,
                            newService SvCompute provider eo, newService SvImage provider eo with
                      | inl e, _, _, _ => inl (NoEndpoint SvIdentity e)
                      | _, inl e, _, _ => inl (NoEndpoint SvNetwork e)
                      | _, _, inl e, _ => inl (NoEndpoint SvCompute e)
                      | _, _, _, inl e => inl (NoEndpoint SvImage e)
                      | inr identity, inr network, inr compute, inr image =>
                          inr (mkCloudClient creds (OC_RequestTimeout oc) eo identity network compute image
                            (optional (newService SvLoadbalancer provider eo)) userID "" ∅)
                      end
                  end)
          end
      end
  end.

(** ** Requests *)

Notation Op := (Prog (CloudClient * B) string).
Definition wrap (what : string) (e : apiErr) : string := "openstack: " +:+ what +:+ ": " +:+ err_text e.
Definition request {A} (c : Api B A) : Prog (CloudClient * B) string (apiErr + A) := λ '(o, b), let r := c b in ((o, r.1), inr r.2).
Definition send {A} (what : string) (c : Api B A) : Op A :=
  r <- request c ;; match r with inl e => fail (wrap what e) | inr a => ret a end.
(** [AllPages], then the extraction of its rows. *)
Definition listing {A} (what : string) (c : Api B (Pages A)) : Op (list A) :=
  pages <- send ("list " +:+ what) c ;;
  match pages with inl e => fail ("openstack: extract " +:+ what +:+ ": " +:+ e) | inr all => ret all end.
Definition ignoreNotFound (r : apiErr + ()) : option apiErr :=
  match r with
  | inr _ => None
  | inl e => if ResponseCodeIs e StatusNotFound then None else Some e
  end.
Definition tolerating (what : string) (c : Api B ()) : Op () :=
  r <- request c ;; match ignoreNotFound r with Some e => fail (wrap what e) | None => ret () end.
Definition pollPause (d : Z) : Op () := λ '(o, b), match Pause d b with (b, inl e) => ((o, b), inl e) | (b, inr _) => ((o, b), inr ()) end.
Definition the (f : CloudClient → ServiceClient) : Op ServiceClient := gets (λ s, f s.1).
Definition firstID (what name : string) (all : list named) : Op string :=
  match all with [] => fail ("openstack: " +:+ what +:+ " " +:+ name +:+ " not found") | x :: _ => ret (Nm_ID x) end.

(** [scopedFor] *)
Definition mintScoped (o : CloudClient) (p : string) (provider : Provider) : string + scopedClients :=
  let provider := applyTimeout (cc_timeout o) provider in
  match newService SvNetwork provider (cc_eo o) with
  | inl e => inl ("openstack: scoped network endpoint: " +:+ e)
  | inr net =>
      match newService SvCompute provider (cc_eo o) with
      | inl e => inl ("openstack: scoped compute endpoint: " +:+ e)
      | inr comp => inr (mkScoped net comp (optional (newService SvLoadbalancer provider (cc_eo o))))
      end
  end.
Definition scopedFor (p : string) : Op scopedClients := λ '(o, b),
  match cc_scoped o !! p with
  | Some sc => ((o, b), inr sc)
  | None =>
      match AuthenticateProject (cc_creds o) p b with
      | (b, inl e) => ((o, b), inl ("openstack: scope to project " +:+ p +:+ ": " +:+ e))
      | (b, inr provider) =>
          match mintScoped o p provider with
          | inl e => ((o, b), inl e)
          | inr sc => ((cacheScoped p sc o, b), inr sc)
          end
      end
  end.
Definition networkFor (p : string) : Op ServiceClient := sc <- scopedFor p ;; ret (Sc_network sc).
Definition computeFor (p : string) : Op ServiceClient := sc <- scopedFor p ;; ret (Sc_compute sc).
Definition errNoOctavia : string := "openstack: no octavia endpoint in the catalog".
Definition adminOctavia : Op ServiceClient :=
  lb <- gets (λ s, cc_loadbalancer s.1) ;; match lb with None => fail errNoOctavia | Some c => ret c end.
Definition lbClient (p : string) : Op ServiceClient :=
  _ <- adminOctavia ;;
  sc <- scopedFor p ;;
  match Sc_loadbalancer sc with None => fail errNoOctavia | Some c => ret c end.

(** ** Identity (identity.go) *)

Definition os_FindProject (name : string) : Op (option string) :=
  c <- the cc_identity ;; all <- listing "projects" (projects_List c name) ;; ret (Nm_ID <$> head all).
Definition os_CreateProject (name : string) : Op string :=
  c <- the cc_identity ;;
  send ("create project " +:+ name)
    (projects_Create c (mkProjectOpts name (Some true) "scenariotest live-validation project (not torn down)")).
Definition adminRole : Op string :=
  id <- gets (λ s, cc_adminRoleID s.1) ;;
  if decide (id = "") then
    c <- the cc_identity ;;
    rs <- listing "roles" (roles_List c "admin") ;;
    id <- firstID "role" "admin" rs ;;
    modify (λ s, (setAdminRole id s.1, s.2)) ;;;
    ret id
  else ret id.
Definition os_GrantAdminRole (p : string) : Op () :=
  role <- adminRole ;;
  c <- the cc_identity ;;
  user <- gets (λ s, cc_userID s.1) ;;
  send ("grant admin role on project " +:+ p) (roles_Assign c role user p).

(** ** Networks and ports (network.go) *)

Definition os_FindSecGroup (name : string) : Op string :=
  c <- the cc_network ;; all <- listing "security groups" (groups_List c name) ;; firstID "security group" name all.
Definition os_FindExternalNetwork (name : string) : Op string :=
  c <- the cc_network ;; all <- listing "networks" (networks_List c name) ;; firstID "external network" name all.
Definition networkOpts (s : NetworkSpec) : NetworkOpts :=
  mkNetworkOpts (NS_Name s) (Some true) (if NS_Shared s then Some true else None) (if NS_External s then Some true else None).
Definition os_CreateNetwork (p : string) (s : NetworkSpec) : Op string :=
  c <- networkFor p ;; send ("create network " +:+ NS_Name s) (networks_Create c (networkOpts s)).
Definition given (s : string) : option string := if decide (s = "") then None else Some s.
Definition subnetOpts (s : SubnetSpec) : SubnetOpts :=
  mkSubnetOpts (SS_NetworkID s) (SS_CIDR s) (SS_Name s) 4 (given (SS_GatewayIP s)).
Definition os_CreateSubnet (p : string) (s : SubnetSpec) : Op string :=
  c <- networkFor p ;; send ("create subnet " +:+ SS_Name s) (subnets_Create c (subnetOpts s)).
Definition portOpts (s : PortSpec) : PortOpts :=
  let groups := (λ g, [g]) <$> given (PS_SecGroupID s) in
  mkPortOpts (PS_NetworkID s) (PS_Name s) [(PS_SubnetID s, PS_FixedIP s)] (PS_MACAddress s) (PS_AllowedPairs s)
    (if PS_PortSecurityOff s then Some [] else groups) (if PS_PortSecurityOff s then Some false else None).
Definition os_CreatePort (p : string) (s : PortSpec) : Op string :=
  c <- networkFor p ;; send ("create port " +:+ PS_Name s) (ports_Create c (portOpts s)).
Definition os_PortMAC (port : string) : Op string := c <- the cc_network ;; send ("get port " +:+ port) (ports_Get c port).
Definition os_ListNetworkPorts (net : string) : Op (list string) := c <- the cc_network ;; listing "ports" (ports_List c net).
Definition os_DeletePort (p id : string) : Op () := c <- networkFor p ;; tolerating ("delete port " +:+ id) (ports_Delete c id).
Definition os_DeleteSubnet (p id : string) : Op () := c <- networkFor p ;; tolerating ("delete subnet " +:+ id) (subnets_Delete c id).
Definition os_DeleteNetwork (p id : string) : Op () := c <- networkFor p ;; tolerating ("delete network " +:+ id) (networks_Delete c id).

(** ** Routers and floating IPs (router.go, floatingip.go) *)

Definition os_CreateRouter (p : string) (s : RouterSpec) : Op string :=
  c <- networkFor p ;;
  send ("create router " +:+ RtS_Name s) (routers_Create c (mkRouterOpts (RtS_Name s) (Some true) (given (RtS_ExternalNetworkID s)))).
Definition os_AddRouterInterface (p router subnet port : string) : Op () :=
  c <- networkFor p ;; send ("add interface " +:+ router) (routers_AddInterface c router (mkInterfaceOpts subnet port)).
Definition os_SetRouterRoutes (p router : string) (routes : list RouteSpec) : Op () :=
  c <- networkFor p ;; send ("set routes on router " +:+ router) (routers_Update c router (mkRouterUpdate (Some routes) None)).
Definition os_SetRouterGateway (p router ext : string) : Op () :=
  c <- networkFor p ;; send ("set gateway on router " +:+ router) (routers_Update c router (mkRouterUpdate None (given ext))).
Definition os_ClearRouterRoutes (p router : string) : Op () :=
  c <- networkFor p ;; tolerating ("clear routes on router " +:+ router) (routers_Update c router (mkRouterUpdate (Some []) None)).
Definition os_RemoveRouterInterface (p router subnet port : string) : Op () :=
  c <- networkFor p ;; tolerating ("remove interface " +:+ router) (routers_RemoveInterface c router (mkInterfaceOpts subnet port)).
Definition os_DeleteRouter (p id : string) : Op () := c <- networkFor p ;; tolerating ("delete router " +:+ id) (routers_Delete c id).
Definition os_CreateFIP (p : string) (s : FIPCreateSpec) : Op (string * string) :=
  c <- networkFor p ;;
  send "allocate floating ip"
    (floatingips_Create c (mkFloatingIPOpts (FS_ExternalNetworkID s) (FS_PortID s) (FS_FixedIP s) (FS_FloatingIP s))).
Definition os_DeleteFIP (p id : string) : Op () := c <- networkFor p ;; tolerating ("delete floating ip " +:+ id) (floatingips_Delete c id).

(** ** Servers (compute.go) *)

Definition os_FindImage (name : string) : Op string :=
  c <- the cc_image ;; all <- listing "images" (images_List c name) ;; firstID "image" name all.
Definition os_FindFlavor (name : string) : Op string :=
  c <- the cc_compute ;; all <- listing "flavors" (flavors_List c) ;;
  firstID "flavor" name (List.filter (λ f, bool_decide (Nm_Name f = name)) all).
Definition os_CheckKeypair (name : string) : Op () := c <- the cc_compute ;; send ("keypair " +:+ name) (keypairs_Get c name).
Definition os_Hypervisors : Op (list string) := c <- the cc_compute ;; listing "hypervisors" (hypervisors_List c).
Definition serverOpts (s : ServerSpec) : ServerOpts :=
  mkServerOpts (SvS_Name s) (SvS_FlavorID s) (SvS_ImageID s) (SvS_PortID s :: SvS_ExtraPortIDs s) (SvS_AvailabilityZone s)
    (given (SvS_KeypairName s)).
Definition os_CreateServer (p : string) (s : ServerSpec) : Op string :=
  c <- computeFor p ;; send ("boot server " +:+ SvS_Name s) (servers_Create c (serverOpts s)).
Definition serverPollInterval : Z := 3 * second.
(** [WaitServerActive] and its loop. *)
Fixpoint awaitActive (c : ServiceClient) (id : string) (n : nat) : Op () :=
  s <- send ("get server " +:+ id) (servers_Get c id) ;;
  if decide (SV_Status s = "ACTIVE") then ret ()
  else if decide (SV_Status s = "ERROR") then fail ("openstack: server " +:+ id +:+ " entered ERROR state")
  else match n with
  | O => fail ("openstack: server " +:+ id +:+ " not ACTIVE before deadline")
  | S n => pollPause serverPollInterval ;;; awaitActive c id n
  end.
Definition os_ServerHost (p id : string) : Op string :=
  c <- computeFor p ;;
  s <- send ("get server " +:+ id) (servers_Get c id) ;;
  if decide (SV_Host s = "") then fail ("openstack: server " +:+ id +:+ " exposes no host") else ret (SV_Host s).
Definition os_LiveMigrateServer (p id target : string) : Op () :=
  c <- computeFor p ;;
  send ("live-migrate server " +:+ id) (servers_LiveMigrate c id (mkMigrateOpts (given target) (Some false) (Some false))).
Definition os_ListProjectServers (p : string) : Op (list ServerRef) := c <- computeFor p ;; listing "servers" (servers_List c).
Definition os_AttachInterface (p server port : string) : Op () :=
  c <- computeFor p ;; send ("attach port " +:+ port) (attachinterfaces_Create c server port).
Definition os_DetachInterface (p server port : string) : Op () :=
  c <- computeFor p ;; send ("detach port " +:+ port) (attachinterfaces_Delete c server port).
Definition os_DeleteServer (p id : string) : Op () := c <- computeFor p ;; tolerating ("delete server " +:+ id) (servers_Delete c id).
(** [WaitServerGone] and its loop. *)
Fixpoint awaitServerGone (c : ServiceClient) (id : string) (n : nat) : Op () :=
  r <- request (servers_Get c id) ;;
  match r with
  | inl e => if ResponseCodeIs e StatusNotFound then ret () else fail (wrap ("poll server " +:+ id) e)
  | inr _ =>
      match n with
      | O => fail ("openstack: server " +:+ id +:+ " still present at deadline")
      | S n => pollPause serverPollInterval ;;; awaitServerGone c id n
      end
  end.

(** ** Load balancers (loadbalancer.go) *)

Definition lbPollInterval : Z := 5 * second.
Definition os_FindLBFlavor (name : string) : Op string :=
  c <- adminOctavia ;; all <- listing "lb flavors" (lbflavors_List c) ;;
  match List.filter (λ f, bool_decide (Nm_Name f = name)) all with
  | [] => fail ("openstack: lb flavor " +:+ name +:+ " not found")
  | f :: _ => if Nm_Enabled f then ret (Nm_ID f) else fail ("openstack: lb flavor " +:+ name +:+ " is disabled")
  end.
Definition os_CreateLoadBalancer (p : string) (s : LBSpec) : Op (string * string * string) :=
  c <- lbClient p ;;
  send ("create load balancer " +:+ LS_Name s)
    (loadbalancers_Create c (mkLBOpts (LS_Name s) (LS_VIPSubnetID s) (Some true) (LS_FlavorID s))).
Fixpoint awaitLBActive (c : ServiceClient) (id : string) (n : nat) : Op () :=
  last <- send ("get load balancer " +:+ id) (loadbalancers_Get c id) ;;
  if decide (last = "ACTIVE") then ret ()
  else if decide (last = "ERROR") then fail ("openstack: load balancer " +:+ id +:+ " went ERROR")
  else match n with
  | O => fail ("openstack: load balancer " +:+ id +:+ " still " +:+ last)
  | S n => pollPause lbPollInterval ;;; awaitLBActive c id n
  end.
(** How many polls at an interval fit before the deadline. *)
Variable fits : Z → nat.
Definition os_WaitServerActive (p id : string) : Op () := c <- computeFor p ;; awaitActive c id (fits serverPollInterval).
Definition os_WaitServerGone (p id : string) : Op () := c <- computeFor p ;; awaitServerGone c id (fits serverPollInterval).
Definition os_WaitLBActive (p id : string) : Op () := c <- lbClient p ;; awaitLBActive c id (fits lbPollInterval).
Definition os_CreateListener (p : string) (s : ListenerSpec) : Op string :=
  c <- lbClient p ;;
  id <- send ("create listener " +:+ LiS_Name s) (listeners_Create c s) ;;
  os_WaitLBActive p (LiS_LoadBalancerID s) ;;;
  ret id.
Definition os_CreatePool (p : string) (s : PoolSpec) : Op string :=
  c <- lbClient p ;;
  pool <- send ("create pool " +:+ PoS_Name s) (pools_Create c s) ;;
  match PV_Loadbalancers pool with
  | [] => ret (PV_ID pool)
  | lb :: _ => os_WaitLBActive p lb ;;; ret (PV_ID pool)
  end.
Definition os_CreateMember (p : string) (s : MemberSpec) : Op string :=
  c <- lbClient p ;; send ("create member " +:+ MS_Address s) (pools_CreateMember c (MS_PoolID s) s).
Definition os_ListAmphorae (lb : string) : Op (list AmphoraRef) := c <- adminOctavia ;; listing "amphorae" (amphorae_List c lb).
(** The loop of [DeleteLoadBalancer]. *)
Fixpoint awaitLBGone (c : ServiceClient) (id : string) (n : nat) : Op () :=
  r <- request (loadbalancers_Get c id) ;;
  match r with
  | inl e => if ResponseCodeIs e StatusNotFound then ret () else fail (wrap ("await load balancer " +:+ id +:+ " deletion") e)
  | inr _ =>
      match n with
      | O => fail ("openstack: load balancer " +:+ id +:+ " not gone")
      | S n => pollPause lbPollInterval ;;; awaitLBGone c id n
      end
  end.
Definition os_DeleteLoadBalancer (p id : string) : Op () :=
  c <- lbClient p ;;
  r <- request (loadbalancers_Delete c id true) ;;
  match r with
  | inl e => match ignoreNotFound (inl e) with Some e => fail (err_text e) | None => ret () end
  | inr _ => awaitLBGone c id (fits lbPollInterval)
  end.
End client.
