(* ===== verification/CloudContract.v ===== *)
(** * The OpenStack client keeps the contract of Cloud (internal/scenariotest/openstack)

    What the client relies on from OpenStack's API, call by call; the states a client
    can be in, where every cached client's token is scoped to the project it is cached
    under; and that over these states the client's methods satisfy [CloudLaws], which is
    all that the theorems on the harness ask of a cloud. *)
From S2P Require Import Prelude GoStrings GoArgs Neutron Scenario Cloud OpenStack Assert CloudClient.

(** ** What the API promises *)

Section relations.
Context {B : Type} `{!World B}.
Implicit Types b : B.
(** Nothing happened to the resources; no id was forgotten, no file touched. *)
Record keepsRecords (b b' : B) : Prop := mkKeeps {
  kr_file : ∀ path, file b' path = file b path; kr_used : ∀ id, used b id → used b' id }.
Record same (b b' : B) : Prop := mkSame { sm_live : live b' = live b; sm_records : keepsRecords b b' }.
#[export] Instance keepsRecords_preorder : PreOrder keepsRecords.
Proof. split; [by intros b; split|]. intros b1 b2 b3 [F U] [F' U']. split; [intros p; by rewrite F' F|by eauto]. Qed.
#[export] Instance same_preorder : PreOrder same.
Proof. split; [by intros b; split|]. intros b1 b2 b3 [L R] [L' R']. split; [congruence|by etrans]. Qed.

Definition said {A} (r : apiErr + A) : string + A := match r with inl e => inl (err_text e) | inr a => inr a end.
Definition notThere {A} (r : apiErr + A) : bool := match r with inl e => ResponseCodeIs e StatusNotFound | inr _ => false end.
Definition apiQuiet {A} (c : Api B A) : Prop := ∀ b, same b (c b).1.
(** A create makes one resource under a fresh id. *)
Definition apiCreates {A} (id_of : A → string) (k : kind) (i : Info) (c : Api B A) : Prop := ∀ b,
  keepsRecords b (c b).1 ∧ creates id_of k i b (c b).1 (said (c b).2).
(** A delete removes its target; 404 says that there is none. *)
Definition apiDeletes (k : key) (c : Api B ()) : Prop := ∀ b,
  keepsRecords b (c b).1 ∧
  if notThere (c b).2 then live b !! k = None ∧ live (c b).1 = live b else deletes k (live b) (live (c b).1) (said (c b).2).
(** One that is only accepted may not have removed it yet. *)
Definition apiAccepts (k : key) (c : Api B ()) : Prop := ∀ b,
  keepsRecords b (c b).1 ∧ (live (c b).1 = live b ∨ live (c b).1 = delete k (live b)) ∧
  (notThere (c b).2 = true → live b !! k = None ∧ live (c b).1 = live b).
(** A get reads; 404 says that the resource is gone. *)
Definition apiTells {A} (k : key) (c : Api B A) : Prop := ∀ b,
  same b (c b).1 ∧ (notThere (c b).2 = true → live b !! k = None).
Definition apiDetaches (subnet port : string) (c : Api B ()) : Prop := ∀ b,
  keepsRecords b (c b).1 ∧ detaches subnet port (live b) (live (c b).1).
End relations.

Class GopherLaws (B : Type) `{!Gophercloud B, !Clock B, !World B} := {
  (** A token has the scope it was asked for. *)
  law_Authenticated o b : same b (AuthenticatedClient o b).1 ∧
    match (AuthenticatedClient o b).2 with inr p => Pv_Scope p = AO_Scope o | inl _ => True end;
  quiet_pause d b : same b (Pause d b).1;
  quiet_images_List c n : apiQuiet (images_List c n); quiet_flavors_List c : apiQuiet (flavors_List c);
  quiet_keypairs_Get c n : apiQuiet (keypairs_Get c n); quiet_hypervisors_List c : apiQuiet (hypervisors_List c);
  quiet_groups_List c n : apiQuiet (groups_List c n); quiet_projects_List c n : apiQuiet (projects_List c n);
  quiet_projects_Create c o : apiQuiet (projects_Create c o); quiet_roles_List c n : apiQuiet (roles_List c n);
  quiet_roles_Assign c r u p : apiQuiet (roles_Assign c r u p); quiet_networks_List c n : apiQuiet (networks_List c n);
  quiet_ports_Get c p : apiQuiet (ports_Get c p); quiet_ports_List c n : apiQuiet (ports_List c n);
  quiet_routers_AddInterface c r o : apiQuiet (routers_AddInterface c r o);
  quiet_routers_Update c r o : apiQuiet (routers_Update c r o); quiet_servers_List c : apiQuiet (servers_List c);
  quiet_servers_LiveMigrate c s o : apiQuiet (servers_LiveMigrate c s o);
  quiet_attach c s p : apiQuiet (attachinterfaces_Create c s p); quiet_detach c s p : apiQuiet (attachinterfaces_Delete c s p);
  quiet_lbflavors_List c : apiQuiet (lbflavors_List c); quiet_listeners_Create c s : apiQuiet (listeners_Create c s);
  quiet_pools_Create c s : apiQuiet (pools_Create c s); quiet_pools_CreateMember c p s : apiQuiet (pools_CreateMember c p s);
  quiet_amphorae_List c l : apiQuiet (amphorae_List c l);
  law_servers_Get c s : apiTells (KServer, s) (servers_Get c s);
  law_loadbalancers_Get c l : apiTells (KLoadBalancer, l) (loadbalancers_Get c l);
  (** A resource is born in the project of the token that made it. *)
  law_networks_Create c o p : scopeOf c = ScopeID p →
    apiCreates id KNetwork (mkInfo (NO_Name o) p "" "") (networks_Create c o);
  law_subnets_Create c o p : scopeOf c = ScopeID p →
    apiCreates id KSubnet (mkInfo (SO_Name o) p (SO_NetworkID o) "") (subnets_Create c o);
  law_routers_Create c o p : scopeOf c = ScopeID p →
    apiCreates id KRouter (mkInfo (RO_Name o) p "" "") (routers_Create c o);
  law_ports_Create c o p subnet ip : scopeOf c = ScopeID p → PoO_FixedIPs o = [(subnet, ip)] →
    apiCreates id KPort (mkInfo (PoO_Name o) p (PoO_NetworkID o) subnet) (ports_Create c o);
  law_servers_Create c o p : scopeOf c = ScopeID p →
    apiCreates id KServer (mkInfo (SvO_Name o) p "" "") (servers_Create c o);
  law_floatingips_Create c o p : scopeOf c = ScopeID p → apiCreates fst KFIP (mkInfo "" p "" "") (floatingips_Create c o);
  law_loadbalancers_Create c o p : scopeOf c = ScopeID p →
    apiCreates (λ x, x.1.1) KLoadBalancer (mkInfo (LO_Name o) p "" "") (loadbalancers_Create c o);
  law_networks_Delete c r : apiDeletes (KNetwork, r) (networks_Delete c r);
  law_subnets_Delete c r : apiDeletes (KSubnet, r) (subnets_Delete c r);
  law_routers_Delete c r : apiDeletes (KRouter, r) (routers_Delete c r);
  law_ports_Delete c r : apiDeletes (KPort, r) (ports_Delete c r);
  law_floatingips_Delete c r : apiDeletes (KFIP, r) (floatingips_Delete c r);
  law_servers_Delete c r : apiAccepts (KServer, r) (servers_Delete c r);
  law_loadbalancers_Delete c r : apiAccepts (KLoadBalancer, r) (loadbalancers_Delete c r true);
  law_routers_RemoveInterface c r o : apiDetaches (IO_SubnetID o) (IO_PortID o) (routers_RemoveInterface c r o);
  (** The listings are complete: of a network's ports, and of the servers of the token's project. *)
  law_ports_List c n b ports : (ports_List c n b).2 = inr (inr ports) →
    ∀ p i, live b !! (KPort, p) = Some i → p ∈ ports ↔ I_Network i = n;
  law_servers_List c p b l : scopeOf c = ScopeID p → (servers_List c b).2 = inr (inr l) →
    ∀ s i, live b !! (KServer, s) = Some i → (I_Project i = p → mkServerRef s (I_Name i) ∈ l) ∧
      (∀ r, r ∈ l → SR_ID r = s → SR_Name r = I_Name i ∧ I_Project i = p) }.

Section contract.
Context {B : Type} `{!Gophercloud B, !Clock B, !World B, !GopherLaws B}.
Variable fits : Z → nat.
Local Open Scope go_scope.
Notation Op := (Prog (CloudClient * B) string).
Implicit Types (b : B) (o : CloudClient) (w : CloudClient * B) (p : string).

(** ** The states of a client *)

Definition scopedTo p (sc : scopedClients) : Prop :=
  scopeOf (Sc_network sc) = ScopeID p ∧ scopeOf (Sc_compute sc) = ScopeID p ∧
  from_option (λ c, scopeOf c = ScopeID p) True (Sc_loadbalancer sc).
Definition coherent o : Prop := map_Forall scopedTo (cc_scoped o).

(** Since [b], nothing happened but reads. *)
Definition since b w : Prop := coherent w.1 ∧ same b w.2.
Definition does {A} (R : B → B → string + A → Prop) (m : Op A) : Prop := ∀ b,
  triple (since b) m (λ a w, coherent w.1 ∧ R b w.2 (inr a)) (λ e w, coherent w.1 ∧ R b w.2 (inl e)).
Definition reads {A} (m : Op A) : Prop := ∀ b, triple (since b) m (λ _, since b) (λ _, since b).

Lemma reads_ret {A} (a : A) : reads (ret a).
Proof. by intros b w. Qed.
Lemma reads_fail {A} e : reads (fail e : Op A).
Proof. by intros b w. Qed.
Lemma reads_gets {A} (f : CloudClient * B → A) : reads (gets f).
Proof. by intros b w. Qed.
Lemma reads_bind {A C} (m : Op A) (f : A → Op C) : reads m → (∀ a, reads (f a)) → reads (andThen m f).
Proof. intros Hm Hf b. eapply triple_bind; [apply Hm|intros a; apply Hf]. Qed.
Lemma reads_request {A} (c : Api B A) : apiQuiet c → reads (request c).
Proof. intros Hc b [o b1] [Ho Hs]. split; [done|]. etrans; [exact Hs|apply Hc]. Qed.
Lemma reads_pause d : reads (pollPause (B := B) d).
Proof.
  intros b [o b1] [Ho Hs]. rewrite /pollPause. pose proof (quiet_pause d b1) as Hq.
  destruct (Pause d b1) as [b2 [e|[]]]; (split; [done|]); by etrans.
Qed.
Lemma reads_modify (f : CloudClient * B → CloudClient * B) :
  (∀ w, cc_scoped (f w).1 = cc_scoped w.1 ∧ (f w).2 = w.2) → reads (modify f).
Proof. intros Hf b w [Ho Hs]. rewrite /modify /since. destruct (Hf w) as [E ->]. split; [|done]. by rewrite /coherent E. Qed.
Hint Resolve reads_ret reads_fail reads_gets reads_bind reads_request reads_pause : core.
Ltac reading := repeat first
  [ progress intros | apply reads_bind | apply reads_ret | apply reads_fail | apply reads_gets | apply reads_pause
  | (apply reads_request; solve [eauto]) | progress case_match | progress case_decide | solve [eauto] ].
Lemma reads_call {A} what (c : Api B A) : apiQuiet c → reads (send what c).
Proof. intros Hc. rewrite /send. reading. Qed.
Lemma reads_listing {A} what (c : Api B (Pages A)) : apiQuiet c → reads (listing what c).
Proof. intros Hc. rewrite /listing. apply reads_bind; [by apply reads_call|]. reading. Qed.
Lemma reads_tolerant what (c : Api B ()) : apiQuiet c → reads (tolerating what c).
Proof. intros Hc. rewrite /tolerating. reading. Qed.
Lemma reads_first what name all : reads (firstID what name all : Op string).
Proof. rewrite /firstID. reading. Qed.

Lemma triple_post_err {A} (m : Op A) P Q X X' : triple P m Q X → (∀ e w, X e w → X' e w) → triple P m Q X'.
Proof. intros Hm HX w Hw. specialize (Hm w Hw). destruct (m w) as [w' [e|a]]; [by apply HX|done]. Qed.
(** ** The clients of a project *)

Definition yields p (m : Op ServiceClient) : Prop := ∀ b,
  triple (since b) m (λ c w, since b w ∧ scopeOf c = ScopeID p) (λ _, since b).
Lemma authenticated c scope b : same b (authenticate c scope b).1 ∧
  match (authenticate c scope b).2 with inr pv => Pv_Scope pv = scope | inl _ => True end.
Proof.
  rewrite /authenticate. pose proof (law_Authenticated (mkAuthOptions (AuthURL c) (Username c) (Password c) (UserDomain c) scope true) b) as [Hs Hp].
  by destruct (AuthenticatedClient _ b) as [b' [e|pv]].
Qed.
Lemma newService_scope s pv eo c : newService (B := B) s pv eo = inr c → scopeOf c = Pv_Scope pv.
Proof. rewrite /newService. destruct (Endpoint s pv eo); [done|]. by intros [= <-]. Qed.
Lemma mintScoped_scope o p pv sc : Pv_Scope pv = ScopeID p → mintScoped (B := B) o p pv = inr sc → scopedTo p sc.
Proof.
  intros Hpv. rewrite /mintScoped. destruct (newService SvNetwork _ _) as [|net] eqn:En; [done|].
  destruct (newService SvCompute _ _) as [|comp] eqn:Ec; [done|]. intros [= <-]. apply newService_scope in En, Ec.
  split_and!; [exact (eq_trans En Hpv)|exact (eq_trans Ec Hpv)|]. cbn [Sc_loadbalancer].
  destruct (newService SvLoadbalancer _ _) as [|lb] eqn:El; [done|]. apply newService_scope in El. exact (eq_trans El Hpv).
Qed.
Lemma scopedFor_rule p b : triple (since b) (scopedFor p) (λ sc w, since b w ∧ scopedTo p sc) (λ _, since b).
Proof.
  intros [o b1] [Ho Hs]. rewrite /scopedFor. destruct (cc_scoped o !! p) as [sc|] eqn:Ep; [by split; [|apply (Ho p sc)]|].
  destruct (authenticated (cc_creds o) (ScopeID p) b1) as [Ha Hp]. rewrite /AuthenticateProject.
  destruct (authenticate (cc_creds o) (ScopeID p) b1) as [b2 [e|pv]]; simpl in Ha, Hp; [by split; [|etrans]|].
  destruct (mintScoped o p pv) as [e|sc] eqn:Em; [by split; [|etrans]|]. apply mintScoped_scope in Em; [|done].
  split; [|done]. split; [|by etrans]. by apply map_Forall_insert_2.
Qed.
Lemma scoped_yields p (f : scopedClients → ServiceClient) : (∀ sc, scopedTo p sc → scopeOf (f sc) = ScopeID p) →
  yields p (sc <- scopedFor p ;; ret (f sc)).
Proof. intros Hf b. eapply triple_bind; [apply scopedFor_rule|]. intros sc w [Hw Hsc]. split; [done|by apply Hf]. Qed.
Lemma networkFor_yields p : yields p (networkFor p).
Proof. apply (scoped_yields p Sc_network). by intros sc []. Qed.
Lemma computeFor_yields p : yields p (computeFor p).
Proof. apply (scoped_yields p Sc_compute). by intros sc (_ & ? & _). Qed.
Lemma reads_adminOctavia : reads (adminOctavia : Op ServiceClient).
Proof. rewrite /adminOctavia. reading. Qed.
Lemma lbClient_yields p : yields p (lbClient p).
Proof.
  intros b. eapply triple_bind; [apply reads_adminOctavia|]. intros c. eapply triple_bind; [apply scopedFor_rule|].
  intros sc w [Hw (_ & _ & Hlb)]. by destruct (Sc_loadbalancer sc).
Qed.
Lemma reads_yields {A} p m (f : ServiceClient → Op A) : yields p m → (∀ c, reads (f c)) → reads (andThen m f).
Proof.
  intros Hm Hf b. eapply triple_bind; [apply Hm|]. intros c. eapply triple_pre; [apply Hf|]. by intros w [].
Qed.

(** ** What each shape of method does *)

Lemma does_reads {A} (m : Op A) : reads m → does (λ b b' _, same b b') m.
Proof.
  intros Hm b w Hw. specialize (Hm b w Hw). destruct (m w) as [w' [e|a]]; exact Hm.
Qed.
(** A request through a project's client: when the client cannot be had, nothing has happened. *)
Lemma does_with {A} (R : B → B → string + A → Prop) p m (f : ServiceClient → Op A) : yields p m →
  (∀ b b' e, same b b' → R b b' (inl e)) →
  (∀ c b, scopeOf c = ScopeID p →
    triple (since b) (f c) (λ a w, coherent w.1 ∧ R b w.2 (inr a)) (λ e w, coherent w.1 ∧ R b w.2 (inl e))) →
  does R (andThen m f).
Proof.
  intros Hm HR Hf b. eapply triple_bind.
  - eapply triple_post_err; [apply Hm|]. intros e w [Ho Hs]. by split; [|apply HR].
  - intros c w [Hw Hc]. by apply Hf.
Qed.
Definition makes {A} (id_of : A → string) (k : kind) (i : Info) (b b' : B) (r : string + A) : Prop :=
  keepsRecords b b' ∧ creates id_of k i b b' r.
Lemma creates_since {A} (id_of : A → string) k i b b1 b2 r :
  same b b1 → creates id_of k i b1 b2 r → creates id_of k i b b2 r.
Proof.
  intros [Hl [_ Hu]]. rewrite /creates Hl.
  destruct r as [e|a]; [intros [?|(x & ? & ? & Hx & ?)]; [by left|]|intros (? & ? & Hx & ?)].
  - right. exists x. split_and!; [done..| |done]. by intros ?%Hu.
  - split_and!; [done..| |done]. by intros ?%Hu.
Qed.
Lemma does_create {A} (id_of : A → string) k i p m what (f : ServiceClient → Api B A) : yields p m →
  (∀ c, scopeOf c = ScopeID p → apiCreates id_of k i (f c)) → does (makes id_of k i) (c <- m ;; send what (f c)).
Proof.
  intros Hm Hf. eapply does_with; [exact Hm|intros b b' e [Hl Hr]; by split; [|left]|]. intros c b Hc [o b1] [Ho Hs]. destruct (Hf c Hc b1) as [Hk Hcr]. apply (creates_since _ _ _ _ _ _ _ Hs) in Hcr.
  rewrite /send /andThen /request /=. simpl in *. destruct (f c b1) as [b2 [e|a]]; simpl in *; (split; [done|]); split;
    try (by etrans; [apply Hs|]); done.
Qed.
Definition unmakes (k : key) (b b' : B) (r : string + ()) : Prop := keepsRecords b b' ∧ deletes k (live b) (live b') r.
Lemma does_delete k p m what (f : ServiceClient → Api B ()) : yields p m → (∀ c, apiDeletes k (f c)) →
  does (unmakes k) (c <- m ;; tolerating what (f c)).
Proof.
  intros Hm Hf. eapply does_with; [exact Hm|intros b b' e [Hl Hr]; by split; [|left]|]. intros c b Hc [o b1] [Ho [Hl Hr]]. destruct (Hf c b1) as [Hk Hd]. rewrite /tolerating /andThen /request /=.
  destruct (f c b1) as [b2 [e|[]]]; simpl in *; [|split; [done|]; split; [by etrans|]; simpl in *; congruence].
  destruct (ResponseCodeIs e StatusNotFound); (split; [done|]; split; [by etrans|]); simpl in *; rewrite -Hl; [|done].
  destruct Hd as [Hn ->]. by rewrite delete_id.
Qed.
Definition mayUnmake (k : key) (b b' : B) (r : string + ()) : Prop :=
  keepsRecords b b' ∧ (live b' = live b ∨ live b' = delete k (live b)).
Lemma does_accept k p m what (f : ServiceClient → Api B ()) : yields p m → (∀ c, apiAccepts k (f c)) →
  does (mayUnmake k) (c <- m ;; tolerating what (f c)).
Proof.
  intros Hm Hf. eapply does_with; [exact Hm|intros b b' e [Hl Hr]; by split; [|left]|]. intros c b Hc [o b1] [Ho [Hl Hr]]. destruct (Hf c b1) as (Hk & Hd & _). rewrite /tolerating /andThen /request /=.
  rewrite Hl in Hd. destruct (f c b1) as [b2 [e|[]]]; simpl in *; [destruct (ResponseCodeIs e StatusNotFound)|];
    (split; [done|]; split; [by etrans|done]).
Qed.
Definition mayDetach (subnet port : string) (b b' : B) (r : string + ()) : Prop :=
  keepsRecords b b' ∧ detaches subnet port (live b) (live b').
Lemma does_detach subnet port p m what (f : ServiceClient → Api B ()) : yields p m → (∀ c, apiDetaches subnet port (f c)) →
  does (mayDetach subnet port) (c <- m ;; tolerating what (f c)).
Proof.
  intros Hm Hf. eapply does_with; [exact Hm|intros b b' e [Hl Hr]; by split; [|left]|]. intros c b Hc [o b1] [Ho [Hl Hr]]. destruct (Hf c b1) as (Hk & Hd). rewrite /tolerating /andThen /request /=.
  rewrite Hl in Hd. destruct (f c b1) as [b2 [e|[]]]; simpl in *; [destruct (ResponseCodeIs e StatusNotFound)|];
    (split; [done|]; split; [by etrans|done]).
Qed.
Definition lists {A} (P : Live → list A → Prop) (b b' : B) (r : string + list A) : Prop :=
  same b b' ∧ ∀ l, r = inr l → P (live b) l.
Lemma does_list {A} (P : Live → list A → Prop) what (c : Api B (Pages A)) b : apiQuiet c →
  (∀ b l, (c b).2 = inr (inr l) → P (live b) l) →
  triple (since b) (listing what c) (λ l w, coherent w.1 ∧ lists P b w.2 (inr l)) (λ e w, coherent w.1 ∧ lists P b w.2 (inl e)).
Proof.
  intros Hc HP [o b1] [Ho Hs]. specialize (Hc b1). specialize (HP b1). rewrite /listing /send /andThen /request /=.
  simpl in *. rewrite (sm_live _ _ Hs) in HP.
  destruct (c b1) as [b2 [e|[e|l]]]; simpl in *; (split; [done|]; split; [by etrans|]); try done. intros ? [= <-]. by apply HP.
Qed.

(** ** The waits *)

Lemma reads_awaitActive c id n : reads (awaitActive c id n : Op ()).
Proof.
  induction n as [|n IH]; cbn [awaitActive]; (apply reads_bind; [apply reads_call; intros b; apply law_servers_Get|]); reading.
Qed.
Lemma reads_awaitLBActive c id n : reads (awaitLBActive c id n : Op ()).
Proof.
  induction n as [|n IH]; cbn [awaitLBActive]; (apply reads_bind; [apply reads_call; intros b; apply law_loadbalancers_Get|]); reading.
Qed.
Lemma tells_rule {A} k (c : Api B A) b X : apiTells k c →
  triple (since b) (request c) (λ r w, since b w ∧ (notThere r = true → live b !! k = None)) X.
Proof.
  intros Hc [o b1] [Ho Hs]. destruct (Hc b1) as [Hq Hn]. rewrite (sm_live _ _ Hs) in Hn. rewrite /request.
  destruct (c b1) as [b2 r]. simpl in *. split; [|done]. split; [done|by etrans].
Qed.
(** A loop that polls until the answer is 404. *)
Lemma until_missing {A} k (c : Api B A) (what : string) b (next : apiErr + A → Op ()) : apiTells k c →
  (∀ a, triple (since b) (next (inr a)) (λ _ w, since b w ∧ live b !! k = None) (λ _, since b)) →
  (∀ e, next (inl e) = if ResponseCodeIs e StatusNotFound then ret () else fail (wrap what e)) →
  triple (since b) (r <- request c ;; next r) (λ _ w, since b w ∧ live b !! k = None) (λ _, since b).
Proof.
  intros Hc Ha He. eapply triple_bind; [by apply tells_rule|]. intros [e|a] w [Hw Hn]; [|by apply Ha].
  rewrite He. simpl in Hn. by destruct (ResponseCodeIs e StatusNotFound); [split; [|apply Hn]|].
Qed.
Lemma awaitServerGone_rule c id n b :
  triple (since b) (awaitServerGone c id n) (λ _ w, since b w ∧ live b !! (KServer, id) = None) (λ _, since b).
Proof.
  induction n as [|n IH]; cbn [awaitServerGone]; (eapply until_missing; [apply law_servers_Get| |done]); intros v; [by intros w|].
  eapply triple_bind; [apply reads_pause|intros x; exact IH].
Qed.
Lemma awaitLBGone_rule c id n b :
  triple (since b) (awaitLBGone c id n) (λ _ w, since b w ∧ live b !! (KLoadBalancer, id) = None) (λ _, since b).
Proof.
  induction n as [|n IH]; cbn [awaitLBGone]; (eapply until_missing; [apply law_loadbalancers_Get| |done]); intros v; [by intros w|].
  eapply triple_bind; [apply reads_pause|intros x; exact IH].
Qed.
Lemma does_WaitServerGone p id : does (unmakes (KServer, id)) (os_WaitServerGone fits p id).
Proof.
  rewrite /os_WaitServerGone. eapply does_with; [apply computeFor_yields|intros b b' e [Hl Hr]; by split; [|left]|].
  intros c b _ w Hw. pose proof (awaitServerGone_rule c id (fits serverPollInterval) b w Hw) as H.
  destruct (awaitServerGone _ _ _ w) as [w' [e|[]]]; [destruct H as [Ho [Hl Hr]]; by split; [|split; [|left]]|].
  destruct H as [[Ho [Hl Hr]] Hn]. split; [done|]. split; [done|]. simpl. by rewrite delete_id.
Qed.
Lemma does_DeleteLoadBalancer p id : does (unmakes (KLoadBalancer, id)) (os_DeleteLoadBalancer fits p id).
Proof.
  rewrite /os_DeleteLoadBalancer. eapply does_with; [apply lbClient_yields|intros b b' e [Hl Hr]; by split; [|left]|].
  intros c b _ [o b1] [Ho [Hl Hr]]. rewrite /andThen /request. cbn [fst snd].
  destruct (law_loadbalancers_Delete c id b1) as (Hk & Hd & Hn). rewrite Hl in Hd, Hn.
  destruct (loadbalancers_Delete c id true b1) as [b2 [e|[]]]; simpl in Hk, Hd, Hn.
  - simpl. destruct (ResponseCodeIs e StatusNotFound); (split; [done|]; split; [by etrans|]); [|done].
    destruct (Hn eq_refl) as [Hno E]. simpl. by rewrite delete_id.
  - cbn [fst snd]. assert (since b2 (o, b2)) as Hw by done. pose proof (awaitLBGone_rule c id (fits lbPollInterval) b2 _ Hw) as H.
    destruct (awaitLBGone _ _ _ _) as [w' [e|[]]].
    + destruct H as [Ho' [Hl' Hr']]. split; [done|]. split; [by do 2 etrans|]. simpl. by rewrite Hl'.
    + destruct H as [[Ho' [Hl' Hr']] Hno]. split; [done|]. split; [by do 2 etrans|]. simpl. rewrite Hl'.
      destruct Hd as [E|E]; [|done]. rewrite E in Hno |- *. by rewrite delete_id.
Qed.

(** ** The methods *)

Hint Resolve quiet_images_List quiet_flavors_List quiet_keypairs_Get quiet_hypervisors_List quiet_groups_List quiet_projects_List
  quiet_projects_Create quiet_roles_List quiet_roles_Assign quiet_networks_List quiet_ports_Get quiet_ports_List
  quiet_routers_AddInterface quiet_routers_Update quiet_servers_List quiet_servers_LiveMigrate quiet_attach quiet_detach
  quiet_lbflavors_List quiet_listeners_Create quiet_pools_Create quiet_pools_CreateMember quiet_amphorae_List : core.
Hint Resolve networkFor_yields computeFor_yields lbClient_yields : core.
Lemma tells_quiet {A} k (c : Api B A) : apiTells k c → apiQuiet c.
Proof. intros Hc b. apply Hc. Qed.
Ltac method := repeat first
  [ progress intros | (eapply reads_yields; [solve [eauto]|]) | apply reads_adminOctavia | apply reads_first | apply reads_ret
  | apply reads_fail | apply reads_gets
  | (apply reads_call; solve [eauto using tells_quiet, law_servers_Get, law_loadbalancers_Get])
  | (apply reads_listing; solve [eauto]) | (apply reads_tolerant; solve [eauto])
  | apply reads_awaitActive | apply reads_awaitLBActive | (apply reads_modify; done)
  | apply reads_bind | progress case_match | progress case_decide ].
Lemma reads_FindImage n : reads (os_FindImage n : Op string). Proof. rewrite /os_FindImage. method. Qed.
Lemma reads_FindFlavor n : reads (os_FindFlavor n : Op string). Proof. rewrite /os_FindFlavor. method. Qed.
Lemma reads_FindLBFlavor n : reads (os_FindLBFlavor n : Op string). Proof. rewrite /os_FindLBFlavor. method. Qed.
Lemma reads_CheckKeypair n : reads (os_CheckKeypair n : Op ()). Proof. rewrite /os_CheckKeypair. method. Qed.
Lemma reads_FindSecGroup n : reads (os_FindSecGroup n : Op string). Proof. rewrite /os_FindSecGroup. method. Qed.
Lemma reads_FindExternalNetwork n : reads (os_FindExternalNetwork n : Op string). Proof. rewrite /os_FindExternalNetwork. method. Qed.
Lemma reads_Hypervisors : reads (os_Hypervisors : Op (list string)). Proof. rewrite /os_Hypervisors. method. Qed.
Lemma reads_FindProject n : reads (os_FindProject n : Op (option string)). Proof. rewrite /os_FindProject. method. Qed.
Lemma reads_CreateProject n : reads (os_CreateProject n : Op string). Proof. rewrite /os_CreateProject. method. Qed.
Lemma reads_GrantAdminRole p : reads (os_GrantAdminRole p : Op ()). Proof. rewrite /os_GrantAdminRole /adminRole. method. Qed.
Lemma reads_PortMAC p : reads (os_PortMAC p : Op string). Proof. rewrite /os_PortMAC. method. Qed.
Lemma reads_AddRouterInterface p r s q : reads (os_AddRouterInterface p r s q : Op ()).
Proof. rewrite /os_AddRouterInterface. method. Qed.
Lemma reads_SetRouterRoutes p r l : reads (os_SetRouterRoutes p r l : Op ()). Proof. rewrite /os_SetRouterRoutes. method. Qed.
Lemma reads_SetRouterGateway p r n : reads (os_SetRouterGateway p r n : Op ()). Proof. rewrite /os_SetRouterGateway. method. Qed.
Lemma reads_ClearRouterRoutes p r : reads (os_ClearRouterRoutes p r : Op ()). Proof. rewrite /os_ClearRouterRoutes. method. Qed.
Lemma reads_WaitServerActive p s : reads (os_WaitServerActive fits p s : Op ()). Proof. rewrite /os_WaitServerActive. method. Qed.
Lemma reads_WaitLBActive p l : reads (os_WaitLBActive fits p l : Op ()). Proof. rewrite /os_WaitLBActive. method. Qed.
Hint Resolve reads_WaitLBActive : core.
Lemma reads_CreateListener p s : reads (os_CreateListener fits p s : Op string).
Proof. rewrite /os_CreateListener /os_WaitLBActive. method. Qed.
Lemma reads_CreatePool p s : reads (os_CreatePool fits p s : Op string). Proof. rewrite /os_CreatePool /os_WaitLBActive. method. Qed.
Lemma reads_CreateMember p s : reads (os_CreateMember p s : Op string). Proof. rewrite /os_CreateMember. method. Qed.
Lemma reads_ListAmphorae l : reads (os_ListAmphorae l : Op (list AmphoraRef)). Proof. rewrite /os_ListAmphorae. method. Qed.
Lemma reads_ServerHost p s : reads (os_ServerHost p s : Op string). Proof. rewrite /os_ServerHost. method. Qed.
Lemma reads_LiveMigrateServer p s h : reads (os_LiveMigrateServer p s h : Op ()). Proof. rewrite /os_LiveMigrateServer. method. Qed.
Lemma reads_AttachInterface p s q : reads (os_AttachInterface p s q : Op ()). Proof. rewrite /os_AttachInterface. method. Qed.
Lemma reads_DetachInterface p s q : reads (os_DetachInterface p s q : Op ()). Proof. rewrite /os_DetachInterface. method. Qed.

Lemma does_CreateNetwork p s : does (makes id KNetwork (mkInfo (NS_Name s) p "" "")) (os_CreateNetwork p s).
Proof. eapply does_create; [by apply networkFor_yields|]. intros c. apply (law_networks_Create c (networkOpts s)). Qed.
Lemma does_CreateSubnet p s : does (makes id KSubnet (mkInfo (SS_Name s) p (SS_NetworkID s) "")) (os_CreateSubnet p s).
Proof. eapply does_create; [by apply networkFor_yields|]. intros c. apply (law_subnets_Create c (subnetOpts s)). Qed.
Lemma does_CreateRouter p s : does (makes id KRouter (mkInfo (RtS_Name s) p "" "")) (os_CreateRouter p s).
Proof.
  eapply does_create; [by apply networkFor_yields|]. intros c.
  apply (law_routers_Create c (mkRouterOpts (RtS_Name s) (Some true) (given (RtS_ExternalNetworkID s)))).
Qed.
Lemma does_CreatePort p s : does (makes id KPort (mkInfo (PS_Name s) p (PS_NetworkID s) (PS_SubnetID s))) (os_CreatePort p s).
Proof. eapply does_create; [by apply networkFor_yields|]. intros c Hc. by eapply (law_ports_Create c (portOpts s)). Qed.
Lemma does_CreateServer p s : does (makes id KServer (mkInfo (SvS_Name s) p "" "")) (os_CreateServer p s).
Proof. eapply does_create; [by apply computeFor_yields|]. intros c. apply (law_servers_Create c (serverOpts s)). Qed.
Lemma does_CreateFIP p s : does (makes fst KFIP (mkInfo "" p "" "")) (os_CreateFIP p s).
Proof. eapply does_create; [by apply networkFor_yields|]. intros c. apply law_floatingips_Create. Qed.
Lemma does_CreateLoadBalancer p s : does (makes (λ x, x.1.1) KLoadBalancer (mkInfo (LS_Name s) p "" "")) (os_CreateLoadBalancer p s).
Proof.
  eapply does_create; [by apply lbClient_yields|]. intros c.
  apply (law_loadbalancers_Create c (mkLBOpts (LS_Name s) (LS_VIPSubnetID s) (Some true) (LS_FlavorID s))).
Qed.
Lemma does_DeletePort p r : does (unmakes (KPort, r)) (os_DeletePort p r).
Proof. eapply does_delete; [apply networkFor_yields|]. intros c. apply law_ports_Delete. Qed.
Lemma does_DeleteSubnet p r : does (unmakes (KSubnet, r)) (os_DeleteSubnet p r).
Proof. eapply does_delete; [apply networkFor_yields|]. intros c. apply law_subnets_Delete. Qed.
Lemma does_DeleteNetwork p r : does (unmakes (KNetwork, r)) (os_DeleteNetwork p r).
Proof. eapply does_delete; [apply networkFor_yields|]. intros c. apply law_networks_Delete. Qed.
Lemma does_DeleteRouter p r : does (unmakes (KRouter, r)) (os_DeleteRouter p r).
Proof. eapply does_delete; [apply networkFor_yields|]. intros c. apply law_routers_Delete. Qed.
Lemma does_DeleteFIP p r : does (unmakes (KFIP, r)) (os_DeleteFIP p r).
Proof. eapply does_delete; [apply networkFor_yields|]. intros c. apply law_floatingips_Delete. Qed.
Lemma does_DeleteServer p r : does (mayUnmake (KServer, r)) (os_DeleteServer p r).
Proof. eapply does_accept; [apply computeFor_yields|]. intros c. apply law_servers_Delete. Qed.
Lemma does_RemoveRouterInterface p r s q : does (mayDetach s q) (os_RemoveRouterInterface p r s q).
Proof. eapply does_detach; [apply networkFor_yields|]. intros c. apply (law_routers_RemoveInterface c r (mkInterfaceOpts s q)). Qed.
Definition portsOf (n : string) (l : Live) (ports : list string) : Prop :=
  ∀ p i, l !! (KPort, p) = Some i → p ∈ ports ↔ I_Network i = n.
Lemma does_ListNetworkPorts n : does (lists (portsOf n)) (os_ListNetworkPorts n).
Proof.
  intros b w Hw. refine (does_list (portsOf n) "ports" (ports_List (cc_network w.1) n) b _ _ w Hw); [apply quiet_ports_List|].
  intros b' l Hl. exact (law_ports_List _ n b' l Hl).
Qed.
Definition serversOf p (l : Live) (srv : list ServerRef) : Prop := ∀ s i, l !! (KServer, s) = Some i →
  (I_Project i = p → mkServerRef s (I_Name i) ∈ srv) ∧ (∀ r, r ∈ srv → SR_ID r = s → SR_Name r = I_Name i ∧ I_Project i = p).
Lemma does_ListProjectServers p : does (lists (serversOf p)) (os_ListProjectServers p).
Proof.
  eapply does_with; [apply computeFor_yields|by intros b b' e Hs; split|]. intros c b Hc. apply does_list; [apply quiet_servers_List|].
  intros b' l Hl. exact (law_servers_List c p b' l Hc Hl).
Qed.

(** ** Sessions *)

(** A client and the cloud it talks to, the client in a state it can be in. *)
Record Session := mkSession { ss_client : CloudClient; ss_cloud : B; ss_coherent : coherent ss_client }.
Lemma does_coherent {A R} (m : Op A) : does R m → ∀ o b, coherent o → coherent (m (o, b)).1.1.
Proof.
  intros Hm o b Ho. assert (since b (o, b)) as Hw by done. specialize (Hm b _ Hw). destruct (m (o, b)) as [w [e|a]]; apply Hm.
Qed.
Lemma does_R {A R} (m : Op A) : does R m → ∀ o b, coherent o → R b (m (o, b)).1.2 (m (o, b)).2.
Proof.
  intros Hm o b Ho. assert (since b (o, b)) as Hw by done. specialize (Hm b _ Hw). destruct (m (o, b)) as [w [e|a]]; apply Hm.
Qed.
(** A method, on a session. *)
Definition on {A R} (m : Op A) (H : does R m) : Call Session A := λ s,
  let r := m (ss_client s, ss_cloud s) in
  (mkSession r.1.1 r.1.2 (does_coherent m H _ _ (ss_coherent s)), r.2).
#[export] Instance session_world : World Session := {|
  live s := live (ss_cloud s); used s := used (ss_cloud s); file s := file (ss_cloud s) |}.
Lemma on_quiet {A R} (m : Op A) (H : does R m) : (∀ b b' r, R b b' r → same b b') → quiet (on m H).
Proof.
  intros HR. split; intros s; pose proof (does_R m H _ (ss_cloud s) (ss_coherent s)) as [Hl [Hf Hu]]%HR;
    [split; [exact Hf|exact Hu]|exact Hl].
Qed.
Lemma on_keeps {A R} (m : Op A) (H : does R m) : (∀ b b' r, R b b' r → keepsRecords b b') → keepsFiles (on m H).
Proof.
  intros HR s. pose proof (does_R m H _ (ss_cloud s) (ss_coherent s)) as [Hf Hu]%HR. split; [exact Hf|exact Hu].
Qed.
#[export] Instance gopherCloud : Cloud Session := {|
  FindImage n := on _ (does_reads _ (reads_FindImage n)); FindFlavor n := on _ (does_reads _ (reads_FindFlavor n));
  FindLBFlavor n := on _ (does_reads _ (reads_FindLBFlavor n)); CheckKeypair n := on _ (does_reads _ (reads_CheckKeypair n));
  FindSecGroup n := on _ (does_reads _ (reads_FindSecGroup n));
  FindExternalNetwork n := on _ (does_reads _ (reads_FindExternalNetwork n)); Hypervisors := on _ (does_reads _ reads_Hypervisors);
  FindProject n := on _ (does_reads _ (reads_FindProject n)); CreateProject n := on _ (does_reads _ (reads_CreateProject n));
  GrantAdminRole p := on _ (does_reads _ (reads_GrantAdminRole p));
  CreateNetwork p s := on _ (does_CreateNetwork p s); CreateSubnet p s := on _ (does_CreateSubnet p s);
  CreateRouter p s := on _ (does_CreateRouter p s); CreatePort p s := on _ (does_CreatePort p s);
  PortMAC p := on _ (does_reads _ (reads_PortMAC p));
  AddRouterInterface p r s q := on _ (does_reads _ (reads_AddRouterInterface p r s q));
  SetRouterRoutes p r l := on _ (does_reads _ (reads_SetRouterRoutes p r l));
  SetRouterGateway p r n := on _ (does_reads _ (reads_SetRouterGateway p r n));
  CreateServer p s := on _ (does_CreateServer p s); WaitServerActive p s := on _ (does_reads _ (reads_WaitServerActive p s));
  CreateFIP p s := on _ (does_CreateFIP p s); CreateLoadBalancer p s := on _ (does_CreateLoadBalancer p s);
  CreateListener p s := on _ (does_reads _ (reads_CreateListener p s)); CreatePool p s := on _ (does_reads _ (reads_CreatePool p s));
  CreateMember p s := on _ (does_reads _ (reads_CreateMember p s)); WaitLBActive p l := on _ (does_reads _ (reads_WaitLBActive p l));
  ListAmphorae l := on _ (does_reads _ (reads_ListAmphorae l)); ServerHost p s := on _ (does_reads _ (reads_ServerHost p s));
  LiveMigrateServer p s h := on _ (does_reads _ (reads_LiveMigrateServer p s h));
  AttachInterface p s q := on _ (does_reads _ (reads_AttachInterface p s q));
  DetachInterface p s q := on _ (does_reads _ (reads_DetachInterface p s q));
  DeleteLoadBalancer p r := on _ (does_DeleteLoadBalancer p r); DeleteFIP p r := on _ (does_DeleteFIP p r);
  DeleteServer p r := on _ (does_DeleteServer p r); WaitServerGone p r := on _ (does_WaitServerGone p r);
  DeletePort p r := on _ (does_DeletePort p r); ClearRouterRoutes p r := on _ (does_reads _ (reads_ClearRouterRoutes p r));
  RemoveRouterInterface p r s q := on _ (does_RemoveRouterInterface p r s q); DeleteRouter p r := on _ (does_DeleteRouter p r);
  ListNetworkPorts n := on _ (does_ListNetworkPorts n); ListProjectServers p := on _ (does_ListProjectServers p);
  DeleteSubnet p r := on _ (does_DeleteSubnet p r); DeleteNetwork p r := on _ (does_DeleteNetwork p r) |}.

Lemma new_coherent home readFile oc b b' o : newCloudClient home readFile oc b = (b', inr o) → coherent o.
Proof.
  rewrite /newCloudClient. destruct (ResolveCredentials _ _ _) as [|creds]; [done|]. destruct (EndpointOpts _ _) as [eo|]; [|done].
  destruct (Authenticate creds b) as [b1 [|pv]]; [done|]. cbv zeta. destruct (AuthUser _) as [[|user]|]; [done| |done].
  repeat (case_match; try done). intros [= _ <-]. apply map_Forall_empty.
Qed.
Lemma on_does {A R} (m : Op A) (H : does R m) s : R (ss_cloud s) (ss_cloud (on m H s).1) (on m H s).2.
Proof. exact (does_R m H _ (ss_cloud s) (ss_coherent s)). Qed.
Ltac law := first
  [ exact (proj2 (on_does _ (does_CreateNetwork _ _) _)) | exact (proj2 (on_does _ (does_CreateSubnet _ _) _))
  | exact (proj2 (on_does _ (does_CreateRouter _ _) _)) | exact (proj2 (on_does _ (does_CreatePort _ _) _))
  | exact (proj2 (on_does _ (does_CreateServer _ _) _)) | exact (proj2 (on_does _ (does_CreateFIP _ _) _))
  | exact (proj2 (on_does _ (does_CreateLoadBalancer _ _) _)) | exact (proj2 (on_does _ (does_DeleteLoadBalancer _ _) _))
  | exact (proj2 (on_does _ (does_DeleteFIP _ _) _)) | exact (proj2 (on_does _ (does_DeleteServer _ _) _))
  | exact (proj2 (on_does _ (does_WaitServerGone _ _) _)) | exact (proj2 (on_does _ (does_DeletePort _ _) _))
  | exact (proj2 (on_does _ (does_RemoveRouterInterface _ _ _ _) _)) | exact (proj2 (on_does _ (does_DeleteRouter _ _) _))
  | exact (proj2 (on_does _ (does_DeleteSubnet _ _) _)) | exact (proj2 (on_does _ (does_DeleteNetwork _ _) _)) ].

(** C23: The OpenStack client keeps the contract that the rest of the harness is proved against. The client that
    [New] returns is in a state where every cached token is scoped to its project, its methods keep it in one,
    and over these states they satisfy the laws of [Cloud]: a create makes one fresh resource in the
    project asked for, a delete that succeeds leaves none even when the target was gone already, a wait
    for a deletion ends only when the resource is gone, the listings are complete, and nothing else changes
    anything, whichever calls fail. *)
Theorem client_keeps_contract :
  (∀ home readFile oc b b' o, newCloudClient home readFile oc b = (b', inr o) → ∃ s : Session, ss_client s = o ∧ ss_cloud s = b') ∧
  CloudLaws Session.
Proof.
  split.
  { intros home readFile oc b b' o Ho%new_coherent. by exists (mkSession o b' Ho). }
  split; intros; try (apply on_quiet; by intros ? ? ?); try (apply on_quiet; by intros ? ? ? [? ?]);
    try (apply on_keeps; by intros ? ? ? [? ?]); try law.
  - by apply (proj2 (on_does _ (does_ListNetworkPorts n) w) ports).
  - by apply (proj2 (on_does _ (does_ListProjectServers p) w) l).
Qed.
End contract.

(** An API in memory, for a cloud that answers at once. *)
Module CloudContractExamples.
Record Mem := mkMem { mem_live : Live; mem_used : gset string; mem_files : gmap string RunState }.
#[export] Instance mem_world : World Mem := {|
  live := mem_live; used m id := id ∈ mem_used m; file m path := mem_files m !! path |}.
#[export] Instance mem_clock : Clock Mem := {| Pause _ := λ m, (m, inr ()) |}.
Definition newID (m : Mem) : string := fresh ({[""]} ∪ mem_used m ∪ set_map snd (dom (mem_live m))).
Definition create {A} (answer : string → A) (c : ServiceClient) (k : kind) (i : string → Info) : Api Mem A := λ m,
  match scopeOf c with
  | ScopeName _ _ => (m, inl (mkApiErr (Some 403) "not in a project"))
  | ScopeID p =>
      let id := newID m in (mkMem (<[(k, id) := i p]> (mem_live m)) ({[id]} ∪ mem_used m) (mem_files m), inr (answer id))
  end.
Definition absent : apiErr := mkApiErr (Some StatusNotFound) "not found".
Definition unmake (k : key) : Api Mem () := λ m,
  match mem_live m !! k with
  | None => (m, inl absent)
  | Some _ => (mkMem (delete k (mem_live m)) (mem_used m) (mem_files m), inr ())
  end.
Definition tell {A} (k : key) (a : A) : Api Mem A := λ m, (m, match mem_live m !! k with None => inl absent | Some _ => inr a end).
Definition say {A} (a : A) : Api Mem A := λ m, (m, inr a).
Definition one (n : string) : Pages named := inr [mkNamed n n true].
Definition portIDs (n : string) (m : Mem) : list string :=
  (λ ki, ki.1.2) <$> filter (λ ki, ki.1.1 = KPort ∧ I_Network ki.2 = n) (map_to_list (mem_live m)).
Definition serverRefs (p : string) (m : Mem) : list ServerRef :=
  (λ ki, mkServerRef ki.1.2 (I_Name ki.2)) <$> filter (λ ki, ki.1.1 = KServer ∧ I_Project ki.2 = p) (map_to_list (mem_live m)).
#[export] Instance mem_api : Gophercloud Mem := {|
  AuthenticatedClient o := λ m, (m, inr (mkProvider (AO_Scope o) "token" 0));
  AuthUser _ := Some (inr "admin-user"); Endpoint _ _ _ := None;
  images_List _ n := say (one n); flavors_List _ := say (inr []); keypairs_Get _ _ := say (); hypervisors_List _ := say (inr ["host"]);
  groups_List _ n := say (one n); projects_List _ n := say (one n); projects_Create _ o := say (PO_Name o);
  roles_List _ n := say (one n); roles_Assign _ _ _ _ := say (); networks_List _ n := say (one n);
  networks_Create c o := create id c KNetwork (λ p, mkInfo (NO_Name o) p "" ""); networks_Delete _ r := unmake (KNetwork, r);
  subnets_Create c o := create id c KSubnet (λ p, mkInfo (SO_Name o) p (SO_NetworkID o) "");
  subnets_Delete _ r := unmake (KSubnet, r);
  ports_Create c o := create id c KPort (λ p, mkInfo (PoO_Name o) p (PoO_NetworkID o) (default "" (fst <$> head (PoO_FixedIPs o))));
  ports_Get _ p := tell (KPort, p) "fa:16:3e:00:00:01"; ports_List _ n := λ m, (m, inr (inr (portIDs n m)));
  ports_Delete _ r := unmake (KPort, r);
  routers_Create c o := create id c KRouter (λ p, mkInfo (RO_Name o) p "" ""); routers_AddInterface _ _ _ := say ();
  routers_RemoveInterface _ _ _ := say (); routers_Update _ r _ := tell (KRouter, r) (); routers_Delete _ r := unmake (KRouter, r);
  floatingips_Create c o := create (λ id, (id, "203.0.113.1")) c KFIP (λ p, mkInfo "" p "" "");
  floatingips_Delete _ r := unmake (KFIP, r);
  servers_Create c o := create id c KServer (λ p, mkInfo (SvO_Name o) p "" "");
  servers_Get _ s := tell (KServer, s) (mkServerView "ACTIVE" "host");
  servers_List c := λ m, (m, match scopeOf c with ScopeID p => inr (inr (serverRefs p m)) | _ => inl absent end);
  servers_LiveMigrate _ _ _ := say (); servers_Delete _ r := unmake (KServer, r);
  attachinterfaces_Create _ _ _ := say (); attachinterfaces_Delete _ _ _ := say ();
  lbflavors_List _ := say (inr []);
  loadbalancers_Create c o := create (λ id, (id, "10.0.0.9", "vip-port")) c KLoadBalancer (λ p, mkInfo (LO_Name o) p "" "");
  loadbalancers_Get _ l := tell (KLoadBalancer, l) "ACTIVE"; loadbalancers_Delete _ r _ := unmake (KLoadBalancer, r);
  listeners_Create _ _ := say "listener"; pools_Create _ _ := say (mkPoolView "pool" []); pools_CreateMember _ _ _ := say "member";
  amphorae_List _ _ := say (inr []) |}.

Lemma create_creates {A} (answer : string → A) (id_of : A → string) c k i i' p : (∀ id, id_of (answer id) = id) →
  scopeOf c = ScopeID p → i p = i' → apiCreates id_of k i' (create answer c k i).
Proof.
  intros Hans Hc <- m. rewrite /create Hc. pose proof (is_fresh ({[""]} ∪ mem_used m ∪ set_map (D := gset string) snd (dom (mem_live m)))) as Hf.
  fold (newID m) in Hf. split; [split; [done|]; simpl; set_solver|]. simpl. rewrite Hans. split_and!; [set_solver| |set_solver|done].
  destruct (mem_live m !! (k, newID m)) eqn:E; [|done]. exfalso. apply Hf, elem_of_union_r, elem_of_map.
  exists (k, newID m). split; [done|]. by apply elem_of_dom_2 in E.
Qed.
Lemma unmake_deletes k : apiDeletes k (unmake k).
Proof. intros m. rewrite /unmake. by destruct (mem_live m !! k) eqn:E. Qed.
Lemma unmake_accepts k : apiAccepts k (unmake k).
Proof. intros m. rewrite /unmake. destruct (mem_live m !! k) eqn:E; (split; [done|]); simpl; split; auto; done. Qed.
Lemma tell_tells {A} k (a : A) : apiTells k (tell k a).
Proof. intros m. rewrite /tell. split; [done|]. simpl. by destruct (mem_live m !! k) eqn:E. Qed.
#[export] Instance mem_laws : GopherLaws Mem.
Proof.
  split; try done; try (intros; by eapply create_creates); try (intros; apply unmake_deletes); try (intros; apply unmake_accepts);
    try (intros; apply tell_tells); try (intros c r o; apply (tells_quiet _ _ (tell_tells _ _))).
  - intros c o p subnet ip Hc Hips. eapply create_creates; [done|exact Hc|]. by rewrite Hips.
  - intros c r o m. split; [done|by left].
  - intros c n m ports [= <-] p i Hi. rewrite /portIDs list_elem_of_fmap. split.
    + intros ([[k q] j] & Hq & [[Hk Hn] Hin%elem_of_map_to_list]%list_elem_of_filter). simpl in *. subst. by rewrite Hi in Hin; simplify_eq.
    + intros Hn. exists ((KPort, p), i). split; [done|]. apply list_elem_of_filter. by rewrite elem_of_map_to_list.
  - intros c p m l Hc. simpl. rewrite Hc. intros [= <-] s i Hi. rewrite /serverRefs. split.
    + intros Hp. apply list_elem_of_fmap. exists ((KServer, s), i). split; [done|]. apply list_elem_of_filter. by rewrite elem_of_map_to_list.
    + intros r ([[k q] j] & -> & [[Hk Hp] Hin%elem_of_map_to_list]%list_elem_of_filter)%list_elem_of_fmap Hs. simpl in *. subst.
      by rewrite Hi in Hin; simplify_eq.
Qed.

Definition admin : OpenStackCreds := mkOSCreds "" "http://keystone" "admin" "secret" "admin" "" "" "" "" 0.
Definition nothing : Mem := mkMem ∅ ∅ ∅.
Definition opened : Mem * (newErr + CloudClient) := newCloudClient None (λ _, None) admin nothing.
Definition net : NetworkSpec := mkNetworkSpec "st-net" false true.
(** A network made in a project, and deleted twice. *)
Example made_and_deleted : match opened with
  | (m, inr o) =>
      match os_CreateNetwork "p" net (o, m) with
      | ((o, m), inr id) =>
          mem_live m = {[(KNetwork, id) := mkInfo "st-net" "p" "" ""]} ∧
          match os_DeleteNetwork "p" id (o, m) with
          | ((o, m), inr _) => mem_live m = ∅ ∧ (os_DeleteNetwork "p" id (o, m)).2 = inr ()
          | _ => False
          end
      | _ => False
      end
  | _ => False
  end.
Proof. vm_compute. split_and!; reflexivity. Qed.
Lemma client_keeps_contract_witness :
  (∃ s : Session (B := Mem), ss_cloud s = nothing) ∧ @CloudLaws (Session (B := Mem)) (gopherCloud (λ _, 3%nat)) session_world.
Proof.
  destruct (client_keeps_contract (B := Mem) (λ _, 3%nat)) as [Hnew Hlaws]. split; [|exact Hlaws].
  assert (∃ o, opened = (nothing, inr o)) as [o Ho] by (eexists; vm_compute; reflexivity).
  destruct (Hnew None (λ _, None) admin nothing nothing o Ho) as (s & _ & Hs). exact (ex_intro _ s Hs).
Defined.
End CloudContractExamples.
